(* ===== verification/_CoqProject ===== *)
-Q . S2P
Prelude.v
Intmath.v
Packet.v
AbstractMem.v
DramTypes.v
PacketQueue.v
DramInit.v
Config.v
DramAddr.v
DramSched.v
DramTiming.v
DramProtocol.v
DramInitProofs.v
DramRefresh.v
DramRefreshProofs.v
Mshr.v
MshrQueue.v
CacheTags.v
CacheTagsProofs.v
CountingFilter.v
CacheTagsSpec.v
BypassTags.v
Predictor.v
CacheBuffers.v
CacheBuffersProofs.v
MissView.v
DramCtrl.v
DramCtrlProofs.v
DramLoop.v
CacheCtrl.v
PamView.v
CacheLedger.v
CacheAnswers.v
CacheQueues.v
CacheData.v
CacheDeadlock.v
EventQueue.v
EventQueueProofs.v
EventQueueSpec.v
EventQueueRun.v
EventQueueExit.v
EventQueueCheck.v
ControllerEvents.v
AddrRange.v
AddrRangeMap.v
PhysicalMem.v
SimpleMem.v
Clock.v
Bridge.v
XBar.v
XBarProofs.v
XBarRoute.v
XBarRun.v
ByteWrites.v
CopyEngine.v
CopyEngineProofs.v
AtomicOps.v
WarpInst.v
CoalesceProofs.v
WarpRun.v
AtomicPackets.v
WarpAtomics.v
GpuPageTable.v
ShaderTLB.v
ShaderMMU.v
MMUProofs.v
