(* ===== verification/Prelude.v ===== *)
(** * HAShCache: the memory system of a CPU-GPU system with a DRAM cache

    ** The program

    HAShCache is gem5-gpu (gem5 with the GPU simulator GPGPU-Sim) with a stacked
    DRAM in front of the memory that is used as a cache of 128-byte blocks.  The
    code this library verifies is the memory side of gem5/src/mem, and the way of
    a memory access of the GPU to it in gem5-gpu/src/gpu:

    - dram_ctrl.cc and .hh, the memory controller: requests are split into
      bursts, queued, scheduled (FCFS, FR-FCFS, and PrIS, which puts CPU
      requests first), checked against the timing of banks, ranks and bus,
      refreshed, and answered from the backing store;
    - dramcache_ctrl.cc and .hh, the DRAM cache controller, which is derived from
      it: direct-mapped tags kept with the data, a Bloom filter of the dirty
      blocks, bypass tags, a hit/miss predictor that starts memory accesses in
      parallel with the cache access (PAM), miss registers (MSHRs) and a write
      buffer towards the memory behind it;
    - what the two are built on: packets and commands (packet.cc and .hh), the
      backing store (abstract_mem.cc), the response queue of a port
      (packet_queue.cc), MSHRs and their queues (cache/mshr.cc,
      cache/mshr_queue.cc), integer and bit utilities (base/intmath.hh,
      base/bitfield.hh);
    - what calls the handlers and routes the addresses: the event queue and the
      simulation loop (sim/eventq.hh, eventq.cc, eventq_impl.hh, simulate.cc), and
      the physical memory with its map of interleaved address ranges
      (mem/physical.cc, base/addr_range.hh, base/addr_range_map.hh);
    - what may lie between requesters and memories, or stand in for a controller:
      the non-coherent crossbar (mem/xbar.cc, noncoherent_xbar.cc), the bridge
      (mem/bridge.cc) with the clock they use (sim/clocked_object.hh), and the
      simple memory (mem/simple_mem.cc);
    - the requesters on the GPU side: the copy engine (copy_engine.cc), the
      instructions of a warp, which are coalesced into accesses to lines and whose
      atomic operations are performed with the memory (lsq_warp_inst_buffer.cc,
      atomic_operations.cc), the memory of the GPU with its page table
      (cuda_gpu.cc), and the translation of the GPU's addresses
      (shader_tlb.cc, shader_mmu.cc).

    ** The model

    Every handler of the source is a function on a record of the members it
    works on, in the error monad [res]: [Ok], or [Fault] with the failed
    assertion, [fatal] or [panic].  Ticks and addresses are integers; arithmetic
    of machine width wraps where the code can wrap ([u8], [u32], [u64],
    [sub64]).  Bytes are [cell]s, [None] for a byte that was never initialised.
    In the controllers an event is the optional tick it is scheduled at; the
    event queue itself is modelled with its pointers, in a store of events, and
    ControllerEvents.v shows that the optional tick is what a controller
    sees of it.  A packet is a value with
    an identity [pkt_id], which stands for its address in the simulator's
    memory; a pointer to an MSHR is the number of its queue and its index.
    The statistics are maps from names to numbers.  Where the environment
    decides (a peer accepts or refuses a packet, the GPU runs a kernel, the
    predictor draws a random number, the memory answers), the decision is an
    argument of the step.  A peer that is called in the middle of a handler may
    call back: the handlers of the bridge and the releases of crossbar layers
    work on a world that contains the component, and the peer is a function on
    that world.  The virtual [process] of an event is a function that
    gives the calls the handler makes; signals of the host are an argument of the
    simulation loop, and so is whether an [mmap] succeeds.

    Code that is not under src/ is a parameter: the counting Bloom filter of
    libbf, of which only declarations are in the tree, is the class
    [BloomFilter] with the laws [BloomLaws]; CountingFilter.v shows that
    the laws can be met.

    ** Files

    - Prelude.v: the monad, record update, machine integers, statistics;
      Intmath.v: base/intmath.hh and base/bitfield.hh.
    - Packet.v (packet.cc, .hh); AbstractMem.v (abstract_mem.cc);
      PacketQueue.v (packet_queue.cc); Mshr.v, MshrQueue.v (cache/mshr.cc,
      cache/mshr_queue.cc).
    - DramTypes.v: parameters, banks, ranks, bursts (dram_ctrl.hh); Config.v:
      the configurations of DRAMCacheCtrl.py; DramInit.v, DramInitProofs.v:
      construction, [init], [startup]; DramAddr.v: [decodeAddr]; DramSched.v:
      [chooseNext], [reorderQueue], [reorderQueueCPUPrio], [minBankPrep];
      DramTiming.v: [activateBank], [prechargeBank], [doDRAMAccess];
      DramProtocol.v: the command protocol of a DRAM; DramRefresh.v,
      DramRefreshProofs.v: the events of a rank.
    - DramCtrl.v: the handlers of the memory controller, on the record [Ctrl];
      DramCtrlProofs.v: every request is answered once; DramLoop.v: the request
      loop terminates.
    - CacheTags.v, CacheTagsProofs.v, CacheTagsSpec.v: [doCacheLookup], fills and
      write allocation, against an abstract cache; BypassTags.v: the bypass
      tags; Predictor.v: the predictors.
    - CacheBuffers.v, CacheBuffersProofs.v: MSHRs, write buffer, blocking and the
      port to memory; MissView.v: what the miss queue means to a requester.
    - CacheCtrl.v: the handlers of the DRAM cache, on the record [CacheOf], whose
      field [base] is a [Ctrl].  PamView.v, CacheLedger.v and CacheAnswers.v: every
      request is answered once; CacheQueues.v: the queues and their sets, and
      writes that are refused or never answered; CacheData.v: the bytes a read
      gets after a write; CacheDeadlock.v: a run that blocks the cache for ever.
    - EventQueue.v: the linked bins of the event queue, scheduling, [serviceOne],
      the simulation loop, [debugVerify] and the checkpoint of an event;
      EventQueueProofs.v: insertion and removal on the bins; EventQueueSpec.v:
      sorted lists of events and the simulation between the two; EventQueueRun.v,
      EventQueueExit.v, EventQueueCheck.v: runs, their end, checks and
      checkpoints; ControllerEvents.v: the events of the controllers.
    - AddrRange.v, AddrRangeMap.v (base/addr_range.hh, addr_range_map.hh);
      PhysicalMem.v (mem/physical.cc).
    - SimpleMem.v (mem/simple_mem.cc); Clock.v (sim/clocked_object.hh); Bridge.v
      (mem/bridge.cc); XBar.v: layers, routing and the non-coherent crossbar
      (mem/xbar.cc, noncoherent_xbar.cc); XBarProofs.v: the invariant of a crossbar
      and its requests and responses; XBarRoute.v: announcements of ranges;
      XBarRun.v: runs of a crossbar with calls during a retry.
    - ByteWrites.v: sequences of writes to bytes; CopyEngine.v, CopyEngineProofs.v
      (gpu/copy_engine.cc and .hh).
    - AtomicOps.v (gpu/atomic_operations.cc and .hh); WarpInst.v: the buffer of a
      warp instruction and its coalescing (gpu/lsq_warp_inst_buffer.cc and .hh);
      CoalesceProofs.v, AtomicPackets.v: the accesses that coalescing makes;
      WarpRun.v, WarpAtomics.v: runs of loads, stores and atomics.
    - GpuPageTable.v: the GPU's memory and page table (gpu/gpgpu-sim/cuda_gpu.cc
      and .hh); ShaderTLB.v: the TLB memories (gpu/shader_tlb.cc and .hh);
      ShaderMMU.v: the MMU, its walkers, faults and prefetches, with the TLBs that
      ask it (gpu/shader_mmu.cc and .hh, shader_tlb.cc); MMUProofs.v:
      its runs.

    ** What the theorems show

    - Requests: over all interleavings of requests, events, refreshes, sends,
      retries and memory responses, both controllers answer every accepted
      request exactly once ([requests_answered_once], [cache_answers_once]);
      the queues of MSHRs and of packets neither lose nor duplicate
      ([queue_run_ok], [packet_queue_run_ok], [send_never_lost]); the cache is
      blocked exactly for the causes that it records ([blocked_exact]).
    - DRAM protocol: every access sequence gives a command trace that keeps all
      timing constraints, and no assertion fails ([access_trace_legal]);
      refreshes happen at their time and keep the constraints
      ([refresh_active_rank], [refresh_period]); the request loop terminates
      ([request_loop_terminates]).
    - Equivalence with reference definitions: the one-pass schedulers are the
      declarative priority orders ([chooseNext_order], [minBankPrep_spec]);
      decoding is a mixed-radix bijection for each address mapping
      ([decode_roundtrip]); the backing store
      is a memory with reservations ([mem_refines]); the tags are a direct-mapped
      cache ([tags_refine]), the bypass tags an LRU table of entries, in which a
      block may have two ([bypass_is_lru]); without write allocation the Bloom filter
      knows every dirty block ([bloom_bypass_safe]).
    - Event queue: on every run the linked bins, of whose pointers some are stale,
      are sorted lists of pending events ([eventq_refines]); without threads time
      never goes backwards ([events_in_time_order]), and the loop reaches the exit
      event ([sim_loop_returns]); the events of the controllers are optional ticks
      ([controller_events]); [debugVerify] accepts what is reached
      ([debugVerify_accepts]).
    - Interconnect: however packets are refused and retried, the bridge and the
      crossbar pass each one once and to the right port, their assertions hold, and
      nobody waits without an event or a peer that ends it ([bridge_ok], [xbar_ok]);
      a crossbar routes by what was announced last, whatever its cache held
      ([xbar_routes]); the simple memory answers as the abstract memory, in order
      and within latency and bandwidth ([simple_memory_ok]).
    - GPU: a copy of the copy engine puts the bytes of the source at the
      destination, whatever order reads and writes are answered in
      ([copy_engine_ok]); the accesses of a warp's load or store give every
      lane the bytes of its own address, or store what the lanes store
      ([warp_access_ok]); its atomic operations have the effect of performing the
      lanes' operations one by one ([warp_atomics_ok]); allocations of GPU memory
      do not overlap and their pages are mapped once ([gpu_memory_ok]); the TLB
      memories are LRU sets ([tlb_lru_ok]); every translation that is asked for is
      answered once, with the page table's page or after a fault, however walks,
      faults and time-outs are interleaved ([translations_ok]).
    - Addresses: the range map finds what was inserted
      ([insert_then_find]); the physical memory hands each address to the one
      memory that owns it, at a place of its own in the backing store
      ([physical_memory_ok]).
    - Well-formedness: parameters that are [usable] and pass the checks of the
      constructor meet the assumptions of the other theorems
      ([constructed_well_formed]); the sets beside the queues of the cache agree
      with them ([cache_sets_agree]).
    - Deviations of the code from its intention, each with a theorem that
      exhibits it: counters and samples of the tags ([gpu_dirty_count_wraps],
      [row_sample_skips_last]), write allocation that the filter does not hear of
      ([write_alloc_unknown]), the refresh period, the predictors' ranges, lost
      wake-ups ([cancel_loses_wakeup]), retries answered from within the call, which
      leave the cache blocked ([retry_from_within]), writes that abort
      or starve ([duplicate_write_aborts], [lone_write_never_answered]), lost
      write data ([read_after_write]), a permanent block ([no_target_deadlock]),
      events lost in a checkpoint ([checkpoint_drops_event]), overlapping ranges
      that are accepted and hashed addresses that are not found ([map_misses]),
      prefetched translations that crash the MMU ([prefetch_crashes]), and a
      second end of one page fault ([second_finish_panics]).

    ** Bounds and assumptions

    Theorems on times assume that the time stamps of the run stay below 2^64
    ticks, with the bound written out ([slack], [step_time] per access); nothing
    else bounds the length of runs.  The fuel of [run_loop] is twice the number of
    bursts and one, which its theorem shows to be enough.  The loops over the
    bins of the event queue have fuel for one more step than there are events;
    running out is a panic of its own, which the refinement excludes.  The fuel of
    [sim_loop] is a number of events: the theorems on runs hold for every fuel,
    and [sim_loop_returns] gives one that suffices.  Address ranges have at most
    8 interleaving bits, as their match value is a byte, and are aligned: the
    first address of a chunk belongs to its first range, without which
    lookups fail ([map_misses]).  Theorems on tags assume block numbers below 2^32, since
    [getSetTagFromAddr] works with 32-bit integers.  Runs of the DRAM cache take
    reads and writes of whole blocks, not secure and cacheable, which is what
    its requesters send, each with an identity of its own in the whole run; the
    memory answers what it was sent, reads of one block in order; and receivers of
    responses and of retries do not call back from within the call (for the
    packet queue, the bridge and the crossbar they may).  The ticks of such a run need
    not increase: what is shown holds in any order.  The latencies of the interconnect are not negative and
    clock periods positive and constant; packets through a crossbar keep their
    header delay within the microsecond it panics at.  Copies are shorter than
    2^31 bytes, as the loop over their chunks counts with an [int].  The runs of the
    MMU have its prefetching off (with it on, [prefetch_crashes]); the kernel
    maps a page before the time-out of its fault, only adds pages to the page
    table, and there is one thread context.  Atomic operations on floating-point
    numbers know one NaN word; the GPU's faults are those of the x86 build.

    ** Not modelled

    The trace dump, debug output and the PASS_PC build (whose code does not
    compile) of dramcache_ctrl.cc; the energy computed by DRAMPower from the
    commands, which are recorded; functional accesses of ports and the printing
    of state; the snoop and fill paths of MSHRs that the DRAM cache never takes;
    checkpoints other than that of an event; the threads of the simulator with
    their locks and barriers, and the creation of events by name; atomic and
    functional accesses through bridge and crossbar, and clock domains that change
    their frequency.  The rest of gem5 (CPUs, instruction sets,
    devices, classic caches with the coherent crossbar and its snoop filter,
    Ruby and its SLICC protocols), the cores, kernels and streams of gem5-gpu
    and GPGPU-Sim are clients of the parts modelled here and reach them only
    through packets and lane requests; power and area models, configuration and regression scripts take
    no part in it. *)

From stdpp Require Export base list gmap strings sorting.
From Stdlib Require Export ZArith Lia.

Declare Scope hashcache_scope.
Delimit Scope hashcache_scope with hc.
Global Open Scope Z_scope.
Global Open Scope hashcache_scope.

#[global] Arguments Z.min : simpl never.
#[global] Arguments Z.max : simpl never.
#[global] Arguments Z.add : simpl never.
#[global] Arguments Z.sub : simpl never.
#[global] Arguments Z.mul : simpl never.
#[global] Arguments Z.pow : simpl never.
#[global] Arguments Z.div : simpl never.
#[global] Arguments Z.modulo : simpl never.

(** ** Failing computations

    The simulator stops on a failed [assert], on [panic] and on [fatal]; a
    handler that can do so returns a [res]. *)

Inductive fault : Set :=
| AssertFail (cond : string)
| Panic (msg : string)
| Fatal (msg : string).

Inductive res (A : Type) : Type :=
| Ok (a : A)
| Fault (f : fault).
Arguments Ok {A} a.
Arguments Fault {A} f.

#[export] Instance res_ret : MRet res := @Ok.
#[export] Instance res_bind : MBind res :=
  λ A B f m, match m with Ok a => f a | Fault e => Fault e end.
#[export] Instance res_fmap : FMap res :=
  λ A B f m, match m with Ok a => Ok (f a) | Fault e => Fault e end.

(** [assert(cond)] of the C++ code. *)
Definition assert (cond : bool) (txt : string) : res unit :=
  if cond then Ok tt else Fault (AssertFail txt).

Definition is_ok {A} (m : res A) : Prop := ∃ a, m = Ok a.

Lemma bind_ok {A B} (f : A → res B) (m : res A) b :
  m ≫= f = Ok b ↔ ∃ a, m = Ok a ∧ f a = Ok b.
Proof. destruct m; cbn; naive_solver. Qed.

Lemma assert_ok b txt u : assert b txt = Ok u ↔ b = true.
Proof. destruct b, u; cbn; naive_solver. Qed.

Lemma assert_true b txt : b = true → assert b txt = Ok tt.
Proof. by intros ->. Qed.

Lemma assert_bind {B} b txt (f : unit → res B) : b = true → assert b txt ≫= f = f tt.
Proof. by intros ->. Qed.

Lemma ok_bind {A B} (m : res A) (f : A → res B) a : m = Ok a → m ≫= f = f a.
Proof. by intros ->. Qed.

(** Left-to-right iteration of a failing step over a list ([for] loops). *)
Fixpoint foldM {A B} (f : B → A → res B) (b : B) (l : list A) : res B :=
  match l with
  | [] => Ok b
  | x :: l => b' ← f b x; foldM f b' l
  end.

(** A property kept by every successful step is kept by the whole loop. *)
Lemma foldM_ind {A B} (I : B → Prop) (f : B → A → res B) l b b' :
  (∀ b x b', x ∈ l → I b → f b x = Ok b' → I b') →
  I b → foldM f b l = Ok b' → I b'.
Proof.
  revert b. induction l as [|x l IH]; cbn; intros b Hf Hb H; [congruence|].
  apply bind_ok in H as (b1 & H1 & H2).
  eapply IH; [|eapply Hf; [| |exact H1]|exact H2]; set_solver.
Qed.

(** Break the binds and asserts of a successful run into their steps. *)
Ltac res_inv :=
  repeat match goal with
  | H : _ ≫= _ = Ok _ |- _ =>
      let a := fresh "a" in let E := fresh "E" in
      apply bind_ok in H as (a & E & H)
  | H : assert _ _ = Ok _ |- _ => apply assert_ok in H
  | H : Ok _ = Ok _ |- _ => injection H as H
  | H : mret _ = Ok _ |- _ => injection H as H
  | H : Fault _ = Ok _ |- _ => discriminate H
  | H : (_ && _)%bool = true |- _ => apply andb_prop in H as [? ?]
  end; simplify_eq/=.

(** ** Record update *)

(** [eta r] rebuilds [r] from its projections; the setter of a projection is
    obtained from it by replacing that projection. *)
Class Eta (R : Type) := eta : R → R.
Class Setter {R E : Type} (getter : R → E) := mkSetter { set_field : (E → E) → R → R }.
Arguments set_field {R E} getter {_} _ _ /.
#[export] Hint Mode Setter ! - ! : typeclass_instances.

Ltac derive_setter R E getter :=
  apply mkSetter;
  let f := fresh "f" in let r := fresh "r" in
  intros f r;
  let e := constr:(_ : Eta R) in
  let b := eval red in (e r) in
  lazymatch b with
  | context C [getter r] => let b' := context C [f (getter r)] in exact b'
  end.
#[export] Hint Extern 1 (@Setter ?R ?E ?getter) =>
  derive_setter R E getter : typeclass_instances.

Notation "x <| p := v |>" := (set_field p (λ _, v) x)
  (at level 1, left associativity, p at level 10) : hashcache_scope.
Notation "x <| p ::= f |>" := (set_field p f x)
  (at level 1, left associativity, p at level 10) : hashcache_scope.

(** ** Machine integers

    A C++ unsigned value is a [Z] kept in range by these truncations. *)

Definition u8 (z : Z) : Z := z mod 2 ^ 8.
Definition u16 (z : Z) : Z := z mod 2 ^ 16.
Definition u32 (z : Z) : Z := z mod 2 ^ 32.
Definition u64 (z : Z) : Z := z mod 2 ^ 64.

(** Unsigned 64-bit subtraction: wraps below zero. *)
Definition sub64 (a b : Z) : Z := u64 (a - b).

Abbreviation Addr := Z (only parsing).
Abbreviation Tick := Z (only parsing).

(** [MaxTick]: the largest [uint64_t]. *)
Definition MaxTick : Tick := 2 ^ 64 - 1.

Lemma u8_small z : 0 ≤ z < 2 ^ 8 → u8 z = z.
Proof. apply Z.mod_small. Qed.
Lemma u16_small z : 0 ≤ z < 2 ^ 16 → u16 z = z.
Proof. apply Z.mod_small. Qed.
Lemma u32_small z : 0 ≤ z < 2 ^ 32 → u32 z = z.
Proof. apply Z.mod_small. Qed.
Lemma u64_small z : 0 ≤ z < 2 ^ 64 → u64 z = z.
Proof. apply Z.mod_small. Qed.
Lemma u32_range z : 0 ≤ u32 z < 2 ^ 32.
Proof. by apply Z.mod_pos_bound. Qed.
Lemma u64_range z : 0 ≤ u64 z < 2 ^ 64.
Proof. by apply Z.mod_pos_bound. Qed.
Lemma sub64_small a b : 0 ≤ b ≤ a → a < 2 ^ 64 → sub64 a b = a - b.
Proof. intros. apply u64_small. lia. Qed.

(** ** Lists as queues *)

Section queues.
Context {A : Type}.
Implicit Types (l : list A) (i : nat).

(** [queue.erase(it); queue.push_front( *it)]. *)
Definition move_to_front (i : nat) (l : list A) : list A :=
  match l !! i with Some x => x :: delete i l | None => l end.

Lemma move_to_front_perm i l : move_to_front i l ≡ₚ l.
Proof.
  unfold move_to_front. destruct (l !! i) eqn:E; [|done].
  by rewrite <-delete_Permutation.
Qed.

Lemma move_to_front_head i l x : l !! i = Some x → head (move_to_front i l) = Some x.
Proof. unfold move_to_front. by intros ->. Qed.

(** The index of the first element that satisfies a test. *)
Definition first_index (p : A → bool) (l : list A) : option nat :=
  fst <$> list_find (λ x, Is_true (p x)) l.

Lemma first_index_Some p l i :
  first_index p l = Some i ↔
  ∃ x, l !! i = Some x ∧ p x = true ∧
       ∀ j y, (j < i)%nat → l !! j = Some y → p y = false.
Proof.
  unfold first_index. rewrite fmap_Some. split.
  - intros ([j x] & (Hx & Hp & Hlt)%list_find_Some & ->); cbn.
    exists x. split_and!; [done|by apply Is_true_true|].
    intros k y Hk Hy. specialize (Hlt k y Hy Hk). by destruct (p y).
  - intros (x & Hx & Hp & Hlt). exists (i, x). split; [|done].
    apply list_find_Some. split_and!; [done|by apply Is_true_true|].
    intros k y Hy Hk. rewrite (Hlt k y Hk Hy). by intros [].
Qed.

Lemma first_index_None p l :
  first_index p l = None ↔ ∀ x, x ∈ l → p x = false.
Proof.
  unfold first_index. rewrite fmap_None, list_find_None, Forall_forall.
  split; intros H x Hx; specialize (H x Hx); destruct (p x); naive_solver.
Qed.

Lemma first_index_none p l x :
  first_index p l = None → p x = false → first_index p (l ++ [x]) = None.
Proof.
  rewrite !first_index_None. intros H Hx y [?| ->%list_elem_of_singleton]%elem_of_app; auto.
Qed.

Lemma first_index_here p l x l' :
  first_index p l = None → p x = true → first_index p (l ++ x :: l') = Some (length l).
Proof.
  rewrite first_index_None, first_index_Some. intros H Hx. exists x.
  split_and!; [by apply list_lookup_middle|done|].
  intros j y Hj Hy. apply H. rewrite lookup_app_l in Hy by done.
  by eapply list_elem_of_lookup_2.
Qed.

Lemma first_index_some p l x i :
  first_index p l = Some i → first_index p (l ++ [x]) = Some i.
Proof.
  rewrite !first_index_Some. intros (y & Hy & Hp & Hlt). exists y.
  pose proof (lookup_lt_Some _ _ _ Hy).
  split_and!; [by apply lookup_app_l_Some|done|].
  intros j z Hj Hz. apply (Hlt j z Hj). rewrite lookup_app_l in Hz by lia. done.
Qed.
End queues.

(** One more element at the end of a queue. *)
Lemma first_index_snoc {A} (p : A → bool) l x :
  first_index p (l ++ [x]) =
  match first_index p l with
  | Some i => Some i
  | None => if p x then Some (length l) else None
  end.
Proof.
  destruct (first_index p l) eqn:E; [by apply first_index_some|].
  destruct (p x) eqn:Ex; [by apply first_index_here|by apply first_index_none].
Qed.

Definition isSome {A} (o : option A) : bool :=
  match o with Some _ => true | None => false end.

(** [first_some a b]: the first of two optional choices. *)
Definition first_some {A} (a b : option A) : option A :=
  match a with Some _ => a | None => b end.
Notation "a <|> b" := (first_some a b)
  (at level 62, right associativity) : hashcache_scope.

(** ** Statistics

    A [Stats::Scalar], an element of a [Stats::Vector] or a bucket of a
    histogram is an entry of a map from its name and index to its value. *)

Abbreviation stats := (gmap (string * Z) Z).

Definition stat_get (name : string) (i : Z) (st : stats) : Z :=
  default 0 (st !! (name, i)).
Definition stat_set (name : string) (i v : Z) (st : stats) : stats :=
  <[(name, i) := v]> st.
Definition stat_add (name : string) (i v : Z) (st : stats) : stats :=
  stat_set name i (stat_get name i st + v) st.
(** [name++] on a scalar, [name[i]++] on a vector or [name.sample(i)]. *)
Definition stat_inc (name : string) (st : stats) : stats := stat_add name 0 1 st.
Definition stat_inc_at (name : string) (i : Z) (st : stats) : stats :=
  stat_add name i 1 st.

Lemma stat_get_add n i v m j st :
  stat_get m j (stat_add n i v st) =
  stat_get m j st + (if decide ((n, i) = (m, j)) then v else 0).
Proof.
  unfold stat_get at 1, stat_add, stat_set. rewrite lookup_insert.
  case_decide as E; [injection E as -> ->; done|]. unfold stat_get. cbn. lia.
Qed.
