(* ===== verification/Intmath.v ===== *)
(** * Integer and bit-field helpers (gem5/src/base/intmath.hh, bitfield.hh)

    The arithmetic helpers the memory controllers call: [divCeil],
    [isPowerOf2], [floorLog2]/[ceilLog2] and the bit-field accessors used for
    the bank masks of the DRAM scheduler.  Each is shown equal to the
    mathematical function it stands for. *)

From S2P Require Import Prelude.

Module Intmath.

(** ** intmath.hh *)

(** [n & ~(n - 1)] on an unsigned 64-bit value. *)
Definition leastSigBit (n : Z) : Z := Z.land n (u64 (Z.lnot (sub64 n 1))).

Definition isPowerOf2 (n : Z) : bool := negb (n =? 0) && (leastSigBit n =? n).

(** One line [if (x & m) { y += k; x >>= k; }] of [floorLog2]. *)
Definition log2_step (k m : Z) (yx : Z * Z) : Z * Z :=
  let '(y, x) := yx in
  if Z.land x m =? 0 then (y, x) else (y + k, Z.shiftr x k).

(** [floorLog2(unsigned long long)]. *)
Definition floorLog2 (x : Z) : res Z :=
  assert (0 <? x) "x > 0";;
  let s := (0, x) in
  let s := log2_step 32 0xffffffff00000000 s in
  let s := log2_step 16 0x00000000ffff0000 s in
  let s := log2_step 8 0x000000000000ff00 s in
  let s := log2_step 4 0x00000000000000f0 s in
  let s := log2_step 2 0x000000000000000c s in
  let s := log2_step 1 0x0000000000000002 s in
  Ok (fst s).

Definition ceilLog2 (n : Z) : res Z :=
  if n =? 1 then Ok 0 else y ← floorLog2 (sub64 n 1); Ok (y + 1).

Definition divCeil (a b : Z) : Z := (a + b - 1) / b.

(** ** bitfield.hh *)

Definition mask (nbits : Z) : Z :=
  if nbits =? 64 then u64 (-1) else u64 (Z.shiftl 1 nbits - 1).

Definition bits (val first last : Z) : Z :=
  Z.land (Z.shiftr val last) (mask (first - last + 1)).

Definition insertBits (val first last bit_val : Z) : Z :=
  let bmask := u64 (Z.shiftl (mask (first - last + 1)) last) in
  Z.lor (Z.land (u64 (Z.shiftl bit_val last)) bmask)
        (Z.land val (u64 (Z.lnot bmask))).

Definition replaceBits := insertBits.

(** ** Correctness *)

Lemma land_high_zero x k :
  0 < k → 0 ≤ x < 2 ^ (2 * k) →
  Z.land x (Z.shiftl (Z.ones k) k) = Z.shiftl (Z.shiftr x k) k.
Proof.
  intros Hk Hx. apply Z.bits_inj'. intros i Hi.
  rewrite Z.land_spec, !Z.shiftl_spec by lia.
  destruct (decide (i < k)).
  - rewrite !(Z.testbit_neg_r _ (i - k)) by lia. apply andb_false_r.
  - rewrite Z.shiftr_spec by lia. replace (i - k + k) with i by lia.
    destruct (decide (i < 2 * k)).
    + rewrite Z.ones_spec_low by lia. apply andb_true_r.
    + rewrite Z.ones_spec_high by lia. rewrite andb_false_r.
      destruct (decide (x = 0)) as [->|]; [by rewrite Z.testbit_0_l|].
      symmetry. apply Z.bits_above_log2; [lia|].
      apply Z.log2_lt_pow2; [lia|].
      apply Z.lt_le_trans with (2 ^ (2 * k)); [lia|].
      apply Z.pow_le_mono_r; lia.
Qed.

Lemma log2_step_spec k m y x y' x' :
  0 < k → m = Z.shiftl (Z.ones k) k → 0 < x < 2 ^ (2 * k) →
  log2_step k m (y, x) = (y', x') →
  y' + Z.log2 x' = y + Z.log2 x ∧ 0 < x' < 2 ^ k.
Proof.
  intros Hk -> Hx. unfold log2_step.
  rewrite land_high_zero by lia.
  destruct (Z.shiftl (Z.shiftr x k) k =? 0) eqn:E; intros [= <- <-].
  - apply Z.eqb_eq, Z.shiftl_eq_0_iff, Z.shiftr_eq_0_iff in E; [|lia].
    split; [done|]. split; [lia|]. apply Z.log2_lt_cancel.
    rewrite Z.log2_pow2; lia.
  - apply Z.eqb_neq in E.
    assert (Z.shiftr x k ≠ 0) as Hnz.
    { intros H0. apply E. rewrite H0. apply Z.shiftl_0_l. }
    assert (0 ≤ Z.shiftr x k) by (apply Z.shiftr_nonneg; lia).
    assert (k ≤ Z.log2 x) as Hlog.
    { destruct (decide (Z.log2 x < k)); [|lia].
      exfalso. apply Hnz, Z.shiftr_eq_0_iff. right. lia. }
    rewrite Z.log2_shiftr by lia. split; [lia|]. split; [lia|].
    rewrite Z.shiftr_div_pow2 by lia. apply Z.div_lt_upper_bound; [lia|].
    rewrite <- Z.pow_add_r by lia. replace (k + k) with (2 * k) by lia. lia.
Qed.

(** [floorLog2] computes the base-two logarithm of every positive 64-bit value. *)
Lemma floorLog2_log2 x : 0 < x < 2 ^ 64 → floorLog2 x = Ok (Z.log2 x).
Proof.
  intros Hx. unfold floorLog2. rewrite assert_true by (apply Z.ltb_lt; lia).
  unfold mbind, res_bind. cbv zeta.
  destruct (log2_step 32 0xffffffff00000000 (0, x)) as [y1 x1] eqn:E1.
  apply log2_step_spec in E1 as [H1 B1]; [|lia|done|lia].
  destruct (log2_step 16 0x00000000ffff0000 (y1, x1)) as [y2 x2] eqn:E2.
  apply log2_step_spec in E2 as [H2 B2]; [|lia|done|lia].
  destruct (log2_step 8 0x000000000000ff00 (y2, x2)) as [y3 x3] eqn:E3.
  apply log2_step_spec in E3 as [H3 B3]; [|lia|done|lia].
  destruct (log2_step 4 0x00000000000000f0 (y3, x3)) as [y4 x4] eqn:E4.
  apply log2_step_spec in E4 as [H4 B4]; [|lia|done|lia].
  destruct (log2_step 2 0x000000000000000c (y4, x4)) as [y5 x5] eqn:E5.
  apply log2_step_spec in E5 as [H5 B5]; [|lia|done|lia].
  destruct (log2_step 1 0x0000000000000002 (y5, x5)) as [y6 x6] eqn:E6.
  apply log2_step_spec in E6 as [H6 B6]; [|lia|done|lia].
  assert (x6 = 1) as -> by lia. change (Z.log2 1) with 0 in H6.
  cbn. f_equal. lia.
Qed.

Lemma ceilLog2_log2_up x : 0 < x < 2 ^ 64 → ceilLog2 x = Ok (Z.log2_up x).
Proof.
  intros Hx. unfold ceilLog2. destruct (Z.eqb_spec x 1) as [->|]; [done|].
  rewrite sub64_small by lia. rewrite floorLog2_log2 by lia. cbn. f_equal.
  rewrite Z.log2_up_eqn by lia. rewrite <-Z.sub_1_r. lia.
Qed.

Lemma divCeil_spec a b :
  0 < b → (divCeil a b - 1) * b < a ≤ divCeil a b * b.
Proof.
  intros Hb. unfold divCeil. pose proof (Z.div_mod (a + b - 1) b ltac:(lia)).
  pose proof (Z.mod_pos_bound (a + b - 1) b Hb). nia.
Qed.

Lemma mask_1 : mask 1 = 1.
Proof. done. Qed.

(** Reading one bit. *)
Lemma bits_single v i : 0 ≤ i → bits v i i = Z.b2z (Z.testbit v i).
Proof.
  intros Hi. unfold bits. replace (i - i + 1) with 1 by lia. rewrite mask_1.
  apply Z.bits_inj'. intros j Hj. rewrite Z.land_spec, Z.shiftr_spec by lia.
  destruct (decide (j = 0)) as [->|].
  - rewrite Z.b2z_bit0. change (Z.testbit 1 0) with true.
    rewrite andb_true_r. f_equal; lia.
  - rewrite (Z.bits_above_log2 1 j), andb_false_r by (cbn; lia).
    symmetry. destruct (Z.testbit v i); cbn [Z.b2z].
    + apply Z.bits_above_log2; cbn; lia.
    + apply Z.testbit_0_l.
Qed.

Lemma u64_testbit v i : 0 ≤ i < 64 → Z.testbit (u64 v) i = Z.testbit v i.
Proof. intros. unfold u64. apply Z.mod_pow2_bits_low. lia. Qed.
Lemma u64_testbit_high v i : 64 ≤ i → Z.testbit (u64 v) i = false.
Proof. intros. unfold u64. apply Z.mod_pow2_bits_high. lia. Qed.

(** Setting one bit of a 64-bit mask: that bit becomes 1, the others stay. *)
Lemma insertBits_one v i j :
  0 ≤ i < 64 → 0 ≤ v < 2 ^ 64 → 0 ≤ j →
  Z.testbit (insertBits v i i 1) j = if decide (i = j) then true else Z.testbit v j.
Proof.
  intros Hi Hv Hj. unfold insertBits. replace (i - i + 1) with 1 by lia.
  rewrite mask_1.
  assert (∀ k, 0 ≤ k → Z.testbit (u64 (Z.shiftl 1 i)) k = bool_decide (i = k)) as Hb.
  { intros k Hk. destruct (decide (k < 64)).
    - rewrite u64_testbit by lia. rewrite Z.shiftl_1_l, Z.pow2_bits_eqb by lia.
      by destruct (Z.eqb_spec i k); case_bool_decide.
    - rewrite u64_testbit_high by lia. case_bool_decide; [lia|done]. }
  rewrite Z.lor_spec, !Z.land_spec, Hb by lia.
  destruct (decide (j < 64)).
  - rewrite u64_testbit, Z.lnot_spec, Hb by lia.
    case_bool_decide; case_decide; try lia; cbn;
      rewrite ?andb_false_r, ?andb_true_r; done.
  - rewrite u64_testbit_high by lia. case_bool_decide; [lia|].
    case_decide; [lia|]. cbn. rewrite andb_false_r. symmetry.
    destruct (decide (v = 0)) as [->|]; [apply Z.testbit_0_l|].
    apply Z.bits_above_log2; [lia|]. apply Z.log2_lt_pow2; [lia|].
    apply Z.lt_le_trans with (2 ^ 64); [lia|]. apply Z.pow_le_mono_r; lia.
Qed.

Lemma insertBits_one_range v i :
  0 ≤ i < 64 → 0 ≤ v < 2 ^ 64 → 0 ≤ insertBits v i i 1 < 2 ^ 64.
Proof.
  intros Hi Hv. unfold insertBits. replace (i - i + 1) with 1 by lia.
  rewrite mask_1. set (b := u64 (Z.shiftl 1 i)).
  assert (0 ≤ b < 2 ^ 64) by apply u64_range.
  assert (0 ≤ u64 (Z.lnot b) < 2 ^ 64) by apply u64_range.
  assert (Hn : 0 ≤ Z.lor (Z.land b b) (Z.land v (u64 (Z.lnot b)))).
  { apply Z.lor_nonneg. split; apply Z.land_nonneg; lia. }
  split; [done|].
  destruct (decide (Z.lor (Z.land b b) (Z.land v (u64 (Z.lnot b))) = 0)) as [->|]; [lia|].
  apply Z.log2_lt_pow2; [lia|].
  rewrite Z.log2_lor by (apply Z.land_nonneg; lia).
  rewrite Z.land_diag.
  assert (∀ z, 0 ≤ z < 2 ^ 64 → Z.log2 z < 64) as Hl.
  { intros z Hz. destruct (decide (z = 0)) as [->|]; [done|].
    apply Z.log2_lt_pow2; lia. }
  apply Z.max_lub_lt; [by apply Hl|].
  eapply Z.le_lt_trans; [apply Z.log2_land; lia|].
  pose proof (Hl v Hv). lia.
Qed.

End Intmath.
