(* ===== verification/Packet.v ===== *)
(** * Memory commands and packets (gem5/src/mem/packet.hh, packet.cc)

    [MemCmd] is the command enumeration with its attribute table; [Packet] is
    the request or response that travels between the caches, the DRAM cache
    and main memory.  A packet is passed by value and carries the identity
    ([pkt_id]) of the C++ object, which the code compares as a pointer. *)

From S2P Require Import Prelude.

Module MemCmd.

Inductive Command : Set :=
| InvalidCmd | ReadReq | ReadResp | ReadRespWithInvalidate | WriteReq
| WriteResp | Writeback | CleanEvict | SoftPFReq | HardPFReq | SoftPFResp
| HardPFResp | WriteLineReq | UpgradeReq | SCUpgradeReq | UpgradeResp
| SCUpgradeFailReq | UpgradeFailResp | ReadExReq | ReadExResp | ReadCleanReq
| ReadSharedReq | LoadLockedReq | StoreCondReq | StoreCondFailReq
| StoreCondResp | SwapReq | SwapResp | MessageReq | MessageResp | ReleaseReq
| ReleaseResp | AcquireReq | AcquireResp | InvalidDestError | BadAddressError
| FunctionalReadError | FunctionalWriteError | PrintReq | FlushReq | FlushResp
| InvalidateReq | InvalidateResp | FlushAllReq | FlushAllResp | FenceReq
| FenceResp.

#[export] Instance Command_eq_dec : EqDecision Command.
Proof. solve_decision. Defined.

Inductive Attribute : Set :=
| IsRead | IsWrite | IsUpgrade | IsInvalidate | NeedsExclusive | IsRequest
| IsResponse | NeedsResponse | IsSWPrefetch | IsHWPrefetch | IsLlsc | HasData
| IsError | IsPrint | IsFlush.

#[export] Instance Attribute_eq_dec : EqDecision Attribute.
Proof. solve_decision. Defined.

Record CommandInfo := mkInfo
  { attributes : list Attribute; response : Command; str : string }.

(** [MemCmd::commandInfo]: the attributes, the matching response and the name
    of each command. *)
Definition commandInfo (c : Command) : CommandInfo :=
  match c with
  | InvalidCmd => mkInfo [] InvalidCmd "InvalidCmd"
  | ReadReq => mkInfo [IsRead; IsRequest; NeedsResponse] ReadResp "ReadReq"
  | ReadResp => mkInfo [IsRead; IsResponse; HasData] InvalidCmd "ReadResp"
  | ReadRespWithInvalidate =>
      mkInfo [IsRead; IsResponse; HasData; IsInvalidate] InvalidCmd
        "ReadRespWithInvalidate"
  | WriteReq =>
      mkInfo [IsWrite; NeedsExclusive; IsRequest; NeedsResponse; HasData]
        WriteResp "WriteReq"
  | WriteResp =>
      mkInfo [IsWrite; NeedsExclusive; IsResponse] InvalidCmd "WriteResp"
  | Writeback =>
      mkInfo [IsWrite; NeedsExclusive; IsRequest; HasData] InvalidCmd "Writeback"
  | CleanEvict => mkInfo [IsWrite; IsRequest] InvalidCmd "CleanEvict"
  | SoftPFReq =>
      mkInfo [IsRead; IsRequest; IsSWPrefetch; NeedsResponse] SoftPFResp "SoftPFReq"
  | HardPFReq =>
      mkInfo [IsRead; IsRequest; IsHWPrefetch; NeedsResponse] HardPFResp "HardPFReq"
  | SoftPFResp =>
      mkInfo [IsRead; IsResponse; IsSWPrefetch; HasData] InvalidCmd "SoftPFResp"
  | HardPFResp =>
      mkInfo [IsRead; IsResponse; IsHWPrefetch; HasData] InvalidCmd "HardPFResp"
  | WriteLineReq =>
      mkInfo [IsWrite; NeedsExclusive; IsRequest; NeedsResponse; HasData]
        WriteResp "WriteLineReq"
  | UpgradeReq =>
      mkInfo [IsInvalidate; NeedsExclusive; IsUpgrade; IsRequest; NeedsResponse]
        UpgradeResp "UpgradeReq"
  | SCUpgradeReq =>
      mkInfo [IsInvalidate; NeedsExclusive; IsUpgrade; IsLlsc; IsRequest;
              NeedsResponse] UpgradeResp "SCUpgradeReq"
  | UpgradeResp =>
      mkInfo [NeedsExclusive; IsUpgrade; IsResponse] InvalidCmd "UpgradeResp"
  | SCUpgradeFailReq =>
      mkInfo [IsRead; NeedsExclusive; IsInvalidate; IsLlsc; IsRequest;
              NeedsResponse] UpgradeFailResp "SCUpgradeFailReq"
  | UpgradeFailResp =>
      mkInfo [IsRead; NeedsExclusive; IsResponse; HasData] InvalidCmd
        "UpgradeFailResp"
  | ReadExReq =>
      mkInfo [IsRead; NeedsExclusive; IsInvalidate; IsRequest; NeedsResponse]
        ReadExResp "ReadExReq"
  | ReadExResp =>
      mkInfo [IsRead; NeedsExclusive; IsResponse; HasData] InvalidCmd "ReadExResp"
  | ReadCleanReq =>
      mkInfo [IsRead; IsRequest; NeedsResponse] ReadResp "ReadCleanReq"
  | ReadSharedReq =>
      mkInfo [IsRead; IsRequest; NeedsResponse] ReadResp "ReadSharedReq"
  | LoadLockedReq =>
      mkInfo [IsRead; IsLlsc; IsRequest; NeedsResponse] ReadResp "LoadLockedReq"
  | StoreCondReq =>
      mkInfo [IsWrite; NeedsExclusive; IsLlsc; IsRequest; NeedsResponse; HasData]
        StoreCondResp "StoreCondReq"
  | StoreCondFailReq =>
      mkInfo [IsWrite; NeedsExclusive; IsLlsc; IsRequest; NeedsResponse; HasData]
        StoreCondResp "StoreCondFailReq"
  | StoreCondResp =>
      mkInfo [IsWrite; NeedsExclusive; IsLlsc; IsResponse] InvalidCmd "StoreCondResp"
  | SwapReq =>
      mkInfo [IsRead; IsWrite; NeedsExclusive; IsRequest; HasData; NeedsResponse]
        SwapResp "SwapReq"
  | SwapResp =>
      mkInfo [IsRead; IsWrite; NeedsExclusive; IsResponse; HasData] InvalidCmd
        "SwapResp"
  | MessageReq =>
      mkInfo [IsWrite; IsRequest; NeedsResponse; HasData] MessageResp "MessageReq"
  | MessageResp => mkInfo [IsWrite; IsResponse] InvalidCmd "MessageResp"
  | ReleaseReq => mkInfo [IsRequest; NeedsResponse] ReleaseResp "ReleaseReq"
  | ReleaseResp => mkInfo [IsResponse] InvalidCmd "ReleaseResp"
  | AcquireReq => mkInfo [IsRequest; NeedsResponse] AcquireResp "AcquireReq"
  | AcquireResp => mkInfo [IsResponse; NeedsResponse] InvalidCmd "AcquireResp"
  | InvalidDestError => mkInfo [IsResponse; IsError] InvalidCmd "InvalidDestError"
  | BadAddressError => mkInfo [IsResponse; IsError] InvalidCmd "BadAddressError"
  | FunctionalReadError =>
      mkInfo [IsRead; IsResponse; IsError] InvalidCmd "FunctionalReadError"
  | FunctionalWriteError =>
      mkInfo [IsWrite; IsResponse; IsError] InvalidCmd "FunctionalWriteError"
  | PrintReq => mkInfo [IsRequest; IsPrint] InvalidCmd "PrintReq"
  | FlushReq =>
      mkInfo [IsRequest; IsFlush; NeedsExclusive; NeedsResponse] FlushResp "FlushReq"
  | FlushResp => mkInfo [IsResponse; IsFlush; NeedsExclusive] InvalidCmd "FlushResp"
  | InvalidateReq =>
      mkInfo [IsInvalidate; IsRequest; NeedsExclusive; NeedsResponse]
        InvalidateResp "InvalidateReq"
  | InvalidateResp =>
      mkInfo [IsInvalidate; IsResponse; NeedsExclusive] InvalidCmd "InvalidateResp"
  | FlushAllReq =>
      mkInfo [IsRequest; NeedsResponse; IsFlush; IsInvalidate] FlushAllResp
        "FlushAllReq"
  | FlushAllResp =>
      mkInfo [IsResponse; IsFlush; IsInvalidate] InvalidCmd "FlushAllResp"
  | FenceReq => mkInfo [IsRequest; NeedsResponse] FenceResp "FenceReq"
  | FenceResp => mkInfo [IsResponse] InvalidCmd "FenceResp"
  end.

Definition testCmdAttrib (c : Command) (a : Attribute) : bool :=
  bool_decide (a ∈ attributes (commandInfo c)).

Definition isRead c := testCmdAttrib c IsRead.
Definition isWrite c := testCmdAttrib c IsWrite.
Definition isUpgrade c := testCmdAttrib c IsUpgrade.
Definition isRequest c := testCmdAttrib c IsRequest.
Definition isResponse c := testCmdAttrib c IsResponse.
Definition needsExclusive c := testCmdAttrib c NeedsExclusive.
Definition needsResponse c := testCmdAttrib c NeedsResponse.
Definition isInvalidate c := testCmdAttrib c IsInvalidate.
Definition hasData c := testCmdAttrib c HasData.
Definition isLLSC c := testCmdAttrib c IsLlsc.
Definition responseCommand c := response (commandInfo c).

(** All commands, to check the table by computation. *)
Definition all_commands : list Command :=
  [InvalidCmd; ReadReq; ReadResp; ReadRespWithInvalidate; WriteReq;
   WriteResp; Writeback; CleanEvict; SoftPFReq; HardPFReq; SoftPFResp;
   HardPFResp; WriteLineReq; UpgradeReq; SCUpgradeReq; UpgradeResp;
   SCUpgradeFailReq; UpgradeFailResp; ReadExReq; ReadExResp; ReadCleanReq;
   ReadSharedReq; LoadLockedReq; StoreCondReq; StoreCondFailReq;
   StoreCondResp; SwapReq; SwapResp; MessageReq; MessageResp; ReleaseReq;
   ReleaseResp; AcquireReq; AcquireResp; InvalidDestError; BadAddressError;
   FunctionalReadError; FunctionalWriteError; PrintReq; FlushReq; FlushResp;
   InvalidateReq; InvalidateResp; FlushAllReq; FlushAllResp; FenceReq;
   FenceResp].

Lemma all_commands_complete c : c ∈ all_commands.
Proof. destruct c; unfold all_commands; set_solver. Qed.

(** A boolean property of every command holds if it computes to [true] on the
    whole table. *)
Lemma commands_forall (p : Command → bool) :
  forallb p all_commands = true → ∀ c, p c = true.
Proof.
  intros H c. rewrite forallb_forall in H. apply H, list_elem_of_In, all_commands_complete.
Qed.

End MemCmd.

Module Packet.
Import MemCmd.

(** A byte of storage; [None] is an indeterminate (uninitialised) byte. *)
Abbreviation cell := (option Z).

(** The payload: no data pointer, [STATIC_DATA] or [DYNAMIC_DATA]. *)
Inductive pdata : Set :=
| NoData
| StaticData (bs : list cell)
| DynamicData (bs : list cell).

(** The reference to an MSHR held in [senderState]: the queue's index and the
    register in that queue. *)
Definition mshr_ref : Set := Z * nat.

Record Packet := mkPacket
  { pkt_id : Z;
    cmd : Command;
    addr : Addr;
    size : Z;
    isSecure : bool;
    hasContextId : bool;     (** [req->hasContextId()] *)
    contextId : Z;           (** [req->contextId()] *)
    isUncacheable : bool;    (** [req->isUncacheable()] *)
    masterId : Z;            (** [req->masterId()] *)
    isInstFetch : bool;      (** [req->isInstFetch()] *)
    isCondSwap : bool;       (** [req->isCondSwap()] *)
    extraData : Z;           (** [req->getExtraData()] *)
    memInhibit : bool;       (** the [MEM_INHIBIT] flag *)
    isExpressSnoop : bool;   (** the [EXPRESS_SNOOP] flag *)
    headerDelay : Z;
    payloadDelay : Z;
    data : pdata;
    senderState : option mshr_ref }.

#[export] Instance eta_Packet : Eta Packet := λ p,
  mkPacket (pkt_id p) (cmd p) (addr p) (size p) (isSecure p)
    (hasContextId p) (contextId p) (isUncacheable p) (masterId p) (isInstFetch p)
    (isCondSwap p) (extraData p) (memInhibit p) (isExpressSnoop p) (headerDelay p) (payloadDelay p) (data p)
    (senderState p).

(** The context id of GPU requests (AbstractController.cc sets it). *)
Definition GPU_CTX : Z := 31.
Definition isGPU (p : Packet) : bool := contextId p =? GPU_CTX.

(** [Packet::makeResponse]. *)
Definition makeResponse (p : Packet) : res Packet :=
  assert (needsResponse (cmd p)) "needsResponse()";;
  assert (isRequest (cmd p)) "isRequest()";;
  Ok (p <| cmd := responseCommand (cmd p) |>).

(** [Packet::allocate]: a fresh buffer of [size] indeterminate bytes. *)
Definition allocate (p : Packet) : res Packet :=
  assert (match data p with NoData => true | _ => false end)
    "flags.noneSet(STATIC_DATA|DYNAMIC_DATA)";;
  Ok (p <| data := DynamicData (replicate (Z.to_nat (size p)) None) |>).

(** [Request::wbMasterId]. *)
Definition wbMasterId : Z := 0.
(** [Packet(req, cmd)] for a request made of an address and a size with
    [wbMasterId], whose context id was set with [setContextId]. *)
Definition new_packet (id : Z) (c : Command) (a sz cx : Z) : Packet :=
  {| pkt_id := id; cmd := c; addr := a; size := sz; isSecure := false;
     hasContextId := true; contextId := cx; isUncacheable := false;
     masterId := wbMasterId; isInstFetch := false; isCondSwap := false; extraData := 0;
     memInhibit := false; isExpressSnoop := false;
     headerDelay := 0; payloadDelay := 0; data := NoData; senderState := None |}.

(** [Packet(pkt, clear_flags = false, alloc_data = true)]: static data is
    shared, dynamic data is a fresh buffer whose bytes are NOT copied. *)
Definition clone_packet (id : Z) (p : Packet) : res Packet :=
  let q := p <| pkt_id := id |> in
  match data p with
  | StaticData bs => Ok q
  | _ => allocate (q <| data := NoData |>)
  end.

(** The bytes of the payload ([getPtr]); [getPtr] asserts that there is one. *)
Definition getPtr (p : Packet) : res (list cell) :=
  match data p with
  | StaticData bs | DynamicData bs => Ok bs
  | NoData => Fault (AssertFail "flags.isSet(STATIC_DATA|DYNAMIC_DATA)")
  end.

(** [memcpy(p->getPtr(), src, n)]. *)
Definition copy_in (p : Packet) (src : list cell) (n : nat) : res Packet :=
  match data p with
  | StaticData bs => Ok (p <| data := StaticData (take n src ++ drop n bs) |>)
  | DynamicData bs => Ok (p <| data := DynamicData (take n src ++ drop n bs) |>)
  | NoData => Fault (AssertFail "flags.isSet(STATIC_DATA|DYNAMIC_DATA)")
  end.

(** ** Properties of the command table *)

(** The response of a request that needs one is a response, of the same
    direction of data flow, and is itself final unless it is an acquire. *)
Definition response_ok (c : Command) : bool :=
  negb (needsResponse c && isRequest c) ||
  (isResponse (responseCommand c) && negb (isRequest (responseCommand c))).

(** Turning a packet around always succeeds on a request that needs a
    response, and gives a packet that is a response and no longer a request,
    with address, size, context and payload unchanged. *)
Theorem makeResponse_ok p :
  needsResponse (cmd p) = true → isRequest (cmd p) = true →
  ∃ q, makeResponse p = Ok q ∧ isResponse (cmd q) = true ∧
       isRequest (cmd q) = false ∧ addr q = addr p ∧ size q = size p ∧
       contextId q = contextId p ∧ data q = data p.
Proof.
  intros Hn Hr. unfold makeResponse. rewrite Hn, Hr. cbn.
  eexists. split; [done|]. cbn.
  pose proof (commands_forall response_ok eq_refl (cmd p)) as H.
  unfold response_ok in H. rewrite Hn, Hr in H. cbn in H.
  apply andb_true_iff in H as [H1 H2]. apply negb_true_iff in H2. done.
Qed.

Definition read_pkt (id a : Z) (cx : Z) : Packet :=
  (new_packet id ReadReq a 128 cx) <| data := DynamicData (replicate 128 None) |>.
Definition write_pkt (id a : Z) (cx : Z) (v : Z) : Packet :=
  (new_packet id WriteReq a 128 cx) <| data := DynamicData (replicate 128 (Some v)) |>.

Lemma makeResponse_ok_witness :
  ∃ q, makeResponse (read_pkt 1 256 0) = Ok q ∧ isResponse (cmd q) = true ∧
       isRequest (cmd q) = false ∧ addr q = 256 ∧ size q = 128 ∧
       contextId q = 0 ∧ data q = DynamicData (replicate 128 None).
Proof. apply (makeResponse_ok (read_pkt 1 256 0)); vm_compute; reflexivity. Defined.

End Packet.
