(* ===== verification/AbstractMem.v ===== *)
(** * The backing store (mem/abstract_mem.hh, abstract_mem.cc)

    [AbstractMemory::access] reads and writes the host memory and keeps the
    reservations of load-locked / store-conditional pairs.  The DRAM cache and
    the main memory controllers share it: all data of the simulated system
    lives here.  The memory is a real one ([pmemAddr] is not null) with a range
    that is not interleaved; waking the CPUs that wait for a reservation is not
    modelled. *)

From S2P Require Import Prelude Packet.
Import MemCmd Packet.

Module AbstractMem.

Class MemRange := mkRange { range_start : Addr; range_end : Addr }.

Record Mem := mkMem
  { store : gmap Addr cell;
    lockedAddrList : list (Addr * Z);   (** address and context id *)
    memstats : stats }.
#[export] Instance eta_Mem : Eta Mem := λ m, mkMem (store m) (lockedAddrList m) (memstats m).

(** Host memory starts out as zeros. *)
Definition new_mem : Mem := mkMem ∅ [] ∅.

Definition get_byte (st : gmap Addr cell) (a : Addr) : cell := default (Some 0) (st !! a).
Definition read_bytes (a : Addr) (n : nat) (m : Mem) : list cell :=
  get_byte (store m) <$> seqZ a (Z.of_nat n).
Definition write_bytes (a : Addr) (bs : list cell) (m : Mem) : Mem :=
  m <| store ::= λ st, list_to_map (zip (seqZ a (Z.of_nat (length bs))) bs) ∪ st |>.

(** [LockedAddr::mask]: the granularity of a reservation is 16 bytes. *)
Definition lock_mask (paddr : Addr) : Addr := Z.ldiff paddr 15.

Fixpoint relock (ctx : Z) (a : Addr) (l : list (Addr * Z)) : option (list (Addr * Z)) :=
  match l with
  | [] => None
  | (b, c) :: l =>
      if c =? ctx then Some ((a, c) :: l) else cons (b, c) <$> relock ctx a l
  end.

(** One reservation per context: a new load-locked moves it. *)
Definition trackLoadLocked (p : Packet) (m : Mem) : Mem :=
  let paddr := lock_mask (addr p) in
  m <| lockedAddrList ::= λ l,
    match relock (contextId p) paddr l with
    | Some l' => l'
    | None => (paddr, contextId p) :: l
    end |>.

Definition checkLockedAddrList (p : Packet) (m : Mem) : bool * Packet * Mem :=
  let paddr := lock_mask (addr p) in
  let found :=
    existsb (λ r : Addr * Z, (r.1 =? paddr) && (r.2 =? contextId p)) (lockedAddrList m) in
  let allowStore := if isLLSC (cmd p) then found else true in
  let p := if isLLSC (cmd p) then p <| extraData := if allowStore then 1 else 0 |> else p in
  (allowStore, p,
   if allowStore
   then m <| lockedAddrList ::= List.filter (λ r, negb (r.1 =? paddr)) |> else m).

Definition writeOK (p : Packet) (m : Mem) : bool * Packet * Mem :=
  match lockedAddrList m with
  | [] =>
      let l := isLLSC (cmd p) in
      (negb l, if l then p <| extraData := 0 |> else p, m)
  | _ => checkLockedAddrList p m
  end.

(** The little-endian bytes of an integer of [n] bytes. *)
Definition le_bytes (n : nat) (v : Z) : list cell :=
  (λ i, Some (Z.shiftr v (8 * i) mod 256)) <$> seqZ 0 (Z.of_nat n).

(** Whether a swap overwrites the memory: always, unless it is conditional and
    the memory differs from the condition value. *)
Definition swap_overwrites (p : Packet) (m : Mem) : res bool :=
  if isCondSwap p then
    if (size p =? 8) || (size p =? 4) then
      let n := Z.to_nat (size p) in
      Ok (bool_decide (le_bytes n (extraData p) = read_bytes (addr p) n m))
    else Fault (Panic "Invalid size for conditional read/write")
  else Ok true.

Section access.
Context `{R : MemRange}.

(** The read, write and swap clauses of [access]. *)
Definition access_swap (p : Packet) (m : Mem) : res (Packet * Mem) :=
  let n := Z.to_nat (size p) in
  bs ← getPtr p;
  let overwrite_val := take n bs in
  p ← copy_in p (read_bytes (addr p) n m) n;
  overwrite_mem ← swap_overwrites p m;
  let m := if overwrite_mem : bool then write_bytes (addr p) overwrite_val m else m in
  assert (negb (isInstFetch p)) "!pkt->req->isInstFetch()";;
  Ok (p, m <| memstats ::= stat_inc_at "numOther" (masterId p) |>).

Definition access_read (p : Packet) (m : Mem) : res (Packet * Mem) :=
  assert (negb (isWrite (cmd p))) "!pkt->isWrite()";;
  let m := if isLLSC (cmd p) then trackLoadLocked p m else m in
  let n := Z.to_nat (size p) in
  p ← copy_in p (read_bytes (addr p) n m) n;
  Ok (p, m <| memstats ::= λ st,
    let st := stat_inc_at "numReads" (masterId p) st in
    let st := stat_add "bytesRead" (masterId p) (size p) st in
    if isInstFetch p then stat_add "bytesInstRead" (masterId p) (size p) st else st |>).

Definition access_write (p : Packet) (m : Mem) : res (Packet * Mem) :=
  let '(ok, p, m) := writeOK p m in
  if ok : bool then
    bs ← getPtr p;
    let m := write_bytes (addr p) (take (Z.to_nat (size p)) bs) m in
    assert (negb (isInstFetch p)) "!pkt->req->isInstFetch()";;
    Ok (p, m <| memstats ::= λ st,
      stat_add "bytesWritten" (masterId p) (size p) (stat_inc_at "numWrites" (masterId p) st) |>)
  else Ok (p, m).

Definition access_body (p : Packet) (m : Mem) : res (Packet * Mem) :=
  if bool_decide (cmd p = SwapReq) then access_swap p m
  else if isRead (cmd p) then access_read p m
  else if isInvalidate (cmd p) then Ok (p, m)
  else if isWrite (cmd p) then access_write p m
  else Fault (Panic "unimplemented").

Definition access (p : Packet) (m : Mem) : res (Packet * Mem) :=
  if memInhibit p then Ok (p, m)
  else if bool_decide (cmd p = CleanEvict) then Ok (p, m)
  else
    assert ((range_start <=? addr p) && (addr p + (size p - 1) <=? range_end))
      "AddrRange(addr, addr + size - 1).isSubset(range)";;
    pm ← access_body p m;
    let '(p, m) := pm in
    if needsResponse (cmd p) then p ← makeResponse p; Ok (p, m) else Ok (p, m).

(** [AbstractMemory::functionalAccess] of reads and writes. *)
Definition functionalAccess (p : Packet) (m : Mem) : res (Packet * Mem) :=
  assert ((range_start <=? addr p) && (addr p + size p - 1 <=? range_end))
    "AddrRange(addr, addr + size - 1).isSubset(range)";;
  let n := Z.to_nat (size p) in
  if isRead (cmd p) then
    p ← copy_in p (read_bytes (addr p) n m) n;
    p ← makeResponse p;
    Ok (p, m)
  else if isWrite (cmd p) then
    bs ← getPtr p;
    p ← makeResponse p;
    Ok (p, write_bytes (addr p) (take n bs) m)
  else Fault (Panic "AbstractMemory: unimplemented functional command").
End access.

(** ** Memory contents *)

Lemma lookup_block a bs x :
  list_to_map (M:=gmap Addr cell) (zip (seqZ a (Z.of_nat (length bs))) bs) !! x =
  (if decide (a ≤ x < a + Z.of_nat (length bs)) then bs !! Z.to_nat (x - a) else None).
Proof.
  revert a. induction bs as [|b bs IH]; intros a; cbn [length].
  { rewrite decide_False by lia. by destruct (seqZ _ _). }
  rewrite seqZ_cons by lia. cbn [zip zip_with list_to_map foldr]. cbn.
  replace (Z.pred (Z.of_nat (S (length bs)))) with (Z.of_nat (length bs)) by lia.
  destruct (decide (x = a)) as [->|Hne].
  - rewrite lookup_insert, decide_True by done. rewrite decide_True by lia. by rewrite Z.sub_diag.
  - rewrite lookup_insert_ne by done. rewrite IH.
    destruct (decide (a ≤ x < a + Z.of_nat (S (length bs)))), (decide (Z.succ a ≤ x < Z.succ a + Z.of_nat (length bs))); try lia; [|done].
    replace (Z.to_nat (x - a)) with (S (Z.to_nat (x - Z.succ a))) by lia. done.
Qed.

Lemma get_write a bs m x :
  get_byte (store (write_bytes a bs m)) x =
  (if decide (a ≤ x < a + Z.of_nat (length bs)) then default None (bs !! Z.to_nat (x - a))
   else get_byte (store m) x).
Proof.
  unfold get_byte, write_bytes. cbn. rewrite lookup_union, lookup_block.
  case_decide as E; [|by destruct (store m !! x)].
  destruct (lookup_lt_is_Some_2 bs (Z.to_nat (x - a))) as [b Hb]; [lia|].
  rewrite Hb. cbn. by rewrite union_Some_l.
Qed.

Lemma read_write_same a bs m : read_bytes a (length bs) (write_bytes a bs m) = bs.
Proof.
  apply list_eq. intros i. unfold read_bytes. rewrite list_lookup_fmap.
  destruct (decide (i < length bs)%nat) as [Hi|Hi].
  - rewrite lookup_seqZ_lt by lia. cbv [fmap option_fmap option_map]. rewrite get_write, decide_True by lia.
    replace (Z.to_nat (a + Z.of_nat i - a)) with i by lia.
    destruct (lookup_lt_is_Some_2 bs i Hi) as [b Hb]. by rewrite Hb.
  - rewrite lookup_seqZ_ge by lia. rewrite lookup_ge_None_2 by lia. done.
Qed.

Lemma read_write_disjoint a bs b n m :
  b + Z.of_nat n ≤ a ∨ a + Z.of_nat (length bs) ≤ b →
  read_bytes b n (write_bytes a bs m) = read_bytes b n m.
Proof.
  intros H. unfold read_bytes. apply list_fmap_ext. intros i x [? ?]%lookup_seqZ.
  rewrite get_write, decide_False by lia. done.
Qed.

Lemma length_read_bytes a n m : length (read_bytes a n m) = n.
Proof. unfold read_bytes. rewrite length_fmap, length_seqZ. lia. Qed.

(** ** Reservations

    The abstract memory: the bytes, and for every context the 16-byte granule it
    has reserved.  A store releases every reservation of its granule; a store
    conditional takes effect exactly if its context holds the granule. *)
Record spec_mem := mkSpec { s_store : gmap Addr cell; s_res : gmap Z Addr }.

Definition release (g : Addr) (rs : gmap Z Addr) : gmap Z Addr :=
  filter (λ cg, cg.2 ≠ g) rs.

Definition spec_write (p : Packet) (bs : list cell) (s : spec_mem) : spec_mem :=
  mkSpec (store (write_bytes (addr p) bs (mkMem (s_store s) [] ∅)))
    (release (lock_mask (addr p)) (s_res s)).

(** The new memory, the payload and the extra data of the response. *)
Definition spec_access (p : Packet) (bs : list cell) (s : spec_mem)
    : spec_mem * list cell * Z :=
  let rd := read_bytes (addr p) (length bs) (mkMem (s_store s) [] ∅) in
  match cmd p with
  | ReadReq => (s, rd, extraData p)
  | LoadLockedReq =>
      (mkSpec (s_store s) (<[contextId p := lock_mask (addr p)]> (s_res s)), rd, extraData p)
  | StoreCondReq =>
      if decide (s_res s !! contextId p = Some (lock_mask (addr p)))
      then (spec_write p bs s, bs, 1) else (s, bs, 0)
  | _ => (spec_write p bs s, bs, extraData p)
  end.

Definition reservations (m : Mem) : gmap Z Addr := list_to_map (prod_swap <$> lockedAddrList m).
Definition abs_mem (m : Mem) : spec_mem := mkSpec (store m) (reservations m).
Definition locks_ok (m : Mem) : Prop := NoDup (snd <$> lockedAddrList m).

(** A packet the memory serves, with its payload. *)
Record served_pkt `{R : MemRange} (p : Packet) (bs : list cell) : Prop :=
  { sp_cmd : cmd p ∈ [ReadReq; LoadLockedReq; WriteReq; StoreCondReq];
    sp_inhibit : memInhibit p = false;
    sp_fetch : isInstFetch p = false;
    sp_range : range_start ≤ addr p ∧ addr p + (size p - 1) ≤ range_end;
    sp_payload : data p = StaticData bs ∨ data p = DynamicData bs;
    sp_size : Z.of_nat (length bs) = size p }.

Lemma relock_spec ctx a l :
  match relock ctx a l with
  | Some l' =>
      snd <$> l' = snd <$> l ∧
      (NoDup (snd <$> l) → list_to_map (M:=gmap Z Addr) (prod_swap <$> l') =
         <[ctx := a]> (list_to_map (prod_swap <$> l)))
  | None => ctx ∉ (snd <$> l)
  end.
Proof.
  induction l as [|[b c] l IH]; cbn; [set_solver|].
  destruct (Z.eqb_spec c ctx) as [->|Hc].
  { split; [done|]. intros _. cbn. by rewrite insert_insert, decide_True. }
  destruct (relock ctx a l) as [l'|]; cbn.
  - destruct IH as [IH1 IH2]. split; [by f_equal|].
    intros [_ Hnd]%NoDup_cons. rewrite IH2 by done. by rewrite insert_insert_ne.
  - rewrite not_elem_of_cons. split; [done|apply IH].
Qed.

Lemma reservations_elem m c g : locks_ok m →
  reservations m !! c = Some g ↔ (g, c) ∈ lockedAddrList m.
Proof.
  intros H. unfold reservations. rewrite <-elem_of_list_to_map.
  - rewrite list_elem_of_fmap. split; [intros ([??] & E & ?); by simplify_eq/=|].
    intros ?. by exists (g, c).
  - rewrite <-list_fmap_compose. exact H.
Qed.

Lemma locks_filter m (f : Addr * Z → bool) :
  locks_ok m → locks_ok (m <| lockedAddrList ::= List.filter f |>).
Proof.
  unfold locks_ok. cbn. induction (lockedAddrList m) as [|r l IH]; cbn; [done|].
  intros [Hr Hl]%NoDup_cons. destruct (f r); cbn; [|auto].
  apply NoDup_cons. split; [|auto]. intros (x & E & Hx)%list_elem_of_fmap. apply Hr.
  rewrite E. apply list_elem_of_fmap. exists x. split; [done|].
  by apply list_elem_of_In, List.filter_In, proj1, list_elem_of_In in Hx.
Qed.

Lemma reservations_filter m g : locks_ok m →
  reservations (m <| lockedAddrList ::= List.filter (λ r, negb (r.1 =? g)) |>) =
  release g (reservations m).
Proof.
  intros H. apply map_eq. intros c. apply option_eq. intros x.
  rewrite reservations_elem by by apply locks_filter.
  unfold release. rewrite map_lookup_filter_Some, reservations_elem by done. cbn.
  rewrite list_elem_of_In, List.filter_In, <-list_elem_of_In, negb_true_iff, Z.eqb_neq. done.
Qed.

Lemma track_ok p m : locks_ok m →
  locks_ok (trackLoadLocked p m) ∧ store (trackLoadLocked p m) = store m ∧
  reservations (trackLoadLocked p m) = <[contextId p := lock_mask (addr p)]> (reservations m).
Proof.
  intros H. unfold locks_ok, reservations, trackLoadLocked. cbn.
  pose proof (relock_spec (contextId p) (lock_mask (addr p)) (lockedAddrList m)) as Hr.
  destruct (relock _ _ _) as [l'|].
  - destruct Hr as [E1 E2]. rewrite E1. split_and!; auto.
  - split_and!; [by apply NoDup_cons|done..].
Qed.

(** The outcome of [writeOK]: the store happens unless it is a conditional one
    without a reservation, and then it releases the granule. *)
Lemma writeOK_ok p m : locks_ok m →
  let g := lock_mask (addr p) in
  let ok := negb (isLLSC (cmd p)) || bool_decide (reservations m !! contextId p = Some g) in
  let p' := if isLLSC (cmd p) then p <| extraData := if ok then 1 else 0 |> else p in
  ∃ m', writeOK p m = (ok, p', m') ∧ locks_ok m' ∧ store m' = store m ∧
    reservations m' = if ok then release g (reservations m) else reservations m.
Proof.
  intros H g. unfold writeOK. destruct (lockedAddrList m) as [|r l] eqn:El; [|clear r l El].
  - assert (reservations m = ∅) as Er by (unfold reservations; by rewrite El).
    exists m. rewrite Er. rewrite bool_decide_eq_false_2 by (by rewrite lookup_empty).
    split_and!; try done; destruct (isLLSC (cmd p)); cbn; try done.
  - unfold checkLockedAddrList. fold g. cbv zeta.
    assert (existsb (λ r : Addr * Z, (r.1 =? g) && (r.2 =? contextId p)) (lockedAddrList m) =
            bool_decide (reservations m !! contextId p = Some g)) as ->.
    { apply eq_true_iff_eq. rewrite existsb_exists, bool_decide_eq_true.
      rewrite reservations_elem by done. setoid_rewrite andb_true_iff. setoid_rewrite Z.eqb_eq.
      setoid_rewrite <-list_elem_of_In.
      split; [by intros ([a c] & Hin & E1 & E2); cbn in *; subst|by eauto]. }
    destruct (isLLSC (cmd p)); cbn [negb orb].
    + case_bool_decide; eexists; (split; [reflexivity|]); [|done].
      split_and!; [by apply locks_filter|done|by apply reservations_filter].
    + eexists; (split; [reflexivity|]).
      split_and!; [by apply locks_filter|done|by apply reservations_filter].
Qed.

Lemma copy_in_all p bs src : data p = StaticData bs ∨ data p = DynamicData bs →
  length src = length bs →
  ∃ p', copy_in p src (length bs) = Ok p' ∧ getPtr p' = Ok src ∧ cmd p' = cmd p ∧
    extraData p' = extraData p.
Proof.
  intros Hd Hl. unfold copy_in. assert (take (length bs) src ++ drop (length bs) bs = src) as E.
  { rewrite <-Hl at 1. rewrite firstn_all, skipn_all. apply app_nil_r. }
  destruct Hd as [-> | ->]; eexists; (split; [reflexivity|]); rewrite E; done.
Qed.

Section refinement.
Context `{R : MemRange}.

Definition access_spec (p : Packet) (bs : list cell) (m : Mem) (o : res (Packet * Mem)) : Prop :=
  ∃ p' m' bs', o = Ok (p', m') ∧ locks_ok m' ∧ getPtr p' = Ok bs' ∧
    spec_access p bs (abs_mem m) = (abs_mem m', bs', extraData p') ∧ cmd p' = cmd p.

Lemma access_read_ok p bs m : served_pkt p bs → locks_ok m →
  cmd p = ReadReq ∨ cmd p = LoadLockedReq → access_spec p bs m (access_read p m).
Proof.
  intros Hp Hm Hc. unfold access_read.
  rewrite assert_bind by (destruct Hc as [-> | ->]; done).
  set (m1 := if isLLSC (cmd p) then trackLoadLocked p m else m).
  assert (locks_ok m1 ∧ store m1 = store m) as [Hl Hs].
  { subst m1. destruct (isLLSC _); [|done]. pose proof (track_ok p m Hm). naive_solver. }
  assert (read_bytes (addr p) (length bs) m1 =
          read_bytes (addr p) (length bs) (mkMem (store m) [] ∅)) as Er.
  { unfold read_bytes. by rewrite Hs. }
  rewrite <-(sp_size _ _ Hp), Nat2Z.id.
  edestruct (copy_in_all p bs (read_bytes (addr p) (length bs) m1)) as (p' & E & Eg & Ec & Ex);
    [apply Hp|apply length_read_bytes|].
  rewrite E. cbn [mbind res_bind].
  eexists p', _, _. split; [reflexivity|]. split; [exact Hl|]. split; [exact Eg|]. split; [|done].
  unfold spec_access, abs_mem. rewrite Ex, Er. subst m1.
  destruct Hc as [Hc|Hc]; rewrite Hc in *; [done|].
  change (isLLSC LoadLockedReq) with true in *. cbv iota in *.
  destruct (track_ok p m Hm) as (_ & E2 & E3). cbn [s_store s_res].
  unfold reservations in *. cbn [lockedAddrList set_field] in *. rewrite <-E3. done.
Qed.

Lemma access_write_ok p bs m : served_pkt p bs → locks_ok m →
  cmd p = WriteReq ∨ cmd p = StoreCondReq → access_spec p bs m (access_write p m).
Proof.
  intros Hp Hm Hc. unfold access_write.
  destruct (writeOK_ok p m Hm) as (m1 & -> & Hl & Hs & Hr).
  set (g := lock_mask (addr p)) in *. set (ok := _ || _) in *.
  set (p1 := if isLLSC (cmd p) then _ else p).
  assert (getPtr p1 = Ok bs ∧ cmd p1 = cmd p ∧ addr p1 = addr p ∧ size p1 = size p ∧
          isInstFetch p1 = false) as (Eg & Ec & Ea & Ez & Ef).
  { subst p1. destruct (sp_payload _ _ Hp) as [E|E], (isLLSC (cmd p)); unfold getPtr;
      cbn; rewrite ?E; split_and!; try done; apply Hp. }
  assert (extraData p1 = if isLLSC (cmd p) then (if ok then 1 else 0) else extraData p) as Ex
    by (subst p1; by destruct (isLLSC (cmd p))).
  clearbody p1. destruct ok eqn:Eok.
  - rewrite Eg. cbn [mbind res_bind]. rewrite assert_bind by by rewrite Ef.
    rewrite Ez, Ea, <-(sp_size _ _ Hp), Nat2Z.id, firstn_all.
    eexists p1, _, bs. split; [reflexivity|]. split; [exact Hl|]. split; [exact Eg|].
    split; [|done]. rewrite Ex. unfold spec_access, spec_write, abs_mem, write_bytes. cbn.
    rewrite Hs. unfold reservations in *; cbn. fold g. rewrite Hr.
    destruct Hc as [Hc|Hc]; rewrite Hc in *; [done|]. rewrite decide_True; [done|].
    subst ok. rewrite Hc in Eok. by apply bool_decide_eq_true in Eok.
  - eexists p1, m1, bs. split_and!; try done. rewrite Ex. unfold spec_access, abs_mem.
    rewrite Hs, Hr. destruct Hc as [Hc|Hc]; [subst ok; by rewrite Hc in Eok|rewrite Hc].
    rewrite decide_False; [done|]. subst ok. rewrite Hc in Eok. by apply bool_decide_eq_false in Eok.
Qed.

Lemma access_ok p bs m : served_pkt p bs → locks_ok m →
  ∃ p' m' bs', access p m = Ok (p', m') ∧ locks_ok m' ∧ getPtr p' = Ok bs' ∧
    spec_access p bs (abs_mem m) = (abs_mem m', bs', extraData p') ∧
    cmd p' = responseCommand (cmd p).
Proof.
  intros Hp Hm. unfold access. rewrite (sp_inhibit _ _ Hp).
  pose proof (sp_cmd _ _ Hp) as Hc.
  rewrite bool_decide_eq_false_2 by (intros E; rewrite E in Hc; set_solver).
  rewrite assert_bind by (pose proof (sp_range _ _ Hp); apply andb_true_iff; lia).
  assert (access_spec p bs m (access_body p m)) as (p' & m' & bs' & -> & Hl & Eg & Es & Ec).
  { unfold access_body. rewrite !elem_of_cons in Hc.
    destruct Hc as [Hc|[Hc|[Hc|[Hc|Hc%elem_of_nil]]]]; [..|done];
      rewrite Hc; cbn [bool_decide decide Command_eq_dec];
      first [apply access_read_ok|apply access_write_ok]; auto. }
  cbn [mbind res_bind]. rewrite Ec.
  assert (needsResponse (cmd p) = true ∧ isRequest (cmd p) = true) as [E1 E2].
  { rewrite !elem_of_cons in Hc. destruct Hc as [->|[->|[->|[->|Hc%elem_of_nil]]]]; done. }
  rewrite E1. unfold makeResponse. rewrite Ec, E1, E2. cbn [mbind res_bind assert].
  eexists _, m', bs'. split; [reflexivity|]. split; [done|]. split; [|done].
  unfold getPtr in *. cbn. exact Eg.
Qed.

(** A run of the memory over a list of packets, with the responses, and the run
    of the abstract memory, with payload and extra data of each response. *)
Definition mem_run (m : Mem) (ps : list Packet) : res (Mem * list Packet) :=
  foldM (λ a p, pm ← access p a.1; Ok (pm.2, a.2 ++ [pm.1])) (m, []) ps.
Definition spec_run (s : spec_mem) (ps : list (Packet * list cell))
    : spec_mem * list (list cell * Z) :=
  foldl (λ a pb, let '(s, bs, x) := spec_access pb.1 pb.2 a.1 in (s, a.2 ++ [(bs, x)])) (s, []) ps.

Definition answer (p : Packet) (a : list cell * Z) : Prop :=
  getPtr p = Ok a.1 ∧ extraData p = a.2 ∧ isResponse (cmd p) = true.

Lemma mem_run_ok ps m acc sacc : locks_ok m → Forall2 answer acc sacc →
  Forall (λ pb, served_pkt pb.1 pb.2) ps →
  ∃ m' out, foldM (λ a p, pm ← access p a.1; Ok (pm.2, a.2 ++ [pm.1])) (m, acc) ps.*1 =
              Ok (m', out) ∧
    let '(s, sout) := foldl (λ a pb, let '(s, bs, x) := spec_access pb.1 pb.2 a.1 in
                        (s, a.2 ++ [(bs, x)])) (abs_mem m, sacc) ps in
    abs_mem m' = s ∧ Forall2 answer out sout.
Proof.
  revert m acc sacc. induction ps as [|[p bs] ps IH]; intros m acc sacc Hm Ha Hps.
  { exists m, acc. done. }
  apply Forall_cons in Hps as [Hp Hps]. cbn [fst snd] in Hp.
  destruct (access_ok p bs m Hp Hm) as (p' & m' & bs' & E & Hm' & Eg & Es & Ec).
  cbn [fmap list_fmap fst snd foldM foldl]. rewrite E. cbn [mbind res_bind fst snd].
  rewrite Es. apply IH; [done| |done].
  apply Forall2_app; [done|]. constructor; [|done]. split_and!; [done..|].
  rewrite Ec. pose proof (sp_cmd _ _ Hp) as Hc. rewrite !elem_of_cons in Hc.
  destruct Hc as [->|[->|[->|[->|Hc%elem_of_nil]]]]; done.
Qed.
End refinement.

(** C7: the backing store refines the abstract memory with one reserved granule
    per context.  Over every sequence of reads, load-locked reads, writes and
    conditional stores no assertion fails, every packet becomes a response, reads
    return the bytes last stored, plain writes always take effect, and a
    conditional store takes effect and reports success exactly if no store has
    hit its granule since the context's last load-locked read, which was of that
    granule. *)
Theorem mem_refines `{R : MemRange} ps :
  Forall (λ pb, served_pkt pb.1 pb.2) ps →
  ∃ m' out, mem_run new_mem ps.*1 = Ok (m', out) ∧
    let '(s, sout) := spec_run (mkSpec ∅ ∅) ps in
    abs_mem m' = s ∧ Forall2 answer out sout.
Proof. intros H. apply mem_run_ok; [apply NoDup_nil_2|constructor|done]. Qed.

Definition ex_mem_pkt (c : Command) (a ctx v : Z) : Packet * list cell :=
  let bs := replicate 4 (Some v) in
  ((new_packet 0 c a 4 ctx) <| data := DynamicData bs |>, bs).

Lemma ex_mem_pkt_served c a ctx v :
  c ∈ [ReadReq; LoadLockedReq; WriteReq; StoreCondReq] → 0 ≤ a → a + 3 ≤ 1023 →
  @served_pkt (mkRange 0 1023) (ex_mem_pkt c a ctx v).1 (ex_mem_pkt c a ctx v).2.
Proof. intros Hc H1 H2. split; cbn; auto. Qed.

(** Two contexts reserve one granule; the first conditional store wins. *)
Definition ex_llsc : list (Packet * list cell) :=
  [ex_mem_pkt LoadLockedReq 64 0 0; ex_mem_pkt LoadLockedReq 68 1 0;
   ex_mem_pkt StoreCondReq 68 1 7; ex_mem_pkt StoreCondReq 64 0 9; ex_mem_pkt ReadReq 68 2 0].

Lemma mem_refines_witness :
  let R := mkRange 0 1023 in
  ∃ m' out, mem_run new_mem ex_llsc.*1 = Ok (m', out) ∧
    (let '(s, sout) := spec_run (mkSpec ∅ ∅) ex_llsc in
     abs_mem m' = s ∧ Forall2 answer out sout) ∧
    snd (spec_run (mkSpec ∅ ∅) ex_llsc) =
      [(replicate 4 (Some 0), 0); (replicate 4 (Some 0), 0); (replicate 4 (Some 7), 1);
       (replicate 4 (Some 9), 0); (replicate 4 (Some 7), 0)].
Proof.
  intros R. destruct (mem_refines ex_llsc) as (m' & out & E & H).
  - repeat constructor; apply ex_mem_pkt_served; (set_solver || (vm_compute; discriminate)).
  - exists m', out. split; [exact E|]. split; [exact H|]. vm_compute. reflexivity.
Defined.
End AbstractMem.
