(* ===== verification/DramTypes.v ===== *)
(** * The DRAM controller's data (gem5/src/mem/dram_ctrl.hh)

    Parameters, banks, ranks, DRAM packets and the part of the controller's
    state that bank timing and scheduling read and write.  The DRAM cache
    controller inherits all of it. *)

From S2P Require Import Prelude Packet.
Import Packet.

(** ** Parameters *)

Inductive MemSched : Set := fcfs | frfcfs | cpuPriorityfcfs | cpuPriorityfrfcfs.
Inductive AddrMap : Set := RoRaBaChCo | RoRaBaCoCh | RoCoRaBaCh.
Inductive PageManage : Set := open | open_adaptive | close | close_adaptive.

#[export] Instance PageManage_eq_dec : EqDecision PageManage.
Proof. solve_decision. Defined.

(** The constants of a controller, with the names of the C++ members. *)
Class DRAMParams := mkDRAMParams
  { burstSize : Z;
    rowBufferSize : Z;
    columnsPerRowBuffer : Z;
    columnsPerStripe : Z;
    ranksPerChannel : Z;
    bankGroupsPerRank : Z;
    bankGroupArch : bool;
    banksPerRank : Z;
    channels : Z;
    rowsPerBank : Z;
    readBufferSize : Z;
    writeBufferSize : Z;
    writeHighThreshold : Z;
    writeLowThreshold : Z;
    minWritesPerSwitch : Z;
    tCK : Tick; tWTR : Tick; tRTW : Tick; tCS : Tick; tBURST : Tick;
    tCCD_L : Tick; tRCD : Tick; tCL : Tick; tRP : Tick; tRAS : Tick;
    tWR : Tick; tRTP : Tick; tRFC : Tick; tREFI : Tick; tRRD : Tick;
    tRRD_L : Tick; tXAW : Tick;
    activationLimit : Z;
    memSchedPolicy : MemSched;
    addrMapping : AddrMap;
    pageMgmt : PageManage;
    maxAccessesPerRow : Z;
    frontendLatency : Tick;
    backendLatency : Tick }.

(** ** Banks and ranks *)

(** [static const uint32_t NO_ROW = -1]. *)
Definition NO_ROW : Z := 2 ^ 32 - 1.

Record Bank := mkBank
  { openRow : Z;
    bank_no : Z;             (** the member [bank] *)
    bankgr : Z;
    colAllowedAt : Tick;
    preAllowedAt : Tick;
    actAllowedAt : Tick;
    rowAccesses : Z;
    bytesAccessed : Z }.
#[export] Instance eta_Bank : Eta Bank := λ b,
  mkBank (openRow b) (bank_no b) (bankgr b) (colAllowedAt b) (preAllowedAt b)
    (actAllowedAt b) (rowAccesses b) (bytesAccessed b).
(** The constructor [Bank()]. *)
Definition new_bank : Bank := mkBank NO_ROW 0 0 0 0 0 0 0.
#[export] Instance Bank_inhabited : Inhabited Bank := populate new_bank.

Inductive PowerState : Set := PWR_IDLE | PWR_REF | PWR_PRE_PDN | PWR_ACT | PWR_ACT_PDN.
Inductive RefreshState : Set := REF_IDLE | REF_DRAIN | REF_PRE | REF_RUN.
#[export] Instance PowerState_eq_dec : EqDecision PowerState.
Proof. solve_decision. Defined.
#[export] Instance RefreshState_eq_dec : EqDecision RefreshState.
Proof. solve_decision. Defined.

(** An event is scheduled at a tick or not scheduled. *)
Abbreviation event := (option Tick).

(** ** Events (sim/eventq_impl.hh)

    [EventQueue::schedule], [deschedule] and [reschedule] with their
    assertions; an event is in the queue at a tick or not scheduled. *)
Definition scheduled (e : event) : bool := isSome e.
Definition schedule (now when : Tick) (e : event) : res event :=
  assert (now <=? when) "when >= getCurTick()";;
  assert (negb (scheduled e)) "!event->scheduled()";;
  Ok (Some when).
Definition deschedule (e : event) : res event :=
  assert (scheduled e) "event->scheduled()";;
  Ok None.
Definition reschedule (now when : Tick) (e : event) : res event :=
  assert (now <=? when) "when >= getCurTick()";;
  assert (scheduled e) "always || event->scheduled()";;
  Ok (Some when).

Record Rank := mkRank
  { pwrStateTrans : PowerState;
    pwrState : PowerState;
    pwrStateTick : Tick;
    refreshState : RefreshState;
    refreshDueAt : Tick;
    rank_no : Z;             (** the member [rank] *)
    banks : list Bank;
    numBanksActive : Z;
    actTicks : list Tick;    (** newest first, oldest at the back *)
    activateEvent : event;
    prechargeEvent : event;
    refreshEvent : event;
    powerEvent : event }.
#[export] Instance eta_Rank : Eta Rank := λ r,
  mkRank (pwrStateTrans r) (pwrState r) (pwrStateTick r) (refreshState r)
    (refreshDueAt r) (rank_no r) (banks r) (numBanksActive r) (actTicks r)
    (activateEvent r) (prechargeEvent r) (refreshEvent r) (powerEvent r).
(** The constructor [Rank(memory, p)], before banks and windows are sized. *)
Definition new_rank : Rank :=
  mkRank PWR_IDLE PWR_IDLE 0 REF_IDLE 0 0 [] 0 [] None None None None.
#[export] Instance Rank_inhabited : Inhabited Rank := populate new_rank.

(** [Rank::isAvailable]. *)
Definition isAvailable (r : Rank) : bool := bool_decide (refreshState r = REF_IDLE).

(** ** DRAM packets *)

(** A DRAM packet is one burst of a system packet.  [burstHelper] names the
    helper object shared by the bursts of a split packet; [bankRef] and
    [rankRef] are the bank and rank at [bank] and [rank]. *)
Record DRAMPacket := mkDRAMPacket
  { entryTime : Tick;
    readyTime : Tick;
    dp_pkt : Packet;         (** the member [pkt] *)
    requestAddr : Addr;
    dp_isRead : bool;
    isFill : bool;
    dp_contextId : Z;
    dp_rank : Z;
    dp_bank : Z;
    dp_row : Z;
    bankId : Z;
    dp_addr : Addr;
    dp_size : Z;
    burstHelper : option nat }.
#[export] Instance eta_DRAMPacket : Eta DRAMPacket := λ d,
  mkDRAMPacket (entryTime d) (readyTime d) (dp_pkt d) (requestAddr d)
    (dp_isRead d) (isFill d) (dp_contextId d) (dp_rank d) (dp_bank d)
    (dp_row d) (bankId d) (dp_addr d) (dp_size d) (burstHelper d).

Definition isCPU (d : DRAMPacket) : bool := negb (dp_contextId d =? GPU_CTX).

(** ** The banks of a channel *)

Abbreviation Ranks := (list Rank).

Definition rank_at (rs : Ranks) (r : Z) : Rank := rs !!! Z.to_nat r.
Definition bank_in (rk : Rank) (b : Z) : Bank := banks rk !!! Z.to_nat b.
Definition bank_at (rs : Ranks) (r b : Z) : Bank := bank_in (rank_at rs r) b.

(** [pkt->bankRef] and [pkt->rankRef]. *)
Definition bankRef (rs : Ranks) (d : DRAMPacket) : Bank :=
  bank_at rs (dp_rank d) (dp_bank d).
Definition rankRef (rs : Ranks) (d : DRAMPacket) : Rank := rank_at rs (dp_rank d).

Definition upd_bank (b : Z) (f : Bank → Bank) (rk : Rank) : Rank :=
  rk <| banks ::= alter f (Z.to_nat b) |>.
Definition upd_rank (r : Z) (f : Rank → Rank) (rs : Ranks) : Ranks :=
  alter f (Z.to_nat r) rs.

(** ** The state of a channel

    What bank timing reads and writes.  [power] lists the commands handed to the
    DRAMPower library of each rank ([powerlib.doCommand]), newest first and in
    ticks. *)
Inductive MemCommand : Set := ACT | PRE | RD | WR | PREA | REF.
#[export] Instance MemCommand_eq_dec : EqDecision MemCommand.
Proof. solve_decision. Defined.

Record dcmd := mkCmd
  { c_cmd : MemCommand; c_rank : Z; c_bank : Z; c_tick : Tick }.

Record Chan := mkChan
  { ranks : Ranks;
    busBusyUntil : Tick;
    activeRank : Z;
    nextReqTime : Tick;
    readsThisTime : Z;
    writesThisTime : Z;
    power : list dcmd;
    chstats : stats }.
#[export] Instance eta_Chan : Eta Chan := λ c,
  mkChan (ranks c) (busBusyUntil c) (activeRank c) (nextReqTime c)
    (readsThisTime c) (writesThisTime c) (power c) (chstats c).

(** ** Lemmas on bank and rank update *)

Lemma bank_in_upd_same b f rk :
  (Z.to_nat b < length (banks rk))%nat →
  bank_in (upd_bank b f rk) b = f (bank_in rk b).
Proof.
  intros H. unfold bank_in, upd_bank; cbn.
  apply lookup_lt_is_Some in H as [x Hx].
  rewrite (list_lookup_total_correct _ _ x Hx).
  apply list_lookup_total_correct. by rewrite list_lookup_alter, decide_True, Hx.
Qed.

Lemma bank_in_upd_other b c f rk :
  Z.to_nat b ≠ Z.to_nat c → bank_in (upd_bank b f rk) c = bank_in rk c.
Proof.
  intros H. unfold bank_in, upd_bank; cbn.
  rewrite !list_lookup_total_alt. by rewrite list_lookup_alter_ne.
Qed.

Lemma rank_at_upd_same r f rs :
  (Z.to_nat r < length rs)%nat → rank_at (upd_rank r f rs) r = f (rank_at rs r).
Proof.
  intros H. unfold rank_at, upd_rank.
  apply lookup_lt_is_Some in H as [x Hx].
  rewrite (list_lookup_total_correct _ _ x Hx).
  apply list_lookup_total_correct. by rewrite list_lookup_alter, decide_True, Hx.
Qed.

Lemma rank_at_upd_other r q f rs :
  Z.to_nat r ≠ Z.to_nat q → rank_at (upd_rank r f rs) q = rank_at rs q.
Proof.
  intros H. unfold rank_at, upd_rank.
  rewrite !list_lookup_total_alt. by rewrite list_lookup_alter_ne.
Qed.

Lemma length_upd_rank r f rs : length (upd_rank r f rs) = length rs.
Proof. apply length_alter. Qed.
Lemma length_upd_bank b f rk : length (banks (upd_bank b f rk)) = length (banks rk).
Proof. apply length_alter. Qed.
