(* ===== verification/PacketQueue.v ===== *)
(** * Packet queues (mem/packet_queue.hh, packet_queue.cc)

    The queue of timed packets behind a port.  The DRAM controllers send their
    responses through one; the master port of the DRAM cache overrides
    [sendDeferredPacket] (see CacheBuffers.v) and uses the send event of this
    class. *)

From S2P Require Import Prelude Packet DramTypes.
Import Packet.

Module PacketQueue.

(** [DeferredPacket]: the tick and the packet. *)
Abbreviation deferred := (Tick * Packet)%type.

Record PacketQueue := mkPacketQueue
  { transmitList : list deferred;
    sendEvent : event;
    waitingOnRetry : bool }.
#[export] Instance eta_PacketQueue : Eta PacketQueue := λ q,
  mkPacketQueue (transmitList q) (sendEvent q) (waitingOnRetry q).

Definition new_packet_queue : PacketQueue := mkPacketQueue [] None false.

(** [deferredPacketReady] and [deferredPacketReadyTime]. *)
Definition deferredPacketReady (now : Tick) (q : PacketQueue) : bool :=
  match transmitList q with
  | [] => false
  | d :: _ => d.1 <=? now
  end.
Definition deferredPacketReadyTime (q : PacketQueue) : Tick :=
  match transmitList q with
  | [] => MaxTick
  | d :: _ => d.1
  end.

Definition hasAddr (a : Addr) (q : PacketQueue) : bool :=
  existsb (λ d : deferred, addr d.2 =? a) (transmitList q).

(** [schedSendEvent]: the new queue and whether the drain is signalled as
    done. *)
Definition schedSendEvent (now : Tick) (draining : bool) (when : Tick) (q : PacketQueue)
    : res (PacketQueue * bool) :=
  if waitingOnRetry q then
    assert (negb (scheduled (sendEvent q))) "!sendEvent.scheduled()";;
    Ok (q, false)
  else if negb (when =? MaxTick) then
    let when := Z.max when (now + 1) in
    ev ← match sendEvent q with
         | None => schedule now when None
         | Some w => if when <? w then reschedule now when (Some w) else Ok (Some w)
         end;
    Ok (q <| sendEvent := ev |>, false)
  else
    Ok (q, draining && bool_decide (transmitList q = []) && negb (scheduled (sendEvent q))).

(** The position in the middle: behind all entries that are not later. *)
Fixpoint insert_after (when : Tick) (d : deferred) (l : list deferred) : list deferred :=
  match l with
  | [] => [d]
  | e :: l => if e.1 <=? when then e :: insert_after when d l else d :: e :: l
  end.

Definition schedSendTiming (now : Tick) (draining : bool) (pkt : Packet) (when : Tick)
    (force_order : bool) (q : PacketQueue) : res (PacketQueue * bool) :=
  assert (now <=? when) "when >= curTick()";;
  assert (negb (isExpressSnoop pkt)) "!pkt->isExpressSnoop()";;
  if 1000 <? Z.of_nat (length (transmitList q))
  then Fault (Panic "Packet queue has grown beyond 1000 packets")
  else
    let when :=
      match last (transmitList q) with
      | Some (back, _) => if force_order && (when <? back) then back else when
      | None => when
      end in
    match transmitList q with
    | [] =>
        schedSendEvent now draining when (q <| transmitList := [(when, pkt)] |>)
    | f :: l =>
        if when <? f.1 then
          assert (negb force_order) "!force_order || transmitList.empty()";;
          schedSendEvent now draining when (q <| transmitList := (when, pkt) :: f :: l |>)
        else if (default f (last (f :: l))).1 <=? when
        then Ok (q <| transmitList := f :: l ++ [(when, pkt)] |>, false)
        else
          assert (negb force_order) "!force_order";;
          Ok (q <| transmitList := f :: insert_after when (when, pkt) l |>, false)
    end.

(** [sendDeferredPacket].  [sendTiming] is the call of the peer, which may file further
    packets in the queue before it accepts or refuses; the packet was taken off the
    list before.  The result is the queue, the packet offered and the drain signal. *)
Definition sendDeferredPacket (now : Tick) (draining : bool)
    (sendTiming : Packet → PacketQueue → res (bool * PacketQueue)) (q : PacketQueue)
    : res (PacketQueue * deferred * bool) :=
  assert (negb (waitingOnRetry q)) "!waitingOnRetry";;
  assert (deferredPacketReady now q) "deferredPacketReady()";;
  match transmitList q with
  | [] => Fault (AssertFail "deferredPacketReady()")
  | dp :: l =>
      r ← sendTiming dp.2 (q <| transmitList := l |>);
      let q := r.2 <| waitingOnRetry := negb r.1 |> in
      if negb (waitingOnRetry q) then
        qd ← schedSendEvent now draining (deferredPacketReadyTime q) q;
        Ok (qd.1, dp, qd.2)
      else Ok (q <| transmitList ::= cons dp |>, dp, false)
  end.

(** A peer that files nothing. *)
Definition answers (accepted : bool) (_ : Packet) (q : PacketQueue) : res (bool * PacketQueue) :=
  Ok (accepted, q).

Definition processSendEvent (now : Tick) (draining : bool) sendTiming (q : PacketQueue)
    : res (PacketQueue * deferred * bool) :=
  let q := q <| sendEvent := None |> in
  assert (negb (waitingOnRetry q)) "!waitingOnRetry";;
  sendDeferredPacket now draining sendTiming q.

Definition retry (now : Tick) (draining : bool) sendTiming (q : PacketQueue)
    : res (PacketQueue * deferred * bool) :=
  assert (waitingOnRetry q) "waitingOnRetry";;
  sendDeferredPacket now draining sendTiming (q <| waitingOnRetry := false |>).

(** [PacketQueue::drain]: true if there is nothing left to send. *)
Definition pq_drain (q : PacketQueue) : bool := bool_decide (transmitList q = []).

(** ** Correctness *)

Definition no_later (d e : deferred) : Prop := d.1 ≤ e.1.
Definition tl_sorted (l : list deferred) : Prop := StronglySorted no_later l.

(** The queue is sorted by tick.  A queue that waits for a retry has offered its
    head and has no send event; otherwise the send event is scheduled exactly if
    there is a packet, not before the head is due and at most one tick late. *)
Record pq_ok (now : Tick) (q : PacketQueue) : Prop :=
  { pq_sorted : tl_sorted (transmitList q);
    pq_finite : Forall (λ d, d.1 < MaxTick) (transmitList q);
    pq_event :
      match transmitList q with
      | [] => waitingOnRetry q = false ∧ sendEvent q = None
      | f :: _ =>
          if waitingOnRetry q then sendEvent q = None ∧ f.1 ≤ now
          else ∃ w, sendEvent q = Some w ∧ f.1 ≤ w ∧ now ≤ w ∧ w ≤ Z.max f.1 (now + 1)
      end }.

Lemma sorted_last_le f l x : tl_sorted (f :: l) → x ∈ f :: l →
  x.1 ≤ (default f (last (f :: l))).1.
Proof.
  revert f. induction l as [|g l IH]; intros f Hs Hx.
  { apply list_elem_of_singleton in Hx as ->. done. }
  apply StronglySorted_inv in Hs as [Hs Hf]. rewrite last_cons_cons.
  assert (last (g :: l) ≠ None) as Hn by (by rewrite last_None).
  destruct (last (g :: l)) as [y|] eqn:E; [|done]. cbn.
  apply elem_of_cons in Hx as [->|Hx].
  - rewrite Forall_forall in Hf. apply Hf. by apply last_Some_elem_of in E.
  - specialize (IH g Hs Hx). by rewrite E in IH.
Qed.

Lemma snoc_tl_sorted l d : tl_sorted l → Forall (λ e, no_later e d) l → tl_sorted (l ++ [d]).
Proof.
  induction l as [|e l IH]; cbn; intros Hs Hd; [by repeat constructor|].
  apply StronglySorted_inv in Hs as [Hs He]. apply Forall_cons in Hd as [Hed Hd].
  constructor; [by apply IH|]. apply Forall_app. split; [done|by constructor].
Qed.

Lemma insert_after_perm when d l : insert_after when d l ≡ₚ d :: l.
Proof.
  induction l as [|e l IH]; cbn; [done|]. destruct (e.1 <=? when); [|done].
  rewrite IH. apply Permutation_swap.
Qed.

Lemma insert_after_sorted d l : tl_sorted l → tl_sorted (insert_after d.1 d l).
Proof.
  induction l as [|e l IH]; cbn; intros Hs; [by repeat constructor|].
  apply StronglySorted_inv in Hs as [Hs He].
  destruct (Z.leb_spec e.1 d.1) as [Hle|Hlt].
  - constructor; [by apply IH|]. rewrite insert_after_perm. by constructor.
  - constructor; [by constructor|]. constructor; [unfold no_later; lia|].
    eapply Forall_impl; [exact He|]. unfold no_later. intros x Hx; lia.
Qed.

(** Arming the event for a head that is due at [when]. *)
Lemma schedSendEvent_arm now dr when q :
  waitingOnRetry q = false → when < MaxTick →
  (∀ w, sendEvent q = Some w → now ≤ w ∧ when ≤ w) →
  ∃ w, schedSendEvent now dr when q = Ok (q <| sendEvent := Some w |>, false) ∧
    when ≤ w ∧ now ≤ w ∧ w ≤ Z.max when (now + 1).
Proof.
  intros Hw Hm He. unfold schedSendEvent. rewrite Hw.
  rewrite (proj2 (Z.eqb_neq when MaxTick)) by lia. cbn [negb].
  destruct (sendEvent q) as [w|] eqn:E.
  - destruct (He w eq_refl) as [H1 H2]. destruct (Z.ltb_spec (Z.max when (now + 1)) w).
    + exists (Z.max when (now + 1)). unfold reschedule.
      rewrite !assert_bind by (cbn; lia). split; [done|]. lia.
    + exists w. cbn. split; [|lia]. by destruct q; cbn in *; subst.
  - exists (Z.max when (now + 1)). unfold schedule.
    rewrite !assert_bind by (cbn; lia). split; [done|]. lia.
Qed.

(** The tick a packet is filed under: never before all others if the order is
    forced. *)
Lemma forced_tick when (fo : bool) q :
  tl_sorted (transmitList q) → Forall (λ d, d.1 < MaxTick) (transmitList q) → when < MaxTick →
  let t := match last (transmitList q) with
           | Some (back, _) => if fo && (when <? back) then back else when
           | None => when
           end in
  when ≤ t < MaxTick ∧ (fo = true → Forall (λ e : deferred, e.1 ≤ t) (transmitList q)).
Proof.
  intros Hs Hf Hm. destruct (transmitList q) as [|f l] eqn:Eq; [done|].
  destruct (last (f :: l)) as [[back pb]|] eqn:El; [|by apply last_None in El].
  pose proof El as Hin. apply last_Some_elem_of in Hin. rewrite Forall_forall in Hf.
  specialize (Hf _ Hin). cbn in Hf. split.
  - destruct fo; cbn; [|lia]. destruct (Z.ltb_spec when back); lia.
  - intros ->. apply Forall_forall. intros x Hx.
    pose proof (sorted_last_le f l x Hs Hx) as H. rewrite El in H. cbn in *.
    destruct (Z.ltb_spec when back); lia.
Qed.

(** Where a packet is filed: at the front, with the event armed, or behind the head,
    with the event left alone. *)
Lemma schedSendTiming_cases now dr pkt when fo q :
  tl_sorted (transmitList q) → Forall (λ d, d.1 < MaxTick) (transmitList q) →
  now ≤ when < MaxTick → Z.of_nat (length (transmitList q)) ≤ 1000 → isExpressSnoop pkt = false →
  ∃ t, when ≤ t < MaxTick ∧
    ((Forall (λ e, t < e.1) (transmitList q) ∧ (fo = true → transmitList q = []) ∧
        schedSendTiming now dr pkt when fo q = schedSendEvent now dr t (q <| transmitList ::= cons (t, pkt) |>)) ∨
     (∃ f l l', transmitList q = f :: l ∧ tl_sorted (f :: l') ∧ l' ≡ₚ (t, pkt) :: l ∧
        (fo = true → l' = l ++ [(t, pkt)]) ∧
        schedSendTiming now dr pkt when fo q = Ok (q <| transmitList := f :: l' |>, false))).
Proof.
  intros Hs Hf Hwh Hlen Hx. unfold schedSendTiming.
  rewrite assert_bind by lia. rewrite assert_bind by (by rewrite Hx). rewrite (proj2 (Z.ltb_ge 1000 _)) by lia.
  destruct (forced_tick when fo q Hs Hf) as [Ht Hfo]; [lia|].
  set (t := match last (transmitList q) with Some (back, _) => _ | None => when end) in *.
  clearbody t. cbv zeta. exists t. split; [done|].
  destruct (transmitList q) as [|f l] eqn:Eq.
  { left. split_and!; [constructor|done|]. f_equal. destruct q; cbn in *; by subst. }
  destruct (Z.ltb_spec t f.1) as [Hlt|Hge].
  { assert (fo = false) as ->.
    { destruct fo; [|done]. specialize (Hfo eq_refl). apply Forall_cons in Hfo as [H _]. lia. }
    left. split_and!; [|done|].
    - constructor; [done|]. apply StronglySorted_inv in Hs as [_ Hs].
      eapply Forall_impl; [exact Hs|]. unfold no_later. intros; lia.
    - rewrite assert_bind by done. f_equal. destruct q; cbn in *; by subst. }
  right. exists f, l. destruct (Z.leb_spec (default f (last (f :: l))).1 t) as [Hle|Hgt].
  - exists (l ++ [(t, pkt)]). split_and!; [done| |by rewrite Permutation_app_comm|done|done].
    apply (snoc_tl_sorted (f :: l)); [done|]. apply Forall_forall. intros x Hin.
    pose proof (sorted_last_le f l x Hs Hin). unfold no_later; cbn; lia.
  - assert (fo = false) as ->.
    { destruct fo; [|done]. specialize (Hfo eq_refl). rewrite Forall_forall in Hfo.
      destruct (last (f :: l)) as [y|] eqn:El; [|by apply last_None in El].
      apply last_Some_elem_of in El. specialize (Hfo _ El). cbn in *; lia. }
    rewrite assert_bind by done. apply StronglySorted_inv in Hs as [Hs Hfl].
    exists (insert_after t (t, pkt) l). split_and!; [done| |apply insert_after_perm|done|done].
    constructor; [by apply (insert_after_sorted (t, pkt))|]. rewrite insert_after_perm.
    constructor; [unfold no_later; cbn; lia|done].
Qed.

(** A queue whose send event, if there is one, is not too early; with an event only
    if there is a packet.  This is what holds in the middle of a send, after the packet
    was taken off and while the peer may file others. *)
Record pq_mid (now : Tick) (q : PacketQueue) : Prop :=
  { pm_sorted : tl_sorted (transmitList q);
    pm_finite : Forall (λ d, d.1 < MaxTick) (transmitList q);
    pm_waiting : waitingOnRetry q = false;
    pm_event w : sendEvent q = Some w → now ≤ w ∧ ∃ f l, transmitList q = f :: l ∧ f.1 ≤ w }.

(** A packet filed at the front arms the event. *)
Lemma put_front_ok now dr pkt t q :
  tl_sorted (transmitList q) → Forall (λ d, d.1 < MaxTick) (transmitList q) → waitingOnRetry q = false →
  (∀ w, sendEvent q = Some w → now ≤ w ∧ t ≤ w) → now ≤ t < MaxTick → Forall (λ e, t < e.1) (transmitList q) →
  ∃ w, schedSendEvent now dr t (q <| transmitList ::= cons (t, pkt) |>) =
         Ok ((q <| transmitList ::= cons (t, pkt) |>) <| sendEvent := Some w |>, false) ∧
    t ≤ w ∧ now ≤ w ∧ w ≤ Z.max t (now + 1) ∧ tl_sorted ((t, pkt) :: transmitList q).
Proof.
  intros Hs Hf Hw He Ht Hall.
  destruct (schedSendEvent_arm now dr t (q <| transmitList ::= cons (t, pkt) |>)) as (w & -> & Hb); [done|lia|exact He|].
  exists w. split_and!; try done; try lia. constructor; [done|].
  eapply Forall_impl; [exact Hall|]. unfold no_later; cbn. intros; lia.
Qed.

Lemma schedSendTiming_ok now dr pkt when fo q :
  pq_ok now q → now ≤ when < MaxTick → Z.of_nat (length (transmitList q)) ≤ 1000 → isExpressSnoop pkt = false →
  ∃ q' t, schedSendTiming now dr pkt when fo q = Ok (q', false) ∧ pq_ok now q' ∧
    when ≤ t ∧ transmitList q' ≡ₚ (t, pkt) :: transmitList q ∧
    (fo = true → transmitList q' = transmitList q ++ [(t, pkt)]).
Proof.
  intros [Hs Hf He] Hwh Hlen Hx.
  destruct (schedSendTiming_cases now dr pkt when fo q Hs Hf Hwh Hlen Hx) as (t & Ht & [(Hall & Hfo & ->)|(f & l & l' & El & Hs' & Hp & Hfo & ->)]).
  - assert (waitingOnRetry q = false ∧ ∀ w, sendEvent q = Some w → now ≤ w ∧ t ≤ w) as [Hw Hev].
    { destruct (transmitList q) as [|f l]; [destruct He as [? ->]; naive_solver|].
      apply Forall_cons in Hall as [Hft _]. destruct (waitingOnRetry q); [destruct He; lia|]. split; [done|].
      destruct He as (w0 & -> & Hw0). intros w [= <-]; lia. }
    destruct (put_front_ok now dr pkt t q Hs Hf Hw Hev) as (w & -> & H1 & H2 & H3 & H4); [lia|done|].
    eexists _, t. split; [reflexivity|]. split_and!; [|lia|done|].
    + split; cbn; [done|by constructor; [cbn; lia|]|]. rewrite Hw. eauto.
    + intros E. cbn. by rewrite (Hfo E).
  - rewrite El in *. apply Forall_cons in Hf as [Hff Hf]. eexists _, t. split; [reflexivity|]. split_and!; [|lia| |].
    + split; cbn; [done|constructor; [done|rewrite Hp; by constructor; [cbn; lia|]]|exact He].
    + cbn. rewrite Hp. apply Permutation_swap.
    + intros E. cbn. by rewrite (Hfo E).
Qed.

(** Filing a packet in the middle of a send. *)
Lemma schedSendTiming_mid now dr pkt when fo q :
  pq_mid now q → now ≤ when < MaxTick → Z.of_nat (length (transmitList q)) ≤ 1000 → isExpressSnoop pkt = false →
  ∃ q' t, schedSendTiming now dr pkt when fo q = Ok (q', false) ∧ pq_mid now q' ∧ transmitList q' ≡ₚ (t, pkt) :: transmitList q.
Proof.
  intros [Hs Hf Hw He] Hwh Hlen Hx.
  destruct (schedSendTiming_cases now dr pkt when fo q Hs Hf Hwh Hlen Hx) as (t & Ht & [(Hall & Hfo & ->)|(f & l & l' & El & Hs' & Hp & Hfo & ->)]).
  - destruct (put_front_ok now dr pkt t q Hs Hf Hw) as (w & -> & H1 & H2 & H3 & H4); [|lia|done|].
    { intros w Ew. destruct (He w Ew) as (Hn & f & l & El & Hl). rewrite El in Hall. apply Forall_cons in Hall as [? _]. lia. }
    eexists _, t. split; [reflexivity|]. split; [|done].
    split; cbn; [done|by constructor; [cbn; lia|]|done|]. intros w' [= <-]. eauto.
  - rewrite El in *. apply Forall_cons in Hf as [Hff Hf]. eexists _, t. split; [reflexivity|]. split.
    + split; cbn; [done|constructor; [done|rewrite Hp; by constructor; [cbn; lia|]]|done|].
      intros w Ew. destruct (He w Ew) as (Hn & f' & l0 & [= <- <-] & Hl). eauto.
    + cbn. rewrite Hp. apply Permutation_swap.
Qed.

(** The end of a send that was accepted. *)
Lemma send_done_ok now dr q : pq_mid now q → ∃ q' d, schedSendEvent now dr (deferredPacketReadyTime q) q = Ok (q', d) ∧ pq_ok now q' ∧
  transmitList q' = transmitList q.
Proof.
  intros [Hs Hf Hw He]. unfold deferredPacketReadyTime. destruct (transmitList q) as [|f l] eqn:El.
  - assert (sendEvent q = None) as En by (destruct (sendEvent q) as [w|]; [destruct (He w) as (_ & ? & ? & ? & _); done|done]).
    unfold schedSendEvent. rewrite Hw, Z.eqb_refl. cbn [negb]. eexists _, _. split; [reflexivity|]. split; [|done].
    split; rewrite El; done.
  - destruct (schedSendEvent_arm now dr f.1 q Hw) as (w & -> & Hb); [by apply Forall_cons in Hf as [? _]| |].
    { intros w Ew. destruct (He w Ew) as (? & ? & ? & [= <- <-] & ?). lia. }
    eexists _, _. split; [reflexivity|]. split; [|done]. split; cbn; rewrite El; [done|done|]. rewrite Hw. eauto.
Qed.

(** *** The peer *)

(** What a peer may file at tick [now]: a packet that is no express snoop, not for the
    past, while the list is within its limit. *)
Definition may_file (now : Tick) (pkt : Packet) (when : Tick) (q : PacketQueue) : bool :=
  (now <=? when) && (when <? MaxTick) && (Z.of_nat (length (transmitList q)) <=? 1000) && negb (isExpressSnoop pkt).
Definition file (now : Tick) (dr : bool) (q : PacketQueue) (f : Packet * Tick * bool) : res PacketQueue :=
  let '(pkt, when, fo) := f in
  if may_file now pkt when q then qd ← schedSendTiming now dr pkt when fo q; Ok qd.1 else Ok q.
(** The peer files some packets during the call, if it accepts. *)
Definition peer (now : Tick) (dr accepted : bool) (fs : list (Packet * Tick * bool)) (_ : Packet) (q : PacketQueue)
    : res (bool * PacketQueue) :=
  q ← (if accepted then foldM (file now dr) q fs else Ok q); Ok (accepted, q).

(** The packets that get into the queue. *)
Fixpoint filed_by (now : Tick) (dr : bool) (q : PacketQueue) (fs : list (Packet * Tick * bool)) : list Packet :=
  match fs with
  | [] => []
  | f :: fs =>
      (if may_file now f.1.1 f.1.2 q then [f.1.1] else []) ++
      match file now dr q f with Ok q => filed_by now dr q fs | Fault _ => [] end
  end.

Lemma filing_ok now dr fs : ∀ q, pq_mid now q → ∃ q', foldM (file now dr) q fs = Ok q' ∧ pq_mid now q' ∧
  snd <$> transmitList q' ≡ₚ (snd <$> transmitList q) ++ filed_by now dr q fs.
Proof.
  induction fs as [|[[pkt when] fo] fs IH]; intros q Hq; [exists q; by rewrite app_nil_r|].
  cbn [foldM filed_by fst snd]. destruct (may_file now pkt when q) eqn:Em.
  - pose proof Em as Em'. unfold may_file in Em'. rewrite !andb_true_iff in Em'. destruct Em' as [[[H1 H2] H3] H4%negb_true_iff].
    destruct (schedSendTiming_mid now dr pkt when fo q Hq) as (q1 & t & E & Hq1 & Hp); [lia|lia|done|].
    assert (file now dr q (pkt, when, fo) = Ok q1) as -> by (unfold file; by rewrite Em, E).
    cbn [mbind res_bind]. destruct (IH q1 Hq1) as (q' & -> & Hq' & Hp'). exists q'. split_and!; [done..|].
    rewrite Hp', Hp. cbn. apply Permutation_middle.
  - assert (file now dr q (pkt, when, fo) = Ok q) as -> by (unfold file; by rewrite Em). exact (IH q Hq).
Qed.

(** Offering the head: it is sent at or after its tick, or kept; what the peer files is
    queued. *)
Lemma sending_ok now dr acc fs q f l :
  tl_sorted (transmitList q) → Forall (λ d, d.1 < MaxTick) (transmitList q) →
  waitingOnRetry q = false → sendEvent q = None → transmitList q = f :: l → f.1 ≤ now →
  ∃ q' d, sendDeferredPacket now dr (peer now dr acc fs) q = Ok (q', f, d) ∧ pq_ok now q' ∧
    snd <$> transmitList q' ≡ₚ if acc then (snd <$> l) ++ filed_by now dr (q <| transmitList := l |>) fs else snd <$> f :: l.
Proof.
  intros Hs Hf Hw He El Hn. unfold sendDeferredPacket. rewrite Hw. unfold deferredPacketReady. rewrite El in *.
  rewrite !assert_bind by (done || lia). unfold peer. destruct acc.
  - apply StronglySorted_inv in Hs as [Hs _]. apply Forall_cons in Hf as [_ Hf].
    destruct (filing_ok now dr fs (q <| transmitList := l |>)) as (q1 & -> & Hq1 & Hp); [split; cbn; rewrite ?He; done|].
    cbn [mbind res_bind fst snd negb]. assert (q1 <| waitingOnRetry := false |> = q1) as -> by (destruct q1, Hq1; cbn in *; by subst).
    rewrite (pm_waiting _ _ Hq1). cbn [negb]. destruct (send_done_ok now dr q1 Hq1) as (q' & d & -> & Hq' & El').
    eexists _, _. split; [reflexivity|]. split; [done|]. cbn [fst]. by rewrite El'.
  - cbn [mbind res_bind fst snd negb]. cbn. eexists _, _. split; [reflexivity|]. split; [|done].
    split; cbn; [done|done|]. by rewrite He.
Qed.

(** The same for a peer that files nothing. *)
Lemma sendDeferredPacket_ok now dr acc q f l :
  pq_ok now (q <| waitingOnRetry := true |> <| sendEvent := None |>) →
  waitingOnRetry q = false → sendEvent q = None → transmitList q = f :: l → f.1 ≤ now →
  ∃ q' d, sendDeferredPacket now dr (answers acc) q = Ok (q', f, d) ∧ pq_ok now q'.
Proof.
  intros [Hs Hf _] Hw He El Hn. destruct (sending_ok now dr acc [] q f l) as (q' & d & E & Hq & _); [done..|].
  exists q', d. split; [|done]. rewrite <-E. unfold sendDeferredPacket, peer, answers. by destruct acc.
Qed.

(** *** Runs

    Packets are filed, time passes up to the next send event, the event fires, and
    the peer asks for a retry after a refusal.  A peer that accepts a packet may file
    others before its call returns. *)
Inductive pop : Type :=
| Sched (pkt : Packet) (when : Tick) (force_order : bool)
| Advance (t : Tick)
| Fire (accepted : bool) (fs : list (Packet * Tick * bool))
| Retry (accepted : bool) (fs : list (Packet * Tick * bool)).

Record pstate := mkPState
  { ps_now : Tick; ps_q : PacketQueue; ps_sent : list (Tick * deferred) }.

Definition offer (s : pstate) (accepted : bool) (o : PacketQueue * deferred * bool) : pstate :=
  let '(q, d, _) := o in
  mkPState (ps_now s) q (if accepted then ps_sent s ++ [(ps_now s, d)] else ps_sent s).

Definition pq_step (dr : bool) (s : pstate) (op : pop) : res pstate :=
  match op with
  | Sched pkt when fo =>
      qd ← schedSendTiming (ps_now s) dr pkt when fo (ps_q s);
      Ok (mkPState (ps_now s) qd.1 (ps_sent s))
  | Advance t => Ok (mkPState t (ps_q s) (ps_sent s))
  | Fire a fs => offer s a <$> processSendEvent (ps_now s) dr (peer (ps_now s) dr a fs) (ps_q s)
  | Retry a fs => offer s a <$> retry (ps_now s) dr (peer (ps_now s) dr a fs) (ps_q s)
  end.

Definition pq_guard (s : pstate) (op : pop) : bool :=
  match op with
  | Sched pkt when _ => may_file (ps_now s) pkt when (ps_q s)
  | Advance t =>
      (ps_now s <=? t) && match sendEvent (ps_q s) with Some w => t <=? w | None => true end
  | Fire _ _ => bool_decide (sendEvent (ps_q s) = Some (ps_now s))
  | Retry _ _ => waitingOnRetry (ps_q s)
  end.
Definition pq_gstep (dr : bool) (s : pstate) (op : pop) : res pstate :=
  if pq_guard s op then pq_step dr s op else Ok s.

(** The packets that an operation puts into the queue. *)
Definition filed_at (dr : bool) (s : pstate) (op : pop) : list Packet :=
  if pq_guard s op then
    match op with
    | Sched p _ _ => [p]
    | Advance _ => []
    | Fire a fs => if a then filed_by (ps_now s) dr ((ps_q s) <| sendEvent := None |> <| transmitList ::= tail |>) fs else []
    | Retry a fs => if a then filed_by (ps_now s) dr ((ps_q s) <| waitingOnRetry := false |> <| transmitList ::= tail |>) fs else []
    end
  else [].
Fixpoint filed (dr : bool) (s : pstate) (ops : list pop) : list Packet :=
  match ops with
  | [] => []
  | op :: ops =>
      filed_at dr s op ++ match pq_gstep dr s op with Ok s' => filed dr s' ops | Fault _ => [] end
  end.

Definition pq_inv (s : pstate) : Prop :=
  pq_ok (ps_now s) (ps_q s) ∧ Forall (λ e : Tick * deferred, e.2.1 ≤ e.1) (ps_sent s).
Definition held (s : pstate) : list Packet :=
  ((λ e : Tick * deferred, e.2.2) <$> ps_sent s) ++ (snd <$> transmitList (ps_q s)).

Lemma offer_ok s (acc : bool) f l fs o q' d :
  pq_inv s → transmitList (ps_q s) = f :: l → f.1 ≤ ps_now s →
  o = Ok (q', f, d) → pq_ok (ps_now s) q' → snd <$> transmitList q' ≡ₚ (if acc then (snd <$> l) ++ fs else snd <$> f :: l) →
  ∃ s', offer s acc <$> o = Ok s' ∧ pq_inv s' ∧ held s' ≡ₚ held s ++ if acc then fs else [].
Proof.
  intros [_ Hs] El Hf -> Hq Hp. eexists. split; [reflexivity|]. destruct acc; cbn.
  - split; [split; [done|]|].
    + apply Forall_app. split; [done|]. by repeat constructor.
    + unfold held; cbn. rewrite El, Hp, fmap_app, <-!app_assoc. done.
  - split; [split; [done|done]|]. unfold held; cbn. by rewrite El, Hp, app_nil_r.
Qed.

Lemma pq_gstep_ok dr s op : pq_inv s →
  ∃ s', pq_gstep dr s op = Ok s' ∧ pq_inv s' ∧ held s' ≡ₚ held s ++ filed_at dr s op.
Proof.
  intros Hinv. unfold pq_gstep, filed_at. destruct (pq_guard s op) eqn:Hg; [|exists s; by rewrite app_nil_r].
  pose proof Hinv as [[Hs Hf He] Hsent].
  destruct op as [pkt when fo|t|acc fs|acc fs]; cbn in Hg.
  - unfold may_file in Hg. rewrite !andb_true_iff in Hg. destruct Hg as [[[H1 H2] H3] H4%negb_true_iff].
    destruct (schedSendTiming_ok (ps_now s) dr pkt when fo (ps_q s))
      as (q' & t & E & Hq & _ & Hp & _); [apply Hinv|lia|lia|done|].
    cbn. rewrite E. eexists. split; [reflexivity|]. split; [by split|].
    unfold held; cbn. rewrite Hp. cbn. rewrite <-app_assoc. apply Permutation_app_head.
    apply Permutation_cons_append.
  - apply andb_true_iff in Hg as [H1 H2]. eexists. split; [reflexivity|].
    split; [|by rewrite app_nil_r]. split; [|done]. split; [done..|]. cbn.
    destruct (transmitList (ps_q s)) as [|f l]; [done|].
    destruct (waitingOnRetry (ps_q s)); [destruct He; split; [done|lia]|].
    destruct He as (w & Ew & Hw). rewrite Ew in H2. exists w. split; [done|lia].
  - apply bool_decide_eq_true in Hg. destruct (transmitList (ps_q s)) as [|f l] eqn:El.
    { destruct He; congruence. }
    destruct (waitingOnRetry (ps_q s)) eqn:Ew; [destruct He; congruence|].
    destruct He as (w & Ew' & Hw). assert (w = ps_now s) as -> by congruence. rewrite <-El in Hs, Hf.
    destruct (sending_ok (ps_now s) dr acc fs ((ps_q s) <| sendEvent := None |>) f l)
      as (q' & d & E & Hq & Hl); [done..|lia|].
    apply (offer_ok s acc f l _ _ q' d); [done|done|lia| |done|].
    + unfold processSendEvent. rewrite assert_bind by (cbn; by rewrite Ew). exact E.
    + rewrite Hl. cbn. by rewrite El.
  - destruct (transmitList (ps_q s)) as [|f l] eqn:El.
    { destruct He; congruence. }
    rewrite Hg in He. destruct He as [He Hle]. rewrite <-El in Hs, Hf.
    destruct (sending_ok (ps_now s) dr acc fs ((ps_q s) <| waitingOnRetry := false |>) f l)
      as (q' & d & E & Hq & Hl); [done..|].
    apply (offer_ok s acc f l _ _ q' d); [done|done|done| |done|].
    + unfold retry. rewrite assert_bind by done. exact E.
    + rewrite Hl. cbn. by rewrite El.
Qed.

Lemma pq_run_held dr ops s : pq_inv s →
  ∃ s', foldM (pq_gstep dr) s ops = Ok s' ∧ pq_inv s' ∧ held s' ≡ₚ held s ++ filed dr s ops.
Proof.
  revert s. induction ops as [|op ops IH]; intros s Hinv; cbn.
  { exists s. rewrite app_nil_r. done. }
  destruct (pq_gstep_ok dr s op Hinv) as (s1 & E1 & H1 & P1). rewrite E1. cbn.
  destruct (IH s1 H1) as (s2 & E2 & H2 & P2). exists s2. split_and!; [done..|].
  rewrite P2, P1, <-app_assoc. done.
Qed.

(** C20: a packet queue loses and duplicates nothing.  Packets that are no express
    snoops are filed while the list is within its limit of 1000, between sends or, by
    a peer that accepts a packet, in the middle of the send; time passes up to the send
    event; and the peer refuses whichever packets it likes.  Then no assertion of the
    queue fails; the list stays sorted; after every operation a send event is pending
    whenever a packet waits and no retry is outstanding, at the latest one tick after
    the head is due; no packet is sent before its tick; and the packets sent and those
    still held are exactly the packets filed. *)
Theorem packet_queue_run_ok dr now ops :
  let s0 := mkPState now new_packet_queue [] in
  ∃ s', foldM (pq_gstep dr) s0 ops = Ok s' ∧ pq_ok (ps_now s') (ps_q s') ∧
    Forall (λ e : Tick * deferred, e.2.1 ≤ e.1) (ps_sent s') ∧
    ((λ e : Tick * deferred, e.2.2) <$> ps_sent s') ++ (snd <$> transmitList (ps_q s'))
      ≡ₚ filed dr s0 ops.
Proof.
  intros s0. destruct (pq_run_held dr ops s0) as (s' & E & [H1 H2] & P).
  - split; [|constructor]. by split; cbn; [constructor..|].
  - exists s'. split_and!; done.
Qed.
End PacketQueue.
