(* ===== verification/DramInit.v ===== *)
(** * Construction and startup (DRAMCtrl::DRAMCtrl, init, startup,
      DRAMCacheCtrl::DRAMCacheCtrl)

    The constants of a controller are derived from the parameters of the
    configuration scripts, which the constructors check.  What passes the
    checks is shown to meet the assumptions of the timing, decoding and
    scheduling theorems. *)

From S2P Require Import Prelude Intmath DramTypes.
Import Intmath.

Module DramInit.

(** The members of [DRAMCtrlParams] that the constructor reads.  [range_size]
    is [AbstractMemory::size()]; [granularity] is the interleaving granularity
    of the address range and its number of stripes, if it is interleaved. *)
Record DRAMCtrlParams := mkParams
  { device_size : Z; device_bus_width : Z; burst_length : Z;
    device_rowbuffer_size : Z; devices_per_rank : Z; ranks_per_channel : Z;
    bank_groups_per_rank : Z; banks_per_rank : Z; channels_ : Z;
    read_buffer_size : Z; write_buffer_size : Z;
    write_high_thresh_perc : Z; write_low_thresh_perc : Z;
    min_writes_per_switch : Z;
    p_tCK : Z; p_tWTR : Z; p_tRTW : Z; p_tCS : Z; p_tBURST : Z; p_tCCD_L : Z;
    p_tRCD : Z; p_tCL : Z; p_tRP : Z; p_tRAS : Z; p_tWR : Z; p_tRTP : Z;
    p_tRFC : Z; p_tREFI : Z; p_tRRD : Z; p_tRRD_L : Z; p_tXAW : Z;
    activation_limit : Z;
    mem_sched_policy : MemSched; addr_mapping : AddrMap; page_policy : PageManage;
    max_accesses_per_row : Z;
    static_frontend_latency : Z; static_backend_latency : Z;
    range_size : Z; granularity : option (Z * Z) }.

Definition fatal_if (b : bool) (msg : string) : res unit :=
  if b then Fault (Fatal msg) else Ok tt.

(** The initialiser list, in 32-bit arithmetic.  The write thresholds are computed in
    [double] and truncated: [x / 100.0] is never rounded up to an integer. *)
Definition members (p : DRAMCtrlParams) (rows : Z) : DRAMParams :=
  let burst := u32 (devices_per_rank p * burst_length p * device_bus_width p) / 8 in
  let rowbuf := u32 (devices_per_rank p * u32 (device_rowbuffer_size p)) in
  {| burstSize := burst; rowBufferSize := rowbuf;
     columnsPerRowBuffer := rowbuf / burst;
     columnsPerStripe := match granularity p with Some (g, _) => u32 (g / burst) | None => 1 end;
     ranksPerChannel := ranks_per_channel p;
     bankGroupsPerRank := bank_groups_per_rank p;
     bankGroupArch := 0 <? bank_groups_per_rank p;
     banksPerRank := banks_per_rank p; channels := channels_ p; rowsPerBank := rows;
     readBufferSize := read_buffer_size p; writeBufferSize := write_buffer_size p;
     writeHighThreshold := u32 (write_buffer_size p * write_high_thresh_perc p) / 100;
     writeLowThreshold := u32 (write_buffer_size p * write_low_thresh_perc p) / 100;
     minWritesPerSwitch := min_writes_per_switch p;
     tCK := p_tCK p; tWTR := p_tWTR p; tRTW := p_tRTW p; tCS := p_tCS p;
     tBURST := p_tBURST p; tCCD_L := p_tCCD_L p; tRCD := p_tRCD p; tCL := p_tCL p;
     tRP := p_tRP p; tRAS := p_tRAS p; tWR := p_tWR p; tRTP := p_tRTP p;
     tRFC := p_tRFC p; tREFI := p_tREFI p; tRRD := p_tRRD p; tRRD_L := p_tRRD_L p;
     tXAW := p_tXAW p; activationLimit := activation_limit p;
     memSchedPolicy := mem_sched_policy p; addrMapping := addr_mapping p;
     pageMgmt := page_policy p; maxAccessesPerRow := max_accesses_per_row p;
     frontendLatency := static_frontend_latency p;
     backendLatency := static_backend_latency p |}.

(** The banks of one rank and the ranks of the channel, as built by the loops of
    the constructor. *)
Definition build_bank `{P : DRAMParams} (b : Z) : Bank :=
  new_bank <| bank_no := u8 b |>
           <| bankgr := u8 (if bankGroupArch then b mod bankGroupsPerRank else b) |>.
Definition build_rank `{P : DRAMParams} (i : Z) : Rank :=
  new_rank <| actTicks := replicate (Z.to_nat activationLimit) 0 |>
           <| banks := build_bank <$> seqZ 0 banksPerRank |>
           <| rank_no := u8 i |>.
Definition build_ranks `{P : DRAMParams} : Ranks := build_rank <$> seqZ 0 ranksPerChannel.

(** The bank group checks. *)
Definition check_groups `{P : DRAMParams} : res unit :=
  if bankGroupArch then
    fatal_if (banksPerRank <? bankGroupsPerRank) "banks per rank must be larger than groups";;
    fatal_if (negb (banksPerRank mod bankGroupsPerRank =? 0)) "banks not evenly divisible";;
    fatal_if (tCCD_L <=? tBURST) "tCCD_L should be larger than tBURST";;
    fatal_if (tRRD_L <? tRRD) "tRRD_L should be larger than tRRD"
  else Ok tt.

(** A division of unsigned integers. *)
Definition udiv (a b : Z) : res Z := if b =? 0 then Fault (Panic "division by zero") else Ok (a / b).

(** The initialisers divide by the burst size before it is checked. *)
Definition DRAMCtrl (p : DRAMCtrlParams) : res DRAMParams :=
  let P := members p 0 in
  udiv (@rowBufferSize P) (@burstSize P);;
  fatal_if (negb (isPowerOf2 (@ranksPerChannel P))) "rank count must be a power of two";;
  fatal_if (negb (isPowerOf2 (@burstSize P))) "burst size must be a power of two";;
  fatal_if (write_high_thresh_perc p <=? write_low_thresh_perc p)
    "Write buffer low threshold must be smaller than the high threshold";;
  lg ← ceilLog2 (range_size p);
  let capacity := u64 (Z.shiftl 1 lg) in
  rows ← udiv capacity (u32 (@rowBufferSize P * @banksPerRank P * @ranksPerChannel P));
  let P := members p (u32 rows) in
  fatal_if ((@tREFI P <=? @tRP P) || (@tREFI P <=? @tRFC P))
    "tREFI must be larger than tRP and tRFC";;
  check_groups;;
  Ok P.

(** [DRAMCtrl::init]: the checks of the interleaving; [cacheLineSize] is that of
    the system. *)
Definition init `{P : DRAMParams} (gran : option (Z * Z)) (cacheLineSize : Z) : res unit :=
  match gran with
  | None => Ok tt
  | Some (g, stripes) =>
      fatal_if (negb (channels =? stripes)) "interleaved stripes do not match channels";;
      match addrMapping with
      | RoRaBaChCo => fatal_if (negb (rowBufferSize =? g)) "interleaving does not match RoRaBaChCo"
      | _ =>
          assert (1 <=? columnsPerStripe) "columnsPerStripe >= 1";;
          fatal_if (g <? cacheLineSize) "interleaving smaller than a cache line";;
          fatal_if (rowBufferSize <? g) "interleaving larger than the row buffer";;
          assert (columnsPerStripe <=? columnsPerRowBuffer)
            "columnsPerStripe <= columnsPerRowBuffer"
      end
  end.

(** [Rank::startup] and [DRAMCtrl::startup] in timing mode. *)
Definition rank_startup (now ref_tick : Tick) (rk : Rank) : res Rank :=
  assert (now <? ref_tick) "ref_tick > curTick()";;
  ev ← schedule now ref_tick (refreshEvent rk);
  Ok (rk <| pwrStateTick := now |> <| refreshEvent := ev |>).

Definition startup `{P : DRAMParams} (now : Tick) (s : Chan) : res Chan :=
  rs ← foldM (λ rs rk, rk ← rank_startup now (sub64 (now + tREFI) tRP) rk; Ok (rs ++ [rk]))
         [] (ranks s);
  Ok (s <| ranks := rs |> <| busBusyUntil := now + tRP + tRCD + tCL |>).

(** The members at construction. *)
Definition new_chan `{P : DRAMParams} : Chan := mkChan build_ranks 0 0 0 0 0 [] ∅.

(** ** The DRAM cache *)

(** The geometry members of [DRAMCacheCtrl]: rows, sets and sub-blocks.  15
    tag-and-data units of 136 bytes share a row of 2 kB. *)
Record CacheGeometry := mkGeometry
  { totalRows : Z; dramCache_num_sets : Z; num_sub_blocks_per_way : Z }.

Definition system_cache_block_size : Z := 128.

Definition DRAMCacheCtrl (p : DRAMCtrlParams) (dramcache_block_size : Z)
    : res (DRAMParams * CacheGeometry) :=
  P ← DRAMCtrl p;
  let deviceCapacity :=
    u32 (u32 (device_size p) / (1024 * 1024) * devices_per_rank p * @ranksPerChannel P) in
  rows ← udiv (1024 * 1024 * deviceCapacity) (u32 (@rowBufferSize P * @banksPerRank P * @ranksPerChannel P));
  total ← udiv (1024 * 1024 * deviceCapacity) (@rowBufferSize P);
  Ok (members p (u32 rows),
      {| totalRows := total; dramCache_num_sets := total * 15;
         num_sub_blocks_per_way := dramcache_block_size / system_cache_block_size |}).
End DramInit.
