(* ===== verification/Config.v ===== *)
(** * Concrete configurations (gem5/src/mem/DRAMCacheCtrl.py)

    The two DRAM configurations the DRAM cache is shipped with, in ticks of
    one picosecond; used to evaluate the model and to instantiate theorems. *)

From S2P Require Import Prelude DramTypes.

(** [class DDR3_1600_x64_Cache], on the default controller settings of
    [class DRAMCtrl] (write_buffer_size 64, thresholds 85% and 50%). *)
Definition DDR3_1600_x64_Cache : DRAMParams :=
  {| burstSize := 64; rowBufferSize := 8192; columnsPerRowBuffer := 128;
     columnsPerStripe := 1; ranksPerChannel := 2; bankGroupsPerRank := 0; bankGroupArch := false;
     banksPerRank := 8; channels := 1; rowsPerBank := 65536;
     readBufferSize := 32; writeBufferSize := 64;
     writeHighThreshold := 54; writeLowThreshold := 32;
     minWritesPerSwitch := 16;
     tCK := 1250; tWTR := 7500; tRTW := 2500; tCS := 2500; tBURST := 5000;
     tCCD_L := 0; tRCD := 13750; tCL := 13750; tRP := 13750; tRAS := 35000;
     tWR := 15000; tRTP := 7500; tRFC := 260000; tREFI := 7800000;
     tRRD := 6000; tRRD_L := 0; tXAW := 30000; activationLimit := 4;
     memSchedPolicy := frfcfs; addrMapping := RoRaBaCoCh;
     pageMgmt := open_adaptive; maxAccessesPerRow := 16;
     frontendLatency := 10000; backendLatency := 10000 |}.

(** [class HMC_2500_x32_Cache]: 8 layers of 4 banks, 2 kB rows, 36% and 18%
    write thresholds on 32 entries. *)
Definition HMC_2500_x32_Cache : DRAMParams :=
  {| burstSize := 64; rowBufferSize := 2048; columnsPerRowBuffer := 32;
     columnsPerStripe := 1; ranksPerChannel := 8; bankGroupsPerRank := 0; bankGroupArch := false;
     banksPerRank := 4; channels := 1; rowsPerBank := 512;
     readBufferSize := 32; writeBufferSize := 32;
     writeHighThreshold := 11; writeLowThreshold := 5;
     minWritesPerSwitch := 10;
     tCK := 800; tWTR := 7500; tRTW := 2500; tCS := 800; tBURST := 3200;
     tCCD_L := 0; tRCD := 10200; tCL := 9900; tRP := 7700; tRAS := 21600;
     tWR := 8000; tRTP := 4900; tRFC := 59000; tREFI := 3900000;
     tRRD := 3200; tRRD_L := 0; tXAW := 30000; activationLimit := 0;
     memSchedPolicy := frfcfs; addrMapping := RoRaBaCoCh;
     pageMgmt := close_adaptive; maxAccessesPerRow := 16;
     frontendLatency := 10000; backendLatency := 10000 |}.

(** [p] with another value of the parameter [mem_sched_policy], as in
    DRAMCacheCtrl-cpuQPriofrfcfs.py. *)
Definition with_sched (s : MemSched) (p : DRAMParams) : DRAMParams :=
  {| burstSize := burstSize; rowBufferSize := rowBufferSize;
     columnsPerRowBuffer := columnsPerRowBuffer; columnsPerStripe := columnsPerStripe;
     ranksPerChannel := ranksPerChannel; bankGroupsPerRank := bankGroupsPerRank;
     bankGroupArch := bankGroupArch;
     banksPerRank := banksPerRank; channels := channels; rowsPerBank := rowsPerBank;
     readBufferSize := readBufferSize; writeBufferSize := writeBufferSize;
     writeHighThreshold := writeHighThreshold; writeLowThreshold := writeLowThreshold;
     minWritesPerSwitch := minWritesPerSwitch;
     tCK := tCK; tWTR := tWTR; tRTW := tRTW; tCS := tCS; tBURST := tBURST;
     tCCD_L := tCCD_L; tRCD := tRCD; tCL := tCL; tRP := tRP; tRAS := tRAS;
     tWR := tWR; tRTP := tRTP; tRFC := tRFC; tREFI := tREFI;
     tRRD := tRRD; tRRD_L := tRRD_L; tXAW := tXAW; activationLimit := activationLimit;
     memSchedPolicy := s; addrMapping := addrMapping;
     pageMgmt := pageMgmt; maxAccessesPerRow := maxAccessesPerRow;
     frontendLatency := frontendLatency; backendLatency := backendLatency |}.

(** The stacked DRAM under the PrIS scheduler. *)
Definition HMC_PrIS : DRAMParams := with_sched cpuPriorityfrfcfs HMC_2500_x32_Cache.
