(* ===== verification/DramAddr.v ===== *)
(** * Address decoding (DRAMCtrl::decodeAddr, DRAMCacheCtrl::decodeAddr)

    Main memory decodes a byte address; the DRAM cache decodes the burst
    number it derives from the cache set.  Both are shown to split an address
    into coordinates without loss, and the cache's layout of 15 tag-and-data
    units per DRAM row is shown correct. *)

From S2P Require Import Prelude Packet DramTypes Config.
Import Packet.

Module DramAddr.
Section DramAddr.
Context `{P : DRAMParams}.

(** Rank, bank and row, as decoded; [rank] and [bank] are [uint8_t]. *)
Record loc := mkLoc { l_rank : Z; l_bank : Z; l_row : Z }.

(** The branches of [DRAMCtrl::decodeAddr], from the burst index. *)
Definition decode_loc (m : AddrMap) (addr : Addr) : loc :=
  match m with
  | RoRaBaChCo =>
      let addr := addr / columnsPerRowBuffer in
      let addr := addr / channels in
      let bank := u8 (addr mod banksPerRank) in
      let addr := addr / banksPerRank in
      let rank := u8 (addr mod ranksPerChannel) in
      let addr := addr / ranksPerChannel in
      let row := addr mod rowsPerBank in
      mkLoc rank bank row
  | RoRaBaCoCh =>
      let addr := addr / columnsPerStripe in
      let addr := addr / channels in
      let addr := addr / (columnsPerRowBuffer / columnsPerStripe) in
      let bank := u8 (addr mod banksPerRank) in
      let addr := addr / banksPerRank in
      let rank := u8 (addr mod ranksPerChannel) in
      let addr := addr / ranksPerChannel in
      let row := addr mod rowsPerBank in
      mkLoc rank bank row
  | RoCoRaBaCh =>
      let addr := addr / columnsPerStripe in
      let addr := addr / channels in
      let bank := u8 (addr mod banksPerRank) in
      let addr := addr / banksPerRank in
      let rank := u8 (addr mod ranksPerChannel) in
      let addr := addr / ranksPerChannel in
      let addr := addr / (columnsPerRowBuffer / columnsPerStripe) in
      let row := addr mod rowsPerBank in
      mkLoc rank bank row
  end.

(** The checks and the construction that end both [decodeAddr]s. *)
Definition make_dram_pkt (now : Tick) (l : loc) (pkt : Packet)
    (dramPktAddr : Addr) (size : Z) (isRead : bool) : res DRAMPacket :=
  assert (l_rank l <? ranksPerChannel) "rank < ranksPerChannel";;
  assert (l_bank l <? banksPerRank) "bank < banksPerRank";;
  assert (l_row l <? rowsPerBank) "row < rowsPerBank";;
  assert (l_row l <? NO_ROW) "row < Bank::NO_ROW";;
  assert (hasContextId pkt) "pkt->req->hasContextId()";;
  let bank_id := u16 (banksPerRank * l_rank l + l_bank l) in
  Ok {| entryTime := now; readyTime := now; dp_pkt := pkt; requestAddr := 0;
        dp_isRead := isRead; isFill := false; dp_contextId := contextId pkt;
        dp_rank := l_rank l; dp_bank := l_bank l; dp_row := l_row l;
        bankId := bank_id; dp_addr := dramPktAddr; dp_size := size;
        burstHelper := None |}.

(** [DRAMCtrl::decodeAddr]. *)
Definition decodeAddr (now : Tick) (pkt : Packet) (dramPktAddr : Addr)
    (size : Z) (isRead : bool) : res DRAMPacket :=
  make_dram_pkt now (decode_loc addrMapping (dramPktAddr / burstSize)) pkt
    dramPktAddr size isRead.

(** [DRAMCacheCtrl::decodeAddr]: the address is a burst number already.  The
    code has no branch for [RoRaBaChCo]: rank, bank and row would be read
    uninitialised. *)
Definition cache_decodeAddr (now : Tick) (pkt : Packet) (dramPktAddr : Addr)
    (size : Z) (isRead : bool) : res DRAMPacket :=
  match addrMapping with
  | RoCoRaBaCh | RoRaBaCoCh =>
      make_dram_pkt now (decode_loc addrMapping dramPktAddr) pkt
        dramPktAddr size isRead
  | RoRaBaChCo => Fault (Panic "rank, bank and row uninitialised")
  end.

(** The burst number of the first burst of a cache set, computed at the head
    of addToReadQueue, addToWriteQueue and addToFillQueue: two bursts per
    set and, in every row of 15 sets, two more bursts for the tags. *)
Definition set_burst_addr (blockSize numSets pktCount : Z) (addr : Addr) : Addr :=
  let addr := addr / blockSize in
  let addr := addr mod numSets in
  let cacheRow := addr / 15 in
  let addr := addr * pktCount in
  addr + cacheRow * 2.

(** ** Well-formed geometries *)

Record valid_geometry : Prop :=
  { vg_ranks : 0 < ranksPerChannel ≤ 256;
    vg_banks : 0 < banksPerRank ≤ 256;
    vg_rows : 0 < rowsPerBank ≤ NO_ROW;
    vg_channels : 0 < channels;
    vg_stripe : 0 < columnsPerStripe;
    vg_columns : 0 < columnsPerRowBuffer / columnsPerStripe;
    vg_divides : columnsPerStripe * (columnsPerRowBuffer / columnsPerStripe)
                 = columnsPerRowBuffer }.

Section valid.
Context (VG : valid_geometry).

(** Bank, rank and row are the mixed-radix digits of a number. *)
Definition digits (q : Z) : loc :=
  mkLoc (q / banksPerRank mod ranksPerChannel) (q mod banksPerRank)
    (q / banksPerRank / ranksPerChannel mod rowsPerBank).
Definition undigits (l : loc) : Z :=
  (l_row l * ranksPerChannel + l_rank l) * banksPerRank + l_bank l.

Lemma digits_range q :
  0 ≤ l_rank (digits q) < ranksPerChannel ∧ 0 ≤ l_bank (digits q) < banksPerRank ∧
  0 ≤ l_row (digits q) < rowsPerBank.
Proof. destruct VG. cbn. split_and!; apply Z.mod_pos_bound; lia. Qed.

Lemma u8_mod a n : 0 < n ≤ 256 → u8 (a mod n) = a mod n.
Proof. intros H. apply u8_small. pose proof (Z.mod_pos_bound a n). lia. Qed.

Lemma undigits_digits q :
  0 ≤ q < rowsPerBank * ranksPerChannel * banksPerRank →
  undigits (digits q) = q.
Proof.
  destruct VG. intros Hq. unfold undigits, digits; cbn.
  rewrite (Z.mod_small (q / banksPerRank / ranksPerChannel)).
  - rewrite (Z.mul_comm _ ranksPerChannel), <-Z.div_mod by lia.
    rewrite (Z.mul_comm _ banksPerRank), <-Z.div_mod by lia. done.
  - split; [apply Z.div_pos; [apply Z.div_pos|]; lia|].
    apply Z.div_lt_upper_bound; [lia|]. apply Z.div_lt_upper_bound; lia.
Qed.

Lemma digits_inj q q' :
  0 ≤ q < rowsPerBank * ranksPerChannel * banksPerRank →
  0 ≤ q' < rowsPerBank * ranksPerChannel * banksPerRank →
  digits q = digits q' → q = q'.
Proof.
  intros Hq Hq' H. rewrite <-(undigits_digits q Hq), <-(undigits_digits q' Hq').
  by rewrite H.
Qed.

Lemma decode_RoRaBaChCo a :
  decode_loc RoRaBaChCo a = digits (a / columnsPerRowBuffer / channels).
Proof. destruct VG. unfold decode_loc, digits. by rewrite !u8_mod by lia. Qed.

Lemma decode_RoRaBaCoCh a :
  decode_loc RoRaBaCoCh a =
  digits (a / columnsPerStripe / channels / (columnsPerRowBuffer / columnsPerStripe)).
Proof. destruct VG. unfold decode_loc, digits. by rewrite !u8_mod by lia. Qed.

Lemma decode_loc_range m a :
  0 ≤ l_rank (decode_loc m a) < ranksPerChannel ∧
  0 ≤ l_bank (decode_loc m a) < banksPerRank ∧
  0 ≤ l_row (decode_loc m a) < rowsPerBank.
Proof.
  destruct VG. destruct m; cbn; rewrite !u8_mod by lia;
    split_and!; apply Z.mod_pos_bound; lia.
Qed.

Lemma make_dram_pkt_ok now m a pkt da sz rd :
  hasContextId pkt = true →
  ∃ d, make_dram_pkt now (decode_loc m a) pkt da sz rd = Ok d ∧
    dp_pkt d = pkt ∧ dp_addr d = da ∧ dp_size d = sz ∧ dp_isRead d = rd ∧
    isFill d = false ∧ burstHelper d = None ∧ dp_contextId d = contextId pkt ∧
    entryTime d = now ∧ readyTime d = now ∧
    mkLoc (dp_rank d) (dp_bank d) (dp_row d) = decode_loc m a.
Proof.
  intros Hc. pose proof (decode_loc_range m a) as (? & ? & ?). destruct VG.
  unfold make_dram_pkt.
  rewrite !assert_true by (first [done|apply Z.ltb_lt; lia]).
  cbn. eexists. split; [done|]. split_and!; try done.
  by destruct (decode_loc m a).
Qed.
End valid.

(** ** Properties *)

(** On a valid geometry none of the checks of [DRAMCtrl::decodeAddr]
    fails, whatever the address, and the packet it builds lies in an
    existing bank: rank, bank and row are in range, and [bankId] numbers the
    bank across the channel without truncation. *)
Theorem decodeAddr_ok (VG : valid_geometry) now pkt a sz rd :
  hasContextId pkt = true →
  ∃ d, decodeAddr now pkt a sz rd = Ok d ∧
    0 ≤ dp_rank d < ranksPerChannel ∧ 0 ≤ dp_bank d < banksPerRank ∧
    0 ≤ dp_row d < rowsPerBank ∧ dp_row d ≠ NO_ROW ∧
    bankId d = banksPerRank * dp_rank d + dp_bank d ∧
    dp_pkt d = pkt ∧ dp_addr d = a ∧ dp_size d = sz ∧ dp_isRead d = rd.
Proof.
  intros Hc. unfold decodeAddr.
  destruct (make_dram_pkt_ok VG now addrMapping (a / burstSize) pkt a sz rd Hc)
    as (d & Hd & ? & ? & ? & ? & _ & _ & _ & _ & _ & Hl).
  exists d. split; [done|].
  pose proof (decode_loc_range VG addrMapping (a / burstSize)) as (Hr & Hb & Hw).
  rewrite <-Hl in Hr, Hb, Hw. cbn in Hr, Hb, Hw. destruct VG.
  split_and!; try lia; try done.
  revert Hd. unfold make_dram_pkt. rewrite <-Hl. intros Hd. res_inv.
  match goal with H : _ = d |- _ => rewrite <-H; cbn end. apply u16_small. nia.
Qed.

(** The two coordinates that decoding drops. *)
Definition column_of (m : AddrMap) (a : Z) : Z :=
  let hi := columnsPerRowBuffer / columnsPerStripe in
  match m with
  | RoRaBaChCo => a mod columnsPerRowBuffer
  | RoRaBaCoCh => a / columnsPerStripe / channels mod hi * columnsPerStripe + a mod columnsPerStripe
  | RoCoRaBaCh =>
      a / columnsPerStripe / channels / banksPerRank / ranksPerChannel mod hi * columnsPerStripe + a mod columnsPerStripe
  end.
Definition channel_of (m : AddrMap) (a : Z) : Z :=
  match m with
  | RoRaBaChCo => a / columnsPerRowBuffer mod channels
  | _ => a / columnsPerStripe mod channels
  end.

(** The burst index with the given coordinates, from the names of the mappings: row,
    rank, bank, column and channel from the highest to the lowest part; the columns of a
    stripe are always the lowest. *)
Definition encode (m : AddrMap) (column channel : Z) (l : loc) : Z :=
  let hi := columnsPerRowBuffer / columnsPerStripe in
  match m with
  | RoRaBaChCo => (undigits l * channels + channel) * columnsPerRowBuffer + column
  | RoRaBaCoCh =>
      ((undigits l * hi + column / columnsPerStripe) * channels + channel) * columnsPerStripe + column mod columnsPerStripe
  | RoCoRaBaCh =>
      ((((l_row l * hi + column / columnsPerStripe) * ranksPerChannel + l_rank l) * banksPerRank + l_bank l) * channels
        + channel) * columnsPerStripe + column mod columnsPerStripe
  end.

(** The bursts of all channels. *)
Definition total_bursts : Z := rowsPerBank * ranksPerChannel * banksPerRank * columnsPerRowBuffer * channels.
Definition in_bank (l : loc) : Prop :=
  0 ≤ l_rank l < ranksPerChannel ∧ 0 ≤ l_bank l < banksPerRank ∧ 0 ≤ l_row l < rowsPerBank.

(** One digit of a mixed-radix number. *)
Lemma digit q n r : 0 ≤ r < n → (q * n + r) / n = q ∧ (q * n + r) mod n = r.
Proof. intros H. split; [symmetry; apply (Z.div_unique _ _ _ r)|symmetry; apply (Z.mod_unique _ _ q)]; lia. Qed.
Lemma digit_bound q n r N : 0 ≤ r < n → 0 ≤ q < N → 0 ≤ q * n + r < N * n.
Proof. nia. Qed.
Lemma split_digit a n : 0 < n → a = a / n * n + a mod n.
Proof. intros H. rewrite (Z.mul_comm _ n). apply Z.div_mod. lia. Qed.
Lemma quotient_bound a n N : 0 < n → 0 ≤ a < N * n → 0 ≤ a / n < N.
Proof. intros Hn Ha. split; [apply Z.div_pos; lia|]. apply Z.div_lt_upper_bound; lia. Qed.

Lemma digits_undigits (VG : valid_geometry) l : in_bank l → digits (undigits l) = l.
Proof.
  intros (Hr & Hb & Hw). unfold digits, undigits.
  destruct (digit (l_row l * ranksPerChannel + l_rank l) banksPerRank (l_bank l) Hb) as [-> ->].
  destruct (digit (l_row l) ranksPerChannel (l_rank l) Hr) as [-> ->]. rewrite Z.mod_small by done. by destruct l.
Qed.
Lemma undigits_bound (VG : valid_geometry) l : in_bank l → 0 ≤ undigits l < rowsPerBank * ranksPerChannel * banksPerRank.
Proof. intros (Hr & Hb & Hw). unfold undigits. by do 2 (apply digit_bound; [done|]). Qed.
Lemma decode_RoCoRaBaCh (VG : valid_geometry) a : let q := a / columnsPerStripe / channels in
  decode_loc RoCoRaBaCh a =
    mkLoc (q / banksPerRank mod ranksPerChannel) (q mod banksPerRank)
      (q / banksPerRank / ranksPerChannel / (columnsPerRowBuffer / columnsPerStripe) mod rowsPerBank).
Proof. destruct VG. cbn. by rewrite !u8_mod by lia. Qed.

Lemma decode_encode (VG : valid_geometry) m column channel l :
  0 ≤ column < columnsPerRowBuffer → 0 ≤ channel < channels → in_bank l →
  let a := encode m column channel l in
  0 ≤ a < total_bursts ∧ decode_loc m a = l ∧ column_of m a = column ∧ channel_of m a = channel.
Proof.
  intros Hc Hch Hl. pose proof VG as [V1 V2 V3 V4 V5 V6 V7]. unfold total_bursts. cbv zeta.
  set (hi := columnsPerRowBuffer / columnsPerStripe) in *.
  pose proof (Z.mod_pos_bound column columnsPerStripe V5) as Hlo.
  assert (0 ≤ column / columnsPerStripe < hi) as Hhi by (apply quotient_bound; lia).
  pose proof (split_digit column columnsPerStripe V5) as Ecol. pose proof (undigits_bound VG l Hl) as Hu.
  destruct m.
  - unfold encode, column_of, channel_of. fold hi.
    set (q1 := undigits l * channels + channel) in *.
    destruct (digit q1 columnsPerRowBuffer column Hc) as [D1 M1]. destruct (digit (undigits l) channels channel Hch) as [D2 M2]. fold q1 in D2, M2.
    rewrite decode_RoRaBaChCo, D1, M1, D2, M2, digits_undigits by done. split_and!; try done.
    all: pose proof (digit_bound _ _ _ _ Hc (digit_bound _ _ _ _ Hch Hu)) as Hb; fold q1 in Hb; lia.
  - unfold encode, column_of, channel_of. fold hi.
    set (q2 := undigits l * hi + column / columnsPerStripe) in *. set (q1 := q2 * channels + channel) in *.
    destruct (digit q1 columnsPerStripe (column mod columnsPerStripe) Hlo) as [D1 M1]. destruct (digit q2 channels channel Hch) as [D2 M2]. fold q1 in D2, M2.
    destruct (digit (undigits l) hi (column / columnsPerStripe) Hhi) as [D3 M3]. fold q2 in D3, M3.
    rewrite decode_RoRaBaCoCh by done. fold hi. rewrite D1, M1, D2, M2, D3, M3, digits_undigits by done. split_and!; try done.
    all: pose proof (digit_bound _ _ _ _ Hlo (digit_bound _ _ _ _ Hch (digit_bound _ _ _ _ Hhi Hu))) as Hb; fold q2 q1 in Hb; nia.
  - unfold encode, column_of, channel_of. fold hi. destruct Hl as (Hr & Hb & Hw).
    set (q4 := l_row l * hi + column / columnsPerStripe) in *. set (q3 := q4 * ranksPerChannel + l_rank l) in *.
    set (q2 := q3 * banksPerRank + l_bank l) in *. set (q1 := q2 * channels + channel) in *.
    destruct (digit q1 columnsPerStripe (column mod columnsPerStripe) Hlo) as [D1 M1]. destruct (digit q2 channels channel Hch) as [D2 M2]. fold q1 in D2, M2.
    destruct (digit q3 banksPerRank (l_bank l) Hb) as [D3 M3]. fold q2 in D3, M3.
    destruct (digit q4 ranksPerChannel (l_rank l) Hr) as [D4 M4]. fold q3 in D4, M4.
    destruct (digit (l_row l) hi (column / columnsPerStripe) Hhi) as [D5 M5]. fold q4 in D5, M5.
    rewrite decode_RoCoRaBaCh by done. fold hi. cbv zeta. rewrite D1, M1, D2, M2, D3, M3, D4, M4, D5, M5.
    rewrite (Z.mod_small (l_row l)) by done. split_and!; try done; [| |by destruct l].
    all: pose proof (digit_bound _ _ _ _ Hlo (digit_bound _ _ _ _ Hch (digit_bound _ _ _ _ Hb (digit_bound _ _ _ _ Hr (digit_bound _ _ _ _ Hhi Hw))))) as Hbd;
      fold q4 q3 q2 q1 in Hbd; nia.
Qed.

Lemma encode_decode (VG : valid_geometry) m a :
  0 ≤ a < total_bursts → encode m (column_of m a) (channel_of m a) (decode_loc m a) = a.
Proof.
  unfold total_bursts. intros Ha. pose proof VG as [V1 V2 V3 V4 V5 V6 V7]. set (hi := columnsPerRowBuffer / columnsPerStripe) in *.
  assert (∀ q, let c := q mod hi * columnsPerStripe + a mod columnsPerStripe in
    c / columnsPerStripe = q mod hi ∧ c mod columnsPerStripe = a mod columnsPerStripe) as Hcol.
  { intros q. apply digit. apply Z.mod_pos_bound. lia. }
  destruct m; unfold encode, column_of, channel_of; fold hi.
  - rewrite decode_RoRaBaChCo, undigits_digits by (first [done|repeat (apply quotient_bound; [lia|]); lia]).
    rewrite <-split_digit, <-split_digit by lia. done.
  - destruct (Hcol (a / columnsPerStripe / channels)) as [-> ->]. rewrite decode_RoRaBaCoCh by done. fold hi.
    rewrite undigits_digits by (first [done|repeat (apply quotient_bound; [lia|]); nia]).
    rewrite <-!split_digit by lia. done.
  - destruct (Hcol (a / columnsPerStripe / channels / banksPerRank / ranksPerChannel)) as [-> ->].
    rewrite decode_RoCoRaBaCh by done. fold hi. cbn [l_row l_rank l_bank].
    rewrite (Z.mod_small (a / columnsPerStripe / channels / banksPerRank / ranksPerChannel / hi))
      by (repeat (apply quotient_bound; [lia|]); nia).
    rewrite <-!split_digit by lia. done.
Qed.

(** C29: decoding loses nothing, with each of the three address mappings.  Row, rank
    and bank together with the column and channel that [decodeAddr] drops are a
    bijection between the bursts of the channels and the coordinates: a burst is
    rebuilt from its coordinates, and all coordinates in range are those of one burst. *)
Theorem decode_roundtrip (VG : valid_geometry) m :
  (∀ a, 0 ≤ a < total_bursts → encode m (column_of m a) (channel_of m a) (decode_loc m a) = a) ∧
  (∀ column channel l, 0 ≤ column < columnsPerRowBuffer → 0 ≤ channel < channels → in_bank l →
     let a := encode m column channel l in
     0 ≤ a < total_bursts ∧ decode_loc m a = l ∧ column_of m a = column ∧ channel_of m a = channel).
Proof. split; [apply encode_decode, VG|intros; by apply decode_encode]. Qed.

(** The Alloy-cache layout.  With 32 bursts per row, two bursts per set
    and one channel, both bursts of every set [s] of the cache are decoded
    into DRAM row number [s / 15]; so the 15 sets of a group share one row
    (rank, bank and row), and sets of different groups never share a row. *)
Theorem set_layout (VG : valid_geometry) blockSize numSets a a' cnt cnt' :
  addrMapping = RoRaBaCoCh → columnsPerStripe = 1 → channels = 1 →
  columnsPerRowBuffer = 32 →
  0 < blockSize → 0 < numSets ≤ 15 * (rowsPerBank * ranksPerChannel * banksPerRank) →
  0 ≤ cnt < 2 → 0 ≤ cnt' < 2 →
  let s := a / blockSize mod numSets in
  let s' := a' / blockSize mod numSets in
  decode_loc addrMapping (set_burst_addr blockSize numSets 2 a + cnt)
    = digits (s / 15) ∧
  (decode_loc addrMapping (set_burst_addr blockSize numSets 2 a + cnt) =
   decode_loc addrMapping (set_burst_addr blockSize numSets 2 a' + cnt')
   ↔ s / 15 = s' / 15).
Proof.
  intros Hm Hst Hch Hcol Hb Hn Hc Hc' s s'.
  assert (∀ x c, 0 ≤ c < 2 →
    decode_loc addrMapping (set_burst_addr blockSize numSets 2 x + c)
    = digits (x / blockSize mod numSets / 15)) as Hdec.
  { intros x c Hx. rewrite Hm, decode_RoRaBaCoCh by done.
    rewrite Hst, Hch, Hcol, !Z.div_1_r. f_equal. unfold set_burst_addr.
    set (t := x / blockSize mod numSets).
    pose proof (Z.div_mod t 15 ltac:(lia)). pose proof (Z.mod_pos_bound t 15 ltac:(lia)).
    symmetry. apply Z.div_unique_pos with (2 * (t mod 15) + c); lia. }
  rewrite !Hdec by done. split; [done|].
  split; [|intros E; unfold s, s' in E; by rewrite E].
  assert (∀ x, 0 ≤ x / blockSize mod numSets / 15
               < rowsPerBank * ranksPerChannel * banksPerRank) as Hr.
  { intros x. pose proof (Z.mod_pos_bound (x / blockSize) numSets ltac:(lia)).
    split; [apply Z.div_pos; lia|]. apply Z.div_lt_upper_bound; lia. }
  intros H. apply (digits_inj VG); [apply Hr..|exact H].
Qed.
End DramAddr.

(** ** Witnesses *)

Lemma HMC_geometry : @valid_geometry HMC_2500_x32_Cache.
Proof. split; vm_compute; intuition discriminate. Qed.

Lemma decodeAddr_ok_witness :
  ∃ d, @decodeAddr HMC_2500_x32_Cache 5 (read_pkt 1 4096 0) 4096 64 true = Ok d ∧
      0 ≤ dp_rank d < 8 ∧ 0 ≤ dp_bank d < 4 ∧ 0 ≤ dp_row d < 512 ∧
      dp_row d ≠ NO_ROW ∧ bankId d = 4 * dp_rank d + dp_bank d ∧
      dp_pkt d = read_pkt 1 4096 0 ∧ dp_addr d = 4096 ∧ dp_size d = 64 ∧
      dp_isRead d = true.
Proof.
  apply (@decodeAddr_ok HMC_2500_x32_Cache HMC_geometry 5 (read_pkt 1 4096 0) 4096 64 true).
  reflexivity.
Defined.

(** Burst 12345 of the stacked DRAM with two of the mappings. *)
Lemma decode_roundtrip_witness :
  let P := HMC_2500_x32_Cache in
  decode_loc RoRaBaCoCh 12345 = mkLoc 0 1 12 ∧ encode RoRaBaCoCh 25 0 (mkLoc 0 1 12) = 12345 ∧
  decode_loc RoCoRaBaCh (encode RoCoRaBaCh 25 0 (mkLoc 7 2 511)) = mkLoc 7 2 511.
Proof.
  intros P. split; [by vm_compute|]. split.
  - apply (proj1 (@decode_roundtrip P HMC_geometry RoRaBaCoCh) 12345). by vm_compute.
  - apply (proj2 (@decode_roundtrip P HMC_geometry RoCoRaBaCh) 25 0 (mkLoc 7 2 511)); [cbn; lia..|].
    unfold in_bank. cbn. lia.
Defined.

Lemma set_layout_witness :
  let s := 13 * 128 / 128 mod 245760 in
  let s' := 14 * 128 / 128 mod 245760 in
  @decode_loc HMC_2500_x32_Cache RoRaBaCoCh (set_burst_addr 128 245760 2 (13 * 128) + 1)
    = @digits HMC_2500_x32_Cache (s / 15) ∧
  (@decode_loc HMC_2500_x32_Cache RoRaBaCoCh (set_burst_addr 128 245760 2 (13 * 128) + 1) =
   @decode_loc HMC_2500_x32_Cache RoRaBaCoCh (set_burst_addr 128 245760 2 (14 * 128) + 0)
   ↔ s / 15 = s' / 15).
Proof.
  apply (@set_layout HMC_2500_x32_Cache HMC_geometry 128 245760 (13 * 128) (14 * 128) 1 0);
    try reflexivity; try lia.
  vm_compute. split; [reflexivity|discriminate].
Defined.

End DramAddr.
