(* ===== verification/DramSched.v ===== *)
(** * Request scheduling (DRAMCtrl::chooseNext, reorderQueue,
      reorderQueueCPUPrio, minBankPrep)

    The arbitration between the requests of a queue: first-come first-served,
    first-ready, and the CPU-prioritised variants that make up the PrIS
    scheduler of HAShCache.  A scheduler moves the chosen packet to the head
    of the queue.  The one-pass loops are shown equal to a declarative order of
    preference, and every policy is shown to be a permutation of the queue that
    finds a request whenever one can be issued. *)

From S2P Require Import Prelude Intmath Packet DramTypes Config.
Import Intmath Packet.

Module DramSched.
Section DramSched.
Context `{P : DRAMParams}.
(** The ranks, the current tick and the time the data bus is taken until. *)
Context (rs : Ranks) (now busBusyUntil : Tick).

Abbreviation queue := (list DRAMPacket).

Definition available (d : DRAMPacket) : bool := isAvailable (rankRef rs d).
Definition row_hit (d : DRAMPacket) : bool := openRow (bankRef rs d) =? dp_row d.

(** ** minBankPrep *)

(** [got_waiting]: which banks have a request to an available rank. *)
Definition got_waiting (q : queue) : list bool :=
  foldl (λ gw d, if available d then <[Z.to_nat (bankId d) := true]> gw else gw)
    (replicate (Z.to_nat (ranksPerChannel * banksPerRank)) false) q.

(** When the bank could issue an activate, and the burst after it. *)
Definition act_at (i j : Z) : Tick :=
  let b := bank_at rs i j in
  if openRow b =? NO_ROW then Z.max (actAllowedAt b) now
  else Z.max (preAllowedAt b) now + tRP.
Definition col_at (i j : Z) : Tick :=
  Z.max (colAllowedAt (bank_at rs i j)) (act_at i j + tRCD).

Record prep := mkPrep
  { bank_mask : Z;
    min_act_at : Tick;
    found_seamless_bank : bool;
    hidden_bank_prep : bool }.

(** The body of the inner loop for a bank that has a request waiting. *)
Definition prep_update (hidden_act_max : Tick) (s : prep) (bank_id : Z)
    (act : Tick) (new_seamless_bank : bool) : prep :=
  if new_seamless_bank || (negb (found_seamless_bank s) && (act <=? min_act_at s))
  then
    let m := if negb (found_seamless_bank s) &&
                (new_seamless_bank || (act <? min_act_at s))
             then 0 else bank_mask s in
    {| bank_mask := replaceBits m bank_id bank_id 1;
       min_act_at := act;
       found_seamless_bank := found_seamless_bank s || new_seamless_bank;
       hidden_bank_prep := act <=? hidden_act_max |}
  else s.

Definition prep_step (q : queue) (min_col_at : Tick) (s : prep) (ij : Z * Z)
    : res prep :=
  let '(i, j) := ij in
  let bank_id := u16 (i * banksPerRank + j) in
  if default false (got_waiting q !! Z.to_nat bank_id) then
    assert (isAvailable (rank_at rs i)) "ranks[i]->isAvailable()";;
    Ok (prep_update (Z.max (sub64 min_col_at tRCD) now) s bank_id
          (act_at i j) (col_at i j <=? min_col_at))
  else Ok s.

(** The banks in the order of the two nested loops. *)
Definition all_banks : list (Z * Z) :=
  i ← seqZ 0 ranksPerChannel; j ← seqZ 0 banksPerRank; [(i, j)].

Definition minBankPrep (q : queue) (min_col_at : Tick) : res (Z * bool) :=
  s ← foldM (prep_step q min_col_at) (mkPrep 0 MaxTick false false) all_banks;
  Ok (bank_mask s, hidden_bank_prep s).

(** ** reorderQueue *)

Definition min_col_at (extra_col_delay : Tick) : Tick :=
  Z.max (sub64 busBusyUntil tCL + extra_col_delay) now.

Record sel := mkSel
  { earliest_banks : Z;
    s_hidden : bool;               (** the local [hidden_bank_prep] *)
    found_hidden_bank : bool;
    found_prepped_pkt : bool;
    found_earliest_pkt : bool;
    selected_pkt_it : option nat }.
#[local] Instance eta_sel : Eta sel := λ s,
  mkSel (earliest_banks s) (s_hidden s) (found_hidden_bank s)
    (found_prepped_pkt s) (found_earliest_pkt s) (selected_pkt_it s).

(** The bank status, computed at the first use only. *)
Definition bank_status (q : queue) (mca : Tick) (eb : Z) (hp : bool)
    : res (Z * bool) :=
  if eb =? 0 then minBankPrep q mca else Ok (eb, hp).

Fixpoint reorder_loop (q : queue) (mca : Tick) (i : nat) (l : queue) (s : sel)
    : res sel :=
  match l with
  | [] => Ok s
  | d :: l =>
      if available d then
        if row_hit d then
          if colAllowedAt (bankRef rs d) <=? mca then
            Ok (s <| selected_pkt_it := Some i |>)
          else if negb (found_hidden_bank s) && negb (found_prepped_pkt s) then
            reorder_loop q mca (S i) l
              (s <| selected_pkt_it := Some i |> <| found_prepped_pkt := true |>)
          else reorder_loop q mca (S i) l s
        else if negb (found_earliest_pkt s) then
          st ← bank_status q mca (earliest_banks s) (s_hidden s);
          let '(eb, hp) := st in
          let s := s <| earliest_banks := eb |> <| s_hidden := hp |> in
          if negb (bits eb (bankId d) (bankId d) =? 0) then
            let pick := hp || negb (found_prepped_pkt s) in
            let s := s <| found_earliest_pkt := true |> <| found_hidden_bank := hp |> in
            reorder_loop q mca (S i) l
              (if pick then s <| selected_pkt_it := Some i |> else s)
          else reorder_loop q mca (S i) l s
        else reorder_loop q mca (S i) l s
      else reorder_loop q mca (S i) l s
  end.

(** [queue.erase(selected_pkt_it); queue.push_front(selected_pkt)]. *)
Definition take_selected (q : queue) (o : option nat) : bool * queue :=
  match o with
  | Some i => (true, move_to_front i q)
  | None => (false, q)
  end.

Definition reorderQueue (q : queue) (extra_col_delay : Tick) : res (bool * queue) :=
  s ← reorder_loop q (min_col_at extra_col_delay) 0 q
        (mkSel 0 false false false false None);
  Ok (take_selected q (selected_pkt_it s)).

(** ** reorderQueueCPUPrio *)

Record csel := mkCsel
  { c_earliest_banks : Z;
    c_hidden : bool;
    found_seamless_pkt : bool;
    c_found_hidden_bank : bool;
    c_found_prepped_pkt : bool;
    found_prepped_cpu_pkt : bool;
    c_found_earliest_pkt : bool;
    found_earliest_cpu_pkt : bool;
    c_selected : option nat }.
#[local] Instance eta_csel : Eta csel := λ s,
  mkCsel (c_earliest_banks s) (c_hidden s) (found_seamless_pkt s)
    (c_found_hidden_bank s) (c_found_prepped_pkt s) (found_prepped_cpu_pkt s)
    (c_found_earliest_pkt s) (found_earliest_cpu_pkt s) (c_selected s).

(** The row hit that is not seamless. *)
Definition prio_prepped (i : nat) (d : DRAMPacket) (s : csel) : csel :=
  if negb (c_found_hidden_bank s) && negb (found_prepped_cpu_pkt s) &&
     negb (found_seamless_pkt s)
  then
    if isCPU d then
      s <| c_selected := Some i |> <| found_prepped_cpu_pkt := true |>
        <| c_found_prepped_pkt := true |>
    else if negb (c_found_prepped_pkt s) then
      s <| c_selected := Some i |> <| c_found_prepped_pkt := true |>
    else s
  else s.

(** The packet to a closed or conflicting row, bank status [(eb, hp)]. *)
Definition prio_earliest (i : nat) (d : DRAMPacket) (eb : Z) (hp : bool)
    (s : csel) : csel :=
  let s := s <| c_earliest_banks := eb |> <| c_hidden := hp |> in
  let in_mask := negb (bits eb (bankId d) (bankId d) =? 0) in
  let pick := hp || negb (c_found_prepped_pkt s) in
  if isCPU d then
    if in_mask then
      let s := s <| found_earliest_cpu_pkt := true |> <| c_found_earliest_pkt := true |>
                 <| c_found_hidden_bank := hp |> in
      if pick then s <| c_selected := Some i |> else s
    else s
  else if negb (c_found_earliest_pkt s) then
    if in_mask then
      let s := s <| c_found_earliest_pkt := true |> <| c_found_hidden_bank := hp |> in
      if pick then s <| c_selected := Some i |> else s
    else s
  else s.

Fixpoint prio_loop (q : queue) (mca : Tick) (i : nat) (l : queue) (s : csel)
    : res csel :=
  match l with
  | [] => Ok s
  | d :: l =>
      if available d then
        if row_hit d then
          if colAllowedAt (bankRef rs d) <=? mca then
            if isCPU d then Ok (s <| c_selected := Some i |>)
            else if negb (found_seamless_pkt s) then
              prio_loop q mca (S i) l
                (s <| c_selected := Some i |> <| found_seamless_pkt := true |>)
            else prio_loop q mca (S i) l s
          else prio_loop q mca (S i) l (prio_prepped i d s)
        else if negb (found_earliest_cpu_pkt s) && negb (found_seamless_pkt s) then
          st ← bank_status q mca (c_earliest_banks s) (c_hidden s);
          let '(eb, hp) := st in
          prio_loop q mca (S i) l (prio_earliest i d eb hp s)
        else prio_loop q mca (S i) l s
      else prio_loop q mca (S i) l s
  end.

Definition reorderQueueCPUPrio (q : queue) (extra_col_delay : Tick)
    : res (bool * queue) :=
  s ← prio_loop q (min_col_at extra_col_delay) 0 q
        (mkCsel 0 false false false false false false false None);
  Ok (take_selected q (c_selected s)).

(** ** chooseNext *)

(** The [fcfs] branch: the first packet to a free rank. *)
Definition choose_fcfs (q : queue) : bool * queue :=
  take_selected q (first_index available q).

(** The [cpuPriorityfcfs] branch: a scan that stops at the first CPU packet to
    a free rank and remembers the first packet to a free rank. *)
Fixpoint cpu_fcfs_loop (i : nat) (l : queue) (found : option nat) : option nat :=
  match l with
  | [] => found
  | d :: l =>
      if available d then
        if isCPU d then Some i
        else cpu_fcfs_loop (S i) l
               (match found with None => Some i | Some _ => found end)
      else cpu_fcfs_loop (S i) l found
  end.
Definition choose_cpu_fcfs (q : queue) : bool * queue :=
  take_selected q (cpu_fcfs_loop 0 q None).

Definition chooseNext (q : queue) (extra_col_delay : Tick) : res (bool * queue) :=
  assert (negb (bool_decide (q = []))) "!queue.empty()";;
  match q with
  | [d] => Ok (available d, q)
  | _ =>
      match memSchedPolicy with
      | fcfs => Ok (choose_fcfs q)
      | cpuPriorityfcfs => Ok (choose_cpu_fcfs q)
      | frfcfs => reorderQueue q extra_col_delay
      | cpuPriorityfrfcfs => reorderQueueCPUPrio q extra_col_delay
      end
  end.

(** ** Correctness of minBankPrep *)

(** A packet that decoding produced: its bank number is that of its rank and
    bank. *)
Definition dp_wf (d : DRAMPacket) : Prop :=
  0 ≤ dp_rank d < ranksPerChannel ∧ 0 ≤ dp_bank d < banksPerRank ∧
  bankId d = banksPerRank * dp_rank d + dp_bank d.

(** What the loop of [minBankPrep] has seen: bank number, activate time and
    whether the bank can issue seamlessly. *)
Abbreviation seen := (list (Z * Tick * bool)).

Definition min_act (D : seen) : Tick := foldr (λ x m, Z.min x.1.2 m) MaxTick D.
Definition seamless_in (D : seen) : bool := existsb snd D.

(** The banks to prefer: the seamless ones if there are any, else those that
    can be activated first. *)
Definition best_of (D : seen) : seen :=
  if seamless_in D then List.filter snd D
  else List.filter (λ x, x.1.2 =? min_act D) D.
Definition best (D : seen) : list Z := (λ x : Z * Tick * bool, x.1.1) <$> best_of D.

Record prep_inv (D : seen) (s : prep) : Prop :=
  { pi_range : 0 ≤ bank_mask s < 2 ^ 64;
    pi_seam : found_seamless_bank s = seamless_in D;
    pi_min : seamless_in D = false → min_act_at s = min_act D;
    pi_mask : ∀ b, 0 ≤ b → Z.testbit (bank_mask s) b = true ↔ b ∈ best D }.

Lemma min_act_snoc D x :
  x.1.2 ≤ MaxTick → min_act (D ++ [x]) = Z.min (min_act D) x.1.2.
Proof.
  intros. unfold min_act. rewrite foldr_snoc.
  induction D as [|y D IH]; cbn [foldr]; [lia|]. rewrite IH. lia.
Qed.

Lemma min_act_le D x : x ∈ D → min_act D ≤ x.1.2.
Proof. unfold min_act. induction 1; cbn [foldr]; lia. Qed.

Lemma seamless_snoc D x : seamless_in (D ++ [x]) = seamless_in D || x.2.
Proof. unfold seamless_in. rewrite existsb_app. cbn. by rewrite orb_false_r. Qed.

Lemma no_seamless_filter D : seamless_in D = false → List.filter snd D = [].
Proof.
  unfold seamless_in. induction D as [|x D IH]; cbn; [done|].
  intros [-> ?]%orb_false_iff. auto.
Qed.

Lemma earlier_filter D t :
  t < min_act D → List.filter (λ x : Z * Tick * bool, x.1.2 =? t) D = [].
Proof.
  unfold min_act. induction D as [|x D IH]; cbn; [done|]. intros.
  destruct (Z.eqb_spec x.1.2 t); [lia|]. apply IH. lia.
Qed.

Lemma min_act_glb D t :
  t ≤ MaxTick → (∀ y, y ∈ D → t ≤ y.1.2) → t ≤ min_act D.
Proof.
  intros Ht. unfold min_act. induction D as [|y D IH]; cbn [foldr]; [done|].
  intros H. pose proof (H y ltac:(left)).
  specialize (IH ltac:(intros; apply H; by right)). lia.
Qed.

Lemma seamless_in_false D : seamless_in D = false ↔ ∀ y, y ∈ D → y.2 = false.
Proof.
  unfold seamless_in. rewrite <-not_true_iff_false, existsb_exists.
  setoid_rewrite <-list_elem_of_In. split.
  - intros H y Hy. destruct y.2 eqn:E; [|done]. naive_solver.
  - intros H (y & Hy & E). rewrite H in E; done.
Qed.

Lemma elem_of_best D b :
  (∀ y, y ∈ D → y.1.2 ≤ MaxTick) →
  b ∈ best D ↔ ∃ x, x ∈ D ∧ x.1.1 = b ∧
    (x.2 = true ∨ ∀ y, y ∈ D → y.2 = false ∧ x.1.2 ≤ y.1.2).
Proof.
  intros Hmax. unfold best, best_of. rewrite list_elem_of_fmap.
  destruct (seamless_in D) eqn:Es.
  - assert (∃ y, y ∈ D ∧ y.2 = true) as (y & Hy & Ey).
    { unfold seamless_in in Es. apply existsb_exists in Es as (y & Hy%list_elem_of_In & ?). eauto. }
    setoid_rewrite list_elem_of_In. setoid_rewrite filter_In. setoid_rewrite <-list_elem_of_In.
    split; [intros (x & -> & ? & ?); eauto|].
    intros (x & Hx & <- & [?|H]); [eauto|].
    destruct (H y Hy). congruence.
  - pose proof (proj1 (seamless_in_false D) Es) as Hns.
    setoid_rewrite list_elem_of_In. setoid_rewrite filter_In. setoid_rewrite <-list_elem_of_In.
    setoid_rewrite Z.eqb_eq. split.
    + intros (x & -> & Hx & E). exists x. split_and!; [done..|]. right. intros y Hy.
      rewrite E. split; [by apply Hns|by apply min_act_le].
    + intros (x & Hx & <- & [H|H]); [rewrite Hns in H; done|]. exists x.
      split_and!; [done..|]. apply Z.le_antisymm; [|by apply min_act_le].
      apply min_act_glb; [by apply Hmax|]. intros y Hy. by apply H.
Qed.

(** How the preferred banks change with the next bank of the loop. *)
Lemma best_snoc D b act seam :
  act ≤ MaxTick →
  best (D ++ [(b, act, seam)]) =
    if seam || (negb (seamless_in D) && (act <=? min_act D)) then
      (if negb (seamless_in D) && (seam || (act <? min_act D)) then [] else best D)
      ++ [b]
    else best D.
Proof.
  intros Ha. unfold best, best_of. rewrite seamless_snoc, min_act_snoc by done. cbn [fst snd].
  rewrite !List.filter_app.
  destruct (seamless_in D) eqn:Es; cbn; destruct seam; cbn;
    rewrite ?fmap_app, ?app_nil_r; try done.
  - by rewrite no_seamless_filter.
  - destruct (Z.leb_spec act (min_act D)), (Z.ltb_spec act (min_act D)); cbn; try lia.
    + rewrite Z.min_r, earlier_filter by lia. by rewrite Z.eqb_refl.
    + assert (act = min_act D) as -> by lia. by rewrite Z.min_id, Z.eqb_refl.
    + rewrite Z.min_l by lia. destruct (Z.eqb_spec act (min_act D)); [lia|].
      by rewrite app_nil_r.
Qed.

Lemma prep_update_inv hmax D s b act seam :
  0 ≤ b < 64 → act ≤ MaxTick → prep_inv D s →
  prep_inv (D ++ [(b, act, seam)]) (prep_update hmax s b act seam).
Proof.
  intros Hb Ha [Hr Hs Hm Hk]. unfold prep_update. rewrite Hs.
  pose proof (best_snoc D b act seam Ha) as Hbest.
  pose proof (seamless_snoc D (b, act, seam)) as Hsn. cbn in Hsn.
  pose proof (min_act_snoc D (b, act, seam) Ha) as Hmn. cbn in Hmn.
  destruct (seamless_in D) eqn:Es; cbn in *.
  - destruct seam; cbn in *; split; cbn; rewrite ?Hsn, ?Hbest, ?Hs; try done.
    + by apply insertBits_one_range.
    + intros c Hc. unfold replaceBits. rewrite insertBits_one by done.
      rewrite elem_of_app, <-Hk by done. case_decide; set_solver.
  - specialize (Hm eq_refl). rewrite Hm.
    destruct (seam || (act <=? min_act D)) eqn:Eu; cbn in *.
    + set (m0 := if seam || (act <? min_act D) then 0 else bank_mask s).
      assert (0 ≤ m0 < 2 ^ 64) by (subst m0; destruct (seam || (act <? min_act D)); lia).
      split; cbn; rewrite ?Hsn, ?Hbest; try done.
      * by apply insertBits_one_range.
      * intros ->. rewrite Hmn. cbn in Eu. apply Z.leb_le in Eu. lia.
      * intros c Hc. unfold replaceBits. rewrite insertBits_one by done.
        subst m0. rewrite elem_of_app.
        destruct (seam || (act <? min_act D)); rewrite ?Z.testbit_0_l, <-?Hk by done;
          case_decide; set_solver.
    + apply orb_false_iff in Eu as [-> Eu%Z.leb_gt].
      split; rewrite ?Hsn, ?Hbest, ?Hs; try done. intros _. rewrite Hmn, Hm. lia.
Qed.

(** The mask has at most 64 banks to hold. *)
Definition sched_geometry : Prop :=
  0 < ranksPerChannel ∧ 0 < banksPerRank ∧ ranksPerChannel * banksPerRank ≤ 64.

(** A request of the queue waits for bank [j] of the available rank [i]. *)
Definition requested (q : queue) (i j : Z) : Prop :=
  ∃ d, d ∈ q ∧ available d = true ∧ dp_rank d = i ∧ dp_bank d = j.

Section minBankPrep.
Context (GEO : sched_geometry) (q : queue) (WF : Forall dp_wf q) (mca : Tick).
Context (TIMES : ∀ i j, act_at i j ≤ MaxTick).

Definition bank_id_of (ij : Z * Z) : Z := ij.1 * banksPerRank + ij.2.

Lemma elem_of_all_banks ij :
  ij ∈ all_banks ↔ 0 ≤ ij.1 < ranksPerChannel ∧ 0 ≤ ij.2 < banksPerRank.
Proof.
  unfold all_banks. rewrite list_elem_of_bind. setoid_rewrite list_elem_of_bind.
  setoid_rewrite list_elem_of_singleton. setoid_rewrite elem_of_seqZ.
  destruct ij as [i j]; cbn. split.
  - intros (x & (y & [= <- <-] & ?) & ?). lia.
  - intros. exists i. split; [|lia]. exists j. split; [done|lia].
Qed.

Lemma bank_id_range ij :
  ij ∈ all_banks → 0 ≤ bank_id_of ij < ranksPerChannel * banksPerRank.
Proof. intros H%elem_of_all_banks. unfold bank_id_of. destruct GEO. nia. Qed.

Lemma bank_id_u16 ij :
  ij ∈ all_banks → u16 (ij.1 * banksPerRank + ij.2) = bank_id_of ij.
Proof.
  intros H%bank_id_range. apply u16_small. destruct GEO as (? & ? & ?).
  unfold bank_id_of in *. lia.
Qed.

Lemma bank_id_inj ij ij' :
  ij ∈ all_banks → ij' ∈ all_banks → bank_id_of ij = bank_id_of ij' → ij = ij'.
Proof.
  rewrite !elem_of_all_banks. destruct ij as [i j], ij' as [i' j'].
  unfold bank_id_of; cbn. intros. assert (i = i') by nia. subst. f_equal. lia.
Qed.

Lemma dp_in_all_banks d :
  dp_wf d → (dp_rank d, dp_bank d) ∈ all_banks ∧
            bank_id_of (dp_rank d, dp_bank d) = bankId d.
Proof.
  intros (? & ? & ->). rewrite elem_of_all_banks. unfold bank_id_of; cbn. lia.
Qed.

(** The vector [got_waiting] records exactly the requested banks. *)
Lemma got_waiting_lookup ij :
  ij ∈ all_banks →
  default false (got_waiting q !! Z.to_nat (bank_id_of ij)) = true ↔
  requested q ij.1 ij.2.
Proof.
  intros Hij. pose proof (bank_id_range ij Hij) as Hr. unfold got_waiting.
  set (n := Z.to_nat (ranksPerChannel * banksPerRank)).
  assert (∀ l gw, Forall dp_wf l → length gw = n →
    default false (foldl (λ gw d, if available d
      then <[Z.to_nat (bankId d):=true]> gw else gw) gw l !! Z.to_nat (bank_id_of ij))
      = true ↔ default false (gw !! Z.to_nat (bank_id_of ij)) = true ∨
               requested l ij.1 ij.2) as Hgen.
  { induction l as [|d l IH]; intros gw Hwf Hlen; cbn.
    - split; [auto|]. intros [|(d & Hd & _)]; [done|]. by apply not_elem_of_nil in Hd.
    - apply Forall_cons in Hwf as [Hd Hwf].
      destruct (dp_in_all_banks d Hd) as [Hin Hid]. rewrite <-Hid.
      pose proof (bank_id_range _ Hin) as Hr'.
      destruct (available d) eqn:Ea; rewrite IH by (rewrite ?length_insert; done).
      + rewrite list_lookup_insert, Hlen. split.
        * intros [H|(x & ? & ? & ? & ?)]; [|right; exists x; set_solver].
          case_decide as E; [|by left]. right. exists d.
          destruct E as [E _]. apply Z2Nat.inj in E; [|lia..].
          apply bank_id_inj in E; [|done..]. subst ij. set_solver.
        * intros [H|(x & [->|Hx]%elem_of_cons & Hxa & H1 & H2)].
          -- left. case_decide; done.
          -- left. rewrite decide_True; [done|]. split; [|lia].
             destruct ij; cbn in *; by subst.
          -- right. exists x. auto.
      + split; [intros [?|(x & ? & ?)]; [by left|right; exists x; set_solver]|].
        intros [?|(x & [->|Hx]%elem_of_cons & Hxa & ?)]; [by left|congruence|].
        right. exists x. auto. }
  rewrite Hgen; [|done|apply length_replicate].
  rewrite lookup_replicate_2 by lia. cbn. naive_solver.
Qed.

(** What the loop sees of a list of banks. *)
Definition waiting (l : list (Z * Z)) : seen :=
  omap (λ ij, if default false (got_waiting q !! Z.to_nat (bank_id_of ij))
              then Some (bank_id_of ij, act_at ij.1 ij.2, col_at ij.1 ij.2 <=? mca)
              else None) l.

Lemma prep_step_ok D s ij :
  ij ∈ all_banks → prep_inv D s →
  ∃ s', prep_step q mca s ij = Ok s' ∧ prep_inv (D ++ waiting [ij]) s'.
Proof.
  intros Hij HD. pose proof (bank_id_range ij Hij). destruct GEO as (? & ? & ?).
  pose proof (got_waiting_lookup ij Hij) as Hgw.
  destruct ij as [i j]. unfold prep_step, waiting. cbn [omap list_omap fst snd].
  pose proof (bank_id_u16 (i, j) Hij) as Hu. cbn [fst snd] in Hu. rewrite Hu.
  destruct (default false _) eqn:E.
  - destruct Hgw as [Hgw _]. destruct (Hgw eq_refl) as (d & _ & Ha & Hr & _).
    unfold available, rankRef in Ha. rewrite Hr in Ha. cbn in Ha.
    rewrite Ha. eexists. split; [reflexivity|].
    apply prep_update_inv; [lia|apply TIMES|done].
  - eexists. split; [done|]. by rewrite app_nil_r.
Qed.

Lemma prep_loop_ok l D s :
  (∀ ij, ij ∈ l → ij ∈ all_banks) → prep_inv D s →
  ∃ s', foldM (prep_step q mca) s l = Ok s' ∧ prep_inv (D ++ waiting l) s'.
Proof.
  revert D s. induction l as [|ij l IH]; intros D s Hl HD; cbn [foldM].
  - exists s. by rewrite app_nil_r.
  - destruct (prep_step_ok D s ij) as (s1 & -> & H1); [apply Hl; left|done|].
    destruct (IH (D ++ waiting [ij]) s1) as (s2 & E2 & H2); [set_solver|done|].
    exists s2. split; [done|]. rewrite <-app_assoc in H2.
    replace (waiting (ij :: l)) with (waiting [ij] ++ waiting l); [done|].
    unfold waiting. cbn. by case_match.
Qed.

Lemma minBankPrep_best :
  ∃ m h, minBankPrep q mca = Ok (m, h) ∧
    ∀ b, 0 ≤ b → Z.testbit m b = true ↔ b ∈ best (waiting all_banks).
Proof.
  unfold minBankPrep.
  destruct (prep_loop_ok all_banks [] (mkPrep 0 MaxTick false false))
    as (s & -> & [_ _ _ Hk]); [done| |].
  - split; cbn; [lia|done|done|]. intros b Hb. rewrite Z.testbit_0_l. set_solver.
  - cbn. eauto.
Qed.

Lemma elem_of_waiting x :
  x ∈ waiting all_banks ↔
  ∃ i j, requested q i j ∧
         x = (i * banksPerRank + j, act_at i j, col_at i j <=? mca).
Proof.
  unfold waiting. rewrite list_elem_of_omap. split.
  - intros ([i j] & Hin & H). case_match eqn:E; [|done]. injection H as <-.
    exists i, j. split; [|done]. by apply (got_waiting_lookup (i, j)).
  - intros (i & j & Hreq & ->).
    assert ((i, j) ∈ all_banks) as Hin.
    { destruct Hreq as (d & Hd & _ & <- & <-).
      rewrite Forall_forall in WF. by apply dp_in_all_banks, WF. }
    exists (i, j). split; [done|].
    apply (got_waiting_lookup (i, j) Hin) in Hreq. by rewrite Hreq.
Qed.
End minBankPrep.

(** [minBankPrep] never trips its assertion on a well-formed queue and
    computes exactly the banks to prefer.  A bank is in the mask iff a request
    to an available rank waits for it and either its burst can issue
    seamlessly, or no waiting bank is seamless and none can be activated
    earlier. *)
Theorem minBankPrep_spec q mca :
  sched_geometry → Forall dp_wf q → (∀ i j, act_at i j ≤ MaxTick) →
  ∃ m h, minBankPrep q mca = Ok (m, h) ∧
    ∀ i j, 0 ≤ i < ranksPerChannel → 0 ≤ j < banksPerRank →
      Z.testbit m (i * banksPerRank + j) = true ↔
      requested q i j ∧
      (col_at i j ≤ mca ∨
       ∀ i' j', requested q i' j' → mca < col_at i' j' ∧ act_at i j ≤ act_at i' j').
Proof.
  intros GEO WF TIMES.
  destruct (minBankPrep_best GEO q WF mca TIMES) as (m & h & E & Hm).
  exists m, h. split; [done|]. intros i j Hi Hj. rewrite Hm by nia.
  pose proof (elem_of_waiting GEO q WF mca TIMES) as Hw.
  rewrite elem_of_best by (intros y (? & ? & ? & ->)%Hw; apply TIMES).
  split.
  - intros (x & (i1 & j1 & Hreq & ->)%Hw & Hid & H). cbn in *.
    assert ((i1, j1) = (i, j)) as [= -> ->].
    { apply bank_id_inj; rewrite ?elem_of_all_banks; cbn; try done.
      destruct Hreq as (d & Hd & _ & <- & <-). rewrite Forall_forall in WF.
      destruct (WF d Hd) as (? & ? & _). lia. }
    split; [done|]. destruct H as [H%Z.leb_le|H]; [by left|]. right.
    intros i' j' Hreq'. specialize (H _ (proj2 (Hw _) (ex_intro _ i' (ex_intro _ j' (conj Hreq' eq_refl))))).
    cbn in H. destruct H as [H%Z.leb_gt ?]. lia.
  - intros [Hreq H]. eexists. split_and!; [apply Hw; eauto|done|]. cbn.
    destruct H as [H|H]; [left; by apply Z.leb_le|]. right.
    intros y (i' & j' & Hr & ->)%Hw. cbn. specialize (H i' j' Hr).
    split; [apply Z.leb_gt|]; lia.
Qed.

(** ** The order of preference *)

Section order.
Context (q : queue) (mca : Tick) (M : Z) (H : bool).
Context (STATUS : minBankPrep q mca = Ok (M, H)).

(** A row hit that needs no wait, a row hit that does, and a request to a
    bank among the first that can be prepared. *)
Definition seamless (d : DRAMPacket) : bool :=
  available d && row_hit d && (colAllowedAt (bankRef rs d) <=? mca).
Definition prepped (d : DRAMPacket) : bool :=
  available d && row_hit d && negb (colAllowedAt (bankRef rs d) <=? mca).
Definition early (d : DRAMPacket) : bool :=
  available d && negb (row_hit d) && negb (bits M (bankId d) (bankId d) =? 0).

(** First-ready, first-come first-served: a seamless hit first; then, if the
    earliest bank can be prepared behind the current burst, a request to it
    before a row hit that has to wait, else the other way round. *)
Definition frfcfs_order (l : queue) : option nat :=
  first_index seamless l <|>
  (if H then first_index early l <|> first_index prepped l
   else first_index prepped l <|> first_index early l).

Record sel_inv (pre : queue) (s : sel) : Prop :=
  { si_nos : first_index seamless pre = None;
    si_status : earliest_banks s = 0 ∨ (earliest_banks s, s_hidden s) = (M, H);
    si_early : found_earliest_pkt s = isSome (first_index early pre);
    si_hidden : found_hidden_bank s = found_earliest_pkt s && H;
    si_prepped : found_hidden_bank s = false →
      found_prepped_pkt s = isSome (first_index prepped pre);
    si_sel : selected_pkt_it s = frfcfs_order pre }.

Lemma bank_status_eq eb hp :
  eb = 0 ∨ (eb, hp) = (M, H) → bank_status q mca eb hp = Ok (M, H).
Proof.
  unfold bank_status. intros [->|[= -> ->]]; [done|]. by destruct (M =? 0).
Qed.

(** Close an invariant of a prefix extended by a classified packet, once the
    first positions of each class in the prefix are known. *)
Ltac solve_prefix unfold_order :=
  split; cbn; unfold_order; rewrite ?first_index_snoc;
  repeat match goal with
  | E : seamless _ = _ |- _ => rewrite E
  | E : prepped _ = _ |- _ => rewrite E
  | E : early _ = _ |- _ => rewrite E
  | E : first_index _ _ = _ |- _ => rewrite E
  | E : H = _ |- _ => rewrite E
  end; cbn; auto; try done.

Lemma reorder_loop_order l pre s :
  sel_inv pre s →
  ∃ s', reorder_loop q mca (length pre) l s = Ok s' ∧
        selected_pkt_it s' = frfcfs_order (pre ++ l).
Proof.
  revert pre s. induction l as [|d l IH]; intros pre s Hinv; cbn [reorder_loop].
  { exists s. rewrite app_nil_r. split; [done|apply Hinv]. }
  assert (Hgo : ∀ s', sel_inv (pre ++ [d]) s' →
    ∃ s'', reorder_loop q mca (S (length pre)) l s' = Ok s'' ∧
           selected_pkt_it s'' = frfcfs_order (pre ++ d :: l)).
  { intros s' Hs'. specialize (IH _ _ Hs').
    rewrite length_app, Nat.add_1_r, <-app_assoc in IH. done. }
  clear IH. destruct Hinv as [Hnos Hst Hearly Hhid Hprep Hsel].
  pose proof (bank_status_eq _ _ Hst) as Hbs.
  destruct s as [eb sh fh fp fe sl]; cbn in *. unfold frfcfs_order in Hsel.
  assert (Es : seamless d = available d && row_hit d &&
               (colAllowedAt (bankRef rs d) <=? mca)) by done.
  assert (Ep : prepped d = available d && row_hit d &&
               negb (colAllowedAt (bankRef rs d) <=? mca)) by done.
  assert (Ee : early d = available d && negb (row_hit d) &&
               negb (bits M (bankId d) (bankId d) =? 0)) by done.
  rewrite Hnos in Hsel.
  destruct (available d), (row_hit d), (colAllowedAt (bankRef rs d) <=? mca),
    (negb (bits M (bankId d) (bankId d) =? 0)) eqn:Em; cbn in *;
    destruct (first_index early pre) eqn:Efe, (first_index prepped pre) eqn:Efp, H eqn:EH;
    cbn in *; subst; try specialize (Hprep eq_refl); subst; cbn;
    rewrite ?Hbs; cbn; rewrite ?Em; cbn;
    first [ eexists; split; [reflexivity|]; cbn; unfold frfcfs_order;
            rewrite first_index_here by done; reflexivity
          | apply Hgo; solve_prefix ltac:(unfold frfcfs_order) ].
Qed.

(** The same with the CPU ahead of the GPU within each class. *)
Definition by_cpu (f : DRAMPacket → bool) (d : DRAMPacket) : bool := isCPU d && f d.
Definition by_gpu (f : DRAMPacket → bool) (d : DRAMPacket) : bool :=
  negb (isCPU d) && f d.
Definition cpu_first (f : DRAMPacket → bool) (l : queue) : option nat :=
  first_index (by_cpu f) l <|> first_index (by_gpu f) l.
Definition pris_order (l : queue) : option nat :=
  cpu_first seamless l <|>
  (if H then cpu_first early l <|> cpu_first prepped l
   else cpu_first prepped l <|> cpu_first early l).

Record csel_flags (pre : queue) (s : csel) : Prop :=
  { ci_ec : found_earliest_cpu_pkt s = isSome (first_index (by_cpu early) pre);
    ci_e : c_found_earliest_pkt s = isSome (cpu_first early pre);
    ci_hidden : c_found_hidden_bank s = c_found_earliest_pkt s && H;
    ci_pc : c_found_hidden_bank s = false →
      found_prepped_cpu_pkt s = isSome (first_index (by_cpu prepped) pre);
    ci_p : c_found_hidden_bank s = false →
      c_found_prepped_pkt s = isSome (cpu_first prepped pre) }.

Record csel_inv (pre : queue) (s : csel) : Prop :=
  { ci_nos : first_index (by_cpu seamless) pre = None;
    ci_seam : found_seamless_pkt s = isSome (first_index (by_gpu seamless) pre);
    ci_status : c_earliest_banks s = 0 ∨ (c_earliest_banks s, c_hidden s) = (M, H);
    ci_flags : found_seamless_pkt s = false → csel_flags pre s;
    ci_sel : c_selected s = pris_order pre }.

Ltac rewrite_known :=
  repeat match goal with
  | E : isCPU _ = _ |- _ => rewrite E
  | E : seamless _ = _ |- _ => rewrite E
  | E : prepped _ = _ |- _ => rewrite E
  | E : early _ = _ |- _ => rewrite E
  | E : first_index _ _ = _ |- _ => rewrite E
  | E : H = _ |- _ => rewrite E
  end; rewrite ?andb_false_r; cbn.

Ltac solve_pris :=
  split; [| | |intros ?; try done; split|]; cbn; unfold pris_order, cpu_first;
  rewrite ?first_index_snoc;
  repeat match goal with
  | |- context [by_cpu ?f ?d] => change (by_cpu f d) with (isCPU d && f d)
  | |- context [by_gpu ?f ?d] => change (by_gpu f d) with (negb (isCPU d) && f d)
  end; rewrite_known; auto; try done.

Lemma prio_loop_order l pre s :
  csel_inv pre s →
  ∃ s', prio_loop q mca (length pre) l s = Ok s' ∧
        c_selected s' = pris_order (pre ++ l).
Proof.
  revert pre s. induction l as [|d l IH]; intros pre s Hinv; cbn [prio_loop].
  { exists s. rewrite app_nil_r. split; [done|apply Hinv]. }
  assert (Hgo : ∀ s', csel_inv (pre ++ [d]) s' →
    ∃ s'', prio_loop q mca (S (length pre)) l s' = Ok s'' ∧
           c_selected s'' = pris_order (pre ++ d :: l)).
  { intros s' Hs'. specialize (IH _ _ Hs').
    rewrite length_app, Nat.add_1_r, <-app_assoc in IH. done. }
  clear IH. destruct Hinv as [Hnos Hseam Hst Hflags Hsel].
  pose proof (bank_status_eq _ _ Hst) as Hbs.
  destruct s as [eb sh fs fh fp fpc fe fec sl]; cbn in *.
  unfold pris_order, cpu_first in Hsel. rewrite Hnos in Hsel.
  assert (Es : seamless d = available d && row_hit d &&
               (colAllowedAt (bankRef rs d) <=? mca)) by done.
  assert (Ep : prepped d = available d && row_hit d &&
               negb (colAllowedAt (bankRef rs d) <=? mca)) by done.
  assert (Ee : early d = available d && negb (row_hit d) &&
               negb (bits M (bankId d) (bankId d) =? 0)) by done.
  destruct (available d); cbn in *;
    [destruct (row_hit d); cbn in *;
      [destruct (colAllowedAt (bankRef rs d) <=? mca)
      |destruct (negb (bits M (bankId d) (bankId d) =? 0)) eqn:Em]; cbn in *;
      destruct (isCPU d) eqn:Ecpu|]; cbn in *;
    destruct (first_index (by_gpu seamless) pre) eqn:Egs; cbn in *; subst;
    try (specialize (Hflags eq_refl); destruct Hflags as [F1 F2 F3 F4 F5];
         unfold cpu_first in *; cbn in *;
         destruct (first_index (by_cpu early) pre) eqn:Eec,
           (first_index (by_gpu early) pre) eqn:Eeg,
           (first_index (by_cpu prepped) pre) eqn:Epc,
           (first_index (by_gpu prepped) pre) eqn:Epg, H eqn:EH;
         cbn in *; subst; try specialize (F4 eq_refl); try specialize (F5 eq_refl);
         subst);
    cbn; rewrite ?Hbs; cbn; unfold prio_prepped, prio_earliest; cbn;
    rewrite ?Em, ?Ecpu, ?andb_false_r; cbn;
    first [ eexists; split; [reflexivity|]; cbn; unfold pris_order, cpu_first;
            rewrite first_index_here by (done || by unfold by_cpu; rewrite Ecpu, Es);
            reflexivity
          | apply Hgo; solve_pris ].
Qed.
End order.

(** ** The policies *)

Lemma best_nonempty D :
  (∀ y, y ∈ D → y.1.2 ≤ MaxTick) → D ≠ [] → ∃ b, b ∈ best D.
Proof.
  intros Hmax Hne. unfold best, best_of.
  enough (∃ x, x ∈ D ∧ (if seamless_in D then x.2 else x.1.2 =? min_act D) = true)
    as (x & Hx & E).
  { exists x.1.1. apply list_elem_of_fmap. exists x. split; [done|].
    destruct (seamless_in D); rewrite list_elem_of_In, filter_In, <-list_elem_of_In; done. }
  destruct (seamless_in D) eqn:Es.
  - unfold seamless_in in Es. apply existsb_exists in Es as (y & Hy%list_elem_of_In & ?). eauto.
  - clear Es. setoid_rewrite Z.eqb_eq. unfold min_act.
    induction D as [|x D IH]; [done|]. cbn [foldr].
    destruct (decide (D = [])) as [->|HD].
    { exists x. split; [left|]. cbn. specialize (Hmax x ltac:(left)). lia. }
    destruct IH as (y & Hy & Ey); [intros; apply Hmax; by right|done|].
    destruct (Z.le_gt_cases x.1.2 y.1.2); [exists x|exists y];
      (split; [by constructor|lia]).
Qed.

(** What a policy selects from a queue for which bank status [(M, H)] was
    found. *)
Definition policy_order (mca : Tick) (M : Z) (H : bool) (q : queue) : option nat :=
  match memSchedPolicy with
  | fcfs => first_index available q
  | cpuPriorityfcfs => cpu_first available q
  | frfcfs => frfcfs_order mca M H q
  | cpuPriorityfrfcfs => pris_order mca M H q
  end.

Lemma cpu_fcfs_loop_eq l i found :
  cpu_fcfs_loop i l found =
  (Nat.add i <$> first_index (by_cpu available) l) <|>
  found <|> (Nat.add i <$> first_index (by_gpu available) l).
Proof.
  revert i found. induction l as [|d l IH]; intros i found; [by destruct found|].
  cbn [cpu_fcfs_loop].
  assert (Hcons : ∀ p, first_index p (d :: l) =
    if p d then Some 0%nat else S <$> first_index p l).
  { intros p. unfold first_index. cbn. destruct (decide (Is_true (p d))), (p d); try done.
    by destruct (list_find _ l) as [[]|]. }
  rewrite !Hcons. unfold by_cpu, by_gpu.
  destruct (available d), (isCPU d); cbn; rewrite ?IH; unfold by_cpu, by_gpu; cbn;
    destruct (first_index _ l) as [|]; cbn; rewrite ?Nat.add_0_r, ?Nat.add_succ_r;
    try done; destruct found; cbn; try done;
    destruct (first_index _ l) as [|]; cbn; rewrite ?Nat.add_succ_r; done.
Qed.

Section policies.
Context (GEO : sched_geometry) (q : queue) (WF : Forall dp_wf q).
Context (TIMES : ∀ i j, act_at i j ≤ MaxTick).

(** If some request can be issued, one falls in a class of the order. *)
Lemma class_nonempty mca M H d :
  minBankPrep q mca = Ok (M, H) → d ∈ q → available d = true →
  ∃ d', d' ∈ q ∧ seamless mca d' || prepped mca d' || early M d' = true.
Proof.
  intros EM Hd Ha.
  destruct (minBankPrep_best GEO q WF mca TIMES) as (m & h & E & Hm).
  rewrite EM in E. injection E as <- <-.
  pose proof (elem_of_waiting GEO q WF mca TIMES) as Hw.
  destruct (best_nonempty (waiting q mca all_banks)) as [b Hb].
  { intros y (i & j & _ & ->)%Hw. apply TIMES. }
  { eapply elem_of_not_nil, Hw. exists (dp_rank d), (dp_bank d). split; [|reflexivity].
    exists d. auto. }
  rewrite elem_of_best in Hb by (intros y (? & ? & _ & ->)%Hw; apply TIMES).
  destruct Hb as (x & Hx & <- & Hx'). pose proof Hx as Hx2.
  apply Hw in Hx2 as (i & j & (d' & Hd' & Ha' & Hi & Hj) & ->). exists d'. split; [done|].
  unfold seamless, prepped, early. rewrite Ha'. destruct (row_hit d'); cbn.
  { by destruct (colAllowedAt (bankRef rs d') <=? mca). }
  rewrite Forall_forall in WF. destruct (WF d' Hd') as (? & ? & Hid).
  replace (bankId d') with (i * banksPerRank + j) by lia.
  rewrite bits_single by nia.
  assert (Z.testbit M (i * banksPerRank + j) = true) as ->; [|done].
  apply Hm; [nia|]. apply elem_of_best; [intros y (? & ? & _ & ->)%Hw; apply TIMES|].
  eauto.
Qed.

Lemma reorderQueue_eq x :
  ∃ M H, minBankPrep q (min_col_at x) = Ok (M, H) ∧
         reorderQueue q x = Ok (take_selected q (frfcfs_order (min_col_at x) M H q)).
Proof.
  destruct (minBankPrep_best GEO q WF (min_col_at x) TIMES) as (M & H & E & _).
  exists M, H. split; [done|]. unfold reorderQueue.
  destruct (reorder_loop_order q _ M H E q [] (mkSel 0 false false false false None))
    as (s' & Es & Hs); [by split; cbn; auto; destruct H|].
  cbn [length] in Es. rewrite Es. cbn. by rewrite Hs.
Qed.

Lemma reorderQueueCPUPrio_eq x :
  ∃ M H, minBankPrep q (min_col_at x) = Ok (M, H) ∧
         reorderQueueCPUPrio q x = Ok (take_selected q (pris_order (min_col_at x) M H q)).
Proof.
  destruct (minBankPrep_best GEO q WF (min_col_at x) TIMES) as (M & H & E & _).
  exists M, H. split; [done|]. unfold reorderQueueCPUPrio.
  destruct (prio_loop_order q _ M H E q []
    (mkCsel 0 false false false false false false false None))
    as (s' & Es & Hs); [by split; cbn; auto; [split|destruct H]|].
  cbn [length] in Es. rewrite Es. cbn. by rewrite Hs.
Qed.

(** A selection for a test: it names a request that passes the test, and
    selects nothing only if none does. *)
Definition choice (p : DRAMPacket → bool) (o : option nat) : Prop :=
  match o with
  | Some i => ∃ d, q !! i = Some d ∧ p d = true
  | None => ∀ d, d ∈ q → p d = false
  end.

Lemma choice_first p : choice p (first_index p q).
Proof.
  unfold choice. destruct (first_index p q) eqn:E.
  - apply first_index_Some in E as (d & ? & ? & _). eauto.
  - by apply first_index_None.
Qed.

Lemma choice_or p1 p2 p o1 o2 :
  choice p1 o1 → choice p2 o2 → (∀ d, p d = p1 d || p2 d) → choice p (o1 <|> o2).
Proof.
  unfold choice. intros H1 H2 Hp. destruct o1; cbn; [|destruct o2; cbn].
  - destruct H1 as (d & ? & E). exists d. by rewrite Hp, E.
  - destruct H2 as (d & ? & E). exists d. by rewrite Hp, E, orb_true_r.
  - intros d Hd. by rewrite Hp, H1, H2.
Qed.

Lemma choice_cpu_first p : choice p (cpu_first p q).
Proof.
  eapply choice_or; [apply choice_first..|]. intros d. unfold by_cpu, by_gpu.
  by destruct (isCPU d), (p d).
Qed.

Lemma choice_classes mca M H o :
  minBankPrep q mca = Ok (M, H) →
  choice (λ d, seamless mca d || prepped mca d || early M d) o → choice available o.
Proof.
  intros EM. unfold choice. destruct o; cbn.
  - intros (d & Hd & E). exists d. split; [done|].
    unfold seamless, prepped, early in E. by destruct (available d).
  - intros Hno d Hd. destruct (available d) eqn:Ea; [|done].
    destruct (class_nonempty mca M H d EM Hd Ea) as (d' & Hd' & E).
    by rewrite Hno in E.
Qed.

Lemma policy_choice mca M H :
  minBankPrep q mca = Ok (M, H) → choice available (policy_order mca M H q).
Proof.
  intros EM. unfold policy_order, frfcfs_order, pris_order.
  destruct memSchedPolicy; [apply choice_first| |apply choice_cpu_first|];
    (apply (choice_classes mca M H); [done|]); destruct H;
    (eapply choice_or; [apply choice_first || apply choice_cpu_first| |]);
    try (eapply choice_or; [apply choice_first || apply choice_cpu_first..|]);
    intros d; try reflexivity; cbn;
    by destruct (seamless mca d), (prepped mca d), (early M d).
Qed.

(** The effect of every policy, a queue of one request included. *)
Lemma chooseNext_eq x :
  q ≠ [] →
  ∃ M H, minBankPrep q (min_col_at x) = Ok (M, H) ∧
         chooseNext q x = Ok (take_selected q (policy_order (min_col_at x) M H q)).
Proof.
  intros Hne. unfold chooseNext. rewrite bool_decide_eq_false_2 by done. cbn.
  destruct (reorderQueue_eq x) as (M & H & E & E1).
  destruct (reorderQueueCPUPrio_eq x) as (M' & H' & E' & E2).
  rewrite E in E'. injection E' as <- <-. exists M, H. split; [done|].
  pose proof (policy_choice _ _ _ E) as Hc. unfold choice in Hc.
  destruct q as [|d [|d' q']]; [done| |].
  - destruct (policy_order _ M H [d]) as [i|]; cbn in *.
    + destruct Hc as (d' & Hi & Ha). destruct i; [|done].
      injection Hi as ->. by rewrite Ha.
    + by rewrite Hc by left.
  - unfold policy_order in *. destruct memSchedPolicy; try done. unfold choose_cpu_fcfs.
    rewrite cpu_fcfs_loop_eq. unfold cpu_first.
    by destruct (first_index (by_cpu available) (d :: d' :: q')),
      (first_index (by_gpu available) (d :: d' :: q')).
Qed.
End policies.

(** C18: scheduling picks the first request in the policy's order.  The
    one-pass loops of [reorderQueue] and of the CPU-prioritised
    [reorderQueueCPUPrio] (PrIS) agree with the declarative orders
    [frfcfs_order] and [pris_order] on every queue: seamless row hits first,
    then, depending on whether the best bank can be prepared behind the
    current burst, requests to that bank and row hits that wait; in PrIS a CPU
    request goes before every GPU request of the same class. *)
Theorem chooseNext_order q x :
  sched_geometry → Forall dp_wf q → (∀ i j, act_at i j ≤ MaxTick) → q ≠ [] →
  ∃ M H, minBankPrep q (min_col_at x) = Ok (M, H) ∧
         chooseNext q x = Ok (take_selected q (policy_order (min_col_at x) M H q)).
Proof. intros. by apply chooseNext_eq. Qed.

Lemma chooseNext_conserves q x :
  sched_geometry → Forall dp_wf q → (∀ i j, act_at i j ≤ MaxTick) → q ≠ [] →
  ∃ b q', chooseNext q x = Ok (b, q') ∧ q' ≡ₚ q ∧
    (b = true ↔ ∃ d, d ∈ q ∧ available d = true) ∧
    (b = true → ∃ d, head q' = Some d ∧ available d = true).
Proof.
  intros GEO WF TIMES Hne.
  destruct (chooseNext_eq GEO q WF TIMES x Hne) as (M & H & E & ->).
  pose proof (policy_choice GEO q WF TIMES _ _ _ E) as Hc.
  destruct (policy_order _ M H q) as [i|]; cbn in *.
  - destruct Hc as (d & Hi & Ha). exists true, (move_to_front i q).
    split_and!; [done|apply move_to_front_perm| |].
    + split; [|done]. intros _. exists d. split; [|done]. by eapply list_elem_of_lookup_2.
    + intros _. exists d. split; [by apply move_to_front_head|done].
  - exists false, q. split_and!; [done..| |done].
    split; [done|]. intros (d & Hd & Ha). by rewrite Hc in Ha.
Qed.

(** Every policy only permutes the queue, never trips an assertion, and
    is work conserving: it reports a packet exactly if some request of the
    queue goes to a rank that is not refreshing, and then the head of the queue
    is such a request. *)
Theorem chooseNext_work_conserving q x :
  sched_geometry → Forall dp_wf q → (∀ i j, act_at i j ≤ MaxTick) → q ≠ [] →
  ∃ b q', chooseNext q x = Ok (b, q') ∧ q' ≡ₚ q ∧
    (b = true ↔ ∃ d, d ∈ q ∧ available d = true) ∧
    (b = true → ∃ d, head q' = Some d ∧ available d = true).
Proof. apply chooseNext_conserves. Qed.

Lemma act_at_bound T :
  Forall (λ rk, Forall (λ b, preAllowedAt b ≤ T ∧ actAllowedAt b ≤ T) (banks rk)) rs →
  0 ≤ T → now ≤ T → 0 ≤ tRP → T + tRP ≤ MaxTick → ∀ i j, act_at i j ≤ MaxTick.
Proof.
  intros Hrs HT Hnow HRP HM i j. unfold act_at, bank_at, bank_in, rank_at.
  assert (preAllowedAt (banks (rs !!! Z.to_nat i) !!! Z.to_nat j) ≤ T ∧
          actAllowedAt (banks (rs !!! Z.to_nat i) !!! Z.to_nat j) ≤ T) as [? ?].
  { rewrite !list_lookup_total_alt. destruct (rs !! Z.to_nat i) as [rk|] eqn:E; cbn;
      [|destruct (Z.to_nat j); cbn; lia].
    rewrite Forall_forall in Hrs. specialize (Hrs rk ltac:(by eapply list_elem_of_lookup_2)).
    destruct (banks rk !! Z.to_nat j) eqn:Eb; cbn; [|lia].
    rewrite Forall_forall in Hrs. apply Hrs. by eapply list_elem_of_lookup_2. }
  case_match; lia.
Qed.
End DramSched.

(** ** Witnesses *)

(** A stacked DRAM with row 3 open in bank 1 of rank 0 and rank 2 refreshing; a
    GPU row hit, a CPU request to a closed bank, a GPU request to the refreshing
    rank and a CPU row hit. *)
Definition ex_rank (i : Z) : Rank :=
  new_rank <| rank_no := i |> <| banks := replicate 4 new_bank |>.
Definition ex_ranks : Ranks :=
  [upd_bank 1 (λ b, b <| openRow := 3 |> <| colAllowedAt := 900 |>) (ex_rank 0);
   ex_rank 1; (ex_rank 2) <| refreshState := REF_RUN |>;
   ex_rank 3; ex_rank 4; ex_rank 5; ex_rank 6; ex_rank 7].
Definition ex_dp (id cx rk bk row : Z) : DRAMPacket :=
  mkDRAMPacket 0 0 (read_pkt id (id * 128) cx) (id * 128) true false cx rk bk row
    (4 * rk + bk) (id * 128) 64 None.
Definition ex_queue : list DRAMPacket :=
  [ex_dp 1 GPU_CTX 0 1 3; ex_dp 2 0 3 0 7; ex_dp 3 GPU_CTX 2 0 1; ex_dp 4 1 0 1 3].

Lemma ex_times P : 0 ≤ @tRP P ≤ 10000 → ∀ i j, @act_at P ex_ranks 1000 i j ≤ MaxTick.
Proof.
  intros. apply act_at_bound with 1000; unfold MaxTick; try lia.
  repeat constructor; cbn; lia.
Qed.
Lemma ex_wf : Forall (@dp_wf HMC_PrIS) ex_queue.
Proof. repeat constructor; cbn; lia. Qed.
Lemma ex_geometry : @sched_geometry HMC_PrIS.
Proof. repeat split; cbn; lia. Qed.
Lemma HMC_tRP : 0 ≤ @tRP HMC_PrIS ≤ 10000.
Proof. cbn; lia. Qed.

Lemma minBankPrep_spec_witness :
  ∃ m h, @minBankPrep HMC_PrIS ex_ranks 1000 ex_queue 2000 = Ok (m, h) ∧
    ∀ i j, 0 ≤ i < 8 → 0 ≤ j < 4 →
      Z.testbit m (i * 4 + j) = true ↔
      requested ex_ranks ex_queue i j ∧
      (@col_at HMC_PrIS ex_ranks 1000 i j ≤ 2000 ∨
       ∀ i' j', requested ex_ranks ex_queue i' j' →
         2000 < @col_at HMC_PrIS ex_ranks 1000 i' j' ∧
         @act_at HMC_PrIS ex_ranks 1000 i j ≤ @act_at HMC_PrIS ex_ranks 1000 i' j').
Proof.
  exact (@minBankPrep_spec HMC_PrIS ex_ranks 1000 ex_queue 2000 ex_geometry ex_wf
    (ex_times HMC_PrIS HMC_tRP)).
Defined.

Lemma chooseNext_order_witness :
  (∃ M H, @minBankPrep HMC_PrIS ex_ranks 1000 ex_queue
            (@min_col_at HMC_PrIS 1000 20000 0) = Ok (M, H) ∧
    @chooseNext HMC_PrIS ex_ranks 1000 20000 ex_queue 0 =
    Ok (take_selected ex_queue
          (@policy_order HMC_PrIS ex_ranks (@min_col_at HMC_PrIS 1000 20000 0) M H ex_queue))) ∧
  @chooseNext HMC_PrIS ex_ranks 1000 20000 ex_queue 0 = Ok (true, move_to_front 3 ex_queue).
Proof.
  split; [|vm_compute; reflexivity].
  exact (@chooseNext_order HMC_PrIS ex_ranks 1000 20000 ex_queue 0 ex_geometry ex_wf
    (ex_times HMC_PrIS HMC_tRP) ltac:(discriminate)).
Defined.

Lemma chooseNext_work_conserving_witness :
  ∃ b q', @chooseNext HMC_PrIS ex_ranks 1000 20000 ex_queue 0 = Ok (b, q') ∧ q' ≡ₚ ex_queue ∧
    (b = true ↔ ∃ d, d ∈ ex_queue ∧ available ex_ranks d = true) ∧
    (b = true → ∃ d, head q' = Some d ∧ available ex_ranks d = true).
Proof.
  exact (@chooseNext_work_conserving HMC_PrIS ex_ranks 1000 20000 ex_queue 0 ex_geometry ex_wf
    (ex_times HMC_PrIS HMC_tRP) ltac:(discriminate)).
Defined.
End DramSched.
