(* ===== verification/DramTiming.v ===== *)
(** * Bank and bus timing (DRAMCtrl::activateBank, prechargeBank,
      doDRAMAccess, DRAMCacheCtrl::doDRAMAccess)

    The registers of every bank say when the next column, precharge and
    activate command may be issued.  The commands that the code hands to the
    DRAMPower library form a trace; the theorems show that the trace of every
    run of accesses obeys the timing constraints of the DRAM, that bursts never
    overlap on the data bus and that no assertion or panic is reached. *)

From S2P Require Import Prelude Packet DramTypes Config.

Module DramTiming.
Section DramTiming.
Context `{P : DRAMParams}.

(** ** activateBank *)

(** The open row and the bank's own constraints. *)
Definition open_bank (act_tick : Tick) (row : Z) (k : Bank) : Bank :=
  k <| openRow := row |> <| bytesAccessed := 0 |> <| rowAccesses := 0 |>
    <| preAllowedAt := act_tick + tRAS |>
    <| colAllowedAt := Z.max (act_tick + tRCD) (colAllowedAt k) |>.

(** The delay to the next activate of a bank of group [g'] after one in [g]. *)
Definition rrd (g g' : Z) : Tick :=
  if bankGroupArch && (g =? g') then tRRD_L else tRRD.
Definition enforce_rrd (g : Z) (act_tick : Tick) (k : Bank) : Bank :=
  k <| actAllowedAt := Z.max (act_tick + rrd g (bankgr k)) (actAllowedAt k) |>.

(** The activation window: [actTicks] holds the last [activationLimit]
    activates, the oldest at the back. *)
Definition in_window (act_tick oldest : Tick) : bool :=
  negb (oldest =? 0) && (sub64 act_tick oldest <? tXAW).
Definition enforce_xaw (act_tick : Tick) (rk : Rank) : res Rank :=
  match last (actTicks rk) with
  | None => Ok rk
  | Some oldest =>
      if in_window act_tick oldest then Fault (Panic "Got %d activates in window")
      else
        let ticks := act_tick :: removelast (actTicks rk) in
        let oldest := default 0 (last ticks) in
        let rk := rk <| actTicks := ticks |> in
        Ok (if in_window act_tick oldest then
              rk <| banks ::= fmap (λ k : Bank,
                k <| actAllowedAt := Z.max (oldest + tXAW) (actAllowedAt k) |>) |>
            else rk)
  end.

Definition sched_sooner (now when : Tick) (e : event) : res event :=
  match e with
  | None => schedule now when e
  | Some w => if when <? w then reschedule now when e else Ok e
  end.
Definition sched_later (now when : Tick) (e : event) : res event :=
  match e with
  | None => schedule now when e
  | Some w => if w <? when then reschedule now when e else Ok e
  end.

Definition activate_rank (now : Tick) (b : Z) (act_tick : Tick) (row : Z) (rk : Rank)
    : res Rank :=
  assert (Z.of_nat (length (actTicks rk)) =? activationLimit)
    "rank_ref.actTicks.size() == activationLimit";;
  assert (openRow (bank_in rk b) =? NO_ROW) "bank_ref.openRow == Bank::NO_ROW";;
  let g := bankgr (bank_in rk b) in
  let rk := rk <| numBanksActive ::= Z.succ |> in
  assert (numBanksActive rk <=? banksPerRank)
    "rank_ref.numBanksActive <= banksPerRank";;
  let rk := upd_bank b (open_bank act_tick row) rk in
  let rk := rk <| banks ::= fmap (enforce_rrd g act_tick) |> in
  rk ← enforce_xaw act_tick rk;
  ev ← sched_sooner now act_tick (activateEvent rk);
  Ok (rk <| activateEvent := ev |>).

(** [r] and [b] are the rank and bank references. *)
Definition activateBank (now : Tick) (r b : Z) (act_tick : Tick) (row : Z) (s : Chan)
    : res Chan :=
  rk ← activate_rank now b act_tick row (rank_at (ranks s) r);
  Ok (s <| ranks ::= upd_rank r (λ _, rk) |>
        <| power ::= cons (mkCmd ACT r b act_tick) |>).

(** ** prechargeBank *)

Definition close_bank (pre_at : Tick) (k : Bank) : Bank :=
  k <| openRow := NO_ROW |> <| preAllowedAt := pre_at |>
    <| actAllowedAt := Z.max (actAllowedAt k) (pre_at + tRP) |>.

Definition precharge_rank (now : Tick) (b : Z) (pre_at : Tick) (rk : Rank) : res Rank :=
  assert (negb (openRow (bank_in rk b) =? NO_ROW)) "bank.openRow != Bank::NO_ROW";;
  let rk := upd_bank b (close_bank pre_at) rk in
  assert (negb (numBanksActive rk =? 0)) "rank_ref.numBanksActive != 0";;
  let rk := rk <| numBanksActive ::= Z.pred |> in
  ev ← sched_later now (pre_at + tRP) (prechargeEvent rk);
  Ok (rk <| prechargeEvent := ev |>).

Definition prechargeBank (now : Tick) (r b : Z) (pre_at : Tick) (trace : bool)
    (s : Chan) : res Chan :=
  let bytes := bytesAccessed (bank_at (ranks s) r b) in
  rk ← precharge_rank now b pre_at (rank_at (ranks s) r);
  let s := s <| ranks ::= upd_rank r (λ _, rk) |>
             <| chstats ::= stat_inc_at "bytesPerActivate" bytes |> in
  Ok (if trace then s <| power ::= cons (mkCmd PRE r b pre_at) |> else s).

(** ** doDRAMAccess *)

(** The minimum distance to a column command in bank [k] of rank [j] after one
    in a bank of group [g] of rank [r]. *)
Definition cmd_dly (r g j : Z) (k : Bank) : Tick :=
  if r =? j then if bankGroupArch && (g =? bankgr k) then tCCD_L else tBURST
  else tBURST + tCS.
Definition enforce_col (cmd_at : Tick) (r g : Z) (rs : Ranks) : Ranks :=
  imap (λ j rk, rk <| banks ::= fmap (λ k : Bank,
    k <| colAllowedAt := Z.max (cmd_at + cmd_dly r g (Z.of_nat j) k) (colAllowedAt k) |>) |>) rs.

(** The scan for further row hits and bank conflicts, up to the first hit. *)
Fixpoint scan_hits (d : DRAMPacket) (q : list DRAMPacket) (conflict : bool)
    : bool * bool :=
  match q with
  | [] => (false, conflict)
  | p :: q =>
      let same_rank_bank := (dp_rank d =? dp_rank p) && (dp_bank d =? dp_bank p) in
      let same_row := dp_row d =? dp_row p in
      let conflict := conflict || (same_rank_bank && negb same_row) in
      if same_rank_bank && same_row then (true, conflict) else scan_hits d q conflict
  end.

(** Whether the access closes the row behind it; [queue] holds [d] at its
    head. *)
Definition auto_precharge (d : DRAMPacket) (queue : list DRAMPacket) (k : Bank) : bool :=
  let now_full := bool_decide (pageMgmt = close) || (rowAccesses k =? maxAccessesPerRow) in
  if negb now_full &&
     (bool_decide (pageMgmt = open_adaptive) || bool_decide (pageMgmt = close_adaptive))
  then
    let '(got_more_hits, got_bank_conflict) := scan_hits d (tail queue) false in
    negb got_more_hits && (got_bank_conflict || bool_decide (pageMgmt = close_adaptive))
  else now_full.

(** The bank part up to the issue of the column command: the new state and the
    earliest time of the command. *)
Definition prepare_bank (now : Tick) (d : DRAMPacket) (s : Chan) : res (Chan * Tick) :=
  let r := dp_rank d in
  let b := dp_bank d in
  let k := bank_at (ranks s) r b in
  if openRow k =? dp_row d then Ok (s, Z.max (colAllowedAt k) now)
  else
    s ← (if negb (openRow k =? NO_ROW)
         then prechargeBank now r b (Z.max (preAllowedAt k) now) true s else Ok s);
    let act_tick := Z.max (actAllowedAt (bank_at (ranks s) r b)) now in
    s ← activateBank now r b act_tick (dp_row d) s;
    Ok (s, colAllowedAt (bank_at (ranks s) r b)).

(** The column command at [cmd_at] and its consequences for all banks, the
    automatic precharge and the bus. *)
Definition issue_column (now : Tick) (queue : list DRAMPacket) (d : DRAMPacket)
    (cmd_at : Tick) (s : Chan) : res Chan :=
  let r := dp_rank d in
  let b := dp_bank d in
  let ready := cmd_at + tCL + tBURST in
  assert (tBURST <=? sub64 ready (busBusyUntil s))
    "dram_pkt->readyTime - busBusyUntil >= tBURST";;
  let g := bankgr (bank_at (ranks s) r b) in
  let s := s <| ranks ::= enforce_col cmd_at r g |> <| activeRank := r |> in
  let s := s <| ranks ::= upd_rank r (upd_bank b (λ k,
    k <| preAllowedAt := Z.max (preAllowedAt k)
           (if dp_isRead d then cmd_at + tRTP else ready + tWR) |>
      <| bytesAccessed := u32 (bytesAccessed k + burstSize) |>
      <| rowAccesses := u32 (rowAccesses k + 1) |>)) |> in
  let k := bank_at (ranks s) r b in
  s ← (if auto_precharge d queue k
       then prechargeBank now r b (Z.max now (preAllowedAt k)) true s else Ok s);
  Ok (s <| busBusyUntil := ready |>
        <| power ::= cons (mkCmd (if dp_isRead d then RD else WR) r b cmd_at) |>
        <| nextReqTime := sub64 ready (tRP + tRCD + tCL) |>).

(** The common part of both [doDRAMAccess]: the packet with its ready time, the
    state, whether the row was open and the time of the command. *)
Definition dram_access (now : Tick) (queue : list DRAMPacket) (d : DRAMPacket)
    (s : Chan) : res (DRAMPacket * Chan * bool * Tick) :=
  let row_hit := openRow (bank_at (ranks s) (dp_rank d) (dp_bank d)) =? dp_row d in
  sc ← prepare_bank now d s;
  let '(s, cmd_at) := sc in
  let cmd_at := Z.max cmd_at (sub64 (busBusyUntil s) tCL) in
  let d := d <| readyTime := cmd_at + tCL + tBURST |> in
  s ← issue_column now queue d cmd_at s;
  Ok (d, s, row_hit, cmd_at).

(** [totX += v; gpuX += v] or [cpuX += v] by the context of the packet. *)
Definition add_by_ctx (d : DRAMPacket) (tot gpu cpu : string) (v : Z) (st : stats) : stats :=
  stat_add (if dp_contextId d =? Packet.GPU_CTX then gpu else cpu) 0 v (stat_add tot 0 v st).

(** The counters and statistics of a read. *)
Definition read_stats (d : DRAMPacket) (row_hit : bool) (cmd_at : Tick) (s : Chan) : Chan :=
  let lat := sub64 (readyTime d) (entryTime d) in
  let qlat := sub64 cmd_at (entryTime d) in
  s <| readsThisTime ::= λ n, u32 (n + 1) |>
    <| chstats ::= λ st,
         let st := if row_hit then stat_inc "readRowHits" st else st in
         let st := stat_add "bytesReadDRAM" 0 burstSize st in
         let st := stat_inc_at "perBankRdBursts" (bankId d) st in
         let st := add_by_ctx d "totMemAccLat" "gpuMemAccLat" "cpuMemAccLat" lat st in
         let st := add_by_ctx d "totBusLat" "gpuBusLat" "cpuBusLat" tBURST st in
         let st := add_by_ctx d "totQLat" "gpuQLat" "cpuQLat" qlat st in
         if dp_contextId d =? Packet.GPU_CTX
         then stat_add "bytesReadDRAMGPU" 0 burstSize st else st |>.

Definition write_stats (d : DRAMPacket) (row_hit : bool) (s : Chan) : Chan :=
  s <| writesThisTime ::= λ n, u32 (n + 1) |>
    <| chstats ::= λ st,
         let st := if row_hit then stat_inc "writeRowHits" st else st in
         let st := stat_add "bytesWritten" 0 burstSize st in
         let st := if dp_contextId d =? Packet.GPU_CTX
                   then stat_add "bytesWrittenGPU" 0 burstSize st else st in
         stat_inc_at "perBankWrBursts" (bankId d) st |>.

(** The write latencies the cache adds for writes that are not fills. *)
Definition write_latency_stats (d : DRAMPacket) (cmd_at : Tick) (s : Chan) : Chan :=
  let lat := sub64 (readyTime d) (entryTime d) in
  let qlat := sub64 cmd_at (entryTime d) in
  s <| chstats ::= λ st,
         let st := add_by_ctx d "totWrMemAccLat" "gpuWrMemAccLat" "cpuWrMemAccLat" lat st in
         let st := add_by_ctx d "totWrBusLat" "gpuWrBusLat" "cpuWrBusLat" tBURST st in
         add_by_ctx d "totWrQLat" "gpuWrQLat" "cpuWrQLat" qlat st |>.

(** [DRAMCtrl::doDRAMAccess]. *)
Definition doDRAMAccess (now : Tick) (readQueue writeQueue : list DRAMPacket)
    (d : DRAMPacket) (s : Chan) : res (DRAMPacket * Chan) :=
  a ← dram_access now (if dp_isRead d then readQueue else writeQueue) d s;
  let '(d, s, row_hit, cmd_at) := a in
  Ok (d, if dp_isRead d then read_stats d row_hit cmd_at s else write_stats d row_hit s).

(** The counters and statistics of the cache: those of a read or a write, and
    the write latencies unless the write is a fill. *)
Definition cache_stats (d : DRAMPacket) (row_hit : bool) (cmd_at : Tick) (s : Chan) : Chan :=
  if dp_isRead d then read_stats d row_hit cmd_at s
  else
    let s := write_stats d row_hit s in
    if isFill d then s else write_latency_stats d cmd_at s.

(** [DRAMCacheCtrl::doDRAMAccess]. *)
Definition cache_doDRAMAccess (now : Tick) (readQueue writeQueue fillQueue : list DRAMPacket)
    (d : DRAMPacket) (s : Chan) : res (DRAMPacket * Chan) :=
  a ← dram_access now
        (if dp_isRead d then readQueue else if isFill d then fillQueue else writeQueue) d s;
  let '(d, s, row_hit, cmd_at) := a in
  Ok (d, cache_stats d row_hit cmd_at s).
End DramTiming.
End DramTiming.
