(* ===== verification/DramProtocol.v ===== *)
(** * The DRAM protocol: command traces obey the timing constraints

    [gap c c'] is the least distance in time between two commands of a trace,
    in the order of time.  The registers of the banks are shown to dominate all
    gaps to the commands already issued ([bank_ok]), so that every run of
    accesses issues a legal trace ([legal]) without reaching an assertion. *)

From S2P Require Import Prelude Packet DramTypes DramInit DramTiming Config.
Import DramInit DramTiming.

Module DramProtocol.
Section DramProtocol.
Context `{P : DRAMParams}.
(** The bank group of a bank. *)
Context (grp : Z → Z → Z).

(** Usable timing parameters. *)
Record valid_timing : Prop :=
  { vt_tRP : 0 < tRP; vt_tRCD : 0 < tRCD; vt_tRAS : 0 < tRAS; vt_tBURST : 0 < tBURST;
    vt_tCL : 0 ≤ tCL; vt_tRTP : 0 < tRTP; vt_tWR : 0 ≤ tWR; vt_tCS : 0 ≤ tCS;
    vt_tCCD_L : 0 ≤ tCCD_L; vt_tXAW : 0 ≤ tXAW;
    vt_tRRD : 0 < tRRD; vt_tRRD_L : 0 < rrd 0 0 ∧ 0 ≤ tRRD_L;
    vt_limit : 0 ≤ activationLimit;
    vt_ranks : 0 < ranksPerChannel; vt_banks : 0 < banksPerRank }.

Definition same_rank (c : dcmd) (r : Z) : bool := c_rank c =? r.
Definition same_bank (c : dcmd) (r b : Z) : bool := (c_rank c =? r) && (c_bank c =? b).
Definition cgrp (c : dcmd) : Z := grp (c_rank c) (c_bank c).

(** From the end of a column command until the bank may be precharged. *)
Definition recovery (m : MemCommand) : Tick :=
  match m with RD => tRTP | WR => tCL + tBURST + tWR | _ => 0 end.

(** The column-to-column distance. *)
Definition col_gap (c : dcmd) (r b : Z) : Tick :=
  if same_rank c r then if bankGroupArch && (cgrp c =? grp r b) then tCCD_L else tBURST
  else tBURST + tCS.
Definition is_col (c : dcmd) : bool :=
  match c_cmd c with RD | WR => true | _ => false end.

(** The distance from a command to the next column command, activate and
    precharge in a bank.  [o]: the bank is open; a command that first needs the
    bank opened or closed is as far away as the shortest way there. *)
Definition need_col (o : bool) (c : dcmd) (r b : Z) : option Tick :=
  match c_cmd c with
  | ACT => if same_bank c r b then Some tRCD else None
  | PRE => if o && same_bank c r b then Some (tRP + tRCD) else None
  | RD | WR => Some (col_gap c r b)
  | PREA | REF => None
  end.
Definition need_act (o : bool) (c : dcmd) (r b : Z) : option Tick :=
  match c_cmd c with
  | ACT =>
      if negb o && same_bank c r b
      then Some (Z.max (rrd (cgrp c) (grp r b)) (tRAS + tRP))
      else if same_rank c r then Some (rrd (cgrp c) (grp r b)) else None
  | PRE => if same_bank c r b then Some tRP else None
  | RD | WR =>
      if negb o && same_bank c r b then Some (recovery (c_cmd c) + tRP) else None
  | PREA | REF => None
  end.
Definition need_pre (o : bool) (c : dcmd) (r b : Z) : option Tick :=
  match c_cmd c with
  | ACT => if same_bank c r b then Some tRAS else None
  | PRE => if same_bank c r b then Some (if o then tRP + tRAS else 0) else None
  | RD | WR => if same_bank c r b then Some (recovery (c_cmd c)) else None
  | PREA | REF => None
  end.

(** The least distance between two commands: a column command and a precharge
    go to an open bank, an activate to a closed one; bursts do not overlap on
    the bus. *)
Definition gap (c c' : dcmd) : option Tick :=
  match c_cmd c' with
  | ACT => need_act false c (c_rank c') (c_bank c')
  | PRE => need_pre true c (c_rank c') (c_bank c')
  | RD | WR => (λ x, if is_col c then Z.max tBURST x else x)
                 <$> need_col true c (c_rank c') (c_bank c')
  | PREA | REF => None
  end.

(** A trace is legal if any two of its commands are far enough apart, whatever
    the order in which they were reported. *)
Definition legal (tr : list dcmd) : Prop :=
  ∀ i j c c' g, i ≠ j → tr !! i = Some c → tr !! j = Some c' →
    gap c c' = Some g → c_tick c ≤ c_tick c' → c_tick c + g ≤ c_tick c'.

(** No more than [activationLimit] activates of a rank in any window of [tXAW].
    As in the code, an activate at tick 0 does not count. *)
Definition acts (r : Z) (tr : list dcmd) : list Tick :=
  c_tick <$> List.filter (λ c, bool_decide (c_cmd c = ACT) && same_rank c r) tr.
Definition windows (tr : list dcmd) : Prop :=
  ∀ r i t t', acts r tr !! i = Some t' →
    acts r tr !! (i + Z.to_nat activationLimit)%nat = Some t →
    0 < activationLimit → t ≠ 0 → t + tXAW ≤ t'.

(** ** Registers and trace *)

Definition is_open (k : Bank) : bool := negb (openRow k =? NO_ROW).

Record bank_ok (tr : list dcmd) (r b : Z) (k : Bank) : Prop :=
  { bo_col : ∀ c x, c ∈ tr → need_col (is_open k) c r b = Some x →
      c_tick c + x ≤ colAllowedAt k;
    bo_act : ∀ c x, c ∈ tr → need_act (is_open k) c r b = Some x →
      c_tick c + x ≤ actAllowedAt k;
    bo_pre : ∀ c x, c ∈ tr → need_pre (is_open k) c r b = Some x →
      c_tick c + x ≤ preAllowedAt k;
    bo_closed : is_open k = false → preAllowedAt k ≤ actAllowedAt k;
    bo_grp : bankgr k = grp r b }.

(** Each pair of commands in the order of issue, the newest first. *)
Fixpoint ordered (tr : list dcmd) : Prop :=
  match tr with
  | [] => True
  | c' :: tr => (∀ c g, c ∈ tr → gap c c' = Some g → c_tick c + g ≤ c_tick c') ∧ ordered tr
  end.

Definition count_open (ks : list Bank) : Z :=
  Z.of_nat (length (List.filter is_open ks)).

Record rank_ok (tr : list dcmd) (r : Z) (rk : Rank) : Prop :=
  { ro_banks : Z.of_nat (length (banks rk)) = banksPerRank;
    ro_active : numBanksActive rk = count_open (banks rk);
    ro_window : actTicks rk =
      take (Z.to_nat activationLimit) (acts r tr ++ replicate (Z.to_nat activationLimit) 0);
    ro_oldest : ∀ t b, last (actTicks rk) = Some t → t ≠ 0 → 0 ≤ b < banksPerRank →
      t + tXAW ≤ actAllowedAt (bank_in rk b);
    ro_bank : ∀ b, 0 ≤ b < banksPerRank → bank_ok tr r b (bank_in rk b) }.

(** All registers are at most [B]. *)
Definition rank_bound (B : Tick) (rk : Rank) : Prop :=
  ∀ b, 0 ≤ b < banksPerRank →
    colAllowedAt (bank_in rk b) ≤ B ∧ preAllowedAt (bank_in rk b) ≤ B ∧
    actAllowedAt (bank_in rk b) ≤ B.

Record chan_ok (B : Tick) (tr : list dcmd) (s : Chan) : Prop :=
  { co_ranks : Z.of_nat (length (ranks s)) = ranksPerChannel;
    co_rank : ∀ r, 0 ≤ r < ranksPerChannel → rank_ok tr r (rank_at (ranks s) r);
    co_bound : ∀ r, 0 ≤ r < ranksPerChannel → rank_bound B (rank_at (ranks s) r);
    co_bus : ∀ c, c ∈ tr → is_col c = true →
      c_tick c + tCL + tBURST ≤ busBusyUntil s;
    co_busy : tRP + tRCD + tCL ≤ busBusyUntil s ≤ B;
    co_nonneg : ∀ c, c ∈ tr → 0 ≤ c_tick c;
    co_ordered : ordered tr;
    co_windows : windows tr }.

(** ** One bank *)

Context (VT : valid_timing).

Lemma rrd_pos g g' : 0 < rrd g g'.
Proof.
  destruct VT as [_ _ _ _ _ _ _ _ _ _ H [H0 _]]. unfold rrd in *.
  destruct bankGroupArch; cbn in *; [|done]. by destruct (g =? g').
Qed.

Lemma same_bank_rank c r b : same_bank c r b = true → same_rank c r = true.
Proof. unfold same_bank, same_rank. by destruct (c_rank c =? r). Qed.

(** Case analysis of one command of the trace against a bank. *)
Ltac bank_cases Hk :=
  match type of Hk with bank_ok ?tr ?r ?b ?k =>
  match goal with Hc : ?c ∈ tr |- _ =>
    pose proof (λ x, bo_col _ _ _ _ Hk c x Hc); pose proof (λ x, bo_act _ _ _ _ Hk c x Hc);
    pose proof (λ x, bo_pre _ _ _ _ Hk c x Hc);
    pose proof (same_bank_rank c r b);
    repeat match goal with H : is_open k = _ |- _ => rewrite H in *; clear H end;
    unfold need_col, need_act, need_pre in *;
    destruct (c_cmd c) eqn:?, (same_bank c r b) eqn:?, (same_rank c r) eqn:?;
    cbn in *; simplify_eq/=; try done;
    repeat match goal with
    | H : ∀ x, Some _ = Some x → _ |- _ => specialize (H _ eq_refl)
    | H : true = true → false = true |- _ => discriminate (H eq_refl)
    end; try lia
  end end.

(** The command just issued against a bank. *)
Ltac new_case Hx :=
  unfold need_col, need_act, need_pre, same_bank, same_rank, cgrp, col_gap in Hx;
  cbn in Hx; repeat case_match; simplify_eq/=; lia.

Lemma close_ok tr r b k p :
  bank_ok tr r b k → is_open k = true → preAllowedAt k ≤ p →
  bank_ok (mkCmd PRE r b p :: tr) r b (close_bank p k).
Proof.
  intros Hk Ho Hp. destruct VT.
  assert (is_open (close_bank p k) = false) as Eo by done.
  split; rewrite ?Eo; try apply Hk; cbn; try lia;
    intros c x [->|Hc]%elem_of_cons Hx;
    first [new_case Hx|bank_cases Hk].
Qed.

Lemma raise_act_ok tr r b k x :
  bank_ok tr r b k → bank_ok tr r b (k <| actAllowedAt := Z.max x (actAllowedAt k) |>).
Proof.
  intros [H1 H2 H3 H4 H5]. split; cbn; eauto.
  - intros c y Hc Hy. specialize (H2 c y Hc Hy). lia.
  - intros Ho. specialize (H4 Ho). lia.
Qed.

(** Banks that a command does not touch. *)
Lemma pre_other_ok tr r b p r' b' k :
  bank_ok tr r' b' k → (r', b') ≠ (r, b) → bank_ok (mkCmd PRE r b p :: tr) r' b' k.
Proof.
  intros Hk Hne. assert (same_bank (mkCmd PRE r b p) r' b' = false) as E.
  { unfold same_bank; cbn. destruct (Z.eqb_spec r r'), (Z.eqb_spec b b'); naive_solver. }
  split; try apply Hk; intros c x [->|Hc]%elem_of_cons Hx; try by eapply Hk.
  all: unfold need_col, need_act, need_pre in Hx; cbn in Hx; rewrite E in Hx; cbn in Hx;
    rewrite ?andb_false_r in Hx; done.
Qed.

Lemma act_other_rank_ok tr r b a r' b' k :
  bank_ok tr r' b' k → r' ≠ r → bank_ok (mkCmd ACT r b a :: tr) r' b' k.
Proof.
  intros Hk Hne. assert ((r =? r') = false) as E by (apply Z.eqb_neq; lia).
  split; try apply Hk; intros c x [->|Hc]%elem_of_cons Hx; try by eapply Hk.
  all: unfold need_col, need_act, need_pre, same_bank, same_rank in Hx; cbn in Hx;
    rewrite E in Hx; cbn in Hx; rewrite ?andb_false_r in Hx; done.
Qed.

Lemma act_other_ok tr r b a b' k :
  bank_ok tr r b' k → b' ≠ b →
  bank_ok (mkCmd ACT r b a :: tr) r b' (enforce_rrd (grp r b) a k).
Proof.
  intros Hk Hne. assert ((b =? b') = false) as E by (apply Z.eqb_neq; lia).
  pose proof (bo_grp _ _ _ _ Hk) as Hg.
  apply (raise_act_ok _ _ _ _ (a + rrd (grp r b) (bankgr k))) in Hk.
  split; try apply Hk; intros c x [->|Hc]%elem_of_cons Hx; try by eapply Hk.
  all: unfold need_col, need_act, need_pre, same_bank, same_rank, cgrp in Hx; cbn in Hx;
    rewrite E, ?Z.eqb_refl in Hx; cbn in Hx; rewrite ?andb_false_r in Hx; simplify_eq/=.
  rewrite Hg. lia.
Qed.

Lemma open_ok tr r b a row k :
  bank_ok tr r b k → is_open k = false → actAllowedAt k ≤ a → row ≠ NO_ROW →
  bank_ok (mkCmd ACT r b a :: tr) r b (enforce_rrd (grp r b) a (open_bank a row k)).
Proof.
  intros Hk Ho Ha Hrow. destruct VT. pose proof (rrd_pos (grp r b) (grp r b)).
  pose proof (bo_closed _ _ _ _ Hk Ho). pose proof (bo_grp _ _ _ _ Hk) as Hg.
  assert (is_open (enforce_rrd (grp r b) a (open_bank a row k)) = true) as Eo.
  { unfold is_open. cbn. by apply negb_true_iff, Z.eqb_neq. }
  split; rewrite ?Eo; try apply Hk; cbn; try done;
    intros c x [->|Hc]%elem_of_cons Hx; rewrite ?Hg;
    first [new_case Hx|bank_cases Hk].
Qed.

Lemma cmd_dly_gap m r b t r' b' k :
  bankgr k = grp r' b' → cmd_dly r (grp r b) r' k = col_gap (mkCmd m r b t) r' b'.
Proof. intros Hg. unfold cmd_dly, col_gap, same_rank, cgrp. cbn. by rewrite Hg. Qed.

(** A column command in bank [b] of rank [r]: every bank waits for the bus, the
    bank itself also for its recovery. *)
Definition after_col (m : MemCommand) (r b : Z) (t : Tick) (r' b' : Z) (k k' : Bank) : Prop :=
  openRow k' = openRow k ∧ bankgr k' = bankgr k ∧ actAllowedAt k' = actAllowedAt k ∧
  colAllowedAt k' = Z.max (t + cmd_dly r (grp r b) r' k) (colAllowedAt k) ∧
  preAllowedAt k' = (if decide (r' = r ∧ b' = b) then Z.max (preAllowedAt k) (t + recovery m)
                     else preAllowedAt k).

Lemma col_ok tr m r b t r' b' k k' :
  m = RD ∨ m = WR → (r' = r ∧ b' = b → is_open k = true) →
  bank_ok tr r' b' k → after_col m r b t r' b' k k' →
  bank_ok (mkCmd m r b t :: tr) r' b' k'.
Proof.
  intros Hm Hopen Hk (Eo & Eg & Ea & Ec & Ep). destruct VT.
  assert (is_open k' = is_open k) as Eo' by (unfold is_open; by rewrite Eo).
  pose proof (bo_grp _ _ _ _ Hk) as Hg.
  rewrite (cmd_dly_gap m r b t r' b' k Hg) in Ec.
  assert (same_bank (mkCmd m r b t) r' b' = bool_decide (r' = r ∧ b' = b)) as Esb.
  { unfold same_bank; cbn. destruct (Z.eqb_spec r r'), (Z.eqb_spec b b'); cbn;
      symmetry; apply bool_decide_eq_true || apply bool_decide_eq_false; naive_solver. }
  split; rewrite ?Eo'; [intros c x [->|Hc]%elem_of_cons Hx..| |congruence].
  - rewrite Ec. destruct Hm as [-> | ->]; injection Hx as <-; cbn [c_tick]; lia.
  - pose proof (bo_col _ _ _ _ Hk c x Hc Hx). lia.
  - unfold need_act in Hx. rewrite Esb in Hx.
    case_bool_decide as E; [rewrite Hopen in Hx by done|rewrite andb_false_r in Hx];
      destruct Hm as [-> | ->]; discriminate Hx.
  - pose proof (bo_act _ _ _ _ Hk c x Hc Hx). lia.
  - unfold need_pre in Hx. rewrite Esb in Hx. rewrite Ep.
    case_bool_decide as E; [rewrite decide_True by done|];
      destruct Hm as [-> | ->]; simplify_eq/=; lia.
  - pose proof (bo_pre _ _ _ _ Hk c x Hc Hx). rewrite Ep. case_decide; lia.
  - intros E. pose proof (bo_closed _ _ _ _ Hk E). rewrite Ep, Ea.
    case_decide as D; [|done]. rewrite Hopen in E by done. done.
Qed.

(** ** Legal traces *)

Lemma gap_sym c c' g : gap c c' = Some g → ∃ g', gap c' c = Some g' ∧ 0 < g'.
Proof.
  destruct VT. pose proof (rrd_pos (cgrp c') (grp (c_rank c) (c_bank c))).
  assert (same_bank c' (c_rank c) (c_bank c) = same_bank c (c_rank c') (c_bank c')) as Eb.
  { unfold same_bank. by rewrite (Z.eqb_sym (c_rank c')), (Z.eqb_sym (c_bank c')). }
  assert (same_rank c' (c_rank c) = same_rank c (c_rank c')) as Er.
  { unfold same_rank. by rewrite Z.eqb_sym. }
  unfold gap, need_col, need_act, need_pre, is_col. intros Hg.
  destruct (c_cmd c) eqn:E1, (c_cmd c') eqn:E2; cbn in *; rewrite ?Eb, ?Er;
    repeat case_match; simplify_eq/=; eexists; (split; [reflexivity|lia]).
Qed.

Lemma ordered_lookup tr i j c c' g :
  ordered tr → (j < i)%nat → tr !! i = Some c → tr !! j = Some c' →
  gap c c' = Some g → c_tick c + g ≤ c_tick c'.
Proof.
  revert i j. induction tr as [|c0 tr IH]; intros i j Ho Hij Hi Hj Hg; [done|].
  destruct i as [|i]; [lia|]. destruct Ho as [H0 Ho]. destruct j as [|j]; cbn in *.
  - simplify_eq. eapply H0; [by eapply list_elem_of_lookup_2|done].
  - eapply (IH i j); eauto. lia.
Qed.

Lemma ordered_legal tr : ordered tr → legal tr.
Proof.
  intros Ho i j c c' g Hij Hi Hj Hg Ht. destruct (decide (j < i)%nat).
  - by eapply (ordered_lookup tr i j).
  - destruct (gap_sym _ _ _ Hg) as (g' & Hg' & Hpos).
    pose proof (ordered_lookup tr j i c' c g' Ho ltac:(lia) Hj Hi Hg'). lia.
Qed.

Lemma legal_perm tr tr' : tr ≡ₚ tr' → legal tr → legal tr'.
Proof.
  intros Hp Hl. symmetry in Hp. apply Permutation_inj in Hp as (_ & f & Hf & Hlk).
  intros i j c c' g Hij Hi Hj. rewrite Hlk in Hi, Hj.
  apply (Hl (f i) (f j) c c' g); [|done..]. intros E. apply Hij. by apply (inj f).
Qed.

(** ** Ranks *)

Lemma filter_length_alter (f : Bank → Bank) ks i k :
  ks !! i = Some k →
  count_open (alter f i ks) = count_open ks - Z.b2z (is_open k) + Z.b2z (is_open (f k)).
Proof.
  unfold count_open. revert i. induction ks as [|k0 ks IH]; intros [|i] Hi; simplify_eq/=.
  - destruct (is_open k), (is_open (f k)); cbn; lia.
  - specialize (IH i Hi). change (list_alter f i ks) with (alter f i ks).
    destruct (is_open k0); cbn [length]; lia.
Qed.

Lemma count_open_fmap (f : Bank → Bank) ks :
  (∀ k, is_open (f k) = is_open k) → count_open (f <$> ks) = count_open ks.
Proof.
  intros Hf. unfold count_open. induction ks as [|k ks IH]; [done|].
  cbn. rewrite Hf. destruct (is_open k); cbn; lia.
Qed.

Lemma count_open_le ks : 0 ≤ count_open ks ≤ Z.of_nat (length ks).
Proof.
  unfold count_open. pose proof (filter_length_le is_open ks). lia.
Qed.

Lemma bank_in_lookup rk b :
  0 ≤ b < Z.of_nat (length (banks rk)) → banks rk !! Z.to_nat b = Some (bank_in rk b).
Proof.
  intros Hb. destruct (lookup_lt_is_Some_2 (banks rk) (Z.to_nat b)) as [k Hk]; [lia|].
  unfold bank_in. by rewrite (list_lookup_total_correct _ _ _ Hk).
Qed.

Lemma bank_in_fmap (f : Bank → Bank) rk b :
  0 ≤ b < Z.of_nat (length (banks rk)) →
  bank_in (rk <| banks ::= fmap f |>) b = f (bank_in rk b).
Proof.
  intros Hb. unfold bank_in at 1. cbn. apply list_lookup_total_correct.
  by rewrite list_lookup_fmap, bank_in_lookup.
Qed.

Lemma acts_other c r tr :
  (c_cmd c = ACT → c_rank c ≠ r) → acts r (c :: tr) = acts r tr.
Proof.
  intros H. unfold acts. cbn. unfold same_rank. case_bool_decide as E; [|done].
  destruct (Z.eqb_spec (c_rank c) r); [|done]. by specialize (H E).
Qed.

Lemma acts_act r b a tr : acts r (mkCmd ACT r b a :: tr) = a :: acts r tr.
Proof. unfold acts. cbn. unfold same_rank. cbn. by rewrite Z.eqb_refl. Qed.

Lemma sched_later_ok now when e :
  now ≤ when → ∃ e', sched_later now when e = Ok e'.
Proof.
  intros H. apply Z.leb_le in H. unfold sched_later, schedule, reschedule.
  destruct e as [w|]; [destruct (w <? when)|]; rewrite ?H; cbn; eauto.
Qed.

Lemma sched_sooner_ok now when e :
  now ≤ when → ∃ e', sched_sooner now when e = Ok e'.
Proof.
  intros H. apply Z.leb_le in H. unfold sched_sooner, schedule, reschedule.
  destruct e as [w|]; [destruct (when <? w)|]; rewrite ?H; cbn; eauto.
Qed.

(** What an operation on the bank [b] of a rank leaves of the rank. *)
Definition rank_like (rk rk' : Rank) (f : Z → Bank → Bank) : Prop :=
  length (banks rk') = length (banks rk) ∧
  ∀ b, 0 ≤ b < banksPerRank → bank_in rk' b = f b (bank_in rk b).

Lemma precharge_rank_ok tr r b p now rk :
  rank_ok tr r rk → 0 ≤ b < banksPerRank → is_open (bank_in rk b) = true →
  preAllowedAt (bank_in rk b) ≤ p → now ≤ p →
  ∃ rk', precharge_rank now b p rk = Ok rk' ∧
    rank_ok (mkCmd PRE r b p :: tr) r rk' ∧
    rank_like rk rk' (λ b' k, if decide (b' = b) then close_bank p k else k).
Proof.
  intros [Hlen Hact Hwin Hold Hbk] Hb Ho Hp Hnow. destruct VT. unfold precharge_rank.
  pose proof (bank_in_lookup rk b ltac:(lia)) as Hlk.
  pose proof (filter_length_alter (close_bank p) _ _ _ Hlk) as Hcnt.
  rewrite Ho in Hcnt. change (is_open (close_bank p _)) with false in Hcnt. cbn in Hcnt.
  pose proof (count_open_le (alter (close_bank p) (Z.to_nat b) (banks rk))) as Hle.
  unfold is_open in Ho. rewrite Ho. cbn.
  assert ((numBanksActive rk =? 0) = false) as -> by (apply Z.eqb_neq; lia). cbn.
  destruct (sched_later_ok now (p + tRP) (prechargeEvent rk)) as [e ->]; [lia|]. cbn.
  eexists. split; [reflexivity|].
  match goal with |- rank_ok _ _ ?rk' ∧ _ => set (rk1 := rk') end.
  assert (Hlike : rank_like rk rk1 (λ b' k, if decide (b' = b) then close_bank p k else k)).
  { split; [apply length_alter|]. intros b' Hb'.
    change (bank_in rk1 b') with (bank_in (upd_bank b (close_bank p) rk) b').
    case_decide; [subst; apply bank_in_upd_same; lia|apply bank_in_upd_other; lia]. }
  split; [|done]. destruct Hlike as [Hl Hbank]. split.
  - by rewrite Hl.
  - cbn. lia.
  - by rewrite acts_other.
  - intros t b' Ht Hn Hb'. specialize (Hold t b' Ht Hn Hb'). rewrite Hbank by done.
    case_decide; cbn; lia.
  - intros b' Hb'. rewrite Hbank by done. case_decide as E.
    + subst. by apply close_ok; [apply Hbk| |].
    + apply pre_other_ok; [by apply Hbk|congruence].
Qed.

(** ** Activation windows *)

Definition raise (x : Tick) (k : Bank) : Bank :=
  k <| actAllowedAt := Z.max x (actAllowedAt k) |>.
Definition shift_window (a : Tick) (l : list Tick) : list Tick :=
  match l with [] => [] | _ => a :: removelast l end.

Lemma elem_of_shift_window a l o : o ∈ shift_window a l → o = a ∨ o ∈ l.
Proof.
  unfold shift_window. destruct l as [|x l]; [by intros ?%not_elem_of_nil|].
  intros [->|H]%elem_of_cons; [by left|right]. rewrite removelast_firstn_len in H.
  apply list_elem_of_lookup in H as [i Hi]. rewrite lookup_take in Hi.
  case_decide; [|done]. by eapply list_elem_of_lookup_2.
Qed.

Lemma in_window_spec a o :
  0 ≤ o ≤ a → a < 2 ^ 64 → in_window a o = bool_decide (o ≠ 0 ∧ a - o < tXAW).
Proof.
  intros. unfold in_window. rewrite sub64_small by lia.
  destruct (Z.eqb_spec o 0), (Z.ltb_spec (a - o) tXAW); cbn; symmetry;
    (apply bool_decide_eq_true || apply bool_decide_eq_false); lia.
Qed.

Lemma enforce_xaw_ok a rk :
  (∀ o, o ∈ actTicks rk → 0 ≤ o ≤ a) → 0 ≤ a < 2 ^ 64 →
  (∀ o, last (actTicks rk) = Some o → o ≠ 0 → o + tXAW ≤ a) →
  ∃ x, enforce_xaw a rk = Ok (x <| actTicks := shift_window a (actTicks rk) |>) ∧
    (x = rk ∨ ∃ o, o ≤ a ∧ x = rk <| banks ::= fmap (raise (o + tXAW)) |>) ∧
    (∀ t b, last (shift_window a (actTicks rk)) = Some t → t ≠ 0 →
       0 ≤ b < Z.of_nat (length (banks rk)) →
       t + tXAW ≤ a ∨ t + tXAW ≤ actAllowedAt (bank_in x b)).
Proof.
  intros Hr Ha Hlast. unfold enforce_xaw.
  destruct (last (actTicks rk)) as [o|] eqn:Eo.
  2: { apply last_None in Eo. rewrite Eo. cbn. exists rk. split_and!; [|by left|done].
       by destruct rk; cbn in *; subst. }
  assert (o ∈ actTicks rk) as Hin by by apply last_Some_elem_of.
  rewrite in_window_spec by (try apply Hr; done || lia).
  rewrite bool_decide_eq_false_2 by (intros [? ?]; specialize (Hlast o eq_refl); lia).
  assert (a :: removelast (actTicks rk) = shift_window a (actTicks rk)) as Esh
    by (destruct (actTicks rk); [by apply not_elem_of_nil in Hin|done]).
  rewrite Esh. destruct (last (shift_window a (actTicks rk))) as [o'|] eqn:Eo'; cbn.
  2: { apply last_None in Eo'. by rewrite Eo' in Esh. }
  assert (0 ≤ o' ≤ a) as Ho'.
  { apply last_Some_elem_of, elem_of_shift_window in Eo' as [->|?]; [lia|auto]. }
  rewrite in_window_spec by (done || lia). case_bool_decide as E.
  - exists (rk <| banks ::= fmap (raise (o' + tXAW)) |>). split_and!; [done|eauto with lia|].
    { right. exists o'. split; [lia|done]. }
    intros t b [= <-] Hn Hb. right. rewrite bank_in_fmap by done. cbn. lia.
  - exists rk. split_and!; [done|by left|]. intros t b [= <-] Hn Hb. left. lia.
Qed.

Lemma shift_acts r b a tr n :
  shift_window a (take n (acts r tr ++ replicate n 0)) =
  take n (acts r (mkCmd ACT r b a :: tr) ++ replicate n 0).
Proof.
  rewrite acts_act. destruct n as [|n]; [done|].
  set (l := acts r tr ++ replicate (S n) 0).
  assert (n < length l)%nat by (unfold l; rewrite length_app, length_replicate; lia).
  replace (shift_window a (take (S n) l)) with (a :: removelast (take (S n) l)).
  - rewrite removelast_firstn by done. done.
  - unfold shift_window. destruct (take (S n) l) eqn:E; [|done].
    destruct l; [cbn in *; lia|done].
Qed.

Lemma elem_of_acts r tr o :
  o ∈ acts r tr → ∃ c, c ∈ tr ∧ c_tick c = o ∧ c_cmd c = ACT ∧ c_rank c = r.
Proof.
  unfold acts. rewrite list_elem_of_fmap. intros (c & -> & Hc).
  rewrite list_elem_of_In, filter_In, <-list_elem_of_In in Hc.
  destruct Hc as [Hc [Ha Hr]%andb_true_iff]. apply bool_decide_eq_true in Ha.
  apply Z.eqb_eq in Hr. eauto.
Qed.

(** The ticks in the window are those of earlier activates of the rank. *)
Lemma window_elem tr r rk o :
  rank_ok tr r rk → o ∈ actTicks rk →
  o = 0 ∨ ∃ c, c ∈ tr ∧ c_tick c = o ∧ c_cmd c = ACT ∧ c_rank c = r.
Proof.
  intros Hrk. rewrite (ro_window _ _ _ Hrk). intros Ho.
  apply list_elem_of_lookup in Ho as [i Hi]. rewrite lookup_take in Hi.
  case_decide; [|done]. apply lookup_app_Some in Hi as [Hi|[_ Hi]].
  - right. apply elem_of_acts. by eapply list_elem_of_lookup_2.
  - left. by apply lookup_replicate in Hi as [-> _].
Qed.

Lemma act_after_acts tr r rk b c :
  rank_ok tr r rk → 0 ≤ b < banksPerRank → c ∈ tr → c_cmd c = ACT → c_rank c = r →
  c_tick c ≤ actAllowedAt (bank_in rk b).
Proof.
  intros Hrk Hb Hc Ha Hr. pose proof (bo_act _ _ _ _ (ro_bank _ _ _ Hrk b Hb) c) as H.
  pose proof (rrd_pos (cgrp c) (grp r b)). destruct VT.
  unfold need_act, same_rank in H. rewrite Ha, Hr, Z.eqb_refl in H.
  case_match; specialize (H _ Hc eq_refl); lia.
Qed.

(** What an activate leaves of a bank of its rank. *)
Definition after_act (a : Tick) (row b b' : Z) (k k' : Bank) : Prop :=
  k' = (if decide (b' = b) then open_bank a row k else k) <| actAllowedAt := actAllowedAt k' |> ∧
  actAllowedAt k ≤ actAllowedAt k' ≤ Z.max (actAllowedAt k) (a + tRRD + tRRD_L + tXAW).

(** The rank with row [row] opened in bank [b] and the activate-to-activate
    delay in force. *)
Definition opened (a : Tick) (row b : Z) (rk : Rank) : Rank :=
  (upd_bank b (open_bank a row) (rk <| numBanksActive ::= Z.succ |>))
    <| banks ::= fmap (enforce_rrd (bankgr (bank_in rk b)) a) |>.

Lemma opened_bank a row b rk b' :
  Z.of_nat (length (banks rk)) = banksPerRank → 0 ≤ b < banksPerRank → 0 ≤ b' < banksPerRank →
  bank_in (opened a row b rk) b' =
  enforce_rrd (bankgr (bank_in rk b)) a
    (if decide (b' = b) then open_bank a row (bank_in rk b') else bank_in rk b').
Proof.
  intros Hl Hb Hb'. unfold opened.
  rewrite bank_in_fmap by (rewrite length_upd_bank; cbn; lia). f_equal.
  case_decide; [subst; by rewrite bank_in_upd_same by (cbn; lia)|].
  by rewrite bank_in_upd_other by lia.
Qed.

Lemma opened_count a row b rk :
  Z.of_nat (length (banks rk)) = banksPerRank → 0 ≤ b < banksPerRank →
  is_open (bank_in rk b) = false → row ≠ NO_ROW →
  count_open (banks (opened a row b rk)) = count_open (banks rk) + 1.
Proof.
  intros Hl Hb Ho Hr. unfold opened. cbn. rewrite count_open_fmap by done.
  pose proof (bank_in_lookup rk b ltac:(lia)) as Hlk.
  rewrite (filter_length_alter _ _ _ _ Hlk), Ho. unfold is_open at 1. cbn.
  assert ((row =? NO_ROW) = false) as -> by by apply Z.eqb_neq. cbn. lia.
Qed.

Lemma opened_rank_ok tr r b a row rk x t :
  rank_ok tr r rk → 0 ≤ b < banksPerRank → is_open (bank_in rk b) = false → row ≠ NO_ROW →
  actAllowedAt (bank_in rk b) ≤ a →
  x = opened a row b rk ∨
    (∃ o, o ≤ a ∧ x = (opened a row b rk) <| banks ::= fmap (raise (o + tXAW)) |>) →
  ∀ b', 0 ≤ b' < banksPerRank →
    bank_ok (mkCmd ACT r b a :: tr) r b' (bank_in (x <| actTicks := t |>) b') ∧
    after_act a row b b' (bank_in rk b') (bank_in (x <| actTicks := t |>) b').
Proof.
  intros Hrk Hb Ho Hrow Ha Hx b' Hb'. destruct VT.
  pose proof (ro_banks _ _ _ Hrk) as Hl. pose proof (ro_bank _ _ _ Hrk) as Hbk.
  assert (rrd (grp r b) (bankgr (bank_in rk b')) ≤ tRRD + tRRD_L)
    by (unfold rrd; case_match; lia).
  assert (bank_ok (mkCmd ACT r b a :: tr) r b' (bank_in (opened a row b rk) b') ∧
    after_act a row b b' (bank_in rk b') (bank_in (opened a row b rk) b')) as [H1 H2].
  { rewrite opened_bank by done. rewrite (bo_grp _ _ _ _ (Hbk b Hb)). split.
    - case_decide; [subst; by apply open_ok; auto|by apply act_other_ok; auto].
    - unfold after_act, enforce_rrd. case_decide; (split; [done|cbn; lia]). }
  change (bank_in (x <| actTicks := t |>) b') with (bank_in x b').
  destruct Hx as [->|(o & Ho' & ->)]; [done|].
  rewrite bank_in_fmap by (unfold opened; cbn; rewrite length_fmap, length_alter; lia).
  split; [by apply raise_act_ok|]. destruct H2 as [E2 ?].
  set (k' := bank_in (opened a row b rk) b') in *. clearbody k'. split.
  - unfold raise. rewrite E2 at 1. by case_decide.
  - change (actAllowedAt (raise (o + tXAW) k')) with (Z.max (o + tXAW) (actAllowedAt k')). lia.
Qed.

Lemma activate_rank_ok tr r b a row now rk :
  rank_ok tr r rk → 0 ≤ b < banksPerRank → is_open (bank_in rk b) = false → row ≠ NO_ROW →
  actAllowedAt (bank_in rk b) ≤ a → 0 ≤ a < 2 ^ 64 → now ≤ a → (∀ c, c ∈ tr → 0 ≤ c_tick c) →
  ∃ rk', activate_rank now b a row rk = Ok rk' ∧ rank_ok (mkCmd ACT r b a :: tr) r rk' ∧
    ∀ b', 0 ≤ b' < banksPerRank → after_act a row b b' (bank_in rk b') (bank_in rk' b').
Proof.
  intros Hrk Hb Ho Hrow Ha Ha64 Hnow Hnn. destruct VT.
  pose proof Hrk as [Hl Hnum Hwin Hold Hbk]. unfold activate_rank.
  assert (Z.of_nat (length (actTicks rk)) = activationLimit) as Hlen.
  { rewrite Hwin, length_take, length_app, length_replicate. lia. }
  rewrite assert_bind by (by apply Z.eqb_eq). cbv beta.
  pose proof Ho as Ho'. unfold is_open in Ho'. apply negb_false_iff in Ho'.
  rewrite assert_bind by done. cbv beta zeta.
  pose proof (opened_count a row b rk Hl Hb Ho Hrow) as Hcnt.
  pose proof (count_open_le (banks (opened a row b rk))) as Hle.
  assert (length (banks (opened a row b rk)) = length (banks rk)) as Hlo.
  { unfold opened. cbn. by rewrite length_fmap, length_alter. }
  rewrite assert_bind by (apply Z.leb_le; cbn; lia). cbv beta.
  change ((upd_bank b _ _) <| banks ::= _ |>) with (opened a row b rk).
  destruct (enforce_xaw_ok a (opened a row b rk)) as (x & -> & Hx & Hxw).
  { intros o Hin. change (actTicks (opened a row b rk)) with (actTicks rk) in Hin.
    destruct (window_elem _ _ _ _ Hrk Hin) as [->|(c & Hc & <- & Hc1 & Hc2)]; [lia|].
    split; [auto|]. pose proof (act_after_acts _ _ _ b c Hrk Hb Hc Hc1 Hc2). lia. }
  { done. }
  { intros o Ho1 Ho2. specialize (Hold o b Ho1 Ho2 Hb). lia. }
  destruct (sched_sooner_ok now a (activateEvent x) Hnow) as [e Ee].
  cbn [mbind res_bind]. rewrite (ok_bind _ _ e) by exact Ee.
  eexists. split; [reflexivity|].
  pose proof (opened_rank_ok tr r b a row rk x (shift_window a (actTicks rk)) Hrk Hb Ho Hrow Ha Hx)
    as Hbank.
  split; [|intros b' Hb'; apply Hbank, Hb'].
  assert (Hxl : length (banks x) = length (banks rk) ∧ numBanksActive x = numBanksActive rk + 1 ∧
    count_open (banks x) = count_open (banks rk) + 1).
  { rewrite <-Hlo, <-Hcnt. destruct Hx as [->|(o & _ & ->)]; [split_and!; cbn; lia|].
    split_and!; [apply length_fmap|cbn; lia|by apply count_open_fmap]. }
  split; cbn.
  - lia.
  - lia.
  - rewrite Hwin. apply shift_acts.
  - intros t b' Ht Hn Hb'. destruct (Hxw t b' Ht Hn ltac:(lia)) as [?|?]; [|done].
    assert (bank_ok (mkCmd ACT r b a :: tr) r b' (bank_in x b')) as Hbo by apply Hbank, Hb'.
    pose proof (bo_act _ _ _ _ Hbo (mkCmd ACT r b a)) as H'. unfold need_act in H'. cbn in H'.
    pose proof (rrd_pos (grp r b) (grp r b')). unfold same_rank, cgrp in H'. cbn in H'.
    rewrite Z.eqb_refl in H'.
    change (t + tXAW ≤ actAllowedAt (bank_in x b')).
    case_match; specialize (H' _ ltac:(left) eq_refl); lia.
  - intros b' Hb'. apply Hbank, Hb'.
Qed.

(** ** The channel *)

Lemma rank_bound_mono B B' rk : B ≤ B' → rank_bound B rk → rank_bound B' rk.
Proof. intros HB H b Hb. specialize (H b Hb). lia. Qed.

(** A command to one rank that is not a column command. *)
Lemma chan_step B B' c tr s s' r rk' :
  chan_ok B tr s → B ≤ B' → 0 ≤ r < ranksPerChannel →
  ranks s' = upd_rank r (λ _, rk') (ranks s) → busBusyUntil s' = busBusyUntil s →
  rank_ok (c :: tr) r rk' → rank_bound B' rk' →
  (∀ r', r' ≠ r → rank_ok tr r' (rank_at (ranks s) r') →
         rank_ok (c :: tr) r' (rank_at (ranks s) r')) →
  is_col c = false → 0 ≤ c_tick c →
  (∀ c0 g, c0 ∈ tr → gap c0 c = Some g → c_tick c0 + g ≤ c_tick c) →
  windows (c :: tr) → chan_ok B' (c :: tr) s'.
Proof.
  intros [Hl Hr Hb Hbus Hbusy Hnn Hord Hwin] HB Hrange Es Ebus Hrk Hbd Hoth Hcol Htick Hgap Hw.
  assert (∀ r', 0 ≤ r' < ranksPerChannel → rank_at (ranks s') r' =
    if decide (r' = r) then rk' else rank_at (ranks s) r') as Hat.
  { intros r' Hr'. rewrite Es. case_decide; [subst; by rewrite rank_at_upd_same by lia|].
    apply rank_at_upd_other. lia. }
  split; rewrite ?Ebus; [| | | |lia| |split; done|done].
  - by rewrite Es, length_upd_rank.
  - intros r' Hr'. rewrite Hat by done. case_decide; [by subst|]. by apply Hoth, Hr.
  - intros r' Hr'. rewrite Hat by done. case_decide; [done|].
    by eapply rank_bound_mono, Hb.
  - intros c0 [->|Hc]%elem_of_cons ?; [congruence|]. by apply Hbus.
  - intros c0 [->|Hc]%elem_of_cons; auto.
Qed.

Lemma windows_other c tr : c_cmd c ≠ ACT → windows tr → windows (c :: tr).
Proof. intros Hc Hw r. rewrite acts_other by done. apply Hw. Qed.

Lemma prechargeBank_ok B tr s now r b p :
  chan_ok B tr s → 0 ≤ r < ranksPerChannel → 0 ≤ b < banksPerRank →
  is_open (bank_at (ranks s) r b) = true → preAllowedAt (bank_at (ranks s) r b) ≤ p →
  now ≤ p ≤ B → 0 ≤ p →
  ∃ s', prechargeBank now r b p true s = Ok s' ∧
    chan_ok (B + tRP) (mkCmd PRE r b p :: tr) s' ∧
    power s' = mkCmd PRE r b p :: power s ∧ busBusyUntil s' = busBusyUntil s ∧
    bank_at (ranks s') r b = close_bank p (bank_at (ranks s) r b).
Proof.
  intros Hs Hr Hb Ho Hp Hnow Hp0. pose proof Hs as [Hl Hrk Hbd _ _ _ _ Hw]. destruct VT.
  unfold prechargeBank.
  destruct (precharge_rank_ok tr r b p now _ (Hrk r Hr) Hb Ho Hp ltac:(lia))
    as (rk' & -> & Hok & Hlen & Hlike).
  eexists. split; [reflexivity|]. split_and!; [|done|done|].
  - eapply chan_step with (r := r) (rk' := rk'); try done; try lia.
    + intros b' Hb'. rewrite Hlike by done. specialize (Hbd r Hr b' Hb').
      case_decide; cbn; lia.
    + intros r' Hne [? ? ? ? Hb']. split; [done|done|by rewrite acts_other|done|].
      intros b' Hb''. apply pre_other_ok; [auto|congruence].
    + intros c g Hc Hg. cbn.
      pose proof (bo_pre _ _ _ _ (ro_bank _ _ _ (Hrk r Hr) b Hb) c g Hc) as H'.
      unfold bank_at in Ho, Hp. rewrite Ho in H'. specialize (H' Hg). lia.
  - cbn. unfold bank_at. rewrite rank_at_upd_same by lia. rewrite Hlike by done.
    by rewrite decide_True.
Qed.

Lemma windows_act tr r b a rk :
  rank_ok tr r rk → 0 ≤ b < banksPerRank → actAllowedAt (bank_in rk b) ≤ a →
  windows tr → windows (mkCmd ACT r b a :: tr).
Proof.
  intros Hrk Hb Ha Hw r' i t t'. destruct (decide (r' = r)) as [->|Hne].
  2: { rewrite acts_other by (cbn; congruence). apply Hw. }
  rewrite acts_act. intros Hi Ht Hlim Hn. destruct i as [|i]; [|by eapply (Hw r i)].
  cbn in Hi. injection Hi as <-. destruct (Z.to_nat activationLimit) as [|n] eqn:En; [lia|].
  cbn in Ht. pose proof (ro_oldest _ _ _ Hrk t b) as Hold.
  enough (last (actTicks rk) = Some t) as E by (specialize (Hold E Hn Hb); lia).
  rewrite last_lookup, (ro_window _ _ _ Hrk), En, length_take, length_app, length_replicate.
  replace (Nat.pred _) with n by lia. rewrite lookup_take_lt by lia.
  by apply lookup_app_l_Some.
Qed.

Definition dACT : Tick := tRAS + tRCD + tRRD + tRRD_L + tXAW.

Lemma activateBank_ok B tr s now r b a row :
  chan_ok B tr s → 0 ≤ r < ranksPerChannel → 0 ≤ b < banksPerRank →
  is_open (bank_at (ranks s) r b) = false → actAllowedAt (bank_at (ranks s) r b) ≤ a →
  now ≤ a ≤ B → 0 ≤ a → B < 2 ^ 64 → row ≠ NO_ROW →
  ∃ s', activateBank now r b a row s = Ok s' ∧
    chan_ok (B + dACT) (mkCmd ACT r b a :: tr) s' ∧
    power s' = mkCmd ACT r b a :: power s ∧ busBusyUntil s' = busBusyUntil s ∧
    openRow (bank_at (ranks s') r b) = row ∧
    a + tRCD ≤ colAllowedAt (bank_at (ranks s') r b).
Proof.
  intros Hs Hr Hb Ho Ha Hnow Ha0 HB Hrow. pose proof Hs as [Hl Hrk Hbd _ _ Hnn _ Hw].
  destruct VT. unfold activateBank.
  destruct (activate_rank_ok tr r b a row now _ (Hrk r Hr) Hb Ho Hrow Ha ltac:(lia)
    ltac:(lia) Hnn) as (rk' & -> & Hok & Haft).
  eexists. split; [reflexivity|]. split_and!; [|done|done|..].
  - unfold dACT. eapply chan_step with (r := r) (rk' := rk'); try done; try lia.
    + intros b' Hb'. destruct (Haft b' Hb') as [E HE]. rewrite E.
      specialize (Hbd r Hr b' Hb'). unfold bank_at in *. clear E.
      case_decide; cbn; lia.
    + intros r' Hne [? ? ? ? Hb']. split; [done|done| |done|].
      * by rewrite acts_other by (cbn; congruence).
      * intros b' Hb''. apply act_other_rank_ok; auto.
    + intros c g Hc Hg. cbn.
      pose proof (bo_act _ _ _ _ (ro_bank _ _ _ (Hrk r Hr) b Hb) c g Hc) as H'.
      unfold bank_at in Ho, Ha. rewrite Ho in H'. specialize (H' Hg). lia.
    + by eapply windows_act; eauto.
  - cbn. unfold bank_at. rewrite rank_at_upd_same by lia.
    destruct (Haft b Hb) as [-> _]. by rewrite decide_True.
  - cbn. unfold bank_at. rewrite rank_at_upd_same by lia.
    destruct (Haft b Hb) as [-> _]. rewrite decide_True by done. cbn. lia.
Qed.

(** The registers after a column command. *)
Definition col_bank (rd : bool) (t : Tick) (k : Bank) : Bank :=
  k <| preAllowedAt := Z.max (preAllowedAt k)
         (if rd then t + tRTP else t + tCL + tBURST + tWR) |>
    <| bytesAccessed := u32 (bytesAccessed k + burstSize) |>
    <| rowAccesses := u32 (rowAccesses k + 1) |>.
Definition col_ranks (rd : bool) (t : Tick) (r b : Z) (rs : Ranks) : Ranks :=
  upd_rank r (upd_bank b (col_bank rd t)) (enforce_col t r (bankgr (bank_at rs r b)) rs).
Definition col_cmd (rd : bool) : MemCommand := if rd then RD else WR.

Lemma count_open_alter (f : Bank → Bank) i ks :
  (∀ k, is_open (f k) = is_open k) → count_open (alter f i ks) = count_open ks.
Proof.
  intros Hf. destruct (ks !! i) as [k|] eqn:E.
  - rewrite (filter_length_alter _ _ _ _ E), Hf. lia.
  - f_equal. apply list_eq. intros j. destruct (decide (i = j)) as [->|].
    + by rewrite list_lookup_alter, decide_True, E by done.
    + by rewrite list_lookup_alter_ne.
Qed.

Lemma rank_at_enforce t r g rs r' :
  0 ≤ r' < Z.of_nat (length rs) →
  rank_at (enforce_col t r g rs) r' = (rank_at rs r') <| banks ::= fmap (λ k : Bank,
    k <| colAllowedAt := Z.max (t + cmd_dly r g r' k) (colAllowedAt k) |>) |>.
Proof.
  intros Hr. unfold rank_at. apply list_lookup_total_correct. unfold enforce_col.
  destruct (lookup_lt_is_Some_2 rs (Z.to_nat r')) as [rk Hk]; [lia|].
  rewrite list_lookup_imap, Hk. cbn. by rewrite (list_lookup_total_correct _ _ _ Hk), Z2Nat.id by lia.
Qed.

Lemma col_rank_at rd t r b rs r' :
  0 ≤ r' < Z.of_nat (length rs) → 0 ≤ r → 0 ≤ b → bankgr (bank_at rs r b) = grp r b →
  let rk := rank_at rs r' in
  let rk' := rank_at (col_ranks rd t r b rs) r' in
  length (banks rk') = length (banks rk) ∧ numBanksActive rk' = numBanksActive rk ∧
  count_open (banks rk') = count_open (banks rk) ∧ actTicks rk' = actTicks rk ∧
  ∀ b', 0 ≤ b' < Z.of_nat (length (banks rk)) →
    after_col (col_cmd rd) r b t r' b' (bank_in rk b') (bank_in rk' b').
Proof.
  intros Hr Hr0 Hb0 Hg rk rk'. subst rk'. unfold col_ranks. rewrite Hg.
  set (f := λ k : Bank, k <| colAllowedAt := Z.max (t + cmd_dly r (grp r b) r' k) (colAllowedAt k) |>).
  assert (Hrec : t + recovery (col_cmd rd) = if rd then t + tRTP else t + tCL + tBURST + tWR)
    by (destruct rd; cbn; lia).
  pose proof (rank_at_enforce t r (grp r b) rs r' Hr) as Hen.
  destruct (decide (r' = r)) as [->|Hne].
  - rewrite rank_at_upd_same by (unfold enforce_col; rewrite length_imap; lia).
    rewrite Hen. fold rk f. split_and!; try done.
    + unfold upd_bank. cbn. by rewrite length_alter, length_fmap.
    + unfold upd_bank. cbn. rewrite count_open_alter, count_open_fmap by done. done.
    + intros b' Hb'. destruct (decide (b' = b)) as [->|].
      * rewrite bank_in_upd_same by (cbn; rewrite length_fmap; lia).
        rewrite bank_in_fmap by done. unfold after_col. rewrite decide_True by done.
        rewrite Hrec. done.
      * rewrite bank_in_upd_other by lia. rewrite bank_in_fmap by done.
        unfold after_col. by rewrite decide_False by naive_solver.
  - rewrite rank_at_upd_other by lia. rewrite Hen. fold rk f. split_and!; try done.
    + cbn. by rewrite length_fmap.
    + cbn. by apply count_open_fmap.
    + intros b' Hb'. rewrite bank_in_fmap by done.
      unfold after_col. by rewrite decide_False by naive_solver.
Qed.

Definition dCOL : Tick := tCL + tBURST + tWR + tRTP + tCS + tCCD_L.

(** A column command at [t], once the bus is free. *)
Lemma column_ok B tr s r b rd t :
  chan_ok B tr s → 0 ≤ r < ranksPerChannel → 0 ≤ b < banksPerRank →
  is_open (bank_at (ranks s) r b) = true → colAllowedAt (bank_at (ranks s) r b) ≤ t →
  busBusyUntil s - tCL ≤ t ≤ B → 0 ≤ t →
  chan_ok (B + dCOL) (mkCmd (col_cmd rd) r b t :: tr)
    (s <| ranks ::= col_ranks rd t r b |> <| busBusyUntil := t + tCL + tBURST |>).
Proof.
  intros Hs Hr Hb Ho Hcol Ht Ht0. pose proof Hs as [Hl Hrk Hbd Hbus Hbusy Hnn Hord Hw].
  destruct VT. pose proof (ro_bank _ _ _ (Hrk r Hr) b Hb) as Hbk.
  pose proof (λ r' Hr', col_rank_at rd t r b (ranks s) r' Hr' ltac:(lia) ltac:(lia)
    (bo_grp _ _ _ _ Hbk)) as Hat. rewrite Hl in Hat. unfold dCOL.
  assert (Hcmd : col_cmd rd = RD ∨ col_cmd rd = WR) by (destruct rd; auto).
  assert (Hact : col_cmd rd ≠ ACT) by by destruct rd.
  set (s' := s <| ranks ::= _ |> <| busBusyUntil := _ |>).
  assert (Er : ranks s' = col_ranks rd t r b (ranks s)) by done.
  assert (Eb : busBusyUntil s' = t + tCL + tBURST) by done. clearbody s'.
  split; rewrite ?Eb.
  - rewrite Er. unfold col_ranks, enforce_col. by rewrite length_upd_rank, length_imap.
  - intros r' Hr'. destruct (Hat r' Hr') as (H1 & H2 & H3 & H4 & H5).
    destruct (Hrk r' Hr') as [Hlen Hnum Hwin Hold Hbank]. rewrite Er. split.
    + lia.
    + congruence.
    + rewrite acts_other by done. rewrite <-Hwin. exact H4.
    + intros o b' Ho' Hn Hb'. specialize (H5 b' ltac:(lia)) as (_ & _ & E & _).
      rewrite E. apply Hold; [|done..]. by rewrite <-H4.
    + intros b' Hb'. eapply col_ok; [done| |by apply Hbank|apply H5; lia].
      by intros [-> ->].
  - intros r' Hr' b' Hb'. destruct (Hat r' Hr') as (_ & _ & _ & _ & H5).
    specialize (H5 b' ltac:(rewrite (ro_banks _ _ _ (Hrk r' Hr')); lia)) as (_ & _ & E1 & E2 & E3).
    rewrite Er, E1, E2, E3.
    specialize (Hbd r' Hr' b' Hb').
    assert (cmd_dly r (grp r b) r' (bank_in (rank_at (ranks s) r') b') ≤ tBURST + tCS + tCCD_L)
      by (unfold cmd_dly; repeat case_match; lia).
    assert (recovery (col_cmd rd) ≤ tCL + tBURST + tWR + tRTP) by (destruct rd; cbn; lia).
    case_decide; lia.
  - intros c [->|Hc]%elem_of_cons Hic; cbn; [lia|]. specialize (Hbus c Hc Hic). lia.
  - lia.
  - intros c [->|Hc]%elem_of_cons; auto.
  - split; [|done]. intros c g Hc Hg. cbn [c_tick].
    assert (is_col c = true → c_tick c + tBURST ≤ t) by (intros Hi; specialize (Hbus c Hc Hi); lia).
    pose proof (bo_col _ _ _ _ Hbk c) as H'. unfold bank_at in Ho, Hcol. rewrite Ho in H'.
    unfold gap in Hg. destruct Hcmd as [E|E]; cbn in Hg; rewrite E in Hg;
      apply fmap_Some in Hg as (x & Hx & ->); specialize (H' x Hc Hx); case_match; lia.
  - by apply windows_other.
Qed.

(** ** Accesses *)

(** The trace in the order of issue and as reported: an automatic precharge is
    reported before the column command it follows. *)
Definition reported (tr pw : list dcmd) : Prop := pw ≡ₚ tr ∧ ∀ r, acts r pw = acts r tr.

Lemma reported_cons c tr pw : reported tr pw → reported (c :: tr) (c :: pw).
Proof.
  intros [Hp Ha]. split; [by constructor|]. intros r. unfold acts in *. cbn.
  case_match; cbn; by rewrite Ha.
Qed.

Lemma reported_swap c c' tr pw :
  c_cmd c ≠ ACT → reported (c' :: tr) pw → reported (c' :: c :: tr) (c :: pw).
Proof.
  intros Hc [Hp Ha]. split; [rewrite Hp; constructor|]. intros r.
  rewrite acts_other by done. rewrite Ha. unfold acts. cbn.
  rewrite (bool_decide_eq_false_2 (c_cmd c = ACT)) by done. done.
Qed.

Lemma chan_ok_ext B tr s s' :
  ranks s' = ranks s → busBusyUntil s' = busBusyUntil s → chan_ok B tr s → chan_ok B tr s'.
Proof. intros Er Eb []. by split; rewrite ?Er, ?Eb. Qed.

Lemma prechargeBank_bus now r b p tr s x :
  prechargeBank now r b p tr (s <| busBusyUntil := x |>) =
  s' ← prechargeBank now r b p tr s; Ok (s' <| busBusyUntil := x |>).
Proof.
  unfold prechargeBank. cbn. destruct (precharge_rank _ _ _ _); [|done]. by destruct tr.
Qed.

Lemma chan_ok_mono B B' tr s : B ≤ B' → chan_ok B tr s → chan_ok B' tr s.
Proof.
  intros HB [H1 H2 H3 H4 H5 H6 H7 H8]. split; try done; [|lia].
  intros r Hr. by eapply rank_bound_mono, H3.
Qed.

(** The column commands of a trace. *)
Definition cols (tr : list dcmd) : list dcmd := List.filter is_col tr.
Lemma cols_other m r b t tr : m = ACT ∨ m = PRE → cols (mkCmd m r b t :: tr) = cols tr.
Proof. by intros [-> | ->]. Qed.
Lemma cols_col rd r b t tr :
  cols (mkCmd (col_cmd rd) r b t :: tr) = mkCmd (col_cmd rd) r b t :: cols tr.
Proof. by destruct rd. Qed.

Lemma issue_column_ok B tr s now q d t :
  chan_ok B tr s → reported tr (power s) →
  0 ≤ dp_rank d < ranksPerChannel → 0 ≤ dp_bank d < banksPerRank →
  let k := bank_at (ranks s) (dp_rank d) (dp_bank d) in
  is_open k = true → colAllowedAt k ≤ t → busBusyUntil s - tCL ≤ t ≤ B → 0 ≤ t →
  0 ≤ now ≤ B → B + dCOL < 2 ^ 64 →
  ∃ s' tr', issue_column now q d t s = Ok s' ∧ chan_ok (B + dCOL + tRP) tr' s' ∧
    reported tr' (power s') ∧ busBusyUntil s' = t + tCL + tBURST ∧
    cols (power s') = mkCmd (col_cmd (dp_isRead d)) (dp_rank d) (dp_bank d) t :: cols (power s) ∧
    nextReqTime s' = busBusyUntil s' - (tRP + tRCD + tCL).
Proof.
  intros Hs Hrep Hr Hb k Ho Hcol Ht Ht0 Hnow HB. destruct VT.
  pose proof (column_ok B tr s _ _ (dp_isRead d) t Hs Hr Hb Ho Hcol Ht Ht0) as Hs1.
  pose proof Hs as [_ _ _ _ Hbusy _ _ _]. pose proof Hs1 as [Hl1 Hrk1 Hbd1 _ Hbusy1 _ _ _].
  cbn in Hbusy1. unfold dCOL in HB. unfold issue_column.
  rewrite assert_bind by (rewrite sub64_small by lia; apply Z.leb_le; lia). cbv beta zeta.
  set (s1 := s <| ranks ::= _ |> <| activeRank := _ |> <| ranks ::= _ |>).
  assert (Er : ranks s1 = col_ranks (dp_isRead d) t (dp_rank d) (dp_bank d) (ranks s)) by done.
  assert (Ep1 : power s1 = power s ∧ busBusyUntil s1 = busBusyUntil s) by done.
  clearbody s1. destruct Ep1 as [Ep1 Eb1].
  assert (Hnrt : sub64 (t + tCL + tBURST) (tRP + tRCD + tCL) =
                 t + tCL + tBURST - (tRP + tRCD + tCL)) by (apply sub64_small; lia).
  set (r := dp_rank d) in *. set (b := dp_bank d) in *.
  set (k1 := bank_at (ranks s1) r b).
  eapply (chan_ok_ext _ _ _ (s1 <| busBusyUntil := t + tCL + tBURST |>)) in Hs1; [|done..].
  assert (Hk1 : is_open k1 = true ∧ preAllowedAt k1 ≤ B + dCOL).
  { pose proof (bo_grp _ _ _ _ (ro_bank _ _ _ (co_rank _ _ _ Hs r Hr) b Hb)) as Hg.
    pose proof (co_ranks _ _ _ Hs) as Hl.
    pose proof (ro_banks _ _ _ (co_rank _ _ _ Hs r Hr)) as Hlb.
    destruct (col_rank_at (dp_isRead d) t r b (ranks s) r ltac:(lia) ltac:(lia) ltac:(lia) Hg)
      as (_ & _ & _ & _ & H5). specialize (H5 b ltac:(lia)) as (Eo & _).
    unfold k1, bank_at, is_open. rewrite Er, Eo. split; [exact Ho|].
    destruct (Hbd1 r Hr b Hb) as (_ & H & _). exact H. }
  destruct Hk1 as [Ho1 Hp1]. rewrite Hnrt.
  destruct (auto_precharge d q k1).
  - destruct (prechargeBank_ok _ _ _ now r b (Z.max now (preAllowedAt k1)) Hs1 Hr Hb Ho1)
      as (s2 & E2 & Hs2 & Hp2 & Hb2 & _); [apply Z.le_max_r|unfold dCOL in *; lia|lia|].
    rewrite prechargeBank_bus in E2. apply bind_ok in E2 as (s2' & E2 & [= <-]).
    rewrite E2. cbn [mbind res_bind]. eexists _, _. split; [reflexivity|]. split_and!.
    + eapply chan_ok_ext; [..|exact Hs2]; done.
    + cbn in *. rewrite Hp2, Ep1. apply reported_swap; [by destruct (dp_isRead d)|].
      by apply reported_cons.
    + done.
    + cbn in Hp2. cbn [power set_field]. cbn. rewrite Hp2, Ep1. by destruct (dp_isRead d).
    + done.
  - cbn [mbind res_bind]. eexists _, _. split; [reflexivity|]. split_and!; [| |done| |done].
    + eapply chan_ok_ext; [..|eapply chan_ok_mono; [|exact Hs1]]; [done|done|lia].
    + cbn. rewrite Ep1. by apply reported_cons.
    + cbn. rewrite Ep1. apply cols_col.
Qed.

(** The time an access can add to the registers. *)
Definition slack : Tick := tRP + dACT + dCOL + tRP.

Lemma prepare_bank_ok B tr s now d :
  chan_ok B tr s → reported tr (power s) →
  0 ≤ dp_rank d < ranksPerChannel → 0 ≤ dp_bank d < banksPerRank → dp_row d ≠ NO_ROW →
  0 ≤ now ≤ B → B + tRP < 2 ^ 64 →
  ∃ s' t tr', prepare_bank now d s = Ok (s', t) ∧ chan_ok (B + tRP + dACT) tr' s' ∧
    reported tr' (power s') ∧ busBusyUntil s' = busBusyUntil s ∧
    cols (power s') = cols (power s) ∧
    let k := bank_at (ranks s') (dp_rank d) (dp_bank d) in
    is_open k = true ∧ openRow k = dp_row d ∧ colAllowedAt k ≤ t ∧
    now ≤ t ≤ B + tRP + dACT.
Proof.
  intros Hs Hrep Hr Hb Hrow Hnow HB. destruct VT. pose proof Hs as [_ _ Hbd _ _ _ _ _].
  set (r := dp_rank d) in *. set (b := dp_bank d) in *. pose proof (Hbd r Hr b Hb) as Hk.
  assert (0 ≤ dACT) by (unfold dACT; lia).
  unfold prepare_bank. fold r b. destruct (Z.eqb_spec (openRow (bank_at (ranks s) r b)) (dp_row d))
    as [E|E].
  { eexists _, _, tr. split; [reflexivity|]. split_and!; try done; try lia.
    - eapply chan_ok_mono; [|exact Hs]. lia.
    - unfold is_open. rewrite E. by apply negb_true_iff, Z.eqb_neq.
    - unfold bank_at in *. lia. }
  assert (∃ s1 tr1, (if negb (openRow (bank_at (ranks s) r b) =? NO_ROW)
    then prechargeBank now r b (Z.max (preAllowedAt (bank_at (ranks s) r b)) now) true s
    else Ok s) = Ok s1 ∧ chan_ok (B + tRP) tr1 s1 ∧ reported tr1 (power s1) ∧
    busBusyUntil s1 = busBusyUntil s ∧ cols (power s1) = cols (power s) ∧
    is_open (bank_at (ranks s1) r b) = false)
    as (s1 & tr1 & -> & Hs1 & Hrep1 & Hb1 & Hc1 & Ho1).
  { destruct (openRow (bank_at (ranks s) r b) =? NO_ROW) eqn:Eo; cbn.
    - exists s, tr. split_and!; [done|eapply chan_ok_mono; [|done]; lia|done..|].
      unfold is_open. by rewrite Eo.
    - destruct (prechargeBank_ok B tr s now r b (Z.max (preAllowedAt (bank_at (ranks s) r b)) now))
        as (s1 & -> & Hs1 & Hp & Hb1 & Hcl); [done..|unfold is_open; by rewrite Eo| | | |].
      1-3: unfold bank_at in *; lia.
      eexists s1, _.
      split_and!; [done..|rewrite Hp; by apply reported_cons|done|by rewrite Hp|].
      by rewrite Hcl. }
  cbn [mbind res_bind]. pose proof (co_bound _ _ _ Hs1 r Hr b Hb) as Hk1.
  destruct (activateBank_ok _ _ _ now r b
    (Z.max (actAllowedAt (bank_at (ranks s1) r b)) now) (dp_row d) Hs1 Hr Hb Ho1)
    as (s2 & -> & Hs2 & Hp2 & Hb2 & Hrow2 & Hcol2); try (unfold bank_at in *; lia).
  cbn [mbind res_bind]. pose proof (co_bound _ _ _ Hs2 r Hr b Hb) as Hk2.
  eexists _, _, _. split; [reflexivity|].
  split_and!; [done|rewrite Hp2; by apply reported_cons|congruence|by rewrite Hp2| |done|lia| |].
  - unfold is_open. rewrite Hrow2. by apply negb_true_iff, Z.eqb_neq.
  - lia.
  - unfold bank_at in *. lia.
Qed.

Lemma dram_access_ok B tr s now q d :
  chan_ok B tr s → reported tr (power s) →
  0 ≤ dp_rank d < ranksPerChannel → 0 ≤ dp_bank d < banksPerRank → dp_row d ≠ NO_ROW →
  0 ≤ now ≤ B → B + slack < 2 ^ 64 →
  ∃ s' hit t tr', dram_access now q d s = Ok (d <| readyTime := t + tCL + tBURST |>, s', hit, t) ∧
    chan_ok (B + slack) tr' s' ∧ reported tr' (power s') ∧ now ≤ t ∧
    busBusyUntil s' = t + tCL + tBURST ∧ busBusyUntil s + tBURST ≤ busBusyUntil s' ∧
    cols (power s') = mkCmd (col_cmd (dp_isRead d)) (dp_rank d) (dp_bank d) t :: cols (power s) ∧
    nextReqTime s' = busBusyUntil s' - (tRP + tRCD + tCL).
Proof.
  intros Hs Hrep Hr Hb Hrow Hnow HB. destruct VT. unfold slack in *.
  assert (0 ≤ dACT ∧ 0 ≤ dCOL) by (unfold dACT, dCOL; lia).
  pose proof (co_busy _ _ _ Hs) as Hbusy. unfold dram_access.
  destruct (prepare_bank_ok B tr s now d Hs Hrep Hr Hb Hrow Hnow ltac:(lia))
    as (s1 & t & tr1 & -> & Hs1 & Hrep1 & Hb1 & Hc1 & Ho & Hor & Hcol & Ht).
  cbn [mbind res_bind]. cbv beta iota zeta. rewrite sub64_small by lia.
  set (t' := Z.max t (busBusyUntil s1 - tCL)).
  set (d' := d <| readyTime := t' + tCL + tBURST |>).
  destruct (issue_column_ok _ tr1 s1 now q d' t' Hs1 Hrep1 Hr Hb Ho) as (s2 & tr2 & E2 & Hs2 & Hrep2 & Hb2 & Hc2 & Hn2); [unfold t'; cbn; lia..|].
  rewrite (ok_bind _ _ s2) by exact E2. eexists s2, _, t', tr2.
  split_and!; [done| |done|unfold t'; lia|done|unfold t' in *; lia| |done].
  2: { by rewrite Hc2, Hc1. }
  eapply chan_ok_mono; [|exact Hs2]. lia.
Qed.

(** ** Runs *)

(** One access: when it is made, the packet and the queues at that time. *)
Record request := mkRequest
  { rq_now : Tick; rq_pkt : DRAMPacket;
    rq_reads : list DRAMPacket; rq_writes : list DRAMPacket; rq_fills : list DRAMPacket }.

(** An access by the memory controller or by the DRAM cache controller. *)
Definition access_step (is_cache : bool) (s : Chan) (q : request) : res Chan :=
  a ← (if is_cache
       then cache_doDRAMAccess (rq_now q) (rq_reads q) (rq_writes q) (rq_fills q) (rq_pkt q) s
       else doDRAMAccess (rq_now q) (rq_reads q) (rq_writes q) (rq_pkt q) s);
  Ok (snd a).
Definition run (is_cache : bool) : Chan → list request → res Chan :=
  foldM (access_step is_cache).

Definition request_ok (T : Tick) (q : request) : Prop :=
  0 ≤ dp_rank (rq_pkt q) < ranksPerChannel ∧ 0 ≤ dp_bank (rq_pkt q) < banksPerRank ∧
  dp_row (rq_pkt q) ≠ NO_ROW ∧ 0 ≤ rq_now q ≤ T.

(** The column commands that were issued and the one that a request wants. *)
Definition served (tr : list dcmd) : list (MemCommand * Z * Z) :=
  (λ c, (c_cmd c, c_rank c, c_bank c)) <$> cols tr.
Definition wanted (q : request) : MemCommand * Z * Z :=
  (col_cmd (dp_isRead (rq_pkt q)), dp_rank (rq_pkt q), dp_bank (rq_pkt q)).

Lemma access_step_ok B tr s is_cache T q :
  chan_ok B tr s → reported tr (power s) → request_ok T q → T ≤ B → B + slack < 2 ^ 64 →
  ∃ s' tr', access_step is_cache s q = Ok s' ∧ chan_ok (B + slack) tr' s' ∧
    reported tr' (power s') ∧ busBusyUntil s + tBURST ≤ busBusyUntil s' ∧
    served (power s') = wanted q :: served (power s).
Proof.
  intros Hs Hrep (Hr & Hb & Hrow & Hnow) HT HB. unfold access_step.
  assert (∃ s1 d tr' s2, (if is_cache
       then cache_doDRAMAccess (rq_now q) (rq_reads q) (rq_writes q) (rq_fills q) (rq_pkt q) s
       else doDRAMAccess (rq_now q) (rq_reads q) (rq_writes q) (rq_pkt q) s) = Ok (d, s1) ∧
         ranks s1 = ranks s2 ∧ busBusyUntil s1 = busBusyUntil s2 ∧ power s1 = power s2 ∧
         chan_ok (B + slack) tr' s2 ∧ reported tr' (power s2) ∧
         busBusyUntil s + tBURST ≤ busBusyUntil s2 ∧
         served (power s2) = wanted q :: served (power s))
    as (s1 & d & tr' & s2 & -> & Er & Eb & Ep & Hs2 & Hrep2 & Hbus & Hserved).
  { destruct is_cache; unfold cache_doDRAMAccess, cache_stats, doDRAMAccess;
      match goal with |- context [dram_access _ ?qq] =>
        destruct (dram_access_ok B tr s (rq_now q) qq (rq_pkt q) Hs Hrep Hr Hb Hrow ltac:(lia) HB)
          as (s2 & hit & t & tr' & -> & Hs2 & Hrep2 & _ & _ & Hbus & Hc & _) end;
      cbn [mbind res_bind]; eexists _, _, tr', s2; (split; [reflexivity|]);
      split_and!; try done; try (unfold served; by rewrite Hc);
      repeat case_match; done. }
  cbn [mbind res_bind snd]. exists s1, tr'. split_and!; [done| |by rewrite Ep|lia|by rewrite Ep].
  by eapply chan_ok_ext.
Qed.

Lemma run_ok is_cache T l B tr s :
  chan_ok B tr s → reported tr (power s) → Forall (request_ok T) l → T ≤ B →
  B + slack * Z.of_nat (length l) < 2 ^ 64 →
  ∃ s' tr', run is_cache s l = Ok s' ∧ chan_ok (B + slack * Z.of_nat (length l)) tr' s' ∧
    reported tr' (power s') ∧
    busBusyUntil s + tBURST * Z.of_nat (length l) ≤ busBusyUntil s' ∧
    served (power s') = reverse (wanted <$> l) ++ served (power s).
Proof.
  assert (0 ≤ slack) by (destruct VT; unfold slack, dACT, dCOL; lia).
  revert B tr s. induction l as [|q l IH]; intros B tr s Hs Hrep Hl HT HB; cbn [foldM run length].
  - exists s, tr. split_and!; [done| |done|lia|done]. by replace (B + _) with B by lia.
  - apply Forall_cons in Hl as [Hq Hl]. cbn [length] in HB.
    rewrite Nat2Z.inj_succ, Z.mul_succ_r in *.
    destruct (access_step_ok B tr s is_cache T q Hs Hrep Hq HT ltac:(lia))
      as (s1 & tr1 & E1 & Hs1 & Hrep1 & Hb1 & Hv1).
    unfold run. cbn [foldM]. rewrite E1. cbn [mbind res_bind].
    destruct (IH (B + slack) tr1 s1 Hs1 Hrep1 Hl ltac:(lia) ltac:(lia))
      as (s2 & tr2 & E2 & Hs2 & Hrep2 & Hb2 & Hv2).
    exists s2, tr2. split_and!; [exact E2| |done|lia|].
    + by replace (B + _) with (B + slack + slack * Z.of_nat (length l)) by lia.
    + rewrite Hv2, Hv1, fmap_cons, reverse_cons, <-app_assoc. done.
Qed.

Lemma chan_ok_legal B tr s :
  chan_ok B tr s → reported tr (power s) → legal (power s) ∧ windows (power s).
Proof.
  intros Hs [Hp Ha]. split.
  - eapply legal_perm, ordered_legal, Hs. done.
  - intros r. rewrite Ha. apply Hs.
Qed.
End DramProtocol.

(** ** From startup *)

Section startup.
Context `{P : DRAMParams} (VT : valid_timing).

(** The bank group of bank [b], in every rank. *)
Definition built_group (r b : Z) : Z := bankgr (build_bank b).

Definition started (now : Tick) (rk : Rank) : Rank :=
  rk <| pwrStateTick := now |> <| refreshEvent := Some (now + tREFI - tRP) |>.

Lemma startup_eq now :
  0 ≤ now → tRP < tREFI → now + tREFI < 2 ^ 64 →
  startup now new_chan = Ok (new_chan <| ranks := started now <$> build_ranks |>
                                      <| busBusyUntil := now + tRP + tRCD + tCL |>).
Proof.
  intros Hnow HR HM. destruct VT. unfold startup.
  assert (∀ l acc, Forall (λ rk, refreshEvent rk = None) l →
    foldM (λ rs rk, rk ← rank_startup now (sub64 (now + tREFI) tRP) rk; Ok (rs ++ [rk])) acc l
    = Ok (acc ++ (started now <$> l))) as Hfold.
  { induction l as [|rk l IH]; intros acc Hl; cbn [foldM fmap list_fmap].
    - by rewrite app_nil_r.
    - apply Forall_cons in Hl as [Hrk Hl].
      assert (rank_startup now (sub64 (now + tREFI) tRP) rk = Ok (started now rk)) as ->.
      { unfold rank_startup, schedule. rewrite sub64_small by lia.
        rewrite assert_bind by (apply Z.ltb_lt; lia). rewrite Hrk.
        rewrite (assert_true (now <=? _)) by (apply Z.leb_le; lia). done. }
      cbn [mbind res_bind]. rewrite IH by done. by rewrite <-app_assoc. }
  change (ranks new_chan) with build_ranks. rewrite Hfold; [done|].
  unfold build_ranks. apply Forall_fmap. by apply Forall_true.
Qed.

Lemma build_rank_at now r :
  0 ≤ r < ranksPerChannel →
  rank_at (started now <$> build_ranks) r = started now (build_rank r).
Proof.
  intros Hr. apply list_lookup_total_correct. unfold build_ranks.
  rewrite !list_lookup_fmap, lookup_seqZ_lt by lia. cbn [fmap option_fmap option_map]. by rewrite Z.add_0_l, Z2Nat.id by lia.
Qed.

Lemma build_bank_in now r b :
  0 ≤ b < banksPerRank → bank_in (started now (build_rank r)) b = build_bank b.
Proof.
  intros Hb. apply list_lookup_total_correct. unfold started, build_rank. cbn [banks set_field].
  cbn. rewrite list_lookup_fmap, lookup_seqZ_lt by lia. cbn [fmap option_fmap option_map]. by rewrite Z.add_0_l, Z2Nat.id by lia.
Qed.

Lemma startup_chan_ok now s :
  0 ≤ now → tRP < tREFI → now + tREFI < 2 ^ 64 → startup now new_chan = Ok s →
  chan_ok built_group (now + tRP + tRCD + tCL) [] s ∧ power s = [] ∧
  busBusyUntil s = now + tRP + tRCD + tCL.
Proof.
  intros Hnow HR HM. rewrite startup_eq by done. intros [= <-]. split; [|done].
  destruct VT. split; cbn [busBusyUntil power set_field]; try done; try (cbn; lia).
  - cbn. unfold build_ranks. rewrite !length_fmap, length_seqZ. lia.
  - intros r Hr. change (ranks _) with (started now <$> build_ranks).
    rewrite build_rank_at by done. split.
    + cbn. rewrite length_fmap, length_seqZ. lia.
    + cbn. unfold count_open. induction (seqZ 0 banksPerRank); [done|]. cbn. done.
    + cbn. rewrite firstn_all2; [done|]. by rewrite length_replicate.
    + intros t b Ht Hn. exfalso. apply Hn. cbn in Ht.
      apply last_Some_elem_of, elem_of_replicate in Ht. naive_solver.
    + intros b Hb. rewrite build_bank_in by done.
      split; [intros ? ? Hc; by apply not_elem_of_nil in Hc..|done|done].
  - intros r Hr b Hb. change (ranks _) with (started now <$> build_ranks).
    rewrite build_rank_at, build_bank_in by done. cbn. lia.
  - intros c Hc. by apply not_elem_of_nil in Hc.
  - intros c Hc. by apply not_elem_of_nil in Hc.
Qed.

(** C3: every run of accesses from startup succeeds and issues a legal command
    trace.  No assertion, and not the panic of the activation window, is reached;
    any two commands of the trace (activate, precharge, read, write) keep the
    distance that [gap] demands of them (tRCD, tRAS, tRP, tRTP, tWR, tRRD, tRRD_L,
    tCCD_L, tBURST, tCS); no rank gets more than [activationLimit] activates
    within tXAW; each request gets exactly its column command, in order, and the
    bus for a burst of its own.  The bound
    keeps the time stamps below 64 bits.  It holds for both the memory and the
    DRAM cache controller. *)
Theorem access_trace_legal is_cache now T l :
  0 ≤ now → tRP < tREFI → now + tREFI < 2 ^ 64 → Forall (request_ok T) l →
  Z.max T (now + tRP + tRCD + tCL) + slack * Z.of_nat (length l) < 2 ^ 64 →
  ∃ s0 s, startup now new_chan = Ok s0 ∧ run is_cache s0 l = Ok s ∧
    served (power s) = reverse (wanted <$> l) ∧
    legal built_group (power s) ∧ windows (power s) ∧
    busBusyUntil s0 + tBURST * Z.of_nat (length l) ≤ busBusyUntil s.
Proof.
  intros Hnow HR HM Hl HB. pose proof (startup_eq now Hnow HR HM) as E0.
  eexists _. destruct (startup_chan_ok now _ Hnow HR HM E0) as (Hs & Hp & Hb).
  eapply (chan_ok_mono _ _ (Z.max T (now + tRP + tRCD + tCL))) in Hs; [|lia].
  destruct (run_ok built_group VT is_cache T l _ [] _ Hs) as (s & tr & E & Hok & Hrep & Hbus & Hv);
    [by rewrite Hp|done|lia|done|].
  exists s. destruct (chan_ok_legal _ VT _ _ _ Hok Hrep).
  rewrite Hp, app_nil_r in Hv. done.
Qed.
End startup.

(** ** Witnesses *)

Lemma HMC_timing : @valid_timing HMC_2500_x32_Cache.
Proof. split; try (vm_compute; congruence); cbn; lia. Qed.

(** A read that opens a row, a hit, a write to another row of the same bank and
    an access to another rank. *)
Definition ex_req (now r b row : Z) (rd : bool) : request :=
  let d := mkDRAMPacket now now (Packet.read_pkt 1 0 0) 0 rd false 0 r b row (4 * r + b) 0 64 None in
  mkRequest now d [d] [d] [].
Definition ex_run : list request :=
  [ex_req 0 0 1 5 true; ex_req 100 0 1 5 true; ex_req 200 0 1 6 false; ex_req 300 3 0 7 true].

Lemma access_trace_legal_witness :
  ∃ s0 s, @startup HMC_2500_x32_Cache 0 (@new_chan HMC_2500_x32_Cache) = Ok s0 ∧
    @run HMC_2500_x32_Cache true s0 ex_run = Ok s ∧
    served (power s) = [(RD, 3, 0); (WR, 0, 1); (RD, 0, 1); (RD, 0, 1)] ∧
    @legal HMC_2500_x32_Cache (@built_group HMC_2500_x32_Cache) (power s) ∧
    @windows HMC_2500_x32_Cache (power s) ∧
    busBusyUntil s0 + @tBURST HMC_2500_x32_Cache * 4 ≤ busBusyUntil s.
Proof.
  apply (@access_trace_legal HMC_2500_x32_Cache HMC_timing true 0 1000 ex_run).
  - lia.
  - cbn; lia.
  - cbn; lia.
  - repeat constructor; cbn; unfold NO_ROW; lia.
  - vm_compute. reflexivity.
Defined.
End DramProtocol.
