(* ===== verification/DramInitProofs.v ===== *)
(** * Constructed controllers are well formed

    The checks of the constructor and of [init] do not suffice for the assumptions of
    the decoding, scheduling, timing and refresh theorems: [usable] lists what has to be
    asked of the parameters beyond them. *)

From S2P Require Import Prelude Intmath DramTypes Config DramInit DramAddr DramSched DramTiming DramProtocol.
Import Intmath DramInit DramAddr DramSched DramTiming DramProtocol.

Module DramInitProofs.

(** What the constructor does not check: that there are banks, channels and rows, that
    the products of its 32-bit arithmetic do not wrap, that a row is a whole number of
    bursts and an interleaved chunk a whole number of bursts that divides a row, that a
    row number fits in 32 bits, that the banks of the channel fit in the 64-bit
    mask of the scheduler, and that the delays between commands are positive. *)
Record usable (p : DRAMCtrlParams) : Prop :=
  { ty_banks : 0 < banks_per_rank p ∧ 0 ≤ ranks_per_channel p ∧ ranks_per_channel p * banks_per_rank p ≤ 64;
    ty_channels : 0 < channels_ p;
    ty_burst : 0 ≤ devices_per_rank p * burst_length p * device_bus_width p < 2 ^ 32;
    ty_rowbuf : 0 < devices_per_rank p * device_rowbuffer_size p < 2 ^ 32 ∧ 0 ≤ device_rowbuffer_size p < 2 ^ 32;
    ty_row : (devices_per_rank p * burst_length p * device_bus_width p / 8
              | devices_per_rank p * device_rowbuffer_size p);
    ty_stripe : ∀ g s, granularity p = Some (g, s) →
      (devices_per_rank p * burst_length p * device_bus_width p / 8 | g) ∧
      (g | devices_per_rank p * device_rowbuffer_size p) ∧ 0 < g;
    ty_range : let bank_rows := devices_per_rank p * device_rowbuffer_size p * banks_per_rank p * ranks_per_channel p in
      bank_rows ≤ range_size p ≤ 2 ^ 31 * bank_rows ∧ bank_rows < 2 ^ 32 ∧ 0 < range_size p ≤ 2 ^ 63;
    ty_buffers : 0 ≤ write_buffer_size p < 2 ^ 25 ∧ 0 ≤ write_low_thresh_perc p ∧ write_high_thresh_perc p ≤ 100;
    ty_core : 0 < p_tRP p ∧ 0 < p_tRCD p ∧ 0 < p_tRAS p ∧ 0 < p_tBURST p ∧ 0 < p_tRTP p ∧ 0 < p_tRRD p ∧ 0 < p_tRFC p;
    ty_rest : 0 ≤ p_tCL p ∧ 0 ≤ p_tWR p ∧ 0 ≤ p_tCS p ∧ 0 ≤ p_tCCD_L p ∧ 0 ≤ p_tXAW p ∧ 0 ≤ p_tRRD_L p ∧
      0 ≤ activation_limit p }.

(** The products of the initialisers, without the wrap-around. *)
Lemma plain_burst p : usable p → u32 (devices_per_rank p * burst_length p * device_bus_width p) =
  devices_per_rank p * burst_length p * device_bus_width p.
Proof. intros U. apply u32_small, U. Qed.
Lemma plain_row p : usable p → u32 (devices_per_rank p * u32 (device_rowbuffer_size p)) =
  devices_per_rank p * device_rowbuffer_size p.
Proof. intros U. destruct (ty_rowbuf p U). rewrite (u32_small (device_rowbuffer_size p)) by lia. apply u32_small. lia. Qed.

Lemma fatal_if_ok b msg u : fatal_if b msg = Ok u → b = false.
Proof. unfold fatal_if. by destruct b. Qed.

Lemma power_of_2_pos n : 0 ≤ n → isPowerOf2 n = true → 0 < n.
Proof. unfold isPowerOf2. intros ? [H _]%andb_prop. destruct (Z.eqb_spec n 0); [done|lia]. Qed.

(** The rows per bank: the size of the range, rounded up to a power of two, over
    the bytes of one row in every bank. *)
Lemma rows_range n b lg :
  0 < b → b ≤ n ≤ 2 ^ 31 * b → b < 2 ^ 32 → 0 < n ≤ 2 ^ 63 → ceilLog2 n = Ok lg →
  0 < u64 (Z.shiftl 1 lg) / u32 b ≤ NO_ROW.
Proof.
  intros Hb Hn Hb32 Hn63. rewrite ceilLog2_log2_up by lia. intros [= <-].
  assert (n ≤ 2 ^ Z.log2_up n) as Hl.
  { destruct (decide (n = 1)) as [->|]; [done|]. apply Z.log2_up_spec. lia. }
  assert (2 ^ Z.log2_up n < 2 * n) as Hu.
  { destruct (decide (n = 1)) as [->|]; [cbn; lia|]. pose proof (Z.log2_up_spec n ltac:(lia)) as [H _].
    pose proof (Z.log2_up_pos n ltac:(lia)).
    replace (Z.log2_up n) with (Z.succ (Z.pred (Z.log2_up n))) at 1 by lia. rewrite Z.pow_succ_r by lia. lia. }
  rewrite Z.shiftl_1_l, (u32_small b) by lia.
  assert (2 ^ Z.log2_up n < 2 ^ 64) as H64.
  { apply Z.pow_lt_mono_r; try lia. pose proof (Z.log2_up_le_mono n (2 ^ 63) ltac:(lia)) as H.
    rewrite Z.log2_up_pow2 in H by lia. lia. }
  rewrite u64_small by lia. unfold NO_ROW. split; [apply Z.div_str_pos; lia|].
  assert (2 ^ Z.log2_up n / b < 2 ^ 32); [apply Z.div_lt_upper_bound; lia|lia].
Qed.

(** What the checks of the constructor leave. *)
Record checked (p : DRAMCtrlParams) (P : DRAMParams) (rows : Z) : Prop :=
  { ck_members : P = members p rows;
    ck_ranks : 0 < ranks_per_channel p;
    ck_burst : 0 < devices_per_rank p * burst_length p * device_bus_width p / 8;
    ck_thresh : write_low_thresh_perc p < write_high_thresh_perc p;
    ck_rows : 0 < rows ≤ NO_ROW;
    ck_refresh : p_tRP p < p_tREFI p ∧ p_tRFC p < p_tREFI p;
    ck_groups : 0 < bank_groups_per_rank p → p_tRRD p ≤ p_tRRD_L p }.

Lemma constructor_checks p P : usable p → DRAMCtrl p = Ok P → ∃ rows, checked p P rows.
Proof.
  intros U. pose proof U as [T1 T2 T3 T4 T5 T6 T7 T8 T9 T10]. unfold DRAMCtrl. cbn -[u32]. rewrite plain_row, plain_burst by done. intros H.
  apply bind_ok in H as (? & _ & H).
  apply bind_ok in H as (? & E1%fatal_if_ok & H). apply bind_ok in H as (? & E2%fatal_if_ok & H).
  apply bind_ok in H as (? & E3%fatal_if_ok & H). apply bind_ok in H as (lg & E4 & H). apply bind_ok in H as (rows & Er & H).
  apply bind_ok in H as (? & E5%fatal_if_ok & H). apply bind_ok in H as (? & E6 & [= <-]).
  apply negb_false_iff, power_of_2_pos in E1; [|lia].
  apply negb_false_iff, power_of_2_pos in E2; [|apply Z.div_pos; lia]. apply orb_false_iff in E5 as [E5%Z.leb_gt E5'%Z.leb_gt].
  apply Z.leb_gt in E3. unfold udiv in Er. case_match; [done|]. injection Er as <-. cbv zeta in T7.
  assert (0 < u64 (Z.shiftl 1 lg) / u32 (devices_per_rank p * device_rowbuffer_size p * banks_per_rank p * ranks_per_channel p) ≤ NO_ROW) as Hrows.
  { apply (rows_range (range_size p)); [|lia..|done]. apply Z.mul_pos_pos; [apply Z.mul_pos_pos|]; lia. }
  eexists. split; [reflexivity|done|done|lia| |lia|].
  - rewrite u32_small; [exact Hrows|]. unfold NO_ROW in Hrows. lia.
  - intros Hg. unfold check_groups in E6. cbn -[u32] in E6. apply Z.ltb_lt in Hg. rewrite Hg in E6.
    do 3 apply bind_ok in E6 as (? & _ & E6). apply fatal_if_ok in E6. lia.
Qed.

Lemma checked_geometry p P rows line :
  usable p → checked p P rows → @init P (granularity p) line = Ok tt → @valid_geometry P ∧ @sched_geometry P.
Proof.
  intros U [-> C2 C3 C4 C5 C6 C7] Hi. pose proof U as [T1 T2 T3 T4 T5 T6 T7 T8 T9 T10].
  set (burst := devices_per_rank p * burst_length p * device_bus_width p / 8) in *.
  set (rowbuf := devices_per_rank p * device_rowbuffer_size p) in *.
  destruct T5 as [cols Ec]. assert (0 < cols) by nia.
  assert (rowbuf / burst = cols) as Ed by (rewrite Ec; apply Z.div_mul; lia).
  split; [|unfold sched_geometry; cbn; nia].
  split; cbn -[u32]; rewrite ?plain_burst, ?plain_row by done; fold burst rowbuf; rewrite ?Ed; try done; try nia.
  all: destruct (granularity p) as [[g s]|] eqn:Eg; rewrite ?Z.div_1_r; try lia.
  all: destruct (T6 g s eq_refl) as ([k Hk] & [m Hm] & Hg); rewrite Hk, Z.div_mul by lia.
  all: assert (cols = m * k) as -> by nia; assert (0 < k ∧ 0 < m) by nia.
  all: rewrite (u32_small k) by nia; rewrite ?Z.div_mul by lia; lia.
Qed.

(** Usable parameters that pass the checks of the constructor and of [init]
    give a geometry in which every address decodes to an existing bank, banks
    that the scheduler's mask can hold, timing constants under which the command
    trace is legal, a refresh interval longer than precharge and refresh, and
    ordered write thresholds within the buffer. *)
Lemma constructed_well_formed p P line :
  usable p → DRAMCtrl p = Ok P → @init P (granularity p) line = Ok tt →
  @valid_geometry P ∧ @sched_geometry P ∧ @valid_timing P ∧
  (@tRP P < @tREFI P ∧ @tRFC P < @tREFI P) ∧
  0 ≤ @writeLowThreshold P ≤ @writeHighThreshold P ∧ @writeHighThreshold P ≤ @writeBufferSize P.
Proof.
  intros T H Hi. destruct (constructor_checks p P T H) as [rows Hc].
  destruct (checked_geometry p P rows line T Hc Hi) as [Hv Hs]. split; [done|]. split; [done|].
  destruct Hc as [-> C2 C3 C4 C5 C6 C7], T as [T1 T2 T3 T4 T5 T6 T7 T8 T9 T10].
  assert (u32 (write_buffer_size p * write_low_thresh_perc p) = write_buffer_size p * write_low_thresh_perc p) as L1 by (apply u32_small; nia).
  assert (u32 (write_buffer_size p * write_high_thresh_perc p) = write_buffer_size p * write_high_thresh_perc p) as L2 by (apply u32_small; nia).
  split_and!; cbn -[u32]; rewrite ?L1, ?L2; try lia.
  - split; cbn; try lia. unfold rrd. cbn. destruct (Z.ltb_spec 0 (bank_groups_per_rank p)); cbn; lia.
  - apply Z.div_pos; nia.
  - apply Z.div_le_mono; nia.
  - apply Z.div_le_upper_bound; nia.
Qed.

(** The parameters of [class HMC_2500_x32_Cache] for a range of 1 GB. *)
Definition HMC_params : DRAMCtrlParams :=
  {| device_size := 4 * 1024 * 1024; device_bus_width := 64; burst_length := 8;
     device_rowbuffer_size := 2048; devices_per_rank := 1; ranks_per_channel := 8;
     bank_groups_per_rank := 0; banks_per_rank := 4; channels_ := 1;
     read_buffer_size := 32; write_buffer_size := 32;
     write_high_thresh_perc := 36; write_low_thresh_perc := 18; min_writes_per_switch := 10;
     p_tCK := 800; p_tWTR := 7500; p_tRTW := 2500; p_tCS := 800; p_tBURST := 3200; p_tCCD_L := 0;
     p_tRCD := 10200; p_tCL := 9900; p_tRP := 7700; p_tRAS := 21600; p_tWR := 8000; p_tRTP := 4900;
     p_tRFC := 59000; p_tREFI := 3900000; p_tRRD := 3200; p_tRRD_L := 0; p_tXAW := 30000;
     activation_limit := 0; mem_sched_policy := frfcfs; addr_mapping := RoRaBaCoCh;
     page_policy := close_adaptive; max_accesses_per_row := 16;
     static_frontend_latency := 10000; static_backend_latency := 10000;
     range_size := 2 ^ 30; granularity := None |}.

Lemma constructed_well_formed_witness :
  DRAMCacheCtrl HMC_params 128 = Ok (HMC_2500_x32_Cache, mkGeometry 16384 245760 1) ∧
  ∃ P, DRAMCtrl HMC_params = Ok P ∧ @rowsPerBank P = 16384 ∧ @valid_geometry P ∧ @valid_timing P.
Proof.
  split; [vm_compute; reflexivity|]. exists (members HMC_params 16384).
  split; [vm_compute; reflexivity|]. split; [reflexivity|].
  destruct (constructed_well_formed HMC_params (members HMC_params 16384) 128) as (H1 & _ & H2 & _);
    [|vm_compute; reflexivity|reflexivity|done].
  constructor; [..|by exists 32|done| | | |]; repeat (split || (vm_compute; first [reflexivity|discriminate])).
Defined.
End DramInitProofs.
