(* ===== verification/DramRefresh.v ===== *)
(** * Refresh and power states of a rank (DRAMCtrl::Rank)

    Every rank runs two coupled state machines: the refresh machine (idle,
    draining, precharging, running) and the power machine (idle, refreshing,
    active).  The handlers below are the bodies of the events; an event is
    no longer scheduled when its handler runs.  The energy computation of the
    DRAMPower library is not modelled, the commands handed to it are. *)

From S2P Require Import Prelude DramTypes Config DramTiming.
Import DramTiming.

Module DramRefresh.
(** The channel and the event of the request loop. *)
Abbreviation st := (Chan * event)%type.

Section refresh.
Context `{P : DRAMParams}.

Definition get_rank (s : st) (r : Z) : Rank := rank_at (ranks s.1) r.
Definition set_rank (r : Z) (rk : Rank) (s : st) : st :=
  (s.1 <| ranks ::= upd_rank r (λ _, rk) |>, s.2).
Definition log_cmd (c : dcmd) (s : st) : st := (s.1 <| power ::= cons c |>, s.2).

Definition suspend (r : Z) (s : st) : res st :=
  let rk := get_rank s r in
  ev ← deschedule (refreshEvent rk);
  Ok (set_rank r (rk <| refreshEvent := ev |>) s).

Definition checkDrainDone (now : Tick) (r : Z) (s : st) : res st :=
  let rk := get_rank s r in
  if bool_decide (refreshState rk = REF_DRAIN) then
    let rk := rk <| refreshState := REF_PRE |> in
    ev ← schedule now now (refreshEvent rk);
    Ok (set_rank r (rk <| refreshEvent := ev |>) s)
  else Ok s.

Definition schedulePowerEvent (now : Tick) (pwr_state : PowerState) (tick : Tick) (rk : Rank)
    : res Rank :=
  assert (now <=? tick) "tick >= curTick()";;
  if negb (scheduled (powerEvent rk)) then
    let rk := rk <| pwrStateTrans := pwr_state |> in
    ev ← schedule now tick (powerEvent rk);
    Ok (rk <| powerEvent := ev |>)
  else Fault (Panic "Scheduled power event with scheduled event").

Definition processActivateEvent (now : Tick) (r : Z) (s : st) : res st :=
  let rk := (get_rank s r) <| activateEvent := None |> in
  rk ← (if negb (bool_decide (pwrState rk = PWR_ACT))
        then schedulePowerEvent now PWR_ACT now rk else Ok rk);
  Ok (set_rank r rk s).

Definition processPrechargeEvent (now : Tick) (r : Z) (s : st) : res st :=
  let rk := (get_rank s r) <| prechargeEvent := None |> in
  rk ← (if numBanksActive rk =? 0 then schedulePowerEvent now PWR_IDLE now rk else Ok rk);
  Ok (set_rank r rk s).

(** When all banks of the rank may be precharged. *)
Definition pre_all_at (now : Tick) (rk : Rank) : Tick :=
  foldl (λ t (k : Bank), Z.max (preAllowedAt k) t) now (banks rk).

(** One bank of the precharge of all. *)
Definition pre_one (now : Tick) (r : Z) (pre_at : Tick) (s : Chan) (b : Z) : res Chan :=
  if negb (openRow (bank_at (ranks s) r b) =? NO_ROW)
  then prechargeBank now r b pre_at false s
  else
    Ok (s <| ranks ::= upd_rank r (upd_bank b (λ k,
          k <| actAllowedAt := Z.max (actAllowedAt k) (pre_at + tRP) |>
            <| preAllowedAt := Z.max (preAllowedAt k) pre_at |>)) |>).

(** The precharge step of the refresh. *)
Definition refresh_pre (now : Tick) (r : Z) (s : st) : res st :=
  let rk := get_rank s r in
  s ← (if negb (bool_decide (pwrState rk = PWR_IDLE)) then
         let pre_at := pre_all_at now rk in
         c ← foldM (pre_one now r pre_at) s.1 (seqZ 0 (Z.of_nat (length (banks rk))));
         Ok (log_cmd (mkCmd PREA r 0 pre_at) (c, s.2))
       else
         rk ← schedulePowerEvent now PWR_REF now rk;
         Ok (set_rank r rk s));
  let rk := (get_rank s r) <| refreshState := REF_RUN |> in
  assert (numBanksActive rk =? 0) "numBanksActive == 0";;
  Ok (set_rank r rk s).

(** The refresh itself. *)
Definition refresh_run (now : Tick) (r : Z) (s : st) : res st :=
  let rk := get_rank s r in
  assert (numBanksActive rk =? 0) "numBanksActive == 0";;
  assert (bool_decide (pwrState rk = PWR_REF)) "pwrState == PWR_REF";;
  let ref_done_at := now + tRFC in
  let rk := rk <| banks ::= fmap (λ k : Bank, k <| actAllowedAt := ref_done_at |>) |> in
  let s := log_cmd (mkCmd REF r 0 now) s in
  if refreshDueAt rk + tREFI <? ref_done_at
  then Fault (Fatal "Refresh was delayed so long we cannot catch up")
  else
    ev ← schedule now (sub64 (refreshDueAt rk + tREFI) tRP) (refreshEvent rk);
    let rk := rk <| refreshEvent := ev |> in
    assert (negb (scheduled (powerEvent rk))) "!powerEvent.scheduled()";;
    rk ← schedulePowerEvent now PWR_IDLE ref_done_at rk;
    Ok (set_rank r rk s).

(** The part of [processRefreshEvent] from the drain on. *)
Definition refresh_loop (now : Tick) (r : Z) (s : st) : res st :=
  let rk := get_rank s r in
  if bool_decide (refreshState rk = REF_DRAIN) then
    if (rank_no rk =? activeRank s.1) && scheduled s.2 then Ok s
    else refresh_pre now r (set_rank r (rk <| refreshState := REF_PRE |>) s)
  else if bool_decide (refreshState rk = REF_PRE) then refresh_pre now r s
  else if bool_decide (refreshState rk = REF_RUN) then refresh_run now r s
  else Ok s.

Definition refresh_body (now : Tick) (r : Z) (s : st) : res st :=
  let rk := get_rank s r in
  let rk := if bool_decide (refreshState rk = REF_IDLE)
            then rk <| refreshDueAt := now |> <| refreshState := REF_DRAIN |> else rk in
  refresh_loop now r (set_rank r rk s).

Definition processRefreshEvent (now : Tick) (r : Z) (s : st) : res st :=
  refresh_body now r (set_rank r ((get_rank s r) <| refreshEvent := None |>) s).

(** The power state entered when all banks are precharged: the request loop is
    woken after a refresh, and a pending refresh goes ahead. *)
Definition power_idle (now : Tick) (r : Z) (prev_state : PowerState) (s : st) : res st :=
  let rk := get_rank s r in
  if bool_decide (prev_state = PWR_REF) then
    let s := set_rank r (rk <| refreshState := REF_IDLE |>) s in
    ev ← (if negb (scheduled s.2) then schedule now now s.2 else Ok s.2);
    Ok (s.1, ev)
  else
    assert (bool_decide (prev_state = PWR_ACT)) "prev_state == PWR_ACT";;
    if bool_decide (refreshState rk = REF_RUN) then
      assert (negb (scheduled (powerEvent rk))) "!powerEvent.scheduled()";;
      Ok (set_rank r (rk <| pwrState := PWR_REF |>) s)
    else Ok s.

(** The bucket of a power state; the statistic is kept per rank. *)
Definition pwr_index (p : PowerState) : Z :=
  match p with
  | PWR_IDLE => 0 | PWR_REF => 1 | PWR_PRE_PDN => 2 | PWR_ACT => 3 | PWR_ACT_PDN => 4
  end.

Definition processPowerEvent (now : Tick) (r : Z) (s : st) : res st :=
  let rk := (get_rank s r) <| powerEvent := None |> in
  let prev_state := pwrState rk in
  let s := (s.1 <| chstats ::= stat_add "memoryStateTime" (5 * r + pwr_index prev_state)
                                 (sub64 now (pwrStateTick rk)) |>, s.2) in
  let rk := rk <| pwrState := pwrStateTrans rk |> <| pwrStateTick := now |> in
  let s := set_rank r rk s in
  s ← (if bool_decide (pwrState rk = PWR_IDLE) then power_idle now r prev_state s else Ok s);
  let rk := get_rank s r in
  if bool_decide (pwrState rk = PWR_REF) then
    assert (bool_decide (refreshState rk = REF_RUN)) "refreshState == REF_RUN";;
    refresh_body now r s
  else Ok s.
End refresh.
End DramRefresh.
