(* ===== verification/DramRefreshProofs.v ===== *)
(** * Refresh cycles

    An idle rank refreshes for ever, once every tREFI - tRP ticks; a rank with
    open rows is drained, precharged as a whole when every bank allows it, and
    refreshed when the precharge is done.  No assertion, panic or fatal error is
    reached on the way. *)

From S2P Require Import Prelude DramTypes Config DramInit DramTiming DramProtocol DramRefresh.
Import DramTiming DramProtocol DramRefresh.

Module DramRefreshProofs.
Section refresh.
Context `{P : DRAMParams}.

Definition in_chan (r : Z) (s : st) : Prop := (Z.to_nat r < length (ranks s.1))%nat.

Lemma get_set r rk s : in_chan r s → get_rank (set_rank r rk s) r = rk.
Proof. intros H. unfold get_rank, set_rank; cbn. by rewrite rank_at_upd_same. Qed.
Lemma in_chan_set r q rk s : in_chan r s → in_chan r (set_rank q rk s).
Proof. intros H. unfold in_chan, set_rank; cbn. by rewrite length_upd_rank. Qed.
Lemma upd_upd r rk rk' rs :
  upd_rank r (λ _, rk) (upd_rank r (λ _, rk') rs) = upd_rank r (λ _, rk) rs.
Proof.
  unfold upd_rank. apply list_eq. intros i. rewrite !list_lookup_alter.
  repeat case_decide; try congruence. by destruct (rs !! Z.to_nat r).
Qed.
Lemma set_set r rk rk' s : set_rank r rk (set_rank r rk' s) = set_rank r rk s.
Proof. destruct s as [c e]. unfold set_rank. cbn. by rewrite upd_upd. Qed.

Ltac gs :=
  repeat first [rewrite set_set | rewrite get_set by (repeat apply in_chan_set; done)].

Lemma schedulePowerEvent_ok now p tick rk : now ≤ tick → powerEvent rk = None →
  schedulePowerEvent now p tick rk =
    Ok (rk <| pwrStateTrans := p |> <| powerEvent := Some tick |>).
Proof.
  intros H E. unfold schedulePowerEvent. rewrite assert_bind by lia. rewrite E.
  cbn [negb scheduled isSome]. unfold schedule. rewrite assert_bind by lia.
  by rewrite assert_bind by (cbn; by rewrite E).
Qed.

(** Timing parameters that leave room for a refresh, far from the end of time. *)
Record refresh_timing : Prop :=
  { rt_refi : tREFI < 2 ^ 62; rt_pos : 0 ≤ tRP ∧ 0 < tRFC; rt_room : tRFC + tRP ≤ tREFI }.
Context (T : refresh_timing).

(** ** The steps of a refresh *)

(** The rank after the refresh command at [now]. *)
Definition refreshing (now : Tick) (rk : Rank) : Rank :=
  rk <| banks ::= fmap (λ k : Bank, k <| actAllowedAt := now + tRFC |>) |>
     <| refreshEvent := Some (refreshDueAt rk + (tREFI - tRP)) |>
     <| pwrStateTrans := PWR_IDLE |> <| powerEvent := Some (now + tRFC) |>.

Lemma refresh_run_ok now r s rk : in_chan r s → 0 ≤ refreshDueAt rk < 2 ^ 62 →
  refreshDueAt rk ≤ now → now + tRFC ≤ refreshDueAt rk + (tREFI - tRP) →
  numBanksActive rk = 0 → pwrState rk = PWR_REF → refreshEvent rk = None → powerEvent rk = None →
  refresh_run now r (set_rank r rk s) =
    Ok (set_rank r (refreshing now rk) (log_cmd (mkCmd REF r 0 now) s)).
Proof.
  intros Hr Hd Hn Hroom Hb Hp Hre Hpe. destruct T as [T1 T2 T3]. unfold refresh_run. gs.
  rewrite assert_bind by (by rewrite Hb). rewrite assert_bind by (by rewrite bool_decide_eq_true_2).
  match goal with |- context [if ?b then Fault _ else _] => assert (b = false) as -> end.
  { apply Z.ltb_ge. cbn. lia. }
  rewrite (ok_bind _ _ (Some (refreshDueAt rk + (tREFI - tRP)))).
  2: { unfold schedule. cbn. rewrite sub64_small, Hre by lia.
       rewrite !assert_bind by (done || lia). do 2 f_equal. lia. }
  rewrite assert_bind by (cbn; by rewrite Hpe). rewrite schedulePowerEvent_ok by (done || lia).
  cbn [mbind res_bind].
  match goal with |- Ok ?x = _ =>
    change x with (set_rank r (refreshing now rk) (set_rank r rk (log_cmd (mkCmd REF r 0 now) s))) end.
  by gs.
Qed.

(** The channel up to statistics and ranks. *)
Definition same_chan (c c' : Chan) : Prop :=
  ranks c' = ranks c ∧ power c' = power c ∧ activeRank c' = activeRank c.

(** The power event that enters the refresh state, directly or through the
    idle state. *)
Lemma power_start_ok now r c e rk : in_chan r (c, e) → 0 ≤ refreshDueAt rk < 2 ^ 62 →
  refreshDueAt rk ≤ now → now + tRFC ≤ refreshDueAt rk + (tREFI - tRP) →
  numBanksActive rk = 0 → refreshState rk = REF_RUN → refreshEvent rk = None →
  pwrStateTrans rk = PWR_REF ∨ pwrStateTrans rk = PWR_IDLE ∧ pwrState rk = PWR_ACT →
  ∃ c1, same_chan c c1 ∧ processPowerEvent now r (set_rank r rk (c, e)) =
    Ok (set_rank r (refreshing now (rk <| powerEvent := None |> <| pwrState := PWR_REF |>
                                       <| pwrStateTick := now |>))
         (log_cmd (mkCmd REF r 0 now) (c1, e))).
Proof.
  intros Hr Hd Hn Hroom Hb Hrs Hre Ht. unfold processPowerEvent. gs.
  set (c1 := c <| chstats ::= stat_add "memoryStateTime" (5 * r + pwr_index (pwrState rk))
                                (sub64 now (pwrStateTick rk)) |>).
  exists c1. split; [done|].
  match goal with |- context [set_rank r ?a (?x, ?y)] =>
    change (set_rank r a (x, y)) with (set_rank r a (set_rank r rk ((c1, e) : st))) end.
  gs. set (rk1 := rk <| powerEvent := None |> <| pwrState := PWR_REF |> <| pwrStateTick := now |>).
  assert (refresh_body now r (set_rank r rk1 (c1, e)) =
    Ok (set_rank r (refreshing now rk1) (log_cmd (mkCmd REF r 0 now) (c1, e)))) as E.
  { unfold refresh_body. gs. rewrite bool_decide_eq_false_2 by (cbn; by rewrite Hrs).
    unfold refresh_loop. gs. rewrite !bool_decide_eq_false_2 by (cbn; by rewrite Hrs).
    rewrite bool_decide_eq_true_2 by done. by apply refresh_run_ok. }
  rewrite (ok_bind _ _ (set_rank r rk1 (c1, e))).
  - gs. rewrite bool_decide_eq_true_2 by done.
    rewrite assert_bind by (by rewrite bool_decide_eq_true_2). exact E.
  - destruct Ht as [Ht|[Ht Ha]].
    + rewrite bool_decide_eq_false_2 by (cbn; by rewrite Ht). do 3 f_equal.
      unfold rk1. cbn. by rewrite Ht.
    + rewrite bool_decide_eq_true_2 by (cbn; by rewrite Ht). unfold power_idle. gs.
      cbn [pwrState]. change (pwrState (rk <| powerEvent := None |>)) with (pwrState rk).
      rewrite Ha. rewrite bool_decide_eq_false_2 by done.
      rewrite assert_bind by done. rewrite bool_decide_eq_true_2 by done.
      by rewrite assert_bind.
Qed.

(** The power event that ends it and wakes the request loop. *)
Lemma power_end_ok now r c e rk : in_chan r (c, e) → pwrState rk = PWR_REF → pwrStateTrans rk = PWR_IDLE →
  ∃ c1 e', same_chan c c1 ∧ scheduled e' = true ∧
    processPowerEvent now r (set_rank r rk (c, e)) =
      Ok (set_rank r (rk <| powerEvent := None |> <| pwrState := PWR_IDLE |>
            <| pwrStateTick := now |> <| refreshState := REF_IDLE |>) (c1, e')).
Proof.
  intros Hr Hp Ht. unfold processPowerEvent. gs.
  set (c1 := c <| chstats ::= stat_add "memoryStateTime" (5 * r + pwr_index (pwrState rk))
                                (sub64 now (pwrStateTick rk)) |>).
  exists c1, (match e with None => Some now | _ => e end). split; [done|]. split; [by destruct e|].
  match goal with |- context [set_rank r ?a (?x, ?y)] =>
    change (set_rank r a (x, y)) with (set_rank r a (set_rank r rk ((c1, e) : st))) end.
  gs. rewrite bool_decide_eq_true_2 by (cbn; by rewrite Ht). unfold power_idle. gs.
  change (pwrState (rk <| powerEvent := None |>)) with (pwrState rk). rewrite Hp.
  rewrite bool_decide_eq_true_2 by done.
  set (rk3 := rk <| powerEvent := None |> <| pwrState := PWR_IDLE |>
            <| pwrStateTick := now |> <| refreshState := REF_IDLE |>).
  rewrite (ok_bind _ _ (set_rank r rk3 (c1, match e with None => Some now | _ => e end))).
  - gs. by rewrite bool_decide_eq_false_2.
  - change (pwrStateTrans (rk <| powerEvent := None |>)) with (pwrStateTrans rk). rewrite Ht. gs.
    cbn [set_rank snd]. destruct e as [w|]; cbn [scheduled isSome negb]; [done|].
    unfold schedule. by rewrite !assert_bind by (done || lia).
Qed.

(** ** An idle rank *)

Record rank_idle (due : Tick) (rk : Rank) : Prop :=
  { ri_refresh : refreshState rk = REF_IDLE;
    ri_power : pwrState rk = PWR_IDLE;
    ri_banks : numBanksActive rk = 0;
    ri_event : powerEvent rk = None;
    ri_due : refreshEvent rk = Some due }.

(** The next event of a rank without traffic: the one that was scheduled first, the
    power event before the refresh event in the same tick, as it is scheduled later.
    The request loop, if the event woke it, finds its queues empty in the same tick. *)
Definition rank_event (r : Z) (s : st) : res st :=
  let rk := get_rank s r in
  s ← match refreshEvent rk, powerEvent rk with
      | None, None => Fault (Panic "no event")
      | Some t, None => processRefreshEvent t r s
      | None, Some w => processPowerEvent w r s
      | Some t, Some w => if w <=? t then processPowerEvent w r s else processRefreshEvent t r s
      end;
  Ok (s.1, None).
Fixpoint idle_events (r : Z) (n : nat) (s : st) : res st :=
  match n with
  | O => Ok s
  | S n => s ← rank_event r s; idle_events r n s
  end.

Lemma rank_event_refresh r s t : refreshEvent (get_rank s r) = Some t → powerEvent (get_rank s r) = None →
  rank_event r s = s ← processRefreshEvent t r s; Ok (s.1, None).
Proof. intros H1 H2. unfold rank_event. by rewrite H1, H2. Qed.
Lemma rank_event_power r s w : powerEvent (get_rank s r) = Some w → (∀ t, refreshEvent (get_rank s r) = Some t → w ≤ t) →
  rank_event r s = s ← processPowerEvent w r s; Ok (s.1, None).
Proof.
  intros H1 H2. unfold rank_event. rewrite H1. destruct (refreshEvent (get_rank s r)) as [t|]; [|done].
  by rewrite (proj2 (Z.leb_le w t)) by auto.
Qed.

Lemma due_idle_ok r t c : in_chan r (c, None) → rank_idle t (rank_at (ranks c) r) →
  processRefreshEvent t r (c, None) =
    Ok (set_rank r ((rank_at (ranks c) r) <| refreshEvent := None |> <| refreshDueAt := t |>
          <| pwrStateTrans := PWR_REF |> <| powerEvent := Some t |> <| refreshState := REF_RUN |>)
          (c, None)).
Proof.
  intros Hr [I1 I2 I3 I4 I5]. unfold processRefreshEvent, refresh_body. gs.
  change (get_rank (c, None) r) with (rank_at (ranks c) r).
  rewrite bool_decide_eq_true_2 by exact I1. unfold refresh_loop. gs.
  rewrite bool_decide_eq_true_2 by done. rewrite andb_false_r.
  unfold refresh_pre. gs. rewrite (bool_decide_eq_true_2 (pwrState _ = PWR_IDLE)) by exact I2.
  cbn [negb]. rewrite schedulePowerEvent_ok by (done || lia). cbn [mbind res_bind]. gs.
  by rewrite assert_bind by (cbn; by rewrite I3).
Qed.

Lemma rank_at_set r rk c e : in_chan r (c, e) → rank_at (ranks (set_rank r rk (c, e)).1) r = rk.
Proof. intros H. by apply (get_set r rk (c, e)). Qed.
Lemma ranks_set r rk c c1 e e1 : ranks c1 = ranks c →
  ranks (set_rank r rk (c1, e1)).1 = ranks (set_rank r rk (c, e)).1.
Proof. intros E. cbn. by rewrite E. Qed.

(** A refresh is three events: it falls due, the power machine enters the refresh state
    in the same tick and leaves it after tRFC. *)
Lemma idle_cycle_ok r t c n : 0 ≤ t < 2 ^ 62 → in_chan r (c, None) →
  rank_idle t (rank_at (ranks c) r) →
  ∃ c', idle_events r (3 + n) (c, None) = idle_events r n (c', None) ∧ length (ranks c') = length (ranks c) ∧
    power c' = mkCmd REF r 0 t :: power c ∧
    rank_idle (t + (tREFI - tRP)) (rank_at (ranks c') r).
Proof.
  intros Ht Hr Hi. destruct T as [T1 T2 T3]. cbn [Nat.add idle_events].
  rewrite (rank_event_refresh r (c, None) t) by apply Hi.
  rewrite due_idle_ok by done.
  destruct Hi as [I1 I2 I3 I4 I5]. set (rk := rank_at (ranks c) r) in *. cbn [mbind res_bind].
  set (rk1 := rk <| refreshEvent := None |> <| refreshDueAt := t |> <| pwrStateTrans := PWR_REF |>
    <| powerEvent := Some t |> <| refreshState := REF_RUN |>).
  change ((set_rank r rk1 (c, None)).1, None) with (set_rank r rk1 (c, None)).
  rewrite (rank_event_power r _ t) by (gs; done).
  destruct (power_start_ok t r c None rk1) as (c1 & (R1 & W1 & _) & ->); try done; try (cbn; lia).
  { by left. }
  cbn [mbind res_bind]. set (rk2 := refreshing t _). set (c1' := c1 <| power ::= cons (mkCmd REF r 0 t) |>).
  assert (in_chan r (c1', None)) as Hr1 by (unfold in_chan in *; cbn in *; by rewrite R1).
  change ((set_rank r rk2 (log_cmd (mkCmd REF r 0 t) (c1, None))).1, None) with (set_rank r rk2 (c1', None)).
  rewrite (rank_event_power r _ (t + tRFC)); [|by gs|gs; intros ? [= <-]; cbn; lia].
  destruct (power_end_ok (t + tRFC) r c1' None rk2 Hr1)
    as (c2 & e2 & (R2 & W2 & _) & _ & E2); [done..|].
  rewrite E2. cbn [mbind res_bind]. set (rk3 := rk2 <| powerEvent := None |> <| pwrState := PWR_IDLE |> <| pwrStateTick := _ |> <| refreshState := _ |>).
  assert (ranks c2 = ranks c) as R by (cbn in R2; by rewrite R2).
  eexists. split; [reflexivity|]. rewrite (ranks_set r rk3 c c2 None e2 R).
  rewrite rank_at_set by done. split; [cbn; by rewrite length_upd_rank|].
  split; [cbn; by rewrite W2; cbn; rewrite W1|]. split; try done; exact I3.
Qed.

Definition ref_ticks (t : Tick) (n : nat) : list Tick :=
  (λ k, t + k * (tREFI - tRP)) <$> seqZ 0 (Z.of_nat n).

Lemma ref_ticks_S t n : ref_ticks t (S n) = t :: ref_ticks (t + (tREFI - tRP)) n.
Proof.
  unfold ref_ticks. rewrite seqZ_cons by lia. cbn [fmap list_fmap]. f_equal; [lia|].
  replace (Z.pred (Z.of_nat (S n))) with (Z.of_nat n) by lia.
  replace (Z.succ 0) with (1 + 0) by lia. rewrite <-fmap_add_seqZ, <-list_fmap_compose. apply list_fmap_ext. intros. cbn. lia.
Qed.

Lemma idle_events_ok r n t c : 0 ≤ t → t + Z.of_nat n * tREFI < 2 ^ 62 → in_chan r (c, None) →
  rank_idle t (rank_at (ranks c) r) →
  ∃ c', idle_events r (3 * n) (c, None) = Ok (c', None) ∧
    rank_idle (t + Z.of_nat n * (tREFI - tRP)) (rank_at (ranks c') r) ∧
    power c' = reverse ((λ u, mkCmd REF r 0 u) <$> ref_ticks t n) ++ power c.
Proof.
  revert t c. induction n as [|n IH]; intros t c Ht Hb Hr Hi.
  { exists c. rewrite Z.mul_0_l, Z.add_0_r. done. }
  pose proof T as [T1 T2 T3]. rewrite Nat2Z.inj_succ, Z.mul_succ_l in Hb.
  assert (0 ≤ Z.of_nat n * tREFI) by (apply Z.mul_nonneg_nonneg; lia).
  destruct (idle_cycle_ok r t c (3 * n)) as (c1 & E1 & L1 & W1 & I1); [lia|done|done|].
  replace (3 * S n)%nat with (3 + 3 * n)%nat by lia. rewrite E1.
  destruct (IH (t + (tREFI - tRP)) c1) as (c2 & E2 & I2 & W2);
    [lia|lia|unfold in_chan in *; cbn in *; by rewrite L1|done|].
  exists c2. split; [done|]. split.
  - replace (t + Z.of_nat (S n) * (tREFI - tRP))
      with (t + (tREFI - tRP) + Z.of_nat n * (tREFI - tRP)) by lia. done.
  - rewrite W2, W1, ref_ticks_S. cbn [fmap list_fmap]. by rewrite reverse_cons, <-app_assoc.
Qed.

(** ** A rank with open rows *)

(** [rk] differs from [rk0] in banks, their count and the precharge event. *)
Definition pre_frame (rk0 rk : Rank) : Prop :=
  ∃ ks n e, rk = rk0 <| banks := ks |> <| numBanksActive := n |> <| prechargeEvent := e |>.

Definition later (e : event) (t : Tick) : event :=
  Some (match e with Some w => Z.max w t | None => t end).

(** After the first [k] banks have been precharged at [pre_at]. *)
Record pre_inv (pre_at : Tick) (k : nat) (rk0 rk : Rank) : Prop :=
  { pi_frame : pre_frame rk0 rk;
    pi_length : length (banks rk) = length (banks rk0);
    pi_closed : ∀ i b, banks rk !! i = Some b → (i < k)%nat → is_open b = false;
    pi_rest : ∀ i, (k ≤ i)%nat → banks rk !! i = banks rk0 !! i;
    pi_count : numBanksActive rk = count_open (banks rk);
    pi_event : prechargeEvent rk =
      if existsb is_open (take k (banks rk0)) then later (prechargeEvent rk0) (pre_at + tRP)
      else prechargeEvent rk0 }.

Lemma sched_later_eq now when e : now ≤ when → (∀ w, e = Some w → now ≤ w) →
  sched_later now when e = Ok (later e when).
Proof.
  intros H He. unfold sched_later, later. destruct e as [w|].
  - destruct (Z.ltb_spec w when).
    + unfold reschedule. rewrite !assert_bind by (cbn; done || lia). do 2 f_equal. lia.
    + do 2 f_equal. lia.
  - unfold schedule. by rewrite !assert_bind by (cbn; done || lia).
Qed.

Lemma later_later e t : later (later e t) t = later e t.
Proof. unfold later. f_equal. destruct e; lia. Qed.

Lemma bank_at_lookup rk k b : banks rk !! k = Some b → bank_in rk (Z.of_nat k) = b.
Proof. intros H. unfold bank_in. rewrite Nat2Z.id. by apply list_lookup_total_correct. Qed.

(** One bank more, in the rank. *)
Lemma pre_inv_next pre_at k rk0 rk f b n e :
  pre_inv pre_at k rk0 rk → banks rk0 !! k = Some b → is_open (f b) = false →
  n = count_open (alter f k (banks rk)) →
  e = (if existsb is_open (take k (banks rk0)) || is_open b
       then later (prechargeEvent rk0) (pre_at + tRP) else prechargeEvent rk0) →
  pre_inv pre_at (S k) rk0
    (rk <| banks ::= alter f k |> <| numBanksActive := n |> <| prechargeEvent := e |>).
Proof.
  intros [[ks [m [ev Hf]]] Hl Hc Hrest Hn He] Hb Hfb Hn' He'.
  assert (banks rk !! k = Some b) as Hk by (by rewrite Hrest). split; cbn.
  - clear -Hf. subst rk. by eexists _, _, _.
  - by rewrite length_alter.
  - intros i x. rewrite list_lookup_alter. case_decide as E.
    + subst. rewrite Hk. intros [= <-] _. done.
    + intros Hx Hi. eapply Hc; [exact Hx|lia].
  - intros i Hi. rewrite list_lookup_alter_ne by lia. apply Hrest. lia.
  - done.
  - rewrite (take_S_r _ _ _ Hb), existsb_app. cbn. by rewrite orb_false_r.
Qed.

(** One bank more, in the channel. *)
Lemma pre_one_step now pre_at k rk0 rk c r e b :
  in_chan r (c, e) → rank_at (ranks c) r = rk → pre_inv pre_at k rk0 rk →
  banks rk0 !! k = Some b → now ≤ pre_at → 0 ≤ tRP →
  (∀ w, prechargeEvent rk0 = Some w → now ≤ w) →
  ∃ c' rk', pre_one now r pre_at c (Z.of_nat k) = Ok c' ∧
    ranks c' = upd_rank r (λ _, rk') (ranks c) ∧ power c' = power c ∧
    activeRank c' = activeRank c ∧ pre_inv pre_at (S k) rk0 rk'.
Proof.
  intros Hr Hrk Hinv Hb Hnow Htrp Hw. pose proof Hinv as [_ Hl Hc Hrest Hn He].
  assert (banks rk !! k = Some b) as Hk by (by rewrite Hrest).
  unfold pre_one, bank_at. rewrite Hrk, (bank_at_lookup rk k b Hk).
  change (negb (openRow b =? NO_ROW)) with (is_open b). destruct (is_open b) eqn:Eo.
  - unfold prechargeBank. rewrite Hrk. unfold precharge_rank.
    rewrite (bank_at_lookup rk k b Hk). rewrite assert_bind by exact Eo.
    pose proof (filter_length_alter (close_bank pre_at) _ _ _ Hk) as Hcnt.
    rewrite Eo in Hcnt. change (is_open (close_bank pre_at b)) with false in Hcnt. cbn in Hcnt.
    pose proof (count_open_le (alter (close_bank pre_at) k (banks rk))) as Hle.
    rewrite assert_bind by (cbn; apply negb_true_iff, Z.eqb_neq; lia).
    rewrite (ok_bind _ _ (later (prechargeEvent rk0) (pre_at + tRP))).
    2: { cbn. rewrite sched_later_eq; [|lia|].
         - rewrite He. by destruct (existsb _ _); rewrite ?later_later.
         - rewrite He. intros w. destruct (existsb _ _); [|apply Hw].
           unfold later. intros [= <-]. destruct (prechargeEvent rk0); lia. }
    eexists _, (rk <| banks ::= alter (close_bank pre_at) k |>
      <| numBanksActive := Z.pred (numBanksActive rk) |> <| prechargeEvent := _ |>).
    split; [reflexivity|]. split; [unfold upd_bank; cbn; by rewrite Nat2Z.id|].
    split; [done|]. split; [done|]. eapply pre_inv_next; try done; [lia|].
    by rewrite Eo, orb_true_r.
  - set (f := λ b0 : Bank, b0 <| actAllowedAt := _ |> <| preAllowedAt := _ |>).
    exists (c <| ranks ::= upd_rank r (upd_bank (Z.of_nat k) f) |>),
      (rk <| banks ::= alter f k |> <| numBanksActive := numBanksActive rk |>
          <| prechargeEvent := prechargeEvent rk |>).
    split; [reflexivity|]. split; [|split; [done|split; [done|]]].
    + cbn. unfold upd_rank. rewrite <-Hrk. apply list_eq. intros i.
      rewrite !list_lookup_alter. case_decide as Ei; [|reflexivity].
      unfold rank_at, upd_bank. rewrite list_lookup_total_alt, Nat2Z.id.
      unfold in_chan in Hr. cbn in Hr. destruct (lookup_lt_is_Some_2 _ _ Hr) as [x Hx].
      rewrite Hx. reflexivity.
    + eapply pre_inv_next; try done; [|by rewrite Eo, orb_false_r].
      rewrite count_open_alter; [done|]. by intros [].
Qed.

(** All banks. *)
Lemma pre_all_ok now pre_at r e m k rk0 rk c :
  in_chan r (c, e) → rank_at (ranks c) r = rk → pre_inv pre_at k rk0 rk →
  (k + m)%nat = length (banks rk0) → now ≤ pre_at → 0 ≤ tRP →
  (∀ w, prechargeEvent rk0 = Some w → now ≤ w) →
  ∃ c' rk', foldM (pre_one now r pre_at) c (seqZ (Z.of_nat k) (Z.of_nat m)) = Ok c' ∧
    ranks c' = upd_rank r (λ _, rk') (ranks c) ∧ power c' = power c ∧
    activeRank c' = activeRank c ∧ pre_inv pre_at (length (banks rk0)) rk0 rk'.
Proof.
  revert k rk c. induction m as [|m IH]; intros k rk c Hr Hrk Hinv Hm Hn Ht Hw.
  - exists c, rk. rewrite Nat.add_0_r in Hm. subst k. split; [done|]. split; [|done].
    unfold upd_rank. rewrite <-Hrk. apply list_eq. intros i. rewrite list_lookup_alter.
    case_decide as Ei; [|done]. subst i. unfold rank_at. rewrite list_lookup_total_alt.
    by destruct (ranks c !! Z.to_nat r).
  - destruct (lookup_lt_is_Some_2 (banks rk0) k) as [b Hb]; [lia|].
    destruct (pre_one_step now pre_at k rk0 rk c r e b) as (c1 & rk1 & E1 & R1 & W1 & A1 & I1); try done.
    rewrite seqZ_cons by lia. cbn [foldM]. rewrite E1. cbn [mbind res_bind].
    replace (Z.succ (Z.of_nat k)) with (Z.of_nat (S k)) by lia.
    replace (Z.pred (Z.of_nat (S m))) with (Z.of_nat m) by lia.
    assert (in_chan r (c1, e)) as Hr1 by (unfold in_chan in *; cbn in *; by rewrite R1, length_upd_rank).
    destruct (IH (S k) rk1 c1) as (c2 & rk2 & E2 & R2 & W2 & A2 & I2); try done; [|lia|].
    { rewrite R1. by rewrite rank_at_upd_same. }
    exists c2, rk2. rewrite R2, R1, upd_upd, W2, W1, A2, A1. done.
Qed.

Record rank_active (t : Tick) (rk : Rank) : Prop :=
  { ra_refresh : refreshState rk = REF_IDLE;
    ra_power : pwrState rk = PWR_ACT;
    ra_banks : numBanksActive rk = count_open (banks rk);
    ra_event : powerEvent rk = None;
    ra_due : refreshEvent rk = Some t;
    ra_pre : ∀ w, prechargeEvent rk = Some w → t ≤ w;
    ra_closed : count_open (banks rk) = 0 → is_Some (prechargeEvent rk) }.

(** The events of a refresh of an active rank: it falls due at [t]; the last
    precharge completes; the power machine passes through the idle state into
    the refresh and leaves it after tRFC. *)
Definition active_cycle (r : Z) (t : Tick) (c : Chan) : res (Chan * Tick) :=
  s ← processRefreshEvent t r (c, None);
  match prechargeEvent (get_rank s r) with
  | None => Fault (Panic "no precharge event")
  | Some w =>
      s ← processPrechargeEvent w r s;
      s ← processPowerEvent w r s;
      s ← processPowerEvent (w + tRFC) r s;
      Ok (s.1, w)
  end.

(** When the last precharge is done. *)
Definition precharged_at (t : Tick) (rk : Rank) : event :=
  if existsb is_open (banks rk) then later (prechargeEvent rk) (pre_all_at t rk + tRP)
  else prechargeEvent rk.

Lemma pre_all_at_ge t ks x :
  let m := foldl (λ t (k : Bank), Z.max (preAllowedAt k) t) t ks in
  t ≤ m ∧ (x ∈ ks → preAllowedAt x ≤ m).
Proof.
  revert t. induction ks as [|k ks IH]; intros t; cbn; [split; [lia|set_solver]|].
  destruct (IH (Z.max (preAllowedAt k) t)) as [H1 H2]. split; [lia|].
  intros [->|Hx]%elem_of_cons; [lia|by apply H2].
Qed.

Lemma all_closed_count ks : (∀ i b, ks !! i = Some b → is_open b = false) → count_open ks = 0.
Proof.
  intros H. unfold count_open. assert (List.filter is_open ks = []) as ->; [|done].
  induction ks as [|k ks IH]; [done|]. cbn. rewrite (H 0%nat k) by done.
  apply IH. intros i b Hb. by apply (H (S i)).
Qed.

Lemma due_active_ok r t c : 0 ≤ tRP → in_chan r (c, None) → rank_active t (rank_at (ranks c) r) →
  let rk := rank_at (ranks c) r in
  ∃ c1 rk1, processRefreshEvent t r (c, None) = Ok (set_rank r rk1 (c1, None)) ∧
    ranks c1 = ranks c ∧ power c1 = mkCmd PREA r 0 (pre_all_at t rk) :: power c ∧
    refreshState rk1 = REF_RUN ∧ pwrState rk1 = PWR_ACT ∧ powerEvent rk1 = None ∧
    refreshEvent rk1 = None ∧ refreshDueAt rk1 = t ∧ numBanksActive rk1 = 0 ∧
    Forall (λ b, is_open b = false) (banks rk1) ∧ prechargeEvent rk1 = precharged_at t rk.
Proof.
  intros Htrp Hr [A1 A2 A3 A4 A5 A6 A7] rk. fold rk in A1, A2, A3, A4, A5, A6, A7.
  unfold processRefreshEvent, refresh_body. gs.
  change (get_rank (c, None) r) with rk. rewrite bool_decide_eq_true_2 by exact A1.
  unfold refresh_loop. gs. rewrite bool_decide_eq_true_2 by done. rewrite andb_false_r.
  set (rk0 := rk <| refreshEvent := None |> <| refreshDueAt := t |> <| refreshState := REF_DRAIN |>
    <| refreshState := REF_PRE |>).
  unfold refresh_pre. gs. rewrite bool_decide_eq_false_2 by (cbn; rewrite A2; done). cbn [negb].
  change (pre_all_at t rk0) with (pre_all_at t rk).
  set (c0 := (set_rank r rk0 (c, None)).1).
  assert (in_chan r (c0, None)) as Hr0 by (apply (in_chan_set r r rk0 (c, None) Hr)).
  assert (rank_at (ranks c0) r = rk0) as Hrk0 by (by apply rank_at_set).
  destruct (pre_all_ok t (pre_all_at t rk) r None (length (banks rk0)) 0 rk0 rk0 c0)
    as (c1 & rk1 & E1 & R1 & W1 & _ & [[ks [n [e Hf]]] Hl Hc Hrest Hn He]); try done.
  { split; try done; try (intros; lia). exists (banks rk0), (numBanksActive rk0), (prechargeEvent rk0).
    by destruct rk. }
  { apply (pre_all_at_ge t (banks rk) (bank_in rk 0)). }
  rewrite (ok_bind _ _ c1) by exact E1. cbn [mbind res_bind].
  assert (get_rank (log_cmd (mkCmd PREA r 0 (pre_all_at t rk)) (c1, None)) r = rk1) as Eg.
  { unfold get_rank. cbn. rewrite R1. by rewrite rank_at_upd_same. }
  change (snd (set_rank r rk0 (c, None))) with (None : event). rewrite Eg.
  rewrite take_ge in He by done.
  assert (numBanksActive rk1 = 0) as Hz.
  { rewrite Hn. apply all_closed_count. intros i b Hb. eapply Hc; [exact Hb|].
    rewrite <-Hl. by eapply lookup_lt_Some. }
  rewrite assert_bind by (cbn; by rewrite Hz).
  exists (c <| power ::= cons (mkCmd PREA r 0 (pre_all_at t rk)) |>
            <| busBusyUntil := busBusyUntil c1 |> <| activeRank := activeRank c1 |>
            <| nextReqTime := nextReqTime c1 |> <| readsThisTime := readsThisTime c1 |>
            <| writesThisTime := writesThisTime c1 |> <| chstats := chstats c1 |>),
    (rk1 <| refreshState := REF_RUN |>).
  split.
  { f_equal. unfold set_rank, log_cmd. cbn. f_equal. destruct c1. cbn in *. f_equal.
    - rewrite R1. unfold c0. cbn. by rewrite !upd_upd.
    - by rewrite W1. }
  rewrite Hf. cbn. split_and!; try done.
  - clear -Hf Hz. subst rk1. exact Hz.
  - apply Forall_lookup. intros i b Hb. clear -Hf Hc Hl Hb. subst rk1. cbn in *.
    eapply Hc; [exact Hb|]. rewrite <-Hl. by eapply lookup_lt_Some.
  - clear -Hf He. subst rk1. exact He.
Qed.

Lemma precharge_event_ok r w c rk : in_chan r (c, None) → numBanksActive rk = 0 →
  powerEvent rk = None →
  processPrechargeEvent w r (set_rank r rk (c, None)) =
    Ok (set_rank r (rk <| prechargeEvent := None |> <| pwrStateTrans := PWR_IDLE |>
                       <| powerEvent := Some w |>) (c, None)).
Proof.
  intros Hr Hb Hp. unfold processPrechargeEvent. gs. cbn [numBanksActive].
  change (numBanksActive (rk <| prechargeEvent := None |>)) with (numBanksActive rk). rewrite Hb.
  cbn [Z.eqb]. rewrite schedulePowerEvent_ok by (done || lia). cbn [mbind res_bind]. by gs.
Qed.

Lemma active_cycle_ok r t c w : 0 ≤ t < 2 ^ 62 → in_chan r (c, None) →
  let rk := rank_at (ranks c) r in
  rank_active t rk → precharged_at t rk = Some w → t ≤ w → w + tRFC ≤ t + (tREFI - tRP) →
  ∃ c', active_cycle r t c = Ok (c', w) ∧
    power c' = mkCmd REF r 0 w :: mkCmd PREA r 0 (pre_all_at t rk) :: power c ∧
    rank_idle (t + (tREFI - tRP)) (rank_at (ranks c') r) ∧
    Forall (λ b, is_open b = false ∧ actAllowedAt b = w + tRFC) (banks (rank_at (ranks c') r)).
Proof.
  intros Ht Hr rk Ha Hw Htw Hroom. destruct T as [T1 T2 T3]. unfold active_cycle.
  destruct (due_active_ok r t c) as (c1 & rk1 & -> & R1 & W1 & B1 & B2 & B3 & B4 & B5 & B6 & B7 & B8);
    [lia|done|done|].
  assert (in_chan r (c1, None)) as Hr1 by (unfold in_chan in *; cbn in *; by rewrite R1).
  cbn [mbind res_bind]. gs. rewrite B8. fold rk. rewrite Hw.
  rewrite precharge_event_ok by done. cbn [mbind res_bind].
  set (rk2 := rk1 <| prechargeEvent := None |> <| pwrStateTrans := PWR_IDLE |> <| powerEvent := Some w |>).
  destruct (power_start_ok w r c1 None rk2) as (c2 & (R2 & W2 & _) & ->); try done.
  { cbn. lia. } { cbn. lia. } { cbn. lia. } { by right. }
  cbn [mbind res_bind]. set (rk3 := refreshing w _).
  set (c2' := c2 <| power ::= cons (mkCmd REF r 0 w) |>).
  assert (in_chan r (c2', None)) as Hr2 by (unfold in_chan in *; cbn in *; by rewrite R2).
  destruct (power_end_ok (w + tRFC) r c2' None rk3 Hr2) as (c3 & e3 & (R3 & W3 & _) & _ & E3); [done..|].
  change (log_cmd (mkCmd REF r 0 w) (c2, None)) with (c2', None : event).
  rewrite E3. cbn [mbind res_bind]. set (rk4 := rk3 <| powerEvent := None |> <| pwrState := PWR_IDLE |> <| pwrStateTick := _ |> <| refreshState := _ |>).
  assert (ranks c3 = ranks c) as R by (cbn in R3; by rewrite R3, R2, R1).
  eexists. split; [reflexivity|]. rewrite (ranks_set r rk4 c c3 None e3 R).
  rewrite rank_at_set by done. split; [cbn; rewrite W3; cbn; by rewrite W2, W1|].
  split; [split; try done; cbn; by rewrite B5|]. cbn. rewrite Forall_fmap.
  eapply Forall_impl; [exact B7|]. by intros b Hb.
Qed.
End refresh.

(** C31: an idle rank refreshes for ever and on time.  If the refresh event of a rank
    without traffic is scheduled for [due], then its next [3 * n] events, each taken
    from the events that the handlers have scheduled and at their ticks, run without
    an assertion, panic or fatal error; they issue [n] refresh commands, the first at
    [due] and the others tREFI - tRP after the one before; and the refresh event is
    scheduled tREFI - tRP after the last.  The precharge time is thus subtracted in
    every period, not only in the first, so the rank is refreshed more often than once
    per tREFI. *)
Theorem refresh_period `{P : DRAMParams} r due n c :
  refresh_timing → 0 ≤ due → due + Z.of_nat n * tREFI < 2 ^ 62 → in_chan r (c, None) →
  rank_idle due (rank_at (ranks c) r) →
  ∃ c', idle_events r (3 * n) (c, None) = Ok (c', None) ∧
    power c' = reverse ((λ k, mkCmd REF r 0 (due + k * (tREFI - tRP))) <$> seqZ 0 (Z.of_nat n)) ++ power c ∧
    refreshEvent (rank_at (ranks c') r) = Some (due + Z.of_nat n * (tREFI - tRP)).
Proof.
  intros HT Hd Hb Hr Hi. destruct (idle_events_ok HT r n due c Hd Hb Hr Hi) as (c' & E & I & W).
  exists c'. split; [done|]. split; [|by apply ri_due]. rewrite W. unfold ref_ticks. by rewrite <-list_fmap_compose.
Qed.


(** The stacked DRAM at startup, with the rank 0 due, and with a row open. *)
Definition ex_rank : Rank := new_rank <| banks := replicate 4 new_bank |>.
Definition ex_idle (due : Tick) : Chan :=
  mkChan [ex_rank <| refreshEvent := Some due |>] 0 0 0 0 0 [] ∅.
Definition ex_open_rank (due : Tick) : Rank :=
  ex_rank <| refreshEvent := Some due |> <| pwrState := PWR_ACT |> <| numBanksActive := 1 |>
    <| banks ::= alter (λ k : Bank, k <| openRow := 7 |> <| preAllowedAt := due + 500 |>) 2%nat |>.
Definition ex_open (due : Tick) : Chan := mkChan [ex_open_rank due] 0 0 0 0 0 [] ∅.

Lemma HMC_refresh : @refresh_timing HMC_2500_x32_Cache.
Proof. split; cbn; lia. Qed.

(** The stacked DRAM from startup at tick 0: the next three refreshes of rank 5. *)
Lemma refresh_period_witness :
  let P := HMC_2500_x32_Cache in
  ∃ c c', DramInit.startup 0 DramInit.new_chan = Ok c ∧ idle_events 5 9 (c, None) = Ok (c', None) ∧
    power c' = mkCmd REF 5 0 11676900 :: mkCmd REF 5 0 7784600 :: mkCmd REF 5 0 3892300 :: power c ∧
    refreshEvent (rank_at (ranks c') 5) = Some 15569200.
Proof.
  intros P. destruct (DramInit.startup 0 DramInit.new_chan) as [c|] eqn:Ec; [|vm_compute in Ec; discriminate].
  vm_compute in Ec. injection Ec as <-. eexists.
  match goal with |- context [Ok ?x = Ok _] =>
    destruct (@refresh_period HMC_2500_x32_Cache 5 3892300 3 x HMC_refresh) as (c' & E & W & F) end.
  - lia.
  - vm_compute. reflexivity.
  - unfold in_chan. cbn. lia.
  - split; reflexivity.
  - exists c'. split; [reflexivity|]. split; [exact E|]. split; [exact W|exact F].
Defined.

End DramRefreshProofs.
