(* ===== verification/Mshr.v ===== *)
(** * Miss status and handling registers (mem/cache/mshr.hh, mshr.cc)

    An [MSHR] collects the requests (targets) that wait for one block.  The
    upstream flag [downstreamPending] of another cache's register, found through
    [findNextSenderState<MSHR>], does not occur: the packets that reach the DRAM
    cache come from Ruby, whose sender states are no MSHRs, so the lookup
    returns NULL. *)

From S2P Require Import Prelude Packet.
Import MemCmd Packet.

Module Mshr.

Inductive Source : Set := FromCPU | FromSnoop | FromPrefetcher.
#[export] Instance Source_eq_dec : EqDecision Source.
Proof. solve_decision. Defined.

Record Target := mkTarget
  { recvTime : Tick; t_readyTime : Tick; t_order : Z; t_pkt : Packet;
    source : Source; markedPending : bool }.
#[export] Instance eta_Target : Eta Target := λ t,
  mkTarget (recvTime t) (t_readyTime t) (t_order t) (t_pkt t) (source t) (markedPending t).

Record TargetList := mkTargets
  { tlist : list Target; tl_needsExclusive : bool; hasUpgrade : bool }.
#[export] Instance eta_TargetList : Eta TargetList := λ t,
  mkTargets (tlist t) (tl_needsExclusive t) (hasUpgrade t).

Definition no_targets : TargetList := mkTargets [] false false.
Definition resetFlags (t : TargetList) : TargetList := mkTargets (tlist t) false false.
Definition isReset (t : TargetList) : bool := negb (tl_needsExclusive t) && negb (hasUpgrade t).

(** [TargetList::add]. *)
Definition tl_add (now : Tick) (pkt : Packet) (ready : Tick) (order : Z) (src : Source)
    (markPending : bool) (t : TargetList) : TargetList :=
  let t :=
    if bool_decide (src = FromSnoop) then t
    else
      let t := if needsExclusive (cmd pkt) then t <| tl_needsExclusive := true |> else t in
      if isUpgrade (cmd pkt) || bool_decide (cmd pkt = StoreCondReq)
      then t <| hasUpgrade := true |> else t in
  t <| tlist ::= λ l, l ++ [mkTarget now ready order pkt src markPending] |>.

#[global] Arguments tl_add : simpl never.

(** [replaceUpgrade] and [TargetList::replaceUpgrades]. *)
Definition replaceUpgrade (pkt : Packet) : Packet :=
  match cmd pkt with
  | UpgradeReq => pkt <| cmd := ReadExReq |>
  | SCUpgradeReq => pkt <| cmd := SCUpgradeFailReq |>
  | StoreCondReq => pkt <| cmd := StoreCondFailReq |>
  | _ => pkt
  end.
Definition replaceUpgrades (t : TargetList) : TargetList :=
  if negb (hasUpgrade t) then t
  else t <| tlist ::= fmap (λ x, x <| t_pkt ::= replaceUpgrade |>) |> <| hasUpgrade := false |>.

Record MSHR := mkMSHR
  { m_readyTime : Tick;
    m_isUncacheable : bool;
    downstreamPending : bool;
    pendingDirty : bool;
    postInvalidate : bool;
    postDowngrade : bool;
    m_order : Z;
    blkAddr : Addr;
    blkSize : Z;
    m_isSecure : bool;
    inService : bool;
    isForward : bool;
    threadNum : Z;
    targets : TargetList;
    deferredTargets : TargetList }.
#[export] Instance eta_MSHR : Eta MSHR := λ m,
  mkMSHR (m_readyTime m) (m_isUncacheable m) (downstreamPending m) (pendingDirty m)
    (postInvalidate m) (postDowngrade m) (m_order m) (blkAddr m) (blkSize m)
    (m_isSecure m) (inService m) (isForward m) (threadNum m) (targets m) (deferredTargets m).

(** The constructor; [InvalidThreadID] is -1. *)
Definition new_MSHR : MSHR :=
  mkMSHR 0 false false false false false 0 0 0 false false false (-1) no_targets no_targets.
#[export] Instance MSHR_inhabited : Inhabited MSHR := populate new_MSHR.

Definition getNumTargets (m : MSHR) : Z :=
  Z.of_nat (length (tlist (targets m)) + length (tlist (deferredTargets m))).
Definition hasTargets (m : MSHR) : bool := negb (bool_decide (tlist (targets m) = [])).

(** [getTarget] asserts that there is one; [popTarget] does not. *)
Definition getTarget (m : MSHR) : res Target :=
  match tlist (targets m) with
  | t :: _ => Ok t
  | [] => Fault (AssertFail "hasTargets()")
  end.
Definition popTarget (m : MSHR) : MSHR := m <| targets ::= λ t, t <| tlist ::= tail |> |>.

(** The accessors of the flags that are valid only in service. *)
Definition isPendingDirty (m : MSHR) : res bool :=
  assert (inService m) "inService";; Ok (pendingDirty m).
Definition hasPostInvalidate (m : MSHR) : res bool :=
  assert (inService m) "inService";; Ok (postInvalidate m).
Definition hasPostDowngrade (m : MSHR) : res bool :=
  assert (inService m) "inService";; Ok (postDowngrade m).

Definition m_allocate (now : Tick) (blk_addr : Addr) (blk_size : Z) (target : Packet)
    (when_ready : Tick) (order : Z) (m : MSHR) : res MSHR :=
  let m := m <| blkAddr := blk_addr |> <| blkSize := blk_size |>
             <| m_isSecure := isSecure target |> <| m_readyTime := when_ready |>
             <| m_order := order |> <| isForward := false |>
             <| m_isUncacheable := isUncacheable target |> <| inService := false |>
             <| downstreamPending := false |> <| threadNum := 0 |> in
  assert (isReset (targets m)) "targets.isReset()";;
  let src := if bool_decide (cmd target = HardPFReq) then FromPrefetcher else FromCPU in
  let m := m <| targets ::= tl_add now target when_ready order src true |> in
  assert (isReset (deferredTargets m)) "deferredTargets.isReset()";;
  Ok m.

Definition isForwardNoResponse (m : MSHR) : bool :=
  (getNumTargets m =? 1) &&
  match tlist (targets m) with
  | t :: _ => bool_decide (source t = FromCPU) && negb (needsResponse (cmd (t_pkt t)))
  | [] => false
  end.

(** [markInService]: true if the register was only forwarding and is done. *)
Definition m_markInService (pending_dirty_resp : bool) (m : MSHR) : res (bool * MSHR) :=
  assert (negb (inService m)) "!inService";;
  if isForwardNoResponse m then
    assert (getNumTargets m =? 1) "getNumTargets() == 1";;
    Ok (true, popTarget m)
  else
    Ok (false, m <| inService := true |>
                 <| pendingDirty := tl_needsExclusive (targets m) || pending_dirty_resp |>
                 <| postInvalidate := false |> <| postDowngrade := false |>).

Definition m_deallocate (m : MSHR) : res MSHR :=
  assert (negb (hasTargets m)) "targets.empty()";;
  let m := m <| targets ::= resetFlags |> in
  assert (isReset (deferredTargets m)) "deferredTargets.isReset()";;
  Ok (m <| inService := false |>).

(** Whether a new target has to wait for the response in flight. *)
Definition must_defer (pkt : Packet) (m : MSHR) : bool :=
  inService m &&
  (negb (bool_decide (tlist (deferredTargets m) = [])) || postInvalidate m ||
   (needsExclusive (cmd pkt) &&
    (negb (pendingDirty m) || postDowngrade m || isForward m))).

Definition allocateTarget (now : Tick) (pkt : Packet) (whenReady : Tick) (order : Z) (m : MSHR)
    : res MSHR :=
  assert (negb (bool_decide (cmd pkt = HardPFReq))) "pkt->cmd != MemCmd::HardPFReq";;
  assert (negb (m_isUncacheable m)) "!_isUncacheable";;
  if must_defer pkt m then
    let pkt := if postInvalidate m then replaceUpgrade pkt else pkt in
    Ok (m <| deferredTargets ::= tl_add now pkt whenReady order FromCPU true |>)
  else
    Ok (m <| targets ::= tl_add now pkt whenReady order FromCPU (negb (inService m)) |>).

Definition promoteDeferredTargets (now : Tick) (m : MSHR) : res (bool * MSHR) :=
  assert (bool_decide (tlist (targets m) = [])) "targets.empty()";;
  match tlist (deferredTargets m) with
  | [] => Ok (false, m)
  | t :: _ =>
      Ok (true, m <| targets := deferredTargets m |> <| deferredTargets := resetFlags (targets m) |>
                  <| m_order := t_order t |> <| m_readyTime := Z.max now (t_readyTime t) |>)
  end.

(** ** Facts *)

(** The flags of a target list summarise its CPU targets: no target needs an
    exclusive copy unless the flag says so. *)
Definition flags_ok (t : TargetList) : Prop :=
  ∀ x, x ∈ tlist t → source x ≠ FromSnoop → needsExclusive (cmd (t_pkt x)) = true →
  tl_needsExclusive t = true.

Lemma tl_add_flags now pkt r o src mp t :
  flags_ok t → flags_ok (tl_add now pkt r o src mp t).
Proof.
  intros H x. unfold tl_add. cbn. case_bool_decide as Es; subst.
  - intros [Hx| ->%list_elem_of_singleton]%elem_of_app; cbn; [by apply H|congruence].
  - intros [Hx| ->%list_elem_of_singleton]%elem_of_app; cbn.
    + intros Hs Hn. specialize (H x). destruct (needsExclusive (cmd pkt));
        destruct (isUpgrade _ || _); cbn in *; auto.
    + intros _ ->. by destruct (isUpgrade _ || _).
Qed.

Lemma tlist_tl_add now pkt r o src mp t :
  tlist (tl_add now pkt r o src mp t) = tlist t ++ [mkTarget now r o pkt src mp].
Proof.
  unfold tl_add. case_bool_decide; [done|].
  by destruct (needsExclusive (cmd pkt)), (isUpgrade _ || _).
Qed.

Lemma tl_add_read now pkt r o src mp t :
  needsExclusive (cmd pkt) = false → isUpgrade (cmd pkt) = false → cmd pkt ≠ StoreCondReq →
  isReset (tl_add now pkt r o src mp t) = isReset t.
Proof.
  intros H1 H2 H3. unfold tl_add. rewrite H1, H2, (bool_decide_eq_false_2 (cmd pkt = StoreCondReq)) by done.
  by case_bool_decide.
Qed.

Lemma m_allocate_ok now a sz pkt ready o m :
  isReset (targets m) = true → isReset (deferredTargets m) = true →
  ∃ m', m_allocate now a sz pkt ready o m = Ok m' ∧
    blkAddr m' = a ∧ m_order m' = o ∧ m_readyTime m' = ready ∧ inService m' = false ∧
    m_isSecure m' = isSecure pkt ∧ m_isUncacheable m' = isUncacheable pkt ∧
    deferredTargets m' = deferredTargets m ∧
    ∃ src, targets m' = tl_add now pkt ready o src true (targets m).
Proof.
  intros Ht Hd. unfold m_allocate. rewrite assert_bind by exact Ht.
  rewrite assert_bind by exact Hd. eexists. split; [reflexivity|]. split_and!; eauto.
Qed.
End Mshr.
