(* ===== verification/MshrQueue.v ===== *)
(** * Queues of MSHRs (mem/cache/mshr_queue.hh, mshr_queue.cc)

    A queue owns a vector of registers, named by their index, and three lists of
    them: free, allocated, and ready to be sent.  The theorems state the
    invariant that ties the lists and counters together, that every operation
    keeps it and runs into no assertion, and that a queue that is not full can
    always allocate. *)

From S2P Require Import Prelude Packet Mshr.
Import MemCmd Packet Mshr.

Module MshrQueue.

Record MSHRQueue := mkQueue
  { numEntries : Z;
    numReserve : Z;
    demandReserve : Z;
    registers : list MSHR;
    allocatedList : list nat;
    readyList : list nat;
    freeList : list nat;
    allocated : Z;
    inServiceEntries : Z;
    qindex : Z;
    draining : bool;         (** [drainState() == DrainState::Draining] *)
    drainSignalled : Z       (** calls of [signalDrainDone] *) }.
#[export] Instance eta_MSHRQueue : Eta MSHRQueue := λ q,
  mkQueue (numEntries q) (numReserve q) (demandReserve q) (registers q) (allocatedList q)
    (readyList q) (freeList q) (allocated q) (inServiceEntries q) (qindex q) (draining q)
    (drainSignalled q).

Definition new_queue (num_entries reserve demand_reserve index : Z) : MSHRQueue :=
  let n := num_entries + reserve - 1 in
  mkQueue n reserve demand_reserve (replicate (Z.to_nat n) new_MSHR) [] []
    (seq 0 (Z.to_nat n)) 0 0 index false 0.

Definition reg (q : MSHRQueue) (i : nat) : MSHR := registers q !!! i.
Definition upd_reg (i : nat) (m : MSHR) (q : MSHRQueue) : MSHRQueue :=
  q <| registers ::= <[i := m]> |>.
(** [list.erase(iter)] for the iterator of register [i]. *)
Definition erase (i : nat) (l : list nat) : list nat := List.filter (λ j, negb (Nat.eqb j i)) l.

Definition matches (blk_addr : Addr) (is_secure : bool) (m : MSHR) : bool :=
  (blkAddr m =? blk_addr) && Bool.eqb (m_isSecure m) is_secure.

Definition findMatch (blk_addr : Addr) (is_secure : bool) (q : MSHRQueue) : option nat :=
  snd <$> list_find (λ i, Is_true (negb (m_isUncacheable (reg q i)) &&
                                   matches blk_addr is_secure (reg q i))) (allocatedList q).
Definition findMatches (blk_addr : Addr) (is_secure : bool) (q : MSHRQueue) : list nat :=
  List.filter (λ i, negb (m_isUncacheable (reg q i)) &&
                    matches blk_addr is_secure (reg q i)) (allocatedList q).
Definition findPending (blk_addr : Addr) (is_secure : bool) (q : MSHRQueue) : option nat :=
  snd <$> list_find (λ i, Is_true (matches blk_addr is_secure (reg q i))) (readyList q).

(** [addToReadyList]: at the end, or before the first later register. *)
Fixpoint insert_before (q : MSHRQueue) (i : nat) (l : list nat) : res (list nat) :=
  match l with
  | [] => Fault (AssertFail "false")
  | j :: l =>
      if m_readyTime (reg q i) <? m_readyTime (reg q j) then Ok (i :: j :: l)
      else l' ← insert_before q i l; Ok (j :: l')
  end.
Definition addToReadyList (i : nat) (q : MSHRQueue) : res MSHRQueue :=
  match last (readyList q) with
  | None => Ok (q <| readyList := [i] |>)
  | Some j =>
      if m_readyTime (reg q j) <=? m_readyTime (reg q i)
      then Ok (q <| readyList ::= λ l, l ++ [i] |>)
      else l ← insert_before q i (readyList q); Ok (q <| readyList := l |>)
  end.

Definition allocate (now : Tick) (blk_addr : Addr) (blk_size : Z) (pkt : Packet)
    (when_ready : Tick) (order : Z) (q : MSHRQueue) : res (nat * MSHRQueue) :=
  match freeList q with
  | [] => Fault (AssertFail "!freeList.empty()")
  | i :: free =>
      assert (getNumTargets (reg q i) =? 0) "mshr->getNumTargets() == 0";;
      m ← m_allocate now blk_addr blk_size pkt when_ready order (reg q i);
      let q := upd_reg i m (q <| freeList := free |>) in
      let q := q <| allocatedList ::= λ l, l ++ [i] |> in
      q ← addToReadyList i q;
      Ok (i, q <| allocated ::= Z.succ |>)
  end.

(** [deallocate] and [deallocateOne]. *)
Definition deallocate (i : nat) (q : MSHRQueue) : res MSHRQueue :=
  let q := q <| allocatedList ::= erase i |> <| freeList ::= cons i |>
             <| allocated ::= Z.pred |> in
  let q := if inService (reg q i) then q <| inServiceEntries ::= Z.pred |>
           else q <| readyList ::= erase i |> in
  m ← m_deallocate (reg q i);
  let q := upd_reg i m q in
  Ok (if draining q && (allocated q =? 0) then q <| drainSignalled ::= Z.succ |> else q).

Definition moveToFront (i : nat) (q : MSHRQueue) : MSHRQueue :=
  if inService (reg q i) then q else q <| readyList ::= λ l, i :: erase i l |>.

Definition markInService (i : nat) (pending_dirty_resp : bool) (q : MSHRQueue)
    : res MSHRQueue :=
  bm ← m_markInService pending_dirty_resp (reg q i);
  let '(b, m) := bm in
  let q := upd_reg i m q in
  if b : bool then deallocate i q
  else Ok (q <| readyList ::= erase i |> <| inServiceEntries ::= Z.succ |>).

Definition markPending (i : nat) (q : MSHRQueue) : res MSHRQueue :=
  assert (inService (reg q i)) "mshr->inService";;
  let q := upd_reg i ((reg q i) <| inService := false |>) q in
  addToReadyList i (q <| inServiceEntries ::= Z.pred |>).

Definition isFull (q : MSHRQueue) : bool := numEntries q - numReserve q <? allocated q.
Definition havePending (q : MSHRQueue) : bool := negb (bool_decide (readyList q = [])).
Definition canPrefetch (q : MSHRQueue) : bool :=
  allocated q <? numEntries q - (numReserve q + demandReserve q).

Definition forceDeallocateTarget (now : Tick) (i : nat) (q : MSHRQueue) : res (bool * MSHRQueue) :=
  let was_full := isFull q in
  assert (hasTargets (reg q i)) "mshr->hasTargets()";;
  let q := upd_reg i (popTarget (reg q i)) q in
  if hasTargets (reg q i) then Ok (was_full && negb (isFull q), q)
  else
    bm ← promoteDeferredTargets now (reg q i);
    let '(promoted, m) := bm in
    let q := upd_reg i m q in
    q ← (if promoted : bool then Ok q else deallocate i q);
    Ok (was_full && negb (isFull q), q).

Definition getNextMSHR (now : Tick) (q : MSHRQueue) : option nat :=
  match readyList q with
  | i :: _ => if now <? m_readyTime (reg q i) then None else Some i
  | [] => None
  end.
Definition nextMSHRReadyTime (q : MSHRQueue) : Tick :=
  match readyList q with i :: _ => m_readyTime (reg q i) | [] => MaxTick end.
Definition q_drain (q : MSHRQueue) : bool := allocated q =? 0.

(** ** Invariant *)

Record queue_ok (q : MSHRQueue) : Prop :=
  { qo_regs : Z.of_nat (length (registers q)) = numEntries q;
    qo_part : freeList q ++ allocatedList q ≡ₚ seq 0 (length (registers q));
    qo_ready : readyList q ≡ₚ
      List.filter (λ i, negb (inService (reg q i))) (allocatedList q);
    qo_allocated : allocated q = Z.of_nat (length (allocatedList q));
    qo_service : inServiceEntries q = allocated q - Z.of_nat (length (readyList q));
    qo_free : ∀ i, i ∈ freeList q → getNumTargets (reg q i) = 0 ∧
      isReset (targets (reg q i)) = true ∧ inService (reg q i) = false;
    qo_deferred : ∀ i, tlist (deferredTargets (reg q i)) = [] →
      isReset (deferredTargets (reg q i)) = true }.

(** The ready list is in the order of the ready times. *)
Definition earlier (q : MSHRQueue) (i j : nat) : Prop :=
  m_readyTime (reg q i) ≤ m_readyTime (reg q j).
Definition ready_sorted (q : MSHRQueue) : Prop := StronglySorted (earlier q) (readyList q).

(** ** Lists of registers *)

Lemma reg_upd i j m q :
  (i < length (registers q))%nat →
  reg (upd_reg i m q) j = if decide (j = i) then m else reg q j.
Proof.
  intros Hi. unfold reg, upd_reg; cbn. rewrite !list_lookup_total_alt, list_lookup_insert.
  case_decide as E; case_decide as E'; try done; [destruct E; done|].
  destruct E; split; [done|lia].
Qed.

Lemma elem_of_erase i j l : j ∈ erase i l ↔ j ∈ l ∧ j ≠ i.
Proof.
  unfold erase. rewrite !list_elem_of_In, filter_In.
  destruct (Nat.eqb_spec j i); cbn; naive_solver.
Qed.

Lemma erase_notin i l : i ∉ l → erase i l = l.
Proof.
  unfold erase. induction l as [|j l IH]; [done|]. intros [H1 H2]%not_elem_of_cons.
  cbn. destruct (Nat.eqb_spec j i); [congruence|]. cbn. by rewrite IH.
Qed.

Lemma erase_perm i l : NoDup l → i ∈ l → l ≡ₚ i :: erase i l.
Proof.
  unfold erase. induction 1 as [|j l Hj Hl IH]; [by intros ?%not_elem_of_nil|].
  intros [->|Hi]%elem_of_cons; cbn.
  - rewrite Nat.eqb_refl. cbn. fold (erase j l). by rewrite erase_notin.
  - destruct (Nat.eqb_spec j i); [congruence|]. cbn. rewrite IH at 1 by done. constructor.
Qed.

Lemma erase_sorted R i l : StronglySorted R l → StronglySorted R (erase i l).
Proof.
  unfold erase. induction 1 as [|j l Hl IH Hj]; cbn; [constructor|].
  case_match; [|done]. constructor; [done|].
  rewrite Forall_forall in *. intros x Hx. apply Hj.
  rewrite list_elem_of_In, filter_In, <-list_elem_of_In in Hx. by destruct Hx.
Qed.

Lemma length_erase i l : (length (erase i l) ≤ length l)%nat.
Proof. apply filter_length_le. Qed.

Lemma filter_erase p i l : List.filter p (erase i l) = erase i (List.filter p l).
Proof.
  unfold erase. induction l as [|j l IH]; [done|]. cbn.
  destruct (negb (Nat.eqb j i)) eqn:E1, (p j) eqn:E2; cbn; rewrite ?E1, ?E2, IH; done.
Qed.

(** A register changes in a list filtered by its own state. *)
Lemma filter_service_ext (f g : nat → bool) l :
  (∀ i, i ∈ l → f i = g i) → List.filter f l = List.filter g l.
Proof.
  induction l as [|i l IH]; intros H; [done|]. cbn. rewrite (H i) by left.
  rewrite IH by (intros; apply H; by right). done.
Qed.

Lemma perm_filter p (l l' : list nat) : l ≡ₚ l' → List.filter p l ≡ₚ List.filter p l'.
Proof.
  induction 1; cbn; repeat case_match; try done; try by constructor.
  by etrans.
Qed.

Lemma insert_before_ok q i l :
  (∃ j, j ∈ l ∧ m_readyTime (reg q i) < m_readyTime (reg q j)) →
  ∃ l', insert_before q i l = Ok l' ∧ l' ≡ₚ i :: l ∧
    (StronglySorted (earlier q) l → StronglySorted (earlier q) l').
Proof.
  induction l as [|j l IH]; [intros (j & ?%not_elem_of_nil & _); done|].
  intros (k & Hk & Hlt). cbn. destruct (Z.ltb_spec (m_readyTime (reg q i)) (m_readyTime (reg q j))).
  - eexists. split_and!; [done..|]. intros Hs. constructor; [done|].
    inversion Hs as [|? ? Hl Hj]; subst. constructor; [unfold earlier; lia|].
    eapply Forall_impl; [exact Hj|]. unfold earlier. lia.
  - apply elem_of_cons in Hk as [->|Hk]; [lia|].
    destruct IH as (l' & -> & Hp & Hs'); [eauto|]. cbn. eexists.
    split_and!; [done|rewrite Hp; constructor|]. intros Hs.
    inversion Hs as [|? ? Hl Hj]; subst. constructor; [auto|].
    rewrite Hp. constructor; [unfold earlier; lia|done].
Qed.

Lemma sorted_impl (R R' : nat → nat → Prop) l :
  (∀ x y, x ∈ l → y ∈ l → R x y → R' x y) → StronglySorted R l → StronglySorted R' l.
Proof.
  intros HR Hl. induction Hl as [|x l Hl IH Hx]; constructor.
  - apply IH. intros y z Hy Hz. apply HR; by right.
  - rewrite Forall_forall in *. intros y Hy. apply HR; [left|by right|auto].
Qed.

Lemma snoc_sorted R l (j : nat) :
  StronglySorted R l → (∀ x, x ∈ l → R x j) → StronglySorted R (l ++ [j]).
Proof.
  induction 1 as [|x l Hl IH Hx]; intros H; cbn; [repeat constructor|].
  constructor; [apply IH; intros; apply H; by right|].
  apply Forall_app. split; [done|]. constructor; [apply H; left|constructor].
Qed.

Lemma sorted_last q l k : StronglySorted (earlier q) l → last l = Some k →
  ∀ x, x ∈ l → m_readyTime (reg q x) ≤ m_readyTime (reg q k).
Proof.
  induction 1 as [|y l Hl IH Hy]; [done|]. destruct l as [|z l].
  - intros [= ->] x ->%list_elem_of_singleton. lia.
  - intros Hk x [->|Hx]%elem_of_cons; [|by apply IH].
    rewrite Forall_forall in Hy. apply (Hy k), last_Some_elem_of, Hk.
Qed.

Lemma addToReadyList_ok i q :
  ∃ l, addToReadyList i q = Ok (q <| readyList := l |>) ∧ l ≡ₚ i :: readyList q ∧
    (ready_sorted q → StronglySorted (earlier q) l).
Proof.
  unfold addToReadyList, ready_sorted. destruct (last (readyList q)) as [j|] eqn:Ej.
  - destruct (Z.leb_spec (m_readyTime (reg q j)) (m_readyTime (reg q i))).
    + eexists. split_and!; [done|by rewrite Permutation_app_comm|].
      intros Hs. apply snoc_sorted; [done|]. intros x Hx.
      pose proof (sorted_last _ _ _ Hs Ej x Hx). unfold earlier. lia.
    + destruct (insert_before_ok q i (readyList q)) as (l & -> & Hp & Hs).
      { exists j. split; [by apply last_Some_elem_of|lia]. }
      eexists. split_and!; done.
  - apply last_None in Ej. rewrite Ej. eexists. split_and!; [done..|]. repeat constructor.
Qed.

Lemma queue_ok_nodup q : queue_ok q →
  NoDup (freeList q) ∧ NoDup (allocatedList q) ∧
  (∀ i, i ∈ freeList q → i ∉ allocatedList q) ∧
  (∀ i, i ∈ freeList q ++ allocatedList q ↔ (i < length (registers q))%nat).
Proof.
  intros Hq. assert (NoDup (freeList q ++ allocatedList q)) as Hnd.
  { rewrite (qo_part q Hq). apply NoDup_seq. }
  apply NoDup_app in Hnd as (? & ? & ?). split_and!; try done.
  intros i. rewrite (qo_part q Hq), elem_of_seq. lia.
Qed.

Lemma queue_ok_ready q i : queue_ok q →
  i ∈ readyList q ↔ i ∈ allocatedList q ∧ inService (reg q i) = false.
Proof.
  intros Hq. rewrite (qo_ready q Hq), list_elem_of_In, filter_In, <-list_elem_of_In.
  by rewrite negb_true_iff.
Qed.

(** ** Operations on one register *)

(** Replacing a register by one with the same service state and ready time. *)
Lemma upd_reg_ok i m q :
  queue_ok q → i ∈ allocatedList q → inService m = inService (reg q i) →
  (tlist (deferredTargets m) = [] → isReset (deferredTargets m) = true) →
  queue_ok (upd_reg i m q) ∧
  (m_readyTime m = m_readyTime (reg q i) → ready_sorted q → ready_sorted (upd_reg i m q)).
Proof.
  intros Hq Hi Hs Hd. destruct (queue_ok_nodup q Hq) as (_ & _ & Hdis & Hall).
  assert (Hlt : (i < length (registers q))%nat) by (apply Hall, elem_of_app; by right).
  pose proof (λ j, reg_upd i j m q Hlt) as Hreg. destruct Hq as [H1 H2 H3 H4 H5 H6 H7].
  split.
  - split; try done.
    + unfold upd_reg; cbn. by rewrite length_insert.
    + unfold upd_reg; cbn. by rewrite length_insert.
    + change (readyList (upd_reg i m q)) with (readyList q).
      change (allocatedList (upd_reg i m q)) with (allocatedList q).
      rewrite H3. erewrite filter_service_ext; [reflexivity|]. intros j Hj. cbv beta.
      rewrite Hreg. case_decide; [by subst; rewrite Hs|done].
    + intros j Hj. rewrite Hreg. rewrite decide_False; [by apply H6|].
      intros ->. by apply (Hdis i).
    + intros j. rewrite Hreg. case_decide; auto.
  - intros Ht. unfold ready_sorted. change (readyList (upd_reg i m q)) with (readyList q).
    apply sorted_impl. intros x y _ _. unfold earlier. rewrite !Hreg.
    repeat case_decide; subst; rewrite ?Ht; done.
Qed.

(** ** The operations *)

Lemma not_full_free q :
  queue_ok q → isFull q = false → 1 ≤ numReserve q → freeList q ≠ [].
Proof.
  intros Hq Hf Hr E. unfold isFull in Hf. apply Z.ltb_ge in Hf.
  pose proof (Permutation_length (qo_part q Hq)) as Hlen. rewrite E, length_seq in Hlen.
  cbn in Hlen. pose proof (qo_regs q Hq). pose proof (qo_allocated q Hq). lia.
Qed.

Lemma allocate_ok now a sz pkt ready order q :
  queue_ok q → freeList q ≠ [] →
  ∃ i q', allocate now a sz pkt ready order q = Ok (i, q') ∧ queue_ok q' ∧
    (ready_sorted q → ready_sorted q') ∧ (i ∉ allocatedList q) ∧
    allocatedList q' = allocatedList q ++ [i] ∧ i ∈ readyList q' ∧
    (∀ j, j ≠ i → reg q' j = reg q j) ∧ inService (reg q' i) = false ∧
    blkAddr (reg q' i) = a ∧ m_order (reg q' i) = order ∧ m_readyTime (reg q' i) = ready ∧
    (∃ src, tlist (targets (reg q' i)) = [mkTarget now ready order pkt src true]).
Proof.
  intros Hq Hf. destruct (freeList q) as [|i free] eqn:Ef; [done|]. clear Hf.
  destruct (queue_ok_nodup q Hq) as (Hnf & Hna & Hdis & Hall).
  assert (Hi : i ∈ freeList q) by (rewrite Ef; left).
  assert (Hlt : (i < length (registers q))%nat) by (apply Hall, elem_of_app; by left).
  pose proof Hq as [H1 H2 H3 H4 H5 H6 H7].
  destruct (H6 i Hi) as (Hn & Ht & Hs). unfold getNumTargets in Hn.
  assert (tlist (targets (reg q i)) = [] ∧ tlist (deferredTargets (reg q i)) = []) as [Et Ed].
  { split; apply nil_length_inv; lia. }
  unfold allocate. rewrite Ef. rewrite assert_bind by (apply Z.eqb_eq; unfold getNumTargets; lia).
  destruct (m_allocate_ok now a sz pkt ready order (reg q i) Ht (H7 i Ed))
    as (m & -> & Ha & Ho & Hrt & Hsv & _ & _ & Hdef & src & Htg).
  cbn [mbind res_bind]. cbv beta zeta.
  set (q1 := (upd_reg i m _) <| allocatedList ::= _ |>).
  destruct (addToReadyList_ok i q1) as (l & -> & Hl & Hsort). cbn [mbind res_bind].
  assert (Hreg : ∀ j, reg q1 j = if decide (j = i) then m else reg q j)
    by (intros j; apply (reg_upd i j m q Hlt)).
  assert (Hia : i ∉ allocatedList q) by by apply Hdis.
  set (q' := q1 <| readyList := l |> <| allocated ::= Z.succ |>).
  assert (Eq' : numEntries q' = numEntries q ∧ length (registers q') = length (registers q) ∧
    allocatedList q' = allocatedList q ++ [i] ∧ readyList q' = l ∧ freeList q' = free ∧
    allocated q' = allocated q + 1 ∧ inServiceEntries q' = inServiceEntries q).
  { split_and!; try done. unfold q', q1, upd_reg. cbn. apply length_insert. }
  assert (Hreg' : ∀ j, reg q' j = reg q1 j) by done.
  assert (El : readyList q1 = readyList q) by done.
  clearbody q'. destruct Eq' as (E1 & E2 & E3 & E4 & E5 & E6 & E7).
  exists i, q'. split; [reflexivity|].
  assert (Hri : reg q' i = m) by (rewrite Hreg', Hreg; by rewrite decide_True).
  assert (Hrj : ∀ j, j ≠ i → reg q' j = reg q j)
    by (intros j Hj; rewrite Hreg', Hreg; by rewrite decide_False).
  assert (Hrm : List.filter (λ j, negb (inService (reg q' j))) (allocatedList q) =
                List.filter (λ j, negb (inService (reg q j))) (allocatedList q)).
  { apply filter_service_ext. intros j Hj. rewrite Hrj by congruence. done. }
  split_and!; try done.
  - split; rewrite ?E1, ?E2, ?E3, ?E4, ?E5, ?E6, ?E7; try done.
    + rewrite <-H2, Ef, app_assoc, (Permutation_app_comm _ [i]). done.
    + rewrite Hl, El, H3, List.filter_app, Hrm. cbn. rewrite Hri, Hsv. cbn.
      by rewrite (Permutation_app_comm _ [i]).
    + rewrite length_app. cbn. lia.
    + rewrite Hl, El. cbn. lia.
    + intros j Hj. rewrite Hrj; [apply H6; rewrite Ef; by right|].
      intros ->. rewrite Ef in Hnf. by inversion Hnf.
    + intros j. destruct (decide (j = i)) as [->|]; [rewrite Hri, Hdef; apply H7|].
      rewrite Hrj by done. apply H7.
  - unfold ready_sorted in *. rewrite E4, El in *. intros Hs'.
    eapply sorted_impl; [|apply Hsort].
    + intros x y _ _. unfold earlier. by rewrite !Hreg'.
    + eapply sorted_impl; [|exact Hs']. intros x y Hx Hy. unfold earlier. rewrite !Hreg.
      apply (queue_ok_ready q _ Hq) in Hx as [Hx _], Hy as [Hy _].
      by rewrite !decide_False by congruence.
  - rewrite E4, Hl. left.
  - by rewrite Hri.
  - by rewrite Hri.
  - by rewrite Hri.
  - by rewrite Hri.
  - exists src. by rewrite Hri, Htg, tlist_tl_add, Et.
Qed.

Lemma deallocate_ok i q :
  queue_ok q → i ∈ allocatedList q → getNumTargets (reg q i) = 0 →
  ∃ q', deallocate i q = Ok q' ∧ queue_ok q' ∧ (ready_sorted q → ready_sorted q') ∧
    allocatedList q' = erase i (allocatedList q) ∧ allocated q' = allocated q - 1 ∧
    (∀ j, j ≠ i → reg q' j = reg q j) ∧ readyList q' = erase i (readyList q).
Proof.
  intros Hq Hi Hn. destruct (queue_ok_nodup q Hq) as (Hnf & Hna & Hdis & Hall).
  assert (Hlt : (i < length (registers q))%nat) by (apply Hall, elem_of_app; by right).
  pose proof Hq as [H1 H2 H3 H4 H5 H6 H7].
  assert (tlist (targets (reg q i)) = [] ∧ tlist (deferredTargets (reg q i)) = []) as [Et Ed].
  { unfold getNumTargets in Hn. split; apply nil_length_inv; lia. }
  pose proof (erase_perm i _ Hna Hi) as Hpa.
  pose proof (queue_ok_ready q i Hq) as Hready.
  unfold deallocate. set (q1 := q <| allocatedList ::= _ |> <| freeList ::= _ |> <| allocated ::= _ |>).
  change (inService (reg q1 i)) with (inService (reg q i)).
  set (q2 := if inService (reg q i) then _ else _).
  assert (Hr2 : ∀ j, reg q2 j = reg q j) by (intros j; unfold q2; by destruct (inService (reg q i))).
  assert (E : m_deallocate (reg q2 i) = Ok ((reg q i) <| targets ::= resetFlags |> <| inService := false |>)).
  { rewrite Hr2. unfold m_deallocate. rewrite assert_bind
      by (unfold hasTargets; by rewrite bool_decide_eq_true_2).
    by rewrite assert_bind by apply (H7 i Ed). }
  rewrite E. cbn [mbind res_bind]. set (m := (reg q i) <| targets ::= _ |> <| inService := _ |>).
  set (q3 := upd_reg i m q2).
  set (q' := if draining q3 && (allocated q3 =? 0) then _ else _).
  assert (Hreg : ∀ j, reg q' j = if decide (j = i) then m else reg q j).
  { intros j. rewrite <-(reg_upd i j m q Hlt). unfold q', q3, q2, upd_reg, reg.
    by destruct (_ && _), (inService (registers q !!! i)). }
  assert (Eq' : numEntries q' = numEntries q ∧ length (registers q') = length (registers q) ∧
    allocatedList q' = erase i (allocatedList q) ∧
    readyList q' = (if inService (reg q i) then readyList q else erase i (readyList q)) ∧
    freeList q' = i :: freeList q ∧ allocated q' = allocated q - 1 ∧
    inServiceEntries q' = if inService (reg q i) then inServiceEntries q - 1 else inServiceEntries q).
  { unfold q', q3, q2, upd_reg. split_and!;
      destruct (_ && _), (inService (reg q i)); cbn; rewrite ?length_insert; done || lia. }
  clearbody q'. destruct Eq' as (E1 & E2 & E3 & E4 & E5 & E6 & E7).
  assert (E4' : readyList q' = erase i (readyList q)).
  { rewrite E4. destruct (inService (reg q i)) eqn:Es; [|done]. rewrite erase_notin; [done|].
    intros [_ ?]%Hready. congruence. }
  assert (Hlen : Z.of_nat (length (erase i (allocatedList q))) = allocated q - 1).
  { rewrite H4. apply Permutation_length in Hpa. cbn in Hpa. lia. }
  assert (Hrm : List.filter (λ j, negb (inService (reg q' j))) (erase i (allocatedList q)) =
                erase i (List.filter (λ j, negb (inService (reg q j))) (allocatedList q))).
  { rewrite <-filter_erase. apply filter_service_ext. intros j [_ Hj]%elem_of_erase.
    rewrite Hreg. by rewrite decide_False. }
  exists q'. split_and!; [done| | |done|done| |done].
  - split; rewrite ?E1, ?E2, ?E3, ?E4', ?E5, ?E6; try done.
    + rewrite <-H2. etrans; [|apply Permutation_app_head; symmetry; exact Hpa].
      by rewrite <-Permutation_middle.
    + rewrite Hrm. unfold erase. by apply perm_filter.
    + rewrite E7. assert (NoDup (readyList q)) as Hnr.
      { rewrite H3. apply NoDup_ListNoDup, List.NoDup_filter, NoDup_ListNoDup, Hna. }
      destruct (inService (reg q i)) eqn:Es.
      * rewrite erase_notin by (intros [_ ?]%Hready; congruence). lia.
      * assert (i ∈ readyList q) as Hir by by apply Hready.
        pose proof (Permutation_length (erase_perm i _ Hnr Hir)) as Hl. cbn in Hl. lia.
    + intros j [->|Hj]%elem_of_cons.
      * rewrite Hreg, decide_True by done. unfold m, getNumTargets. cbn. rewrite Et, Ed. done.
      * rewrite Hreg, decide_False; [by apply H6|]. intros ->. by apply (Hdis i).
    + intros j. rewrite Hreg. case_decide; [unfold m; cbn; subst; apply H7|apply H7].
  - unfold ready_sorted. rewrite E4'. intros Hs. apply (erase_sorted _ i) in Hs.
    eapply sorted_impl; [|exact Hs]. intros x y [_ Hx]%elem_of_erase [_ Hy]%elem_of_erase.
    unfold earlier. by rewrite !Hreg, !decide_False by done.
  - intros j Hj. by rewrite Hreg, decide_False.
Qed.

(** A register enters or leaves service: the ready list and the counter follow. *)
Lemma service_ok i m q q' :
  queue_ok q → i ∈ allocatedList q → inService m = negb (inService (reg q i)) →
  deferredTargets m = deferredTargets (reg q i) →
  registers q' = registers (upd_reg i m q) → numEntries q' = numEntries q →
  freeList q' = freeList q → allocatedList q' = allocatedList q → allocated q' = allocated q →
  (if inService m then readyList q' = erase i (readyList q) ∧
                       inServiceEntries q' = inServiceEntries q + 1
   else readyList q' ≡ₚ i :: readyList q ∧ inServiceEntries q' = inServiceEntries q - 1) →
  queue_ok q'.
Proof.
  intros Hq Hi Hm Hdef Er En Ef Ea Eal Hsv.
  destruct (queue_ok_nodup q Hq) as (Hnf & Hna & Hdis & Hall).
  assert (Hlt : (i < length (registers q))%nat) by (apply Hall, elem_of_app; by right).
  assert (Hreg : ∀ j, reg q' j = if decide (j = i) then m else reg q j).
  { intros j. rewrite <-(reg_upd i j m q Hlt). unfold reg. by rewrite Er. }
  assert (El : length (registers q') = length (registers q)) by (rewrite Er; apply length_insert).
  pose proof Hq as [H1 H2 H3 H4 H5 H6 H7]. pose proof (queue_ok_ready q i Hq) as Hready.
  pose proof (erase_perm i _ Hna Hi) as Hpa.
  assert (Hrest : List.filter (λ j, negb (inService (reg q' j))) (erase i (allocatedList q)) =
    erase i (List.filter (λ j, negb (inService (reg q j))) (allocatedList q))).
  { rewrite <-filter_erase. apply filter_service_ext. intros j [_ Hj]%elem_of_erase.
    rewrite Hreg. by rewrite decide_False. }
  assert (Hpart : List.filter (λ j, negb (inService (reg q' j))) (allocatedList q) ≡ₚ
    (if inService m then [] else [i]) ++
    erase i (List.filter (λ j, negb (inService (reg q j))) (allocatedList q))).
  { rewrite <-Hrest. rewrite (perm_filter _ _ _ Hpa). cbn. rewrite Hreg, decide_True by done.
    by destruct (inService m). }
  assert (NoDup (readyList q)) as Hnr
    by (rewrite H3; apply NoDup_ListNoDup, List.NoDup_filter, NoDup_ListNoDup, Hna).
  assert (Hl2 : erase i (readyList q) ≡ₚ
    erase i (List.filter (λ j, negb (inService (reg q j))) (allocatedList q)))
    by (unfold erase; by apply perm_filter).
  split; rewrite ?En, ?El, ?Ef, ?Ea, ?Eal; try done.
  - rewrite Hpart, <-Hl2. destruct (inService m); destruct Hsv as [Hr _]; rewrite Hr; [done|].
    rewrite erase_notin; [done|]. intros [_ ?]%Hready. destruct (inService (reg q i)); done.
  - destruct (inService m); destruct Hsv as [Hr ->]; rewrite Hr.
    + assert (i ∈ readyList q) as Hir by (apply Hready; by destruct (inService (reg q i))).
      pose proof (Permutation_length (erase_perm i _ Hnr Hir)) as Hl. cbn in Hl. lia.
    + cbn. lia.
  - intros j Hj. rewrite Hreg, decide_False; [by apply H6|]. intros ->. by apply (Hdis i).
  - intros j. rewrite Hreg. case_decide; [subst; rewrite Hdef; apply H7|apply H7].
Qed.

Lemma popTarget_num m : hasTargets m = true → getNumTargets (popTarget m) = getNumTargets m - 1.
Proof.
  unfold hasTargets, getNumTargets, popTarget. cbn. destruct (tlist (targets m)); cbn; [done|lia].
Qed.

Lemma markInService_ok i b q :
  queue_ok q → i ∈ readyList q →
  ∃ q', markInService i b q = Ok q' ∧ queue_ok q' ∧ (ready_sorted q → ready_sorted q') ∧
    (isForwardNoResponse (reg q i) = false →
     allocatedList q' = allocatedList q ∧ inService (reg q' i) = true) ∧
    (isForwardNoResponse (reg q i) = true → allocatedList q' = erase i (allocatedList q)) ∧
    readyList q' = erase i (readyList q) ∧ (∀ j, j ≠ i → reg q' j = reg q j).
Proof.
  intros Hq Hi. pose proof (proj1 (queue_ok_ready q i Hq) Hi) as [Hia Hs].
  destruct (queue_ok_nodup q Hq) as (_ & _ & _ & Hall).
  assert (Hlt : (i < length (registers q))%nat) by (apply Hall, elem_of_app; by right).
  unfold markInService, m_markInService. rewrite Hs. cbn [assert negb mbind res_bind].
  destruct (isForwardNoResponse (reg q i)) eqn:Ef.
  - unfold isForwardNoResponse in Ef. apply andb_true_iff in Ef as [En Et]. rewrite En.
    apply Z.eqb_eq in En. cbn [assert mbind res_bind].
    assert (hasTargets (reg q i) = true) as Ht.
    { unfold hasTargets. by destruct (tlist (targets (reg q i))). }
    destruct (upd_reg_ok i (popTarget (reg q i)) q Hq Hia eq_refl) as [Hq1 Hs1].
    { apply (qo_deferred q Hq). }
    destruct (deallocate_ok i (upd_reg i (popTarget (reg q i)) q) Hq1) as (q' & -> & H1 & H2 & H3 & _ & H5 & H6).
    { done. }
    { rewrite reg_upd, decide_True by done. rewrite popTarget_num by done. lia. }
    exists q'. split_and!; [done..|by intros; apply H2, Hs1|done| |done|].
    { by intros _. }
    intros j Hj. rewrite H5 by done. by rewrite reg_upd, decide_False.
  - set (m := (reg q i) <| inService := _ |> <| pendingDirty := _ |> <| postInvalidate := _ |>
      <| postDowngrade := _ |>).
    set (q' := (upd_reg i m q) <| readyList ::= erase i |> <| inServiceEntries ::= Z.succ |>).
    assert (Hreg : ∀ j, reg q' j = if decide (j = i) then m else reg q j)
      by (intros j; apply (reg_upd i j m q Hlt)).
    exists q'. split; [done|]. split_and!.
    + apply (service_ok i m q q'); try done. by rewrite Hs.
    + unfold ready_sorted. intros Hsr. apply (erase_sorted _ i) in Hsr.
      eapply sorted_impl; [|exact Hsr]. intros x y [_ Hx]%elem_of_erase [_ Hy]%elem_of_erase.
      unfold earlier. by rewrite !Hreg, !decide_False by done.
    + intros _. split; [done|]. by rewrite Hreg, decide_True.
    + done.
    + done.
    + intros j Hj. by rewrite Hreg, decide_False.
Qed.

Lemma markPending_ok i q :
  queue_ok q → i ∈ allocatedList q → inService (reg q i) = true →
  ∃ q', markPending i q = Ok q' ∧ queue_ok q' ∧ (ready_sorted q → ready_sorted q') ∧
    allocatedList q' = allocatedList q ∧ i ∈ readyList q'.
Proof.
  intros Hq Hia Hs. destruct (queue_ok_nodup q Hq) as (_ & _ & _ & Hall).
  assert (Hlt : (i < length (registers q))%nat) by (apply Hall, elem_of_app; by right).
  unfold markPending. rewrite assert_bind by done.
  set (m := (reg q i) <| inService := false |>).
  set (q1 := (upd_reg i m q) <| inServiceEntries ::= Z.pred |>).
  destruct (addToReadyList_ok i q1) as (l & -> & Hl & Hsort).
  set (q' := q1 <| readyList := l |>).
  assert (Hreg : ∀ j, reg q1 j = if decide (j = i) then m else reg q j)
    by (intros j; apply (reg_upd i j m q Hlt)).
  exists q'. split; [done|]. split_and!.
  - apply (service_ok i m q q'); try done. by rewrite Hs.
  - intros Hsr. apply Hsort. unfold ready_sorted in *.
    eapply sorted_impl; [|exact Hsr]. intros x y Hx Hy. unfold earlier. rewrite !Hreg.
    apply (queue_ok_ready q _ Hq) in Hx as [_ Hx], Hy as [_ Hy].
    by rewrite !decide_False by congruence.
  - done.
  - cbn. rewrite Hl. left.
Qed.

Lemma allocateTarget_ok now i pkt ready order q :
  queue_ok q → i ∈ allocatedList q → cmd pkt ≠ HardPFReq → m_isUncacheable (reg q i) = false →
  ∃ m, allocateTarget now pkt ready order (reg q i) = Ok m ∧ queue_ok (upd_reg i m q) ∧
    (ready_sorted q → ready_sorted (upd_reg i m q)) ∧
    getNumTargets m = getNumTargets (reg q i) + 1 ∧
    m_readyTime m = m_readyTime (reg q i).
Proof.
  intros Hq Hi Hc Hu. unfold allocateTarget.
  rewrite assert_bind by by rewrite bool_decide_eq_false_2.
  rewrite assert_bind by by rewrite Hu.
  pose proof (qo_deferred q Hq i) as Hd.
  destruct (must_defer pkt (reg q i)); eexists; (split; [reflexivity|]).
  - match goal with |- queue_ok (upd_reg i ?m q) ∧ _ =>
      destruct (upd_reg_ok i m q Hq Hi) as [H1 H2] end; [done| |].
    { cbn. rewrite tlist_tl_add. intros E%(f_equal length). rewrite length_app in E. cbn in E. lia. }
    split_and!; [done|by apply H2| |done]. unfold getNumTargets. cbn.
    rewrite tlist_tl_add, length_app. cbn. lia.
  - match goal with |- queue_ok (upd_reg i ?m q) ∧ _ =>
      destruct (upd_reg_ok i m q Hq Hi) as [H1 H2] end; [done|exact Hd|].
    split_and!; [done|by apply H2| |done]. unfold getNumTargets. cbn.
    rewrite tlist_tl_add, length_app. cbn. lia.
Qed.

(** ** Runs of operations *)

(** What a cache does with a queue. *)
Inductive qop : Type :=
| QAllocate (now : Tick) (blk_addr : Addr) (blk_size : Z) (pkt : Packet) (ready : Tick) (order : Z)
| QTarget (now : Tick) (i : nat) (pkt : Packet) (ready : Tick) (order : Z)
| QPop (i : nat)
| QMarkInService (i : nat) (pending_dirty_resp : bool)
| QMarkPending (i : nat)
| QDeallocate (i : nat).

Definition apply_op (op : qop) (q : MSHRQueue) : res MSHRQueue :=
  match op with
  | QAllocate now a sz pkt ready order =>
      iq ← allocate now a sz pkt ready order q; Ok (snd iq)
  | QTarget now i pkt ready order =>
      m ← allocateTarget now pkt ready order (reg q i); Ok (upd_reg i m q)
  | QPop i => Ok (upd_reg i (popTarget (reg q i)) q)
  | QMarkInService i b => markInService i b q
  | QMarkPending i => markPending i q
  | QDeallocate i => deallocate i q
  end.

(** The condition under which the caches call an operation. *)
Definition guard (op : qop) (q : MSHRQueue) : bool :=
  match op with
  | QAllocate _ _ _ _ _ _ => negb (bool_decide (freeList q = []))
  | QTarget _ i pkt _ _ =>
      bool_decide (i ∈ allocatedList q) && negb (bool_decide (cmd pkt = HardPFReq)) &&
      negb (m_isUncacheable (reg q i))
  | QPop i => bool_decide (i ∈ allocatedList q)
  | QMarkInService i _ => bool_decide (i ∈ readyList q)
  | QMarkPending i => bool_decide (i ∈ allocatedList q) && inService (reg q i)
  | QDeallocate i => bool_decide (i ∈ allocatedList q) && (getNumTargets (reg q i) =? 0)
  end.
Definition op_step (q : MSHRQueue) (op : qop) : res MSHRQueue :=
  if guard op q then apply_op op q else Ok q.

Lemma new_queue_ok n r d idx : 0 ≤ n + r - 1 → queue_ok (new_queue n r d idx).
Proof.
  intros Hn. split; cbn; try done.
  - rewrite length_replicate. lia.
  - by rewrite app_nil_r, length_replicate.
  - intros i Hi. apply elem_of_seq in Hi. unfold reg; cbn.
    rewrite lookup_total_replicate_2 by lia. done.
  - intros i. unfold reg; cbn. rewrite list_lookup_total_alt.
    destruct (replicate (Z.to_nat (n + r - 1)) new_MSHR !! i) eqn:E; [|done].
    by apply lookup_replicate in E as [-> _].
Qed.

(** The constants of a queue. *)
Definition shape (q : MSHRQueue) : Z * Z * Z := (numEntries q, numReserve q, qindex q).

Lemma shape_step q op q' : apply_op op q = Ok q' → shape q' = shape q.
Proof.
  assert (Hadd : ∀ i q1 q2, addToReadyList i q1 = Ok q2 → shape q2 = shape q1).
  { intros i q1 q2 H. destruct (addToReadyList_ok i q1) as (l & E & _).
    rewrite E in H. by injection H as <-. }
  assert (Hde : ∀ i q1 q2, deallocate i q1 = Ok q2 → shape q2 = shape q1).
  { intros i q1 q2 H. unfold deallocate in H. apply bind_ok in H as (m & _ & [= <-]).
    repeat case_match; done. }
  destruct op; cbn; intros H.
  - unfold allocate in H. case_match; [done|]. res_inv.
    match goal with E : addToReadyList _ _ = Ok _ |- _ => by apply Hadd in E end.
  - by res_inv.
  - by simplify_eq.
  - unfold markInService in H. res_inv. destruct a as [[] m]; [by apply Hde in H|by simplify_eq].
  - unfold markPending in H. res_inv. by apply Hadd in H.
  - by apply Hde in H.
Qed.

(** Without targets that need exclusive copies nothing is deferred. *)
Definition plain (m : MSHR) : Prop :=
  tlist (deferredTargets m) = [] ∧ postInvalidate m = false.
Definition plain_op (op : qop) : Prop :=
  match op with QTarget _ _ pkt _ _ => needsExclusive (cmd pkt) = false | _ => True end.

Lemma plain_reg q i : Forall plain (registers q) → plain (reg q i).
Proof.
  intros H. unfold reg. rewrite list_lookup_total_alt. destruct (registers q !! i) eqn:E; [|done].
  by apply (Forall_lookup_1 _ _ _ _ H E).
Qed.

Lemma m_allocate_plain now a sz pkt ready o m m' :
  plain m → m_allocate now a sz pkt ready o m = Ok m' → plain m'.
Proof. destruct m. unfold m_allocate, plain. cbn. intros ? H. res_inv. done. Qed.

Lemma m_deallocate_plain m m' : plain m → m_deallocate m = Ok m' → plain m'.
Proof. destruct m. unfold m_deallocate, plain. cbn. intros ? H. res_inv. done. Qed.

Lemma m_markInService_plain d m b m' : plain m → m_markInService d m = Ok (b, m') → plain m'.
Proof.
  destruct m. unfold m_markInService, plain. cbn. intros ? H.
  apply bind_ok in H as (? & _ & H). case_match; res_inv; naive_solver.
Qed.

Lemma must_defer_plain pkt m :
  needsExclusive (cmd pkt) = false → plain m → must_defer pkt m = false.
Proof. intros Hn [Hd Hp]. unfold must_defer. rewrite Hn, Hp, Hd. apply andb_false_r. Qed.

Lemma allocateTarget_plain now pkt ready o m m' :
  needsExclusive (cmd pkt) = false → plain m → allocateTarget now pkt ready o m = Ok m' → plain m'.
Proof.
  intros Hn Hm. unfold allocateTarget. rewrite must_defer_plain by done.
  destruct m. unfold plain in *. cbn in *. intros H. by res_inv.
Qed.

Lemma deallocate_registers i q q' :
  deallocate i q = Ok q' →
  ∃ m, m_deallocate (reg q i) = Ok m ∧ registers q' = <[i := m]> (registers q).
Proof.
  unfold deallocate. intros (m & Em & [= <-])%bind_ok. exists m.
  destruct q. cbn in *. unfold reg in *. cbn in *. split; [|by repeat case_match].
  by destruct (inService _).
Qed.

Lemma addToReadyList_registers i q q' :
  addToReadyList i q = Ok q' → registers q' = registers q.
Proof.
  intros H. destruct (addToReadyList_ok i q) as (l & E & _). rewrite E in H. by injection H as <-.
Qed.

Lemma plain_step q op q' :
  plain_op op → Forall plain (registers q) → apply_op op q = Ok q' → Forall plain (registers q').
Proof.
  intros Hop Hp. pose proof (λ i, plain_reg q i Hp) as Hr.
  assert (Hde : ∀ i q1 q2, Forall plain (registers q1) → deallocate i q1 = Ok q2 →
    Forall plain (registers q2)).
  { intros i q1 q2 H1 (m & Em & ->)%deallocate_registers. apply Forall_insert; [done|].
    eapply m_deallocate_plain, Em. by apply plain_reg. }
  destruct op as [now a sz pkt ready order|now i pkt ready order|i|i b|i|i]; cbn [apply_op]; intros H.
  - apply bind_ok in H as ([i q1] & H & [= <-]). unfold allocate in H.
    destruct (freeList q) as [|k l]; [done|]. apply bind_ok in H as (_ & _ & H).
    apply bind_ok in H as (m & Em & H). apply bind_ok in H as (q2 & E2 & [= _ <-]).
    apply addToReadyList_registers in E2. change (Forall plain (registers q2)). rewrite E2.
    apply Forall_insert; [done|]. by eapply m_allocate_plain.
  - apply bind_ok in H as (m & Em & [= <-]). apply Forall_insert; [done|].
    by eapply allocateTarget_plain.
  - injection H as <-. apply Forall_insert; [done|]. destruct (Hr i). by destruct (reg q i).
  - unfold markInService in H. apply bind_ok in H as ([[] m] & Em & H).
    + eapply Hde; [|exact H]. apply Forall_insert; [done|]. by eapply m_markInService_plain.
    + injection H as <-. change (Forall plain (<[i := m]> (registers q))).
      apply Forall_insert; [done|]. by eapply m_markInService_plain.
  - unfold markPending in H. apply bind_ok in H as (_ & _ & H).
    apply addToReadyList_registers in H. rewrite H. apply Forall_insert; [done|].
    destruct (Hr i). by destruct (reg q i).
  - by eapply Hde.
Qed.

Lemma op_step_ok q op :
  queue_ok q → ready_sorted q → 1 ≤ numReserve q →
  ∃ q', op_step q op = Ok q' ∧ queue_ok q' ∧ ready_sorted q' ∧ 1 ≤ numReserve q'.
Proof.
  intros Hq Hs Hr. unfold op_step. destruct (guard op q) eqn:Hg; [|eauto].
  enough (∃ q', apply_op op q = Ok q' ∧ queue_ok q' ∧ ready_sorted q') as (q' & E & ? & ?)
    by (exists q'; split_and!; [done..|apply shape_step in E; unfold shape in E; simplify_eq; lia]).
  destruct op as [now a sz pkt ready order|now i pkt ready order|i|i b|i|i]; cbn in *;
    repeat match goal with
    | H : _ && _ = true |- _ => apply andb_true_iff in H as [H ?]
    | H : bool_decide _ = true |- _ => apply bool_decide_eq_true in H
    | H : negb _ = true |- _ => apply negb_true_iff in H
    | H : bool_decide _ = false |- _ => apply bool_decide_eq_false in H
    | H : (_ =? _) = true |- _ => apply Z.eqb_eq in H
    end.
  - destruct (allocate_ok now a sz pkt ready order q Hq Hg) as (i & q' & -> & ? & ? & _).
    cbn. eauto.
  - destruct (allocateTarget_ok now i pkt ready order q Hq) as (m & -> & ? & ? & _); [done..|].
    cbn. eauto.
  - destruct (upd_reg_ok i (popTarget (reg q i)) q Hq Hg eq_refl) as [? ?]; [|eauto].
    apply (qo_deferred q Hq).
  - destruct (markInService_ok i b q Hq Hg) as (q' & -> & ? & ? & _). eauto.
  - destruct (markPending_ok i q Hq) as (q' & -> & ? & ? & _); eauto.
  - destruct (deallocate_ok i q Hq) as (q' & -> & ? & ? & _); eauto.
Qed.

(** C19: no run of the operations that caches perform on a queue trips an
    assertion, and every queue it reaches is consistent: free and allocated
    registers partition the vector, the ready list holds exactly the allocated
    registers not in service, in the order of their ready times, the counters
    count, and free registers are clean.  A queue that is not full has a free
    register, because of the reserve of at least one entry. *)
Theorem queue_run_ok n r d idx ops :
  1 ≤ n → 1 ≤ r →
  ∃ q, foldM op_step (new_queue n r d idx) ops = Ok q ∧ queue_ok q ∧ ready_sorted q ∧
    (isFull q = false → freeList q ≠ []).
Proof.
  intros Hn Hr. assert (∀ q, queue_ok q → ready_sorted q → 1 ≤ numReserve q →
    ∃ q', foldM op_step q ops = Ok q' ∧ queue_ok q' ∧ ready_sorted q' ∧ 1 ≤ numReserve q') as H.
  { induction ops as [|op ops IH]; intros q Hq Hs Hres; cbn; [eauto|].
    destruct (op_step_ok q op Hq Hs Hres) as (q1 & -> & H1 & H2 & H3). cbn.
    by apply IH. }
  destruct (H (new_queue n r d idx)) as (q & ? & ? & ? & ?);
    [apply new_queue_ok; lia|constructor|done|].
  exists q. split_and!; [done..|]. by intros; apply not_full_free.
Qed.

Lemma queue_run_ok_witness :
  (∃ q, foldM op_step (new_queue 2 2 0 0)
     [QAllocate 5 256 128 (read_pkt 1 256 0) 9 0; QAllocate 6 384 128 (read_pkt 2 384 0) 7 1;
      QTarget 7 0 (read_pkt 3 256 31) 8 2; QMarkInService 1 false; QPop 1; QDeallocate 1] = Ok q ∧
     queue_ok q ∧ ready_sorted q ∧ (isFull q = false → freeList q ≠ [])) ∧
  (q ← foldM op_step (new_queue 2 2 0 0)
     [QAllocate 5 256 128 (read_pkt 1 256 0) 9 0; QAllocate 6 384 128 (read_pkt 2 384 0) 7 1];
   Ok (readyList q)) = Ok [1%nat; 0%nat].
Proof.
  split; [|vm_compute; reflexivity].
  apply (queue_run_ok 2 2 0 0); lia.
Defined.
End MshrQueue.
