(* ===== verification/CacheTags.v ===== *)
(** * The tag store of the DRAM cache (dramcache_ctrl.hh, dramcache_ctrl.cc)

    The cache is direct mapped: one line (tag, valid, dirty) per set, the owner
    of each line (GPU or CPU) in a bit vector beside it.  A lookup happens when
    the tag-and-data unit has been read from the DRAM; a fill replaces the line.
    The counting Bloom filter that holds the dirty blocks belongs to a library
    whose sources are not part of the repository: it is an interface. *)

From S2P Require Import Prelude Packet.
Import MemCmd Packet.

(** The constants of the cache controller, with the names of the members. *)
Class CacheParams := mkCacheParams
  { dramCache_block_size : Z;
    dramCache_num_sets : Z;
    cache_totalRows : Z;              (** the member [totalRows] *)
    dramCache_write_allocate : bool;
    bloomFilterEnable : bool;
    bypassTagEnable : bool;
    dirtyCleanBypassEnable : bool;
    bypass_tag_size : Z;
    numTarget : Z;
    dramCacheTimingMode : bool;
    fillBufferSize : Z;
    fillHighThreshold : Z;
    predAccuracy : Z }.

(** ** The counting Bloom filter (bf/bloom_filter/counting.h) *)

Class BloomFilter := mkBloomFilter
  { filter_t : Type;
    bf_new : filter_t;
    bf_add : Addr → filter_t → filter_t;
    bf_remove : Addr → filter_t → filter_t;
    bf_lookup : Addr → filter_t → Z }.

Module CacheTags.

(** [dramCacheSet_t]. *)
Record Line := mkLine { tag : Z; valid : bool; dirty : bool }.
#[export] Instance eta_Line : Eta Line := λ l, mkLine (tag l) (valid l) (dirty l).
Definition new_line : Line := mkLine 0 false false.

(** The array [set], the vector [isGPUOwned] (the sets owned by the GPU), the
    moving counts, the filter and the statistics. *)
Record TagsOf {F : Type} := mkTags
  { lines : gmap Z Line;
    isGPUOwned : gset Z;
    total_gpu_lines : Z;
    total_gpu_dirty_lines : Z;
    max_gpu_lines_sample_counter : Z;
    cbf : F;
    tstats : stats }.
#[global] Arguments TagsOf : clear implicits.
#[global] Arguments mkTags {F} _ _ _ _ _ _ _.
#[export] Instance eta_Tags F : Eta (TagsOf F) := λ t,
  mkTags (lines t) (isGPUOwned t) (total_gpu_lines t) (total_gpu_dirty_lines t)
    (max_gpu_lines_sample_counter t) (cbf t) (tstats t).

Abbreviation Tags := (TagsOf filter_t).

Section tags.
Context `{P : CacheParams} `{B : BloomFilter}.

(** [init]: every line is invalid and owned by the CPU. *)
Definition init_tags : Tags := mkTags ∅ ∅ 0 0 0 bf_new ∅.

(** [set[s]]. *)
Definition line (t : Tags) (s : Z) : Line := default new_line (lines t !! s).
Definition upd_line (s : Z) (f : Line → Line) (t : Tags) : Tags :=
  t <| lines ::= <[s := f (line t s)]> |>.
Definition owned (t : Tags) (s : Z) : bool := bool_decide (s ∈ isGPUOwned t).
Definition set_owned (s : Z) (b : bool) (t : Tags) : Tags :=
  t <| isGPUOwned ::= λ o, if b then {[s]} ∪ o else o ∖ {[s]} |>.
Definition tstat (name : string) (t : Tags) : Tags := t <| tstats ::= stat_inc name |>.
Definition tstat_at (name : string) (i : Z) (t : Tags) : Tags :=
  t <| tstats ::= stat_inc_at name i |>.
(** [if (b) ...]. *)
Definition when (b : bool) (f : Tags → Tags) (t : Tags) : Tags := if b then f t else t.

(** ** Addresses *)

(** The block number is truncated to [unsigned int]. *)
Definition getSetTagFromAddr (a : Addr) : Z * Z :=
  let cacheBlock := u32 (a / dramCache_block_size) in
  (u32 (cacheBlock mod dramCache_num_sets), u32 (cacheBlock / dramCache_num_sets)).
Definition regenerateBlkAddr (s tag : Z) : Addr :=
  u64 ((tag * dramCache_num_sets + s) * dramCache_block_size).
Definition blockAlign (a : Addr) : Addr := Z.ldiff a (dramCache_block_size - 1).

(** ** Lookup *)

(** [std::count(begin + a, begin + b, true)] over [isGPUOwned]. *)
Definition count_owned (t : Tags) (a b : Z) : Z :=
  Z.of_nat (length (List.filter (owned t) (seqZ a (b - a)))).

(** [name = v] if [v > name.value()]. *)
Definition stat_max (name : string) (i v : Z) (st : stats) : stats :=
  if stat_get name i st <? v then stat_set name i v st else st.

Definition sample_row (t : Tags) (st : stats) (r : Z) : stats :=
  let gpu_row_counter := count_owned t (r * 15) (15 * (r + 1) - 1) in
  let st := stat_max "dramCache_max_gpu_lines_per_row" r gpu_row_counter st in
  let st := if 3 <? gpu_row_counter
            then stat_inc_at "dramCache_max_gpu_lines_per_row_above_20" r st else st in
  let st := if 7 <? gpu_row_counter
            then stat_inc_at "dramCache_max_gpu_lines_per_row_above_50" r st else st in
  if 12 <? gpu_row_counter
  then stat_inc_at "dramCache_max_gpu_lines_per_row_above_80" r st else st.

(** The occupancy sample, once in ten GPU accesses. *)
Definition sample_gpu_lines (t : Tags) : Tags :=
  let t := t <| max_gpu_lines_sample_counter ::= λ c, (c + 1) mod 10 |> in
  if max_gpu_lines_sample_counter t =? 0 then
    let n := count_owned t 0 dramCache_num_sets in
    t <| total_gpu_lines := n |>
      <| tstats ::= λ st,
           foldl (sample_row t) (stat_max "dramCache_max_gpu_lines" 0 n st)
             (seqZ 0 cache_totalRows) |>
  else t.

(** [total_gpu_dirty_lines++] with its maximum, and [total_gpu_dirty_lines--];
    the counter is a [uint64_t]. *)
Definition gpu_dirty_inc (t : Tags) : Tags :=
  let n := u64 (total_gpu_dirty_lines t + 1) in
  t <| total_gpu_dirty_lines := n |> <| tstats ::= stat_max "dramCache_max_gpu_dirty_lines" 0 n |>.
Definition gpu_dirty_dec (t : Tags) : Tags :=
  t <| total_gpu_dirty_lines ::= λ n, u64 (n - 1) |>.

(** The change of owner on a hit. *)
Definition hit_owner (p : Packet) (s : Z) (t : Tags) : Tags :=
  if isGPU p then
    when (negb (owned t s)) (λ t, tstat "switched_to_gpu_line" (set_owned s true t)) t
  else
    let t := when (owned t s) (λ t, tstat "switched_to_cpu_line" (set_owned s false t)) t in
    when (negb (contextId p =? 0)) (tstat "dramCache_noncpu0_cpu_hits") t.

(** A write hit makes the line dirty and enters it in the filter. *)
Definition hit_write (p : Packet) (s : Z) (t : Tags) : Tags :=
  let t := tstat "dramCache_write_hits" t in
  let t := when (negb (isGPU p)) (tstat "dramCache_cpu_write_hits") t in
  let t := when (negb (dirty (line t s)) && owned t s) gpu_dirty_inc t in
  if dirty (line t s) then tstat "dramCache_writes_to_dirty_lines" t
  else
    let t := when bloomFilterEnable (λ t, t <| cbf ::= bf_add (blockAlign (addr p)) |>) t in
    upd_line s (λ l, l <| dirty := true |>) t.

Definition lookup_hit (p : Packet) (s : Z) (t : Tags) : Tags :=
  let t := hit_owner p s t in
  if isRead (cmd p) then
    when (negb (isGPU p)) (tstat "dramCache_cpu_read_hits") (tstat "dramCache_read_hits" t)
  else hit_write p s t.

(** The accounting of the line that a miss is about to replace. *)
Definition miss_evict (p : Packet) (s : Z) (t : Tags) : Tags :=
  if valid (line t s) then
    let t := tstat "dramCache_evicts" t in
    let t := when (dirty (line t s)) (λ t,
      when (isRead (cmd p)) (tstat "dramCache_write_backs_on_read")
        (tstat "dramCache_write_backs" t)) t in
    if owned t s then
      let t := tstat (if isGPU p then "dramCache_gpu_replaced_gpu"
                      else "dramCache_cpu_replaced_gpu") t in
      when (dirty (line t s)) gpu_dirty_dec t
    else when (isGPU p) (tstat "dramCache_gpu_replaced_cpu") t
  else t.

Definition lookup_miss (p : Packet) (s : Z) (t : Tags) : Tags :=
  let t := miss_evict p s t in
  if isRead (cmd p) then
    when (negb (isGPU p)) (tstat "dramCache_cpu_read_misses") (tstat "dramCache_read_misses" t)
  else
    let t := tstat "dramCache_write_misses" t in
    let t := when (negb (isGPU p)) (tstat "dramCache_cpu_write_misses") t in
    when (isGPU p && negb (dirty (line t s) && owned t s) && dramCache_write_allocate)
      gpu_dirty_inc t.

(** The access counters at the start of a lookup. *)
Definition lookup_account (p : Packet) (s : Z) (t : Tags) : Tags :=
  let cacheRow := s / 15 in
  let t := tstat_at "dramCache_accesses_per_row" cacheRow t in
  if isGPU p then sample_gpu_lines (tstat_at "dramCache_gpu_accesses_per_row" cacheRow t)
  else when (negb (contextId p =? 0)) (tstat "dramCache_noncpu0_cpu_accesses") t.

(** Whether the block of an address is in the cache. *)
Definition tag_match (t : Tags) (a : Addr) : bool :=
  let '(s, tg) := getSetTagFromAddr a in (tag (line t s) =? tg) && valid (line t s).

Definition doCacheLookup (p : Packet) (t : Tags) : res (bool * Tags) :=
  let '(s, _) := getSetTagFromAddr (addr p) in
  assert (0 <=? s) "cacheSet >= 0";;
  assert (s <? dramCache_num_sets) "cacheSet < dramCache_num_sets";;
  let t := lookup_account p s t in
  if tag_match t (addr p) then Ok (true, lookup_hit p s t)
  else Ok (false, lookup_miss p s t).

(** ** Eviction and fill *)

(** The tag update of [doWriteBack]. *)
Definition invalidate (evictAddr : Addr) (t : Tags) : Tags :=
  upd_line (getSetTagFromAddr evictAddr).1
    (λ l, l <| valid := false |> <| dirty := false |>) t.

(** The tag update of [addToFillQueue]. *)
Definition fill_line (p : Packet) (t : Tags) : Tags :=
  let '(s, tg) := getSetTagFromAddr (addr p) in
  set_owned s (isGPU p) (upd_line s (λ _, mkLine tg true false) t).

(** The tag update of a write miss with write allocation: the valid bit is left
    as it is. *)
Definition write_alloc_line (p : Packet) (t : Tags) : Tags :=
  let '(s, tg) := getSetTagFromAddr (addr p) in
  set_owned s (isGPU p) (upd_line s (λ l, l <| tag := tg |> <| dirty := true |>) t).
End tags.
#[global] Arguments tag_match : simpl never.
#[global] Arguments getSetTagFromAddr : simpl never.
#[global] Arguments doCacheLookup : simpl never.
#[global] Arguments blockAlign : simpl never.
#[global] Arguments regenerateBlkAddr : simpl never.
End CacheTags.
