(* ===== verification/CacheTagsProofs.v ===== *)
(** * The tag store implements a direct-mapped cache

    The lines, the set and tag arithmetic and the ownership bits refine an
    abstract cache that maps every set to at most one block; the filter always
    holds the dirty blocks, so a request that bypasses the cache because the
    filter does not know its block never misses dirty data. *)

From S2P Require Import Prelude Packet CacheTags.
Import MemCmd Packet CacheTags.

Module CacheTagsProofs.
Section proofs.
Context `{P : CacheParams} `{B : BloomFilter}.
Local Abbreviation N := dramCache_num_sets.
Local Abbreviation bs := dramCache_block_size.

(** Blocks of a power of two bytes; set numbers fit an [unsigned int]. *)
Record cache_geometry : Prop :=
  { geo_block : ∃ k, 0 ≤ k ≤ 32 ∧ bs = 2 ^ k;
    geo_sets : 0 < N < 2 ^ 32 }.
(** The addresses whose block number fits an [unsigned int]. *)
Definition in_reach (a : Addr) : Prop := 0 ≤ a < 2 ^ 32 * bs.

Context (G : cache_geometry).

(** ** Set and tag arithmetic *)

Lemma block_pos : 0 < bs ≤ 2 ^ 32.
Proof.
  destruct (geo_block G) as (k & Hk & ->). split; [apply Z.pow_pos_nonneg; lia|].
  apply Z.pow_le_mono_r; lia.
Qed.

Lemma blockAlign_eq a : 0 ≤ a → blockAlign a = a / bs * bs.
Proof.
  intros Ha. unfold blockAlign. destruct (geo_block G) as (k & Hk & ->).
  replace (2 ^ k - 1) with (Z.ones k) by (rewrite Z.ones_equiv; lia).
  rewrite Z.ldiff_ones_r, Z.shiftr_div_pow2, Z.shiftl_mul_pow2 by lia. done.
Qed.

Lemma block_range a : in_reach a → 0 ≤ a / bs < 2 ^ 32.
Proof.
  intros [H1 H2]. pose proof block_pos. split; [apply Z.div_pos; lia|].
  apply Z.div_lt_upper_bound; lia.
Qed.

(** In reach, set and tag are the remainder and quotient of the block number. *)
Lemma getSetTag_eq a : in_reach a → getSetTagFromAddr a = (a / bs mod N, a / bs / N).
Proof.
  intros H. pose proof (block_range a H) as Hb. pose proof (geo_sets G).
  unfold getSetTagFromAddr. rewrite (u32_small (a / bs)) by done.
  rewrite !u32_small; [done| |].
  - split; [apply Z.div_pos; lia|]. apply Z.div_lt_upper_bound; nia.
  - pose proof (Z.mod_pos_bound (a / bs) N). lia.
Qed.

Lemma regenerate_eq s tg : 0 ≤ s → 0 ≤ tg → tg * N + s < 2 ^ 32 →
  regenerateBlkAddr s tg = (tg * N + s) * bs.
Proof.
  intros Hs Ht H. pose proof block_pos. pose proof (geo_sets G).
  unfold regenerateBlkAddr. apply u64_small. split; [nia|].
  change (2 ^ 64) with (2 ^ 32 * 2 ^ 32). nia.
Qed.

Lemma block_of_regenerate s tg : 0 ≤ s → 0 ≤ tg → tg * N + s < 2 ^ 32 →
  regenerateBlkAddr s tg / bs = tg * N + s.
Proof.
  intros. rewrite regenerate_eq by done. pose proof block_pos. apply Z.div_mul. lia.
Qed.

Lemma regenerate_reach s tg : 0 ≤ s → 0 ≤ tg → tg * N + s < 2 ^ 32 →
  in_reach (regenerateBlkAddr s tg).
Proof.
  intros. rewrite regenerate_eq by done. pose proof block_pos. unfold in_reach.
  pose proof (geo_sets G). split; nia.
Qed.

Lemma block_split a : in_reach a → a / bs / N * N + a / bs mod N = a / bs.
Proof. intros H. pose proof (geo_sets G). pose proof (Z.div_mod (a / bs) N). lia. Qed.
Lemma getSetTag_regenerate s tg : 0 ≤ s < N → 0 ≤ tg → tg * N + s < 2 ^ 32 →
  getSetTagFromAddr (regenerateBlkAddr s tg) = (s, tg).
Proof.
  intros Hs Ht Hr. rewrite getSetTag_eq by (try apply regenerate_reach; done || lia).
  rewrite block_of_regenerate by (done || lia). f_equal.
  - rewrite Z.add_comm, Z_mod_plus_full. apply Z.mod_small; lia.
  - rewrite Z.div_add_l by lia. rewrite Z.div_small by lia. lia.
Qed.

(** ** The abstract cache *)

Record aline := mkALine { a_blk : Z; a_dirty : bool; a_gpu : bool }.

Definition abs_line (t : Tags) (s : Z) (l : Line) : option aline :=
  if valid l then Some (mkALine (tag l * N + s) (dirty l) (owned t s)) else None.
Definition abs (t : Tags) : gmap Z aline := map_imap (abs_line t) (lines t).

(** An access to a block: a hit marks the line and moves it to the requester. *)
Definition spec_lookup (wr gpu : bool) (blk : Z) (c : gmap Z aline) : bool * gmap Z aline :=
  match c !! (blk mod N) with
  | Some e =>
      if a_blk e =? blk
      then (true, <[blk mod N := mkALine blk (a_dirty e || wr) gpu]> c) else (false, c)
  | None => (false, c)
  end.
(** A fill replaces the line of the set; the dirty block it replaces is written
    back. *)
Definition spec_fill (gpu : bool) (blk : Z) (c : gmap Z aline) : option Z * gmap Z aline :=
  (match c !! (blk mod N) with
   | Some e => if a_dirty e then Some (a_blk e) else None
   | None => None
   end, <[blk mod N := mkALine blk false gpu]> c).

(** The tag part of [addToFillQueue]: the dirty line leaves the filter and is
    invalidated by [doWriteBack], then the line is replaced. *)
Definition fill_tags (p : Packet) (t : Tags) : option Addr * Tags :=
  let '(s, _) := getSetTagFromAddr (addr p) in
  let evictAddr := regenerateBlkAddr s (tag (line t s)) in
  if dirty (line t s) && valid (line t s)
  then (Some evictAddr, fill_line p (invalidate evictAddr
          (when bloomFilterEnable (λ t, t <| cbf ::= bf_remove evictAddr |>) t)))
  else (None, fill_line p t).

Record tags_ok (t : Tags) : Prop :=
  { ok_tag : ∀ s, 0 ≤ s < N → 0 ≤ tag (line t s) ∧ tag (line t s) * N + s < 2 ^ 32;
    ok_dirty : ∀ s, dirty (line t s) = true → valid (line t s) = true;
    ok_range : ∀ s, valid (line t s) = true → 0 ≤ s < N }.

(** *** What a lookup changes *)

Lemma account_core p s t :
  lines (lookup_account p s t) = lines t ∧ isGPUOwned (lookup_account p s t) = isGPUOwned t ∧
  cbf (lookup_account p s t) = cbf t.
Proof.
  unfold lookup_account, sample_gpu_lines, when. destruct (isGPU p); cbn.
  - by destruct ((_ mod 10) =? 0).
  - by destruct (negb (contextId p =? 0)).
Qed.

Lemma miss_core p s t :
  lines (lookup_miss p s t) = lines t ∧ isGPUOwned (lookup_miss p s t) = isGPUOwned t ∧
  cbf (lookup_miss p s t) = cbf t.
Proof.
  assert (∀ t, lines (miss_evict p s t) = lines t ∧
    isGPUOwned (miss_evict p s t) = isGPUOwned t ∧ cbf (miss_evict p s t) = cbf t) as H.
  { intros t'. unfold miss_evict, when.
    repeat match goal with |- context [if ?b then _ else _] => destruct b; cbn end; done. }
  destruct (H t) as (H1 & H2 & H3). rewrite <-H1, <-H2, <-H3.
  unfold lookup_miss. generalize (miss_evict p s t). intros t'. unfold when, gpu_dirty_inc.
  repeat match goal with |- context [if ?b then _ else _] => destruct b; cbn end; done.
Qed.

Lemma hit_owner_core p s t :
  lines (hit_owner p s t) = lines t ∧ cbf (hit_owner p s t) = cbf t ∧
  isGPUOwned (hit_owner p s t) =
    if isGPU p then {[s]} ∪ isGPUOwned t else isGPUOwned t ∖ {[s]}.
Proof.
  unfold hit_owner, when, owned. destruct (isGPU p).
  - case_bool_decide; cbn; split_and!; [done..|set_solver|done|done|done].
  - case_bool_decide; cbn; destruct (negb (contextId p =? 0)); cbn; split_and!; try done;
      set_solver.
Qed.

Lemma hit_write_core p s t :
  isGPUOwned (hit_write p s t) = isGPUOwned t ∧
  (if dirty (line t s) then lines (hit_write p s t) = lines t ∧ cbf (hit_write p s t) = cbf t
   else lines (hit_write p s t) = <[s := (line t s) <| dirty := true |>]> (lines t) ∧
     cbf (hit_write p s t) =
       if bloomFilterEnable then bf_add (blockAlign (addr p)) (cbf t) else cbf t).
Proof.
  unfold hit_write.
  set (t1 := when (negb (isGPU p)) _ _).
  assert (lines t1 = lines t ∧ isGPUOwned t1 = isGPUOwned t ∧ cbf t1 = cbf t) as (E1 & E2 & E3)
    by (subst t1; unfold when; by destruct (negb (isGPU p))).
  clearbody t1. set (t2 := when (_ && _) gpu_dirty_inc t1).
  assert (lines t2 = lines t ∧ isGPUOwned t2 = isGPUOwned t ∧ cbf t2 = cbf t) as (E4 & E5 & E6).
  { subst t2. unfold when. destruct (_ && _); cbn; by rewrite E1, E2, E3. }
  clearbody t2. unfold line. rewrite <-!E4. fold (line t2 s).
  destruct (dirty (line t2 s)); cbn; [by rewrite E5, E6|].
  unfold when. destruct bloomFilterEnable; cbn; rewrite E5, E6; done.
Qed.

Lemma lookup_hit_core p s t :
  isGPUOwned (lookup_hit p s t) =
    (if isGPU p then {[s]} ∪ isGPUOwned t else isGPUOwned t ∖ {[s]}) ∧
  (if isRead (cmd p) || dirty (line t s)
   then lines (lookup_hit p s t) = lines t ∧ cbf (lookup_hit p s t) = cbf t
   else lines (lookup_hit p s t) = <[s := (line t s) <| dirty := true |>]> (lines t) ∧
     cbf (lookup_hit p s t) =
       if bloomFilterEnable then bf_add (blockAlign (addr p)) (cbf t) else cbf t).
Proof.
  unfold lookup_hit. destruct (hit_owner_core p s t) as (E1 & E2 & E3).
  revert E1 E2 E3. generalize (hit_owner p s t). intros t1 E1 E2 E3.
  destruct (isRead (cmd p)); cbn [orb].
  - unfold when. destruct (negb (isGPU p)); cbn; rewrite E1, E2, E3; done.
  - destruct (hit_write_core p s t1) as [F1 F2]. rewrite F1, E3. split; [done|].
    unfold line in *. rewrite E1, E2 in F2. exact F2.
Qed.

(** *** Refinement, one operation at a time *)

Lemma abs_lookup t s : abs t !! s = abs_line t s (line t s).
Proof.
  unfold abs. rewrite map_lookup_imap. unfold line. by destruct (lines t !! s).
Qed.

Lemma line_insert t t' s l s' : lines t' = <[s := l]> (lines t) →
  line t' s' = if decide (s = s') then l else line t s'.
Proof. intros E. unfold line. rewrite E, lookup_insert. by case_decide. Qed.

Lemma tag_match_eq t a : in_reach a →
  tag_match t a = (tag (line t (a / bs mod N)) =? a / bs / N) && valid (line t (a / bs mod N)).
Proof. intros H. unfold tag_match. by rewrite getSetTag_eq. Qed.

Lemma block_eq blk tg : 0 ≤ blk → tg * N + blk mod N = blk ↔ tg = blk / N.
Proof. intros H. pose proof (geo_sets G). pose proof (Z.div_mod blk N). nia. Qed.

Lemma mod_set_range blk : 0 ≤ blk mod N < N.
Proof. apply Z.mod_pos_bound. apply (geo_sets G). Qed.

(** The outcome of a lookup is that of the abstract cache. *)
Lemma tag_match_spec t a wr gpu : in_reach a →
  tag_match t a = (spec_lookup wr gpu (a / bs) (abs t)).1.
Proof.
  intros Ha. rewrite tag_match_eq by done. unfold spec_lookup. rewrite abs_lookup.
  unfold abs_line. destruct (valid _); [|by rewrite andb_false_r]. cbn.
  pose proof (block_range a Ha).
  destruct (Z.eqb_spec (tag (line t (a / bs mod N))) (a / bs / N)) as [E|E].
  - rewrite (proj2 (Z.eqb_eq _ _)); [done|]. apply block_eq; [lia|done].
  - rewrite (proj2 (Z.eqb_neq _ _)); [done|]. rewrite block_eq by lia. done.
Qed.

Lemma abs_insert t t' s l : lines t' = <[s := l]> (lines t) → valid l = true →
  (∀ s', s' ≠ s → owned t' s' = owned t s') →
  abs t' = <[s := mkALine (tag l * N + s) (dirty l) (owned t' s)]> (abs t).
Proof.
  intros El Hv Ho. apply map_eq. intros s'. rewrite lookup_insert, !abs_lookup.
  rewrite (line_insert t t' s l s' El). case_decide as E; subst.
  - unfold abs_line. by rewrite Hv.
  - unfold abs_line. by rewrite Ho.
Qed.

Lemma abs_ext t t' : lines t' = lines t → isGPUOwned t' = isGPUOwned t → abs t' = abs t.
Proof. intros E1 E2. unfold abs, abs_line, owned. by rewrite E1, E2. Qed.

Lemma tags_ok_insert t t' s l : lines t' = <[s := l]> (lines t) → tags_ok t →
  0 ≤ s < N → 0 ≤ tag l → tag l * N + s < 2 ^ 32 → (dirty l = true → valid l = true) →
  tags_ok t'.
Proof.
  intros El [H1 H2 H3] Hs Ht Hb Hd.
  split; intros s'; rewrite (line_insert t t' s l s' El); case_decide; subst; auto.
Qed.

Lemma tags_ok_ext t t' : lines t' = lines t → tags_ok t → tags_ok t'.
Proof. intros E [H1 H2 H3]. unfold line in *. split; unfold line; rewrite E; auto. Qed.

Lemma owned_hit t t' (gpu : bool) s :
  isGPUOwned t' = (if gpu then {[s]} ∪ isGPUOwned t else isGPUOwned t ∖ {[s]}) →
  owned t' s = gpu ∧ ∀ s', s' ≠ s → owned t' s' = owned t s'.
Proof.
  intros E. unfold owned. rewrite E. split.
  - destruct gpu; [apply bool_decide_eq_true_2|apply bool_decide_eq_false_2]; set_solver.
  - intros s' Hs. apply bool_decide_ext. destruct gpu; set_solver.
Qed.

(** The state after a hit, whether it changes the line or not. *)
Lemma abs_hit p t s : valid (line t s) = true →
  abs (lookup_hit p s t) =
    <[s := mkALine (tag (line t s) * N + s) (dirty (line t s) || negb (isRead (cmd p)))
             (isGPU p)]> (abs t).
Proof.
  intros Hv. destruct (lookup_hit_core p s t) as [Eo El].
  destruct (owned_hit _ _ _ _ Eo) as [Ho1 Ho2].
  destruct (isRead (cmd p) || dirty (line t s)) eqn:Er.
  - rewrite (abs_insert t _ s (line t s)); [|destruct El as [-> _]|done|done].
    + rewrite Ho1. do 2 f_equal. destruct (isRead (cmd p)), (dirty (line t s)); done.
    + symmetry. apply insert_id. unfold line in *. by destruct (lines t !! s).
  - apply orb_false_iff in Er as [-> ->]. destruct El as [El _].
    by rewrite (abs_insert t _ s _ El), Ho1.
Qed.

Lemma lookup_ok p t : tags_ok t → in_reach (addr p) →
  let blk := addr p / bs in
  ∃ t', doCacheLookup p t = Ok (tag_match t (addr p), t') ∧ tags_ok t' ∧
    spec_lookup (negb (isRead (cmd p))) (isGPU p) blk (abs t) = (tag_match t (addr p), abs t') ∧
    cbf t' = if tag_match t (addr p) && negb (isRead (cmd p)) && negb (dirty (line t (blk mod N)))
                && bloomFilterEnable
             then bf_add (blockAlign (addr p)) (cbf t) else cbf t.
Proof.
  intros Ht Ha blk. unfold doCacheLookup. rewrite getSetTag_eq by done. fold blk.
  pose proof (mod_set_range blk) as Hs. rewrite !assert_bind by lia.
  destruct (account_core p (blk mod N) t) as (A1 & A2 & A3).
  set (t1 := lookup_account p (blk mod N) t) in *. clearbody t1.
  assert (∀ s, line t1 s = line t s) as Al by (intros; unfold line; by rewrite A1).
  assert (tag_match t1 (addr p) = tag_match t (addr p)) as -> by (rewrite !tag_match_eq by done; by rewrite Al).
  pose proof (tag_match_spec t (addr p) (negb (isRead (cmd p))) (isGPU p) Ha) as Hm. fold blk in Hm.
  destruct (tag_match t (addr p)) eqn:Em.
  - rewrite tag_match_eq in Em by done. fold blk in Em. apply andb_true_iff in Em as [Et Ev].
    apply Z.eqb_eq in Et. eexists. split; [reflexivity|].
    destruct (lookup_hit_core p (blk mod N) t1) as [_ El]. rewrite Al in El. split_and!.
    + destruct (isRead (cmd p) || dirty _); destruct El as [El _].
      * eapply tags_ok_ext; [exact El|]. by eapply tags_ok_ext.
      * eapply tags_ok_insert; [exact El|by eapply tags_ok_ext|done|..];
          cbn; try apply (ok_tag _ Ht); done.
    + rewrite abs_hit by by rewrite Al. rewrite (abs_ext t t1) by done. rewrite Al.
      unfold spec_lookup in Hm |- *. rewrite (abs_lookup t (blk mod N)) in Hm |- *.
      unfold abs_line in Hm |- *. rewrite Ev in Hm |- *. cbn in Hm |- *. destruct (_ =? blk) eqn:Eb in Hm; [|done]. rewrite Eb.
      apply Z.eqb_eq in Eb. by rewrite Eb.
    + rewrite A3 in El. destruct (isRead (cmd p)), (dirty (line t (blk mod N)));
        cbn in *; apply El.
  - eexists. split; [reflexivity|]. destruct (miss_core p (blk mod N) t1) as (M1 & M2 & M3).
    split_and!.
    + eapply tags_ok_ext; [exact M1|]. by eapply tags_ok_ext.
    + rewrite (abs_ext t (lookup_miss p (blk mod N) t1)) by (rewrite ?M1, ?M2; done).
      unfold spec_lookup in *. destruct (abs t !! _) as [e|]; [|done].
      by destruct (a_blk e =? blk).
    + by rewrite M3.
Qed.

Lemma fill_line_core p t : in_reach (addr p) →
  let blk := addr p / bs in
  lines (fill_line p t) = <[blk mod N := mkLine (blk / N) true false]> (lines t) ∧
  isGPUOwned (fill_line p t) = (if isGPU p then {[blk mod N]} ∪ isGPUOwned t
                                else isGPUOwned t ∖ {[blk mod N]}) ∧
  cbf (fill_line p t) = cbf t.
Proof. intros Ha blk. unfold fill_line. by rewrite getSetTag_eq. Qed.

(** The tag part of a fill: whatever happens to the old line, the new one is in
    its place. *)
Lemma fill_tags_core p t : tags_ok t → in_reach (addr p) →
  let blk := addr p / bs in
  let s := blk mod N in
  let '(ev, t') := fill_tags p t in
  lines t' = <[s := mkLine (blk / N) true false]> (lines t) ∧
  isGPUOwned t' = (if isGPU p then {[s]} ∪ isGPUOwned t else isGPUOwned t ∖ {[s]}) ∧
  ev = (if dirty (line t s)
        then Some ((tag (line t s) * N + s) * bs) else None) ∧
  cbf t' = match ev with
           | Some a => if bloomFilterEnable then bf_remove a (cbf t) else cbf t
           | None => cbf t
           end.
Proof.
  intros Ht Ha blk s. pose proof (mod_set_range blk) as Hs.
  destruct (ok_tag _ Ht s Hs) as [Htag Htb].
  unfold fill_tags. rewrite getSetTag_eq by done. fold blk. fold s.
  destruct (dirty (line t s)) eqn:Ed; cbn [andb].
  - rewrite (ok_dirty _ Ht s Ed). rewrite regenerate_eq by lia.
    set (a := (tag (line t s) * N + s) * bs).
    set (t1 := when bloomFilterEnable _ t).
    assert (lines t1 = lines t ∧ isGPUOwned t1 = isGPUOwned t ∧
            cbf t1 = if bloomFilterEnable then bf_remove a (cbf t) else cbf t) as (E1 & E2 & E3)
      by (subst t1; unfold when; by destruct bloomFilterEnable).
    clearbody t1. destruct (fill_line_core p (invalidate a t1) Ha) as (F1 & F2 & F3).
    fold blk in F1, F2. fold s in F1, F2. rewrite F1, F2, F3.
    assert ((getSetTagFromAddr a).1 = s) as Es.
    { subst a. rewrite <-(regenerate_eq s) by lia. by rewrite getSetTag_regenerate by lia. }
    unfold invalidate. rewrite Es. unfold upd_line. cbn. rewrite E1, E2, E3.
    by rewrite insert_insert, decide_True.
  - destruct (fill_line_core p t Ha) as (F1 & F2 & F3). done.
Qed.

Lemma fill_ok p t : tags_ok t → in_reach (addr p) →
  let '(ev, t') := fill_tags p t in
  tags_ok t' ∧
  spec_fill (isGPU p) (addr p / bs) (abs t) = ((λ a, a / bs) <$> ev, abs t') ∧
  cbf t' = match ev with
           | Some a => if bloomFilterEnable then bf_remove a (cbf t) else cbf t
           | None => cbf t
           end.
Proof.
  intros Ht Ha. pose proof (fill_tags_core p t Ht Ha) as H. cbv zeta in H.
  set (blk := addr p / bs) in *. destruct (fill_tags p t) as [ev t'].
  destruct H as (E1 & E2 & E3 & E4). pose proof (block_range (addr p) Ha) as Hb. fold blk in Hb.
  pose proof (mod_set_range blk) as Hs. pose proof block_pos.
  assert (blk / N * N + blk mod N = blk) as Hsplit by (by apply block_eq; [lia|]).
  split_and!; [|unfold spec_fill; f_equal|done].
  - eapply tags_ok_insert; [exact E1|done|done|..]; cbn; [apply Z.div_pos; lia|lia|done].
  - rewrite abs_lookup. unfold abs_line. rewrite E3. destruct (valid (line t (blk mod N))) eqn:Ev.
    + cbn. destruct (dirty _); [|done]. cbn. by rewrite Z.div_mul by lia.
    + destruct (dirty (line t (blk mod N))) eqn:Ed; [|done].
      rewrite (ok_dirty _ Ht _ Ed) in Ev. done.
  - destruct (owned_hit _ _ _ _ E2) as [Ho1 Ho2].
    rewrite (abs_insert t t' (blk mod N) (mkLine (blk / N) true false)) by done. cbn.
    by rewrite Ho1, Hsplit.
Qed.

(** ** Runs of the tag store *)

Inductive top : Type :=
| TLookup (p : Packet)
| TFill (p : Packet).
(** A hit or miss; the block a fill writes back. *)
Inductive outcome : Type :=
| OHit (hit : bool)
| OEvict (blk : option Z).

Definition top_pkt (op : top) : Packet := match op with TLookup p | TFill p => p end.

Definition tag_step (op : top) (t : Tags) : res (outcome * Tags) :=
  match op with
  | TLookup p => ht ← doCacheLookup p t; Ok (OHit ht.1, ht.2)
  | TFill p =>
      let '(ev, t) := fill_tags p t in Ok (OEvict ((λ a, a / bs) <$> ev), t)
  end.
Definition spec_step (op : top) (c : gmap Z aline) : outcome * gmap Z aline :=
  match op with
  | TLookup p =>
      let '(h, c) := spec_lookup (negb (isRead (cmd p))) (isGPU p) (addr p / bs) c in (OHit h, c)
  | TFill p => let '(b, c) := spec_fill (isGPU p) (addr p / bs) c in (OEvict b, c)
  end.

Definition tag_run (t : Tags) (ops : list top) : res (list outcome * Tags) :=
  foldM (λ a op, ot ← tag_step op a.2; Ok (a.1 ++ [ot.1], ot.2)) ([], t) ops.
Definition cache_run (c : gmap Z aline) (ops : list top) : list outcome * gmap Z aline :=
  foldl (λ a op, let '(o, c) := spec_step op a.2 in (a.1 ++ [o], c)) ([], c) ops.

Lemma tag_step_ok op t : tags_ok t → in_reach (addr (top_pkt op)) →
  ∃ o t', tag_step op t = Ok (o, t') ∧ tags_ok t' ∧ spec_step op (abs t) = (o, abs t').
Proof.
  intros Ht Ha. destruct op as [p|p]; cbn [top_pkt] in Ha; unfold tag_step, spec_step.
  - destruct (lookup_ok p t Ht Ha) as (t' & -> & Ht' & -> & _). eexists _, t'. eauto.
  - pose proof (fill_ok p t Ht Ha) as H. destruct (fill_tags p t) as [ev t'].
    destruct H as (Ht' & -> & _). eexists _, t'. eauto.
Qed.

Lemma tag_run_ok ops t acc : tags_ok t → Forall (λ op, in_reach (addr (top_pkt op))) ops →
  ∃ out t', foldM (λ a op, ot ← tag_step op a.2; Ok (a.1 ++ [ot.1], ot.2)) (acc, t) ops =
      Ok (out, t') ∧ tags_ok t' ∧
    foldl (λ a op, let '(o, c) := spec_step op a.2 in (a.1 ++ [o], c)) (acc, abs t) ops =
      (out, abs t').
Proof.
  revert t acc. induction ops as [|op ops IH]; intros t acc Ht Hops; [by exists acc, t|].
  apply Forall_cons in Hops as [Ha Hops].
  destruct (tag_step_ok op t Ht Ha) as (o & t' & E & Ht' & Es).
  cbn [foldM foldl fst snd]. rewrite E. cbn [mbind res_bind fst snd].
  rewrite Es. by apply IH.
Qed.

Lemma init_tags_ok : tags_ok init_tags.
Proof.
  pose proof (geo_sets G). split; intros s; unfold line, init_tags; cbn; rewrite lookup_empty;
    cbn; [lia|done|done].
Qed.

Lemma abs_init : abs init_tags = ∅.
Proof. apply map_eq. intros s. rewrite abs_lookup, lookup_empty. unfold line. cbn. by rewrite lookup_empty. Qed.

(** ** The filter holds the dirty blocks *)

Definition dirty_blocks (c : gmap Z aline) : gset Addr :=
  list_to_set ((λ e, a_blk e * bs) <$> List.filter a_dirty (map_to_list c).*2).

Definition cache_wf (c : gmap Z aline) : Prop := ∀ s e, c !! s = Some e → a_blk e mod N = s.

Lemma elem_of_dirty c x :
  x ∈ dirty_blocks c ↔ ∃ s e, c !! s = Some e ∧ a_dirty e = true ∧ x = a_blk e * bs.
Proof.
  unfold dirty_blocks. rewrite elem_of_list_to_set, list_elem_of_fmap. split.
  - intros (e & -> & He). apply list_elem_of_In, List.filter_In in He as [He Hd].
    apply list_elem_of_In, list_elem_of_fmap in He as ([s e'] & -> & He).
    apply elem_of_map_to_list in He. eauto.
  - intros (s & e & He & Hd & ->). exists e. split; [done|].
    apply list_elem_of_In, List.filter_In. split; [|done].
    apply list_elem_of_In, list_elem_of_fmap. exists (s, e). split; [done|].
    by apply elem_of_map_to_list.
Qed.

Lemma abs_wf t : tags_ok t → cache_wf (abs t).
Proof.
  intros Ht s e. rewrite abs_lookup. unfold abs_line. destruct (valid _) eqn:Ev; [|done].
  intros [= <-]. cbn. pose proof (ok_range _ Ht s Ev).
  rewrite Z.add_comm, Z_mod_plus_full. apply Z.mod_small. lia.
Qed.

(** Replacing the line of one set. *)
Lemma dirty_insert c s e : cache_wf c → a_blk e mod N = s →
  dirty_blocks (<[s := e]> c) =
    (if a_dirty e then {[a_blk e * bs]} else ∅) ∪
    (match c !! s with
     | Some o => if a_dirty o then dirty_blocks c ∖ {[a_blk o * bs]} else dirty_blocks c
     | None => dirty_blocks c
     end).
Proof.
  intros Hwf He. pose proof block_pos as Hbs. apply set_eq. intros x.
  rewrite elem_of_union. setoid_rewrite elem_of_dirty.
  assert (∀ o s', c !! s = Some o → ∀ e', c !! s' = Some e' → s ≠ s' →
    a_blk e' * bs ≠ a_blk o * bs) as Hne.
  { intros o s' Ho e' He' Hs E. apply Hs. rewrite <-(Hwf _ _ Ho), <-(Hwf _ _ He').
    f_equal. nia. }
  assert (x ∈ (match c !! s with
     | Some o => if a_dirty o then dirty_blocks c ∖ {[a_blk o * bs]} else dirty_blocks c
     | None => dirty_blocks c end) ↔
     ∃ s' e', s ≠ s' ∧ c !! s' = Some e' ∧ a_dirty e' = true ∧ x = a_blk e' * bs) as ->.
  { destruct (c !! s) as [o|] eqn:Eo; [destruct (a_dirty o) eqn:Ed|].
    - rewrite elem_of_difference, elem_of_dirty, elem_of_singleton. split.
      + intros [(s' & e' & ? & ? & ->) Hx]. exists s', e'. split; [|done]. intros ->. congruence.
      + intros (s' & e' & Hs & ? & ? & ->). split; [by eauto|]. by eapply Hne.
    - rewrite elem_of_dirty. split; [|naive_solver].
      intros (s' & e' & ? & ? & ->). exists s', e'. split; [|done]. intros ->. congruence.
    - rewrite elem_of_dirty. split; [|naive_solver].
      intros (s' & e' & ? & ? & ->). exists s', e'. split; [|done]. intros ->. congruence. }
  split.
  - intros (s' & e' & Hl & Hd & ->). rewrite lookup_insert in Hl. case_decide.
    + injection Hl as <-. rewrite Hd. set_solver.
    + right. eauto 10.
  - intros [Hx|(s' & e' & Hs & Hl & Hd & ->)].
    + destruct (a_dirty e) eqn:Hd; [|set_solver]. apply elem_of_singleton in Hx as ->.
      exists s, e. by rewrite lookup_insert, decide_True.
    + exists s', e'. by rewrite lookup_insert_ne.
Qed.
End proofs.

(** What the filter promises ([counting_bloom_filter] as documented): as long as
    no counter overflows, an element that was added and not removed is found.
    [bf_room] says that no counter of the element is about to overflow. *)
Class BloomLaws `{B : BloomFilter} := mkBloomLaws
  { bf_rep : filter_t → gset Addr → Prop;
    bf_room : Addr → filter_t → bool;
    bf_new_ok : bf_rep bf_new ∅;
    bf_add_ok f X x : bf_rep f X → x ∉ X → bf_room x f = true → bf_rep (bf_add x f) ({[x]} ∪ X);
    bf_remove_ok f X x : bf_rep f X → x ∈ X → bf_rep (bf_remove x f) (X ∖ {[x]});
    bf_lookup_ok f X x : bf_rep f X → x ∈ X → bf_lookup x f ≠ 0 }.

Section bloom.
Context `{P : CacheParams} `{B : BloomFilter} {L : BloomLaws} (G : cache_geometry).
Context (Hen : bloomFilterEnable = true).

(** Whether the counters have room for what an operation adds. *)
Definition op_room (op : top) (t : Tags) : bool :=
  match op with
  | TLookup p =>
      let s := (getSetTagFromAddr (addr p)).1 in
      negb (tag_match t (addr p) && negb (isRead (cmd p)) && negb (dirty (line t s))) ||
      bf_room (blockAlign (addr p)) (cbf t)
  | TFill _ => true
  end.
Fixpoint roomy (t : Tags) (ops : list top) : bool :=
  match ops with
  | [] => true
  | op :: ops =>
      op_room op t && match tag_step op t with Ok (_, t') => roomy t' ops | Fault _ => true end
  end.

Definition bloom_ok (t : Tags) : Prop := bf_rep (cbf t) (dirty_blocks (abs t)).

Lemma lookup_bloom p t : tags_ok t → in_reach (addr p) → bloom_ok t →
  op_room (TLookup p) t = true →
  ∃ t', doCacheLookup p t = Ok (tag_match t (addr p), t') ∧ bloom_ok t'.
Proof.
  intros Ht Ha Hb Hr. destruct (lookup_ok G p t Ht Ha) as (t' & E & Ht' & Es & Ec).
  exists t'. split; [done|]. unfold bloom_ok in *. cbn [op_room] in Hr.
  rewrite getSetTag_eq in Hr by done. cbn [fst] in Hr. rewrite Hen, andb_true_r in Ec.
  pose proof (block_range G (addr p) Ha) as Hbr.
  set (blk := addr p / dramCache_block_size) in *. set (s := blk mod dramCache_num_sets) in *.
  pose proof (abs_wf t Ht) as Hwf. unfold spec_lookup in Es. fold s in Es.
  rewrite abs_lookup in Es. unfold abs_line in Es. destruct (valid (line t s)) eqn:Ev.
  2: { injection Es as Es1 Es2. rewrite <-Es2. rewrite <-Es1 in Ec. cbn in Ec. by rewrite Ec. }
  cbn in Es. destruct (tag (line t s) * dramCache_num_sets + s =? blk) eqn:Eb.
  2: { injection Es as Es1 Es2. rewrite <-Es2. rewrite <-Es1 in Ec. cbn in Ec. by rewrite Ec. }
  apply Z.eqb_eq in Eb. injection Es as Es1 Es2. rewrite <-Es2. rewrite <-Es1 in Ec, Hr.
  cbn [andb] in Ec, Hr. rewrite dirty_insert by done. rewrite abs_lookup. unfold abs_line.
  rewrite Ev. cbn [a_dirty a_blk]. rewrite Eb.
  assert (∀ s' e, abs t !! s' = Some e → a_blk e = blk → s' = s) as Hu.
  { intros s' e He <-. symmetry. apply (Hwf _ _ He). }
  assert (abs t !! s = Some (mkALine blk (dirty (line t s)) (owned t s))) as Eabs.
  { rewrite abs_lookup. unfold abs_line. by rewrite Ev, Eb. }
  destruct (dirty (line t s)) eqn:Ed; cbn [orb negb andb] in *.
  - rewrite andb_false_r in Ec. rewrite Ec.
    assert (blk * dramCache_block_size ∈ dirty_blocks (abs t)).
    { apply elem_of_dirty. eexists s, _. rewrite Eabs. done. }
    replace ({[blk * dramCache_block_size]} ∪ dirty_blocks (abs t) ∖ {[blk * dramCache_block_size]})
      with (dirty_blocks (abs t)); [done|]. apply set_eq. intros x.
    destruct (decide (x = blk * dramCache_block_size)); set_solver.
  - rewrite andb_true_r in Ec, Hr. destruct (isRead (cmd p)) eqn:Erd; cbn in *.
    + rewrite Ec. by rewrite union_empty_l_L.
    + rewrite Ec. rewrite blockAlign_eq in Hr |- * by (done || apply Ha). fold blk in Hr |- *.
      apply bf_add_ok; [done| |done]. rewrite elem_of_dirty. intros (s' & e & He & Hd & Hx).
      pose proof (block_pos G). assert (a_blk e = blk) as Hblk by nia.
      rewrite (Hu _ _ He Hblk), Eabs in He. injection He as <-. done.
Qed.

Lemma fill_bloom p t : tags_ok t → in_reach (addr p) → bloom_ok t →
  bloom_ok (fill_tags p t).2.
Proof.
  intros Ht Ha Hb. pose proof (fill_ok G p t Ht Ha) as H. unfold bloom_ok in *.
  destruct (fill_tags p t) as [ev t'] eqn:E. destruct H as (Ht' & Es & Ec). cbn.
  pose proof (fill_tags_core G p t Ht Ha) as H. rewrite E in H. destruct H as (_ & _ & Eev & _).
  unfold spec_fill in Es. injection Es as Es1 Es2. rewrite <-Es2.
  rewrite dirty_insert by (done || by apply abs_wf). cbn [a_dirty]. rewrite union_empty_l_L.
  set (s := addr p / dramCache_block_size mod dramCache_num_sets) in *.
  rewrite abs_lookup in *. unfold abs_line in *. rewrite Hen in Ec.
  destruct (valid (line t s)) eqn:Ev; cbn [a_dirty a_blk].
  - destruct (dirty (line t s)) eqn:Ed; subst ev; rewrite Ec; [|done].
    apply bf_remove_ok; [done|]. apply elem_of_dirty. eexists s, _.
    rewrite abs_lookup. unfold abs_line. rewrite Ev. split; [reflexivity|]. done.
  - destruct (dirty (line t s)) eqn:Ed; [by rewrite (ok_dirty _ Ht _ Ed) in Ev|].
    subst ev. by rewrite Ec.
Qed.

Lemma run_bloom ops t acc : tags_ok t → bloom_ok t →
  Forall (λ op, in_reach (addr (top_pkt op))) ops → roomy t ops = true →
  ∃ out t', foldM (λ a op, ot ← tag_step op a.2; Ok (a.1 ++ [ot.1], ot.2)) (acc, t) ops =
    Ok (out, t') ∧ tags_ok t' ∧ bloom_ok t'.
Proof.
  revert t acc. induction ops as [|op ops IH]; intros t acc Ht Hb Hops Hr; [by exists acc, t|].
  apply Forall_cons in Hops as [Ha Hops]. cbn [roomy] in Hr. apply andb_true_iff in Hr as [Hr1 Hr2].
  destruct (tag_step_ok G op t Ht Ha) as (o & t' & E & Ht' & _).
  cbn [foldM fst snd]. rewrite E in *. cbn [mbind res_bind fst snd].
  apply IH; [done| |done|done]. destruct op as [p|p]; cbn [top_pkt] in Ha; unfold tag_step in E.
  - destruct (lookup_bloom p t Ht Ha Hb Hr1) as (t1 & E1 & Hb1). rewrite E1 in E.
    injection E as _ <-. done.
  - pose proof (fill_bloom p t Ht Ha Hb) as H. destruct (fill_tags p t) as [ev t1].
    injection E as _ <-. done.
Qed.
End bloom.

(** Set and tag identify the block.  For every address whose block number
    fits in 32 bits, the address rebuilt from its set and tag is the aligned
    address; and every set and tag that a line can hold are those of the address
    rebuilt from them. *)
Theorem set_tag_roundtrip `{P : CacheParams} (G : cache_geometry) :
  (∀ a, in_reach a →
     let '(s, tg) := getSetTagFromAddr a in
     regenerateBlkAddr s tg = blockAlign a ∧ 0 ≤ s < dramCache_num_sets) ∧
  (∀ s tg, 0 ≤ s < dramCache_num_sets → 0 ≤ tg → tg * dramCache_num_sets + s < 2 ^ 32 →
     getSetTagFromAddr (regenerateBlkAddr s tg) = (s, tg)).
Proof.
  pose proof (geo_sets G) as HN. split.
  - intros a Ha. rewrite getSetTag_eq by done. pose proof (block_range G a Ha) as Hb.
    pose proof (block_split G a Ha) as Hs.
    pose proof (Z.mod_pos_bound (a / dramCache_block_size) dramCache_num_sets).
    split; [|lia]. rewrite regenerate_eq; [|done|lia|apply Z.div_pos; lia|lia].
    rewrite Hs, blockAlign_eq; [done|done|apply Ha].
  - by apply getSetTag_regenerate.
Qed.
End CacheTagsProofs.
