(* ===== verification/CountingFilter.v ===== *)
(** * A counting Bloom filter

    An instance of the filter interface that follows the documentation of the
    library: cells of a fixed width, a hash that maps an element to cells,
    increments that stop at the maximum, decrements that stop at zero, and a
    lookup that returns the minimum over the cells of the element.  The hash is
    any function with at least one cell per element.  The instance keeps the
    promises of [BloomLaws]. *)

From S2P Require Import Prelude CacheTags CacheTagsProofs.
Import CacheTagsProofs.

Module CountingFilter.
Section counting.
Context (hash : Addr → list Z) (hash_some : ∀ x, hash x ≠ []) (cell_max : Z).

Abbreviation cells := (gmap Z Z).
Definition count (f : cells) (c : Z) : Z := default 0 (f !! c).
Definition increment (f : cells) (c : Z) : cells := <[c := Z.min cell_max (count f c + 1)]> f.
Definition decrement (f : cells) (c : Z) : cells := <[c := Z.max 0 (count f c - 1)]> f.
Definition find_minimum (f : cells) (l : list Z) : Z :=
  match count f <$> l with
  | [] => 0
  | n :: ns => foldl Z.min n ns
  end.

Definition counting : BloomFilter :=
  {| filter_t := cells;
     bf_new := (∅ : cells);
     bf_add x f := foldl increment f (hash x);
     bf_remove x f := foldl decrement f (hash x);
     bf_lookup x f := find_minimum f (hash x) |}.

(** How often a cell is among those of an element. *)
Definition occ (c : Z) (l : list Z) : Z := Z.of_nat (length (List.filter (Z.eqb c) l)).
Definition load (X : gset Addr) (c : Z) : Z :=
  foldr Z.add 0 ((λ x, occ c (hash x)) <$> elements X).

Definition counting_room (x : Addr) (f : cells) : bool :=
  forallb (λ c, count f c + occ c (hash x) <=? cell_max) (hash x).

Lemma occ_cons c d l : occ c (d :: l) = (if c =? d then 1 else 0) + occ c l.
Proof. unfold occ. cbn. destruct (c =? d); cbn; lia. Qed.
Lemma occ_nonneg c l : 0 ≤ occ c l.
Proof. unfold occ. lia. Qed.
Lemma occ_elem c l : c ∈ l → 1 ≤ occ c l.
Proof.
  induction l as [|d l IH]; [set_solver|]. rewrite occ_cons. pose proof (occ_nonneg c l).
  intros [->|H1]%elem_of_cons; [rewrite Z.eqb_refl; lia|]. specialize (IH H1).
  destruct (c =? d); lia.
Qed.
Lemma occ_not_elem c l : c ∉ l → occ c l = 0.
Proof.
  induction l as [|d l IH]; [done|]. rewrite occ_cons, not_elem_of_cons. intros [H1 H2].
  rewrite IH by done. destruct (Z.eqb_spec c d); lia.
Qed.

Lemma sum_perm (l k : list Z) : l ≡ₚ k → foldr Z.add 0 l = foldr Z.add 0 k.
Proof. induction 1; cbn; lia. Qed.

Lemma load_add X x c : x ∉ X → load ({[x]} ∪ X) c = occ c (hash x) + load X c.
Proof.
  intros Hx. unfold load.
  rewrite (sum_perm _ ((λ y, occ c (hash y)) <$> (x :: elements X))); [done|].
  apply fmap_Permutation. by apply elements_union_singleton.
Qed.
Lemma load_remove X x c : x ∈ X → load X c = occ c (hash x) + load (X ∖ {[x]}) c.
Proof.
  intros Hx. rewrite <-load_add by set_solver. f_equal. by apply union_difference_singleton_L.
Qed.
Lemma load_nonneg X c : 0 ≤ load X c.
Proof.
  unfold load. induction (elements X) as [|x l IH]; cbn; [lia|].
  pose proof (occ_nonneg c (hash x)). lia.
Qed.

Lemma count_insert f c v d : count (<[c := v]> f) d = if decide (c = d) then v else count f d.
Proof. unfold count. rewrite lookup_insert. by case_decide. Qed.

Lemma increments l f c : (∀ d, d ∈ l → count f d + occ d l ≤ cell_max) →
  count (foldl increment f l) c = count f c + occ c l.
Proof.
  revert f. induction l as [|d l IH]; intros f H; cbn [foldl].
  { cbn. unfold occ. cbn. lia. }
  assert (count f d + occ d (d :: l) ≤ cell_max) as Hd by (apply H; set_solver).
  rewrite occ_cons, Z.eqb_refl in Hd. pose proof (occ_nonneg d l).
  rewrite IH.
  - unfold increment. rewrite count_insert, occ_cons. case_decide as E; subst.
    + rewrite Z.eqb_refl. lia.
    + rewrite (proj2 (Z.eqb_neq c d)) by done. lia.
  - intros e He. unfold increment. rewrite count_insert. case_decide as E; [subst; lia|].
    specialize (H e). rewrite occ_cons, (proj2 (Z.eqb_neq e d)) in H by done.
    apply H. set_solver.
Qed.

Lemma decrements l f c : (∀ d, occ d l ≤ count f d) →
  count (foldl decrement f l) c = count f c - occ c l.
Proof.
  revert f. induction l as [|d l IH]; intros f H; cbn [foldl].
  { unfold occ. cbn. lia. }
  pose proof (H d) as Hd. rewrite occ_cons, Z.eqb_refl in Hd. pose proof (occ_nonneg d l).
  rewrite IH.
  - unfold decrement. rewrite count_insert, occ_cons. case_decide as E; subst.
    + rewrite Z.eqb_refl. lia.
    + rewrite (proj2 (Z.eqb_neq c d)) by done. lia.
  - intros e. unfold decrement. rewrite count_insert. case_decide as E; [subst; lia|].
    specialize (H e). rewrite occ_cons, (proj2 (Z.eqb_neq e d)) in H by done. lia.
Qed.

Lemma minimum_pos f l : l ≠ [] → (∀ c, c ∈ l → 0 < count f c) → find_minimum f l ≠ 0.
Proof.
  unfold find_minimum. destruct l as [|c l]; [done|]. intros _ H. cbn.
  assert (∀ n k, 0 < n → Forall (λ c, 0 < c) k → 0 < foldl Z.min n k) as Hm.
  { intros n k. revert n. induction k as [|m k IH]; intros n Hn Hk; [done|].
    apply Forall_cons in Hk as [??]. cbn. apply IH; [lia|done]. }
  enough (0 < foldl Z.min (count f c) (count f <$> l)) by lia.
  apply Hm; [apply H; set_solver|]. apply Forall_fmap, Forall_forall. intros d Hd. apply H. set_solver.
Qed.

Definition counting_rep (f : cells) (X : gset Addr) : Prop := ∀ c, count f c = load X c.

Definition counting_laws : @BloomLaws counting.
Proof.
  refine (@mkBloomLaws counting counting_rep counting_room _ _ _ _).
  - intros c. reflexivity.
  - intros f X x Hr Hx Hroom c. cbn. rewrite load_add, increments, (Hr c); [lia| |done].
    intros d Hd. unfold counting_room in Hroom. rewrite forallb_forall in Hroom.
    specialize (Hroom d). apply Z.leb_le, Hroom. by apply list_elem_of_In.
  - intros f X x Hr Hx c. cbn. rewrite decrements, (Hr c), (load_remove X x c) by
      (done || (intros d; rewrite (Hr d), (load_remove X x d) by done;
                pose proof (load_nonneg (X ∖ {[x]}) d); lia)). lia.
  - intros f X x Hr Hx. cbn. apply minimum_pos; [done|]. intros c Hc.
    rewrite (Hr c), (load_remove X x c) by done. pose proof (occ_elem c (hash x) Hc).
    pose proof (load_nonneg (X ∖ {[x]}) c). lia.
Defined.
End counting.
End CountingFilter.
