(* ===== verification/CacheTagsSpec.v ===== *)
(** * Theorems on the tag store

    The tag store refines a direct-mapped cache, the Bloom filter never lets a
    dirty block be bypassed, and three places where the bookkeeping departs from
    what it is meant to count. *)

From S2P Require Import Prelude Packet CacheTags CacheTagsProofs CountingFilter.
Import MemCmd Packet CacheTags CacheTagsProofs CountingFilter.

Module CacheTagsSpec.

(** The defaults of [class DRAMCacheCtrl] on the geometry of the stacked DRAM
    configuration, in timing mode. *)
Definition HMC_cache : CacheParams :=
  {| dramCache_block_size := 128; dramCache_num_sets := 245760; cache_totalRows := 16384;
     dramCache_write_allocate := false; bloomFilterEnable := true; bypassTagEnable := false;
     dirtyCleanBypassEnable := false; bypass_tag_size := 64; numTarget := 16;
     dramCacheTimingMode := true; fillBufferSize := 64; fillHighThreshold := 54;
     predAccuracy := 95 |}.

Lemma HMC_cache_geometry : @cache_geometry HMC_cache.
Proof. split; [exists 7|]; cbn; lia. Qed.

(** A filter of 64 two-bit cells with two hash functions. *)
Definition ex_hash (x : Addr) : list Z := [x / 128 mod 64; 64 + x / 128 / 7 mod 64].
Definition ex_filter : BloomFilter := counting ex_hash 3.
Definition ex_laws : @BloomLaws ex_filter := counting_laws ex_hash (λ x, ltac:(discriminate)) 3.

Lemma set_tag_roundtrip_witness :
  let P := HMC_cache in
  let '(s, tg) := getSetTagFromAddr 1234567890 in
  regenerateBlkAddr s tg = blockAlign 1234567890 ∧ 0 ≤ s < 245760.
Proof.
  pose proof (proj1 (set_tag_roundtrip HMC_cache_geometry) 1234567890) as H.
  apply H. unfold in_reach. cbn. lia.
Defined.

(** C6: the tag store is a direct-mapped cache.  Over every sequence of lookups
    and fills from the empty cache, with addresses whose block number fits in 32
    bits, no assertion fails, every hit, miss and write-back is the one of the
    abstract cache that maps a set to the one block it holds, and lines, dirty
    bits and owners are those of the abstract cache. *)
Theorem tags_refine `{P : CacheParams} `{B : BloomFilter} (G : cache_geometry) ops :
  Forall (λ op, in_reach (addr (top_pkt op))) ops →
  ∃ out t', tag_run init_tags ops = Ok (out, t') ∧ tags_ok t' ∧
    cache_run ∅ ops = (out, abs t').
Proof.
  intros H. destruct (tag_run_ok G ops init_tags [] (init_tags_ok G) H) as (out & t' & E & Ht & Es).
  exists out, t'. rewrite abs_init in Es. split_and!; done.
Qed.

(** The outcome of a run that succeeds. *)
Definition ran (P : CacheParams) (ops : list top) : list outcome * TagsOf (@filter_t ex_filter) :=
  match @tag_run P ex_filter init_tags ops with Ok r => r | Fault _ => ([], init_tags) end.

(** Block [b] of the set 5: addresses that conflict. *)
Definition ex_addr (b : Z) : Addr := (b * 245760 + 5) * 128.
Definition ex_ops : list top :=
  [TLookup (read_pkt 1 (ex_addr 0) 31); TFill (read_pkt 1 (ex_addr 0) 31);
   TLookup (write_pkt 2 (ex_addr 0) 31 7); TLookup (read_pkt 3 (ex_addr 1) 0);
   TFill (read_pkt 3 (ex_addr 1) 0); TLookup (read_pkt 4 (ex_addr 1) 0)].

Lemma tags_refine_witness :
  let P := HMC_cache in let B := ex_filter in
  ∃ out t', tag_run init_tags ex_ops = Ok (out, t') ∧ tags_ok t' ∧
    cache_run ∅ ex_ops = (out, abs t') ∧
    out = [OHit false; OEvict None; OHit true; OHit false; OEvict (Some 5); OHit true].
Proof.
  destruct (@tags_refine HMC_cache ex_filter HMC_cache_geometry ex_ops) as (out & t' & E & H1 & H2).
  - repeat constructor; vm_compute; intuition discriminate.
  - exists out, t'. split_and!; try assumption.
    assert (out = fst (@cache_run HMC_cache ∅ ex_ops)) as -> by (rewrite H2; reflexivity).
    vm_compute. reflexivity.
Defined.

(** ** All changes of the tags

    What the read and write responses and the fills do to the tags: the lookup of a read,
    the lookup of a write with the allocation on a miss, and a fill. *)
Section requests.
Context `{P : CacheParams} `{B : BloomFilter}.

Inductive tag_req : Type := RRead (p : Packet) | RWrite (p : Packet) | RFill (p : Packet).
Definition req_pkt (r : tag_req) : Packet := match r with RRead p | RWrite p | RFill p => p end.

(** The tags after a write: on a miss with write allocation a dirty line is written back,
    and the line gets the tag and the dirty bit. *)
Definition write_tags (p : Packet) (t : Tags) : res Tags :=
  ht ← doCacheLookup p t;
  let t := ht.2 in
  Ok (if ht.1 || negb dramCache_write_allocate then t
      else
        let s := (getSetTagFromAddr (addr p)).1 in
        let t := if dirty (line t s) then invalidate (regenerateBlkAddr s (tag (line t s))) t else t in
        write_alloc_line p t).
Definition req_step (t : Tags) (r : tag_req) : res Tags :=
  match r with
  | RRead p => ht ← doCacheLookup p t; Ok ht.2
  | RWrite p => write_tags p t
  | RFill p => Ok (fill_tags p t).2
  end.

Definition as_top (r : tag_req) : top := match r with RRead p | RWrite p => TLookup p | RFill p => TFill p end.

(** Without write allocation the tags change by lookups and fills only. *)
Lemma req_is_tag_step r t : dramCache_write_allocate = false → req_step t r = snd <$> tag_step (as_top r) t.
Proof.
  intros Hw. destruct r as [p|p|p]; unfold as_top, req_step, tag_step, write_tags.
  - by destruct (doCacheLookup p t).
  - destruct (doCacheLookup p t) as [[h t']|]; [|done]. cbn. by rewrite Hw, orb_true_r.
  - by destruct (fill_tags p t).
Qed.

Lemma reqs_are_run rs : dramCache_write_allocate = false → ∀ t acc,
  foldM req_step t rs = snd <$> foldM (λ a op, ot ← tag_step op a.2; Ok (a.1 ++ [ot.1], ot.2)) (acc, t) (as_top <$> rs).
Proof.
  intros Hw. induction rs as [|r rs IH]; intros t acc; [done|]. cbn [foldM fmap list_fmap fst snd].
  rewrite (req_is_tag_step r t Hw). destruct (tag_step (as_top r) t) as [[o t']|]; [|done]. cbn. apply IH.
Qed.
End requests.

(** C32: without write allocation, the default, the bypass decided by the Bloom
    filter is safe.  While no counter of the filter overflows, after any sequence of
    reads, writes and fills a block that the filter does not know is not dirty in the
    cache, so a request that is sent straight to memory on a zero count never passes by
    newer data.  The filter is any one that keeps the documented promise of a counting
    filter. *)
Theorem bloom_bypass_safe `{P : CacheParams} `{B : BloomFilter} {L : BloomLaws}
    (G : cache_geometry) rs t' a :
  dramCache_write_allocate = false → bloomFilterEnable = true →
  Forall (λ r, in_reach (addr (req_pkt r))) rs → roomy init_tags (as_top <$> rs) = true →
  foldM req_step init_tags rs = Ok t' →
  in_reach a → bf_lookup (blockAlign a) (cbf t') = 0 →
  tag_match t' a = true → dirty (line t' (getSetTagFromAddr a).1) = false.
Proof.
  intros Hwa Hen Hops Hroom Hrun Ha Hz Hm.
  destruct (run_bloom G Hen (as_top <$> rs) init_tags [] (init_tags_ok G)) as (o & t1 & E & Ht & Hb).
  - unfold bloom_ok. rewrite abs_init. apply bf_new_ok.
  - apply Forall_fmap. eapply Forall_impl; [exact Hops|]. by intros [].
  - done.
  - rewrite (reqs_are_run rs Hwa init_tags []), E in Hrun. injection Hrun as ->.
    destruct (dirty _) eqn:Ed; [|done]. exfalso. eapply bf_lookup_ok; [exact Hb| |exact Hz].
    rewrite getSetTag_eq in Ed by done. rewrite tag_match_eq in Hm by done.
    apply andb_true_iff in Hm as [Et%Z.eqb_eq Ev]. cbn [fst] in Ed.
    apply elem_of_dirty. eexists _, _. rewrite abs_lookup. unfold abs_line. rewrite Ev.
    split; [reflexivity|]. split; [exact Ed|]. cbn.
    rewrite Et, block_split, blockAlign_eq by (done || apply Ha). done.
Qed.

(** A block is filled and written, and evicted by another one of its set. *)
Definition ex_reqs : list tag_req :=
  [RRead (read_pkt 1 (ex_addr 0) 31); RFill (read_pkt 1 (ex_addr 0) 31);
   RWrite (write_pkt 2 (ex_addr 0) 31 7); RRead (read_pkt 3 (ex_addr 1) 0);
   RFill (read_pkt 3 (ex_addr 1) 0); RWrite (write_pkt 4 (ex_addr 2) 0 7)].
Definition ex_after : TagsOf (@filter_t ex_filter) :=
  match foldM (@req_step HMC_cache ex_filter) init_tags ex_reqs with Ok t => t | Fault _ => init_tags end.

Lemma bloom_bypass_safe_witness :
  let P := HMC_cache in let B := ex_filter in
  foldM req_step init_tags ex_reqs = Ok ex_after ∧
    bf_lookup (blockAlign (ex_addr 1)) (cbf ex_after) = 0 ∧ tag_match ex_after (ex_addr 1) = true ∧
    dirty (line ex_after (getSetTagFromAddr (ex_addr 1)).1) = false.
Proof.
  assert (foldM (@req_step HMC_cache ex_filter) init_tags ex_reqs = Ok ex_after) as E by (vm_compute; reflexivity).
  assert (bf_lookup (@blockAlign HMC_cache (ex_addr 1)) (cbf ex_after) = 0 ∧
    @tag_match HMC_cache ex_filter ex_after (ex_addr 1) = true) as [E1 E2] by (vm_compute; split; reflexivity).
  split; [exact E|]. split; [exact E1|]. split; [exact E2|].
  eapply (@bloom_bypass_safe HMC_cache ex_filter ex_laws HMC_cache_geometry ex_reqs);
    [reflexivity|reflexivity| | |exact E| |exact E1|exact E2].
  - repeat constructor; vm_compute; intuition discriminate.
  - vm_compute. reflexivity.
  - vm_compute. intuition discriminate.
Defined.

(** ** Where the bookkeeping departs from its purpose *)

(** With write allocation the filter does not hold the dirty blocks: the block of a
    write that misses in a set with a valid, clean line is dirty in the cache, and the
    filter has not heard of it. *)
Theorem write_alloc_unknown `{P : CacheParams} `{B : BloomFilter} p t :
  valid (line t (getSetTagFromAddr (addr p)).1) = true →
  let t' := write_alloc_line p t in
  tag_match t' (addr p) = true ∧ dirty (line t' (getSetTagFromAddr (addr p)).1) = true ∧ cbf t' = cbf t.
Proof.
  intros Hv. unfold write_alloc_line. destruct (getSetTagFromAddr (addr p)) as [s tg] eqn:E.
  cbn [fst] in *. set (t' := set_owned s (isGPU p) _).
  assert (line t' s = (line t s) <| tag := tg |> <| dirty := true |>) as El.
  { subst t'. unfold line at 1. cbn. by rewrite lookup_insert, decide_True. }
  unfold tag_match. rewrite E, El. cbn. by rewrite Hv, Z.eqb_refl.
Qed.

(** The line, the owners and the count of dirty GPU lines. *)
Definition gpu_core {F} (t : TagsOf F) : gmap Z Line * gset Z * Z := (lines t, isGPUOwned t, total_gpu_dirty_lines t).

Lemma account_gpu `{P : CacheParams} `{B : BloomFilter} p s t : gpu_core (lookup_account p s t) = gpu_core t.
Proof.
  unfold lookup_account, sample_gpu_lines, when. destruct (isGPU p); cbn; [|by destruct (negb _)].
  by destruct (_ =? 0).
Qed.

(** A miss in a set whose line is dirty and belongs to the GPU discounts the line,
    which stays as it is. *)
Lemma miss_discounts `{P : CacheParams} `{B : BloomFilter} p s t :
  valid (line t s) = true → dirty (line t s) = true → owned t s = true →
  gpu_core (lookup_miss p s t) = (lines t, isGPUOwned t, u64 (total_gpu_dirty_lines t - 1)).
Proof.
  intros Hv Hd Ho. unfold lookup_miss, miss_evict. rewrite Hv. cbn [tstat].
  set (t1 := when (dirty (line (tstat "dramCache_evicts" t) s)) _ (tstat "dramCache_evicts" t)).
  assert (gpu_core t1 = gpu_core t) as E1 by (unfold t1, when; destruct (dirty _), (isRead (cmd p)); done).
  clearbody t1. injection E1 as El Eo Et. assert (owned t1 s = true) as -> by (unfold owned in *; by rewrite Eo).
  set (t2 := tstat _ t1). assert (gpu_core t2 = gpu_core t1) as E2 by done. clearbody t2. injection E2 as El2 Eo2 Et2.
  assert (line t2 s = line t s) as Eline by (unfold line; by rewrite El2, El). rewrite Eline, Hd. cbn [when].
  set (t3 := gpu_dirty_dec t2). assert (gpu_core t3 = (lines t, isGPUOwned t, u64 (total_gpu_dirty_lines t - 1))) as E3.
  { unfold gpu_core, t3. cbn. by rewrite El2, El, Eo2, Eo, Et2, Et. }
  clearbody t3. assert (dirty (line t3 s) = true ∧ owned t3 s = true) as [Hd3 Ho3].
  { injection E3 as L3 O3 _. unfold line, owned in *. by rewrite L3, O3. }
  destruct (isRead (cmd p)); [by destruct (negb (isGPU p))|]. unfold when.
  set (t4 := if negb (isGPU p) then _ else _). assert (gpu_core t4 = gpu_core t3) as E4 by (unfold t4; by destruct (negb _)).
  clearbody t4. assert (dirty (line t4 s) && owned t4 s = true) as ->.
  { injection E4 as L4 O4 _. unfold line, owned in *. rewrite L4, O4. by rewrite Hd3. }
  rewrite andb_false_r. cbn [andb]. congruence.
Qed.

(** C33: the count of dirty GPU lines is wrong after misses that overlap.  A set holds
    a dirty line of the GPU; every lookup that misses in the set, as many as come before
    one of them is filled, discounts this one line again, although the line stays: after
    [n] misses the unsigned 64-bit counter is lower by [n], and wraps around if fewer
    lines were counted. *)
Theorem gpu_dirty_count_wraps `{P : CacheParams} `{B : BloomFilter} (G : cache_geometry) s ps : ∀ t,
  valid (line t s) = true → dirty (line t s) = true → owned t s = true →
  Forall (λ p, in_reach (addr p) ∧ (getSetTagFromAddr (addr p)).1 = s ∧ (getSetTagFromAddr (addr p)).2 ≠ tag (line t s)) ps →
  ∃ t', foldM (λ t p, ht ← doCacheLookup p t; Ok ht.2) t ps = Ok t' ∧
    lines t' = lines t ∧ isGPUOwned t' = isGPUOwned t ∧
    u64 (total_gpu_dirty_lines t') = u64 (total_gpu_dirty_lines t - Z.of_nat (length ps)).
Proof.
  induction ps as [|p ps IH]; intros t Hv Hd Ho Hps; [exists t; split_and!; [done..|]; f_equal; cbn; lia|].
  apply Forall_cons in Hps as [(Ha & Hs & Htg) Hps].
  set (t1 := lookup_miss p s (lookup_account p s t)).
  assert (gpu_core t1 = (lines t, isGPUOwned t, u64 (total_gpu_dirty_lines t - 1))) as E1.
  { pose proof (account_gpu p s t) as E. unfold t1. set (t0 := lookup_account p s t) in *. clearbody t0. injection E as L O N.
    rewrite miss_discounts, L, O, N; [done|unfold line in *; by rewrite L..|unfold owned in *; by rewrite O]. }
  assert (doCacheLookup p t = Ok (false, t1)) as El.
  { unfold doCacheLookup. pose proof (block_range G (addr p) Ha) as Hr. pose proof (geo_sets G) as Hg.
    assert (0 ≤ s < dramCache_num_sets) as Hsr.
    { rewrite <-Hs, getSetTag_eq by done. cbn [fst]. apply Z.mod_pos_bound. lia. }
    destruct (getSetTagFromAddr (addr p)) as [s0 tg] eqn:Eg. cbn [fst snd] in *. subst s0. rewrite !assert_bind by lia.
    assert (tag_match (lookup_account p s t) (addr p) = false) as ->; [|done].
    unfold tag_match. rewrite Eg. pose proof (account_gpu p s t) as E. injection E as L _ _. unfold line. rewrite L. fold (line t s).
    apply andb_false_iff. left. apply Z.eqb_neq. congruence. }
  cbn [foldM]. rewrite El. cbn [mbind res_bind snd]. injection E1 as L O N. clearbody t1.
  destruct (IH t1) as (t' & E & L' & O' & N'); [unfold line in *; by rewrite L..|unfold owned in *; by rewrite O|unfold line in *; by rewrite L|].
  exists t'. split; [done|]. split; [congruence|]. split; [congruence|]. rewrite N', N. unfold u64. cbn [length].
  rewrite Zminus_mod_idemp_l. f_equal. lia.
Qed.

(** Two misses after the one write of the GPU. *)
Definition ex_dirty : TagsOf (@filter_t ex_filter) :=
  match foldM (@req_step HMC_cache ex_filter) init_tags [RFill (read_pkt 1 (ex_addr 0) 31); RWrite (write_pkt 2 (ex_addr 0) 31 7)] with
  | Ok t => t | Fault _ => init_tags end.

Lemma gpu_dirty_count_wraps_witness :
  let P := HMC_cache in let B := ex_filter in
  total_gpu_dirty_lines ex_dirty = 1 ∧
  ∃ t', foldM (λ t p, ht ← doCacheLookup p t; Ok ht.2) ex_dirty [read_pkt 3 (ex_addr 1) 31; read_pkt 4 (ex_addr 2) 31] = Ok t' ∧
    lines t' = lines ex_dirty ∧ u64 (total_gpu_dirty_lines t') = 2 ^ 64 - 1.
Proof.
  intros P B. split; [by vm_compute|].
  destruct (@gpu_dirty_count_wraps HMC_cache ex_filter HMC_cache_geometry 5 [read_pkt 3 (ex_addr 1) 31; read_pkt 4 (ex_addr 2) 31] ex_dirty)
    as (t' & E & L & _ & N); [by vm_compute..| |].
  - repeat constructor; vm_compute; intuition discriminate.
  - exists t'. split; [exact E|]. split; [exact L|]. rewrite N. by vm_compute.
Defined.

(** The occupancy sample of a DRAM row looks at 14 of its 15 lines: whether
    the GPU owns the last line of the row makes no difference to it. *)
Theorem row_sample_skips_last `{P : CacheParams} `{B : BloomFilter} t st r (b : bool) :
  sample_row (set_owned (15 * r + 14) b t) st r = sample_row t st r.
Proof.
  unfold sample_row. assert (count_owned (set_owned (15 * r + 14) b t) (r * 15) (15 * (r + 1) - 1) =
    count_owned t (r * 15) (15 * (r + 1) - 1)) as ->; [|done].
  unfold count_owned. do 2 f_equal. apply List.filter_ext_in.
  intros s Hs%list_elem_of_In%elem_of_seqZ. unfold owned, set_owned. cbn.
  apply bool_decide_ext. destruct b; rewrite ?elem_of_union, ?elem_of_difference, elem_of_singleton;
    split; intros; try lia; naive_solver lia.
Qed.

(** With write allocation, the line of a write miss in an empty set is
    marked dirty but not valid: the next lookup of the block just written misses
    again. *)
Theorem write_alloc_not_valid `{P : CacheParams} `{B : BloomFilter} (G : cache_geometry) p t :
  in_reach (addr p) → valid (line t (getSetTagFromAddr (addr p)).1) = false →
  let t' := write_alloc_line p t in
  dirty (line t' (getSetTagFromAddr (addr p)).1) = true ∧ tag_match t' (addr p) = false.
Proof.
  intros Ha Hv. unfold write_alloc_line. destruct (getSetTagFromAddr (addr p)) as [s tg] eqn:E.
  cbn [fst] in *. set (t' := set_owned s (isGPU p) _).
  assert (line t' s = (line t s) <| tag := tg |> <| dirty := true |>) as El.
  { subst t'. unfold line at 1. cbn. by rewrite lookup_insert, decide_True. }
  unfold tag_match. rewrite E, El. cbn. split; [done|]. rewrite Hv. apply andb_false_r.
Qed.

Lemma write_alloc_not_valid_witness :
  let P := HMC_cache in let B := ex_filter in
  let t' := write_alloc_line (write_pkt 1 (ex_addr 0) 31 7) init_tags in
  dirty (line t' 5) = true ∧ tag_match t' (ex_addr 0) = false.
Proof.
  apply (@write_alloc_not_valid HMC_cache ex_filter HMC_cache_geometry
           (write_pkt 1 (ex_addr 0) 31 7) init_tags).
  - split; vm_compute; [discriminate|reflexivity].
  - vm_compute. reflexivity.
Defined.
End CacheTagsSpec.
