(* ===== verification/BypassTags.v ===== *)
(** * The bypass tag store (DRAMCacheCtrl::LRUTagStore)

    A fully associative list of block addresses in order of use, most recent
    first, of a fixed capacity.  A block that is inserted while it is in the list is
    in the list twice.  The list refines a table of entries, each a block with the
    time of its last use, from which the oldest is dropped when it is full. *)

From S2P Require Import Prelude CacheTags.
Import CacheTags.

Module BypassTags.
Section store.
Context `{P : CacheParams}.

(** [std::find] and [erase]. *)
Fixpoint erase_first (b : Addr) (l : list Addr) : list Addr :=
  match l with
  | [] => []
  | c :: l => if c =? b then l else c :: erase_first b l
  end.

Definition insertIntoBypassTag (a : Addr) (tags : list Addr) : list Addr :=
  let blockAddr := blockAlign a in
  let tags := if Z.of_nat (length tags) =? bypass_tag_size then removelast tags else tags in
  blockAddr :: tags.

(** A hit moves the block to the front. *)
Definition isHit (a : Addr) (tags : list Addr) : bool * list Addr :=
  let blockAddr := blockAlign a in
  if bool_decide (blockAddr ∈ tags)
  then (true, blockAddr :: erase_first blockAddr tags) else (false, tags).

Definition removeFromBypassTag (a : Addr) (tags : list Addr) : bool * list Addr :=
  let blockAddr := blockAlign a in
  if bool_decide (blockAddr ∈ tags) then (true, erase_first blockAddr tags) else (false, tags).

(** The calls of the controller, with their results. *)
Inductive sop : Type := SIsHit (a : Addr) | SRemove (a : Addr) | SInsert (a : Addr).
Definition store_step (op : sop) (tags : list Addr) : bool * list Addr :=
  match op with
  | SIsHit a => isHit a tags
  | SRemove a => removeFromBypassTag a tags
  | SInsert a => (true, insertIntoBypassTag a tags)
  end.
Fixpoint store_run (ops : list sop) (tags : list Addr) : list bool * list Addr :=
  match ops with
  | [] => ([], tags)
  | op :: ops =>
      let '(o, tags) := store_step op tags in
      let '(os, tags) := store_run ops tags in (o :: os, tags)
  end.

(** ** Least recently used *)

(** A table of entries by the time of their last use, and a clock. *)
Record lru := mkLRU { entries : gmap Z Addr; clock : Z }.

Definition put (b : Addr) (u : lru) : lru := mkLRU (<[clock u := b]> (entries u)) (clock u + 1).
Definition drop_entry (t : Z) (u : lru) : lru := mkLRU (delete t (entries u)) (clock u).
Definition present (b : Addr) (u : lru) : Prop := ∃ t, entries u !! t = Some b.
Definition oldest (t : Z) (u : lru) : Prop :=
  is_Some (entries u !! t) ∧ ∀ t', is_Some (entries u !! t') → t ≤ t'.
Definition latest (b : Addr) (t : Z) (u : lru) : Prop :=
  entries u !! t = Some b ∧ ∀ t', entries u !! t' = Some b → t' ≤ t.

Inductive lru_step : sop → lru → bool → lru → Prop :=
| lru_miss a u : ¬ present (blockAlign a) u → lru_step (SIsHit a) u false u
| lru_hit a t u : latest (blockAlign a) t u →
    lru_step (SIsHit a) u true (put (blockAlign a) (drop_entry t u))
| lru_absent a u : ¬ present (blockAlign a) u → lru_step (SRemove a) u false u
| lru_remove a t u : latest (blockAlign a) t u → lru_step (SRemove a) u true (drop_entry t u)
| lru_room a u : Z.of_nat (size (entries u)) < bypass_tag_size →
    lru_step (SInsert a) u true (put (blockAlign a) u)
| lru_replace a t u : Z.of_nat (size (entries u)) = bypass_tag_size → oldest t u →
    lru_step (SInsert a) u true (put (blockAlign a) (drop_entry t u)).
Inductive lru_run : list sop → lru → list bool → lru → Prop :=
| run_nil u : lru_run [] u [] u
| run_cons op ops u o u1 os u2 : lru_step op u o u1 → lru_run ops u1 os u2 →
    lru_run (op :: ops) u (o :: os) u2.

(** The list is the table in order of decreasing last use. *)
Definition more_recent : Z * Addr → Z * Addr → Prop := λ e d, d.1 < e.1.
Record lru_rel (tags : list Addr) (u : lru) (es : list (Z * Addr)) : Prop :=
  { lr_tags : tags = es.*2;
    lr_entries : entries u = list_to_map es;
    lr_sorted : StronglySorted more_recent es;
    lr_clock : Forall (λ e, e.1 < clock u) es;
    lr_size : Z.of_nat (length es) ≤ bypass_tag_size }.

Lemma sorted_nodup es : StronglySorted more_recent es → NoDup (es.*1).
Proof.
  induction 1 as [|e es Hs IH Hd]; cbn; [constructor|]. apply NoDup_cons. split; [|done].
  intros (d & E & Hin)%list_elem_of_fmap. rewrite Forall_forall in Hd. apply Hd in Hin.
  unfold more_recent in Hin. lia.
Qed.

Section related.
Context {tags : list Addr} {u : lru} {es : list (Z * Addr)} (R : lru_rel tags u es).

Lemma rel_entry t b : entries u !! t = Some b ↔ (t, b) ∈ es.
Proof. rewrite (lr_entries _ _ _ R), elem_of_list_to_map; [done|]. apply sorted_nodup, R. Qed.
Lemma rel_present b : b ∈ tags ↔ present b u.
Proof.
  rewrite (lr_tags _ _ _ R), list_elem_of_fmap. unfold present. split.
  - intros ([t c] & -> & H). exists t. by apply rel_entry.
  - intros [t H%rel_entry]. by exists (t, b).
Qed.
Lemma rel_size : size (entries u) = length es.
Proof.
  rewrite (lr_entries _ _ _ R), <-(length_map_to_list (list_to_map es)).
  rewrite map_to_list_to_map; [done|]. apply sorted_nodup, R.
Qed.
End related.

Lemma put_rel es u b : lru_rel (es.*2) u es → Z.of_nat (length es) < bypass_tag_size →
  lru_rel (b :: es.*2) (put b u) ((clock u, b) :: es).
Proof.
  intros [_ H2 H3 H4 H5] Hl. split; cbn; [done|by rewrite H2| | |lia].
  - constructor; [done|]. eapply Forall_impl; [exact H4|]. by intros [].
  - constructor; [cbn; lia|]. eapply Forall_impl; [exact H4|]. intros [t c]. cbn. lia.
Qed.

Lemma drop_sorted l1 e l2 : StronglySorted more_recent (l1 ++ e :: l2) → StronglySorted more_recent (l1 ++ l2).
Proof.
  induction l1 as [|d l1 IH]; cbn; intros [Hs Hd]%StronglySorted_inv; [done|]. constructor; [auto|].
  apply Forall_app in Hd as [? [_ ?]%Forall_cons]. by apply Forall_app.
Qed.
Lemma drop_rel l1 t b l2 tags u : lru_rel tags u (l1 ++ (t, b) :: l2) →
  lru_rel ((l1 ++ l2).*2) (drop_entry t u) (l1 ++ l2).
Proof.
  intros [H1 H2 H3 H4 H5]. pose proof (sorted_nodup _ H3) as Hn. split; cbn; [done| | | |].
  - rewrite H2. rewrite fmap_app in Hn. cbn in Hn. apply NoDup_app in Hn as (_ & Hn & [Ht _]%NoDup_cons).
    rewrite !list_to_map_app. cbn. rewrite delete_union, delete_insert_id.
    + f_equal. apply delete_id, not_elem_of_list_to_map. intros H. apply (Hn t H). set_solver.
    + by apply not_elem_of_list_to_map.
  - by eapply drop_sorted.
  - apply Forall_app in H4 as [? [_ ?]%Forall_cons]. by apply Forall_app.
  - rewrite length_app in *. cbn in *. lia.
Qed.

(** The entry that [std::find] meets first is the latest of its block. *)
Lemma first_latest l1 t b l2 tags u : lru_rel tags u (l1 ++ (t, b) :: l2) → b ∉ l1.*2 → latest b t u.
Proof.
  intros R Hb. split; [apply (rel_entry R); set_solver|].
  intros t' [Hin|[[= ->]|Hin]%elem_of_cons]%(rel_entry R)%elem_of_app; [|done|].
  - exfalso. apply Hb, list_elem_of_fmap. by exists (t', b).
  - pose proof (lr_sorted _ _ _ R) as Hs. clear -Hs Hin.
    induction l1 as [|d l1 IH]; cbn in Hs; apply StronglySorted_inv in Hs as [Hs Hd]; [|auto].
    rewrite Forall_forall in Hd. apply Hd in Hin. unfold more_recent in Hin. cbn in Hin. lia.
Qed.
Lemma last_oldest l t b tags u : lru_rel tags u (l ++ [(t, b)]) → oldest t u.
Proof.
  intros R. split; [exists b; apply (rel_entry R); set_solver|].
  intros t' [c [Hin|[= -> ->]%list_elem_of_singleton]%(rel_entry R)%elem_of_app]; [|done].
  pose proof (lr_sorted _ _ _ R) as Hs. clear -Hs Hin.
  induction l as [|d l IH]; [by apply elem_of_nil in Hin|]. cbn in Hs. apply StronglySorted_inv in Hs as [Hs Hd].
  apply elem_of_cons in Hin as [<-|Hin]; [|auto]. rewrite Forall_forall in Hd.
  specialize (Hd (t, b)). unfold more_recent in Hd. cbn in Hd. assert (t < t') by (apply Hd; set_solver). lia.
Qed.

Lemma erase_split b (es : list (Z * Addr)) : b ∈ (es.*2) →
  ∃ l1 t l2, es = l1 ++ (t, b) :: l2 ∧ b ∉ (l1.*2) ∧ erase_first b (es.*2) = ((l1 ++ l2).*2).
Proof.
  induction es as [|[t c] es IH]; cbn; [set_solver|]. destruct (Z.eqb_spec c b) as [->|Hne].
  - intros _. exists [], t, es. split_and!; [done|set_solver|done].
  - intros [->|Hb]%elem_of_cons; [done|]. destruct (IH Hb) as (l1 & t1 & l2 & -> & Hn & E).
    exists ((t, c) :: l1), t1, l2. cbn. rewrite E. split_and!; [done| |done]. set_solver.
Qed.

Lemma store_step_refines op tags u es : 0 < bypass_tag_size → lru_rel tags u es →
  ∃ u' es', lru_step op u (store_step op tags).1 u' ∧ lru_rel (store_step op tags).2 u' es'.
Proof.
  intros Hpos R. pose proof (lr_size _ _ _ R) as Hsz. pose proof (lr_tags _ _ _ R) as Et.
  destruct op as [a|a|a]; cbn; unfold isHit, removeFromBypassTag, insertIntoBypassTag.
  1,2: case_bool_decide as Hb; cbn;
    [|exists u, es; split; [constructor; by rewrite <-(rel_present R)|done]];
    subst tags; apply erase_split in Hb as (l1 & t & l2 & -> & Hn & ->);
    pose proof (first_latest _ _ _ _ _ _ R Hn) as Hl; pose proof (drop_rel _ _ _ _ _ _ R) as Rd;
    rewrite length_app in Hsz; cbn in Hsz.
  - eexists _, _. split; [by apply lru_hit|]. apply put_rel; [done|]. rewrite length_app. lia.
  - eexists _, _. split; [by apply lru_remove|done].
  - pose proof (rel_size R) as Hu. subst tags. rewrite length_fmap.
    destruct (Z.eqb_spec (Z.of_nat (length es)) bypass_tag_size) as [E|E].
    + destruct (exists_last (l:=es)) as (l & [t b] & ->); [by intros ->; cbn in *; lia|].
      rewrite fmap_app. cbn. rewrite removelast_last. pose proof (drop_rel l t b [] _ _ R) as Rd.
      rewrite app_nil_r in Rd. eexists _, _. split; [apply (lru_replace _ t); [lia|by eapply last_oldest]|].
      apply put_rel; [done|]. rewrite length_app in E. cbn in E. lia.
    + eexists _, _. split; [apply lru_room; lia|]. apply put_rel; [done|lia].
Qed.

Lemma store_run_refines ops : 0 < bypass_tag_size → ∀ tags u es, lru_rel tags u es →
  ∃ u' es', lru_run ops u (store_run ops tags).1 u' ∧ lru_rel (store_run ops tags).2 u' es'.
Proof.
  intros Hpos. induction ops as [|op ops IH]; intros tags u es R; [exists u, es; by split; [constructor|]|].
  cbn. destruct (store_step_refines op tags u es Hpos R) as (u1 & es1 & H1 & R1).
  destruct (store_step op tags) as [o tags1]. destruct (IH tags1 u1 es1 R1) as (u2 & es2 & H2 & R2).
  destruct (store_run ops tags1) as [os tags2]. exists u2, es2. split; [by econstructor|done].
Qed.
End store.

(** C34: the bypass tag store is a least-recently-used table of at most
    [bypass_tag_size] entries.  Whatever calls are made from the empty store on, in any
    order, the results and the blocks are those of a table of entries: a lookup
    reports whether the block has an entry and, if so, makes its latest entry the
    most recent of all; a removal drops the latest entry of the block, and just this
    one; an insertion adds an entry, also for a block that has one, and drops the
    entry whose last use is oldest if and only if the table is full. *)
Theorem bypass_is_lru `{P : CacheParams} ops :
  0 < bypass_tag_size →
  ∃ u es, lru_run ops (mkLRU ∅ 0) (store_run ops []).1 u ∧ lru_rel (store_run ops []).2 u es ∧
    Z.of_nat (length (store_run ops []).2) ≤ bypass_tag_size.
Proof.
  intros Hpos. destruct (store_run_refines ops Hpos [] (mkLRU ∅ 0) []) as (u & es & H & R).
  - split; [done|done|constructor|constructor|cbn; lia].
  - exists u, es. split; [done|]. split; [done|]. rewrite (lr_tags _ _ _ R), length_fmap. apply R.
Qed.

Definition ex_params : CacheParams :=
  {| dramCache_block_size := 128; dramCache_num_sets := 15; cache_totalRows := 1;
     dramCache_write_allocate := false; bloomFilterEnable := false; bypassTagEnable := true;
     dirtyCleanBypassEnable := false; bypass_tag_size := 2; numTarget := 16;
     dramCacheTimingMode := true; fillBufferSize := 64; fillHighThreshold := 54;
     predAccuracy := 95 |}.

(** A block is inserted twice, and found again after its removal. *)
Definition ex_calls : list sop := [SInsert 0; SInsert 300; SInsert 300; SRemove 300; SIsHit 256; SIsHit 0].

Lemma bypass_is_lru_witness :
  let P := ex_params in
  store_run ex_calls [] = ([true; true; true; true; true; false], [256]) ∧
  ∃ u es, lru_run ex_calls (mkLRU ∅ 0) [true; true; true; true; true; false] u ∧ lru_rel [256] u es.
Proof.
  cbv zeta. assert (@store_run ex_params ex_calls [] = ([true; true; true; true; true; false], [256])) as E by (vm_compute; reflexivity).
  split; [exact E|]. destruct (@bypass_is_lru ex_params ex_calls eq_refl) as (u & es & H & R & _).
  rewrite E in H, R. exists u, es. split; [exact H|exact R].
Defined.
End BypassTags.
