(* ===== verification/Predictor.v ===== *)
(** * The hit/miss predictors (DRAMCacheCtrl::hash_pc, predict,
      predict_static, incMac, decMac)

    The PC-indexed predictor of saturating counters and the static predictor of
    a given accuracy, which looks at the tags and errs at random.  The draw of
    the random number generator is an argument. *)

From S2P Require Import Prelude CacheTags CacheTagsSpec.
Import CacheTags.

Module Predictor.

(** Folded xor of the bytes of the PC. *)
Definition hash_pc (pc : Addr) : Z :=
  Z.land (foldl (λ h k, Z.lxor h (Z.shiftr pc (k * 8))) pc (seqZ 1 7)) 255.

(** [predictor[contextId][hash]]; an entry that was never used is 0. *)
Abbreviation table := (gmap (Z * Z) Z).
Definition mac (t : table) (ctx pc : Z) : Z := default 0 (t !! (ctx, hash_pc pc)).

(** [predict]: true for hit. *)
Definition predict (t : table) (ctx pc : Z) : bool := if 3 <? mac t ctx pc then false else true.

(** The counters are of type [uint8_t]. *)
Definition decMac (ctx pc : Z) (t : table) : table :=
  if negb (mac t ctx pc =? 0) then <[(ctx, hash_pc pc) := u8 (mac t ctx pc - 1)]> t else t.
Definition incMac (ctx pc : Z) (t : table) : table :=
  if negb (mac t ctx pc =? 8) then <[(ctx, hash_pc pc) := u8 (mac t ctx pc + 1)]> t else t.

(** [predict_static] with the draw [r] of [randomPredictor.random(0, 100)]: the
    prediction and the statistics. *)
Definition predict_static `{P : CacheParams} `{B : BloomFilter} (r : Z) (blk_addr : Addr) (t : Tags)
    : bool * Tags :=
  let t' := tstat "dramCache_total_pred" t in
  if tag_match t' blk_addr then
    let pred := r <? predAccuracy in
    (pred, when (negb pred) (tstat "dramCache_incorrect_pred") t')
  else
    let pred := negb (r <? predAccuracy) in
    (pred, when pred (tstat "dramCache_incorrect_pred") t').

(** ** The hash *)

Definition byte (pc k : Z) : Z := Z.land (Z.shiftr pc (k * 8)) 255.

Lemma land_fold_xor pc l h m :
  Z.land (foldl (λ h k, Z.lxor h (Z.shiftr pc (k * 8))) h l) m =
  foldl (λ h k, Z.lxor h (Z.land (Z.shiftr pc (k * 8)) m)) (Z.land h m) l.
Proof.
  revert h. induction l as [|k l IH]; intros h; cbn; [done|]. rewrite IH. f_equal.
  apply Z.bits_inj'. intros n Hn. rewrite !Z.land_spec, !Z.lxor_spec, !Z.land_spec.
  destruct (Z.testbit h n), (Z.testbit (Z.shiftr pc (k * 8)) n), (Z.testbit m n); done.
Qed.

Lemma filter_nothing {A} (f : A → bool) l : (∀ x, x ∈ l → f x = false) → List.filter f l = [].
Proof.
  induction l as [|x l IH]; cbn; intros H; [done|]. rewrite H by set_solver.
  apply IH. intros y Hy. apply H. set_solver.
Qed.

(** ** Counters *)

Inductive mop : Type :=
| Inc (ctx pc : Z)
| Dec (ctx pc : Z).
Definition mac_step (t : table) (op : mop) : table :=
  match op with Inc c p => incMac c p t | Dec c p => decMac c p t end.

Lemma mac_step_range t op : (∀ k, 0 ≤ default 0 (t !! k) ≤ 8) →
  ∀ k, 0 ≤ default 0 (mac_step t op !! k) ≤ 8.
Proof.
  intros H k. destruct op as [c p|c p]; cbn; unfold incMac, decMac, mac.
  - specialize (H (c, hash_pc p)) as Hc. specialize (H k).
    destruct (Z.eqb_spec (default 0 (t !! (c, hash_pc p))) 8) as [|E8]; [done|]. cbn.
    rewrite lookup_insert. case_decide; [|done]. subst. cbn. rewrite u8_small; lia.
  - specialize (H (c, hash_pc p)) as Hc. specialize (H k).
    destruct (Z.eqb_spec (default 0 (t !! (c, hash_pc p))) 0) as [|E0]; [done|]. cbn.
    rewrite lookup_insert. case_decide; [|done]. subst. cbn. rewrite u8_small; lia.
Qed.

(** The access counters of the PC predictor stay between 0 and 8 over any
    sequence of updates and reach 8, so they are not the 3-bit counters with
    values 0 to 7 that their declaration announces; and a counter above 3, which
    counts hits, predicts a miss. *)
Theorem mac_range ops :
  let t := foldl mac_step ∅ ops in
  (∀ ctx pc, 0 ≤ mac t ctx pc ≤ 8 ∧ (predict t ctx pc = false ↔ 4 ≤ mac t ctx pc)) ∧
  mac (foldl mac_step ∅ (replicate 9 (Inc 0 0))) 0 0 = 8.
Proof.
  intros t. split; [|vm_compute; reflexivity]. intros ctx pc.
  assert (∀ k, 0 ≤ default 0 (t !! k) ≤ 8) as H.
  { subst t. assert (∀ k, 0 ≤ default 0 ((∅ : table) !! k) ≤ 8) as H0.
    { intros k. rewrite lookup_empty. cbn. lia. }
    revert H0. generalize (∅ : table). induction ops as [|op ops IH]; intros t Ht; [done|].
    cbn. apply IH. by apply mac_step_range. }
  split; [apply H|]. unfold predict. destruct (Z.ltb_spec 3 (mac t ctx pc)); split; (done || lia).
Qed.

(** The hash of a PC is the xor of its eight bytes and below 256. *)
Theorem hash_pc_folds pc : 0 ≤ pc < 2 ^ 64 →
  hash_pc pc = foldl Z.lxor 0 (byte pc <$> seqZ 0 8) ∧ 0 ≤ hash_pc pc < 256.
Proof.
  intros H. split.
  - unfold hash_pc. rewrite land_fold_xor. change (seqZ 0 8) with (0 :: seqZ 1 7).
    cbn [fmap list_fmap foldl]. rewrite Z.lxor_0_l.
    replace (byte pc 0) with (Z.land pc 255) by (unfold byte; by rewrite Z.mul_0_l, Z.shiftr_0_r).
    by rewrite foldl_fmap.
  - unfold hash_pc. change 255 with (Z.ones 8). rewrite Z.land_ones by lia.
    apply Z.mod_pos_bound. lia.
Qed.

Lemma hash_pc_folds_witness :
  hash_pc 305419896 = foldl Z.lxor 0 (byte 305419896 <$> seqZ 0 8) ∧ 0 ≤ hash_pc 305419896 < 256.
Proof. apply (hash_pc_folds 305419896). lia. Defined.

(** The static predictor errs on exactly [101 - predAccuracy] of the 101
    equally likely draws, whatever the block and the cache: an accuracy of [p]
    percent gives [p] correct draws in 101, and each wrong draw is counted. *)
Theorem predict_static_accuracy `{P : CacheParams} `{B : BloomFilter} t blk :
  0 ≤ predAccuracy ≤ 101 →
  let correct r := Bool.eqb (predict_static r blk t).1 (tag_match t blk) in
  Z.of_nat (length (List.filter correct (seqZ 0 101))) = predAccuracy ∧
  ∀ r, stat_get "dramCache_incorrect_pred" 0 (tstats (predict_static r blk t).2) =
       stat_get "dramCache_incorrect_pred" 0 (tstats t) + if correct r then 0 else 1.
Proof.
  intros Hp correct.
  assert (∀ r, correct r = (r <? predAccuracy)) as Hc.
  { intros r. unfold correct, predict_static.
    change (tag_match (tstat "dramCache_total_pred" t) blk) with (tag_match t blk).
    destruct (tag_match t blk), (r <? predAccuracy); done. }
  split.
  - rewrite (List.filter_ext correct (λ r, r <? predAccuracy)) by apply Hc.
    set (n := Z.to_nat predAccuracy). assert (predAccuracy = Z.of_nat n) as -> by lia.
    assert (seqZ 0 101 = seqZ 0 (Z.of_nat n) ++ seqZ (Z.of_nat n) (101 - Z.of_nat n)) as ->.
    { transitivity (seqZ 0 (Z.of_nat n + (101 - Z.of_nat n))); [f_equal; lia|]. by rewrite seqZ_app by lia. }
    rewrite List.filter_app, length_app.
    assert (List.filter (λ r, r <? Z.of_nat n) (seqZ 0 (Z.of_nat n)) = seqZ 0 (Z.of_nat n)) as ->.
    { apply forallb_filter_id, forallb_forall. intros r Hr%list_elem_of_In%elem_of_seqZ. lia. }
    assert (List.filter (λ r, r <? Z.of_nat n) (seqZ (Z.of_nat n) (101 - Z.of_nat n)) = []) as ->.
    { apply filter_nothing. intros r Hr%elem_of_seqZ. lia. }
    rewrite length_seqZ. cbn. lia.
  - intros r. rewrite Hc. unfold predict_static.
    change (tag_match (tstat "dramCache_total_pred" t) blk) with (tag_match t blk).
    destruct (tag_match t blk), (r <? predAccuracy); cbn [snd when negb]; unfold tstat, stat_inc;
      cbn [tstats set_field eta_Tags]; rewrite !stat_get_add;
      repeat case_decide; first [lia|congruence].
Qed.

Lemma predict_static_accuracy_witness :
  let P := CacheTagsSpec.HMC_cache in let B := CacheTagsSpec.ex_filter in
  let correct r := Bool.eqb (predict_static r 640 init_tags).1 (tag_match init_tags 640) in
  Z.of_nat (length (List.filter correct (seqZ 0 101))) = 95.
Proof.
  apply (@predict_static_accuracy CacheTagsSpec.HMC_cache CacheTagsSpec.ex_filter init_tags 640).
  cbn. lia.
Defined.
End Predictor.
