(* ===== verification/CacheBuffers.v ===== *)
(** * Miss buffers and flow control of the DRAM cache (dramcache_ctrl.hh, .cc)

    The MSHR queue of outstanding misses, the write buffer, the reasons for
    which the cache refuses requests ([blocked]), the blocked flag of its port
    (dram_ctrl.cc) and the master port that sends the requests of the two queues
    to the memory behind the cache. *)

From S2P Require Import Prelude Packet DramTypes Intmath PacketQueue Mshr MshrQueue CacheTags.
Import Intmath MemCmd Packet PacketQueue Mshr MshrQueue CacheTags.

(** [ClockedObject::clockPeriod]. *)
Class Clocked := mkClocked { clockPeriod : Tick }.

Module CacheBuffers.

(** [BlockedCause]; the queues have the indices of the first two. *)
Definition Blocked_NoMSHRs : Z := 0.
Definition Blocked_NoWBuffers : Z := 1.
Definition Blocked_NoTargets : Z := 2.

Record Bufs := mkBufs
  { mshrQueue : MSHRQueue;
    writeBuffer : MSHRQueue;
    noTargetMSHR : option mshr_ref;
    order : Z;
    blocked : Z;
    blockedCycle : Z;
    cacheMustSendRetry : bool;
    port_blocked : bool;         (** [MemoryPort::blocked] *)
    sendq : PacketQueue;         (** the queue of [dramCache_masterport] *)
    send_draining : bool;        (** that queue is draining *)
    send_drained : Z;            (** its calls of [signalDrainDone] *)
    retries : Z;                 (** calls of [port.sendRetryReq] *)
    bstats : stats }.
#[export] Instance eta_Bufs : Eta Bufs := λ b,
  mkBufs (mshrQueue b) (writeBuffer b) (noTargetMSHR b) (order b) (blocked b) (blockedCycle b)
    (cacheMustSendRetry b) (port_blocked b) (sendq b) (send_draining b) (send_drained b)
    (retries b) (bstats b).

(** The part of the constructor: the reserves of the queues are the capacities
    of the read queue and, plus 500, of the write queue. *)
Definition new_bufs `{D : DRAMParams} (mshrs write_buffers : Z) : Bufs :=
  mkBufs (new_queue mshrs readBufferSize 0 Blocked_NoMSHRs)
    (new_queue write_buffers (writeBufferSize + 500) 0 Blocked_NoWBuffers) None 0 0 0
    false false new_packet_queue false 0 0 ∅.

Definition bstat (name : string) (b : Bufs) : Bufs := b <| bstats ::= stat_inc name |>.

(** [mshr->queue] of a register, by its index. *)
Definition queue_of (b : Bufs) (qi : Z) : MSHRQueue :=
  if qi =? 0 then mshrQueue b else writeBuffer b.
Definition upd_queue (qi : Z) (q : MSHRQueue) (b : Bufs) : Bufs :=
  if qi =? 0 then b <| mshrQueue := q |> else b <| writeBuffer := q |>.

(** The requester in front of the cache: what it does to the buffers, by the requests
    it sends, while [port.sendRetryReq] calls it. *)
Class Requester := mkRequester { recvReqRetry : Tick → Bufs → res Bufs }.

Section buffers.
Context `{P : CacheParams} `{C : Clocked} `{Q : Requester}.

(** [ClockedObject::curCycle]: the number of clock edges before [now]. *)
Definition curCycle (now : Tick) : Z := divCeil now clockPeriod.

(** [MemoryPort::setBlocked], [MemoryPort::clearBlocked]. *)
Definition port_setBlocked (b : Bufs) : res Bufs :=
  assert (negb (port_blocked b)) "!blocked";;
  Ok (b <| port_blocked := true |>).
Definition port_clearBlocked (b : Bufs) : res Bufs :=
  assert (port_blocked b) "blocked";;
  Ok (b <| port_blocked := false |>).

Definition setBlocked (now : Tick) (cause : Z) (b : Bufs) : res Bufs :=
  let flag := u8 (Z.shiftl 1 cause) in
  b ← (if blocked b =? 0 then
         port_setBlocked (b <| bstats ::= stat_inc_at "blocked_causes" cause |>
                            <| blockedCycle := curCycle now |>)
       else Ok b);
  Ok (b <| blocked ::= λ m, Z.lor m flag |>).

Definition clearBlocked (now : Tick) (cause : Z) (b : Bufs) : res Bufs :=
  let flag := u8 (Z.shiftl 1 cause) in
  let b := b <| blocked ::= λ m, Z.ldiff m flag |> in
  if blocked b =? 0 then
    let b := b <| bstats ::= stat_add "blocked_cycles" cause (curCycle now - blockedCycle b) |> in
    b ← port_clearBlocked b;
    if cacheMustSendRetry b then
      b ← recvReqRetry now (b <| retries ::= Z.succ |>);
      Ok (b <| cacheMustSendRetry := false |>)
    else Ok b
  else Ok b.

(** [dramCache_masterport.schedSendEvent]. *)
Definition schedMemSideSendEvent (now time : Tick) (b : Bufs) : res Bufs :=
  qd ← schedSendEvent now (send_draining b) time (sendq b);
  Ok (b <| sendq := qd.1 |> <| send_drained ::= λ n, if qd.2 : bool then n + 1 else n |>).

Definition allocateBufferInternal (now : Tick) (qi : Z) (a : Addr) (sz : Z) (pkt : Packet)
    (time : Tick) (sched_send : bool) (b : Bufs) : res (mshr_ref * Bufs) :=
  assert (a =? blockAlign a) "addr == blockAlign(addr)";;
  iq ← allocate now a sz pkt time (order b) (queue_of b qi);
  let '(i, q) := iq in
  let b := upd_queue qi q (b <| order ::= λ o, u64 (o + 1) |>) in
  b ← (if isFull q then setBlocked now (qindex q) b else Ok b);
  b ← (if sched_send then schedMemSideSendEvent now time b else Ok b);
  Ok ((qi, i), b).

Definition allocateMissBuffer (now : Tick) (pkt : Packet) (time : Tick) (b : Bufs)
    : res (mshr_ref * Bufs) :=
  let b := bstat "dramCache_tot_mshr_used" b in
  let b := b <| bstats ::= stat_max "dramCache_max_mshr_used" 0 (allocated (mshrQueue b) + 1) |> in
  allocateBufferInternal now 0 (blockAlign (addr pkt)) dramCache_block_size pkt time true b.

Definition allocateWriteBuffer (now : Tick) (pkt : Packet) (time : Tick) (b : Bufs)
    : res (mshr_ref * Bufs) :=
  let b := bstat "dramCache_tot_writebuffer_used" b in
  let b := b <| bstats ::= stat_max "dramCache_max_writebuffer_used" 0
                             (allocated (writeBuffer b) + 1) |> in
  assert (isWrite (cmd pkt) && negb (isRead (cmd pkt))) "pkt->isWrite() && !pkt->isRead()";;
  allocateBufferInternal now 1 (blockAlign (addr pkt)) dramCache_block_size pkt time true b.

Definition markInService (now : Tick) (r : mshr_ref) (pending_dirty_resp : bool) (b : Bufs)
    : res Bufs :=
  let mq := queue_of b r.1 in
  let wasFull := isFull mq in
  mq ← MshrQueue.markInService r.2 pending_dirty_resp mq;
  let b := upd_queue r.1 mq b in
  if wasFull && negb (isFull mq) then clearBlocked now (qindex mq) b else Ok b.

(** [mq->deallocate(mshr)] with the test of [wasFull] around it. *)
Definition deallocateMSHR (now : Tick) (r : mshr_ref) (wasFull : bool) (b : Bufs) : res Bufs :=
  mq ← deallocate r.2 (queue_of b r.1);
  let b := upd_queue r.1 mq b in
  if wasFull && negb (isFull mq) then clearBlocked now (qindex mq) b else Ok b.

(** The register of a reference. *)
Definition the_mshr (b : Bufs) (r : mshr_ref) : MSHR := reg (queue_of b r.1) r.2.
Definition upd_mshr (r : mshr_ref) (m : MSHR) (b : Bufs) : Bufs :=
  upd_queue r.1 (upd_reg r.2 m (queue_of b r.1)) b.

(** A request joins an outstanding miss; the last target blocks the cache. *)
Definition coalesce (now : Tick) (cpu : bool) (i : nat) (pkt : Packet) (b : Bufs) : res Bufs :=
  let b := bstat "dramCache_mshr_hits" b in
  let b := if cpu then bstat "dramCache_cpu_mshr_hits" b else b in
  m ← allocateTarget now pkt (headerDelay pkt) (order b) (the_mshr b (0, i));
  let b := upd_mshr (0, i) m (b <| order ::= λ o, u64 (o + 1) |>) in
  if getNumTargets m =? numTarget
  then setBlocked now Blocked_NoTargets (b <| noTargetMSHR := Some (0, i) |>)
  else Ok b.

(** The unblocking at the start of a response. *)
Definition clearNoTarget (now : Tick) (r : mshr_ref) (b : Bufs) : res Bufs :=
  if bool_decide (noTargetMSHR b = Some r) then
    b ← clearBlocked now Blocked_NoTargets b;
    Ok (b <| noTargetMSHR := None |>)
  else Ok b.

(** The targets that a loop [while (mshr->hasTargets()) ... popTarget()] visits,
    and the register after it. *)
Definition takeTargets (r : mshr_ref) (b : Bufs) : list Target * Bufs :=
  let m := the_mshr b r in
  (tlist (targets m), upd_mshr r (m <| targets ::= λ t, t <| tlist := [] |> |>) b).

(** ** Sending *)

Definition getNextMSHR (now : Tick) (b : Bufs) : option mshr_ref :=
  let miss := MshrQueue.getNextMSHR now (mshrQueue b) in
  let miss_first (miss : nat) : mshr_ref :=
    let m := reg (mshrQueue b) miss in
    match findPending (blkAddr m) (m_isSecure m) (writeBuffer b) with
    | Some c => (1, c)
    | None => (0, miss)
    end in
  match MshrQueue.getNextMSHR now (writeBuffer b), miss with
  | Some w, _ =>
      if (isFull (writeBuffer b) && (inServiceEntries (writeBuffer b) =? 0)) || negb (isSome miss)
      then
        match findPending (blkAddr (reg (writeBuffer b) w)) true (mshrQueue b) with
        | Some c =>
            if m_order (reg (mshrQueue b) c) <? m_order (reg (writeBuffer b) w)
            then Some (0, c) else Some (1, w)
        | None => Some (1, w)
        end
      else miss_first <$> miss
  | None, Some i => Some (miss_first i)
  | None, None => None
  end.

Definition nextMSHRReadyTime (b : Bufs) : Tick :=
  Z.min (MshrQueue.nextMSHRReadyTime (mshrQueue b)) (MshrQueue.nextMSHRReadyTime (writeBuffer b)).

(** [new Packet(tgt_pkt->req, WriteReq, dramCache_block_size)], [allocate] and
    [setData]; bytes beyond the buffer of the target are indeterminate. *)
Definition write_packet (id : Z) (tgt : Packet) : res Packet :=
  let p := tgt <| pkt_id := id |> <| cmd := WriteReq |>
               <| addr := Z.ldiff (addr tgt) (dramCache_block_size - 1) |>
               <| size := dramCache_block_size |> <| memInhibit := false |> <| isExpressSnoop := false |>
               <| headerDelay := 0 |> <| payloadDelay := 0 |> <| data := NoData |>
               <| senderState := None |> in
  p ← Packet.allocate p;
  bs ← getPtr tgt;
  let n := Z.to_nat dramCache_block_size in
  copy_in p (bs ++ replicate n None) n.

(** [getTimingPacket]; [id] is the identity of the new packet. *)
Definition getTimingPacket (now id : Z) (b : Bufs) : res (option (Packet * mshr_ref)) :=
  match getNextMSHR now b with
  | None => Ok None
  | Some r =>
      let m := the_mshr b r in
      assert (1 <=? getNumTargets m) "mshr->getNumTargets()>=1";;
      t ← getTarget m;
      p ← (if r.1 =? 0 then clone_packet id (t_pkt t) else write_packet id (t_pkt t));
      Ok (Some (p <| senderState := Some r |>, r))
  end.

(** [DRAMCacheReqPacketQueue::sendDeferredPacket]; [accepted] is the answer of
    the memory.  The result includes the packet offered. *)
Definition cache_sendDeferredPacket (now id : Z) (accepted : bool) (b : Bufs)
    : res (option Packet * Bufs) :=
  assert (negb (waitingOnRetry (sendq b))) "!waitingOnRetry";;
  o ← getTimingPacket now id b;
  match o with
  | None => Ok (None, b)
  | Some (p, r) =>
      let b := b <| sendq ::= λ q, q <| waitingOnRetry := negb accepted |> |> in
      if accepted then
        b ← markInService now r false b;
        b ← schedMemSideSendEvent now (nextMSHRReadyTime b) b;
        Ok (Some p, b)
      else Ok (Some p, b)
  end.

(** [processSendEvent] and [retry] of the packet queue, with this
    [sendDeferredPacket]. *)
Definition cache_processSendEvent (now id : Z) (accepted : bool) (b : Bufs)
    : res (option Packet * Bufs) :=
  let b := b <| sendq ::= λ q, q <| sendEvent := None |> |> in
  assert (negb (waitingOnRetry (sendq b))) "!waitingOnRetry";;
  cache_sendDeferredPacket now id accepted b.
Definition cache_recvReqRetry (now id : Z) (accepted : bool) (b : Bufs)
    : res (option Packet * Bufs) :=
  assert (waitingOnRetry (sendq b)) "waitingOnRetry";;
  cache_sendDeferredPacket now id accepted (b <| sendq ::= λ q, q <| waitingOnRetry := false |> |>).
End buffers.

(** A requester that sends its request again later, by an event of its own. *)
#[export] Instance sends_later : Requester := {| recvReqRetry _ b := Ok b |}.
End CacheBuffers.
