(* ===== verification/CacheBuffersProofs.v ===== *)
(** * Flow control and sending of the DRAM cache: proofs

    Over every interleaving of allocations, coalescing, sends, retries and
    responses, by requesters that answer a retry later, the blocking mask says exactly
    which resources are recorded as exhausted, and a pending request always has a send
    event or a retry to wait for; and how a cancelled miss, or a requester that answers
    a retry at once, breaks this. *)

From S2P Require Import Prelude Intmath Packet DramTypes Config PacketQueue Mshr MshrQueue.
From S2P Require Import CacheTags CacheTagsSpec CacheBuffers.
Import Intmath MemCmd Packet PacketQueue Mshr MshrQueue CacheTags CacheTagsSpec CacheBuffers.

Module CacheBuffersProofs.

(** ** The blocking mask *)

Abbreviation flags := (bool * bool * bool)%type.
Definition mask (f : flags) : Z := Z.b2z f.1.1 + 2 * Z.b2z f.1.2 + 4 * Z.b2z f.2.
Definition any (f : flags) : bool := f.1.1 || f.1.2 || f.2.
Definition with_cause (c : Z) (v : bool) (f : flags) : flags :=
  if c =? 0 then (v, f.1.2, f.2) else if c =? 1 then (f.1.1, v, f.2) else (f.1.1, f.1.2, v).
Definition cause (c : Z) (f : flags) : bool :=
  if c =? 0 then f.1.1 else if c =? 1 then f.1.2 else f.2.

(** The exhausted resources. *)
Definition causes (b : Bufs) : flags :=
  (isFull (mshrQueue b), isFull (writeBuffer b), isSome (noTargetMSHR b)).

Record gate (f : flags) (b : Bufs) : Prop :=
  { gate_mask : blocked b = mask f;
    gate_port : port_blocked b = any f;
    gate_retry : cacheMustSendRetry b = true → any f = true }.

(** The fields that blocking does not touch. *)
Definition same_bufs (b b' : Bufs) : Prop :=
  mshrQueue b' = mshrQueue b ∧ writeBuffer b' = writeBuffer b ∧
  noTargetMSHR b' = noTargetMSHR b ∧ sendq b' = sendq b ∧ order b' = order b.

Ltac all_causes c :=
  let H := fresh in
  assert (c = 0 ∨ c = 1 ∨ c = 2) as H by lia; destruct H as [->|[->| ->]].

Lemma mask_set c f : 0 ≤ c ≤ 2 →
  Z.lor (mask f) (u8 (Z.shiftl 1 c)) = mask (with_cause c true f) ∧ any (with_cause c true f) = true.
Proof. intros Hc. destruct f as [[[] []] []]; all_causes c; done. Qed.

Lemma mask_clear c f : 0 ≤ c ≤ 2 →
  Z.ldiff (mask f) (u8 (Z.shiftl 1 c)) = mask (with_cause c false f).
Proof. intros Hc. destruct f as [[[] []] []]; all_causes c; done. Qed.

Lemma mask_zero f : (mask f =? 0) = negb (any f).
Proof. by destruct f as [[[] []] []]. Qed.

Section buffers.
Context `{P : CacheParams} `{C : Clocked}.

Lemma setBlocked_gate now c f b :
  0 ≤ c ≤ 2 → gate f b →
  ∃ b', setBlocked now c b = Ok b' ∧ gate (with_cause c true f) b' ∧ same_bufs b b'.
Proof.
  intros Hc [Hm Hp Hr]. destruct (mask_set c f Hc) as [Hs Ha].
  unfold setBlocked, port_setBlocked. rewrite Hm, mask_zero. destruct (any f) eqn:Ef; cbn.
  - eexists. split; [done|]. split; [split; cbn; rewrite ?Hm, ?Ha; done|done].
  - rewrite Hp. cbn. eexists. split; [done|]. split; [split; cbn; rewrite ?Hm, ?Ha; done|done].
Qed.

Lemma clearBlocked_gate now c f b :
  0 ≤ c ≤ 2 → cause c f = true → gate f b →
  ∃ b', clearBlocked now c b = Ok b' ∧ gate (with_cause c false f) b' ∧ same_bufs b b'.
Proof.
  intros Hc Ht [Hm Hp Hr]. pose proof (mask_clear c f Hc) as Hs.
  assert (any f = true) as Ef.
  { destruct f as [[[] []] []]; all_causes c; done. }
  unfold clearBlocked, port_clearBlocked. cbn. rewrite Hm, Hs, mask_zero.
  destruct (any (with_cause c false f)) eqn:Ea; cbn.
  - eexists. split; [done|]. split; [split; cbn; rewrite ?Hm, ?Ea, ?Hp; done|done].
  - rewrite Hp, Ef. cbn. destruct (cacheMustSendRetry b) eqn:Er; (eexists; split; [done|]);
      (split; [split; cbn; rewrite ?Hm, ?Ea, ?Er; done|done]).
Qed.

Lemma gate_upd f qi q b : gate f b → gate f (upd_queue qi q b).
Proof. intros [? ? ?]. unfold upd_queue. by case_match; split. Qed.

Lemma causes_same b b' : same_bufs b b' → causes b' = causes b.
Proof. intros (E1 & E2 & E3 & _). unfold causes. by rewrite E1, E2, E3. Qed.

Lemma causes_upd qi q b : 0 ≤ qi ≤ 1 →
  causes (upd_queue qi q b) = with_cause qi (isFull q) (causes b) ∧
  cause qi (causes b) = isFull (queue_of b qi).
Proof. intros. assert (qi = 0 ∨ qi = 1) as [->| ->] by lia; done. Qed.

Lemma with_cause_id c f : 0 ≤ c ≤ 2 → with_cause c (cause c f) f = f.
Proof. intros. destruct f as [[? ?] ?]. all_causes c; done. Qed.

(** A queue that gets fuller, and one that gets emptier. *)
Lemma fuller_gate now qi q b :
  0 ≤ qi ≤ 1 → (isFull (queue_of b qi) = true → isFull q = true) → gate (causes b) b →
  ∃ b', (if isFull q then setBlocked now qi (upd_queue qi q b) else Ok (upd_queue qi q b)) = Ok b' ∧
    gate (causes b') b' ∧ same_bufs (upd_queue qi q b) b'.
Proof.
  intros Hqi Hf Hg. destruct (causes_upd qi q b Hqi) as [Ec Eq].
  apply (gate_upd _ qi q) in Hg. destruct (isFull q) eqn:E.
  - destruct (setBlocked_gate now qi _ _ ltac:(lia) Hg) as (b' & -> & Hg' & Hs).
    exists b'. split_and!; [done| |done]. rewrite (causes_same _ _ Hs), Ec. done.
  - eexists. split_and!; [done| |done]. rewrite Ec.
    destruct (isFull (queue_of b qi)); [naive_solver|].
    rewrite <-Eq, with_cause_id by lia. done.
Qed.

Lemma emptier_gate now qi q b :
  0 ≤ qi ≤ 1 → (isFull q = true → isFull (queue_of b qi) = true) → gate (causes b) b →
  ∃ b', (if isFull (queue_of b qi) && negb (isFull q)
         then clearBlocked now qi (upd_queue qi q b) else Ok (upd_queue qi q b)) = Ok b' ∧
    gate (causes b') b' ∧ same_bufs (upd_queue qi q b) b'.
Proof.
  intros Hqi Hf Hg. destruct (causes_upd qi q b Hqi) as [Ec Eq].
  apply (gate_upd _ qi q) in Hg. destruct (isFull (queue_of b qi)) eqn:E1, (isFull q) eqn:E2; cbn.
  2:{ destruct (clearBlocked_gate now qi _ _ ltac:(lia) Eq Hg) as (b' & -> & Hg' & Hs).
      exists b'. split_and!; [done| |done]. rewrite (causes_same _ _ Hs), Ec. done. }
  2:{ naive_solver. }
  all: eexists; split_and!; [done| |done]; rewrite Ec, <-Eq, with_cause_id by lia; done.
Qed.
End buffers.

(** ** The two queues *)

Abbreviation nq := MshrQueue.nextMSHRReadyTime.

(** What the register of a pending request holds. *)
Definition sendable (idx : Z) (m : MSHR) : Prop :=
  m_readyTime m < MaxTick ∧
  ∃ t ts, tlist (targets m) = t :: ts ∧ (idx = 1 → data (t_pkt t) ≠ NoData).

Record qinv (idx : Z) (q : MSHRQueue) : Prop :=
  { qi_ok : queue_ok q;
    qi_sorted : ready_sorted q;
    qi_index : qindex q = idx;
    qi_reserve : 1 ≤ numReserve q;
    qi_plain : Forall plain (registers q);
    qi_send : ∀ i, i ∈ readyList q → sendable idx (reg q i) }.

Lemma nq_spec q t : ready_sorted q → t ≤ MaxTick →
  (∀ i, i ∈ readyList q → m_readyTime (reg q i) ≤ MaxTick) →
  t ≤ nq q ↔ ∀ i, i ∈ readyList q → t ≤ m_readyTime (reg q i).
Proof.
  unfold ready_sorted, nq. intros Hs Ht Hm. destruct (readyList q) as [|j l] eqn:E.
  - split; [by intros _ i ?%not_elem_of_nil|done].
  - inversion Hs as [|? ? _ Hf]; subst. rewrite Forall_forall in Hf. split.
    + intros H i [->|Hi]%elem_of_cons; [done|]. specialize (Hf i Hi). unfold earlier in Hf. lia.
    + intros H. apply H. left.
Qed.

Lemma nq_max q : (∀ i, i ∈ readyList q → m_readyTime (reg q i) ≤ MaxTick) → nq q ≤ MaxTick.
Proof. unfold nq. destruct (readyList q); [done|]. intros H. apply H. left. Qed.

Lemma qinv_max idx q : qinv idx q →
  nq q ≤ MaxTick ∧ ∀ i, i ∈ readyList q → m_readyTime (reg q i) ≤ MaxTick.
Proof.
  intros Hq. assert (∀ i, i ∈ readyList q → m_readyTime (reg q i) ≤ MaxTick) as H.
  { intros i Hi. destruct (qi_send _ _ Hq i Hi) as [? _]. lia. }
  split; [by apply nq_max|done].
Qed.

(** The ready times determine the next ready time. *)
Lemma nq_ext idx q q' : qinv idx q → qinv idx q' →
  (∀ i, i ∈ readyList q' ↔ i ∈ readyList q) →
  (∀ i, i ∈ readyList q → m_readyTime (reg q' i) = m_readyTime (reg q i)) → nq q' = nq q.
Proof.
  intros H H' El Er. destruct (qinv_max _ _ H) as [M Hm], (qinv_max _ _ H') as [M' Hm'].
  apply Z.le_antisymm.
  - apply nq_spec; [apply H|done..|]. intros i Hi. rewrite <-Er by done.
    eapply nq_spec; [apply H'|exact M'|done| |by apply El]. lia.
  - apply nq_spec; [apply H'|done..|]. intros i Hi%El. rewrite Er by done.
    eapply nq_spec; [apply H|exact M|done| |done]. lia.
Qed.

Lemma isFull_shape q q' : shape q' = shape q → allocated q ≤ allocated q' →
  isFull q = true → isFull q' = true.
Proof.
  unfold shape, isFull. intros E Ha Hf. injection E as -> -> _. apply Z.ltb_lt in Hf. apply Z.ltb_lt. lia.
Qed.

Lemma allocate_qinv now a sz pkt time order idx q :
  qinv idx q → freeList q ≠ [] → time < MaxTick → (idx = 1 → data pkt ≠ NoData) →
  ∃ i q', allocate now a sz pkt time order q = Ok (i, q') ∧ qinv idx q' ∧
    (isFull q = true → isFull q' = true) ∧ nq q' = Z.min (nq q) time.
Proof.
  intros Hq Hf Ht Hd. pose proof Hq as [H1 H2 H3 H4 H5 H6].
  destruct (allocate_ok now a sz pkt time order q H1 Hf)
    as (i & q' & E & Hok & Hs & Hni & Hal & Hir & Hoth & Hsv & _ & _ & Hrt & src & Htg).
  assert (Eop : apply_op (QAllocate now a sz pkt time order) q = Ok q') by (cbn; by rewrite E).
  pose proof (shape_step _ _ _ Eop) as Esh.
  assert (El : ∀ j, j ∈ readyList q' ↔ j = i ∨ j ∈ readyList q).
  { intros j. rewrite (queue_ok_ready q' j Hok), (queue_ok_ready q j H1), Hal, elem_of_app.
    rewrite list_elem_of_singleton. destruct (decide (j = i)) as [->|]; [naive_solver|].
    rewrite Hoth by done. naive_solver. }
  assert (Hq' : qinv idx q').
  { split; [done|by apply Hs| | | |].
    - unfold shape in Esh. injection Esh as _ _ ->. done.
    - unfold shape in Esh. injection Esh as _ -> _. done.
    - eapply plain_step, Eop; done.
    - intros j [->|Hj]%El.
      + split; [by rewrite Hrt|]. rewrite Htg. eauto.
      + rewrite Hoth; [by apply H6|]. intros ->. apply (queue_ok_ready q i H1) in Hj. naive_solver. }
  exists i, q'. split_and!; [done..| |].
  - apply isFull_shape; [done|]. rewrite (qo_allocated q H1), (qo_allocated q' Hok), Hal, length_app. lia.
  - destruct (qinv_max _ _ Hq) as [M Hm], (qinv_max _ _ Hq') as [M' Hm'].
    assert (Hj : ∀ j, j ∈ readyList q → reg q' j = reg q j).
    { intros j Hj. apply Hoth. intros ->. apply (queue_ok_ready q i H1) in Hj. naive_solver. }
    apply Z.le_antisymm.
    + apply Z.min_glb.
      * apply nq_spec; [done..|]. intros j Hj'. rewrite <-Hj by done.
        eapply nq_spec; [apply Hq'|exact M'|done|lia|apply El; by right].
      * rewrite <-Hrt. eapply nq_spec; [apply Hq'|exact M'|done|lia|done].
    + apply nq_spec; [apply Hq'|lia|done|]. intros j [->|Hj']%El; [rewrite Hrt; lia|].
      rewrite Hj by done. assert (nq q ≤ m_readyTime (reg q j)); [|lia].
      eapply nq_spec; [done|exact M|done|lia|done].
Qed.

Lemma markInService_qinv i d idx q :
  qinv idx q → i ∈ readyList q →
  ∃ q', MshrQueue.markInService i d q = Ok q' ∧ qinv idx q' ∧
    (isFull q' = true → isFull q = true) ∧ nq q ≤ nq q'.
Proof.
  intros Hq Hi. pose proof Hq as [H1 H2 H3 H4 H5 H6].
  destruct (markInService_ok i d q H1 Hi) as (q' & E & Hok & Hs & Hf & Hn & Er & Hoth).
  assert (Eop : apply_op (QMarkInService i d) q = Ok q') by done.
  pose proof (shape_step _ _ _ Eop) as Esh.
  assert (Hj : ∀ j, j ∈ readyList q' → j ∈ readyList q ∧ reg q' j = reg q j).
  { intros j. rewrite Er, elem_of_erase. intros [? ?]. by rewrite Hoth. }
  assert (Hq' : qinv idx q').
  { split; [done|by apply Hs| | | |].
    - unfold shape in Esh. injection Esh as _ _ ->. done.
    - unfold shape in Esh. injection Esh as _ -> _. done.
    - by eapply plain_step, Eop.
    - intros j [? ->]%Hj. by apply H6. }
  exists q'. split_and!; [done..| |].
  - apply isFull_shape; [done|]. rewrite (qo_allocated q H1), (qo_allocated q' Hok).
    destruct (isForwardNoResponse (reg q i)) eqn:Efw; [|by destruct Hf as [-> _]].
    rewrite Hn by done. pose proof (length_erase i (allocatedList q)). lia.
  - destruct (qinv_max _ _ Hq) as [M Hm], (qinv_max _ _ Hq') as [M' Hm'].
    apply nq_spec; [apply Hq'|done..|]. intros j [Hj1 ->]%Hj.
    eapply nq_spec; [apply Hq|exact M|done|lia|done].
Qed.

(** A response empties its register and frees it. *)
Lemma deallocate_qinv i m idx q :
  qinv idx q → i ∈ allocatedList q → inService (reg q i) = true →
  m = (reg q i) <| targets ::= λ t, t <| tlist := [] |> |> →
  ∃ q', deallocate i (upd_reg i m q) = Ok q' ∧ qinv idx q' ∧
    (isFull q' = true → isFull q = true) ∧ nq q' = nq q ∧
    (∀ j, j ≠ i → j ∈ allocatedList q → j ∈ allocatedList q' ∧ reg q' j = reg q j).
Proof.
  intros Hq Hi Hsv Em. pose proof Hq as [H1 H2 H3 H4 H5 H6].
  pose proof (plain_reg q i H5) as [Hd Hp].
  assert (Hlt : (i < length (registers q))%nat).
  { destruct (queue_ok_nodup q H1) as (_ & _ & _ & Hall). apply Hall, elem_of_app. by right. }
  assert (Em' : deferredTargets m = deferredTargets (reg q i) ∧ inService m = inService (reg q i) ∧
    m_readyTime m = m_readyTime (reg q i) ∧ tlist (targets m) = [] ∧ plain m)
    by (subst m; split_and!; done).
  clear Em. destruct Em' as (Ed & Es & Er & Et & Epl).
  destruct (upd_reg_ok i m q H1 Hi Es) as [Hok1 Hs1]; [rewrite Ed; by apply (qo_deferred q H1)|].
  destruct (deallocate_ok i (upd_reg i m q) Hok1) as (q' & E & Hok & Hs & Hal & Han & Hoth & Hrl);
    [done| |].
  { rewrite reg_upd, decide_True by done. unfold getNumTargets. rewrite Et, Ed, Hd. done. }
  assert (Hnr : i ∉ readyList q) by (rewrite (queue_ok_ready q i H1); naive_solver congruence).
  change (readyList (upd_reg i m q)) with (readyList q) in Hrl. rewrite erase_notin in Hrl by done.
  assert (Hj : ∀ j, j ∈ readyList q → reg q' j = reg q j).
  { intros j Hj. rewrite Hoth by congruence. rewrite reg_upd by done.
    by rewrite decide_False by congruence. }
  assert (Eop : apply_op (QDeallocate i) (upd_reg i m q) = Ok q') by done.
  pose proof (shape_step _ _ _ Eop) as Esh. change (shape q' = shape q) in Esh.
  assert (Hq' : qinv idx q').
  { split; [done|by apply Hs, Hs1| | | |].
    - unfold shape in Esh. injection Esh as _ _ ->. done.
    - unfold shape in Esh. injection Esh as _ -> _. done.
    - eapply plain_step, Eop; [done|]. by apply Forall_insert.
    - intros j. rewrite Hrl. intros ?. rewrite Hj by done. by apply H6. }
  exists q'. split_and!; [done..| | |].
  - apply isFull_shape; [done|]. rewrite Han. cbn. lia.
  - apply (nq_ext idx); [done..| |]; intros j; [by rewrite Hrl|]. intros. by rewrite Hj.
  - intros j Hne Hja. rewrite Hal, Hoth by done. split; [by apply elem_of_erase|].
    rewrite reg_upd by done. by rewrite decide_False.
Qed.

Lemma coalesce_qinv now i pkt ready order idx q :
  qinv idx q → i ∈ allocatedList q → cmd pkt ≠ HardPFReq → needsExclusive (cmd pkt) = false →
  m_isUncacheable (reg q i) = false →
  ∃ m, allocateTarget now pkt ready order (reg q i) = Ok m ∧
    qinv idx (upd_reg i m q) ∧ nq (upd_reg i m q) = nq q.
Proof.
  intros Hq Hi Hc Hn Hu. pose proof Hq as [H1 H2 H3 H4 H5 H6].
  destruct (allocateTarget_ok now i pkt ready order q H1 Hi Hc Hu) as (m & E & Hok & Hs & _ & Hrt).
  assert (Hlt : (i < length (registers q))%nat).
  { destruct (queue_ok_nodup q H1) as (_ & _ & _ & Hall). apply Hall, elem_of_app. by right. }
  assert (Eop : apply_op (QTarget now i pkt ready order) q = Ok (upd_reg i m q)) by (cbn; by rewrite E).
  assert (Htl : ∃ t, tlist (targets m) = tlist (targets (reg q i)) ++ [t]).
  { unfold allocateTarget in E. rewrite must_defer_plain in E by (done || by apply plain_reg).
    apply bind_ok in E as (_ & _ & E). apply bind_ok in E as (_ & _ & [= <-]).
    cbn [targets set_field]. rewrite tlist_tl_add. eauto. }
  assert (Hq' : qinv idx (upd_reg i m q)).
  { split; [done|by apply Hs|done|done| |].
    - by eapply plain_step, Eop.
    - intros j Hj. rewrite reg_upd by done. specialize (H6 j Hj). case_decide as Eij; [|done].
      subst j. destruct H6 as (? & t & ts & Et & Hdat), Htl as [t' Htl].
      split; [lia|]. rewrite Htl, Et. by exists t, (ts ++ [t']). }
  exists m. split_and!; [done..|]. apply (nq_ext idx); [done..|].
  intros j Hj. rewrite reg_upd by done. by case_decide; subst.
Qed.

(** ** The send event *)

(** The state of the send queue when the earliest pending request is ready at
    [n] ([MaxTick]: none is pending). *)
Definition send_at (now n : Tick) (q : PacketQueue) : Prop :=
  if waitingOnRetry q then sendEvent q = None ∧ n ≤ now
  else match sendEvent q with
       | None => n = MaxTick
       | Some w => now ≤ w ∧ n ≤ w ≤ Z.max n (now + 1) ∧ n < MaxTick
       end.

Section run.
Context `{P : CacheParams} `{C : Clocked}.

Lemma sched_send_ok now time n b :
  send_at now n (sendq b) → n ≤ MaxTick → time ≤ MaxTick →
  ∃ sq dr, schedMemSideSendEvent now time b = Ok (b <| sendq := sq |> <| send_drained := dr |>) ∧
    send_at now (Z.min n time) sq.
Proof.
  unfold send_at. intros Hs Hn Ht. unfold schedMemSideSendEvent, schedSendEvent.
  destruct (waitingOnRetry (sendq b)) eqn:Ew.
  - destruct Hs as [Ee Hle]. rewrite Ee. cbn. do 2 eexists. split; [done|]. rewrite Ew. split; [done|lia].
  - destruct (Z.eqb_spec time MaxTick) as [->|Hne]; cbn.
    + do 2 eexists. split; [done|]. cbn. by rewrite Ew, Z.min_l by lia.
    + destruct (sendEvent (sendq b)) as [w|] eqn:Ee.
      * destruct (Z.ltb_spec (Z.max time (now + 1)) w).
        -- unfold reschedule. rewrite assert_bind by (apply Z.leb_le; lia). cbn.
           do 2 eexists. split; [done|]. cbn. rewrite Ew. lia.
        -- cbn. do 2 eexists. split; [done|]. cbn. rewrite Ew. lia.
      * unfold schedule. rewrite assert_bind by (apply Z.leb_le; lia). cbn.
        do 2 eexists. split; [done|]. cbn. rewrite Ew. lia.
Qed.

(** ** The invariant *)

Record binv (now : Tick) (b : Bufs) : Prop :=
  { bi_miss : qinv 0 (mshrQueue b);
    bi_write : qinv 1 (writeBuffer b);
    bi_gate : gate (causes b) b;
    bi_send : send_at now (nextMSHRReadyTime b) (sendq b) }.

(** The statistics and the order counter are not part of it. *)
Lemma binv_order now b b' :
  mshrQueue b' = mshrQueue b → writeBuffer b' = writeBuffer b → noTargetMSHR b' = noTargetMSHR b →
  sendq b' = sendq b → blocked b' = blocked b → port_blocked b' = port_blocked b →
  cacheMustSendRetry b' = cacheMustSendRetry b → binv now b → binv now b'.
Proof.
  intros E1 E2 E3 E4 E5 E6 E7 [H1 H2 [G1 G2 G3] H4]. unfold causes, nextMSHRReadyTime in *.
  split; unfold causes, nextMSHRReadyTime; rewrite ?E1, ?E2, ?E3, ?E4; [done..| |done].
  split; rewrite ?E5, ?E6, ?E7; done.
Qed.

Lemma either_queue b qi :
  0 ≤ qi ≤ 1 → qinv 0 (mshrQueue b) → qinv 1 (writeBuffer b) → qinv qi (queue_of b qi).
Proof. intros. assert (qi = 0 ∨ qi = 1) as [->| ->] by lia; done. Qed.

Lemma binv_queue now b qi : 0 ≤ qi ≤ 1 → binv now b → qinv qi (queue_of b qi).
Proof. intros ? []. by apply either_queue. Qed.

Lemma binv_next now b : binv now b → nextMSHRReadyTime b ≤ MaxTick.
Proof. intros H. unfold nextMSHRReadyTime. pose proof (qinv_max _ _ (bi_miss _ _ H)). lia. Qed.

Lemma later now now' b :
  now ≤ now' → (∀ w, sendEvent (sendq b) = Some w → now' ≤ w) → binv now b → binv now' b.
Proof.
  intros Hle Hw [H1 H2 H3 H4]. split; [done..|]. unfold send_at in *. case_match; [naive_solver lia|].
  case_match; [|done]. specialize (Hw _ eq_refl). lia.
Qed.

(** The two queues of a buffer after replacing one. *)
Lemma upd_queue_inv b qi q b' now :
  0 ≤ qi ≤ 1 → binv now b → qinv qi q → same_bufs (upd_queue qi q b) b' →
  qinv 0 (mshrQueue b') ∧ qinv 1 (writeBuffer b') ∧ sendq b' = sendq b ∧
  nextMSHRReadyTime b' =
    Z.min (nq q) (nq (queue_of b (1 - qi))).
Proof.
  intros Hqi [H1 H2 _ _] Hq (E1 & E2 & _ & E4 & _). unfold nextMSHRReadyTime. rewrite E1, E2, E4.
  assert (qi = 0 ∨ qi = 1) as [->| ->] by lia; cbn; split_and!; try done.
  apply Z.min_comm.
Qed.

Lemma next_split b qi : 0 ≤ qi ≤ 1 →
  nextMSHRReadyTime b = Z.min (nq (queue_of b qi)) (nq (queue_of b (1 - qi))).
Proof. intros. assert (qi = 0 ∨ qi = 1) as [->| ->] by lia; [done|apply Z.min_comm]. Qed.

Lemma allocateBuffer_ok now qi a sz pkt time b :
  0 ≤ qi ≤ 1 → binv now b → a = blockAlign a → freeList (queue_of b qi) ≠ [] → time < MaxTick →
  (qi = 1 → data pkt ≠ NoData) →
  ∃ r b', allocateBufferInternal now qi a sz pkt time true b = Ok (r, b') ∧ binv now b'.
Proof.
  intros Hqi Hb Ha Hf Ht Hd. unfold allocateBufferInternal.
  rewrite assert_bind by by apply Z.eqb_eq.
  destruct (allocate_qinv now a sz pkt time (order b) qi (queue_of b qi))
    as (i & q & -> & Hq & Hfull & Hnq); [by eapply binv_queue|done..|].
  cbn [mbind res_bind]. rewrite (qi_index _ _ Hq).
  set (b1 := b <| order ::= _ |>).
  destruct (fuller_gate now qi q b1 Hqi Hfull) as (b2 & -> & Hg & Hs).
  { destruct (bi_gate _ _ Hb). by split. }
  assert (Hb1 : binv now b1) by (by apply (binv_order now b)).
  destruct (upd_queue_inv b1 qi q b2 now Hqi Hb1 Hq Hs) as (I0 & I1 & Esq & En). cbn [mbind res_bind].
  destruct (sched_send_ok now time (nextMSHRReadyTime b) b2) as (sq & dr & -> & Hsend).
  { rewrite Esq. apply (bi_send _ _ Hb). }
  { by apply (binv_next now). } { lia. }
  cbn [mbind res_bind]. do 2 eexists. split; [done|].
  split; [done|done|destruct Hg; by split|].
  change (send_at now (nextMSHRReadyTime b2) sq). rewrite En, Hnq.
  rewrite (next_split b qi Hqi) in Hsend.
  replace (Z.min _ _) with (Z.min (Z.min (nq (queue_of b qi)) (nq (queue_of b (1 - qi)))) time); [done|].
  change (queue_of b1 (1 - qi)) with (queue_of b (1 - qi)). lia.
Qed.

Lemma coalesce_ok now cpu i pkt b :
  binv now b → i ∈ allocatedList (mshrQueue b) → cmd pkt ≠ HardPFReq →
  needsExclusive (cmd pkt) = false → m_isUncacheable (reg (mshrQueue b) i) = false →
  ∃ b', coalesce now cpu i pkt b = Ok b' ∧ binv now b'.
Proof.
  intros Hb Hi Hc Hn Hu. unfold coalesce.
  set (b1 := if cpu then _ else _).
  assert (E1 : mshrQueue b1 = mshrQueue b ∧ binv now b1).
  { unfold b1. destruct cpu; (split; [done|]); by apply (binv_order now b). }
  clearbody b1. destruct E1 as [E1 Hb1]. rewrite <-E1 in Hi, Hu. clear b E1 Hb.
  destruct (coalesce_qinv now i pkt (headerDelay pkt) (order b1) 0 (mshrQueue b1))
    as (m & E & Hq & En); [apply Hb1|done..|].
  change (the_mshr b1 (0, i)) with (reg (mshrQueue b1) i). rewrite E. cbn [mbind res_bind].
  set (b2 := upd_mshr _ _ _).
  assert (Hb2 : binv now b2).
  { destruct Hb1 as [I0 I1 [G1 G2 G3] I2]. split; [done|done|by split|].
    change (send_at now (Z.min (nq (upd_reg i m (mshrQueue b1))) (nq (writeBuffer b1))) (sendq b1)).
    by rewrite En. }
  clearbody b2. case_match; [|by eauto].
  destruct Hb2 as [I0 I1 Ig I2].
  destruct (setBlocked_gate now Blocked_NoTargets (causes b2) (b2 <| noTargetMSHR := Some (0, i) |>))
    as (b3 & -> & Hg & Hs); [done|destruct Ig; by split|].
  exists b3. split; [done|]. pose proof (causes_same _ _ Hs) as Ec.
  destruct Hs as (F1 & F2 & F3 & F4 & _). split.
  - by rewrite F1. - by rewrite F2. - by rewrite Ec.
  - unfold nextMSHRReadyTime. rewrite F1, F2, F4. exact I2.
Qed.

Lemma clearNoTarget_ok now r b :
  binv now b → ∃ b', clearNoTarget now r b = Ok b' ∧ binv now b' ∧
    mshrQueue b' = mshrQueue b ∧ writeBuffer b' = writeBuffer b.
Proof.
  intros Hb. unfold clearNoTarget. case_bool_decide as E; [|eauto].
  destruct Hb as [I0 I1 Ig I2].
  destruct (clearBlocked_gate now Blocked_NoTargets (causes b) b) as (b' & -> & Hg & Hs);
    [done|cbn; by rewrite E|done|].
  destruct Hs as (F1 & F2 & F3 & F4 & _). cbn. eexists. split; [done|]. split; [|by split].
  split; cbn.
  - by rewrite F1. - by rewrite F2.
  - destruct Hg as [G1 G2 G3]. unfold causes. cbn. rewrite F1, F2. by split.
  - change (send_at now (nextMSHRReadyTime b') (sendq b')). unfold nextMSHRReadyTime.
    rewrite F1, F2, F4. exact I2.
Qed.

(** What a response does to the buffers. *)
Definition respond_mshr (now : Tick) (r : mshr_ref) (b : Bufs) : res Bufs :=
  let wasFull := isFull (queue_of b r.1) in
  b ← clearNoTarget now r b;
  deallocateMSHR now r wasFull (takeTargets r b).2.

Lemma respond_ok now r b :
  binv now b → 0 ≤ r.1 ≤ 1 → r.2 ∈ allocatedList (queue_of b r.1) →
  inService (the_mshr b r) = true →
  ∃ b', respond_mshr now r b = Ok b' ∧ binv now b'.
Proof.
  intros Hb Hr Hi Hsv. unfold respond_mshr.
  destruct (clearNoTarget_ok now r b Hb) as (b1 & -> & Hb1 & E1 & E2). cbn [mbind res_bind].
  assert (Eq : queue_of b1 r.1 = queue_of b r.1) by (unfold queue_of; by rewrite E1, E2).
  unfold the_mshr in Hsv. rewrite <-Eq in *. clear E1 E2 Eq Hb b.
  unfold takeTargets, deallocateMSHR, upd_mshr. cbn [snd]. set (m := (the_mshr b1 r) <| targets ::= _ |>).
  destruct (deallocate_qinv r.2 m r.1 (queue_of b1 r.1)) as (q & E & Hq & Hf & Hn & _);
    [by eapply binv_queue|done..|].
  assert (Eu : ∀ q0, queue_of (upd_queue r.1 q0 b1) r.1 = q0)
    by (intros; unfold queue_of, upd_queue; by destruct (r.1 =? 0)).
  assert (Eu2 : ∀ q0 q1, upd_queue r.1 q1 (upd_queue r.1 q0 b1) = upd_queue r.1 q1 b1)
    by (intros; unfold upd_queue; by destruct (r.1 =? 0)).
  rewrite Eu, E. cbn [mbind res_bind]. rewrite Eu2, (qi_index _ _ Hq).
  destruct (emptier_gate now r.1 q b1 Hr Hf) as (b2 & -> & Hg & Hs); [apply Hb1|].
  destruct (upd_queue_inv b1 r.1 q b2 now Hr Hb1 Hq Hs) as (I0 & I1 & Esq & En).
  exists b2. split; [done|]. split; [done..|]. rewrite Esq, En, Hn, <-next_split by done. apply Hb1.
Qed.

(** ** Sending *)

Lemma findPending_ready a sec q i : findPending a sec q = Some i → i ∈ readyList q.
Proof.
  unfold findPending. intros ([j k] & (Hl & _)%list_find_Some & ->)%fmap_Some.
  by eapply list_elem_of_lookup_2.
Qed.

Lemma queue_next_ready now q i : MshrQueue.getNextMSHR now q = Some i → i ∈ readyList q.
Proof.
  unfold MshrQueue.getNextMSHR. destruct (readyList q); [done|]. case_match; [done|].
  intros [= ->]. left.
Qed.

Lemma queue_next_some now q : nq q ≤ now → now < MaxTick → is_Some (MshrQueue.getNextMSHR now q).
Proof.
  unfold MshrQueue.getNextMSHR, nq. destruct (readyList q); [lia|]. intros H _.
  destruct (Z.ltb_spec now (m_readyTime (reg q n))); [lia|eauto].
Qed.

Lemma getNextMSHR_ready now b r :
  getNextMSHR now b = Some r → 0 ≤ r.1 ≤ 1 ∧ r.2 ∈ readyList (queue_of b r.1).
Proof.
  unfold getNextMSHR. pose proof (queue_next_ready now (mshrQueue b)) as Hm.
  pose proof (queue_next_ready now (writeBuffer b)) as Hw.
  destruct (MshrQueue.getNextMSHR now (writeBuffer b)) as [w|],
    (MshrQueue.getNextMSHR now (mshrQueue b)) as [i|]; cbn; repeat case_match; intros;
    simplify_eq/=; (split; [lia|]);
    try match goal with E : findPending _ _ _ = Some _ |- _ => by apply findPending_ready in E end;
    auto.
Qed.

Lemma getNextMSHR_some now b :
  nextMSHRReadyTime b ≤ now → now < MaxTick → ∃ r, getNextMSHR now b = Some r.
Proof.
  unfold getNextMSHR, nextMSHRReadyTime. intros Hn Ht.
  assert (is_Some (MshrQueue.getNextMSHR now (mshrQueue b)) ∨
          is_Some (MshrQueue.getNextMSHR now (writeBuffer b))) as Hs.
  { destruct (Z.le_gt_cases (nq (mshrQueue b)) now); [left|right]; apply queue_next_some; lia. }
  destruct (MshrQueue.getNextMSHR now (writeBuffer b)) as [w|],
    (MshrQueue.getNextMSHR now (mshrQueue b)) as [i|]; cbn; rewrite ?orb_true_r;
    repeat case_match; eauto; destruct Hs as [[? ?]|[? ?]]; congruence.
Qed.

Lemma getTimingPacket_ok now id b r :
  qinv 0 (mshrQueue b) → qinv 1 (writeBuffer b) → getNextMSHR now b = Some r →
  ∃ p, getTimingPacket now id b = Ok (Some (p, r)).
Proof.
  intros I0 I1 Hr. destruct (getNextMSHR_ready now b r Hr) as [Hq Hi].
  destruct (qi_send _ _ (either_queue b r.1 Hq I0 I1) _ Hi) as (_ & t & ts & Et & Hd).
  unfold getTimingPacket, the_mshr. rewrite Hr. set (m := reg _ _) in *.
  rewrite assert_bind by (apply Z.leb_le; unfold getNumTargets; rewrite Et; cbn; lia).
  unfold getTarget. rewrite Et. cbn [mbind res_bind].
  destruct (Z.eqb_spec r.1 0).
  - unfold clone_packet. destruct (data (t_pkt t)); cbn; eauto.
  - assert (r.1 = 1) as Eone by lia. specialize (Hd Eone).
    unfold write_packet, getPtr, copy_in. cbn. destruct (data (t_pkt t)); cbn; eauto; done.
Qed.

(** The queue has just been told to send: nothing is scheduled. *)
Lemma send_now_ok now id accepted b :
  qinv 0 (mshrQueue b) → qinv 1 (writeBuffer b) → gate (causes b) b →
  waitingOnRetry (sendq b) = false → sendEvent (sendq b) = None →
  nextMSHRReadyTime b ≤ now → now < MaxTick →
  ∃ p b', cache_sendDeferredPacket now id accepted b = Ok (Some p, b') ∧ binv now b'.
Proof.
  intros I0 I1 Ig Ew Ee Hn Ht. unfold cache_sendDeferredPacket. rewrite Ew. cbn [negb].
  rewrite assert_bind by done.
  destruct (getNextMSHR_some now b Hn Ht) as [r Hr].
  destruct (getTimingPacket_ok now id b r I0 I1 Hr) as [p ->].
  cbn [mbind res_bind]. destruct (getNextMSHR_ready now b r Hr) as [Hq Hi].
  set (b1 := b <| sendq ::= _ |>). destruct accepted; cbn [negb] in b1.
  - change (queue_of b r.1) with (queue_of b1 r.1) in Hi.
    assert (Hb1 : qinv r.1 (queue_of b1 r.1)) by by apply either_queue.
    unfold markInService.
    destruct (markInService_qinv r.2 false r.1 (queue_of b1 r.1) Hb1 Hi) as (q & -> & Hq' & Hf & _).
    cbn [mbind res_bind]. rewrite (qi_index _ _ Hq').
    destruct (emptier_gate now r.1 q b1 Hq Hf) as (b2 & -> & Hg & Hs); [destruct Ig; by split|].
    destruct Hs as (F1 & F2 & F3 & F4 & _). cbn [mbind res_bind].
    assert (J : qinv 0 (mshrQueue b2) ∧ qinv 1 (writeBuffer b2)).
    { rewrite F1, F2. unfold upd_queue. destruct (Z.eqb_spec r.1 0) as [E|E]; cbn;
        [rewrite <-E; done|]. replace 1 with r.1 by lia. done. }
    destruct J as [J0 J1].
    destruct (sched_send_ok now (nextMSHRReadyTime b2) MaxTick b2) as (sq & dr & -> & Hsend).
    { rewrite F4. unfold send_at, upd_queue. destruct (r.1 =? 0); cbn; by rewrite Ee. }
    { done. } { unfold nextMSHRReadyTime. pose proof (qinv_max _ _ J0). lia. }
    cbn. do 2 eexists. split; [done|]. split; [done|done|destruct Hg; by split|].
    change (send_at now (nextMSHRReadyTime b2) sq).
    rewrite Z.min_r in Hsend; [done|]. unfold nextMSHRReadyTime. pose proof (qinv_max _ _ J0). lia.
  - cbn. do 2 eexists. split; [done|]. split; [done|done|destruct Ig; by split|].
    unfold send_at. cbn. by rewrite Ee.
Qed.

Lemma blockAlign_idem a : blockAlign a = blockAlign (blockAlign a).
Proof. unfold blockAlign. apply Z.bits_inj'. intros n Hn. rewrite !Z.ldiff_spec. by destruct (Z.testbit a n), (Z.testbit _ n). Qed.

(** ** Runs *)

Inductive bop : Type :=
| BMiss (pkt : Packet) (time : Tick)
| BWrite (pkt : Packet) (time : Tick)
| BCoalesce (cpu : bool) (i : nat) (pkt : Packet)
| BSend (id : Z) (accepted : bool)
| BRetry (id : Z) (accepted : bool)
| BRespond (r : mshr_ref)
| BRefuse.

(** When the controller calls an operation: allocations need a free register,
    the send event fires at its tick, a retry comes while the queue waits for
    one, a response comes for a request in service, and a request is refused
    while the cache is blocked. *)
Definition has_payload (p : Packet) : bool := match data p with NoData => false | _ => true end.
Definition bguard (now : Tick) (op : bop) (b : Bufs) : bool :=
  match op with
  | BMiss pkt time =>
      negb (bool_decide (freeList (mshrQueue b) = [])) && (time <? MaxTick)
  | BWrite pkt time =>
      negb (bool_decide (freeList (writeBuffer b) = [])) && (time <? MaxTick) &&
      has_payload pkt && isWrite (cmd pkt) && negb (isRead (cmd pkt))
  | BCoalesce _ i pkt =>
      bool_decide (i ∈ allocatedList (mshrQueue b)) && negb (bool_decide (cmd pkt = HardPFReq)) &&
      negb (needsExclusive (cmd pkt)) && negb (m_isUncacheable (reg (mshrQueue b) i))
  | BSend _ _ => bool_decide (sendEvent (sendq b) = Some now)
  | BRetry _ _ => waitingOnRetry (sendq b)
  | BRespond r =>
      (0 <=? r.1) && (r.1 <=? 1) && bool_decide (r.2 ∈ allocatedList (queue_of b r.1)) &&
      inService (the_mshr b r)
  | BRefuse => negb (blocked b =? 0)
  end.

Definition bapply (now : Tick) (op : bop) (b : Bufs) : res Bufs :=
  match op with
  | BMiss pkt time => rb ← allocateMissBuffer now pkt time b; Ok rb.2
  | BWrite pkt time => rb ← allocateWriteBuffer now pkt time b; Ok rb.2
  | BCoalesce cpu i pkt => coalesce now cpu i pkt b
  | BSend id accepted => pb ← cache_processSendEvent now id accepted b; Ok pb.2
  | BRetry id accepted => pb ← cache_recvReqRetry now id accepted b; Ok pb.2
  | BRespond r => respond_mshr now r b
  | BRefuse => Ok (b <| cacheMustSendRetry := true |>)
  end.

(** One step of a run; time does not pass the tick of a scheduled send event. *)
Definition due (now : Tick) (b : Bufs) : bool :=
  match sendEvent (sendq b) with Some w => now <=? w | None => true end.
Definition bstep (s : Tick * Bufs) (x : Tick * bop) : res (Tick * Bufs) :=
  if (s.1 <=? x.1) && (x.1 <? MaxTick) && due x.1 s.2 && bguard x.1 x.2 s.2
  then b ← bapply x.1 x.2 s.2; Ok (x.1, b)
  else Ok s.

Ltac split_guard :=
  repeat match goal with
  | H : _ && _ = true |- _ => apply andb_true_iff in H as [H ?]
  | H : bool_decide _ = true |- _ => apply bool_decide_eq_true in H
  | H : negb _ = true |- _ => apply negb_true_iff in H
  | H : bool_decide _ = false |- _ => apply bool_decide_eq_false in H
  | H : (_ <? _) = true |- _ => apply Z.ltb_lt in H
  | H : (_ <=? _) = true |- _ => apply Z.leb_le in H
  end.

Lemma bapply_ok now op b :
  binv now b → now < MaxTick → bguard now op b = true → ∃ b', bapply now op b = Ok b' ∧ binv now b'.
Proof.
  intros Hb Ht Hg. destruct op as [pkt time|pkt time|cpu i pkt|id acc|id acc|r|]; cbn [bapply bguard] in *;
    split_guard.
  - unfold allocateMissBuffer. set (b1 := (bstat _ b) <| bstats ::= _ |>).
    assert (binv now b1) by by apply (binv_order now b).
    destruct (allocateBuffer_ok now 0 (blockAlign (addr pkt)) dramCache_block_size pkt time b1)
      as (r & b' & -> & ?); [done|done|apply blockAlign_idem|done|done|done|]. cbn. eauto.
  - unfold allocateWriteBuffer. set (b1 := (bstat _ b) <| bstats ::= _ |>).
    assert (binv now b1) by by apply (binv_order now b).
    rewrite assert_bind by (by apply andb_true_iff; split; [|apply negb_true_iff]).
    destruct (allocateBuffer_ok now 1 (blockAlign (addr pkt)) dramCache_block_size pkt time b1)
      as (r & b' & -> & ?); [done|done|apply blockAlign_idem|done|done| |cbn; eauto].
    intros _ E. unfold has_payload in *. by rewrite E in *.
  - by apply coalesce_ok.
  - unfold cache_processSendEvent. destruct Hb as [I0 I1 Ig Is]. unfold send_at in Is.
    destruct (waitingOnRetry (sendq b)) eqn:Ew; [naive_solver|]. rewrite Hg in Is.
    set (b1 := b <| sendq ::= _ |>). rewrite assert_bind by (cbn; by rewrite Ew).
    destruct (send_now_ok now id acc b1) as (p & b' & -> & ?); [done|done|destruct Ig; by split|done..| | |].
    { change (nextMSHRReadyTime b ≤ now). lia. } { done. } cbn. eauto.
  - unfold cache_recvReqRetry. destruct Hb as [I0 I1 Ig Is]. unfold send_at in Is. rewrite Hg in *.
    rewrite assert_bind by done. set (b1 := b <| sendq ::= _ |>).
    destruct (send_now_ok now id acc b1) as (p & b' & -> & ?); [done|done|destruct Ig; by split|done|apply Is| | |].
    { apply Is. } { done. } cbn. eauto.
  - by apply respond_ok.
  - destruct Hb as [I0 I1 [G1 G2 G3] Is]. eexists. split; [done|]. split; [done|done| |done].
    split; [done|done|]. intros _. rewrite G1, mask_zero in Hg. change (any (causes b) = true).
    by destruct (any (causes b)).
Qed.

Lemma bstep_ok s x : binv s.1 s.2 → ∃ s', bstep s x = Ok s' ∧ binv s'.1 s'.2.
Proof.
  intros Hb. unfold bstep. destruct ((_ && _) && _) eqn:E; [|eauto].
  apply andb_true_iff in E as [E Hg]. apply andb_true_iff in E as [E Hd].
  apply andb_true_iff in E as [Hle Hlt]. apply Z.leb_le in Hle. apply Z.ltb_lt in Hlt.
  destruct (bapply_ok x.1 x.2 s.2) as (b' & -> & ?); [|done|done|cbn; eauto].
  apply (later s.1); [done| |done]. intros w Ew. unfold due in Hd. rewrite Ew in Hd.
  by apply Z.leb_le.
Qed.

Lemma run_binv s l : binv s.1 s.2 → ∃ s', foldM bstep s l = Ok s' ∧ binv s'.1 s'.2.
Proof.
  revert s. induction l as [|x l IH]; intros s Hb; cbn; [eauto|].
  destruct (bstep_ok s x Hb) as (s1 & -> & H1). cbn. auto.
Qed.

Lemma new_bufs_binv `{D : DRAMParams} mshrs wbs :
  1 ≤ mshrs → 1 ≤ wbs → 1 ≤ readBufferSize → 0 ≤ writeBufferSize →
  binv 0 (new_bufs mshrs wbs).
Proof.
  intros Hm Hw Hr Hwb. assert (Hq : ∀ n r idx, 1 ≤ n → 1 ≤ r → qinv idx (new_queue n r 0 idx)).
  { intros n r idx Hn H. split; [apply new_queue_ok; lia|constructor|done|done| |].
    - apply Forall_replicate. done.
    - by intros i ?%not_elem_of_nil. }
  split; [apply Hq; done|apply Hq; lia| |done].
  assert (Hf : ∀ n r idx, 1 ≤ n → isFull (new_queue n r 0 idx) = false).
  { intros. unfold isFull. cbn. apply Z.ltb_ge. lia. }
  unfold causes. cbn. rewrite !Hf by done. by split.
Qed.

(** ** The register without targets

    The pointer [noTargetMSHR] is to an allocated register that has used its targets. *)
Definition out_of_targets (q : MSHRQueue) (i : nat) : Prop :=
  i ∈ allocatedList q ∧ numTarget ≤ getNumTargets (reg q i).
Definition tinv (b : Bufs) : Prop :=
  ∀ r, noTargetMSHR b = Some r → r.1 = 0 ∧ out_of_targets (mshrQueue b) r.2.
Definition keeps (q q' : MSHRQueue) : Prop :=
  ∀ j, j ∈ allocatedList q → 2 ≤ getNumTargets (reg q j) →
    j ∈ allocatedList q' ∧ getNumTargets (reg q j) ≤ getNumTargets (reg q' j).
Definition same_miss (b b' : Bufs) : Prop :=
  mshrQueue b' = mshrQueue b ∧ noTargetMSHR b' = noTargetMSHR b.

Lemma tinv_keeps b b' : 2 ≤ numTarget → noTargetMSHR b' = noTargetMSHR b →
  keeps (mshrQueue b) (mshrQueue b') → tinv b → tinv b'.
Proof.
  intros Hn E Hk Ht r Hr. rewrite E in Hr. destruct (Ht r Hr) as [? [Hi Hg]].
  destruct (Hk r.2 Hi ltac:(lia)) as [? ?]. split; [done|]. split; [done|lia].
Qed.
Lemma keeps_refl q : keeps q q.
Proof. intros j Hj _. split; [done|lia]. Qed.

Lemma setBlocked_bufs now c b b' : setBlocked now c b = Ok b' → same_bufs b b'.
Proof. unfold setBlocked, port_setBlocked. case_match; intros; res_inv; done. Qed.
Lemma clearBlocked_bufs now c b b' : clearBlocked now c b = Ok b' → same_bufs b b'.
Proof.
  unfold clearBlocked, port_clearBlocked. cbn. case_match; intros; res_inv; [|done].
  case_match; cbn in *; res_inv; done.
Qed.
Lemma setBlocked_same now c b b' : setBlocked now c b = Ok b' → same_miss b b'.
Proof. by intros (? & _ & ? & _)%setBlocked_bufs. Qed.
Lemma clearBlocked_same now c b b' : clearBlocked now c b = Ok b' → same_miss b b'.
Proof. by intros (? & _ & ? & _)%clearBlocked_bufs. Qed.
Lemma sched_same now t b b' : schedMemSideSendEvent now t b = Ok b' → same_miss b b'.
Proof. unfold schedMemSideSendEvent. intros. res_inv. done. Qed.

Lemma allocate_keeps now a sz pkt t o q i q' :
  queue_ok q → freeList q ≠ [] → allocate now a sz pkt t o q = Ok (i, q') → keeps q q'.
Proof.
  intros Hq Hf E. destruct (allocate_ok now a sz pkt t o q Hq Hf) as (i' & q1 & E' & _ & _ & Hni & Hal & _ & Hoth & _).
  rewrite E' in E. injection E as -> ->. intros j Hj _. rewrite Hal, elem_of_app, Hoth by congruence. split; [by left|lia].
Qed.

Lemma markInService_keeps i d q q' :
  queue_ok q → i ∈ readyList q → MshrQueue.markInService i d q = Ok q' → keeps q q'.
Proof.
  intros Hq Hi E. destruct (markInService_ok i d q Hq Hi) as (q1 & E' & _ & _ & Hf & Hn & _ & Hoth).
  pose proof E as E2. rewrite E' in E2. injection E2 as ->. intros j Hj Hg.
  destruct (decide (j = i)) as [->|Hne].
  - assert (isForwardNoResponse (reg q i) = false) as Ef.
    { unfold isForwardNoResponse. by rewrite (proj2 (Z.eqb_neq _ _)) by lia. }
    destruct (Hf Ef) as [-> _]. split; [done|]. unfold MshrQueue.markInService, m_markInService in E. rewrite Ef in E.
    apply bind_ok in E as ([b m] & (_ & _ & [= <- Em])%bind_ok & E).
    assert (registers q' = <[i := m]> (registers q)) as Er by by injection E as <-.
    destruct (queue_ok_nodup q Hq) as (_ & _ & _ & Hall).
    assert (reg q' i = m) as ->; [|subst m; unfold getNumTargets; cbn; lia].
    unfold reg. rewrite Er, list_lookup_total_insert_eq; [done|]. apply Hall, elem_of_app. by right.
  - rewrite Hoth by done. split; [|lia]. destruct (isForwardNoResponse (reg q i)); [|by destruct Hf as [-> _]].
    rewrite Hn by done. by apply elem_of_erase.
Qed.

Lemma allocateBuffer_tinv now qi a sz pkt time b r b' :
  2 ≤ numTarget → 0 ≤ qi ≤ 1 → binv now b → freeList (queue_of b qi) ≠ [] → tinv b →
  allocateBufferInternal now qi a sz pkt time true b = Ok (r, b') → tinv b'.
Proof.
  intros Hn Hqi Hb Hf Ht H. unfold allocateBufferInternal in H. apply bind_ok in H as (_ & _ & H).
  apply bind_ok in H as ([i q] & Ha & H). apply bind_ok in H as (b1 & H1 & H).
  apply bind_ok in H as (b2 & [E2 E2']%sched_same & [= _ <-]).
  apply allocate_keeps in Ha; [|apply (binv_queue now b qi Hqi Hb)|done].
  assert (same_miss (upd_queue qi q (b <| order ::= λ o, u64 (o + 1) |>)) b1) as [E1 E1']
    by (destruct (isFull q); [by apply setBlocked_same in H1|by injection H1 as <-]).
  apply (tinv_keeps b); [done| | |done]; rewrite ?E2, ?E2', ?E1, ?E1'; unfold upd_queue, queue_of in *;
    destruct (qi =? 0); done || apply keeps_refl.
Qed.

Lemma coalesce_tinv now cpu i pkt b b' :
  2 ≤ numTarget → binv now b → i ∈ allocatedList (mshrQueue b) → cmd pkt ≠ HardPFReq →
  m_isUncacheable (reg (mshrQueue b) i) = false → tinv b → coalesce now cpu i pkt b = Ok b' → tinv b'.
Proof.
  intros Hn Hb Hi Hc Hu Ht. unfold coalesce. set (b1 := if cpu then _ else _).
  assert (E1 : mshrQueue b1 = mshrQueue b ∧ noTargetMSHR b1 = noTargetMSHR b) by (unfold b1; by destruct cpu).
  clearbody b1. destruct E1 as [E1 E2]. change (the_mshr b1 (0, i)) with (reg (mshrQueue b1) i). rewrite E1.
  pose proof (bi_miss _ _ Hb) as Hq.
  destruct (allocateTarget_ok now i pkt (headerDelay pkt) (order b1) (mshrQueue b)) as (m & -> & _ & _ & Hg & _);
    [apply Hq|done..|]. cbn [mbind res_bind].
  set (b2 := upd_mshr _ _ _). assert (mshrQueue b2 = upd_reg i m (mshrQueue b) ∧ noTargetMSHR b2 = noTargetMSHR b) as [F1 F2]
    by (split; [unfold b2, upd_mshr, upd_queue, queue_of; cbn; by rewrite E1|exact E2]).
  clearbody b2. destruct (queue_ok_nodup _ (qi_ok _ _ Hq)) as (_ & _ & _ & Hall).
  assert (∀ j, reg (mshrQueue b2) j = if decide (i = j) then m else reg (mshrQueue b) j) as Er.
  { intros j. rewrite F1, reg_upd by (apply Hall, elem_of_app; by right). repeat case_decide; congruence. }
  assert (allocatedList (mshrQueue b2) = allocatedList (mshrQueue b)) as Ea by by rewrite F1.
  destruct (Z.eqb_spec (getNumTargets m) numTarget) as [E|].
  - intros [E3 E4]%setBlocked_same r. rewrite E3, E4. change (Some (0, i) = Some r → r.1 = 0 ∧ out_of_targets (mshrQueue b2) r.2).
    intros [= <-]. split; [done|]. split; cbn [snd]; [by rewrite Ea|]. rewrite Er, decide_True by done. lia.
  - intros [= <-]. apply (tinv_keeps b); [done..| |done]. intros j Hj _. rewrite Ea, Er. split; [done|].
    case_decide; [subst j; lia|lia].
Qed.

Lemma respond_tinv now r b b' :
  2 ≤ numTarget → binv now b → 0 ≤ r.1 ≤ 1 → r.2 ∈ allocatedList (queue_of b r.1) →
  inService (the_mshr b r) = true → tinv b → respond_mshr now r b = Ok b' → tinv b'.
Proof.
  intros Hn Hb Hr Hi Hsv Ht. unfold respond_mshr.
  destruct (clearNoTarget_ok now r b Hb) as (b1 & E & Hb1 & E1 & E2).
  assert (noTargetMSHR b1 = if bool_decide (noTargetMSHR b = Some r) then None else noTargetMSHR b) as En.
  { unfold clearNoTarget in E. destruct (bool_decide _); [|by injection E as <-]. by apply bind_ok in E as (? & _ & [= <-]). }
  rewrite E. cbn [mbind res_bind]. clear E. unfold takeTargets, deallocateMSHR, upd_mshr. cbn [snd].
  set (m := (the_mshr b1 r) <| targets ::= _ |>). intros H. apply bind_ok in H as (q & Hd & H).
  set (b2 := upd_queue r.1 _ b1) in *.
  assert (same_miss (upd_queue r.1 q b2) b') as [F1 F2]
    by (case_match; [by apply clearBlocked_same in H|by injection H as <-]).
  intros s Hs. rewrite F2 in Hs. assert (noTargetMSHR b1 = Some s) as Hs1
    by (unfold b2, upd_queue in Hs; by destruct (r.1 =? 0)).
  rewrite En in Hs1. case_bool_decide as Hne; [done|]. destruct (Ht s Hs1) as [Hs0 [Hsi Hsg]].
  split; [done|]. rewrite F1. destruct (Z.eqb_spec r.1 0) as [Er|Er].
  2:{ unfold b2, upd_queue. rewrite (proj2 (Z.eqb_neq _ _) Er). cbn. by rewrite E1. }
  assert (queue_of b2 r.1 = upd_reg r.2 m (mshrQueue b)) as Eb2
    by (unfold b2, queue_of, upd_queue; rewrite Er; cbn; by rewrite E1).
  assert (s.2 ≠ r.2) as Hsr by (intros Es; apply Hne; rewrite Hs1; destruct s, r; cbn in *; by subst).
  destruct (deallocate_qinv r.2 m 0 (mshrQueue b)) as (q1 & Eq & _ & _ & _ & Hoth);
    [apply Hb|by rewrite Er in Hi|unfold the_mshr, queue_of in Hsv; by rewrite Er in Hsv
    |unfold m, the_mshr, queue_of; rewrite Er; cbn; by rewrite E1|].
  rewrite Eb2, Eq in Hd. injection Hd as <-. unfold upd_queue. rewrite Er. cbn.
  destruct (Hoth s.2 Hsr Hsi) as [? Eo]. split; [done|]. by rewrite Eo.
Qed.

Lemma send_now_tinv now id acc b p b' :
  2 ≤ numTarget → qinv 0 (mshrQueue b) → tinv b →
  cache_sendDeferredPacket now id acc b = Ok (p, b') → tinv b'.
Proof.
  intros Hn I0 Ht H. unfold cache_sendDeferredPacket in H. apply bind_ok in H as (_ & _ & H).
  apply bind_ok in H as ([[pk r]|] & Ho & H); [|by injection H as _ <-].
  assert (getNextMSHR now b = Some r) as Hr.
  { unfold getTimingPacket in Ho. destruct (getNextMSHR now b) as [r'|]; [|done].
    apply bind_ok in Ho as (_ & _ & Ho). apply bind_ok in Ho as (? & _ & Ho).
    by apply bind_ok in Ho as (? & _ & [= _ ->]). }
  destruct (getNextMSHR_ready now b r Hr) as [Hq Hi].
  destruct acc; [|by injection H as _ <-]. apply bind_ok in H as (b1 & Hm & H).
  apply bind_ok in H as (b2 & [E2 E2']%sched_same & [= _ <-]). unfold markInService in Hm.
  apply bind_ok in Hm as (q & Hm & H1). cbn [negb] in *. set (b0 := b <| sendq ::= _ |>) in *.
  assert (same_miss (upd_queue r.1 q b0) b1) as [E1 E1']
    by (case_match; [by apply clearBlocked_same in H1|by injection H1 as <-]).
  apply (tinv_keeps b); [done| | |done]; rewrite ?E2, ?E2', ?E1, ?E1'; unfold upd_queue.
  - by destruct (r.1 =? 0).
  - change (queue_of b0 r.1) with (queue_of b r.1) in Hm. unfold queue_of in *.
    destruct (r.1 =? 0); [|apply keeps_refl]. eapply markInService_keeps; [apply I0|done|exact Hm].
Qed.

Lemma bapply_tinv now op b b' :
  2 ≤ numTarget → binv now b → bguard now op b = true → tinv b → bapply now op b = Ok b' → tinv b'.
Proof.
  intros Hn Hb Hg Ht H. destruct op as [pkt time|pkt time|cpu i pkt|id acc|id acc|r|]; cbn [bapply bguard] in *;
    split_guard.
  - apply bind_ok in H as ([r b1] & H & [= <-]). unfold allocateMissBuffer in H.
    eapply allocateBuffer_tinv, H; [done|done|by apply (binv_order now b)|done|done].
  - apply bind_ok in H as ([r b1] & H & [= <-]). unfold allocateWriteBuffer in H.
    apply bind_ok in H as (_ & _ & H). eapply allocateBuffer_tinv, H; [done|done|by apply (binv_order now b)|done|done].
  - by eapply coalesce_tinv.
  - apply bind_ok in H as ([p b1] & H & [= <-]). unfold cache_processSendEvent in H.
    apply bind_ok in H as (_ & _ & H). eapply send_now_tinv, H; [done|apply Hb|exact Ht].
  - apply bind_ok in H as ([p b1] & H & [= <-]). unfold cache_recvReqRetry in H.
    apply bind_ok in H as (_ & _ & H). eapply send_now_tinv, H; [done|apply Hb|exact Ht].
  - by eapply respond_tinv.
  - by injection H as <-.
Qed.

Lemma run_tinv l : 2 ≤ numTarget → ∀ s s', binv s.1 s.2 → tinv s.2 → foldM bstep s l = Ok s' → tinv s'.2.
Proof.
  intros Hn. induction l as [|x l IH]; intros s s' Hb Ht H; cbn in H; [by injection H as <-|].
  destruct (bstep_ok s x Hb) as (s1 & E & Hb1). rewrite E in H. apply (IH s1); [done| |done].
  unfold bstep in E. destruct ((_ && _) && _) eqn:Eg; [|by injection E as <-].
  apply andb_true_iff in Eg as [Eg Hg]. apply andb_true_iff in Eg as [Eg Hd].
  apply andb_true_iff in Eg as [Hle _]. apply bind_ok in E as (b' & Eb & [= <-]).
  eapply bapply_tinv, Eb; [done| |done|done]. apply (later s.1); [by apply Z.leb_le| |done].
  intros w Ew. unfold due in Hd. rewrite Ew in Hd. by apply Z.leb_le.
Qed.


(** C35: no request waiting in the buffers is forgotten.  After every sequence of
    such operations a queue that waits for a retry has a request that is ready,
    and otherwise, if any request is pending, the send event is scheduled, not
    before the earliest request is ready and at most one tick after that or after
    the present. *)
Theorem send_never_lost `{D : DRAMParams} mshrs wbs l :
  1 ≤ mshrs → 1 ≤ wbs → 1 ≤ readBufferSize → 0 ≤ writeBufferSize →
  ∃ now b, foldM bstep (0, new_bufs mshrs wbs) l = Ok (now, b) ∧
    if waitingOnRetry (sendq b) then nextMSHRReadyTime b ≤ now
    else ∀ qi i, 0 ≤ qi ≤ 1 → i ∈ readyList (queue_of b qi) →
      ∃ w, sendEvent (sendq b) = Some w ∧ now ≤ w ∧
        nextMSHRReadyTime b ≤ w ≤ Z.max (nextMSHRReadyTime b) (now + 1).
Proof.
  intros Hm Hw Hr Hwb.
  destruct (run_binv (0, new_bufs mshrs wbs) l) as ([now b] & E & Hb); [by apply new_bufs_binv|].
  cbn [fst snd] in *. exists now, b. split; [done|]. pose proof (bi_send _ _ Hb) as Hs. unfold send_at in Hs.
  destruct (waitingOnRetry (sendq b)); [apply Hs|]. intros qi i Hqi Hi.
  destruct (sendEvent (sendq b)) as [w|]; [naive_solver lia|]. exfalso.
  pose proof (binv_queue _ _ _ Hqi Hb) as Hq. destruct (qinv_max _ _ Hq) as [M Hmx].
  destruct (qi_send _ _ Hq i Hi) as [Hlt _].
  assert (nq (queue_of b qi) ≤ m_readyTime (reg (queue_of b qi) i)).
  { eapply nq_spec; [apply Hq|exact M|done|lia|done]. }
  rewrite (next_split b qi Hqi) in Hs. lia.
Qed.

(** ** A wake-up that is lost *)

(** The operations that allocate no register. *)
Definition no_alloc (op : bop) : bool := match op with BMiss _ _ | BWrite _ _ => false | _ => true end.

(** No event is scheduled, no retry is awaited, and these requests are pending. *)
Definition asleep (pending : list nat * list nat) (b : Bufs) : Prop :=
  sendEvent (sendq b) = None ∧ waitingOnRetry (sendq b) = false ∧
  (readyList (mshrQueue b), readyList (writeBuffer b)) = pending.

Lemma asleep_same l b b' : sendq b' = sendq b → readyList (mshrQueue b') = readyList (mshrQueue b) →
  readyList (writeBuffer b') = readyList (writeBuffer b) → asleep l b → asleep l b'.
Proof. unfold asleep. by intros -> -> ->. Qed.
Lemma asleep_bufs l b b' : same_bufs b b' → asleep l b → asleep l b'.
Proof. intros (E1 & E2 & _ & E4 & _). apply asleep_same; by rewrite ?E1, ?E2. Qed.
Lemma asleep_queue l qi q b : readyList q = readyList (queue_of b qi) → asleep l b → asleep l (upd_queue qi q b).
Proof. unfold upd_queue, queue_of. intros E. destruct (qi =? 0); by apply asleep_same. Qed.

Lemma deallocate_ready i q q' : deallocate i q = Ok q' → inService (reg q i) = true → readyList q' = readyList q.
Proof.
  unfold deallocate. intros (m & _ & [= <-])%bind_ok Hs. change (inService (reg _ i)) with (inService (reg q i)).
  rewrite Hs. by destruct (_ && _).
Qed.

Lemma asleep_op l now op b b' :
  asleep l b → no_alloc op = true → bguard now op b = true → bapply now op b = Ok b' → asleep l b'.
Proof.
  intros Ha Hn Hg H. destruct op as [| |cpu i pkt|id acc|id acc|r|]; try done; cbn [bapply bguard] in *.
  - unfold coalesce in H. apply bind_ok in H as (m & _ & H).
    set (b1 := upd_mshr _ m _) in H. assert (asleep l b1) as Hb1 by (unfold b1; by destruct cpu).
    clearbody b1. case_match; [|by injection H as <-]. apply setBlocked_bufs, (asleep_bufs l) in H; [exact H|exact Hb1].
  - apply bool_decide_eq_true in Hg. destruct Ha as [Ha _]. congruence.
  - destruct Ha as (_ & Ha & _). congruence.
  - apply andb_true_iff in Hg as [_ Hsv]. unfold respond_mshr in H. apply bind_ok in H as (b1 & H1 & H).
    assert (asleep l b1 ∧ mshrQueue b1 = mshrQueue b ∧ writeBuffer b1 = writeBuffer b) as (Hb1 & E1 & E2).
    { unfold clearNoTarget in H1. destruct (bool_decide _); [|injection H1 as <-; done].
      apply bind_ok in H1 as (b2 & Hb2%clearBlocked_bufs & [= <-]).
      split; [by apply (asleep_bufs l) in Hb2|]. by destruct Hb2 as (? & ? & _). }
    assert (the_mshr b1 r = the_mshr b r) as Em by (unfold the_mshr, queue_of; by rewrite E1, E2).
    unfold deallocateMSHR, takeTargets in H. cbn [snd] in H. rewrite Em in H.
    set (m := (the_mshr b r) <| targets ::= _ |>) in H. unfold upd_mshr in H.
    set (q1 := upd_reg r.2 m (queue_of b1 r.1)) in H. apply bind_ok in H as (q & Hd & H).
    assert (queue_of (upd_queue r.1 q1 b1) r.1 = q1) as Eq by (unfold queue_of, upd_queue; by destruct (r.1 =? 0)).
    rewrite Eq in Hd. apply deallocate_ready in Hd.
    2:{ unfold q1, reg, upd_reg. cbn. rewrite list_lookup_total_alt, list_lookup_insert.
        case_decide; [exact Hsv|]. rewrite <-list_lookup_total_alt. fold (reg (queue_of b1 r.1) r.2).
        change (inService (the_mshr b1 r) = true). by rewrite Em. }
    assert (asleep l (upd_queue r.1 q (upd_queue r.1 q1 b1))) as Hb2.
    { apply asleep_queue; [by rewrite Eq|]. by apply asleep_queue. }
    case_match; [|by injection H as <-]. apply clearBlocked_bufs, (asleep_bufs l) in H; [exact H|exact Hb2].
  - by injection H as <-.
Qed.

Lemma asleep_run l ops : Forall (λ x, no_alloc x.2 = true) ops →
  ∀ s s', asleep l s.2 → foldM bstep s ops = Ok s' → asleep l s'.2.
Proof.
  induction 1 as [|x ops Hx Hops IH]; intros s s' Ha H; cbn in H; [by injection H as <-|].
  apply bind_ok in H as (s1 & H1 & H). apply (IH s1); [|done]. unfold bstep in H1.
  destruct ((_ && _) && _) eqn:Eg; [|by injection H1 as <-]. apply andb_true_iff in Eg as [_ Hg].
  apply bind_ok in H1 as (b & Hb & [= <-]). by eapply asleep_op.
Qed.

(** C36: a correct prediction that is cancelled can leave requests behind.  The queue
    waits for the retry of a refused request, with no event scheduled, when register
    [r] is removed because the cache access it anticipated was a hit.  If the retry
    comes before any of the requests that are left is ready, it sends nothing and
    schedules nothing; and in every sequence of operations that follows, as long as no
    new miss or write-back is allocated, the same requests are still pending, with no
    event and no retry to come that would send them. *)
Theorem cancel_loses_wakeup now now' id acc r full b b1 :
  waitingOnRetry (sendq b) = true → sendEvent (sendq b) = None →
  deallocateMSHR now r full (takeTargets r b).2 = Ok b1 → now' < nextMSHRReadyTime b1 →
  ∃ b2, cache_recvReqRetry now' id acc b1 = Ok (None, b2) ∧
    ∀ ops s, Forall (λ x, no_alloc x.2 = true) ops → foldM bstep (now', b2) ops = Ok s →
      sendEvent (sendq s.2) = None ∧ waitingOnRetry (sendq s.2) = false ∧
      (readyList (mshrQueue s.2), readyList (writeBuffer s.2)) =
      (readyList (mshrQueue b1), readyList (writeBuffer b1)).
Proof.
  intros Hw He Hd Hn. assert (sendq b1 = sendq b) as Es.
  { unfold deallocateMSHR, takeTargets, upd_mshr in Hd. apply bind_ok in Hd as (q & _ & Hd).
    cbn [snd] in Hd. set (b0 := upd_queue r.1 q _) in Hd.
    assert (sendq b0 = sendq b) by (unfold b0, upd_queue; by destruct (r.1 =? 0)). clearbody b0.
    case_match; [|by injection Hd as <-]. apply clearBlocked_bufs in Hd as (_ & _ & _ & -> & _). done. }
  assert (∀ q, now' < nq q → MshrQueue.getNextMSHR now' q = None) as Hnone.
  { intros q. unfold nq, MshrQueue.getNextMSHR. destruct (readyList q) as [|i l]; [done|]. intros ?.
    by rewrite (proj2 (Z.ltb_lt _ _)). }
  unfold nextMSHRReadyTime in Hn. unfold cache_recvReqRetry. rewrite Es, Hw, assert_bind by done.
  set (b2 := b1 <| sendq ::= _ |>). exists b2. split.
  - unfold cache_sendDeferredPacket. rewrite assert_bind by done. unfold getTimingPacket, getNextMSHR.
    change (mshrQueue b2) with (mshrQueue b1). change (writeBuffer b2) with (writeBuffer b1).
    rewrite !Hnone by lia. done.
  - intros ops s Hops Hrun. eapply asleep_run; [exact Hops| |exact Hrun].
    split_and!; [|done|done]. change (sendEvent (sendq b1) = None). congruence.
Qed.
End run.

(** ** Examples *)

Definition ex_clock : Clocked := {| clockPeriod := 1000 |}.
Definition ex_bufs : Bufs := @new_bufs HMC_2500_x32_Cache 2 2.
Definition ex_step : Tick * Bufs → Tick * bop → res (Tick * Bufs) := @bstep HMC_cache ex_clock.

(** Two misses fill the MSHR queue; a request is refused, the first miss is sent
    and answered. *)
Definition ex_ops : list (Tick * bop) :=
  [(10, BMiss (read_pkt 1 256 0) 15); (11, BMiss (read_pkt 2 512 0) 16); (12, BRefuse);
   (15, BSend 3 true); (16, BSend 4 true); (40, BRespond (0, 0%nat))].


Lemma send_never_lost_witness :
  (∃ now b, foldM ex_step (0, ex_bufs) ex_ops = Ok (now, b) ∧
    if waitingOnRetry (sendq b) then nextMSHRReadyTime b ≤ now
    else ∀ qi i, 0 ≤ qi ≤ 1 → i ∈ readyList (queue_of b qi) →
      ∃ w, sendEvent (sendq b) = Some w ∧ now ≤ w ∧
        nextMSHRReadyTime b ≤ w ≤ Z.max (nextMSHRReadyTime b) (now + 1)) ∧
  (s ← foldM ex_step (0, ex_bufs) (take 4 ex_ops);
   Ok (readyList (mshrQueue s.2), sendEvent (sendq s.2))) = Ok ([1%nat], Some 16).
Proof.
  split; [|vm_compute; reflexivity].
  apply (@send_never_lost HMC_cache ex_clock HMC_2500_x32_Cache 2 2 ex_ops); cbn; lia.
Defined.

(** Miss A is offered and refused; while the queue waits for the retry, miss B is
    allocated for the next tick, and A is cancelled. *)
Definition ex_refused : Bufs :=
  match foldM ex_step (0, ex_bufs)
    [(10, BMiss (read_pkt 1 256 0) 15); (15, BSend 3 false); (100, BMiss (read_pkt 2 512 0) 101)] with
  | Ok s => s.2 | Fault _ => ex_bufs end.
Definition ex_cancelled : Bufs :=
  match @deallocateMSHR ex_clock sends_later 100 (0, 0%nat) (isFull (mshrQueue ex_refused)) (takeTargets (0, 0%nat) ex_refused).2 with
  | Ok b => b | Fault _ => ex_bufs end.

Lemma cancel_loses_wakeup_witness :
  ∃ b2, @cache_recvReqRetry HMC_cache ex_clock sends_later 100 4 true ex_cancelled = Ok (None, b2) ∧
    ∀ s, ex_step (100, b2) (1000, BRefuse) = Ok s →
      sendEvent (sendq s.2) = None ∧ waitingOnRetry (sendq s.2) = false ∧
      (readyList (mshrQueue s.2), readyList (writeBuffer s.2)) = ([1%nat], []).
Proof.
  destruct (@cancel_loses_wakeup HMC_cache ex_clock 100 100 4 true (0, 0%nat) (isFull (mshrQueue ex_refused)) ex_refused ex_cancelled)
    as (b2 & E & H); [vm_compute; reflexivity..|].
  exists b2. split; [exact E|]. intros s Hs. apply (H [(1000, BRefuse)] s).
  - repeat constructor.
  - cbn [foldM]. change (bstep (100, b2) (1000, BRefuse)) with (ex_step (100, b2) (1000, BRefuse)). rewrite Hs. reflexivity.
Defined.

(** ** A retry answered from within the call *)

(** A requester that sends its next request from within the call of
    [port.sendRetryReq] can leave the cache blocked for a reason that it no longer
    records, and be forgotten.  When the last reason for blocking is the register
    [noTargetMSHR], its response unblocks the cache and calls the requester; whatever
    the requester did in the call to the mask and the port is kept, but afterwards the
    pointer is null and no retry is owed.  So a request of the call that takes the
    last target of another register leaves bit 2 set with no register to clear it, and
    one that is refused in the call gets no retry. *)
Theorem retry_from_within `{C : Clocked} `{Q : Requester} now r b b1 :
  noTargetMSHR b = Some r → blocked b = 4 → port_blocked b = true → cacheMustSendRetry b = true →
  recvReqRetry now (b <| blocked := 0 |>
    <| bstats ::= stat_add "blocked_cycles" Blocked_NoTargets (curCycle now - blockedCycle b) |>
    <| port_blocked := false |> <| retries ::= Z.succ |>) = Ok b1 →
  ∃ b', clearNoTarget now r b = Ok b' ∧ noTargetMSHR b' = None ∧ cacheMustSendRetry b' = false ∧
    blocked b' = blocked b1 ∧ port_blocked b' = port_blocked b1.
Proof.
  intros Hr Hb Hp Hc Hq. unfold clearNoTarget. rewrite bool_decide_eq_true_2 by done.
  unfold clearBlocked, port_clearBlocked. change (u8 (Z.shiftl 1 Blocked_NoTargets)) with 4.
  cbn. rewrite Hb. cbn. rewrite Hp. cbn. cbn in Hq. rewrite Hc in Hq |- *. rewrite Hq. cbn. by eexists.
Qed.

(** Two misses, the first of which takes all its sixteen targets; the requester is
    refused, and then answers the retry with the last target of the second. *)
Definition ex_joins (i : nat) (n : nat) : list (Tick * bop) := replicate n (12, BCoalesce false i (read_pkt 5 512 0)).
Definition ex_no_target : Bufs :=
  match foldM ex_step (0, @new_bufs HMC_2500_x32_Cache 8 8)
    ([(10, BMiss (read_pkt 1 256 0) 15); (11, BMiss (read_pkt 2 512 0) 16)] ++ ex_joins 1 14 ++ ex_joins 0 15 ++
     [(12, BRefuse); (15, BSend 3 true)]) with
  | Ok s => s.2 | Fault _ => ex_bufs end.
Definition ex_requester : Requester :=
  {| recvReqRetry now b := @coalesce HMC_cache ex_clock now false 1 (read_pkt 5 512 0) b |}.

Definition ex_called : Bufs :=
  match @recvReqRetry ex_requester 40 (ex_no_target <| blocked := 0 |>
    <| bstats ::= stat_add "blocked_cycles" Blocked_NoTargets (@curCycle ex_clock 40 - blockedCycle ex_no_target) |>
    <| port_blocked := false |> <| retries ::= Z.succ |>) with
  | Ok b => b | Fault _ => ex_bufs end.

Lemma retry_from_within_witness :
  noTargetMSHR ex_no_target = Some (0, 0%nat) ∧
  ∃ b', @clearNoTarget ex_clock ex_requester 40 (0, 0%nat) ex_no_target = Ok b' ∧ noTargetMSHR b' = None ∧
    cacheMustSendRetry b' = false ∧ blocked b' = 4 ∧ port_blocked b' = true.
Proof.
  split; [vm_compute; reflexivity|].
  destruct (@retry_from_within ex_clock ex_requester 40 (0, 0%nat) ex_no_target ex_called) as (b' & E & E1 & E2 & E3 & E4);
    [vm_compute; reflexivity..|].
  exists b'. rewrite E3, E4. split_and!; [exact E|exact E1|exact E2|vm_compute; reflexivity..].
Defined.
End CacheBuffersProofs.
