(* ===== verification/MissView.v ===== *)
(** * The miss queue as a map

    A queue of miss registers, seen as a finite map from the allocated registers
    to their block, whether the request is on its way, and the identities of the
    waiting packets.  Every operation of the cache on the queue is an update of
    the map. *)

From S2P Require Import Prelude Packet Mshr MshrQueue CacheTags PacketQueue CacheBuffers CacheBuffersProofs.
Import MemCmd Packet Mshr MshrQueue CacheTags PacketQueue CacheBuffers CacheBuffersProofs.

Module MissView.

Record Ent := mkEnt { e_addr : Addr; e_sent : bool; e_ids : list Z }.
#[export] Instance eta_Ent : Eta Ent := λ e, mkEnt (e_addr e) (e_sent e) (e_ids e).

Definition tid (t : Target) : Z := pkt_id (t_pkt t).
Definition ent (m : MSHR) : Ent := mkEnt (blkAddr m) (inService m) (tid <$> tlist (targets m)).
Definition view (q : MSHRQueue) : gmap nat Ent :=
  list_to_map ((λ i, (i, ent (reg q i))) <$> allocatedList q).

(** The packets that enter the queue: plain reads. *)
Definition simple (p : Packet) : Prop :=
  cmd p = ReadReq ∧ isSecure p = false ∧ isUncacheable p = false.

Record reg_ok (m : MSHR) : Prop :=
  { ro_cacheable : m_isUncacheable m = false;
    ro_secure : m_isSecure m = false;
    ro_targets : Forall (λ t, simple (t_pkt t) ∧ addr (t_pkt t) = blkAddr m) (tlist (targets m)) }.
Record miss_ok (q : MSHRQueue) : Prop :=
  { mo_queue : queue_ok q;
    mo_plain : Forall plain (registers q);
    mo_reg : ∀ i, i ∈ allocatedList q → reg_ok (reg q i) }.

Lemma lookup_view q i : queue_ok q →
  view q !! i = if decide (i ∈ allocatedList q) then Some (ent (reg q i)) else None.
Proof.
  intros Hq. unfold view. assert (NoDup (allocatedList q)) as Hn by apply (queue_ok_nodup q Hq).
  case_decide as Hi.
  - apply elem_of_list_to_map_1; [|by apply list_elem_of_fmap; eauto].
    by rewrite <-list_fmap_compose, list_fmap_id.
  - apply not_elem_of_list_to_map_1. by rewrite <-list_fmap_compose, list_fmap_id.
Qed.

Lemma view_Some q i e : queue_ok q →
  view q !! i = Some e ↔ i ∈ allocatedList q ∧ e = ent (reg q i).
Proof. intros Hq. rewrite lookup_view by done. case_decide; naive_solver. Qed.

Lemma view_None q i : queue_ok q → view q !! i = None ↔ i ∉ allocatedList q.
Proof. intros Hq. rewrite lookup_view by done. case_decide; naive_solver. Qed.

(** Registers in bounds. *)
Lemma allocated_lt q i : queue_ok q → i ∈ allocatedList q → (i < length (registers q))%nat.
Proof. intros Hq Hi. apply (queue_ok_nodup q Hq), elem_of_app. by right. Qed.

Lemma reg_insert q q' i m :
  (i < length (registers q))%nat → registers q' = <[i := m]> (registers q) →
  reg q' i = m ∧ ∀ j, j ≠ i → reg q' j = reg q j.
Proof.
  intros Hi E. assert (∀ j, reg q' j = reg (upd_reg i m q) j) as Hr by (intros j; unfold reg; by rewrite E).
  split; [|intros j Hj]; rewrite Hr, reg_upd by done; [by rewrite decide_True|by rewrite decide_False].
Qed.

(** One register changes. *)
Lemma view_upd q q' i :
  queue_ok q → queue_ok q' → allocatedList q' = allocatedList q → i ∈ allocatedList q →
  (∀ j, j ≠ i → reg q' j = reg q j) → view q' = <[i := ent (reg q' i)]> (view q).
Proof.
  intros Hq Hq' Ea Hi Hr. apply map_eq. intros j. rewrite lookup_insert, !lookup_view, Ea by done.
  destruct (decide (i = j)) as [<-|]; [by rewrite decide_True|]. by rewrite Hr.
Qed.

Lemma allocate_registers now a sz pkt t o q i q' :
  allocate now a sz pkt t o q = Ok (i, q') →
  freeList q ≠ [] ∧
  ∃ m, m_allocate now a sz pkt t o (reg q i) = Ok m ∧ registers q' = <[i := m]> (registers q).
Proof.
  unfold allocate. destruct (freeList q) as [|k l]; [done|]. intros H. split; [done|].
  apply bind_ok in H as (_ & _ & H). apply bind_ok in H as (m & Em & H).
  apply bind_ok in H as (q2 & E2 & [= <- <-]). apply addToReadyList_registers in E2.
  exists m. split; [done|]. exact E2.
Qed.

Lemma m_allocate_fields now a sz pkt t o m m' :
  m_allocate now a sz pkt t o m = Ok m' →
  m_isUncacheable m' = isUncacheable pkt ∧ m_isSecure m' = isSecure pkt ∧ blkAddr m' = a.
Proof. destruct m. unfold m_allocate. cbn. intros H. res_inv. done. Qed.

Lemma allocate_view now a sz pkt t o q i q' :
  miss_ok q → simple pkt → addr pkt = a → allocate now a sz pkt t o q = Ok (i, q') →
  miss_ok q' ∧ view q !! i = None ∧ view q' = <[i := mkEnt a false [pkt_id pkt]]> (view q).
Proof.
  intros [Hq Hp Hr] Hs Ea H. destruct (allocate_registers _ _ _ _ _ _ _ _ _ H) as (Hf & m & Em & Er).
  destruct (allocate_ok now a sz pkt t o q Hq Hf)
    as (i' & q1 & E & Hq' & _ & Hi & Eal & _ & Hoth & Hsv & Hb & _ & _ & src & Ht).
  rewrite E in H. injection H as -> ->. apply m_allocate_fields in Em as Hm. destruct Hs as (Hs1 & Hs2 & Hs3).
  assert (Hlt : (i < length (registers q))%nat).
  { apply (allocated_lt q' i) in Hq' as Hl; [|rewrite Eal; set_solver]. by rewrite Er, length_insert in Hl. }
  assert (Hm' : reg q' i = m) by (by destruct (reg_insert q q' i m Hlt Er)).
  split_and!.
  - split; [done| |].
    + rewrite Er. apply Forall_insert; [done|]. eapply m_allocate_plain, Em. by apply plain_reg.
    + rewrite Eal. intros j [Hj| ->%list_elem_of_singleton]%elem_of_app.
      * rewrite Hoth by congruence. by apply Hr.
      * split; [rewrite Hm'; by destruct Hm as (-> & _)|rewrite Hm'; by destruct Hm as (_ & -> & _)|].
        rewrite Ht. constructor; [|done]. cbn. rewrite Hb. done.
  - by apply view_None.
  - apply map_eq. intros j. rewrite lookup_insert, !lookup_view, Eal by done.
    destruct (decide (i = j)) as [Ej|].
    + subst. rewrite decide_True by set_solver. f_equal. unfold ent. by rewrite Hsv, Hb, Ht.
    + rewrite Hoth by done. destruct (decide (j ∈ allocatedList q)).
      * by rewrite decide_True by set_solver.
      * rewrite decide_False; [done|]. set_solver.
Qed.

(** A register is replaced by one with other targets. *)
Lemma upd_view i m q :
  miss_ok q → i ∈ allocatedList q → inService m = inService (reg q i) → plain m → reg_ok m →
  isReset (deferredTargets m) = true → blkAddr m = blkAddr (reg q i) →
  miss_ok (upd_reg i m q) ∧
  view (upd_reg i m q) = <[i := mkEnt (blkAddr (reg q i)) (inService (reg q i)) (tid <$> tlist (targets m))]> (view q).
Proof.
  intros [Hq Hp Hr] Hi Hs Hpm Hrm Hd Hb. pose proof (allocated_lt q i Hq Hi) as Hlt.
  destruct (upd_reg_ok i m q Hq Hi Hs) as [Hq' _]; [done|].
  pose proof (λ j, reg_upd i j m q Hlt) as Hreg. split.
  - split; [done|by apply Forall_insert|]. intros j Hj. rewrite Hreg. case_decide; [done|by apply Hr].
  - erewrite view_upd; [|exact Hq|exact Hq'|done|exact Hi|]; cycle 1.
    { intros j Hj. by rewrite Hreg, decide_False. }
    f_equal. rewrite Hreg, decide_True by done. unfold ent. by rewrite Hs, Hb.
Qed.

Lemma miss_reset q i : miss_ok q → isReset (deferredTargets (reg q i)) = true.
Proof. intros [Hq Hp _]. apply (qo_deferred q Hq). by apply plain_reg. Qed.

(** Popping, emptying and rewriting targets. *)
Lemma targets_view i f q :
  miss_ok q → i ∈ allocatedList q →
  Forall (λ t, simple (t_pkt t) ∧ addr (t_pkt t) = blkAddr (reg q i)) (f (tlist (targets (reg q i)))) →
  let q' := upd_reg i ((reg q i) <| targets ::= λ t, t <| tlist ::= f |> |>) q in
  miss_ok q' ∧
  view q' = <[i := mkEnt (blkAddr (reg q i)) (inService (reg q i)) (tid <$> f (tlist (targets (reg q i))))]> (view q).
Proof.
  intros Hm Hi Hf. apply upd_view; try done.
  - destruct (plain_reg q i (mo_plain q Hm)) as [? ?]. by destruct (reg q i).
  - destruct (mo_reg q Hm i Hi) as [? ? _]. destruct (reg q i). by split.
  - pose proof (miss_reset q i Hm). by destruct (reg q i).
Qed.

Lemma allocateTarget_view now pkt t o i q m :
  miss_ok q → i ∈ allocatedList q → simple pkt → addr pkt = blkAddr (reg q i) →
  allocateTarget now pkt t o (reg q i) = Ok m →
  miss_ok (upd_reg i m q) ∧
  view (upd_reg i m q) =
    <[i := mkEnt (blkAddr (reg q i)) (inService (reg q i)) ((tid <$> tlist (targets (reg q i))) ++ [pkt_id pkt])]> (view q).
Proof.
  intros Hm Hi (Hc & Hs & Hu) Ha H. assert (Hne : needsExclusive (cmd pkt) = false) by by rewrite Hc.
  pose proof (plain_reg q i (mo_plain q Hm)) as Hp.
  pose proof (allocateTarget_plain _ _ _ _ _ _ Hne Hp H) as Hpm.
  unfold allocateTarget in H. rewrite (must_defer_plain pkt _ Hne Hp) in H.
  apply bind_ok in H as (_ & _ & H). apply bind_ok in H as (_ & _ & [= <-]).
  destruct (mo_reg q Hm i Hi) as [R1 R2 R3]. pose proof (miss_reset q i Hm) as Hd.
  match goal with |- miss_ok (upd_reg i ?m q) ∧ _ =>
    destruct (upd_view i m q Hm Hi) as [V1 V2] end; try done.
  - split; [done|done|]. cbn. rewrite tlist_tl_add. apply Forall_app. split; [done|].
    constructor; [|done]. done.
  - split; [done|]. rewrite V2. cbn. rewrite tlist_tl_add, fmap_app. done.
Qed.

Lemma m_deallocate_targets m m' : m_deallocate m = Ok m' → tlist (targets m) = [].
Proof.
  unfold m_deallocate. intros (_ & H%assert_ok & _)%bind_ok. unfold hasTargets in H.
  by destruct (tlist (targets m)).
Qed.

Lemma deallocate_view i q q' :
  miss_ok q → i ∈ allocatedList q → deallocate i q = Ok q' →
  miss_ok q' ∧ e_ids (ent (reg q i)) = [] ∧ view q' = delete i (view q).
Proof.
  intros [Hq Hp Hr] Hi H. destruct (deallocate_registers i q q' H) as (m & Em & Er).
  pose proof (m_deallocate_targets _ _ Em) as Et. destruct (plain_reg q i Hp) as [Ed _].
  destruct (deallocate_ok i q Hq Hi) as (q1 & E & Hq' & _ & Eal & _ & Hoth & _).
  { unfold getNumTargets. by rewrite Et, Ed. }
  rewrite E in H. injection H as ->. split_and!.
  - split; [done| |].
    + rewrite Er. apply Forall_insert; [done|]. eapply m_deallocate_plain, Em. by apply plain_reg.
    + rewrite Eal. intros j [Hj Hne]%elem_of_erase. rewrite Hoth by done. by apply Hr.
  - cbn. by rewrite Et.
  - apply map_eq. intros j. rewrite lookup_delete, !lookup_view, Eal by done.
    destruct (decide (i = j)) as [Ej|].
    + subst. rewrite decide_False; [done|]. intros [_ ?]%elem_of_erase. done.
    + rewrite Hoth by done. destruct (decide (j ∈ allocatedList q)).
      * by rewrite decide_True by by apply elem_of_erase.
      * rewrite decide_False; [done|]. by intros [? _]%elem_of_erase.
Qed.

(** Plain reads need a response, so a register in service stays allocated. *)
Lemma read_forward q i : miss_ok q → i ∈ allocatedList q → isForwardNoResponse (reg q i) = false.
Proof.
  intros Hm Hi. destruct (mo_reg q Hm i Hi) as [_ _ Ht]. unfold isForwardNoResponse.
  destruct (tlist (targets (reg q i))) as [|t ts]; [apply andb_false_r|].
  apply Forall_cons in Ht as [[(-> & _) _] _]. by rewrite !andb_false_r.
Qed.

Lemma m_markInService_fields d m b m' :
  isForwardNoResponse m = false → m_markInService d m = Ok (b, m') →
  b = false ∧ ent m' = (ent m) <| e_sent := true |> ∧ (plain m → plain m') ∧ (reg_ok m → reg_ok m').
Proof.
  unfold m_markInService. intros -> (_ & _ & [= <- <-])%bind_ok. destruct m.
  split_and!; try done; intros []; by split.
Qed.

Lemma markInService_view i d q q' :
  miss_ok q → i ∈ readyList q → MshrQueue.markInService i d q = Ok q' →
  miss_ok q' ∧ i ∈ allocatedList q ∧ e_sent (ent (reg q i)) = false ∧
  view q' = <[i := (ent (reg q i)) <| e_sent := true |>]> (view q).
Proof.
  intros Hm Hi H. pose proof Hm as [Hq Hp Hr]. apply (queue_ok_ready q i Hq) in Hi as Hai.
  destruct Hai as [Hai Hsv]. pose proof (read_forward q i Hm Hai) as Hfw.
  destruct (markInService_ok i d q Hq Hi) as (q1 & E & Hq' & _ & Hf & _ & _ & Hoth).
  rewrite E in H. injection H as ->. destruct (Hf Hfw) as [Eal Hs'].
  unfold MshrQueue.markInService in E. apply bind_ok in E as ([b m] & Em & E).
  apply m_markInService_fields in Em as (-> & Ee & Ep & Eo); [|done].
  assert (Er : registers q' = <[i := m]> (registers q)) by by injection E as <-.
  destruct (reg_insert q q' i m (allocated_lt q i Hq Hai) Er) as [Hm' _].
  split_and!; try done.
  - split; [done| |].
    + rewrite Er. apply Forall_insert; [done|]. by apply Ep, plain_reg.
    + rewrite Eal. intros j Hj. destruct (decide (j = i)) as [->|]; [|rewrite Hoth by done; by apply Hr].
      rewrite Hm'. by apply Eo, Hr.
  - rewrite (view_upd q q' i) by done. by rewrite Hm', Ee.
Qed.

(** ** The operations of the cache on its buffers *)

Section buffers.
Context `{P : CacheParams} `{C : Clocked}.

Lemma setBlocked_queue now c b b' : setBlocked now c b = Ok b' → mshrQueue b' = mshrQueue b.
Proof. by intros [? _]%setBlocked_same. Qed.

Lemma clearBlocked_queue now c b b' : clearBlocked now c b = Ok b' → mshrQueue b' = mshrQueue b.
Proof. by intros [? _]%clearBlocked_same. Qed.

Lemma sched_queue now t b b' : schedMemSideSendEvent now t b = Ok b' → mshrQueue b' = mshrQueue b.
Proof. unfold schedMemSideSendEvent. intros. res_inv. done. Qed.

Lemma allocateBuffer_queue now qi a sz pkt t b r b' :
  allocateBufferInternal now qi a sz pkt t true b = Ok (r, b') →
  ∃ i q, r = (qi, i) ∧ allocate now a sz pkt t (order b) (queue_of b qi) = Ok (i, q) ∧
    mshrQueue b' = if qi =? 0 then q else mshrQueue b.
Proof.
  unfold allocateBufferInternal. intros H. apply bind_ok in H as (_ & _ & H).
  apply bind_ok in H as ([i q] & Ha & H). apply bind_ok in H as (b1 & H1 & H).
  apply bind_ok in H as (b2 & H2%sched_queue & [= <- <-]). exists i, q. split_and!; [done..|].
  assert (mshrQueue b1 = mshrQueue (upd_queue qi q (b <| order ::= λ o, u64 (o + 1) |>))) as E
    by (destruct (isFull q); [by apply setBlocked_queue in H1|by injection H1 as <-]).
  rewrite H2, E. unfold upd_queue. by destruct (qi =? 0).
Qed.

Lemma allocateMissBuffer_view now pkt t b r b' :
  miss_ok (mshrQueue b) → simple pkt → addr pkt = blockAlign (addr pkt) →
  allocateMissBuffer now pkt t b = Ok (r, b') →
  miss_ok (mshrQueue b') ∧ ∃ i, r = (0, i) ∧ view (mshrQueue b) !! i = None ∧
    view (mshrQueue b') = <[i := mkEnt (addr pkt) false [pkt_id pkt]]> (view (mshrQueue b)).
Proof.
  intros Hm Hs Ha (i & q & -> & Hal & Eq)%allocateBuffer_queue. cbn in Eq. rewrite Eq.
  rewrite <-Ha in Hal. apply allocate_view in Hal as (H1 & H2 & H3); [|done..]. eauto.
Qed.

Lemma allocateWriteBuffer_queue now pkt t b rb :
  allocateWriteBuffer now pkt t b = Ok rb → mshrQueue rb.2 = mshrQueue b.
Proof.
  unfold allocateWriteBuffer. intros (_ & _ & H)%bind_ok. destruct rb as [r b'].
  by apply allocateBuffer_queue in H as (i & q & _ & _ & E).
Qed.

(** A packet joins the targets of a register. *)
Lemma join_view now pkt t o i e b b0 m :
  miss_ok (mshrQueue b) → simple pkt → view (mshrQueue b) !! i = Some e → addr pkt = e_addr e →
  allocateTarget now pkt t o (the_mshr b (0, i)) = Ok m → mshrQueue b0 = mshrQueue b →
  miss_ok (mshrQueue (upd_mshr (0, i) m b0)) ∧
  view (mshrQueue (upd_mshr (0, i) m b0)) =
    <[i := e <| e_ids ::= λ l, l ++ [pkt_id pkt] |>]> (view (mshrQueue b)).
Proof.
  intros Hm Hs [Hi ->]%view_Some Ha H E; [|apply Hm]. cbn. rewrite E.
  by apply allocateTarget_view in H as [? ?].
Qed.

Lemma coalesce_view now cpu i pkt b b' e :
  miss_ok (mshrQueue b) → simple pkt → view (mshrQueue b) !! i = Some e → addr pkt = e_addr e →
  coalesce now cpu i pkt b = Ok b' →
  miss_ok (mshrQueue b') ∧
  view (mshrQueue b') = <[i := e <| e_ids ::= λ l, l ++ [pkt_id pkt] |>]> (view (mshrQueue b)).
Proof.
  intros Hm Hs Hi Ha H. unfold coalesce in H. set (b1 := if cpu then _ else _) in H.
  assert (E1 : mshrQueue b1 = mshrQueue b) by (unfold b1; by destruct cpu). clearbody b1.
  apply bind_ok in H as (m & Em & H). rewrite <-E1 in *.
  apply (join_view now pkt _ _ i e b1 (b1 <| order ::= λ o, u64 (o + 1) |>)) in Em; [|done..].
  destruct (getNumTargets m =? numTarget); [|by injection H as <-].
  apply setBlocked_queue in H. rewrite H. done.
Qed.

Lemma deallocateMSHR_queue now r w b b' :
  deallocateMSHR now r w b = Ok b' →
  ∃ q, deallocate r.2 (queue_of b r.1) = Ok q ∧ mshrQueue b' = if r.1 =? 0 then q else mshrQueue b.
Proof.
  unfold deallocateMSHR. intros H. apply bind_ok in H as (q & Hq & H). exists q. split; [done|].
  assert (mshrQueue b' = mshrQueue (upd_queue r.1 q b)) as ->
    by (case_match; [by apply clearBlocked_queue in H|by injection H as <-]).
  unfold upd_queue. by destruct (r.1 =? 0).
Qed.

Lemma deallocate_miss now i w b b' e :
  miss_ok (mshrQueue b) → view (mshrQueue b) !! i = Some e →
  deallocateMSHR now (0, i) w b = Ok b' →
  miss_ok (mshrQueue b') ∧ e_ids e = [] ∧ view (mshrQueue b') = delete i (view (mshrQueue b)).
Proof.
  intros Hm [Hi ->]%view_Some (q & Hq & E)%deallocateMSHR_queue; [|apply Hm]. cbn in *. rewrite E.
  by apply deallocate_view.
Qed.

Lemma clearNoTarget_queue now r b b' : clearNoTarget now r b = Ok b' → mshrQueue b' = mshrQueue b.
Proof.
  unfold clearNoTarget. case_bool_decide; [|by intros [= <-]].
  intros (b1 & H1%clearBlocked_queue & [= <-])%bind_ok. done.
Qed.

(** The targets of a register are taken off: the first, or all. *)
Lemma pop_view i e b :
  miss_ok (mshrQueue b) → view (mshrQueue b) !! i = Some e →
  let b' := upd_mshr (0, i) (popTarget (the_mshr b (0, i))) b in
  miss_ok (mshrQueue b') ∧ view (mshrQueue b') = <[i := e <| e_ids ::= tail |>]> (view (mshrQueue b)).
Proof.
  intros Hm [Hi ->]%view_Some; [|apply Hm]. cbn.
  destruct (targets_view i tail (mshrQueue b) Hm Hi) as [H1 H2].
  { destruct (mo_reg _ Hm i Hi) as [_ _ Ht]. by apply Forall_tail. }
  split; [done|]. etrans; [exact H2|]. f_equal. unfold ent. cbn. f_equal.
  by destruct (tlist (targets (reg (mshrQueue b) i))).
Qed.

Lemma take_view i e b ts b' :
  miss_ok (mshrQueue b) → view (mshrQueue b) !! i = Some e → takeTargets (0, i) b = (ts, b') →
  tid <$> ts = e_ids e ∧ Forall (λ t, simple (t_pkt t) ∧ addr (t_pkt t) = e_addr e) ts ∧
  miss_ok (mshrQueue b') ∧ view (mshrQueue b') = <[i := e <| e_ids := [] |>]> (view (mshrQueue b)).
Proof.
  intros Hm [Hi ->]%view_Some [= <- <-]; [|apply Hm].
  destruct (mo_reg _ Hm i Hi) as [_ _ Ht].
  destruct (targets_view i (λ _, []) (mshrQueue b) Hm Hi) as [H1 H2]; [done|]. done.
Qed.

(** ** Searching and sending *)

Lemma findMatch_view a q i : miss_ok q →
  findMatch a false q = Some i → ∃ e, view q !! i = Some e ∧ e_addr e = a.
Proof.
  intros Hm. unfold findMatch. intros ([k j] & (Hl & Hp & _)%list_find_Some & ->)%fmap_Some. cbn.
  apply list_elem_of_lookup_2 in Hl. exists (ent (reg q j)). split; [by apply view_Some; [apply Hm|]|].
  apply Is_true_true, andb_true_iff in Hp as [_ Hp]. unfold matches in Hp.
  apply andb_true_iff in Hp as [Hp _]. by apply Z.eqb_eq in Hp.
Qed.

Lemma findMatch_none a q : miss_ok q →
  findMatch a false q = None → ∀ i e, view q !! i = Some e → e_addr e ≠ a.
Proof.
  intros Hm H i e [Hi ->]%view_Some Ha; [|apply Hm]. unfold findMatch in H.
  apply fmap_None, list_find_None in H. rewrite Forall_forall in H. apply (H i Hi).
  destruct (mo_reg q Hm i Hi) as [Hu Hs _]. apply Is_true_true. rewrite Hu. unfold matches.
  cbn in Ha. rewrite Hs, Ha, Z.eqb_refl. done.
Qed.

Lemma clone_fields id p q : clone_packet id p = Ok q → addr q = addr p ∧ cmd q = cmd p ∧
  pkt_id q = id ∧ isSecure q = isSecure p ∧ isUncacheable q = isUncacheable p.
Proof.
  unfold clone_packet, Packet.allocate. destruct (data p); cbn; intros; res_inv; try done;
    by case_match; simplify_eq.
Qed.

Lemma getTimingPacket_fields now id b p r :
  miss_ok (mshrQueue b) → getTimingPacket now id b = Ok (Some (p, r)) →
  senderState p = Some r ∧ 0 ≤ r.1 ≤ 1 ∧ r.2 ∈ readyList (queue_of b r.1) ∧
  (r.1 = 0 → r.2 ∈ allocatedList (mshrQueue b) → addr p = blkAddr (reg (mshrQueue b) r.2)).
Proof.
  intros Hm. unfold getTimingPacket. destruct (getNextMSHR now b) as [r'|] eqn:Er; [|done].
  apply getNextMSHR_ready in Er as [Hr Hi]. intros H. apply bind_ok in H as (_ & _ & H).
  apply bind_ok in H as (t & Ht & H). apply bind_ok in H as (p1 & Hp & [= <- <-]).
  split_and!; try done; try lia. intros E Hal. destruct (mo_reg _ Hm _ Hal) as [_ _ Hf].
  rewrite E in Hp. cbn in Hp. apply clone_fields in Hp as (Ha & _). cbn. rewrite Ha.
  unfold getTarget, the_mshr in Ht. rewrite E in Ht. cbn in Ht.
  destruct (tlist (targets (reg (mshrQueue b) r'.2))); [done|]. injection Ht as ->.
  apply Forall_cons in Hf as [[_ ?] _]. done.
Qed.

(** The register of a read that is accepted is on its way. *)
Lemma send_view now id acc b o b' :
  miss_ok (mshrQueue b) → cache_sendDeferredPacket now id acc b = Ok (o, b') →
  miss_ok (mshrQueue b') ∧
  match o with
  | None => view (mshrQueue b') = view (mshrQueue b)
  | Some p => ∃ r, senderState p = Some r ∧
      if acc && (r.1 =? 0) then
        ∃ e, view (mshrQueue b) !! r.2 = Some e ∧ e_sent e = false ∧ addr p = e_addr e ∧
          view (mshrQueue b') = <[r.2 := e <| e_sent := true |>]> (view (mshrQueue b))
      else view (mshrQueue b') = view (mshrQueue b)
  end.
Proof.
  intros Hm. unfold cache_sendDeferredPacket. intros H. apply bind_ok in H as (_ & _ & H).
  apply bind_ok in H as ([[p r]|] & Ho & H); [|by injection H as <- <-].
  apply getTimingPacket_fields in Ho as (Hs & Hq & Hi & Ha); [|done].
  destruct acc; cbn [negb andb] in *; [|injection H as <- <-; eauto].
  apply bind_ok in H as (b1 & H1 & H). apply bind_ok in H as (b2 & H2%sched_queue & [= <- <-]).
  unfold CacheBuffers.markInService in H1. apply bind_ok in H1 as (q & Hmk & H1).
  assert (E1 : mshrQueue b1 = if r.1 =? 0 then q else mshrQueue b).
  { assert (mshrQueue b1 = mshrQueue (upd_queue r.1 q (b <| sendq ::= λ q, q <| waitingOnRetry := false |> |>))) as ->
      by (case_match; [by apply clearBlocked_queue in H1|by injection H1 as <-]).
    unfold upd_queue. by destruct (r.1 =? 0). }
  rewrite H2, E1. destruct (Z.eqb_spec r.1 0) as [E|E].
  2:{ split; [done|]. exists r. split; [done|]. by rewrite (proj2 (Z.eqb_neq _ _) E). }
  rewrite E in Hmk, Hi. apply markInService_view in Hmk as (M1 & M2 & M3 & M4); [|done..].
  split; [done|]. exists r. split; [done|]. rewrite E. cbn. eexists. split_and!; [|exact M3|by apply Ha|exact M4].
  by apply view_Some; [apply Hm|].
Qed.
End buffers.
End MissView.
