(* ===== verification/DramCtrl.v ===== *)
(** * The DRAM controller: queues and request loop (mem/dram_ctrl.hh, dram_ctrl.cc)

    The base class of the DRAM cache controller and the controller of the main
    memory behind it: a request is split into bursts that wait in a read or a
    write queue; the request loop picks a burst, accesses the DRAM and turns the
    bus around; finished reads wait in the response queue and are answered when
    their last burst is ready.  A system packet is a value with an identity; the
    helper shared by the bursts of a split packet lives in a table. *)

From S2P Require Import Prelude Intmath Packet AbstractMem DramTypes PacketQueue.
From S2P Require Import DramInit DramAddr DramSched DramTiming DramRefresh.
Import Intmath MemCmd Packet AbstractMem PacketQueue DramInit DramAddr DramSched DramTiming DramRefresh.

Module DramCtrl.

Inductive BusState : Set := READ | READ_TO_WRITE | WRITE | WRITE_TO_READ.
#[export] Instance BusState_eq_dec : EqDecision BusState.
Proof. solve_decision. Defined.

Record BurstHelper := mkHelper { burstCount : Z; burstsServiced : Z }.
#[export] Instance eta_BurstHelper : Eta BurstHelper := λ h,
  mkHelper (burstCount h) (burstsServiced h).

Record Ctrl := mkCtrl
  { chan : Chan;
    nextReqEvent : event;
    respondEvent : event;
    busState : BusState;
    readQueue : list DRAMPacket;
    writeQueue : list DRAMPacket;
    respQueue : list DRAMPacket;
    isInWriteQueue : gset Addr;
    helpers : gmap nat BurstHelper;
    nextHelper : nat;
    retryRdReq : bool;
    retryWrReq : bool;
    prevArrival : Tick;
    pendingDelete : list Packet;
    mem : Mem;
    respPort : PacketQueue;      (** the response queue of [port] *)
    portDraining : bool;
    portDrained : Z;
    draining : bool;             (** [drainState() == DrainState::Draining] *)
    drainSignals : Z;            (** calls of [signalDrainDone] *)
    retryReqs : Z;               (** calls of [port.sendRetryReq] *)
    isTimingMode : bool;
    cstats : stats }.
#[export] Instance eta_Ctrl : Eta Ctrl := λ c,
  mkCtrl (chan c) (nextReqEvent c) (respondEvent c) (busState c) (readQueue c) (writeQueue c)
    (respQueue c) (isInWriteQueue c) (helpers c) (nextHelper c) (retryRdReq c) (retryWrReq c)
    (prevArrival c) (pendingDelete c) (mem c) (respPort c) (portDraining c) (portDrained c)
    (draining c) (drainSignals c) (retryReqs c) (isTimingMode c) (cstats c).

Definition stat (name : string) (c : Ctrl) : Ctrl := c <| cstats ::= stat_inc name |>.
Definition stat_at (name : string) (i : Z) (c : Ctrl) : Ctrl := c <| cstats ::= stat_inc_at name i |>.
Definition stat_plus (name : string) (v : Z) (c : Ctrl) : Ctrl := c <| cstats ::= stat_add name 0 v |>.
Definition stat_is (name : string) (v : Z) (c : Ctrl) : Ctrl := c <| cstats ::= stat_set name 0 v |>.
(** [queue.size()]. *)
Definition len {A} (l : list A) : Z := Z.of_nat (length l).

(** ** The table of burst helpers *)

Definition new_helper (count : Z) (c : Ctrl) : nat * Ctrl :=
  (nextHelper c, c <| helpers ::= <[nextHelper c := mkHelper count 0]> |> <| nextHelper ::= S |>).
(** One burst of the packet is done: whether it was the last, in which case the
    helper is deleted. *)
Definition burst_done (h : nat) (c : Ctrl) : res (bool * Ctrl) :=
  match helpers c !! h with
  | None => Fault (Panic "burst helper used after its deletion")
  | Some b =>
      let b := b <| burstsServiced ::= Z.succ |> in
      if burstsServiced b =? burstCount b then Ok (true, c <| helpers ::= delete h |>)
      else Ok (false, c <| helpers ::= <[h := b]> |>)
  end.

(** The state of the loops: the controller, the address, the bursts found in the
    write queue and the helper. *)
Abbreviation split_state := (Ctrl * Addr * Z * option nat)%type.

Section ctrl.
Context `{P : DRAMParams} `{R : MemRange}.

Definition new_ctrl : Ctrl :=
  mkCtrl new_chan None None READ [] [] [] ∅ ∅ 0 false false 0 [] new_mem new_packet_queue
    false 0 false 0 0 false ∅.

Definition readQueueFull (neededEntries : Z) (c : Ctrl) : bool :=
  readBufferSize <? len (readQueue c) + len (respQueue c) + neededEntries.
Definition writeQueueFull (neededEntries : Z) (c : Ctrl) : bool :=
  writeBufferSize <? len (writeQueue c) + neededEntries.

Definition burstAlign (a : Addr) : Addr := Z.ldiff a (burstSize - 1).

(** [port.schedTimingResp]. *)
Definition schedTimingResp (now : Tick) (pkt : Packet) (when : Tick) (c : Ctrl) : res Ctrl :=
  qd ← schedSendTiming now (portDraining c) pkt when false (respPort c);
  Ok (c <| respPort := qd.1 |> <| portDrained ::= λ n, if qd.2 : bool then n + 1 else n |>).

Definition accessAndRespond (now : Tick) (pkt : Packet) (static_latency : Tick) (c : Ctrl)
    : res Ctrl :=
  let needs := needsResponse (cmd pkt) in
  pm ← access pkt (mem c);
  let '(pkt, m) := pm in
  let c := c <| mem := m |> in
  if needs then
    assert (isResponse (cmd pkt)) "pkt->isResponse()";;
    let response_time := now + static_latency + headerDelay pkt + payloadDelay pkt in
    let pkt := pkt <| headerDelay := 0 |> <| payloadDelay := 0 |> in
    schedTimingResp now pkt response_time c
  else Ok (c <| pendingDelete ::= λ l, l ++ [pkt] |>).

(** [if (!nextReqEvent.scheduled()) schedule(nextReqEvent, curTick())]. *)
Definition kick (now : Tick) (c : Ctrl) : res Ctrl :=
  if scheduled (nextReqEvent c) then Ok c
  else ev ← schedule now now (nextReqEvent c); Ok (c <| nextReqEvent := ev |>).

(** ** Splitting requests into bursts *)

(** The start of the next burst and the size of the burst at [a]. *)
Definition next_burst (a : Addr) : Addr := Z.lor a (burstSize - 1) + 1.
Definition burst_size (pkt : Packet) (a : Addr) : Z :=
  u32 (Z.min (next_burst a) (addr pkt + size pkt) - a).

(** [p->addr <= addr && addr + size <= p->addr + p->size]. *)
Definition subsumes (a sz : Z) (d : DRAMPacket) : bool :=
  (dp_addr d <=? a) && (a + sz <=? dp_addr d + dp_size d).

Definition push_read (now : Tick) (pkt : Packet) (a sz : Z) (h : option nat) (c : Ctrl)
    : res Ctrl :=
  assert (hasContextId pkt) "pkt->req->hasContextId()";;
  d ← decodeAddr now pkt a sz true;
  let d := d <| burstHelper := h |> in
  assert (negb (readQueueFull 1 c)) "!readQueueFull(1)";;
  let n := len (readQueue c) + len (respQueue c) in
  let c := stat_at "rdQLenPdf" n c in
  let c := if isGPU pkt then c else stat_at "cpurdQLenPdf" n c in
  let c := c <| readQueue ::= λ q, q ++ [d] |> in
  Ok (stat_is "avgRdQLen" (len (readQueue c) + len (respQueue c)) c).

Definition read_burst (now : Tick) (pkt : Packet) (pktCount : Z) (s : split_state) (_ : Z)
    : res split_state :=
  let '(c, a, serviced, h) := s in
  let sz := burst_size pkt a in
  l ← ceilLog2 sz;
  let c := stat "readBursts" (stat_at "readPktSize" l c) in
  let foundInWrQ :=
    bool_decide (burstAlign a ∈ isInWriteQueue c) && existsb (subsumes a sz) (writeQueue c) in
  if foundInWrQ then
    Ok (stat_plus "bytesReadWrQ" burstSize (stat "servicedByWrQ" c), next_burst a, serviced + 1, h)
  else
    let '(h, c) :=
      if (1 <? pktCount) && negb (isSome h)
      then let '(i, c) := new_helper pktCount c in (Some i, c) else (h, c) in
    c ← push_read now pkt a sz h c;
    Ok (c, next_burst a, serviced, h).

Definition addToReadQueue (now : Tick) (pkt : Packet) (pktCount : Z) (c : Ctrl) : res Ctrl :=
  assert (negb (isWrite (cmd pkt))) "!pkt->isWrite()";;
  assert (negb (pktCount =? 0)) "pktCount != 0";;
  s ← foldM (read_burst now pkt pktCount) (c, addr pkt, 0, None) (seqZ 0 pktCount);
  let '(c, _, serviced, h) := s in
  if serviced =? pktCount then accessAndRespond now pkt frontendLatency c
  else
    let c := match h with
             | Some i => c <| helpers ::= alter (λ b, b <| burstsServiced := serviced |>) i |>
             | None => c
             end in
    kick now c.

Definition push_write (now : Tick) (pkt : Packet) (a sz : Z) (c : Ctrl) : res Ctrl :=
  assert (hasContextId pkt) "pkt->req->hasContextId()";;
  d ← decodeAddr now pkt a sz false;
  let n := len (writeQueue c) in
  assert (n <? writeBufferSize) "writeQueue.size() < writeBufferSize";;
  let c := stat_at "wrQLenPdf" n c in
  let c := if isGPU pkt then c else stat_at "cpuwrQLenPdf" n c in
  let c := c <| writeQueue ::= λ q, q ++ [d] |>
             <| isInWriteQueue ::= λ s, {[burstAlign a]} ∪ s |> in
  assert (len (writeQueue c) =? Z.of_nat (base.size (isInWriteQueue c)))
    "writeQueue.size() == isInWriteQueue.size()";;
  Ok (stat_is "avgWrQLen" (len (writeQueue c)) c).

Definition write_burst (now : Tick) (pkt : Packet) (s : Ctrl * Addr) (_ : Z) : res (Ctrl * Addr) :=
  let '(c, a) := s in
  let sz := burst_size pkt a in
  l ← ceilLog2 sz;
  let c := stat "writeBursts" (stat_at "writePktSize" l c) in
  if bool_decide (burstAlign a ∈ isInWriteQueue c) then Ok (stat "mergedWrBursts" c, next_burst a)
  else c ← push_write now pkt a sz c; Ok (c, next_burst a).

Definition addToWriteQueue (now : Tick) (pkt : Packet) (pktCount : Z) (c : Ctrl) : res Ctrl :=
  assert (isWrite (cmd pkt)) "pkt->isWrite()";;
  s ← foldM (write_burst now pkt) (c, addr pkt) (seqZ 0 pktCount);
  c ← accessAndRespond now pkt frontendLatency s.1;
  kick now c.

(** ** Requests *)

(** The average gap between requests. *)
Definition arrival (now : Tick) (c : Ctrl) : Ctrl :=
  let c := if prevArrival c =? 0 then c else stat_plus "totGap" (sub64 now (prevArrival c)) c in
  c <| prevArrival := now |>.

(** The counters of an accepted request. *)
Definition count_req (reqs gpu cpu bytes : string) (pkt : Packet) (c : Ctrl) : Ctrl :=
  stat_plus bytes (size pkt) (stat (if isGPU pkt then gpu else cpu) (stat reqs c)).

Definition recvTimingReq (now : Tick) (pkt : Packet) (c : Ctrl) : res (bool * Ctrl) :=
  let c := c <| pendingDelete := [] |> in
  if memInhibit pkt || bool_decide (cmd pkt = CleanEvict)
  then Ok (true, c <| pendingDelete := [pkt] |>)
  else
    let c := arrival now c in
    let offset := Z.land (addr pkt) (burstSize - 1) in
    let count := divCeil (offset + size pkt) burstSize in
    if isRead (cmd pkt) then
      assert (negb (size pkt =? 0)) "size != 0";;
      if readQueueFull count c then Ok (false, stat "numRdRetry" (c <| retryRdReq := true |>))
      else
        c ← addToReadQueue now pkt count c;
        Ok (true, count_req "readReqs" "gpuReadReqs" "cpuReadReqs" "bytesReadSys" pkt c)
    else if isWrite (cmd pkt) then
      assert (negb (size pkt =? 0)) "size != 0";;
      if writeQueueFull count c then Ok (false, stat "numWrRetry" (c <| retryWrReq := true |>))
      else
        c ← addToWriteQueue now pkt count c;
        Ok (true, count_req "writeReqs" "gpuWriteReqs" "cpuWriteReqs" "bytesWrittenSys" pkt c)
    else
      c ← accessAndRespond now pkt 1 (stat "neitherReadNorWrite" c);
      Ok (true, c).

Definition recvAtomic (pkt : Packet) (c : Ctrl) : res (Tick * Packet * Ctrl) :=
  pm ← access pkt (mem c);
  let '(pkt, m) := pm in
  Ok (if negb (memInhibit pkt) && hasData (cmd pkt) then tRP + tRCD + tCL else 0,
      pkt, c <| mem := m |>).

(** ** Responses *)

Definition signal_drained (c : Ctrl) : Ctrl := c <| drainSignals ::= Z.succ |>.

(** [schedule(respondEvent, respQueue.front()->readyTime)] for the next
    response. *)
Definition next_response (now : Tick) (c : Ctrl) : res Ctrl :=
  match respQueue c with
  | d :: _ =>
      assert (now <=? readyTime d) "respQueue.front()->readyTime >= curTick()";;
      assert (negb (scheduled (respondEvent c))) "!respondEvent.scheduled()";;
      ev ← schedule now (readyTime d) (respondEvent c);
      Ok (c <| respondEvent := ev |>)
  | [] =>
      Ok (if draining c && bool_decide (writeQueue c = []) && bool_decide (readQueue c = [])
          then signal_drained c else c)
  end.

Definition retry_read (c : Ctrl) : Ctrl :=
  if retryRdReq c then c <| retryRdReq := false |> <| retryReqs ::= Z.succ |> else c.

Definition processRespondEvent (now : Tick) (c : Ctrl) : res Ctrl :=
  let c := c <| respondEvent := None |> in
  match respQueue c with
  | [] => Fault (Panic "front of an empty queue")
  | d :: rest =>
      c ← match burstHelper d with
          | Some h =>
              lc ← burst_done h c;
              if lc.1 : bool
              then accessAndRespond now (dp_pkt d) (frontendLatency + backendLatency) lc.2
              else Ok lc.2
          | None => accessAndRespond now (dp_pkt d) (frontendLatency + backendLatency) c
          end;
      c ← next_response now (c <| respQueue := rest |>);
      Ok (retry_read c)
  end.

(** ** The request loop *)

(** The ranks that refresh, told that the queues let them proceed. *)
Definition check_rank (now : Tick) (s : Z * st) (r : Z) : res (Z * st) :=
  if isAvailable (get_rank s.2 r) then Ok s
  else s' ← checkDrainDone now r s.2; Ok (s.1 + 1, s').
Definition check_ranks (now : Tick) (s : st) : res (Z * st) :=
  foldM (check_rank now) (0, s) (seqZ 0 ranksPerChannel).

(** The bus turns around; whether it did. *)
Definition turn_around (c : Ctrl) : bool * Ctrl :=
  match busState c with
  | READ_TO_WRITE =>
      let c := stat_at "rdPerTurnAround" (readsThisTime (chan c)) c in
      (true, c <| chan ::= λ s, s <| readsThisTime := 0 |> |> <| busState := WRITE |>)
  | WRITE_TO_READ =>
      let c := stat_at "wrPerTurnAround" (writesThisTime (chan c)) c in
      (true, c <| chan ::= λ s, s <| writesThisTime := 0 |> |> <| busState := READ |>)
  | _ => (false, c)
  end.

(** A bubble on the data bus after a turnaround within the active rank. *)
Definition bubble (switched : bool) (d : DRAMPacket) (dt : Tick) (s : Chan) : Chan :=
  if switched && (dp_rank d =? activeRank s) then s <| busBusyUntil ::= λ t, t + dt |> else s.

Definition push_response (now : Tick) (d : DRAMPacket) (c : Ctrl) : res Ctrl :=
  c ← match last (respQueue c) with
      | None =>
          assert (negb (scheduled (respondEvent c))) "!respondEvent.scheduled()";;
          ev ← schedule now (readyTime d) (respondEvent c);
          Ok (c <| respondEvent := ev |>)
      | Some b =>
          assert (readyTime b <=? readyTime d) "respQueue.back()->readyTime <= dram_pkt->readyTime";;
          assert (scheduled (respondEvent c)) "respondEvent.scheduled()";;
          Ok c
      end;
  Ok (c <| respQueue ::= λ q, q ++ [d] |>).

(** The two halves of the loop; [false] is an early return that schedules
    nothing. *)
Definition next_read (now : Tick) (switched : bool) (c : Ctrl) : res (bool * Ctrl) :=
  match readQueue c with
  | [] =>
      if negb (bool_decide (writeQueue c = [])) &&
         (draining c || (writeLowThreshold <? len (writeQueue c)))
      then Ok (true, c <| busState := READ_TO_WRITE |>)
      else Ok (false, if draining c && bool_decide (respQueue c = [])
                      then signal_drained c else c)
  | _ :: _ =>
      fq ← chooseNext (ranks (chan c)) now (busBusyUntil (chan c)) (readQueue c)
             (if switched then tCS else 0);
      let '(found, q) := fq in
      let c := c <| readQueue := q |> in
      if negb found then Ok (false, c)
      else
        match q with
        | [] => Fault (Panic "front of an empty queue")
        | d :: rest =>
            assert (isAvailable (rankRef (ranks (chan c)) d)) "dram_pkt->rankRef.isAvailable()";;
            let s := bubble switched d (tWTR + tCL) (chan c) in
            ds ← doDRAMAccess now (readQueue c) (writeQueue c) d s;
            let '(d, s) := ds in
            let c := c <| chan := s |> <| readQueue := rest |> in
            assert (dp_size d <=? burstSize) "dram_pkt->size <= burstSize";;
            assert (now <=? readyTime d) "dram_pkt->readyTime >= curTick()";;
            c ← push_response now d c;
            Ok (true, if writeHighThreshold <? len (writeQueue c)
                      then c <| busState := READ_TO_WRITE |> else c)
        end
  end.

Definition next_write (now : Tick) (switched : bool) (c : Ctrl) : res (bool * Ctrl) :=
  fq ← chooseNext (ranks (chan c)) now (busBusyUntil (chan c)) (writeQueue c)
         (if switched then Z.min tRTW tCS else 0);
  let '(found, q) := fq in
  let c := c <| writeQueue := q |> in
  if negb found then Ok (false, c)
  else
    match q with
    | [] => Fault (Panic "front of an empty queue")
    | d :: rest =>
        assert (isAvailable (rankRef (ranks (chan c)) d)) "dram_pkt->rankRef.isAvailable()";;
        assert (dp_size d <=? burstSize) "dram_pkt->size <= burstSize";;
        let s := bubble switched d tRTW (chan c) in
        ds ← doDRAMAccess now (readQueue c) (writeQueue c) d s;
        let c := c <| chan := ds.2 |> <| writeQueue := rest |>
                   <| isInWriteQueue ::= λ s, s ∖ {[burstAlign (dp_addr d)]} |> in
        let back :=
          bool_decide (rest = []) ||
          ((len rest + minWritesPerSwitch <? writeLowThreshold) && negb (draining c)) ||
          (negb (bool_decide (readQueue c = [])) &&
           (minWritesPerSwitch <=? writesThisTime (chan c))) in
        Ok (true, if back then c <| busState := WRITE_TO_READ |> else c)
    end.

(** The end of the loop: the next request, and the retry of a write. *)
Definition finish_req (now : Tick) (c : Ctrl) : res Ctrl :=
  c ← (if scheduled (nextReqEvent c) then Ok c
       else ev ← schedule now (Z.max (nextReqTime (chan c)) now) (nextReqEvent c);
            Ok (c <| nextReqEvent := ev |>));
  Ok (if retryWrReq c && (len (writeQueue c) <? writeBufferSize)
      then c <| retryWrReq := false |> <| retryReqs ::= Z.succ |> else c).

Definition processNextReqEvent (now : Tick) (c : Ctrl) : res Ctrl :=
  let c := c <| nextReqEvent := None |> in
  bs ← check_ranks now (chan c, nextReqEvent c);
  let '(busyRanks, s) := bs in
  let c := c <| chan := s.1 |> <| nextReqEvent := s.2 |> in
  if busyRanks =? ranksPerChannel then Ok c
  else
    let '(switched, c) := turn_around c in
    gc ← (if bool_decide (busState c = READ) then next_read now switched c
          else next_write now switched c);
    if gc.1 : bool then finish_req now gc.2 else Ok gc.2.

(** ** Draining *)

(** [drain]: true if the controller is drained. *)
Definition drain (now : Tick) (c : Ctrl) : res (bool * Ctrl) :=
  if bool_decide (writeQueue c = []) && bool_decide (readQueue c = []) &&
     bool_decide (respQueue c = [])
  then Ok (true, c)
  else
    c ← (if bool_decide (writeQueue c = []) then Ok c else kick now c);
    Ok (false, c <| draining := true |>).

(** [drainResume]; [timing] is the mode of the system.  The drain manager has set
    the object running again. *)
Definition drainResume (now : Tick) (timing : bool) (c : Ctrl) : res Ctrl :=
  let c := c <| draining := false |> in
  c ← (if negb (isTimingMode c) && timing then
         s ← startup now (chan c); Ok (c <| chan := s |>)
       else if isTimingMode c && negb timing then
         s ← foldM (λ s r, suspend r s) (chan c, nextReqEvent c) (seqZ 0 ranksPerChannel);
         Ok (c <| chan := s.1 |> <| nextReqEvent := s.2 |>)
       else Ok c);
  Ok (c <| isTimingMode := timing |>).
End ctrl.
End DramCtrl.
