(* ===== verification/DramCtrlProofs.v ===== *)
(** * The DRAM controller answers every request once: proofs

    The bursts of a split packet share a helper that counts the bursts served;
    the invariant ties the helpers to the queues.  Over every sequence of
    requests, request-loop steps, responses, refresh events and sends, the
    accepted requests are exactly those outstanding, waiting to be sent and
    delivered, each once. *)

From S2P Require Import Prelude Intmath Packet AbstractMem DramTypes Config PacketQueue.
From S2P Require Import DramInit DramAddr DramSched DramTiming DramRefresh DramCtrl.
Import Intmath MemCmd Packet AbstractMem PacketQueue DramInit DramAddr DramSched DramTiming
  DramRefresh DramCtrl.

Module DramCtrlProofs.

(** ** Identities of packets *)

Definition did (d : DRAMPacket) : Z := pkt_id (dp_pkt d).

Lemma copy_in_id p src n q : copy_in p src n = Ok q → pkt_id q = pkt_id p ∧ cmd q = cmd p.
Proof. unfold copy_in. destruct (data p); intros; simplify_eq; done. Qed.

Lemma writeOK_id p m : pkt_id (writeOK p m).1.2 = pkt_id p ∧ cmd (writeOK p m).1.2 = cmd p.
Proof. unfold writeOK, checkLockedAddrList. repeat case_match; simplify_eq/=; done. Qed.

Lemma access_id `{R : MemRange} p m q m' :
  access p m = Ok (q, m') → pkt_id q = pkt_id p.
Proof.
  unfold access. destruct (memInhibit p); [by intros [= <- <-]|].
  case_bool_decide as Hc; [by intros [= <- <-]|]. intros H.
  apply bind_ok in H as (_ & _ & H). apply bind_ok in H as ([p1 m1] & Hb & H).
  assert (pkt_id p1 = pkt_id p) as <-.
  { clear H. unfold access_body in Hb. repeat case_match; simplify_eq; try done.
    - unfold access_swap in Hb. res_inv.
      match goal with E : copy_in _ _ _ = Ok _ |- _ => by apply copy_in_id in E as [? ?] end.
    - unfold access_read in Hb. res_inv.
      match goal with E : copy_in _ _ _ = Ok _ |- _ => by apply copy_in_id in E as [? ?] end.
    - unfold access_write in Hb. pose proof (writeOK_id p m) as [E _].
      destruct (writeOK p m) as [[[] p2] m2]; res_inv; done. }
  case_match; [|by simplify_eq]. apply bind_ok in H as (p2 & Hr & [= <- <-]).
  unfold makeResponse in Hr. by res_inv.
Qed.

Lemma schedSendEvent_list now dr when q q' d :
  schedSendEvent now dr when q = Ok (q', d) → transmitList q' = transmitList q.
Proof. unfold schedSendEvent. repeat case_match; intros; res_inv; done. Qed.

Lemma schedSendTiming_perm now dr pkt when fo q q' d :
  schedSendTiming now dr pkt when fo q = Ok (q', d) →
  ∃ t, transmitList q' ≡ₚ (t, pkt) :: transmitList q.
Proof.
  unfold schedSendTiming. intros H. do 2 apply bind_ok in H as (_ & _ & H). case_match; [done|].
  set (t := match last (transmitList q) with Some _ => _ | None => _ end) in *. exists t.
  clearbody t. destruct (transmitList q) as [|f l].
  - apply schedSendEvent_list in H. by rewrite H.
  - case_match; [|case_match]; res_inv.
    + apply schedSendEvent_list in H. by rewrite H.
    + cbn. rewrite (Permutation_app_comm l). constructor.
    + cbn. rewrite insert_after_perm. constructor.
Qed.

(** ** Split packets

    A key is the identity of a packet and the helper of one of its bursts. *)
Abbreviation key := (Z * option nat)%type.
Implicit Types (K : list key) (H : gmap nat BurstHelper).

Definition of_helper (h : nat) (k : key) : bool := bool_decide (k.2 = Some h).
Definition hcount (h : nat) K : Z := len (List.filter (of_helper h) K).

Record split_ok K H (n : nat) : Prop :=
  { so_count : ∀ h b, H !! h = Some b →
      burstsServiced b + hcount h K = burstCount b ∧ 1 ≤ hcount h K;
    so_refs : ∀ x h, (x, Some h) ∈ K → is_Some (H !! h);
    so_fresh : ∀ h, (n ≤ h)%nat → H !! h = None;
    so_ident : ∀ x o o', (x, o) ∈ K → (x, o') ∈ K → o = o';
    so_pkt : ∀ x x' h, (x, Some h) ∈ K → (x', Some h) ∈ K → x = x';
    so_single : NoDup (List.filter (λ k : key, negb (isSome k.2)) K) }.

Lemma filter_perm (p : key → bool) K K' : K ≡ₚ K' → List.filter p K ≡ₚ List.filter p K'.
Proof.
  induction 1; cbn; repeat case_match; try done; try by constructor. by etrans.
Qed.

Lemma hcount_perm h K K' : K ≡ₚ K' → hcount h K = hcount h K'.
Proof. intros E. unfold hcount, len. by rewrite (filter_perm _ _ _ E). Qed.

Lemma hcount_cons h k K : hcount h (k :: K) = (if of_helper h k then 1 else 0) + hcount h K.
Proof. unfold hcount, len. cbn. destruct (of_helper h k); cbn; lia. Qed.

Lemma hcount_zero h K : hcount h K = 0 ↔ ∀ x, (x, Some h) ∉ K.
Proof.
  induction K as [|[x o] K IH]; [split; [set_solver|done]|].
  rewrite hcount_cons. unfold of_helper at 1. cbn. case_bool_decide as E.
  - split; [unfold hcount, len; lia|]. intros Hx. destruct (Hx x). subst. left.
  - rewrite Z.add_0_l, IH. split; intros Hx y; [|set_solver].
    intros [?|?]%elem_of_cons; naive_solver.
Qed.

Lemma hcount_nonneg h K : 0 ≤ hcount h K.
Proof. unfold hcount, len. lia. Qed.

#[global] Instance split_ok_proper : Proper ((≡ₚ) ==> (=) ==> (=) ==> impl) split_ok.
Proof.
  intros K K' E H _ <- n _ <- [H1 H2 H3 H4 H5 H6]. split.
  - intros h b Hb. rewrite <-(hcount_perm _ _ _ E). by apply H1.
  - intros x h. rewrite <-E. apply H2.
  - done.
  - intros x o o'. rewrite <-!E. apply H4.
  - intros x x' h. rewrite <-!E. apply H5.
  - by rewrite <-(filter_perm _ _ _ E).
Qed.

(** The packets with outstanding bursts. *)
Definition ids K : gset Z := list_to_set K.*1.

Lemma elem_of_ids x K : x ∈ ids K ↔ ∃ o, (x, o) ∈ K.
Proof.
  unfold ids. rewrite elem_of_list_to_set, list_elem_of_fmap. split.
  - intros ([y o] & -> & ?). eauto.
  - intros [o ?]. by exists (x, o).
Qed.

Lemma ids_cons x o K : ids ((x, o) :: K) = {[x]} ∪ ids K.
Proof. done. Qed.

(** A new packet: of one burst, or of [S m] bursts with a fresh helper. *)
Lemma split_single x K H n : x ∉ ids K → split_ok K H n → split_ok ((x, None) :: K) H n.
Proof.
  intros Hx [H1 H2 H3 H4 H5 H6]. rewrite elem_of_ids in Hx. split.
  - intros h b Hb. rewrite hcount_cons. cbn. by apply H1.
  - intros y h [?|?]%elem_of_cons; [done|eauto].
  - done.
  - intros y o o' [?|?]%elem_of_cons [?|?]%elem_of_cons; naive_solver.
  - intros y y' h [?|?]%elem_of_cons [?|?]%elem_of_cons; naive_solver.
  - cbn. constructor; [|done]. rewrite list_elem_of_In, filter_In, <-list_elem_of_In. naive_solver.
Qed.

Lemma hcount_replicate h m x o :
  hcount h (replicate m (x, o)) = if bool_decide (o = Some h) then Z.of_nat m else 0.
Proof.
  induction m as [|m IH]; [by case_bool_decide|]. cbn [replicate]. rewrite hcount_cons, IH.
  unfold of_helper. cbn. case_bool_decide; lia.
Qed.

Lemma hcount_app h K K' : hcount h (K ++ K') = hcount h K + hcount h K'.
Proof. unfold hcount, len. rewrite List.filter_app, length_app. lia. Qed.

Lemma split_many x m sv K H n :
  x ∉ ids K → split_ok K H n →
  split_ok (replicate (S m) (x, Some n) ++ K) (<[n := mkHelper (Z.of_nat (S m) + sv) sv]> H) (S n).
Proof.
  intros Hx [H1 H2 H3 H4 H5 H6]. rewrite elem_of_ids in Hx.
  assert (Hn : ∀ y, (y, Some n) ∉ K).
  { intros y Hy. apply H2 in Hy as [? Hy]. rewrite H3 in Hy by lia. done. }
  assert (Hin : ∀ k, k ∈ replicate (S m) (x, Some n) ++ K → k = (x, Some n) ∨ k ∈ K).
  { intros k [Hk|]%elem_of_app; [|by right]. apply elem_of_replicate in Hk as [-> _]. by left. }
  split.
  - intros h b. rewrite hcount_app, hcount_replicate. destruct (decide (n = h)) as [<-|Hne].
    + rewrite lookup_insert_eq. intros [= <-]. cbn. rewrite bool_decide_true by done.
      rewrite (proj2 (hcount_zero n K)) by done. lia.
    + rewrite lookup_insert_ne by done. intros Hb. rewrite bool_decide_false by congruence.
      destruct (H1 h b Hb). lia.
  - intros y h [[= -> ->]|Hk]%Hin; [by rewrite lookup_insert_eq|].
    apply lookup_insert_is_Some'. right. eauto.
  - intros h Hh. rewrite lookup_insert_ne by lia. apply H3. lia.
  - intros y o o' [?|?]%Hin [?|?]%Hin; naive_solver.
  - intros y y' h [?|?]%Hin [?|?]%Hin; naive_solver.
  - rewrite List.filter_app. assert (∀ j, List.filter (λ k : key, negb (isSome k.2))
      (replicate j (x, Some n)) = []) as -> by (intros j; by induction j). done.
Qed.

(** One burst of a packet is done. *)
Lemma split_pop_single x K H n :
  split_ok ((x, None) :: K) H n → split_ok K H n ∧ x ∉ ids K.
Proof.
  intros [H1 H2 H3 H4 H5 H6]. cbn in H6. apply NoDup_cons in H6 as [Hx H6].
  assert (Hi : x ∉ ids K).
  { rewrite elem_of_ids. intros [o Ho]. rewrite (H4 x o None) in Ho by set_solver.
    apply Hx. rewrite list_elem_of_In, filter_In, <-list_elem_of_In. done. }
  split; [split|done].
  - intros h b Hb. specialize (H1 h b Hb). rewrite hcount_cons in H1. done.
  - set_solver. - done. - set_solver. - set_solver. - done.
Qed.

Lemma split_pop x h K H n :
  split_ok ((x, Some h) :: K) H n →
  ∃ b, H !! h = Some b ∧
    if burstsServiced b + 1 =? burstCount b then split_ok K (delete h H) n ∧ x ∉ ids K
    else split_ok K (<[h := b <| burstsServiced ::= Z.succ |>]> H) n ∧ x ∈ ids K.
Proof.
  intros [H1 H2 H3 H4 H5 H6]. destruct (H2 x h) as [b Hb]; [left|]. exists b. split; [done|].
  destruct (H1 h b Hb) as [Hc _]. rewrite hcount_cons in Hc. unfold of_helper in Hc. cbn in Hc.
  rewrite bool_decide_true in Hc by done.
  assert (Hoth : ∀ h' b', h' ≠ h → H !! h' = Some b' →
    burstsServiced b' + hcount h' K = burstCount b' ∧ 1 ≤ hcount h' K).
  { intros h' b' Hne Hb'. destruct (H1 h' b' Hb') as [? ?]. rewrite hcount_cons in *.
    unfold of_helper in *. cbn in *. rewrite bool_decide_false in * by congruence. lia. }
  destruct (Z.eqb_spec (burstsServiced b + 1) (burstCount b)) as [E|E].
  - assert (hcount h K = 0) as Hz by lia. pose proof (proj1 (hcount_zero h K) Hz) as Hno. split; [split|].
    + intros h' b' [Hne Hb']%lookup_delete_Some. apply Hoth; done.
    + intros y h' Hy. rewrite lookup_delete_ne; [apply (H2 y); by right|]. intros <-. by apply (Hno y).
    + intros h' Hh'. apply lookup_delete_None. right. by apply H3.
    + set_solver. + set_solver. + by cbn in H6.
    + rewrite elem_of_ids. intros [o Ho]. rewrite (H4 x o (Some h)) in Ho by set_solver.
      by apply (Hno x).
  - pose proof (hcount_nonneg h K). split; [split|].
    + intros h' b'. destruct (decide (h = h')) as [<-|Hne].
      * rewrite lookup_insert_eq. intros [= <-]. cbn. destruct (H1 h b Hb) as [_ Hge].
        assert (hcount h K ≠ 0); [|lia]. intros Hz. lia.
      * rewrite lookup_insert_ne by done. intros. by apply Hoth.
    + intros y h' Hy. apply lookup_insert_is_Some'. right. apply (H2 y). by right.
    + intros h' Hh'. rewrite lookup_insert_ne; [by apply H3|]. intros <-.
      rewrite H3 in Hb by done. done.
    + set_solver. + set_solver. + by cbn in H6.
    + rewrite elem_of_ids. assert (¬ ∀ y, (y, Some h) ∉ K) as Hn
        by (rewrite <-hcount_zero; lia).
      assert (∃ y, (y, Some h) ∈ K) as [y Hy].
      { clear -Hn. induction K as [|[y o] K IH]; [set_solver|].
        destruct (decide (o = Some h)) as [->|]; [exists y; left|].
        destruct IH as [z Hz]; [|exists z; by right].
        intros Hall. apply Hn. intros z [?|?]%elem_of_cons; naive_solver. }
      exists (Some h). rewrite (H5 x y h) by set_solver. done.
Qed.

(** ** The ledger of a controller *)

Definition keys (c : Ctrl) : list key :=
  (λ d, (did d, burstHelper d)) <$> readQueue c ++ respQueue c.
Definition waiting (c : Ctrl) : list Z := (λ d : deferred, pkt_id d.2) <$> transmitList (respPort c).

(** The accepted requests [A] that need a response, each exactly once, are
    outstanding, waiting in the port's queue or delivered ([D]). *)
Record ledger (A D : list Z) (c : Ctrl) : Prop :=
  { lg_split : split_ok (keys c) (helpers c) (nextHelper c);
    lg_need : Forall (λ d, needsResponse (cmd (dp_pkt d)) = true) (readQueue c ++ respQueue c);
    lg_nodup : NoDup A;
    lg_perm : A ≡ₚ elements (ids (keys c)) ++ waiting c ++ D }.

(** The fields the ledger reads. *)
Definition books (c : Ctrl) :=
  (readQueue c, respQueue c, helpers c, nextHelper c, respPort c).

Lemma ledger_books A D c c' : books c' = books c → ledger A D c → ledger A D c'.
Proof.
  unfold books. intros [= E1 E2 E3 E4 E5] [H1 H2 H3 H4].
  split; unfold keys, waiting in *; rewrite ?E1, ?E2, ?E3, ?E4, ?E5; done.
Qed.

(** The requests accepted that need a response, those answered, and the
    controller. *)
Abbreviation run_state := (list Z * list Z * Ctrl)%type.

Section ctrl.
Context `{P : DRAMParams} `{R : MemRange}.

Lemma accessAndRespond_books now pkt lat c c' :
  accessAndRespond now pkt lat c = Ok c' →
  readQueue c' = readQueue c ∧ respQueue c' = respQueue c ∧ helpers c' = helpers c ∧ nextHelper c' = nextHelper c ∧
  waiting c' ≡ₚ (if needsResponse (cmd pkt) then [pkt_id pkt] else []) ++ waiting c.
Proof.
  unfold accessAndRespond. intros H. apply bind_ok in H as ([p m] & Ha & H).
  apply access_id in Ha. destruct (needsResponse (cmd pkt)).
  - apply bind_ok in H as (_ & _ & H). unfold schedTimingResp in H.
    apply bind_ok in H as ([q d] & Hs & [= <-]). apply schedSendTiming_perm in Hs as [t Hs].
    split_and!; try done. unfold waiting. cbn. rewrite Hs. cbn. by rewrite Ha.
  - injection H as <-. done.
Qed.

Lemma kick_books now c c' : kick now c = Ok c' → books c' = books c.
Proof. unfold kick. case_match; intros; res_inv; done. Qed.

(** The loop of [addToReadQueue] appends bursts of the packet that share one
    helper. *)
Lemma push_read_books now pkt a sz h c c' :
  push_read now pkt a sz h c = Ok c' →
  ∃ d, readQueue c' = readQueue c ++ [d] ∧ dp_pkt d = pkt ∧ burstHelper d = h ∧
    respQueue c' = respQueue c ∧ helpers c' = helpers c ∧ nextHelper c' = nextHelper c ∧
    respPort c' = respPort c.
Proof.
  unfold push_read. intros H. apply bind_ok in H as (_ & _ & H). apply bind_ok in H as (d & Hd & H).
  apply bind_ok in H as (_ & _ & [= <-]). exists (d <| burstHelper := h |>).
  assert (dp_pkt d = pkt) as Ed.
  { unfold decodeAddr, make_dram_pkt in Hd. by res_inv. }
  destruct (isGPU pkt); cbn; done.
Qed.

Definition loop_inv (c : Ctrl) (pkt : Packet) (pktCount k : Z) (s : split_state) : Prop :=
  let '(c', _, serviced, h) := s in
  ∃ new, readQueue c' = readQueue c ++ new ∧
    Forall (λ d, dp_pkt d = pkt ∧ burstHelper d = h) new ∧ len new + serviced = k ∧ 0 ≤ serviced ∧
    respQueue c' = respQueue c ∧ respPort c' = respPort c ∧
    (if decide (1 < pktCount ∧ new ≠ [])
     then h = Some (nextHelper c) ∧ nextHelper c' = S (nextHelper c) ∧
          helpers c' = <[nextHelper c := mkHelper pktCount 0]> (helpers c)
     else h = None ∧ nextHelper c' = nextHelper c ∧ helpers c' = helpers c).

Lemma read_burst_inv c now pkt pktCount k s x s' :
  loop_inv c pkt pktCount k s → read_burst now pkt pktCount s x = Ok s' →
  loop_inv c pkt pktCount (k + 1) s'.
Proof.
  destruct s as [[[c1 a] sv] h]. intros (new & E1 & Hn & E2 & E0 & E3 & E4 & E5). unfold read_burst.
  intros H. apply bind_ok in H as (l & _ & H). case_match.
  - injection H as <-. exists new. split_and!; try done; lia.
  - assert (Hh : (1 <? pktCount) && negb (isSome h) = bool_decide (1 < pktCount ∧ new = [])).
    { case_decide as Ed; destruct E5 as (-> & _); cbn.
      - rewrite andb_false_r, bool_decide_false; naive_solver.
      - rewrite andb_true_r. destruct (Z.ltb_spec 1 pktCount).
        + rewrite bool_decide_true; [done|]. split; [done|]. destruct new; naive_solver.
        + rewrite bool_decide_false; [done|lia]. }
    rewrite Hh in H. clear Hh. case_bool_decide as Ec.
    + destruct Ec as [Hc ->]. rewrite decide_False in E5 by naive_solver. destruct E5 as (-> & F1 & F2).
      apply bind_ok in H as (c2 & Hp & [= <-]).
      apply push_read_books in Hp as (d & G1 & G2 & G3 & G4 & G5 & G6 & G7). cbn in *.
      exists [d]. rewrite G1, E1, app_nil_r. rewrite decide_True by done.
      split_and!; try done; try congruence.
      * constructor; [|done]. split; [done|]. by rewrite G3, F1.
      * unfold len in *. cbn in *. lia.
    + apply bind_ok in H as (c2 & Hp & [= <-]).
      apply push_read_books in Hp as (d & G1 & G2 & G3 & G4 & G5 & G6 & G7). cbn in *.
      exists (new ++ [d]). rewrite G1, E1, <-app_assoc. split_and!; try done; try congruence.
      * apply Forall_app. split; [done|]. by constructor.
      * unfold len in *. rewrite length_app. cbn in *. lia.
      * rewrite G5, G6. assert (new ++ [d] ≠ []) by by destruct new.
        destruct (decide (1 < pktCount ∧ new ≠ [])); destruct (decide (1 < pktCount ∧ new ++ [d] ≠ []));
          naive_solver.
Qed.

Lemma read_loop_inv c now pkt pktCount l s k s' :
  loop_inv c pkt pktCount k s → foldM (read_burst now pkt pktCount) s l = Ok s' →
  loop_inv c pkt pktCount (k + len l) s'.
Proof.
  revert s k. induction l as [|x l IH]; cbn [foldM]; intros s k Hi H.
  - injection H as <-. unfold len. cbn. by rewrite Z.add_0_r.
  - apply bind_ok in H as (s1 & H1 & H). eapply IH in H; [|by eapply read_burst_inv].
    replace (k + len (x :: l)) with (k + 1 + len l); [done|]. unfold len. cbn. lia.
Qed.

Lemma keys_new c c' pkt h new :
  readQueue c' = readQueue c ++ new → respQueue c' = respQueue c →
  Forall (λ d, dp_pkt d = pkt ∧ burstHelper d = h) new →
  keys c' ≡ₚ replicate (length new) (pkt_id pkt, h) ++ keys c.
Proof.
  unfold keys. intros -> -> Hn. rewrite !fmap_app.
  assert ((λ d, (did d, burstHelper d)) <$> new = replicate (length new) (pkt_id pkt, h)) as ->.
  { induction Hn as [|d l [E1 E2] _ IH]; [done|]. cbn. rewrite IH. unfold did. by rewrite E1, E2. }
  rewrite <-app_assoc, app_assoc, (Permutation_app_comm (_ <$> readQueue c)), <-app_assoc. done.
Qed.

Lemma ids_perm K K' : K ≡ₚ K' → ids K = ids K'.
Proof. intros E. unfold ids. apply leibniz_equiv. by rewrite E. Qed.

Lemma fresh_ids A D c x : ledger A D c → x ∉ A → x ∉ ids (keys c).
Proof.
  intros Hl Hx Hi. apply Hx. rewrite (lg_perm _ _ _ Hl). apply elem_of_app. left. by apply elem_of_elements.
Qed.

(** The ledger after a new packet has outstanding bursts, and after a packet has
    been answered. *)
Lemma ledger_open A D c c' x :
  ledger A D c → x ∉ A →
  Forall (λ d, needsResponse (cmd (dp_pkt d)) = true) (readQueue c' ++ respQueue c') → split_ok (keys c') (helpers c') (nextHelper c') →
  ids (keys c') = {[x]} ∪ ids (keys c) → respPort c' = respPort c → ledger (x :: A) D c'.
Proof.
  intros Hl Hx Hd Hs Hi Hp. pose proof (fresh_ids _ _ _ _ Hl Hx) as Hni.
  destruct Hl as [_ _ Hnd Hpm]. split; [done|done|by constructor|]. rewrite Hi, elements_union_singleton by done.
  unfold waiting in *. rewrite Hp, Hpm. done.
Qed.

Lemma ledger_answer A D now pkt lat c c' :
  ledger A D c → needsResponse (cmd pkt) = true → pkt_id pkt ∉ A →
  accessAndRespond now pkt lat c = Ok c' → ledger (pkt_id pkt :: A) D c'.
Proof.
  intros [Hs Hd Hnd Hpm] Hr Hx (E1 & E2 & E3 & E4 & Hw)%accessAndRespond_books. rewrite Hr in Hw.
  assert (Hk : keys c' = keys c) by (unfold keys; by rewrite E1, E2).
  split; rewrite ?Hk, ?E1, ?E2, ?E3, ?E4; [done..|by constructor|].
  rewrite Hw, Hpm. cbn. by rewrite <-Permutation_middle.
Qed.

Lemma ledger_silent A D now pkt lat c c' :
  ledger A D c → needsResponse (cmd pkt) = false →
  accessAndRespond now pkt lat c = Ok c' → ledger A D c'.
Proof.
  intros [Hs Hd Hnd Hpm] Hr (E1 & E2 & E3 & E4 & Hw)%accessAndRespond_books. rewrite Hr in Hw.
  assert (Hk : keys c' = keys c) by (unfold keys; by rewrite E1, E2).
  split; rewrite ?Hk, ?E1, ?E2, ?E3, ?E4; [done..|]. by rewrite Hw.
Qed.

Lemma addToReadQueue_ledger now pkt n c c' A D :
  0 < n → needsResponse (cmd pkt) = true → pkt_id pkt ∉ A → ledger A D c →
  addToReadQueue now pkt n c = Ok c' → ledger (pkt_id pkt :: A) D c'.
Proof.
  intros Hn Hr Hx Hl. unfold addToReadQueue. intros H.
  apply bind_ok in H as (_ & _ & H). apply bind_ok in H as (_ & _ & H).
  apply bind_ok in H as ([[[c1 a1] sv] h] & Hloop & H).
  apply (read_loop_inv c now pkt n _ _ 0) in Hloop as (new & E1 & Hf & E2 & E0 & E3 & E4 & E5).
  2:{ exists []. rewrite app_nil_r, decide_False by naive_solver. done. }
  assert (Elen : len (seqZ 0 n) = n) by (unfold len; rewrite length_seqZ; lia).
  rewrite Elen, Z.add_0_l in E2. pose proof (fresh_ids _ _ _ _ Hl Hx) as Hfresh.
  destruct (Z.eqb_spec sv n) as [->|Hne].
  - assert (new = []) as -> by (apply nil_length_inv; unfold len in E2; lia).
    rewrite app_nil_r in E1. rewrite decide_False in E5 by naive_solver. destruct E5 as (_ & F1 & F2).
    assert (ledger A D c1) as Hl1
      by (apply (ledger_books A D c); [unfold books; congruence|done]).
    by eapply ledger_answer.
  - apply kick_books in H. apply (ledger_books _ _ _ _ H). clear H c'.
    assert (Hnew : new ≠ []) by (intros ->; unfold len in E2; cbn in E2; lia).
    pose proof (keys_new c c1 pkt h new E1 E3 Hf) as Hk.
    assert (Hids : ids (keys c1) = {[pkt_id pkt]} ∪ ids (keys c)).
    { rewrite (ids_perm _ _ Hk). apply leibniz_equiv. intros y.
      rewrite elem_of_union, elem_of_singleton, !elem_of_ids.
      setoid_rewrite elem_of_app. setoid_rewrite elem_of_replicate. split; [naive_solver|].
      intros [->|?]; [|naive_solver]. exists h. left. split; [done|]. by destruct new. }
    assert (Hneed : Forall (λ d, needsResponse (cmd (dp_pkt d)) = true) (readQueue c1 ++ respQueue c1)).
    { pose proof (lg_need _ _ _ Hl) as Hd. rewrite E1, E3. rewrite !Forall_app in *. destruct Hd as [Hd1 Hd2].
      split; [split; [done|]|done]. eapply Forall_impl; [exact Hf|]. intros d [-> _]. done. }
    destruct (decide (1 < n)) as [Hn1|Hn1].
    + rewrite decide_True in E5 by done. destruct E5 as (-> & F1 & F2).
      apply (ledger_open A D c); [done|done|done| |done|done].
      destruct new as [|d new]; [done|]. cbn [length] in Hk.
      pose proof (split_many (pkt_id pkt) (length new) sv _ _ _ Hfresh (lg_split _ _ _ Hl)) as Hs.
      change (keys (c1 <| helpers ::= _ |>)) with (keys c1). rewrite Hk. cbn [helpers nextHelper set_field].
      rewrite F1, F2, alter_insert_eq. cbn.
      replace n with (Z.of_nat (S (length new)) + sv) by (unfold len in E2; cbn in E2; lia). done.
    + rewrite decide_False in E5 by naive_solver. destruct E5 as (-> & F1 & F2).
      apply (ledger_open A D c); [done|done|done| |done|done].
      assert (length new = 1%nat) as E by (destruct new; unfold len in *; cbn in *; [done|lia]).
      rewrite E in Hk. cbn in Hk. rewrite Hk, F1, F2. apply split_single; [done|apply Hl].
Qed.

(** ** Requests *)

Lemma write_burst_books now pkt s x s' :
  write_burst now pkt s x = Ok s' → books s'.1 = books s.1.
Proof.
  destruct s as [c a]. unfold write_burst. intros H. apply bind_ok in H as (l & _ & H).
  case_match; [by injection H as <-|]. apply bind_ok in H as (c1 & Hp & [= <-]).
  unfold push_write in Hp. apply bind_ok in Hp as (_ & _ & Hp). apply bind_ok in Hp as (d & _ & Hp).
  apply bind_ok in Hp as (_ & _ & Hp). apply bind_ok in Hp as (_ & _ & [= <-]).
  destruct (isGPU pkt); done.
Qed.

Lemma write_loop_books now pkt s l s' :
  foldM (write_burst now pkt) s l = Ok s' → books s'.1 = books s.1.
Proof.
  intros H. eapply (foldM_ind (λ t, books t.1 = books s.1)); [|done|exact H].
  intros t x t' _ E Hs. apply write_burst_books in Hs. congruence.
Qed.

(** The responses that a request will get. *)
Definition owed (pkt : Packet) : list Z :=
  if needsResponse (cmd pkt) && negb (memInhibit pkt || bool_decide (cmd pkt = CleanEvict))
  then [pkt_id pkt] else [].

Lemma ledger_direct A D now pkt lat c c' :
  ledger A D c → pkt_id pkt ∉ A →
  accessAndRespond now pkt lat c = Ok c' →
  ledger ((if needsResponse (cmd pkt) then [pkt_id pkt] else []) ++ A) D c'.
Proof.
  intros Hl Hx H. destruct (needsResponse (cmd pkt)) eqn:E;
    [by eapply ledger_answer|by eapply ledger_silent].
Qed.

Definition read_needs (c : Command) : bool :=
  negb (isRead c && isRequest c) || needsResponse c.

Lemma read_needsResponse c : isRead c = true → isRequest c = true → needsResponse c = true.
Proof.
  intros Hr Hq. pose proof (commands_forall read_needs eq_refl c) as H. unfold read_needs in H.
  by rewrite Hr, Hq in H.
Qed.

Lemma recvTimingReq_ledger A D now pkt c b c' :
  0 < burstSize → 0 ≤ size pkt → isRequest (cmd pkt) = true → pkt_id pkt ∉ A → ledger A D c →
  recvTimingReq now pkt c = Ok (b, c') →
  ledger ((if b then owed pkt else []) ++ A) D c'.
Proof.
  intros Hb Hsz Hq Hx Hl. unfold recvTimingReq, owed.
  destruct (memInhibit pkt || bool_decide (cmd pkt = CleanEvict)).
  { intros [= <- <-]. rewrite andb_false_r. by apply (ledger_books _ _ c). }
  rewrite andb_true_r. cbn [negb andb]. set (c1 := arrival now _).
  assert (Hl1 : ledger A D c1).
  { apply (ledger_books _ _ c); [|done]. unfold c1, arrival. by destruct (_ =? 0). }
  clearbody c1. clear c Hl. set (n := divCeil _ _). destruct (isRead (cmd pkt)) eqn:Er.
  - intros H. apply bind_ok in H as (_ & Hs%assert_ok & H). apply negb_true_iff, Z.eqb_neq in Hs.
    destruct (readQueueFull n c1); [injection H as <- <-; by apply (ledger_books _ _ c1)|].
    apply bind_ok in H as (c2 & Ha & [= <- <-]). rewrite read_needsResponse by done.
    apply (ledger_books _ _ c2); [done|]. eapply addToReadQueue_ledger, Ha; try done.
    + pose proof (divCeil_spec (Z.land (addr pkt) (burstSize - 1) + size pkt) burstSize Hb) as Hd.
      fold n in Hd. assert (0 ≤ Z.land (addr pkt) (burstSize - 1)) by (apply Z.land_nonneg; lia). nia.
    + by apply read_needsResponse.
  - destruct (isWrite (cmd pkt)) eqn:Ew.
    + intros H. apply bind_ok in H as (_ & _ & H).
      destruct (writeQueueFull n c1); [injection H as <- <-; by apply (ledger_books _ _ c1)|].
      apply bind_ok in H as (c2 & Ha & [= <- <-]). apply (ledger_books _ _ c2); [done|].
      unfold addToWriteQueue in Ha. apply bind_ok in Ha as (_ & _ & Ha).
      apply bind_ok in Ha as (s & Hloop & Ha). apply bind_ok in Ha as (c3 & Ha & Hk).
      apply kick_books in Hk. apply (ledger_books _ _ _ _ Hk). apply write_loop_books in Hloop.
      eapply ledger_direct; [by apply (ledger_books _ _ _ _ Hloop)|done|done].
    + intros H. apply bind_ok in H as (c2 & Ha & [= <- <-]).
      eapply ledger_direct, Ha; [by apply (ledger_books _ _ c1)|done].
Qed.

(** ** Responses *)

Lemma next_response_books now c c' : next_response now c = Ok c' → books c' = books c.
Proof.
  unfold next_response. destruct (respQueue c) eqn:E.
  - intros [= <-]. by destruct (draining c && _ && _).
  - intros. res_inv. done.
Qed.

(** The last burst of a packet is answered; the others are not. *)
Lemma processRespondEvent_ledger A D now c c' :
  ledger A D c → processRespondEvent now c = Ok c' → ledger A D c'.
Proof.
  intros Hl. unfold processRespondEvent. set (c0 := c <| respondEvent := None |>).
  assert (Hl0 : ledger A D c0) by by apply (ledger_books _ _ c). clearbody c0. clear c Hl.
  destruct (respQueue c0) as [|d rest] eqn:Eq; [done|]. intros H.
  apply bind_ok in H as (c1 & H1 & H). apply bind_ok in H as (c2 & H2 & [= <-]).
  apply next_response_books in H2.
  apply (ledger_books _ _ c2); [unfold retry_read; by destruct (retryRdReq c2)|].
  apply (ledger_books _ _ _ _ H2). clear c2 H2. destruct Hl0 as [Hs Hd Hnd Hp].
  assert (Hk : keys c0 ≡ₚ (did d, burstHelper d) :: keys (c0 <| respQueue := rest |>)).
  { unfold keys. rewrite Eq. cbn. rewrite !fmap_app. cbn. by rewrite <-Permutation_middle. }
  rewrite Eq in Hd. apply Forall_app in Hd as [Hd1 [Hd2 Hd3]%Forall_cons].
  assert (Hneed : Forall (λ d, needsResponse (cmd (dp_pkt d)) = true) (readQueue c0 ++ rest))
    by (by apply Forall_app).
  rewrite Hk in Hs. rewrite (ids_perm _ _ Hk), ids_cons in Hp.
  set (x := did d) in *. set (K := keys (c0 <| respQueue := rest |>)) in *.
  (** the answer of the packet *)
  assert (Hans : ∀ c3 c4, readQueue c3 = readQueue c0 → respQueue c3 = respQueue c0 →
    respPort c3 = respPort c0 → split_ok K (helpers c3) (nextHelper c3) → x ∉ ids K →
    accessAndRespond now (dp_pkt d) (frontendLatency + backendLatency) c3 = Ok c4 →
    ledger A D (c4 <| respQueue := rest |>)).
  { intros c3 c4 E1 E2 E3 Hs3 Hx (F1 & F2 & F3 & F4 & Hw)%accessAndRespond_books.
    assert (keys (c4 <| respQueue := rest |>) = K) as Ek by (unfold K, keys; cbn; by rewrite F1, E1).
    split; rewrite ?Ek; cbn; rewrite ?F1, ?F3, ?F4, ?E1; [done..|].
    rewrite Hp, elements_union_singleton by done. unfold waiting in *. cbn. rewrite Hw, Hd2, E3.
    fold x. cbn. by rewrite <-Permutation_middle. }
  destruct (burstHelper d) as [h|] eqn:Eh.
  - apply bind_ok in H1 as ([b c3] & Hb & H1). unfold burst_done in Hb.
    destruct (split_pop x h K _ _ Hs) as (bh & Hbh & Hpop). rewrite Hbh in Hb.
    cbn [burstsServiced burstCount set_field] in Hb. change (Z.succ ?z) with (z + 1) in Hb.
    destruct (burstsServiced bh + 1 =? burstCount bh); injection Hb as <- <-; destruct Hpop as [Hs' Hx].
    + by eapply (Hans _ _ _ _ _ _ _ H1).
    + injection H1 as <-. split; cbn; try done.
      change (keys _) with K. rewrite Hp. unfold waiting. cbn.
      by rewrite (subseteq_union_1_L {[x]} (ids K)) by set_solver.
  - destruct (split_pop_single x K _ _ Hs) as [Hs' Hx]. by eapply (Hans c0 c1).
Unshelve. all: done.
Qed.

(** ** The request loop *)

Lemma take_selected_perm q o b q' : take_selected q o = (b, q') → q' ≡ₚ q.
Proof. destruct o; intros [= <- <-]; [apply move_to_front_perm|done]. Qed.

Lemma choose_perm rs now busy q x b q' : chooseNext rs now busy q x = Ok (b, q') → q' ≡ₚ q.
Proof.
  unfold chooseNext. intros H. apply bind_ok in H as (_ & _ & H).
  assert (Hsel : ∀ o, Ok (take_selected q o) = Ok (b, q') → q' ≡ₚ q).
  { intros o [= E]. by eapply take_selected_perm. }
  destruct q as [|d [|d' q]]; [|by injection H as _ <-|];
    (destruct memSchedPolicy;
      [unfold choose_fcfs in H|unfold reorderQueue in H|unfold choose_cpu_fcfs in H|unfold reorderQueueCPUPrio in H];
      repeat (apply bind_ok in H as (? & _ & H)); by eapply Hsel).
Qed.

Lemma doDRAMAccess_pkt now rq wq d s d' s' :
  doDRAMAccess now rq wq d s = Ok (d', s') → dp_pkt d' = dp_pkt d ∧ burstHelper d' = burstHelper d.
Proof.
  unfold doDRAMAccess, dram_access. intros H. apply bind_ok in H as ([[[d1 s1] rh] t] & H1 & [= <- _]).
  apply bind_ok in H1 as ([s2 t2] & _ & H1). apply bind_ok in H1 as (s3 & _ & [= <- _ _ _]). done.
Qed.

Lemma push_response_books now d c c' :
  push_response now d c = Ok c' →
  readQueue c' = readQueue c ∧ respQueue c' = respQueue c ++ [d] ∧ helpers c' = helpers c ∧
  nextHelper c' = nextHelper c ∧ respPort c' = respPort c.
Proof.
  unfold push_response. intros H. apply bind_ok in H as (c1 & H1 & [= <-]). cbn.
  destruct (last (respQueue c)); res_inv; done.
Qed.

(** Only the order of the bursts and their ready times matter to the loop. *)
Lemma ledger_moved A D c c' :
  keys c' ≡ₚ keys c → (dp_pkt <$> readQueue c' ++ respQueue c') ≡ₚ (dp_pkt <$> readQueue c ++ respQueue c) →
  helpers c' = helpers c → nextHelper c' = nextHelper c → respPort c' = respPort c →
  ledger A D c → ledger A D c'.
Proof.
  intros Hk Hd E1 E2 E3 [H1 H2 H3 H4]. split.
  - rewrite Hk, E1, E2. done.
  - assert (Hf : ∀ l : list DRAMPacket, Forall (λ d, needsResponse (cmd (dp_pkt d)) = true) l ↔
      Forall (λ p, needsResponse (cmd p) = true) (dp_pkt <$> l)) by (intros; by rewrite Forall_fmap).
    rewrite Hf, Hd, <-Hf. done.
  - done.
  - unfold waiting in *. by rewrite (ids_perm _ _ Hk), E3.
Qed.

Lemma next_read_ledger A D now sw c b c' :
  ledger A D c → next_read now sw c = Ok (b, c') → ledger A D c'.
Proof.
  intros Hl. unfold next_read. destruct (readQueue c) as [|d0 q0] eqn:Eq.
  { case_match; intros [= _ <-]; [by apply (ledger_books _ _ c)|].
    apply (ledger_books _ _ c); [by destruct (draining c && bool_decide (respQueue c = []))|done]. }
  rewrite <-Eq. intros H. apply bind_ok in H as ([found q] & Hc & H). apply choose_perm in Hc.
  assert (Hl1 : ledger A D (c <| readQueue := q |>)).
  { apply (ledger_moved _ _ c); try done; unfold keys; cbn; by rewrite Hc. }
  destruct found; cbn [negb] in H; [|by injection H as _ <-].
  destruct q as [|d rest]; [done|]. apply bind_ok in H as (_ & _ & H).
  apply bind_ok in H as ([d1 s1] & Ha & H). apply doDRAMAccess_pkt in Ha as [E1 E2].
  apply bind_ok in H as (_ & _ & H). apply bind_ok in H as (_ & _ & H).
  apply bind_ok in H as (c2 & Hp & [= _ <-]). apply push_response_books in Hp as (F1 & F2 & F3 & F4 & F5).
  cbn in F1, F2, F3, F4, F5.
  apply (ledger_books _ _ c2); [by destruct (_ <? _)|].
  apply (ledger_moved _ _ _ c2) in Hl1; [done|..]; try done; unfold keys; rewrite F1, F2; cbn;
    rewrite !fmap_app; cbn; rewrite ?E1, ?E2; unfold did; rewrite ?E1;
    by rewrite app_assoc, (Permutation_app_comm _ [_]).
Qed.

Lemma next_write_ledger A D now sw c b c' :
  ledger A D c → next_write now sw c = Ok (b, c') → ledger A D c'.
Proof.
  intros Hl. unfold next_write. intros H. apply bind_ok in H as ([found q] & Hc & H).
  destruct found; cbn [negb] in H; [|injection H as _ <-; by apply (ledger_books _ _ c)].
  destruct q as [|d rest]; [done|]. apply bind_ok in H as (_ & _ & H).
  apply bind_ok in H as (_ & _ & H). apply bind_ok in H as ([d1 s1] & Ha & [= _ <-]).
  apply (ledger_books _ _ c); [|done]. by destruct (_ || _).
Qed.

Lemma finish_req_books now c c' : finish_req now c = Ok c' → books c' = books c.
Proof.
  unfold finish_req. intros H. apply bind_ok in H as (c1 & H1 & [= <-]).
  assert (books c1 = books c) by (destruct (scheduled _); res_inv; done).
  by destruct (_ && _).
Qed.

Lemma processNextReqEvent_ledger A D now c c' :
  ledger A D c → processNextReqEvent now c = Ok c' → ledger A D c'.
Proof.
  intros Hl. unfold processNextReqEvent. intros H. apply bind_ok in H as ([busy s] & _ & H).
  match type of H with context [turn_around ?x] => set (c1 := x) in H end.
  assert (Hl1 : ledger A D c1) by by apply (ledger_books _ _ c). clearbody c1. clear c Hl.
  case_match; [by injection H as <-|].
  destruct (turn_around c1) as [sw c2] eqn:Et.
  assert (Hl2 : ledger A D c2).
  { apply (ledger_books _ _ c1); [|done]. unfold turn_around in Et. by destruct (busState c1); simplify_eq. }
  apply bind_ok in H as ([go c3] & H3 & H).
  assert (Hl3 : ledger A D c3) by (case_bool_decide; [by eapply next_read_ledger|by eapply next_write_ledger]).
  cbn in H. destruct go; [|by injection H as <-].
  apply finish_req_books in H. by apply (ledger_books _ _ _ _ H).
Qed.

(** ** Runs *)

(** The port offers its first response. *)
Lemma sendDeferred_list now dr acc q q' d b :
  sendDeferredPacket now dr (answers acc) q = Ok (q', d, b) →
  transmitList q = d :: (if acc then transmitList q' else tail (transmitList q')) ∧
  (acc = false → transmitList q' = transmitList q).
Proof.
  unfold sendDeferredPacket. intros H. apply bind_ok in H as (_ & _ & H). apply bind_ok in H as (_ & _ & H).
  destruct (transmitList q) as [|f l]; [done|].
  destruct acc; cbn [answers mbind res_bind fst snd negb set_field waitingOnRetry transmitList sendEvent] in H.
  - apply bind_ok in H as ([q1 b1] & Hs & [= <- <- _]). apply schedSendEvent_list in Hs.
    cbn in *. by rewrite Hs.
  - injection H as <- <- _. done.
Qed.

Inductive rank_event : Set := Activate | Precharge | Refresh | Power.
Definition process_rank (now : Tick) (e : rank_event) (r : Z) : st → res st :=
  match e with
  | Activate => processActivateEvent now r
  | Precharge => processPrechargeEvent now r
  | Refresh => processRefreshEvent now r
  | Power => processPowerEvent now r
  end.

Inductive cop : Type :=
| CReq (pkt : Packet)
| CNext
| CRespond
| CRank (e : rank_event) (r : Z)
| CSend (accepted : bool)
| CRetry (accepted : bool).

Definition sent (accepted : bool) (o : PacketQueue * deferred * bool) (s : run_state) : run_state :=
  let '(A, D, c) := s in
  let '(q, d, _) := o in
  (A, if accepted then pkt_id d.2 :: D else D, c <| respPort := q |>).

(** A request has an identity of its own; events fire at their tick. *)
Definition cstep (s : run_state) (x : Tick * cop) : res run_state :=
  let '(A, D, c) := s in
  let now := x.1 in
  match x.2 with
  | CReq pkt =>
      if isRequest (cmd pkt) && (0 <=? size pkt) && negb (bool_decide (pkt_id pkt ∈ A)) then
        bc ← recvTimingReq now pkt c;
        Ok ((if bc.1 : bool then owed pkt else []) ++ A, D, bc.2)
      else Ok s
  | CNext =>
      if bool_decide (nextReqEvent c = Some now)
      then c ← processNextReqEvent now c; Ok (A, D, c) else Ok s
  | CRespond =>
      if bool_decide (respondEvent c = Some now)
      then c ← processRespondEvent now c; Ok (A, D, c) else Ok s
  | CRank e r =>
      t ← process_rank now e r (chan c, nextReqEvent c);
      Ok (A, D, c <| chan := t.1 |> <| nextReqEvent := t.2 |>)
  | CSend acc =>
      if bool_decide (sendEvent (respPort c) = Some now)
      then o ← processSendEvent now (portDraining c) (answers acc) (respPort c); Ok (sent acc o s) else Ok s
  | CRetry acc =>
      if waitingOnRetry (respPort c)
      then o ← retry now (portDraining c) (answers acc) (respPort c); Ok (sent acc o s) else Ok s
  end.

Lemma sent_ledger A D c acc q d b q0 now dr :
  ledger A D c → transmitList q0 = transmitList (respPort c) →
  sendDeferredPacket now dr (answers acc) q0 = Ok (q, d, b) →
  let '(A', D', c') := sent acc (q, d, b) (A, D, c) in ledger A' D' c'.
Proof.
  intros [H1 H2 H3 H4] E Hs. apply sendDeferred_list in Hs as [Hl Hr]. unfold sent. split; try done.
  change (keys _) with (keys c). rewrite H4. unfold waiting. cbn. rewrite <-E.
  destruct acc; [|by rewrite Hr]. rewrite Hl. cbn.
  apply Permutation_app_head. by rewrite <-Permutation_middle.
Qed.

Lemma cstep_ledger s x s' :
  0 < burstSize → ledger s.1.1 s.1.2 s.2 → cstep s x = Ok s' → ledger s'.1.1 s'.1.2 s'.2.
Proof.
  destruct s as [[A D] c], x as [now op]. cbn [fst snd]. intros Hb Hl. unfold cstep. cbn [fst snd].
  destruct op as [pkt| | |e r|acc|acc].
  - case_match eqn:Hg; [|by intros [= <-]]. apply andb_true_iff in Hg as [Hg Hx].
    apply andb_true_iff in Hg as [Hq Hsz]. apply Z.leb_le in Hsz. apply negb_true_iff, bool_decide_eq_false in Hx.
    intros H. apply bind_ok in H as ([b c'] & Hr & [= <-]). cbn [fst snd].
    by eapply recvTimingReq_ledger.
  - case_bool_decide; [|by intros [= <-]]. intros H'. apply bind_ok in H' as (c' & Hn & [= <-]).
    by eapply processNextReqEvent_ledger.
  - case_bool_decide; [|by intros [= <-]]. intros H'. apply bind_ok in H' as (c' & Hn & [= <-]).
    by eapply processRespondEvent_ledger.
  - intros H. apply bind_ok in H as (t & _ & [= <-]). by apply (ledger_books _ _ c).
  - case_bool_decide; [|by intros [= <-]]. intros H'. apply bind_ok in H' as ([[q d] b] & Hn & [= <-]).
    unfold processSendEvent in Hn. apply bind_ok in Hn as (_ & _ & Hn).
    by eapply (sent_ledger A D c acc q d b) in Hn.
  - case_match; [|by intros [= <-]]. intros H'. apply bind_ok in H' as ([[q d] b] & Hn & [= <-]).
    unfold retry in Hn. apply bind_ok in Hn as (_ & _ & Hn).
    by eapply (sent_ledger A D c acc q d b) in Hn.
Qed.

Lemma run_ledger s l s' :
  0 < burstSize → ledger s.1.1 s.1.2 s.2 → foldM cstep s l = Ok s' → ledger s'.1.1 s'.1.2 s'.2.
Proof.
  intros Hb Hl. apply (foldM_ind (λ s, ledger s.1.1 s.1.2 s.2)); [|done].
  intros t x t' _. by apply cstep_ledger.
Qed.

Lemma new_ledger s : ledger [] [] (new_ctrl <| chan := s |>).
Proof.
  split; [|constructor|constructor|done]. split; try done; cbn.
  - intros x h ?%not_elem_of_nil. done.
  - intros x o o' ?%not_elem_of_nil. done.
  - intros x x' h ?%not_elem_of_nil. done.
  - constructor.
Qed.

(** C2: the controller answers every request exactly once.  After every run of
    requests, request-loop and response events, rank events and (refused or
    accepted) sends, the accepted requests that need a response are distinct and
    each is either outstanding (some of its bursts wait in the read or response
    queue), or waiting in the port, or delivered, and nothing else is; in
    particular all are delivered once the queues are empty. *)
Theorem requests_answered_once s l A D c :
  0 < burstSize → foldM cstep ([], [], new_ctrl <| chan := s |>) l = Ok (A, D, c) →
  NoDup A ∧ A ≡ₚ elements (ids (keys c)) ++ waiting c ++ D ∧
  (readQueue c = [] → respQueue c = [] → transmitList (respPort c) = [] → D ≡ₚ A).
Proof.
  intros Hb Hrun. apply run_ledger in Hrun as [_ _ Hnd Hp]; [|done|apply new_ledger]. cbn in *.
  split_and!; [done|done|]. intros E1 E2 E3. rewrite Hp. unfold keys, waiting. by rewrite E1, E2, E3.
Qed.
End ctrl.

(** A read of two bursts and a write, whose response the port first refuses. *)
Definition ex_range : MemRange := mkRange 0 (2 ^ 30).
Definition ex_chan : Chan :=
  match @startup HMC_2500_x32_Cache 0 (@new_chan HMC_2500_x32_Cache) with
  | Ok s => s
  | Fault _ => @new_chan HMC_2500_x32_Cache
  end.
Definition ex_start : run_state :=
  ([], [], (@new_ctrl HMC_2500_x32_Cache) <| chan := ex_chan |>).
Definition ex_events : list (Tick * cop) :=
  [(1000, CReq (read_pkt 1 256 0)); (1000, CNext); (2000, CReq (write_pkt 2 4096 31 7));
   (3200, CNext); (6400, CNext); (12000, CSend false); (12500, CRetry true);
   (31000, CRespond); (34200, CRespond); (54200, CSend true)].
Abbreviation ex_run := (foldM (@cstep HMC_2500_x32_Cache ex_range) ex_start ex_events).

Lemma requests_answered_once_witness :
  match ex_run with
  | Ok (A, D, c) => A = [2; 1] ∧ D = [1; 2] ∧ NoDup A ∧
      A ≡ₚ elements (ids (keys c)) ++ waiting c ++ D
  | Fault _ => False
  end.
Proof.
  assert (E0 : (s ← ex_run; Ok s.1) = Ok ([2; 1], [1; 2])) by (vm_compute; reflexivity).
  pose proof (λ A D c, @requests_answered_once HMC_2500_x32_Cache ex_range ex_chan ex_events A D c
    ltac:(cbn; lia)) as H. fold ex_start in H.
  destruct ex_run as [[[A D] c]|]; [|discriminate]. injection E0 as -> ->.
  destruct (H _ _ _ eq_refl) as (H1 & H2 & _). done.
Defined.
End DramCtrlProofs.
