(* ===== verification/DramLoop.v ===== *)
(** * The request loop of the memory controller comes to rest

    While no rank refreshes, every event of [processNextReqEvent] succeeds, and
    the chain of events that each one schedules ends: all reads are served, and
    of the writes at most those stay that the low threshold keeps back. *)

From S2P Require Import Prelude Intmath Packet AbstractMem DramTypes Config PacketQueue DramInit.
From S2P Require Import DramAddr DramSched DramTiming DramProtocol DramRefresh DramCtrl DramCtrlProofs.
Import Intmath Packet DramInit DramAddr DramSched DramTiming DramProtocol DramRefresh DramCtrl DramCtrlProofs.

Module DramLoop.
Section loop.
Context `{P : DRAMParams} (grp : Z → Z → Z) (VT : valid_timing) (GEO : sched_geometry).

(** ** Accesses do not touch the refresh states *)

Abbreviation states s := (refreshState <$> ranks s).

Lemma upd_rank_states r (f : Rank → Rank) rs :
  refreshState (f (rank_at rs r)) = refreshState (rank_at rs r) →
  refreshState <$> upd_rank r f rs = refreshState <$> rs.
Proof.
  intros H. apply list_eq. intros i. rewrite !list_lookup_fmap. unfold upd_rank.
  destruct (decide (i = Z.to_nat r)) as [->|]; [|by rewrite list_lookup_alter_ne].
  rewrite list_lookup_alter, decide_True by done. unfold rank_at in H. rewrite list_lookup_total_alt in H.
  destruct (rs !! Z.to_nat r); cbn in *; by rewrite ?H.
Qed.

Lemma activate_rank_state now b a row rk rk' :
  activate_rank now b a row rk = Ok rk' → refreshState rk' = refreshState rk.
Proof.
  unfold activate_rank. intros H. res_inv. unfold enforce_xaw in E2.
  repeat case_match; res_inv; done.
Qed.

Lemma precharge_rank_state now b a rk rk' :
  precharge_rank now b a rk = Ok rk' → refreshState rk' = refreshState rk.
Proof. unfold precharge_rank. intros H. res_inv. done. Qed.

Lemma prechargeBank_states now r b t tr s s' :
  prechargeBank now r b t tr s = Ok s' → states s' = states s.
Proof.
  unfold prechargeBank. intros H. apply bind_ok in H as (rk & E%precharge_rank_state & [= <-]).
  destruct tr; by apply upd_rank_states.
Qed.

Lemma enforce_col_states t r g rs : refreshState <$> enforce_col t r g rs = refreshState <$> rs.
Proof.
  unfold enforce_col. apply list_eq. intros i. rewrite !list_lookup_fmap, list_lookup_imap.
  by destruct (rs !! i).
Qed.

Lemma dram_access_states now q d s d' s' h t :
  dram_access now q d s = Ok (d', s', h, t) → states s' = states s.
Proof.
  unfold dram_access, prepare_bank, issue_column. intros H. apply bind_ok in H as ([s1 t1] & H1 & H).
  assert (states s1 = states s) as <-.
  { destruct (_ =? _); [by injection H1 as <- _|]. apply bind_ok in H1 as (s2 & H2 & H1).
    unfold activateBank in H1. apply bind_ok in H1 as (s3 & H3 & [= <- _]).
    apply bind_ok in H3 as (rk & E%activate_rank_state & [= <-]). cbn.
    rewrite upd_rank_states by done. destruct (negb _); [by eapply prechargeBank_states|by injection H2 as <-]. }
  apply bind_ok in H as (s4 & H4 & [= _ <- _ _]). apply bind_ok in H4 as (_ & _ & H4).
  apply bind_ok in H4 as (s5 & H5 & [= <-]). cbn. transitivity (states s5); [done|].
  match type of H5 with (if _ then prechargeBank _ _ _ _ _ ?x else _) = _ => transitivity (states x) end.
  - destruct (auto_precharge _ _ _); [by eapply prechargeBank_states|by injection H5 as <-].
  - cbn. rewrite upd_rank_states by done. apply enforce_col_states.
Qed.

(** ** The states of the loop *)

Definition burst_ok (rd : bool) (d : DRAMPacket) : Prop :=
  dp_wf d ∧ dp_row d ≠ NO_ROW ∧ dp_size d ≤ burstSize ∧ dp_isRead d = rd.

(** Registers and trace agree and are bounded by [B]; no rank refreshes; the
    queues hold well-formed bursts; the bus is turned to writes only for
    writes; the responses are in the order of the bus. *)
Record loop_ok (B : Tick) (tr : list dcmd) (c : Ctrl) : Prop :=
  { lo_chan : chan_ok grp B tr (chan c);
    lo_power : reported tr (power (chan c));
    lo_next : nextReqTime (chan c) ≤ B;
    lo_idle : Forall (eq REF_IDLE) (states (chan c));
    lo_reads : Forall (burst_ok true) (readQueue c);
    lo_writes : Forall (burst_ok false) (writeQueue c);
    lo_mode : busState c = READ_TO_WRITE ∨ busState c = WRITE → writeQueue c ≠ [];
    lo_resp : match last (respQueue c) with
              | None => respondEvent c = None
              | Some d => readyTime d ≤ busBusyUntil (chan c) ∧ scheduled (respondEvent c) = true
              end }.

Lemma rank_idle s r :
  Z.of_nat (length (ranks s)) = ranksPerChannel → Forall (eq REF_IDLE) (states s) → 0 ≤ r < ranksPerChannel →
  isAvailable (rank_at (ranks s) r) = true.
Proof.
  intros Hl H Hr. unfold isAvailable, rank_at. apply bool_decide_eq_true. rewrite list_lookup_total_alt.
  destruct (lookup_lt_is_Some_2 (ranks s) (Z.to_nat r)) as [rk E]; [lia|]. rewrite E. cbn.
  rewrite Forall_fmap, Forall_lookup in H. by rewrite (H _ _ E).
Qed.

(** No rank is busy, so that the loop goes on. *)
Lemma check_ranks_idle now s e :
  Z.of_nat (length (ranks s)) = ranksPerChannel → Forall (eq REF_IDLE) (states s) →
  check_ranks now (s, e) = Ok (0, (s, e)).
Proof.
  intros Hl H. unfold check_ranks.
  assert (∀ r, r ∈ seqZ 0 ranksPerChannel → isAvailable (rank_at (ranks s) r) = true) as Ha.
  { intros r Hr%elem_of_seqZ. apply rank_idle; [done..|lia]. }
  induction (seqZ 0 ranksPerChannel) as [|r l IH]; [done|]. cbn. unfold check_rank, get_rank. cbn.
  rewrite Ha by constructor. cbn. apply IH. intros r' ?. apply Ha. by constructor.
Qed.

Lemma times_bound B tr s now :
  chan_ok grp B tr s → 0 ≤ now ≤ B → B + tRP ≤ MaxTick → ∀ i j, act_at (ranks s) now i j ≤ MaxTick.
Proof.
  intros Hs Hn HB. apply (act_at_bound _ _ B); try lia; [|destruct VT; lia].
  apply Forall_lookup. intros r rk Hr. apply Forall_lookup. intros b k Hb.
  assert (0 ≤ Z.of_nat r < ranksPerChannel) as Hr'.
  { apply lookup_lt_Some in Hr. rewrite <-(co_ranks _ _ _ _ Hs). lia. }
  assert (rank_at (ranks s) (Z.of_nat r) = rk) as E.
  { unfold rank_at. rewrite Nat2Z.id. by apply list_lookup_total_correct. }
  pose proof (co_rank _ _ _ _ Hs _ Hr') as Hk. rewrite E in Hk.
  assert (0 ≤ Z.of_nat b < banksPerRank) as Hb'.
  { apply lookup_lt_Some in Hb. rewrite <-(ro_banks _ _ _ _ Hk). lia. }
  pose proof (co_bound _ _ _ _ Hs _ Hr' _ Hb') as Hx. rewrite E in Hx. unfold bank_in in Hx.
  rewrite Nat2Z.id, (list_lookup_total_correct _ _ _ Hb) in Hx. lia.
Qed.

(** A queue of bursts to idle ranks has a burst to serve. *)
Lemma choose_served B tr s now rd q x :
  chan_ok grp B tr s → Forall (eq REF_IDLE) (states s) → 0 ≤ now ≤ B → B + tRP ≤ MaxTick →
  Forall (burst_ok rd) q → q ≠ [] →
  ∃ d rest, chooseNext (ranks s) now (busBusyUntil s) q x = Ok (true, d :: rest) ∧ d :: rest ≡ₚ q ∧
    burst_ok rd d ∧ Forall (burst_ok rd) rest ∧ isAvailable (rankRef (ranks s) d) = true.
Proof.
  intros Hs Hi Hn HB Hq Hne.
  assert (∀ d, d ∈ q → isAvailable (rankRef (ranks s) d) = true) as Ha.
  { intros d Hd. rewrite Forall_forall in Hq. destruct (Hq d Hd) as ([Hr _] & _).
    apply rank_idle; [apply Hs|done|done]. }
  destruct (chooseNext_conserves (ranks s) now (busBusyUntil s) q x GEO) as (b & q' & E & Hp & Hb & Hh);
    [eapply Forall_impl; [done|]; by intros ? []|by eapply times_bound|done|].
  destruct q as [|d0 q0]; [done|]. assert (b = true) as ->.
  { apply Hb. exists d0. split; [constructor|]. apply Ha. constructor. }
  destruct q' as [|d rest]; [by destruct (Hh eq_refl) as (? & ? & _)|]. exists d, rest.
  rewrite <-Hp in Hq. apply Forall_cons in Hq as [Hd Hq]. split_and!; try done.
  apply Ha. rewrite <-Hp. constructor.
Qed.

(** ** One access *)

Lemma bubble_ok B tr s sw d dt :
  0 ≤ dt → chan_ok grp B tr s → reported tr (power s) →
  let s' := bubble sw d dt s in
  chan_ok grp (B + dt) tr s' ∧ reported tr (power s') ∧ states s' = states s ∧
  busBusyUntil s ≤ busBusyUntil s'.
Proof.
  intros Hdt Hs Hp. pose proof (chan_ok_mono grp B (B + dt) _ _ ltac:(lia) Hs) as Hs'. unfold bubble.
  destruct (_ && _); [|by split_and!]. split_and!; try done; [|cbn; lia].
  destruct Hs as [H1 H2 H3 H4 H5 H6 H7 H8], Hs' as [K1 K2 K3 K4 K5 K6 K7 K8]. split; cbn; try done; [|lia].
  intros c Hc Hl. specialize (H4 c Hc Hl). lia.
Qed.

Lemma serve_ok B tr s now sw rd d dt rq wq :
  chan_ok grp B tr s → reported tr (power s) → burst_ok rd d → 0 ≤ now ≤ B → 0 ≤ dt →
  B + dt + slack < 2 ^ 64 →
  ∃ s' tr' t, doDRAMAccess now rq wq d (bubble sw d dt s) = Ok (d <| readyTime := t |>, s') ∧
    chan_ok grp (B + dt + slack) tr' s' ∧ reported tr' (power s') ∧ states s' = states s ∧
    now ≤ t ∧ busBusyUntil s' = t ∧ busBusyUntil s ≤ t ∧ nextReqTime s' ≤ B + dt + slack.
Proof.
  intros Hs Hp ((Hr & Hb & _) & Hrow & _) Hn Hdt HB.
  destruct (bubble_ok B tr s sw d dt Hdt Hs Hp) as (H1 & H2 & H3 & H4).
  set (s0 := bubble sw d dt s) in *. unfold doDRAMAccess. set (q := if dp_isRead d then rq else wq).
  destruct (dram_access_ok grp VT _ _ _ now q d H1 H2 Hr Hb Hrow ltac:(lia) HB)
    as (s1 & hit & t & tr' & E & Hs1 & Hp1 & Ht & Hbus & Hinc & _ & Hnext).
  rewrite E. cbn [mbind res_bind]. apply dram_access_states in E as Est.
  pose proof (co_busy _ _ _ _ Hs1). destruct VT.
  match goal with |- ∃ _ _ _, Ok (_, ?x) = _ ∧ _ => set (s2 := x) end.
  assert (ranks s2 = ranks s1 ∧ busBusyUntil s2 = busBusyUntil s1 ∧ power s2 = power s1 ∧
    nextReqTime s2 = nextReqTime s1) as (E1 & E2 & E3 & E4) by (unfold s2; by case_match).
  clearbody s2. exists s2, tr', (t + tCL + tBURST). rewrite E1, E2, E3, E4.
  split_and!; try (done || congruence || lia). by eapply chan_ok_ext.
Qed.

(** ** One event of the loop *)

Context (HWTR : 0 ≤ tWTR) (HRTW : 0 ≤ tRTW) (HHIGH : 0 ≤ writeHighThreshold).

(** What one event adds to the times. *)
Definition step_time : Tick := tWTR + tCL + tRTW + slack.
(** The packets whose bursts wait or are served. *)
Definition pkts (c : Ctrl) : list Packet := dp_pkt <$> respQueue c ++ readQueue c.
Definition readish (c : Ctrl) : bool :=
  match busState c with READ | WRITE_TO_READ => true | _ => false end.
Definition measure (c : Ctrl) : nat :=
  2 * (length (readQueue c) + length (writeQueue c)) + (if readish c then 1 else 0).

Definition served_by (c c' : Ctrl) : Prop :=
  pkts c' ≡ₚ pkts c ∧ draining c' = draining c ∧ nextReqEvent c' = nextReqEvent c ∧
  (measure c' < measure c)%nat.

Lemma push_response_ok now d c :
  now ≤ readyTime d → readyTime d = busBusyUntil (chan c) →
  match last (respQueue c) with
  | None => respondEvent c = None
  | Some x => readyTime x ≤ busBusyUntil (chan c) ∧ scheduled (respondEvent c) = true
  end →
  ∃ ev, push_response now d c = Ok (c <| respondEvent := ev |> <| respQueue ::= λ q, q ++ [d] |>) ∧
    scheduled ev = true.
Proof.
  intros Hn Ht H. unfold push_response. destruct (last (respQueue c)) as [x|].
  - destruct H as [Hx He]. exists (respondEvent c). rewrite He.
    replace (readyTime x <=? readyTime d) with true by (symmetry; apply Z.leb_le; lia).
    split; [|done]. cbn. by destruct c.
  - rewrite H. unfold schedule. cbn. replace (now <=? readyTime d) with true by (symmetry; by apply Z.leb_le).
    cbn. by eexists.
Qed.

Lemma next_read_ok B tr now sw c :
  loop_ok B tr c → busState c = READ → readQueue c ≠ [] → 0 ≤ now ≤ B → B + step_time < 2 ^ 64 →
  ∃ c' tr', next_read now sw c = Ok (true, c') ∧ loop_ok (B + step_time) tr' c' ∧ served_by c c'.
Proof.
  intros [H1 H2 H3 H4 H5 H6 H7 H8] Hb Hne Hn HB. assert (0 ≤ slack) by (destruct VT; unfold slack, dACT, dCOL; lia).
  unfold step_time in *. pose proof VT as [].
  destruct (choose_served B tr (chan c) now true (readQueue c) (if sw then tCS else 0)) as
    (d & rest & E & Hp & Hd & Hrest & Ha); try done; [unfold MaxTick, slack, dACT, dCOL in *; lia|].
  destruct (serve_ok B tr (chan c) now sw true d (tWTR + tCL) (d :: rest) (writeQueue c)) as
    (s' & tr' & t & Ea & Hs & Hp' & Hst & Ht & Hbus & Hbus' & Hnx); try done; [lia..|].
  unfold next_read. destruct (readQueue c) as [|d0 q0] eqn:Eq; [done|]. rewrite E. cbn [mbind res_bind negb].
  change (chan (c <| readQueue := d :: rest |>)) with (chan c).
  change (readQueue (c <| readQueue := d :: rest |>)) with (d :: rest).
  change (writeQueue (c <| readQueue := d :: rest |>)) with (writeQueue c).
  rewrite assert_bind by exact Ha. rewrite Ea. cbn [mbind res_bind].
  destruct Hd as (Hwf & Hrow & Hsize & Hrd).
  rewrite assert_bind by (cbn; lia). rewrite assert_bind by (cbn; lia).
  edestruct (push_response_ok now (d <| readyTime := t |>) (c <| readQueue := d :: rest |> <| chan := s' |> <| readQueue := rest |>))
    as (ev & Ep & Hev); [cbn; lia|cbn; lia|cbn; destruct (last (respQueue c)); [destruct H8; split; [lia|done]|done]|].
  rewrite Ep. cbn [mbind res_bind]. eexists _, tr'. split; [reflexivity|].
  assert (∀ c', chan c' = s' → readQueue c' = rest → writeQueue c' = writeQueue c →
    respQueue c' = respQueue c ++ [d <| readyTime := t |>] → respondEvent c' = ev → draining c' = draining c →
    nextReqEvent c' = nextReqEvent c → (busState c' = READ ∨ busState c' = READ_TO_WRITE ∧ writeQueue c ≠ []) →
    loop_ok (B + (tWTR + tCL + tRTW + slack)) tr' c' ∧ served_by c c') as Hc'.
  { intros c' F1 F2 F3 F4 F5 F6 F7 F8. split.
    - split; rewrite ?F1, ?F2, ?F3, ?F4, ?F5; try done.
      + eapply chan_ok_mono; [|exact Hs]. lia.
      + lia.
      + by rewrite Hst.
      + intros [E'|E']; destruct F8 as [F8|[F8 Hw]]; congruence.
      + rewrite last_snoc. cbn. split; [lia|done].
    - split_and!; [|done|done|].
      + unfold pkts. rewrite F2, F4, <-app_assoc, !fmap_app, Eq, <-Hp. done.
      + unfold measure, readish. rewrite F2, F3, Eq, <-(Permutation_length Hp), Hb. cbn.
        destruct F8 as [F8|[F8 Hw]]; rewrite F8; cbn; lia. }
  destruct (_ <? _) eqn:Hw; apply Hc'; try done; [|by left].
  right. split; [done|]. apply Z.ltb_lt in Hw. cbn in Hw. intros Hw'. rewrite Hw' in Hw. unfold len in Hw. cbn in Hw. lia.
Qed.

Lemma next_write_ok B tr now sw c :
  loop_ok B tr c → busState c = WRITE → 0 ≤ now ≤ B → B + step_time < 2 ^ 64 →
  ∃ c' tr', next_write now sw c = Ok (true, c') ∧ loop_ok (B + step_time) tr' c' ∧ served_by c c'.
Proof.
  intros [H1 H2 H3 H4 H5 H6 H7 H8] Hb Hn HB. assert (0 ≤ slack) by (destruct VT; unfold slack, dACT, dCOL; lia).
  unfold step_time in *. pose proof VT as []. assert (writeQueue c ≠ []) as Hne by auto.
  destruct (choose_served B tr (chan c) now false (writeQueue c) (if sw then Z.min tRTW tCS else 0)) as
    (d & rest & E & Hp & Hd & Hrest & Ha); try done; [unfold MaxTick, slack, dACT, dCOL in *; lia|].
  destruct (serve_ok B tr (chan c) now sw false d tRTW (readQueue c) (d :: rest)) as
    (s' & tr' & t & Ea & Hs & Hp' & Hst & Ht & Hbus & Hbus' & Hnx); try done; [lia..|].
  unfold next_write. rewrite E. cbn [mbind res_bind negb].
  change (chan (c <| writeQueue := d :: rest |>)) with (chan c).
  change (writeQueue (c <| writeQueue := d :: rest |>)) with (d :: rest).
  change (readQueue (c <| writeQueue := d :: rest |>)) with (readQueue c).
  destruct Hd as (Hwf & Hrow & Hsize & Hrd).
  rewrite assert_bind by exact Ha. rewrite assert_bind by (cbn; lia). rewrite Ea. cbn [mbind res_bind].
  eexists _, tr'. split; [reflexivity|].
  assert (∀ c', chan c' = s' → readQueue c' = readQueue c → writeQueue c' = rest →
    respQueue c' = respQueue c → respondEvent c' = respondEvent c → draining c' = draining c →
    nextReqEvent c' = nextReqEvent c → (busState c' = WRITE ∧ rest ≠ [] ∨ busState c' = WRITE_TO_READ) →
    loop_ok (B + (tWTR + tCL + tRTW + slack)) tr' c' ∧ served_by c c') as Hc'.
  { intros c' F1 F2 F3 F4 F5 F6 F7 F8. split.
    - split; rewrite ?F1, ?F2, ?F3, ?F4, ?F5; try done.
      + eapply chan_ok_mono; [|exact Hs]. lia.
      + lia.
      + by rewrite Hst.
      + intros [E'|E']; destruct F8 as [[F8 Hw]|F8]; congruence.
      + destruct (last (respQueue c)); [|done]. destruct H8. split; [lia|done].
    - split_and!; [unfold pkts; by rewrite F2, F4|done|done|].
      unfold measure, readish. rewrite F2, F3, <-(Permutation_length Hp), Hb. cbn.
      destruct F8 as [[F8 Hw]|F8]; rewrite F8; cbn; lia. }
  match goal with |- context [if ?w then _ else _] => destruct w eqn:Hw end; apply Hc'; try done; [by right|].
  left. split; [done|]. do 2 apply orb_false_iff in Hw as [Hw _]. by apply bool_decide_eq_false in Hw.
Qed.

(** The fields that matter to the loop. *)
Definition core (c : Ctrl) :=
  (chan c, readQueue c, writeQueue c, respQueue c, respondEvent c, draining c, busState c).

Lemma loop_core B tr c c' :
  core c' = core c → (loop_ok B tr c → loop_ok B tr c') ∧ pkts c' = pkts c ∧ draining c' = draining c ∧
  measure c' = measure c ∧ nextReqTime (chan c') = nextReqTime (chan c).
Proof.
  unfold core, pkts, measure, readish. intros [= E1 E2 E3 E4 E5 E6 E7].
  rewrite E1, E2, E3, E4, E6, E7. split; [|done]. intros [H1 H2 H3 H4 H5 H6 H7 H8].
  by split; rewrite ?E1, ?E2, ?E3, ?E4, ?E5, ?E7.
Qed.

Lemma turn_around_ok B tr c :
  loop_ok B tr c → ∃ sw c', turn_around c = (sw, c') ∧ loop_ok B tr c' ∧ pkts c' = pkts c ∧
    draining c' = draining c ∧ measure c' = measure c ∧ nextReqEvent c' = nextReqEvent c ∧
    (busState c' = READ ∨ busState c' = WRITE).
Proof.
  intros Hl. unfold turn_around. destruct Hl as [H1 H2 H3 H4 H5 H6 H7 H8].
  destruct (busState c) eqn:E; eexists _, _; (split; [reflexivity|]); unfold measure, readish; cbn; rewrite ?E;
    split_and!; auto; split; cbn; rewrite ?E; auto; try (by intros [?|?]).
  all: by eapply chan_ok_ext; [..|exact H1].
Qed.

Lemma finish_ok B tr now c :
  loop_ok B tr c → nextReqEvent c = None → 0 ≤ now ≤ B →
  ∃ c' t, finish_req now c = Ok c' ∧ core c' = core c ∧ nextReqEvent c' = Some t ∧ 0 ≤ t ≤ B.
Proof.
  intros Hl He Hn. unfold finish_req. rewrite He. unfold schedule. cbn.
  rewrite assert_bind by lia. cbn. pose proof (lo_next _ _ _ Hl).
  eexists _, (Z.max (nextReqTime (chan c)) now). split; [reflexivity|]. by destruct (_ && _); split_and!; try lia.
Qed.

(** The loop at rest: no read waits, and no write that has to go. *)
Definition at_rest (c : Ctrl) : Prop :=
  nextReqEvent c = None ∧ readQueue c = [] ∧
  (writeQueue c = [] ∨ draining c = false ∧ len (writeQueue c) ≤ writeLowThreshold).

Lemma loop_ok_mono B B' tr c : B ≤ B' → loop_ok B tr c → loop_ok B' tr c.
Proof.
  intros HB [H1 H2 H3 H4 H5 H6 H7 H8]. split; try done; [|lia]. by eapply chan_ok_mono.
Qed.

(** No read waits: the bus turns to the writes, or the loop rests. *)
Lemma next_read_empty B tr now sw c :
  loop_ok B tr c → busState c = READ → readQueue c = [] → nextReqEvent c = None →
  (∃ c', next_read now sw c = Ok (true, c') ∧ loop_ok B tr c' ∧ served_by c c') ∨
  (∃ c', next_read now sw c = Ok (false, c') ∧ pkts c' = pkts c ∧ draining c' = draining c ∧ at_rest c').
Proof.
  intros Hl Hb Hr He. unfold next_read. rewrite Hr. destruct (negb _ && _) eqn:Hw; [left|right].
  - eexists. split; [reflexivity|]. apply andb_true_iff in Hw as [Hw _].
    apply negb_true_iff, bool_decide_eq_false in Hw. split.
    + destruct Hl as [H1 H2 H3 H4 H5 H6 H7 H8]. by split.
    + unfold served_by, measure, readish. cbn. rewrite Hb. split_and!; try done. lia.
  - eexists. split; [reflexivity|].
    assert (writeQueue c = [] ∨ draining c = false ∧ len (writeQueue c) ≤ writeLowThreshold) as Hrest.
    { apply andb_false_iff in Hw as [Hw|Hw]; [left; apply negb_false_iff in Hw; by apply bool_decide_eq_true in Hw|].
      right. apply orb_false_iff in Hw as [? Hw%Z.ltb_ge]. done. }
    unfold at_rest. destruct (draining c && bool_decide (respQueue c = [])); split_and!; done || exact Hrest.
Qed.

(** The outcome of an event: the loop rests, or there is less to do. *)
Definition advanced (B : Tick) (c c' : Ctrl) : Prop :=
  pkts c' ≡ₚ pkts c ∧ draining c' = draining c ∧
  (at_rest c' ∨ ∃ tr t, loop_ok B tr c' ∧ nextReqEvent c' = Some t ∧ 0 ≤ t ≤ B ∧ (measure c' < measure c)%nat).

Lemma finish_advanced B tr now c c1 :
  loop_ok B tr c1 → nextReqEvent c = None → served_by c c1 → 0 ≤ now ≤ B →
  ∃ c', finish_req now c1 = Ok c' ∧ advanced B c c'.
Proof.
  intros Hl He (P3 & D3 & N3 & M3) Hn.
  destruct (finish_ok B tr now c1 Hl) as (c' & t & -> & Hc & Ht & Ht'); [congruence|lia|].
  destruct (loop_core B tr c1 c' Hc) as (Hl' & P4 & D4 & M4 & _).
  exists c'. split; [done|]. split_and!; [by rewrite P4|congruence|]. right. exists tr, t.
  split_and!; auto; lia.
Qed.

Lemma step_ok B tr now c :
  loop_ok B tr c → nextReqEvent c = Some now → 0 ≤ now ≤ B → B + step_time < 2 ^ 64 →
  ∃ c', processNextReqEvent now c = Ok c' ∧ advanced (B + step_time) c c'.
Proof.
  intros Hl He Hn HB. unfold processNextReqEvent.
  assert (0 ≤ step_time) by (unfold step_time, slack, dACT, dCOL; destruct VT; lia).
  assert (0 < ranksPerChannel) by (destruct VT; lia).
  set (c0 := c <| nextReqEvent := None |>). change (chan c0) with (chan c).
  rewrite check_ranks_idle; [|apply (co_ranks _ _ _ _ (lo_chan _ _ _ Hl))|apply Hl]. cbn [mbind res_bind].
  replace (0 =? ranksPerChannel) with false by (symmetry; apply Z.eqb_neq; lia).
  set (c1 := c0 <| chan := _ |> <| nextReqEvent := _ |>).
  destruct (loop_core B tr c c1) as (Hl1 & P1 & D1 & M1 & _); [done|].
  destruct (turn_around_ok B tr c1 (Hl1 Hl)) as (sw & c2 & -> & Hl2 & P2 & D2 & M2 & N2 & Hmode).
  assert (nextReqEvent c2 = None) as He2 by (by rewrite N2). clear Hl1 N2 Hl.
  assert (∀ c', advanced (B + step_time) c2 c' → advanced (B + step_time) c c') as Ha.
  { unfold advanced. rewrite P2, P1, D2, D1, M2, M1. done. }
  destruct Hmode as [Hm|Hm]; rewrite Hm.
  - rewrite bool_decide_eq_true_2 by done. destruct (readQueue c2) as [|d q] eqn:Eq.
    + destruct (next_read_empty B tr now sw c2 Hl2 Hm Eq He2) as [(c3 & -> & Hl3 & Hs)|(c3 & -> & P3 & D3 & Hr)].
      * cbn. destruct (finish_advanced (B + step_time) tr now c2 c3) as (c' & ? & ?); eauto; [|lia].
        eapply loop_ok_mono; [|done]. lia.
      * cbn. exists c3. split; [done|]. apply Ha. split_and!; [by rewrite P3|done|by left].
    + destruct (next_read_ok B tr now sw c2) as (c3 & tr' & -> & Hl3 & Hs); try done; [by rewrite Eq|].
      cbn. destruct (finish_advanced (B + step_time) tr' now c2 c3) as (c' & ? & ?); eauto. lia.
  - rewrite bool_decide_eq_false_2 by done.
    destruct (next_write_ok B tr now sw c2) as (c3 & tr' & -> & Hl3 & Hs); try done.
    cbn. destruct (finish_advanced (B + step_time) tr' now c2 c3) as (c' & ? & ?); eauto. lia.
Qed.

(** The chain of events: each is processed at its tick, at most [n] of them. *)
Fixpoint run_loop (n : nat) (c : Ctrl) : res Ctrl :=
  match n, nextReqEvent c with
  | S n, Some t => c ← processNextReqEvent t c; run_loop n c
  | _, _ => Ok c
  end.

Lemma run_loop_ok n B tr t c :
  (measure c ≤ n)%nat → loop_ok B tr c → nextReqEvent c = Some t → 0 ≤ t ≤ B →
  B + step_time * Z.of_nat n < 2 ^ 64 →
  ∃ c', run_loop n c = Ok c' ∧ pkts c' ≡ₚ pkts c ∧ draining c' = draining c ∧ at_rest c'.
Proof.
  assert (0 ≤ step_time) by (unfold step_time, slack, dACT, dCOL; destruct VT; lia).
  revert B tr t c. induction n as [|n IH]; intros B tr t c Hm Hl He Ht HB.
  - exfalso. pose proof (lo_mode _ _ _ Hl) as Hmode. unfold measure, readish in Hm.
    destruct (busState c); try lia; apply Hmode; auto; apply length_zero_iff_nil; lia.
  - cbn [run_loop]. rewrite He. rewrite Nat2Z.inj_succ, Z.mul_succ_r in HB.
    destruct (step_ok B tr t c Hl He Ht ltac:(lia)) as (c1 & -> & P1 & D1 & Hc). cbn [mbind res_bind].
    destruct Hc as [Hr|(tr' & t' & Hl1 & He1 & Ht1 & Hm1)].
    + exists c1. split_and!; try done; [|apply Hr..]. destruct n; cbn; [done|]. by rewrite (proj1 Hr).
    + destruct (IH _ tr' t' c1 ltac:(lia) Hl1 He1 Ht1 ltac:(lia)) as (c' & E & P2 & D2 & Hr).
      exists c'. split_and!; [done|by rewrite P2|congruence|apply Hr..].
Qed.
End loop.

(** C4: the request loop terminates and serves every read.  From every state in
    which no rank refreshes and an event is scheduled, with any mix of reads and
    writes queued and the bus in any direction, the chain of events has at most
    two per burst and one more; no assertion is reached; at the end every read
    has moved to the response queue and no event is scheduled, and either no
    write is left, or the controller does not drain and the writes left do not
    pass the low threshold.  The bound keeps the time stamps below 64 bits. *)
Theorem request_loop_terminates `{P : DRAMParams} grp B tr t c :
  valid_timing → sched_geometry → 0 ≤ tWTR → 0 ≤ tRTW → 0 ≤ writeHighThreshold →
  loop_ok grp B tr c → nextReqEvent c = Some t → 0 ≤ t ≤ B → B + step_time * Z.of_nat (measure c) < 2 ^ 64 →
  ∃ c', run_loop (measure c) c = Ok c' ∧ nextReqEvent c' = None ∧ readQueue c' = [] ∧
    dp_pkt <$> respQueue c' ≡ₚ dp_pkt <$> respQueue c ++ readQueue c ∧
    (writeQueue c' = [] ∨ draining c = false ∧ len (writeQueue c') ≤ writeLowThreshold).
Proof.
  intros VT GEO H1 H2 H3 Hl He Ht HB.
  destruct (run_loop_ok grp VT GEO H1 H2 H3 (measure c) B tr t c) as (c' & E & Hp & Hd & Hr1 & Hr2 & Hr3); try done.
  exists c'. unfold pkts in Hp. rewrite Hr2, app_nil_r in Hp. rewrite <-Hd. by split_and!.
Qed.

(** Two reads and a write, each of two bursts, queued after startup. *)
Definition ex_loaded : Ctrl :=
  match foldM (@cstep HMC_2500_x32_Cache ex_range) ex_start
          [(1000, CReq (read_pkt 1 256 0)); (1000, CReq (write_pkt 2 4096 31 7)); (1000, CReq (read_pkt 3 8192 0))] with
  | Ok s => s.2
  | Fault _ => @new_ctrl HMC_2500_x32_Cache
  end.

(** The well-formedness of a burst as a test. *)
Definition burst_test `{P : DRAMParams} (rd : bool) (d : DRAMPacket) : bool :=
  (0 <=? dp_rank d) && (dp_rank d <? ranksPerChannel) && (0 <=? dp_bank d) && (dp_bank d <? banksPerRank) &&
  (bankId d =? banksPerRank * dp_rank d + dp_bank d) && negb (dp_row d =? NO_ROW) && (dp_size d <=? burstSize) &&
  eqb (dp_isRead d) rd.

Lemma burst_test_ok `{P : DRAMParams} rd q : forallb (burst_test rd) q = true → Forall (burst_ok rd) q.
Proof.
  induction q as [|d q IH]; cbn; [constructor|]. intros [H Hq]%andb_true_iff. constructor; [|auto].
  unfold burst_test in H. repeat (apply andb_true_iff in H as [H ?]). unfold burst_ok, dp_wf.
  split_and!; try lia. by apply eqb_prop.
Qed.

Lemma ex_loaded_ok : @loop_ok HMC_2500_x32_Cache (@built_group HMC_2500_x32_Cache) 100000 [] ex_loaded.
Proof.
  assert (E : chan ex_loaded = ex_chan) by (vm_compute; reflexivity).
  assert (E0 : @startup HMC_2500_x32_Cache 0 (@new_chan HMC_2500_x32_Cache) = Ok ex_chan) by (vm_compute; reflexivity).
  destruct (startup_chan_ok HMC_timing 0 ex_chan) as (Hs & Hp & _); [cbn; lia..|exact E0|].
  apply (chan_ok_mono _ _ 100000) in Hs; [|vm_compute; discriminate].
  assert (E1 : nextReqTime ex_chan ≤ 100000) by (vm_compute; discriminate).
  assert (E2 : Forall (eq REF_IDLE) (refreshState <$> ranks ex_chan)) by repeat constructor.
  assert (E3 : forallb (@burst_test HMC_2500_x32_Cache true) (readQueue ex_loaded) = true) by (vm_compute; reflexivity).
  assert (E4 : forallb (@burst_test HMC_2500_x32_Cache false) (writeQueue ex_loaded) = true) by (vm_compute; reflexivity).
  assert (E5 : (busState ex_loaded, respQueue ex_loaded, respondEvent ex_loaded) = (READ, [], None)) by (vm_compute; reflexivity).
  revert E E3 E4 E5 Hs Hp E1 E2. clear E0. generalize ex_loaded, ex_chan. intros c s <- H3 H4 [= H5 H6 H7] Hs Hp H1 H2.
  split; rewrite ?H5, ?H6; try done; [by rewrite Hp|by apply burst_test_ok|by apply burst_test_ok|by intros [?|?]].
Qed.

Lemma request_loop_terminates_witness :
  ∃ c', @run_loop HMC_2500_x32_Cache 13 ex_loaded = Ok c' ∧ nextReqEvent c' = None ∧ readQueue c' = [] ∧
    dp_pkt <$> respQueue c' ≡ₚ
      [read_pkt 1 256 0; read_pkt 1 256 0; read_pkt 3 8192 0; read_pkt 3 8192 0] ∧
    (writeQueue c' = [] ∨ draining ex_loaded = false ∧
       len (writeQueue c') ≤ @writeLowThreshold HMC_2500_x32_Cache).
Proof.
  assert (E : dp_pkt <$> respQueue ex_loaded ++ readQueue ex_loaded =
    [read_pkt 1 256 0; read_pkt 1 256 0; read_pkt 3 8192 0; read_pkt 3 8192 0]) by (vm_compute; reflexivity).
  assert (M : measure ex_loaded = 13%nat) by (vm_compute; reflexivity).
  pose proof (@request_loop_terminates HMC_2500_x32_Cache (@built_group HMC_2500_x32_Cache) 100000 [] 1000 ex_loaded) as H.
  rewrite M, E in H. apply H.
  - exact HMC_timing.
  - vm_compute. intuition discriminate.
  - cbn. lia.
  - cbn. lia.
  - cbn. lia.
  - exact ex_loaded_ok.
  - vm_compute. reflexivity.
  - lia.
  - vm_compute. reflexivity.
Defined.
End DramLoop.
