(* ===== verification/CacheCtrl.v ===== *)
(** * The DRAM cache controller (mem/dramcache_ctrl.hh, dramcache_ctrl.cc)

    The controller extends the DRAM controller by the tag store, the miss
    buffers, the queue of fills, the queue of finished writes, the bypass tags
    and the table of parallel memory accesses (PAM) that the hit/miss predictor
    starts.  Every handler of the class is a function on the state; [running] is
    [CudaGPU::running], [draw] the number drawn by the static predictor.  The
    build has MAPI_PREDICTOR defined and PASS_PC undefined. *)

From S2P Require Import Prelude Intmath Packet AbstractMem DramTypes PacketQueue Mshr MshrQueue.
From S2P Require Import DramInit DramAddr DramSched DramTiming DramRefresh DramCtrl.
From S2P Require Import CacheTags BypassTags Predictor CacheBuffers.
Import Intmath MemCmd Packet AbstractMem PacketQueue Mshr MshrQueue DramAddr DramSched
  DramTiming DramRefresh DramCtrl CacheTags BypassTags Predictor CacheBuffers.

Module CacheCtrl.

Definition DRAM_PKT_COUNT : Z := 2.
Definition PREDICTION_LATENCY : Tick := 5.

(** [pamReq]: [isHit] is -1 until the cache access is done. *)
Record pamReq := mkPam
  { pr_isHit : Z; isPamComplete : bool; pr_mshr : mshr_ref; pr_pkt : Packet }.
#[export] Instance eta_pamReq : Eta pamReq := λ r,
  mkPam (pr_isHit r) (isPamComplete r) (pr_mshr r) (pr_pkt r).

Record CacheOf {F : Type} := mkCache
  { base : Ctrl;                     (** the members of [DRAMCtrl] *)
    inWriteQ : gset (Addr * Addr);   (** [isInWriteQueue]: address and burst *)
    fillQueue : list DRAMPacket;
    isInFillQueue : gset (Addr * Addr);
    dramPktWriteRespQueue : list DRAMPacket;
    respondWriteEvent : event;
    cacheFillsThisTime : Z;
    cacheWritesThisTime : Z;
    tags : TagsOf F;
    bypassTag : list Addr;
    bufs : Bufs;
    pamQueue : gmap Addr pamReq;
    switched_gpu_running : bool;
    nextPkt : nat                    (** the packets it has created *) }.
#[global] Arguments CacheOf : clear implicits.
#[global] Arguments mkCache {F} _ _ _ _ _ _ _ _ _ _ _ _ _ _.
#[export] Instance eta_Cache F : Eta (CacheOf F) := λ c,
  mkCache (base c) (inWriteQ c) (fillQueue c) (isInFillQueue c) (dramPktWriteRespQueue c)
    (respondWriteEvent c) (cacheFillsThisTime c) (cacheWritesThisTime c) (tags c) (bypassTag c)
    (bufs c) (pamQueue c) (switched_gpu_running c) (nextPkt c).

Abbreviation Cache := (CacheOf filter_t).

Section cache.
Context `{D : DRAMParams} `{P : CacheParams} `{B : BloomFilter} `{C : Clocked} `{R : MemRange}.

Definition new_cache (mshrs write_buffers : Z) : Cache :=
  mkCache new_ctrl ∅ [] ∅ [] None 0 0 init_tags [] (new_bufs mshrs write_buffers) ∅ false 0.

Definition cstat (name : string) (c : Cache) : Cache := c <| base ::= stat name |>.
Definition cstat_if (b : bool) (name : string) (c : Cache) : Cache := if b then cstat name c else c.
Definition onBase (f : Ctrl → res Ctrl) (c : Cache) : res Cache :=
  b ← f (base c); Ok (c <| base := b |>).
Definition onBufs (f : Bufs → res Bufs) (c : Cache) : res Cache :=
  b ← f (bufs c); Ok (c <| bufs := b |>).

(** ** Access and respond *)

Definition cache_access (pkt : Packet) (c : Cache) : res (Packet * Cache) :=
  assert (isRequest (cmd pkt)) "pkt->isRequest()";;
  pm ← AbstractMem.access pkt (mem (base c));
  Ok (pm.1, c <| base ::= λ b, b <| mem := pm.2 |> |>).

Definition respond (now : Tick) (pkt : Packet) (latency : Tick) (c : Cache) : res Cache :=
  assert (isResponse (cmd pkt)) "pkt->isResponse()";;
  let response_time := now + latency + headerDelay pkt + payloadDelay pkt in
  let pkt := pkt <| headerDelay := 0 |> <| payloadDelay := 0 |> in
  onBase (schedTimingResp now pkt response_time) c.

(** [access(pkt); respond(pkt, latency)]. *)
Definition access_respond (now : Tick) (latency : Tick) (pkt : Packet) (c : Cache) : res Cache :=
  pc ← cache_access pkt c;
  respond now pc.1 latency pc.2.

(** [memcpy(dst->getPtr(), src->getPtr(), dramCache_block_size)]; bytes beyond
    the source buffer are indeterminate. *)
Definition copy_block (dst src : Packet) : res Packet :=
  bs ← getPtr src;
  let n := Z.to_nat dramCache_block_size in
  copy_in dst (bs ++ replicate n None) n.

(** Copy the data of a memory response, turn the packet around and respond. *)
Definition copy_respond (now : Tick) (latency : Tick) (src : Packet) (pkt : Packet) (c : Cache)
    : res Cache :=
  p ← copy_block pkt src;
  p ← makeResponse p;
  respond now p latency c.

Definition each_target (f : Packet → Cache → res Cache) (ts : list Target) (c : Cache) : res Cache :=
  foldM (λ c t, f (t_pkt t) c) c ts.

(** Packets the controller creates have negative identities. *)
Definition next_id (c : Cache) : Z := - Z.of_nat (S (nextPkt c)).

(** [new Packet(new Request(a, dramCache_block_size, 0, wbMasterId), cmd)] for a
    context. *)
Definition new_block_packet (cm : Command) (a ctx : Z) (c : Cache) : Packet * Cache :=
  (new_packet (next_id c) cm a dramCache_block_size ctx, c <| nextPkt ::= S |>).

Definition cloned (pkt : Packet) (c : Cache) : res (Packet * Cache) :=
  p ← clone_packet (next_id c) pkt; Ok (p, c <| nextPkt ::= S |>).

(** ** Evictions *)

Definition doWriteBack (now : Tick) (evictAddr : Addr) (ctx : Z) (c : Cache) : res Cache :=
  let '(rd, c) := new_block_packet ReadReq evictAddr ctx c in
  let '(wb, c) := new_block_packet WriteReq evictAddr ctx c in
  rd ← Packet.allocate rd;
  wb ← Packet.allocate wb;
  pc ← cache_access rd c;
  let '(rd, c) := pc in
  assert (isResponse (cmd rd)) "dummyRdPkt->isResponse()";;
  wb ← copy_block wb rd;
  c ← onBufs (λ b, rb ← allocateWriteBuffer now wb (now + 1) b; Ok rb.2) c;
  Ok (c <| tags ::= invalidate evictAddr |>).

(** The owner of a set as a context. *)
Definition owner_ctx (s : Z) (c : Cache) : Z := if owned (tags c) s then GPU_CTX else 0.

(** ** Fills *)

Definition fillQueueFull (neededEntries : Z) (c : Cache) : bool :=
  fillBufferSize <? len (fillQueue c) + neededEntries.

Definition fill_burst (now : Tick) (pkt : Packet) (s : Cache * Addr) (_ : Z) : res (Cache * Addr) :=
  let '(c, a) := s in
  let c := cstat "dramCache_fillBursts" c in
  if bool_decide ((addr pkt, a) ∈ isInFillQueue c) then Ok (c, a + 1)
  else
    assert (hasContextId pkt) "pkt->req->hasContextId()";;
    d ← cache_decodeAddr now pkt a burstSize false;
    let d := d <| requestAddr := addr pkt |> <| isFill := true |> in
    assert (len (fillQueue c) <? fillBufferSize) "fillQueue.size() < fillBufferSize";;
    let c := c <| fillQueue ::= λ q, q ++ [d] |>
               <| isInFillQueue ::= λ s, {[(addr pkt, a)]} ∪ s |> in
    let c := c <| base ::= stat_is "dramCache_avgFillQLen" (len (fillQueue c)) |> in
    assert (len (fillQueue c) =? Z.of_nat (base.size (isInFillQueue c)))
      "fillQueue.size() == isInFillQueue.size()";;
    Ok (c, a + 1).

(** The replacement of the line by the block that was fetched. *)
Definition replace_line (now : Tick) (pkt : Packet) (c : Cache) : res Cache :=
  let '(s, _) := getSetTagFromAddr (addr pkt) in
  let evictAddr := regenerateBlkAddr s (tag (line (tags c) s)) in
  c ← (if dirty (line (tags c) s) && valid (line (tags c) s) then
         let c := if bloomFilterEnable
                  then c <| tags ::= λ t, t <| cbf ::= bf_remove evictAddr |> |> else c in
         doWriteBack now evictAddr (owner_ctx s c) c
       else Ok c);
  let wasGPU := owned (tags c) s in
  let c := c <| tags ::= fill_line pkt |> in
  Ok (if bypassTagEnable && negb wasGPU
      then c <| bypassTag ::= λ l, insertIntoBypassTag evictAddr (removeFromBypassTag (addr pkt) l).2 |>
      else c).

Definition addToFillQueue (now : Tick) (running : bool) (pkt : Packet) (pktCount : Z) (c : Cache)
    : res Cache :=
  assert (isWrite (cmd pkt)) "pkt->isWrite()";;
  if running && negb (isGPU pkt) && (dirtyCleanBypassEnable || bloomFilterEnable)
  then onBase (kick now) (cstat "dramCache_cpu_not_inserted" c)
  else
    c ← replace_line now pkt c;
    if fillQueueFull pktCount c then Ok c
    else
      let a := set_burst_addr dramCache_block_size dramCache_num_sets pktCount (addr pkt) in
      s ← foldM (fill_burst now pkt) (c, a) (seqZ 0 pktCount);
      onBase (kick now) s.1.

(** A block has come from memory for a context. *)
Definition fill_block (now : Tick) (running : bool) (a ctx : Z) (c : Cache) : res Cache :=
  let '(pkt, c) := new_block_packet WriteReq a ctx c in
  addToFillQueue now running pkt DRAM_PKT_COUNT c.

(** ** The read and write queues *)

Definition cache_push_read (now : Tick) (pkt : Packet) (a : Z) (h : option nat) (c : Ctrl)
    : res Ctrl :=
  assert (hasContextId pkt) "pkt->req->hasContextId()";;
  d ← cache_decodeAddr now pkt a burstSize true;
  let d := d <| burstHelper := h |> in
  assert (negb (readQueueFull 1 c)) "!readQueueFull(1)";;
  let n := len (readQueue c) + len (respQueue c) in
  let c := stat_at "rdQLenPdf" n c in
  let c := if isGPU pkt then c else stat_at "cpurdQLenPdf" n c in
  let c := c <| readQueue ::= λ q, q ++ [d] |> in
  Ok (stat_is "avgRdQLen" (len (readQueue c) + len (respQueue c)) c).

(** One burst of a read: found in the write queue, in the fill queue, or queued.
    The state is the controller, the burst, the bursts found and the helper. *)
Definition cache_read_burst (now : Tick) (pkt : Packet) (pktCount : Z)
    (s : Cache * Addr * Z * option nat) (_ : Z) : res (Cache * Addr * Z * option nat) :=
  let '(c, a, serviced, h) := s in
  l ← ceilLog2 burstSize;
  let c := c <| base ::= λ b, stat "readBursts" (stat_at "readPktSize" l b) |> in
  let foundInWrQ :=
    bool_decide ((addr pkt, a) ∈ inWriteQ c) &&
    existsb (subsumes a burstSize) (writeQueue (base c)) in
  let foundInFillQ :=
    negb foundInWrQ && bool_decide ((addr pkt, a) ∈ isInFillQueue c) &&
    existsb (subsumes a burstSize) (fillQueue c) in
  if foundInWrQ then
    Ok (c <| base ::= λ b, stat_plus "bytesReadWrQ" burstSize (stat "servicedByWrQ" b) |>,
        a + 1, serviced + 1, h)
  else if foundInFillQ then
    Ok (c <| base ::= λ b, stat_plus "bytesReadWrQ" burstSize (stat "dramCache_servicedByFillQ" b) |>,
        a + 1, serviced + 1, h)
  else
    let '(h, c) :=
      if (1 <? pktCount) && negb (isSome h)
      then let '(i, b) := new_helper pktCount (base c) in (Some i, c <| base := b |>)
      else (h, c) in
    c ← onBase (cache_push_read now pkt a h) c;
    Ok (c, a + 1, serviced, h).

(** The prediction for a CPU read: a predicted miss starts a parallel memory
    access with a clone of the packet. *)
Definition startPam (now draw : Z) (pkt : Packet) (c : Cache) : res Cache :=
  let blk_addr := blockAlign (addr pkt) in
  let '(hit, t) := predict_static draw blk_addr (tags c) in
  let c := c <| tags := t |> in
  if hit : bool then Ok c
  else
    let c := cstat "dramCache_pam_requests" c in
    pc ← cloned pkt c;
    let '(clone, c) := pc in
    rb ← allocateMissBuffer now clone (now + PREDICTION_LATENCY) (bufs c);
    Ok (c <| bufs := rb.2 |> <| pamQueue ::= <[blk_addr := mkPam (-1) false rb.1 pkt]> |>).

Definition cache_addToReadQueue (now draw : Z) (pkt : Packet) (pktCount : Z) (c : Cache) : res Cache :=
  assert (negb (isWrite (cmd pkt))) "!pkt->isWrite()";;
  assert (negb (pktCount =? 0)) "pktCount != 0";;
  let a := set_burst_addr dramCache_block_size dramCache_num_sets pktCount (addr pkt) in
  s ← foldM (cache_read_burst now pkt pktCount) (c, a, 0, None) (seqZ 0 pktCount);
  let '(c, _, serviced, h) := s in
  if serviced =? pktCount then access_respond now frontendLatency pkt c
  else
    let c := match h with
             | Some i => c <| base ::= λ b,
                 b <| helpers ::= alter (λ x, x <| burstsServiced := serviced |>) i |> |>
             | None => c
             end in
    c ← (if (serviced =? 0) && negb (isGPU pkt) && negb (isSome (pamQueue c !! addr pkt))
         then startPam now draw pkt c else Ok c);
    onBase (kick now) c.

Definition cache_push_write (now : Tick) (pkt : Packet) (a : Z) (h : option nat) (c : Cache)
    : res Cache :=
  assert (hasContextId pkt) "pkt->req->hasContextId()";;
  d ← cache_decodeAddr now pkt a burstSize false;
  let d := d <| burstHelper := h |> in
  let n := len (writeQueue (base c)) in
  assert (n <? writeBufferSize) "writeQueue.size() < writeBufferSize";;
  let c := c <| base ::= λ b,
    let b := stat_at "wrQLenPdf" n b in
    let b := if isGPU pkt then b else stat_at "cpuwrQLenPdf" n b in
    b <| writeQueue ::= λ q, q ++ [d] |> |> <| inWriteQ ::= λ s, {[(addr pkt, a)]} ∪ s |> in
  assert (len (writeQueue (base c)) =? Z.of_nat (base.size (inWriteQ c)))
    "writeQueue.size() == isInWriteQueue.size()";;
  Ok (c <| base ::= stat_is "avgWrQLen" (len (writeQueue (base c))) |>).

Definition cache_write_burst (now : Tick) (pkt : Packet) (pktCount : Z)
    (s : Cache * Addr * option nat) (_ : Z) : res (Cache * Addr * option nat) :=
  let '(c, a, h) := s in
  l ← ceilLog2 burstSize;
  let c := c <| base ::= λ b, stat "writeBursts" (stat_at "writePktSize" l b) |> in
  let '(h, c) :=
    if (1 <? pktCount) && negb (isSome h)
    then let '(i, b) := new_helper pktCount (base c) in (Some i, c <| base := b |>)
    else (h, c) in
  c ← cache_push_write now pkt a h c;
  Ok (c, a + 1, h).

(** The backing store is written at once, with a clone of the packet. *)
Definition cache_addToWriteQueue (now : Tick) (pkt : Packet) (pktCount : Z) (c : Cache) : res Cache :=
  assert (isWrite (cmd pkt)) "pkt->isWrite()";;
  let a := set_burst_addr dramCache_block_size dramCache_num_sets pktCount (addr pkt) in
  s ← foldM (cache_write_burst now pkt pktCount) (c, a, None) (seqZ 0 pktCount);
  pc ← cloned pkt s.1.1;
  ac ← cache_access pc.1 pc.2;
  onBase (kick now) ac.2.

(** ** Requests *)

(** The statistics of a lookup in the bypass tags. *)
Definition bypass_stats (hit : bool) (running : bool) (pkt : Packet) (c : Cache) : Cache :=
  let suffix := if hit then "_hits" else "_misses" in
  let kind := (if isRead (cmd pkt) then "_read" else "_write") +:+ suffix in
  let c := cstat ("bypassTag.num" +:+ kind) c in
  let c := cstat_if (negb (isGPU pkt)) ("bypassTag.num_cpu" +:+ kind) c in
  cstat_if (negb (isGPU pkt) && running) ("bypassTag.num_cpu" +:+ kind +:+ "_gpu_running") c.

(** A hit in the bypass tags goes to memory directly. *)
Definition bypass_hit (now : Tick) (pkt : Packet) (c : Cache) : res Cache :=
  if isRead (cmd pkt) then
    onBufs (λ b, rb ← allocateMissBuffer now pkt (now + PREDICTION_LATENCY) b; Ok rb.2) c
  else
    pc ← cache_access pkt c;
    let '(resp, c) := pc in
    let '(clone, c) := new_block_packet WriteReq (addr pkt) (contextId pkt) c in
    clone ← Packet.allocate clone;
    c ← onBufs (λ b, rb ← allocateWriteBuffer now clone (now + PREDICTION_LATENCY) b; Ok rb.2) c;
    respond now resp frontendLatency c.

(** The bypass of a CPU read while the GPU runs; [None] if the request goes to
    the cache.  The ready time passed to the MSHR is the constant. *)
Definition running_bypass (now : Tick) (pkt : Packet) (c : Cache) : res (option Cache * Cache) :=
  let '(s, tg) := getSetTagFromAddr (addr pkt) in
  let l := line (tags c) s in
  let go c := rb ← allocateMissBuffer now pkt PREDICTION_LATENCY (bufs c); Ok (c <| bufs := rb.2 |>) in
  if dirtyCleanBypassEnable && negb (dirty l) then
    c' ← go c; Ok (Some (cstat "dramCache_dirty_clean_bypass" c'), c)
  else
    let c := cstat_if (dirtyCleanBypassEnable && negb (tg =? tag l)) "dramCache_dirty_clean_bypass_miss" c in
    if bloomFilterEnable then
      let c := cstat "dramCache_bloom_filter_input" c in
      if bf_lookup (blockAlign (addr pkt)) (cbf (tags c)) =? 0 then
        c' ← go c; Ok (Some (cstat "dramCache_bloom_filter_bypass" c'), c)
      else
        Ok (None, if negb (tg =? tag l) then cstat "dramCache_bloom_filter_mispred_miss" c
                  else cstat_if (negb (dirty l)) "dramCache_bloom_filter_mispred_hit" c)
    else Ok (None, c).

(** The part of [recvTimingReq] behind the buffers and the bypass tags. *)
Definition queue_request (now draw : Z) (running : bool) (pkt : Packet) (c : Cache)
    : res (bool * Cache) :=
  let c := c <| switched_gpu_running := running |> in
  if isRead (cmd pkt) then
    oc ← (if negb (isGPU pkt) && running then running_bypass now pkt c else Ok (None, c));
    match oc with
    | (Some c, _) => Ok (true, c)
    | (None, c) =>
        assert (negb (size pkt =? 0)) "size != 0";;
        if readQueueFull DRAM_PKT_COUNT (base c)
        then Ok (false, c <| base ::= λ b, stat "numRdRetry" (b <| retryRdReq := true |>) |>)
        else
          c ← cache_addToReadQueue now draw pkt DRAM_PKT_COUNT c;
          Ok (true, c <| base ::= count_req "readReqs" "gpuReadReqs" "cpuReadReqs" "bytesReadSys" pkt |>)
    end
  else if isWrite (cmd pkt) then
    assert (negb (size pkt =? 0)) "size != 0";;
    if writeQueueFull DRAM_PKT_COUNT (base c)
    then Ok (false, c <| base ::= λ b, stat "numWrRetry" (b <| retryWrReq := true |>) |>)
    else
      c ← cache_addToWriteQueue now pkt DRAM_PKT_COUNT c;
      Ok (true, c <| base ::= count_req "writeReqs" "gpuWriteReqs" "cpuWriteReqs" "bytesWrittenSys" pkt |>)
  else Fault (Fatal "neither read not write").

Definition cache_recvTimingReq (now draw : Z) (running : bool) (pkt : Packet) (c : Cache)
    : res (bool * Cache) :=
  if negb dramCacheTimingMode then c ← access_respond now frontendLatency pkt c; Ok (true, c)
  else
    let c := c <| base ::= λ b, b <| pendingDelete := [] |> |> in
    if memInhibit pkt || bool_decide (cmd pkt = CleanEvict)
    then Ok (true, c <| base ::= λ b, b <| pendingDelete := [pkt] |> |>)
    else if negb (blocked (bufs c) =? 0)
    then Ok (false, c <| bufs ::= λ b, b <| cacheMustSendRetry := true |> |>)
    else
      let c := c <| base ::= arrival now |> in
      let blk_addr := blockAlign (addr pkt) in
      match findMatch blk_addr false (mshrQueue (bufs c)) with
      | Some i =>
          if bool_decide (cmd pkt = WriteReq)
          then Fault (Fatal "DRAMCache got a write request coalescing with read")
          else c ← onBufs (coalesce now (negb (isGPU pkt)) i pkt) c; Ok (true, c)
      | None =>
          if isSome (findMatch blk_addr false (writeBuffer (bufs c))) && isRead (cmd pkt) then
            let c := cstat "dramCache_writebuffer_hits" c in
            let c := cstat_if (negb (isGPU pkt)) "dramCache_cpu_writebuffer_hits" c in
            c ← access_respond now frontendLatency pkt c; Ok (true, c)
          else if bypassTagEnable then
            let '(hit, l) := isHit (addr pkt) (bypassTag c) in
            let c := bypass_stats hit running pkt (c <| bypassTag := l |>) in
            if hit : bool then c ← bypass_hit now pkt c; Ok (true, c)
            else queue_request now draw running pkt c
          else queue_request now draw running pkt c
      end.

Definition cache_recvAtomic (pkt : Packet) (c : Cache) : res (Tick * Packet * Cache) :=
  pc ← cache_access pkt c;
  let '(pkt, c) := pc in
  Ok (if negb (memInhibit pkt) && hasData (cmd pkt) then tRP + tRCD + tCL else 0, pkt, c).

(** ** Finished writes *)

(** The access of a write has read the tags: a miss goes to memory or, with
    write allocation, replaces the line. *)
Definition write_lookup (now : Tick) (pkt : Packet) (c : Cache) : res Cache :=
  ht ← doCacheLookup pkt (tags c);
  let '(hit, t) := ht in
  let c := c <| tags := t |> in
  if hit : bool then Ok c
  else if dramCache_write_allocate then
    let '(s, _) := getSetTagFromAddr (addr pkt) in
    c ← (if dirty (line (tags c) s)
         then doWriteBack now (regenerateBlkAddr s (tag (line (tags c) s))) (owner_ctx s c) c
         else Ok c);
    Ok (c <| tags ::= write_alloc_line pkt |>)
  else
    let '(p, c) := new_block_packet WriteReq (addr pkt) (contextId pkt) c in
    p ← Packet.allocate p;
    p ← copy_block p pkt;
    onBufs (λ b, rb ← allocateWriteBuffer now p (now + 1) b; Ok rb.2) c.

Definition all_idle (c : Cache) : bool :=
  draining (base c) && bool_decide (writeQueue (base c) = []) && bool_decide (readQueue (base c) = []).

Definition next_write_response (now : Tick) (c : Cache) : res Cache :=
  match dramPktWriteRespQueue c with
  | d :: _ =>
      assert (now <=? readyTime d) "dramPktWriteRespQueue.front()->readyTime >= curTick()";;
      assert (negb (scheduled (respondWriteEvent c))) "!respondWriteEvent.scheduled()";;
      ev ← schedule now (readyTime d) (respondWriteEvent c);
      Ok (c <| respondWriteEvent := ev |>)
  | [] =>
      Ok (if all_idle c && bool_decide (respQueue (base c) = [])
          then c <| base ::= signal_drained |> else c)
  end.

Definition processWriteRespondEvent (now : Tick) (c : Cache) : res Cache :=
  let c := c <| respondWriteEvent := None |> in
  match dramPktWriteRespQueue c with
  | [] => Fault (Panic "front of an empty queue")
  | d :: rest =>
      c ← match burstHelper d with
          | None => Fault (Fatal "DRAMCache ctrl doesnt support single burst for write")
          | Some h =>
              lb ← burst_done h (base c);
              let c := c <| base := lb.2 |> in
              if lb.1 : bool then
                c ← write_lookup now (dp_pkt d) c;
                assert (negb (isResponse (cmd (dp_pkt d)))) "!respPkt->isResponse()";;
                p ← makeResponse (dp_pkt d);
                respond now p frontendLatency c
              else Ok c
          end;
      next_write_response now (c <| dramPktWriteRespQueue := rest |>)
  end.

(** ** Finished reads *)

Definition miss_latency (now : Tick) (gpu : bool) (t : Target) (c : Cache) : Cache :=
  c <| base ::= λ b, b <| cstats ::=
    stat_add "dramCache_mshr_miss_latency" (if gpu then 1 else 0) (sub64 now (recvTime t)) |> |>.

(** [assert(getNumTargets() >= 1)], [getTarget()] and [popTarget()]. *)
Definition pop_first (r : mshr_ref) (c : Cache) : res (Target * Cache) :=
  let m := the_mshr (bufs c) r in
  assert (1 <=? getNumTargets m) "mshr->getNumTargets()>=1";;
  t ← getTarget m;
  Ok (t, c <| bufs ::= upd_mshr r (popTarget m) |>).

(** The remaining targets of a register, and the register without them. *)
Definition take_all (r : mshr_ref) (c : Cache) : list Target * Cache :=
  let '(ts, b) := takeTargets r (bufs c) in (ts, c <| bufs := b |>).

(** Deallocation with the test whether the queue was full. *)
Definition free_mshr (now : Tick) (r : mshr_ref) (c : Cache) : res Cache :=
  onBufs (λ b, deallocateMSHR now r (isFull (queue_of b r.1)) b) c.

(** The cache access that belongs to a parallel memory access is done. *)
Definition pam_hit (now : Tick) (pr : pamReq) (pkt : Packet) (c : Cache) : res Cache :=
  let latency := frontendLatency + backendLatency in
  c ← access_respond now latency pkt c;
  tc ← pop_first (pr_mshr pr) c;
  let '(ts, c) := take_all (pr_mshr pr) tc.2 in
  each_target (access_respond now latency) ts c.

Definition pam_miss (now : Tick) (running : bool) (pr : pamReq) (pkt : Packet) (c : Cache)
    : res Cache :=
  let latency := frontendLatency + backendLatency in
  tc ← pop_first (pr_mshr pr) c;
  let '(t, c) := tc in
  let first := t_pkt t in
  let c := miss_latency now (isGPU first) t c in
  c ← copy_respond now latency first pkt c;
  assert (hasContextId pkt) "dram_pkt->pkt->req->hasContextId()";;
  let '(ts, c) := take_all (pr_mshr pr) c in
  c ← each_target (copy_respond now latency first) ts c;
  fill_block now running (addr first) (contextId pkt) c.

Definition pam_access_done (now : Tick) (running : bool) (key : Addr) (pr : pamReq) (pkt : Packet)
    (hit : bool) (c : Cache) : res Cache :=
  let pr := pr <| pr_isHit := if hit then 1 else 0 |> in
  let c := c <| pamQueue ::= <[key := pr]> |> in
  if isPamComplete pr then
    c ← (if hit then pam_hit now pr pkt c else pam_miss now running pr pkt c);
    free_mshr now (pr_mshr pr) (c <| pamQueue ::= delete key |>)
  else if hit then
    c ← pam_hit now pr pkt c;
    let inService := inService (the_mshr (bufs c) (pr_mshr pr)) in
    c ← free_mshr now (pr_mshr pr) c;
    Ok (if inService then c else c <| pamQueue ::= delete key |>)
  else
    onBufs (λ b,
      m ← allocateTarget now pkt (headerDelay pkt) (order b) (the_mshr b (pr_mshr pr));
      Ok (upd_mshr (pr_mshr pr) m (b <| order ::= λ o, u64 (o + 1) |>))) c.

(** A miss without a parallel access goes to the MSHRs. *)
Definition read_miss (now : Tick) (d : DRAMPacket) (c : Cache) : res Cache :=
  let pkt := dp_pkt d in
  match findMatch (blockAlign (addr pkt)) false (mshrQueue (bufs c)) with
  | Some i => onBufs (coalesce now (isCPU d) i pkt) c
  | None => onBufs (λ b, rb ← allocateMissBuffer now pkt (now + 1) b; Ok rb.2) c
  end.

(** All bursts of a read are done. *)
Definition read_done (now : Tick) (running : bool) (d : DRAMPacket) (c : Cache) : res Cache :=
  let pkt := dp_pkt d in
  ht ← doCacheLookup pkt (tags c);
  let '(hit, t) := ht in
  let c := c <| tags := t |> in
  let normal :=
    if hit : bool then access_respond now (frontendLatency + backendLatency) pkt c
    else read_miss now d c in
  match pamQueue c !! addr pkt with
  | Some pr =>
      if pkt_id (pr_pkt pr) =? pkt_id pkt
      then pam_access_done now running (addr pkt) pr pkt hit c else normal
  | None => normal
  end.

Definition processRespondHelper (now : Tick) (c : Cache) : res Cache :=
  let c := c <| base ::= λ b, b <| respQueue ::= tail |> |> in
  c ← match respQueue (base c) with
      | d :: _ =>
          assert (now <=? readyTime d) "respQueue.front()->readyTime >= curTick()";;
          assert (negb (scheduled (respondEvent (base c)))) "!respondEvent.scheduled()";;
          ev ← schedule now (readyTime d) (respondEvent (base c));
          Ok (c <| base ::= λ b, b <| respondEvent := ev |> |>)
      | [] =>
          Ok (if all_idle c && bool_decide (dramPktWriteRespQueue c = [])
              then c <| base ::= signal_drained |> else c)
      end;
  Ok (c <| base ::= retry_read |>).

Definition cache_processRespondEvent (now : Tick) (running : bool) (c : Cache) : res Cache :=
  let c := c <| base ::= λ b, b <| respondEvent := None |> |> in
  match respQueue (base c) with
  | [] => Fault (Panic "front of an empty queue")
  | d :: _ =>
      c ← match burstHelper d with
          | None => Fault (Fatal "DRAMCache ctrl doesnt support single burst for read")
          | Some h =>
              lb ← burst_done h (base c);
              let c := c <| base := lb.2 |> in
              if lb.1 : bool then read_done now running d c else Ok c
          end;
      processRespondHelper now c
  end.

(** ** Responses of the memory behind the cache *)

Definition erase_pam (key : Addr) (c : Cache) : Cache := c <| pamQueue ::= delete key |>.

(** The memory answers a parallel access. *)
Definition pam_response (now : Tick) (running : bool) (r : mshr_ref) (pr : pamReq) (pkt : Packet)
    (c : Cache) : res Cache :=
  let pr := pr <| isPamComplete := true |> in
  let c := c <| pamQueue ::= <[addr pkt := pr]> |> in
  if pr_isHit pr =? -1 then
    let c := cstat "dramCache_pam_returned_before_access" c in
    let m := the_mshr (bufs c) (pr_mshr pr) in
    assert (1 <=? getNumTargets m) "pr->mshr->getNumTargets()>=1";;
    t ← getTarget m;
    p ← copy_block (t_pkt t) pkt;
    let m := m <| targets ::= λ l, l <| tlist ::= λ ts, (t <| t_pkt := p |>) :: tail ts |> |> in
    Ok (c <| bufs ::= upd_mshr (pr_mshr pr) m |>)
  else if pr_isHit pr =? 1 then Ok (erase_pam (addr pkt) c)
  else
    assert (bool_decide (r = pr_mshr pr)) "mshr==pr->mshr";;
    let wasFull := isFull (queue_of (bufs c) r.1) in
    c ← onBufs (clearNoTarget now r) c;
    tc ← pop_first r c;
    let '(ts, c) := take_all r tc.2 in
    c ← each_target (copy_respond now 1 pkt) ts c;
    c ← onBufs (deallocateMSHR now r wasFull) c;
    assert (hasContextId pkt) "pkt->req->hasContextId()";;
    c ← fill_block now running (addr pkt) (contextId pkt) c;
    Ok (erase_pam (addr pkt) c).

(** A block comes back for a miss: it is filled unless it is in the cache. *)
Definition miss_response (now : Tick) (running : bool) (r : mshr_ref) (pkt : Packet) (c : Cache)
    : res Cache :=
  assert (1 <=? getNumTargets (the_mshr (bufs c) r)) "mshr->getNumTargets()>=1";;
  t ← getTarget (the_mshr (bufs c) r);
  let '(s, tg) := getSetTagFromAddr (addr pkt) in
  let l := line (tags c) s in
  c ← (if negb (valid l) || negb (tag l =? tg) then
         assert (hasContextId pkt) "pkt->req->hasContextId()";;
         fill_block now running (addr pkt) (contextId pkt) c
       else Ok c);
  let c := miss_latency now (isGPU pkt) t c in
  let '(ts, c) := take_all r c in
  each_target (λ p c,
    assert (addr pkt =? addr p) "pkt->getAddr() == tgt_pkt->getAddr()";;
    access_respond now backendLatency p c) ts c.

Definition cache_recvTimingResp (now : Tick) (running : bool) (pkt : Packet) (c : Cache) : res Cache :=
  assert (isResponse (cmd pkt)) "pkt->isResponse()";;
  match senderState pkt with
  | None => Fault (AssertFail "mshr")
  | Some r =>
      match pamQueue c !! addr pkt, r.1 =? 0 with
      | Some pr, true => pam_response now running r pr pkt c
      | _, _ =>
          let wasFull := isFull (queue_of (bufs c) r.1) in
          c ← onBufs (clearNoTarget now r) c;
          c ← (if (r.1 =? 0) && isRead (cmd pkt) then miss_response now running r pkt c
               else if (r.1 =? 1) && isWrite (cmd pkt) then
                 let m := the_mshr (bufs c) r in
                 assert (getNumTargets m =? 1) "mshr->getNumTargets()==1";;
                 _ ← getTarget m;
                 Ok (c <| bufs ::= upd_mshr r (popTarget m) |>)
               else Fault (Fatal "DRAMCache doesn't understand this response"));
          onBufs (deallocateMSHR now r wasFull) c
      end
  end.

(** ** The request loop *)

Definition cache_turn_around (c : Cache) : bool * Cache :=
  match busState (base c) with
  | READ_TO_WRITE =>
      (true, c <| base ::= λ b,
         let b := stat_at "rdPerTurnAround" (readsThisTime (chan b)) b in
         b <| chan ::= λ s, s <| readsThisTime := 0 |> |> <| busState := WRITE |> |>)
  | WRITE_TO_READ =>
      let c := c <| base ::= λ b,
        stat_at "fillsPerTurnAround" (cacheFillsThisTime c)
          (stat_at "wrPerTurnAround" (cacheWritesThisTime c) b) |> in
      (true, c <| cacheWritesThisTime := 0 |> <| cacheFillsThisTime := 0 |>
               <| base ::= λ b, b <| chan ::= λ s, s <| writesThisTime := 0 |> |>
                                  <| busState := READ |> |>)
  | _ => (false, c)
  end.

(** Writes and fills that wait. *)
Definition pending_writes (c : Cache) : Z := len (writeQueue (base c)) + len (fillQueue c).

Definition cache_next_read (now : Tick) (switched : bool) (c : Cache) : res (bool * Cache) :=
  let b := base c in
  match readQueue b with
  | [] =>
      if negb (bool_decide (writeQueue b = []) && bool_decide (fillQueue c = [])) &&
         (draining b || (writeLowThreshold <? pending_writes c))
      then Ok (true, c <| base ::= λ b, b <| busState := READ_TO_WRITE |> |>)
      else Ok (false, if draining b && bool_decide (respQueue b = []) &&
                         bool_decide (dramPktWriteRespQueue c = [])
                      then c <| base ::= signal_drained |> else c)
  | _ :: _ =>
      fq ← chooseNext (ranks (chan b)) now (busBusyUntil (chan b)) (readQueue b)
             (if switched then tCS else 0);
      let '(found, q) := fq in
      let b := b <| readQueue := q |> in
      if negb found then Ok (false, c <| base := b |>)
      else
        match q with
        | [] => Fault (Panic "front of an empty queue")
        | d :: rest =>
            assert (isAvailable (rankRef (ranks (chan b)) d)) "dram_pkt->rankRef.isAvailable()";;
            ds ← cache_doDRAMAccess now q (writeQueue b) (fillQueue c) d
                   (bubble switched d (tWTR + tCL) (chan b));
            let '(d, s) := ds in
            assert (dp_size d <=? burstSize) "dram_pkt->size <= burstSize";;
            assert (now <=? readyTime d) "dram_pkt->readyTime >= curTick()";;
            b ← push_response now d (b <| chan := s |> <| readQueue := rest |>);
            let b := if writeHighThreshold <? pending_writes c
                     then b <| busState := READ_TO_WRITE |> else b in
            Ok (true, c <| base := b |>)
        end
  end.

Definition push_write_response (now : Tick) (d : DRAMPacket) (c : Cache) : res Cache :=
  c ← match last (dramPktWriteRespQueue c) with
      | None =>
          assert (negb (scheduled (respondWriteEvent c))) "!respondWriteEvent.scheduled()";;
          ev ← schedule now (readyTime d) (respondWriteEvent c);
          Ok (c <| respondWriteEvent := ev |>)
      | Some e =>
          assert (readyTime e <=? readyTime d)
            "dramPktWriteRespQueue.back()->readyTime <= dram_pkt->readyTime";;
          assert (scheduled (respondWriteEvent c)) "respondWriteEvent.scheduled()";;
          Ok c
      end;
  Ok (c <| dramPktWriteRespQueue ::= λ q, q ++ [d] |>).

(** A write; [false] if none goes to a free rank. *)
Definition service_write (now : Tick) (switched : bool) (c : Cache) : res (bool * Cache) :=
  let b := base c in
  fq ← chooseNext (ranks (chan b)) now (busBusyUntil (chan b)) (writeQueue b)
         (if switched then Z.min tRTW tCS else 0);
  let '(found, q) := fq in
  let c := c <| base ::= λ b, b <| writeQueue := q |> |> in
  if negb found then Ok (false, c)
  else
    match q with
    | [] => Fault (Panic "front of an empty queue")
    | d :: rest =>
        assert (isAvailable (rankRef (ranks (chan b)) d)) "dram_pkt->rankRef.isAvailable()";;
        assert (dp_size d <=? burstSize) "dram_pkt->size <= burstSize";;
        ds ← cache_doDRAMAccess now (readQueue b) q (fillQueue c) d (bubble switched d tRTW (chan b));
        let '(d, s) := ds in
        let c := c <| base ::= λ b, b <| chan := s |> <| writeQueue := rest |> |>
                   <| inWriteQ ::= λ w, w ∖ {[(addr (dp_pkt d), dp_addr d)]} |> in
        c ← push_write_response now d c;
        Ok (true, c <| cacheWritesThisTime ::= λ n, u32 (n + 1) |>)
    end.

(** A fill. *)
Definition service_fill (now : Tick) (switched : bool) (c : Cache) : res (bool * Cache) :=
  let b := base c in
  fq ← chooseNext (ranks (chan b)) now (busBusyUntil (chan b)) (fillQueue c)
         (if switched then Z.min tRTW tCS else 0);
  let '(found, q) := fq in
  let c := c <| fillQueue := q |> in
  if negb found then Ok (false, c)
  else
    match q with
    | [] => Fault (Panic "front of an empty queue")
    | d :: rest =>
        assert (isAvailable (rankRef (ranks (chan b)) d)) "dram_pkt->rankRef.isAvailable()";;
        assert (dp_size d <=? burstSize) "dram_pkt->size <= burstSize";;
        ds ← cache_doDRAMAccess now (readQueue b) (writeQueue b) q d (bubble switched d tRTW (chan b));
        let '(d, s) := ds in
        let c := c <| base ::= λ b, b <| chan := s |> |>
                   <| cacheFillsThisTime ::= λ n, u32 (n + 1) |> <| fillQueue := rest |>
                   <| isInFillQueue ::= λ w, w ∖ {[(requestAddr d, dp_addr d)]} |> in
        assert (len (fillQueue c) =? Z.of_nat (base.size (isInFillQueue c)))
          "fillQueue.size() == isInFillQueue.size()";;
        Ok (true, c)
    end.

(** Writes or fills; then the bus may turn back to reads. *)
Definition do_writes (c : Cache) : bool :=
  let w := writeQueue (base c) in
  negb (bool_decide (w = [])) &&
  ((len (fillQueue c) <? fillHighThreshold) ||
   (Z.min writeHighThreshold fillHighThreshold <? len w)).
Definition do_fills (c : Cache) : bool :=
  let w := writeQueue (base c) in
  bool_decide (w = []) || (negb (bool_decide (w = [])) && (fillHighThreshold <=? len (fillQueue c))).

Definition cache_next_write (now : Tick) (switched : bool) (c : Cache) : res (bool * Cache) :=
  gc ← (if do_writes c then service_write now switched c
        else if do_fills c then service_fill now switched c
        else Fault (Fatal "busState write; unable determine service fills or writes"));
  let '(go, c) := gc in
  if negb go then Ok (false, c)
  else
    let b := base c in
    let back :=
      (bool_decide (writeQueue b = []) && bool_decide (fillQueue c = [])) ||
      ((pending_writes c + minWritesPerSwitch <? writeLowThreshold) && negb (draining b)) ||
      (negb (bool_decide (readQueue b = [])) && (minWritesPerSwitch <=? writesThisTime (chan b))) in
    Ok (true, if back then c <| base ::= λ b, b <| busState := WRITE_TO_READ |> |> else c).

Definition cache_processNextReqEvent (now : Tick) (c : Cache) : res Cache :=
  let c := c <| base ::= λ b, b <| nextReqEvent := None |> |> in
  bs ← check_ranks now (chan (base c), nextReqEvent (base c));
  let '(busyRanks, s) := bs in
  let c := c <| base ::= λ b, b <| chan := s.1 |> <| nextReqEvent := s.2 |> |> in
  if busyRanks =? ranksPerChannel then Ok c
  else
    let '(switched, c) := cache_turn_around c in
    gc ← (if bool_decide (busState (base c) = READ) then cache_next_read now switched c
          else cache_next_write now switched c);
    if gc.1 : bool then onBase (finish_req now) gc.2 else Ok gc.2.

(** ** Draining *)

Definition cache_drain (now : Tick) (c : Cache) : res (bool * Cache) :=
  let b := base c in
  if bool_decide (writeQueue b = []) && bool_decide (readQueue b = []) &&
     bool_decide (respQueue b = []) && bool_decide (dramPktWriteRespQueue c = [])
  then Ok (true, c)
  else
    c ← (if bool_decide (writeQueue b = []) then Ok c else onBase (kick now) c);
    Ok (false, c <| base ::= λ b, b <| draining := true |> |>).
End cache.
End CacheCtrl.
