(* ===== verification/PamView.v ===== *)
(** * Parallel memory accesses and reads on their way

    The invariant that ties the table of parallel accesses to the miss registers
    and to the reads on their way in the memory, as an abstract state: the map of
    the miss registers, the table, and the list of the reads, oldest first.  An
    entry of the table whose access hit is stale: its register is free and may
    serve another block, but its read is still to come back. *)

From S2P Require Import Prelude Packet MissView CacheCtrl.
Import Packet MissView CacheCtrl.

Module PamView.

(** ** The waiting packets of a map of registers *)

Definition nn (l : list Z) : list Z := filter (λ x, 0 ≤ x) l.
Definition held (v : gmap nat Ent) : list Z := map_to_list v ≫= λ ie, nn (e_ids ie.2).

Lemma nn_all l : Forall (λ x, 0 ≤ x) l → nn l = l.
Proof. unfold nn. induction 1; [done|]. rewrite filter_cons_True by done. congruence. Qed.
Lemma nn_neg x l : x < 0 → nn (x :: l) = nn l.
Proof. intros. unfold nn. by rewrite filter_cons_False by lia. Qed.
Lemma nn_snoc l x : 0 ≤ x → nn (l ++ [x]) = nn l ++ [x].
Proof. intros. unfold nn. rewrite filter_app, filter_cons_True by done. done. Qed.

#[global] Instance held_perm : Proper ((≡ₚ) ==> (≡ₚ)) (λ l : list (nat * Ent), l ≫= λ ie, nn (e_ids ie.2)).
Proof.
  intros l l' H. induction H; csimpl; [done|by apply Permutation_app_head| |by etrans].
  rewrite !app_assoc. apply Permutation_app_tail, Permutation_app_comm.
Qed.

Lemma held_insert v i e : v !! i = None → held (<[i := e]> v) ≡ₚ nn (e_ids e) ++ held v.
Proof. intros H. unfold held. rewrite map_to_list_insert by done. done. Qed.
Lemma held_split v i e : v !! i = Some e → held v ≡ₚ nn (e_ids e) ++ held (delete i v).
Proof.
  intros H. rewrite <-(insert_delete_id v i e H) at 1. apply held_insert, lookup_delete_eq.
Qed.
Lemma held_upd v i e : held (<[i := e]> v) ≡ₚ nn (e_ids e) ++ held (delete i v).
Proof. rewrite <-insert_delete_eq. apply held_insert, lookup_delete_eq. Qed.

(** ** The invariant *)

Implicit Types (v : gmap nat Ent) (pam : gmap Addr pamReq) (F : list (nat * Addr)) (a : Addr).

Definition stale pam a : bool :=
  match pam !! a with Some pr => pr_isHit pr =? 1 | None => false end.
Definition complete pam a : bool :=
  match pam !! a with Some pr => isPamComplete pr | None => false end.

(** The reads of a block, oldest first. *)
Definition flight a F : list nat := (filter (λ x, x.2 = a) F).*1.

(** The register of a block whose read is to come back. *)
Definition awaited v pam a (i : nat) : Prop :=
  ∃ e, v !! i = Some e ∧ e_addr e = a ∧ e_sent e = true ∧ complete pam a = false.

(** An entry that is not stale owns the register of its block, whose first
    target is the packet that the controller cloned. *)
Definition pam_reg v a (pr : pamReq) : Prop :=
  (pr_isHit pr = -1 ∨ pr_isHit pr = 0 ∧ isPamComplete pr = false) ∧
  ∃ i e y ys, pr_mshr pr = (0, i) ∧ v !! i = Some e ∧ e_addr e = a ∧ e_ids e = y :: ys ∧ y < 0 ∧
    (isPamComplete pr = true → e_sent e = true).

(** The reads of a block: that of a stale entry, then that of its register. *)
Definition flight_ok v pam F a : Prop :=
  ∃ L l, flight a F = L ++ l ∧ length L = (if stale pam a then 1%nat else 0%nat) ∧
    (length l ≤ 1)%nat ∧ ∀ i, i ∈ l ↔ awaited v pam a i.

Record pam_ok v pam F : Prop :=
  { po_uniq : ∀ i j e e', v !! i = Some e → v !! j = Some e' → e_addr e = e_addr e' → i = j;
    po_entry : ∀ a pr, pam !! a = Some pr →
      pr_isHit pr = 1 ∧ isPamComplete pr = false ∨ pam_reg v a pr;
    po_tail : ∀ i e, v !! i = Some e → Forall (λ x, 0 ≤ x) (tail (e_ids e));
    po_head : ∀ i e y, v !! i = Some e → head (e_ids e) = Some y → y < 0 →
      ∃ pr, pam !! e_addr e = Some pr ∧ pr_isHit pr ≠ 1;
    po_flight : ∀ a, flight_ok v pam F a }.

Lemma pam_empty : pam_ok ∅ ∅ [].
Proof.
  split; try (intros *; rewrite lookup_empty; done).
  intros a. exists [], []. split_and!; [done..|cbn; lia|]. intros i.
  split; [by intros ?%not_elem_of_nil|]. intros (e & He & _). by rewrite lookup_empty in He.
Qed.

Lemma flight_app a F i b : flight a (F ++ [(i, b)]) = flight a F ++ (if decide (b = a) then [i] else []).
Proof. unfold flight. rewrite filter_app, fmap_app. f_equal. cbn. by case_decide. Qed.

(** Only the blocks whose registers and entry change need an argument. *)
Lemma awaited_ext v v' pam pam' a i :
  (∀ e, e_addr e = a → e_sent e = true → v' !! i = Some e ↔ v !! i = Some e) → complete pam' a = complete pam a →
  awaited v' pam' a i ↔ awaited v pam a i.
Proof. intros Hv Hc. unfold awaited. rewrite Hc. naive_solver. Qed.

Lemma flight_same v pam F v' pam' F' a :
  flight_ok v pam F a → flight a F' = flight a F → pam' !! a = pam !! a →
  (∀ i e, e_addr e = a → e_sent e = true → v' !! i = Some e ↔ v !! i = Some e) →
  flight_ok v' pam' F' a.
Proof.
  intros (L & l & E & HL & Hl & Ha) EF Ep Hv. exists L, l. unfold stale in *. rewrite EF, Ep.
  split_and!; try done. intros i. rewrite Ha. symmetry. apply awaited_ext; [auto|].
  unfold complete. by rewrite Ep.
Qed.

(** The oldest read of a block comes back. *)
Fixpoint drop_first a F : list (nat * Addr) :=
  match F with
  | [] => []
  | x :: F => if decide (x.2 = a) then F else x :: drop_first a F
  end.
Lemma flight_drop a b F :
  flight b (drop_first a F) = if decide (b = a) then tail (flight b F) else flight b F.
Proof.
  unfold flight. induction F as [|x F IH]; cbn [drop_first]; [by case_decide|].
  destruct (decide (x.2 = a)) as [Hx|Hx].
  - destruct (decide (b = a)) as [->|]; [by rewrite filter_cons_True|].
    by rewrite filter_cons_False by congruence.
  - destruct (decide (x.2 = b)) as [Hb|Hb].
    + rewrite !filter_cons_True, !fmap_cons, IH by done. by rewrite !decide_False by congruence.
    + by rewrite !filter_cons_False, IH by done.
Qed.

(** What the reads of a block are. *)
Lemma flight_live v pam F a : pam_ok v pam F → stale pam a = false →
  (∀ i, awaited v pam a i → flight a F = [i]) ∧
  (∀ i l, flight a F = i :: l → awaited v pam a i ∧ l = []) ∧
  ((∀ i, ¬ awaited v pam a i) → flight a F = []).
Proof.
  intros H Hs. destruct (po_flight _ _ _ H a) as (L & l & E & HL & Hl & Ha). rewrite Hs in HL.
  apply nil_length_inv in HL as ->. cbn in E. rewrite E. split_and!.
  - intros i Hi%Ha. destruct l as [|j [|]]; [set_solver| |cbn in Hl; lia].
    apply list_elem_of_singleton in Hi as ->. done.
  - intros i l' El. destruct l as [|j [|]]; [done| |cbn in Hl; lia]. injection El as -> <-.
    split; [apply Ha; left|done].
  - intros Hn. destruct l as [|j l]; [done|]. destruct (Hn j). apply Ha. left.
Qed.
Lemma flight_stale v pam F a : pam_ok v pam F → stale pam a = true →
  ∃ j l, flight a F = j :: l ∧ (length l ≤ 1)%nat ∧ ∀ i, i ∈ l ↔ awaited v pam a i.
Proof.
  intros H Hs. destruct (po_flight _ _ _ H a) as (L & l & E & HL & Hl & Ha). rewrite Hs in HL.
  destruct L as [|j [|]]; try done. exists j, l. done.
Qed.

(** An entry that is not stale, and the register of a block. *)
Lemma pam_active v pam F a pr : pam_ok v pam F → pam !! a = Some pr → pr_isHit pr ≠ 1 → pam_reg v a pr.
Proof. intros H Hp Hn. destruct (po_entry _ _ _ H a pr Hp) as [[? _]|]; done. Qed.

Lemma no_reg_stale v pam F a pr : pam_ok v pam F → (∀ i e, v !! i = Some e → e_addr e ≠ a) →
  pam !! a = Some pr → pr_isHit pr = 1 ∧ isPamComplete pr = false.
Proof.
  intros H Hn Hp. destruct (po_entry _ _ _ H a pr Hp) as [|(_ & i & e & y & ys & _ & Hi & Ha & _)]; [done|].
  by destruct (Hn i e Hi).
Qed.

(** Registers of other blocks are unaffected. *)
Lemma pam_reg_ext v v' a pr :
  (∀ i e, v !! i = Some e → e_addr e = a → v' !! i = Some e) → pam_reg v a pr → pam_reg v' a pr.
Proof. intros Hv (Hh & i & e & y & ys & H1 & H2 & H3 & H4). split; [done|]. exists i, e, y, ys. auto. Qed.

(** A register is allocated for a request, without and with a parallel access. *)
Lemma pam_alloc v pam F i a y :
  pam_ok v pam F → v !! i = None → (∀ j e, v !! j = Some e → e_addr e ≠ a) → 0 ≤ y →
  pam_ok (<[i := mkEnt a false [y]]> v) pam F.
Proof.
  intros H Hi Hn Hy. split.
  - intros j k e e' [[<- <-]|[Hj1 Hj]]%lookup_insert_Some [[<- <-]|[Hk1 Hk]]%lookup_insert_Some E; cbn in *.
    + done. + destruct (Hn k e'); done. + destruct (Hn j e); done. + by eapply (po_uniq _ _ _ H).
  - intros b pr Hp. destruct (po_entry _ _ _ H b pr Hp) as [|Hr]; [by left|right].
    eapply pam_reg_ext, Hr. intros j e Hj _. rewrite lookup_insert_ne; congruence.
  - intros j e [[<- <-]|[Hj1 Hj]]%lookup_insert_Some; [done|]. by eapply (po_tail _ _ _ H).
  - intros j e z [[<- <-]|[Hj1 Hj]]%lookup_insert_Some; [cbn; intros [= <-]; lia|].
    by eapply (po_head _ _ _ H).
  - intros b. eapply flight_same; [apply (po_flight _ _ _ H)|done..|].
    intros j e Eb Es. rewrite lookup_insert. case_decide as Ej; [|done]. subst j. rewrite Hi.
    split; [|done]. intros [= <-]. done.
Qed.

Lemma pam_start v pam F i a y pr :
  pam_ok v pam F → v !! i = None → (∀ j e, v !! j = Some e → e_addr e ≠ a) → y < 0 →
  pam !! a = None → pr_isHit pr = -1 → isPamComplete pr = false → pr_mshr pr = (0, i) →
  pam_ok (<[i := mkEnt a false [y]]> v) (<[a := pr]> pam) F.
Proof.
  intros H Hi Hn Hy Ha P1 P2 P3. split.
  - intros j k e e' [[<- <-]|[Hj1 Hj]]%lookup_insert_Some [[<- <-]|[Hk1 Hk]]%lookup_insert_Some E; cbn in *.
    + done. + destruct (Hn k e'); done. + destruct (Hn j e); done. + by eapply (po_uniq _ _ _ H).
  - intros b pr' [[<- <-]|[Hb Hp]]%lookup_insert_Some.
    + right. split; [by left|]. exists i, (mkEnt a false [y]), y, []. rewrite lookup_insert_eq.
      split_and!; try done. congruence.
    + destruct (po_entry _ _ _ H b pr' Hp) as [|Hr]; [by left|right].
      eapply pam_reg_ext, Hr. intros j e Hj _. rewrite lookup_insert_ne; congruence.
  - intros j e [[<- <-]|[Hj1 Hj]]%lookup_insert_Some; [done|]. by eapply (po_tail _ _ _ H).
  - intros j e z [[<- <-]|[Hj1 Hj]]%lookup_insert_Some; cbn.
    + intros [= <-] _. exists pr. rewrite lookup_insert_eq. split; [done|]. lia.
    + intros Hh Hz. rewrite lookup_insert_ne by (intros E; by apply (Hn j e)). by eapply (po_head _ _ _ H).
  - intros b. destruct (decide (a = b)) as [<-|Hab].
    + destruct (flight_live v pam F a H) as (_ & _ & Hf); [unfold stale; by rewrite Ha|].
      exists [], []. rewrite Hf; [|by intros j (e & He & Ea & _); apply (Hn j e)].
      unfold stale. rewrite lookup_insert_eq, P1. split_and!; [done..|cbn; lia|]. intros j.
      split; [by intros ?%not_elem_of_nil|].
      intros (e & [[<- <-]|[Hj1 Hj]]%lookup_insert_Some & Ea & Es & _); [done|]. by destruct (Hn j e).
    + eapply flight_same; [apply (po_flight _ _ _ H)|done|by rewrite lookup_insert_ne|].
      intros j e Eb Es. rewrite lookup_insert. case_decide; [|done]. subst j. rewrite Hi. naive_solver.
Qed.

(** A register changes its targets only. *)
Lemma pam_targets v pam F i e l :
  pam_ok v pam F → v !! i = Some e → head l = head (e_ids e) ∨ (e_ids e = [] ∧ ∀ y, head l = Some y → 0 ≤ y) →
  Forall (λ x, 0 ≤ x) (tail l) → pam_ok (<[i := e <| e_ids := l |>]> v) pam F.
Proof.
  intros H Hi Hh Ht.
  assert (Hv : ∀ j e', <[i := e <| e_ids := l |>]> v !! j = Some e' →
    ∃ e0, v !! j = Some e0 ∧ e_addr e' = e_addr e0 ∧ e_sent e' = e_sent e0 ∧
      (e' = e0 ∨ j = i ∧ e' = e <| e_ids := l |>)).
  { intros j e' [[<- <-]|[Hj1 Hj]]%lookup_insert_Some; [exists e; split_and!; eauto|exists e'; split_and!; eauto]. }
  split.
  - intros j k e1 e2 (e1' & H1 & E1 & _)%Hv (e2' & H2 & E2 & _)%Hv E. rewrite E1, E2 in E.
    by eapply (po_uniq _ _ _ H).
  - intros b pr Hp. destruct (po_entry _ _ _ H b pr Hp) as [|(Hr & j & e' & y & ys & M1 & M2 & M3 & M4 & M5)];
      [by left|right]. split; [done|]. destruct (decide (i = j)) as [<-|Hne].
    + rewrite Hi in M2. injection M2 as <-. rewrite M4 in Hh. destruct Hh as [Hh|[? _]]; [|done].
      destruct l as [|y' ys']; [done|]. injection Hh as ->.
      exists i, (e <| e_ids := y :: ys' |>), y, ys'. rewrite lookup_insert_eq. split_and!; try done; apply M5.
    + exists j, e', y, ys. rewrite lookup_insert_ne by done. done.
  - intros j e' (e0 & H0 & _ & _ & [->|[-> ->]])%Hv; [by eapply (po_tail _ _ _ H)|done].
  - intros j e' y (e0 & H0 & _ & _ & [->|[-> ->]])%Hv Hy Hneg; [by eapply (po_head _ _ _ H)|].
    cbn in *. destruct Hh as [Hh|[_ Hh]]; [|specialize (Hh y Hy); lia].
    rewrite Hh in Hy. by eapply (po_head _ _ _ H i e).
  - intros b. destruct (po_flight _ _ _ H b) as (L & l' & E & HL & Hl & Ha). exists L, l'.
    split_and!; try done. intros j. rewrite Ha. split.
    + intros (e' & He' & Ea & Es & Ec). destruct (decide (i = j)) as [<-|Hne].
      * rewrite Hi in He'. injection He' as <-. exists (e <| e_ids := l |>). by rewrite lookup_insert_eq.
      * exists e'. by rewrite lookup_insert_ne.
    + intros (e' & (e0 & He0 & Ea' & Es' & _)%Hv & Ea & Es & Ec). exists e0. split_and!; congruence.
Qed.

Lemma pam_join v pam F i e y :
  pam_ok v pam F → v !! i = Some e → 0 ≤ y →
  pam_ok (<[i := e <| e_ids ::= λ l, l ++ [y] |>]> v) pam F.
Proof.
  intros H Hi Hy. apply pam_targets; [done|done| |].
  - destruct (e_ids e) as [|z l]; [right|by left]. split; [done|]. intros ? [= <-]. done.
  - pose proof (po_tail _ _ _ H i e Hi) as Ht. destruct (e_ids e) as [|z l]; [done|]. cbn in *.
    apply Forall_app. split; [done|]. by constructor.
Qed.

(** The read of a register is sent. *)
Lemma pam_sent v pam F i e :
  pam_ok v pam F → v !! i = Some e → e_sent e = false →
  pam_ok (<[i := e <| e_sent := true |>]> v) pam (F ++ [(i, e_addr e)]).
Proof.
  intros H Hi Hs.
  assert (Hv : ∀ j e', <[i := e <| e_sent := true |>]> v !! j = Some e' →
    ∃ e0, v !! j = Some e0 ∧ e_addr e' = e_addr e0 ∧ e_ids e' = e_ids e0 ∧ (e' = e0 ∨ j = i)).
  { intros j e' [[<- <-]|[Hj1 Hj]]%lookup_insert_Some; [exists e|exists e']; split_and!; eauto. }
  assert (Hc : complete pam (e_addr e) = false).
  { unfold complete. destruct (pam !! e_addr e) as [pr|] eqn:Ep; [|done].
    destruct (po_entry _ _ _ H _ _ Ep) as [[_ ?]|(_ & j & e' & _ & _ & _ & Hj & Ea & _ & _ & Hcm)]; [done|].
    destruct (isPamComplete pr); [|done]. rewrite (po_uniq _ _ _ H j i e' e) in Hj by done.
    rewrite Hi in Hj. injection Hj as <-. by rewrite Hcm in Hs. }
  split.
  - intros j k e1 e2 (e1' & H1 & E1 & _)%Hv (e2' & H2 & E2 & _)%Hv E. rewrite E1, E2 in E.
    by eapply (po_uniq _ _ _ H).
  - intros b pr Hp. destruct (po_entry _ _ _ H b pr Hp) as [|(Hr & j & e' & y & ys & M1 & M2 & M3 & M4 & M5 & M6)];
      [by left|right]. split; [done|]. destruct (decide (i = j)) as [<-|Hne].
    + rewrite Hi in M2. injection M2 as <-. exists i, (e <| e_sent := true |>), y, ys.
      by rewrite lookup_insert_eq.
    + exists j, e', y, ys. by rewrite lookup_insert_ne.
  - intros j e' (e0 & H0 & _ & -> & _)%Hv. by eapply (po_tail _ _ _ H).
  - intros j e' y (e0 & H0 & -> & -> & _)%Hv. by eapply (po_head _ _ _ H).
  - intros b. destruct (decide (e_addr e = b)) as [<-|Hne].
    + destruct (po_flight _ _ _ H (e_addr e)) as (L & l & E & HL & Hl & Ha).
      assert (l = []) as ->.
      { destruct l as [|j l]; [done|]. exfalso. destruct (proj1 (Ha j)) as (e' & Hj & Ea & Es & _); [left|].
        rewrite (po_uniq _ _ _ H j i e' e) in Hj by done. congruence. }
      exists L, [i]. rewrite flight_app, decide_True, E, app_nil_r by done.
      split_and!; [done..|cbn; lia|]. intros j. rewrite list_elem_of_singleton. split.
      * intros ->. eexists. rewrite lookup_insert_eq. done.
      * intros (e' & (e0 & H0 & Ea & _)%Hv & Ea' & _). eapply (po_uniq _ _ _ H); [done..|congruence].
    + eapply flight_same; [apply (po_flight _ _ _ H)| |done|].
      * by rewrite flight_app, decide_False, app_nil_r.
      * intros j e' Eb _. rewrite lookup_insert. case_decide as Ej; [|done]. subst j. rewrite Hi.
        split; intros [= <-]; done.
Qed.

(** The register of a block is freed: its entry goes or becomes stale, and at
    most the read of a stale entry remains. *)
Lemma pam_free v pam F pam' F' i e :
  pam_ok v pam F → v !! i = Some e →
  (∀ b, b ≠ e_addr e → pam' !! b = pam !! b) →
  (∀ pr, pam' !! e_addr e = Some pr → pr_isHit pr = 1 ∧ isPamComplete pr = false) →
  (∀ b, b ≠ e_addr e → flight b F' = flight b F) →
  length (flight (e_addr e) F') = (if stale pam' (e_addr e) then 1%nat else 0%nat) →
  pam_ok (delete i v) pam' F'.
Proof.
  intros H Hi Hp Hpa HF HFa.
  assert (Hother : ∀ j e', delete i v !! j = Some e' → v !! j = Some e' ∧ e_addr e' ≠ e_addr e).
  { intros j e' [Hne Hj]%lookup_delete_Some. split; [done|]. intros E. apply Hne.
    symmetry. by eapply (po_uniq _ _ _ H). }
  split.
  - intros j k e1 e2 [H1 _]%Hother [H2 _]%Hother. by eapply (po_uniq _ _ _ H).
  - intros b pr Hb. destruct (decide (b = e_addr e)) as [->|Hne]; [left; auto|].
    rewrite Hp in Hb by done. destruct (po_entry _ _ _ H b pr Hb) as [|Hr]; [by left|right].
    eapply pam_reg_ext, Hr. intros j e' Hj Ea. rewrite lookup_delete_ne; [done|]. intros <-. congruence.
  - intros j e' [Hj _]%Hother. by eapply (po_tail _ _ _ H).
  - intros j e' y [Hj Hne]%Hother. rewrite Hp by done. by eapply (po_head _ _ _ H).
  - intros b. destruct (decide (b = e_addr e)) as [->|Hne].
    + exists (flight (e_addr e) F'), []. rewrite app_nil_r. split_and!; [done..|cbn; lia|].
      intros j. split; [by intros ?%not_elem_of_nil|]. intros (e' & [_ He']%Hother & Ea & _). done.
    + eapply flight_same; [apply (po_flight _ _ _ H)|by apply HF|by apply Hp|].
      intros j e' Eb _. rewrite lookup_delete. case_decide as Ej; [|done]. subst j. rewrite Hi.
      split; [done|]. intros [= <-]. done.
Qed.

(** The read of a stale entry comes back. *)
Lemma pam_drop_stale v pam F a :
  pam_ok v pam F → stale pam a = true → pam_ok v (delete a pam) (drop_first a F).
Proof.
  intros H Hs. destruct (flight_stale v pam F a H Hs) as (j & l & E & Hl & Ha).
  unfold stale in Hs. destruct (pam !! a) as [pr|] eqn:Ep; [|done]. apply Z.eqb_eq in Hs.
  assert (Hc : complete pam a = false).
  { unfold complete. rewrite Ep. by destruct (po_entry _ _ _ H a pr Ep) as [[_ ?]|[[?|[? _]] _]]; [|lia..]. }
  split.
  - apply H.
  - intros b pr' [Hne Hb]%lookup_delete_Some. by apply (po_entry _ _ _ H).
  - apply H.
  - intros i e y Hi Hy Hn. destruct (po_head _ _ _ H i e y Hi Hy Hn) as (pr' & Hp & Hh).
    exists pr'. split; [|done]. rewrite lookup_delete_ne; [done|]. intros E'. rewrite <-E' in Hp. congruence.
  - intros b. destruct (decide (b = a)) as [->|Hne].
    + exists [], l. rewrite flight_drop, decide_True, E by done. unfold stale.
      rewrite lookup_delete_eq. split_and!; try done. intros i. rewrite Ha. unfold awaited.
      rewrite Hc. unfold complete. rewrite lookup_delete_eq. done.
    + eapply flight_same; [apply (po_flight _ _ _ H)| |by rewrite lookup_delete_ne|done].
      by rewrite flight_drop, decide_False.
Qed.

(** The entry of a block changes while its register stays. *)
Lemma pam_mark v pam F F' a pr pr' :
  pam_ok v pam F → pam !! a = Some pr → pr_isHit pr ≠ 1 → pam_reg v a pr' →
  (∀ b, b ≠ a → flight b F' = flight b F) →
  flight a F' = (if isPamComplete pr' then [] else flight a F) →
  (isPamComplete pr = true → isPamComplete pr' = true) →
  pam_ok v (<[a := pr']> pam) F'.
Proof.
  intros H Hp Hh Hr HF HFa Hmono.
  assert (Hns : stale pam a = false) by (unfold stale; rewrite Hp; by apply Z.eqb_neq).
  assert (Hns' : stale (<[a := pr']> pam) a = false).
  { unfold stale. rewrite lookup_insert_eq. apply Z.eqb_neq. destruct Hr as [[?|[? _]] _]; lia. }
  split.
  - apply H.
  - intros b pr1 [[<- <-]|[Hne Hb]]%lookup_insert_Some; [by right|]. by apply (po_entry _ _ _ H).
  - apply H.
  - intros i e y Hi Hy Hn. destruct (po_head _ _ _ H i e y Hi Hy Hn) as (pr1 & Hp1 & Hh1).
    destruct (decide (a = e_addr e)) as [<-|]; [|exists pr1; by rewrite lookup_insert_ne].
    exists pr'. rewrite lookup_insert_eq. split; [done|]. destruct Hr as [[?|[? _]] _]; lia.
  - intros b. destruct (decide (b = a)) as [->|Hne].
    + destruct (po_flight _ _ _ H a) as (L & l & E & HL & Hl & Ha). rewrite Hns in HL.
      apply nil_length_inv in HL as ->. unfold awaited, complete in *. rewrite Hp in Ha.
      exists [], (if isPamComplete pr' then [] else l). rewrite Hns', HFa, E. unfold awaited, complete.
      setoid_rewrite lookup_insert_eq. destruct (isPamComplete pr') eqn:Ec.
      * split_and!; [done..|cbn; lia|]. intros i. split; [by intros ?%not_elem_of_nil|].
        by intros (? & _ & _ & _ & ?).
      * split_and!; [done..|]. intros i. rewrite Ha. destruct (isPamComplete pr); naive_solver.
    + eapply flight_same; [apply (po_flight _ _ _ H)|by apply HF|by rewrite lookup_insert_ne|done].
Qed.
End PamView.
