(* ===== verification/CacheLedger.v ===== *)
(** * The DRAM cache answers every request once: proofs

    The ledger of the cache: the accepted requests are those with outstanding
    bursts, those waiting in a miss register, those waiting in the port and those
    delivered, each exactly once.  The packets that the controller clones for
    parallel accesses have negative identities and are never answered. *)

From S2P Require Import Prelude Intmath Packet AbstractMem DramTypes Config PacketQueue Mshr MshrQueue.
From S2P Require Import DramAddr DramSched DramTiming DramRefresh DramCtrl DramCtrlProofs.
From S2P Require Import CacheTags BypassTags Predictor CacheBuffers CacheBuffersProofs MissView.
From S2P Require Import CacheCtrl PamView.
Import Intmath MemCmd Packet AbstractMem PacketQueue Mshr MshrQueue DramAddr DramSched DramTiming
  DramRefresh DramCtrl DramCtrlProofs CacheTags BypassTags Predictor CacheBuffers MissView
  CacheCtrl PamView.

Module CacheLedger.

(** The bursts of requests, of both directions; the handlers of the response
    queues remove the first burst at their end, until then [sr] or [sw] is 1. *)
Definition reads {F} (sr : nat) (c : CacheOf F) : list DRAMPacket :=
  readQueue (base c) ++ drop sr (respQueue (base c)).
Definition kkeys {F} (sr sw : nat) (c : CacheOf F) : list key :=
  (λ d, (did d, burstHelper d)) <$>
    reads sr c ++ writeQueue (base c) ++ drop sw (dramPktWriteRespQueue c).
Definition cview {F} (c : CacheOf F) : gmap nat Ent := view (mshrQueue (bufs c)).

Section ledger.
Context `{D : DRAMParams} `{P : CacheParams} `{B : BloomFilter} `{C : Clocked} `{R : MemRange}.
Context (sr sw : nat).

(** Reads of whole blocks. *)
Definition read_ok (p : Packet) : Prop := simple p ∧ addr p = blockAlign (addr p).

(** The request of an entry whose access is done has no burst left. *)
Definition pam_done (A : list Z) (K : list key) (pam : gmap Addr pamReq) : Prop :=
  ∀ a pr, pam !! a = Some pr → pr_isHit pr ≠ -1 →
    pkt_id (pr_pkt pr) ∈ A ∧ (pkt_id (pr_pkt pr) ∉ ids K).

Lemma pam_done_mono A A' K K' pam :
  pam_done A K pam → A ⊆ A' → (∀ y, y ∈ A → y ∈ ids K' → y ∈ ids K) → pam_done A' K' pam.
Proof. intros H Ha Hk a pr Hp Hh. destruct (H a pr Hp Hh). auto. Qed.

(** [A]: the accepted requests, [V]: those delivered, [F]: the reads on their
    way in the memory. *)
Record kinv (A V : list Z) (F : list (nat * Addr)) (c : Cache) : Prop :=
  { ki_split : split_ok (kkeys sr sw c) (helpers (base c)) (nextHelper (base c));
    ki_reads : Forall (λ d, read_ok (dp_pkt d)) (reads sr c);
    ki_miss : miss_ok (mshrQueue (bufs c));
    ki_pam : pam_ok (cview c) (pamQueue c) F;
    ki_done : pam_done A (kkeys sr sw c) (pamQueue c);
    ki_nodup : NoDup A;
    ki_nonneg : Forall (λ x, 0 ≤ x) A;
    ki_perm : A ≡ₚ elements (ids (kkeys sr sw c)) ++ held (cview c) ++ waiting (base c) ++ V }.

(** The fields that the ledger reads: the queues, the registers, the port. *)
Definition qs (c : Cache) :=
  (readQueue (base c), respQueue (base c), writeQueue (base c), dramPktWriteRespQueue c,
   helpers (base c), nextHelper (base c)).
Definition rest (c : Cache) := (qs c, (mshrQueue (bufs c), pamQueue c)).
Definition kbooks (c : Cache) := (rest c, respPort (base c)).

Lemma kinv_qs A V F A' V' F' c c' :
  qs c' = qs c → kinv A V F c → miss_ok (mshrQueue (bufs c')) → pam_ok (cview c') (pamQueue c') F' →
  pam_done A' (kkeys sr sw c) (pamQueue c') → NoDup A' → Forall (λ x, 0 ≤ x) A' →
  A' ≡ₚ elements (ids (kkeys sr sw c)) ++ held (cview c') ++ waiting (base c') ++ V' → kinv A' V' F' c'.
Proof.
  unfold qs. intros E [H1 H2 H3 H4 H8 H5 H6 H7] Hm Hp Hd Hn Hf Hpm. injection E as E1 E2 E3 E4 E5 E6.
  assert (kkeys sr sw c' = kkeys sr sw c) as Ek by (unfold kkeys, reads; by rewrite E1, E2, E3, E4).
  split; unfold reads in *; rewrite ?Ek, ?E1, ?E2, ?E5, ?E6; done.
Qed.

Lemma rest_eq c c' : rest c' = rest c →
  qs c' = qs c ∧ mshrQueue (bufs c') = mshrQueue (bufs c) ∧ pamQueue c' = pamQueue c.
Proof.
  intros H. pose proof (f_equal fst H). pose proof (f_equal (λ x, x.2.1) H).
  pose proof (f_equal (λ x, x.2.2) H). done.
Qed.
Lemma kbooks_eq c c' : kbooks c' = kbooks c → rest c' = rest c ∧ respPort (base c') = respPort (base c).
Proof. intros H. split; [by apply (f_equal fst) in H|by apply (f_equal snd) in H]. Qed.

Lemma kinv_rest A V A' V' F c c' :
  rest c' = rest c → kinv A V F c → A ⊆ A' → NoDup A' → Forall (λ x, 0 ≤ x) A' →
  A' ≡ₚ elements (ids (kkeys sr sw c)) ++ held (cview c) ++ waiting (base c') ++ V' → kinv A' V' F c'.
Proof.
  intros (E1 & E2 & E3)%rest_eq H Hs Hn Hf Hp. assert (cview c' = cview c) as Ev by (unfold cview; by rewrite E2).
  eapply kinv_qs; [done|exact H|..]; rewrite ?Ev, ?E2, ?E3; [apply H|apply H| |done..].
  eapply pam_done_mono; [apply H|done..].
Qed.

Lemma kinv_books A V F c c' : kbooks c' = kbooks c → kinv A V F c → kinv A V F c'.
Proof.
  intros [E1 E2]%kbooks_eq H. eapply kinv_rest; [exact E1|exact H|done|apply H|apply H|].
  unfold waiting. rewrite E2. apply H.
Qed.

(** ** Responses *)

(** The port gets the response of packet [x], and nothing else changes. *)
Definition answers (x : list Z) (c c' : Cache) : Prop :=
  rest c' = rest c ∧ waiting (base c') ≡ₚ x ++ waiting (base c).

Lemma answers_refl c : answers [] c c.
Proof. done. Qed.
Lemma answers_trans x y c1 c2 c3 : answers x c1 c2 → answers y c2 c3 → answers (y ++ x) c1 c3.
Proof. intros [E1 H1] [E2 H2]. split; [congruence|]. by rewrite H2, H1, app_assoc. Qed.
Lemma answers_books c c' : kbooks c' = kbooks c → answers [] c c'.
Proof. intros [E1 E2]%kbooks_eq. split; [done|]. unfold waiting. by rewrite E2. Qed.

Lemma respond_answers now pkt lat c c' :
  respond now pkt lat c = Ok c' → answers [pkt_id pkt] c c'.
Proof.
  unfold respond. intros H. apply bind_ok in H as (_ & _ & H). unfold onBase in H.
  apply bind_ok in H as (b & Hs & [= <-]). unfold schedTimingResp in Hs.
  apply bind_ok in Hs as ([q d] & Hs & [= <-]). apply schedSendTiming_perm in Hs as [t Hs].
  split; [done|]. unfold waiting. cbn in *. by rewrite Hs.
Qed.

Lemma cache_access_books pkt c p c' :
  cache_access pkt c = Ok (p, c') → kbooks c' = kbooks c ∧ pkt_id p = pkt_id pkt.
Proof.
  unfold cache_access. intros H. apply bind_ok in H as (_ & _ & H).
  apply bind_ok in H as ([p1 m] & Ha & [= <- <-]). apply access_id in Ha. done.
Qed.

Lemma access_respond_answers now lat pkt c c' :
  access_respond now lat pkt c = Ok c' → answers [pkt_id pkt] c c'.
Proof.
  unfold access_respond. intros H. apply bind_ok in H as ([p c1] & [E1 E2]%cache_access_books & H).
  apply respond_answers in H. cbn in H. rewrite E2 in H.
  by apply (answers_trans [] [pkt_id pkt] c c1); [apply answers_books|].
Qed.

Lemma copy_block_id dst src p : copy_block dst src = Ok p → pkt_id p = pkt_id dst.
Proof. unfold copy_block. intros (bs & _ & H)%bind_ok. by apply copy_in_id in H as [? _]. Qed.

Lemma makeResponse_id p q : makeResponse p = Ok q → pkt_id q = pkt_id p.
Proof. unfold makeResponse. intros H. by res_inv. Qed.

Lemma copy_respond_answers now lat src pkt c c' :
  copy_respond now lat src pkt c = Ok c' → answers [pkt_id pkt] c c'.
Proof.
  unfold copy_respond. intros H. apply bind_ok in H as (p & E1%copy_block_id & H).
  apply bind_ok in H as (p2 & E2%makeResponse_id & H). apply respond_answers in H. congruence.
Qed.

Lemma each_target_answers f ts c c' :
  (∀ p c c', f p c = Ok c' → answers [pkt_id p] c c') →
  each_target f ts c = Ok c' → ∃ x, x ≡ₚ tid <$> ts ∧ answers x c c'.
Proof.
  intros Hf. unfold each_target. revert c. induction ts as [|t ts IH]; intros c H; cbn in H.
  - injection H as <-. exists []. split; [done|apply answers_refl].
  - apply bind_ok in H as (c1 & H1%Hf & H2). apply IH in H2 as (x & Ex & H2).
    exists (x ++ [pkt_id (t_pkt t)]). split; [|by eapply answers_trans].
    rewrite Ex. cbn. by rewrite Permutation_app_comm.
Qed.

Lemma fresh_accepted A V F c x : kinv A V F c → x ∉ A →
  (x ∉ ids (kkeys sr sw c)) ∧ (x ∉ held (cview c)) ∧ (x ∉ waiting (base c)) ∧ (x ∉ V).
Proof.
  intros H. rewrite (ki_perm _ _ _ _ H). rewrite !elem_of_app, elem_of_elements. tauto.
Qed.

Lemma kinv_answer A V F c c' x :
  kinv A V F c → answers [x] c c' → x ∉ A → 0 ≤ x → kinv (x :: A) V F c'.
Proof.
  intros H [E Hw] Hx H0. eapply kinv_rest; [done|exact H|set_solver| | |].
  - constructor; [done|apply H].
  - constructor; [done|apply H].
  - rewrite Hw, (ki_perm _ _ _ _ H). cbn. by rewrite <-!Permutation_middle.
Qed.

(** ** Fills and write-backs do not touch the ledger *)

Lemma onBase_kick now c c' : onBase (kick now) c = Ok c' → kbooks c' = kbooks c.
Proof.
  unfold onBase, kick. intros (b & H & [= <-])%bind_ok. case_match; res_inv; done.
Qed.

Lemma write_buffer_books now pkt t c c' :
  onBufs (λ b, rb ← allocateWriteBuffer now pkt t b; Ok rb.2) c = Ok c' → kbooks c' = kbooks c.
Proof.
  unfold onBufs. intros (b & H & [= <-])%bind_ok. apply bind_ok in H as (rb & H & [= <-]).
  apply allocateWriteBuffer_queue in H. unfold kbooks, rest. cbn. by rewrite H.
Qed.

Lemma doWriteBack_books now a ctx c c' : doWriteBack now a ctx c = Ok c' → kbooks c' = kbooks c.
Proof.
  unfold doWriteBack. cbn [new_block_packet]. intros H.
  apply bind_ok in H as (rd & _ & H). apply bind_ok in H as (wb & _ & H).
  apply bind_ok in H as ([p c1] & [E1 _]%cache_access_books & H).
  apply bind_ok in H as (_ & _ & H). apply bind_ok in H as (wb2 & _ & H).
  apply bind_ok in H as (c2 & E2%write_buffer_books & [= <-]). etrans; [exact E2|exact E1].
Qed.

Lemma replace_line_books now pkt c c' : replace_line now pkt c = Ok c' → kbooks c' = kbooks c.
Proof.
  unfold replace_line. destruct (getSetTagFromAddr (addr pkt)) as [s tg]. intros H.
  apply bind_ok in H as (c1 & H1 & [= <-]).
  assert (kbooks c1 = kbooks c) as <-.
  { destruct (_ && _); [|by injection H1 as <-]. apply doWriteBack_books in H1. rewrite H1.
    by destruct bloomFilterEnable. }
  by destruct (bypassTagEnable && _).
Qed.

Lemma fill_burst_books now pkt s x s' : fill_burst now pkt s x = Ok s' → kbooks s'.1 = kbooks s.1.
Proof.
  destruct s as [c a]. unfold fill_burst. case_bool_decide; [by intros [= <-]|]. intros H'.
  apply bind_ok in H' as (_ & _ & H'). apply bind_ok in H' as (d & _ & H').
  apply bind_ok in H' as (_ & _ & H'). apply bind_ok in H' as (_ & _ & [= <-]). done.
Qed.

Lemma fill_block_books now run a ctx c c' : fill_block now run a ctx c = Ok c' → kbooks c' = kbooks c.
Proof.
  unfold fill_block. cbn [new_block_packet]. set (pkt := new_packet _ _ _ _ _).
  set (c0 := c <| nextPkt ::= S |>). assert (kbooks c0 = kbooks c) as <- by done. clearbody c0 pkt.
  unfold addToFillQueue. intros H. apply bind_ok in H as (_ & _ & H).
  destruct (_ && _); [by apply onBase_kick in H|].
  apply bind_ok in H as (c1 & <-%replace_line_books & H). case_match; [by injection H as <-|].
  apply bind_ok in H as (s & Hs & ->%onBase_kick).
  apply (foldM_ind (λ t : Cache * Addr, kbooks t.1 = kbooks c1)) in Hs; [done| |done].
  intros t x t' _ Ht Hx%fill_burst_books. congruence.
Qed.

(** ** A request joins or opens a miss register *)

Lemma kinv_join A V F c b' i e pkt :
  kinv A V F c → pkt_id pkt ∉ A → 0 ≤ pkt_id pkt → cview c !! i = Some e →
  miss_ok (mshrQueue b') → view (mshrQueue b') = <[i := e <| e_ids ::= λ l, l ++ [pkt_id pkt] |>]> (cview c) →
  kinv (pkt_id pkt :: A) V F (c <| bufs := b' |>).
Proof.
  intros H Hx H0 Hi Hm Hv. eapply (kinv_qs A V F _ _ _ c); [done|done|done| | | | |].
  - unfold cview. cbn. rewrite Hv. apply pam_join; [apply H|done..].
  - eapply pam_done_mono; [apply H|set_solver|done].
  - constructor; [done|apply H].
  - constructor; [done|apply H].
  - unfold cview at 1. cbn. rewrite Hv, held_upd. cbn. rewrite nn_snoc by done.
    rewrite (ki_perm _ _ _ _ H), (held_split _ _ _ Hi). rewrite <-!app_assoc. cbn.
    by rewrite <-!Permutation_middle.
Qed.

Lemma kinv_alloc A V F c b' i a x :
  kinv A V F c → x ∉ A → 0 ≤ x → cview c !! i = None → (∀ j e, cview c !! j = Some e → e_addr e ≠ a) →
  miss_ok (mshrQueue b') → view (mshrQueue b') = <[i := mkEnt a false [x]]> (cview c) →
  kinv (x :: A) V F (c <| bufs := b' |>).
Proof.
  intros H Hx H0 Hi Ha Hm Hv. eapply (kinv_qs A V F _ _ _ c); [done|done|done| | | | |].
  - unfold cview. cbn. rewrite Hv. apply pam_alloc; [apply H|done..].
  - eapply pam_done_mono; [apply H|set_solver|done].
  - constructor; [done|apply H].
  - constructor; [done|apply H].
  - unfold cview at 1. cbn. rewrite Hv, held_insert by done. rewrite nn_all by (by constructor).
    rewrite (ki_perm _ _ _ _ H). cbn. by rewrite <-!Permutation_middle.
Qed.

Lemma coalesce_kinv A V F now cpu i c pkt c' :
  kinv A V F c → pkt_id pkt ∉ A → 0 ≤ pkt_id pkt → read_ok pkt →
  findMatch (blockAlign (addr pkt)) false (mshrQueue (bufs c)) = Some i →
  onBufs (coalesce now cpu i pkt) c = Ok c' → kinv (pkt_id pkt :: A) V F c'.
Proof.
  intros H Hx H0 [Hs Ha] Hf. apply findMatch_view in Hf as (e & He & Ea); [|apply H].
  unfold onBufs. intros (b & Hb & [= <-])%bind_ok.
  apply (coalesce_view _ _ _ _ _ _ e) in Hb as [H1 H2]; [|apply H|done|done|congruence].
  by eapply kinv_join.
Qed.

Lemma miss_kinv A V F now t c pkt c' :
  kinv A V F c → pkt_id pkt ∉ A → 0 ≤ pkt_id pkt → read_ok pkt →
  findMatch (blockAlign (addr pkt)) false (mshrQueue (bufs c)) = None →
  onBufs (λ b, rb ← allocateMissBuffer now pkt t b; Ok rb.2) c = Ok c' → kinv (pkt_id pkt :: A) V F c'.
Proof.
  intros H Hx H0 [Hs Ha] Hf. rewrite <-Ha in Hf. pose proof (findMatch_none _ _ (ki_miss _ _ _ _ H) Hf) as Hn.
  unfold onBufs. intros (b & Hb & [= <-])%bind_ok. apply bind_ok in Hb as ([r b'] & Hb & [= <-]).
  apply allocateMissBuffer_view in Hb as (H1 & i & _ & H2 & H3); [|apply H|done..].
  by eapply (kinv_alloc A V F c _ i (addr pkt)).
Qed.

(** ** The bursts of a new request *)

Lemma kinv_open A V F c c1 x m sv :
  kinv A V F c → x ∉ A → 0 ≤ x →
  kkeys sr sw c1 ≡ₚ replicate (S m) (x, Some (nextHelper (base c))) ++ kkeys sr sw c →
  helpers (base c1) = <[nextHelper (base c) := mkHelper (Z.of_nat (S m) + sv) sv]> (helpers (base c)) →
  nextHelper (base c1) = S (nextHelper (base c)) →
  Forall (λ d, read_ok (dp_pkt d)) (reads sr c1) →
  mshrQueue (bufs c1) = mshrQueue (bufs c) → pamQueue c1 = pamQueue c →
  respPort (base c1) = respPort (base c) → kinv (x :: A) V F c1.
Proof.
  intros H Hx H0 Hk Hh Hn Hr Em Ep Ew. destruct (fresh_accepted _ _ _ _ _ H Hx) as [Hfr _].
  assert (cview c1 = cview c) as Ev by (unfold cview; by rewrite Em).
  assert (ids (kkeys sr sw c1) = {[x]} ∪ ids (kkeys sr sw c)) as Ei.
  { rewrite (ids_perm _ _ Hk). apply leibniz_equiv. intros y.
    rewrite elem_of_union, elem_of_singleton, !elem_of_ids.
    setoid_rewrite elem_of_app. setoid_rewrite elem_of_replicate. naive_solver. }
  split; rewrite ?Ev, ?Em, ?Ep; [|done|apply H|apply H| |constructor; [done|apply H]..|].
  - rewrite Hk, Hh, Hn. apply split_many; [done|apply H].
  - eapply pam_done_mono; [apply H|set_solver|]. rewrite Ei. set_solver.
  - rewrite Ei, elements_union_singleton by done. unfold waiting. rewrite Ew.
    change (_ :: elements (ids (kkeys sr sw c))) with ([x] ++ elements (ids (kkeys sr sw c))).
    rewrite <-app_assoc. cbn. constructor. apply H.
Qed.

(** What both loops do to the rest of the state. *)
Definition same_tail (c c' : Cache) : Prop :=
  respQueue (base c') = respQueue (base c) ∧ dramPktWriteRespQueue c' = dramPktWriteRespQueue c ∧
  bufs c' = bufs c ∧ pamQueue c' = pamQueue c ∧ respPort (base c') = respPort (base c).

(** The helper is made with the first burst. *)
Definition helper_of (c c' : Cache) (n : Z) (new : list DRAMPacket) (h : option nat) : Prop :=
  if decide (new = [])
  then h = None ∧ nextHelper (base c') = nextHelper (base c) ∧ helpers (base c') = helpers (base c)
  else h = Some (nextHelper (base c)) ∧ nextHelper (base c') = S (nextHelper (base c)) ∧
       helpers (base c') = <[nextHelper (base c) := mkHelper n 0]> (helpers (base c)).

Lemma make_helper c c1 n new h h' c2 :
  1 < n → helper_of c c1 n new h →
  (if (1 <? n) && negb (isSome h)
   then let '(i, b) := new_helper n (base c1) in (Some i, c1 <| base := b |>) else (h, c1)) = (h', c2) →
  h' = Some (nextHelper (base c)) ∧ same_tail c1 c2 ∧ readQueue (base c2) = readQueue (base c1) ∧
  writeQueue (base c2) = writeQueue (base c1) ∧ ∀ d, helper_of c c2 n (new ++ [d]) h'.
Proof.
  intros Hn Hh. unfold helper_of in *. rewrite (proj2 (Z.ltb_lt 1 n)) by done.
  assert (∀ d, new ++ [d] ≠ []) by by destruct new.
  case_decide as E; destruct Hh as (-> & F1 & F2); cbn; intros [= <- <-].
  - rewrite F1. split_and!; try done. intros d. rewrite decide_False by done. cbn. by rewrite ?F1, ?F2.
  - split_and!; try done. intros d. by rewrite decide_False.
Qed.

Lemma cache_decodeAddr_pkt now pkt a sz rd d : cache_decodeAddr now pkt a sz rd = Ok d → dp_pkt d = pkt.
Proof. unfold cache_decodeAddr, make_dram_pkt. intros H. repeat case_match; res_inv; done. Qed.

Lemma cache_push_read_books now pkt a h b b' :
  cache_push_read now pkt a h b = Ok b' →
  ∃ d, readQueue b' = readQueue b ++ [d] ∧ dp_pkt d = pkt ∧ burstHelper d = h ∧
    respQueue b' = respQueue b ∧ writeQueue b' = writeQueue b ∧ helpers b' = helpers b ∧
    nextHelper b' = nextHelper b ∧ respPort b' = respPort b.
Proof.
  unfold cache_push_read. intros H. apply bind_ok in H as (_ & _ & H).
  apply bind_ok in H as (d & Hd%cache_decodeAddr_pkt & H). apply bind_ok in H as (_ & _ & [= <-]).
  exists (d <| burstHelper := h |>). destruct (isGPU pkt); cbn; done.
Qed.

Definition kread_inv (c : Cache) (pkt : Packet) (n k : Z) (s : Cache * Addr * Z * option nat) : Prop :=
  let '(c', _, sv, h) := s in
  ∃ new, readQueue (base c') = readQueue (base c) ++ new ∧ writeQueue (base c') = writeQueue (base c) ∧
    Forall (λ d, dp_pkt d = pkt ∧ burstHelper d = h) new ∧ len new + sv = k ∧ 0 ≤ sv ∧
    same_tail c c' ∧ helper_of c c' n new h.

Lemma same_tail_trans c1 c2 c3 : same_tail c1 c2 → same_tail c2 c3 → same_tail c1 c3.
Proof. unfold same_tail. intros (?&?&?&?&?) (?&?&?&?&?). split_and!; congruence. Qed.

Lemma cache_read_burst_inv c now pkt n k s x s' :
  1 < n → kread_inv c pkt n k s → cache_read_burst now pkt n s x = Ok s' → kread_inv c pkt n (k + 1) s'.
Proof.
  intros Hn. destruct s as [[[c1 a] sv] h]. intros (new & E1 & E2 & Hf & Hl & H0 & Ht & Hh) H.
  unfold cache_read_burst in H. apply bind_ok in H as (l & _ & H).
  set (c2 := c1 <| base ::= _ |>) in H.
  assert (Hc2 : readQueue (base c2) = readQueue (base c1) ∧ writeQueue (base c2) = writeQueue (base c1) ∧
    same_tail c c2 ∧ helper_of c c2 n new h) by done. clearbody c2. destruct Hc2 as (G1 & G2 & G3 & G4).
  match type of H with (if ?w then _ else _) = _ => destruct w end.
  { injection H as <-. exists new. cbn. split_and!; try done; try congruence; lia. }
  match type of H with (if ?w then _ else _) = _ => destruct w end.
  { injection H as <-. exists new. cbn. split_and!; try done; try congruence; lia. }
  destruct (if (1 <? n) && negb (isSome h) then _ else _) as [h' c3] eqn:Eh.
  apply (make_helper c) with (new := new) in Eh as (-> & T3 & R3 & W3 & Hh3); [|done..].
  unfold onBase in H. apply bind_ok in H as (c4 & H4 & [= <-]). apply bind_ok in H4 as (b & Hb & [= <-]).
  apply cache_push_read_books in Hb as (d & P1 & P2 & P3 & P4 & P5 & P6 & P7 & P8).
  exists (new ++ [d]). cbn. split_and!.
  - rewrite P1, R3, G1, E1. by rewrite app_assoc.
  - congruence.
  - apply Forall_app. split; [|by constructor]. unfold helper_of in Hh. destruct (decide (new = [])) as [->|].
    + constructor. + destruct Hh as (-> & _). done.
  - unfold len in *. rewrite length_app. cbn. lia.
  - done.
  - apply (same_tail_trans _ _ _ G3) in T3. destruct T3 as (?&?&?&?&?). unfold same_tail. cbn.
    split_and!; congruence.
  - specialize (Hh3 d). unfold helper_of in *. cbn. by rewrite P6, P7.
Qed.

Lemma cache_read_loop_inv c now pkt n l s k s' :
  1 < n → kread_inv c pkt n k s → foldM (cache_read_burst now pkt n) s l = Ok s' →
  kread_inv c pkt n (k + len l) s'.
Proof.
  intros Hn. revert s k. induction l as [|x l IH]; cbn [foldM]; intros s k Hi H.
  - injection H as <-. unfold len. cbn. by rewrite Z.add_0_r.
  - apply bind_ok in H as (s1 & H1 & H). eapply IH in H; [|by eapply cache_read_burst_inv].
    replace (k + len (x :: l)) with (k + 1 + len l); [done|]. unfold len. cbn. lia.
Qed.

Lemma keys_new_bursts (new : list DRAMPacket) pkt h :
  Forall (λ d, dp_pkt d = pkt ∧ burstHelper d = h) new →
  (λ d, (did d, burstHelper d)) <$> new = replicate (length new) (pkt_id pkt, h).
Proof.
  induction 1 as [|d l [E1 E2] _ IH]; [done|]. cbn. rewrite IH. unfold did. by rewrite E1, E2.
Qed.

(** A parallel access opens a register with a clone. *)
Lemma startPam_kinv A V F now draw pkt c c' :
  kinv A V F c → read_ok pkt → pamQueue c !! addr pkt = None →
  findMatch (addr pkt) false (mshrQueue (bufs c)) = None →
  startPam now draw pkt c = Ok c' → kinv A V F c'.
Proof.
  intros H [Hs Ha] Hp Hf. unfold startPam. rewrite <-Ha.
  destruct (predict_static _ _ _) as [hit t]. destruct hit; [intros [= <-]; by apply (kinv_books _ _ _ c)|].
  intros H'. apply bind_ok in H' as ([clone c1] & Hc & H'). unfold cloned in Hc.
  apply bind_ok in Hc as (q & Hq & [= <- <-]). apply clone_fields in Hq as (E1 & E2 & E3 & E4 & E5).
  apply bind_ok in H' as ([r b] & Hb & [= <-]). cbn in Hb, E3.
  apply allocateMissBuffer_view in Hb as (H1 & i & -> & H2 & H3); cbn; [|apply H| |congruence].
  2:{ destruct Hs as (? & ? & ?). unfold simple. split_and!; congruence. }
  pose proof (findMatch_none _ _ (ki_miss _ _ _ _ H) Hf) as Hn. cbn in *.
  eapply (kinv_qs A V F _ _ _ c); [done|done|done| | |apply H|apply H|].
  - unfold cview. cbn. rewrite H3, E1, E3. apply pam_start; try done. apply H.
  - intros a pr Hb. cbn in Hb. apply lookup_insert_Some in Hb as [[<- <-]|[_ Hb]]; [done|].
    exact (ki_done _ _ _ _ H a pr Hb).
  - unfold cview at 1. cbn. rewrite H3, held_insert by done. cbn [e_ids]. rewrite E3, nn_neg by (unfold next_id; lia). apply H.
Qed.

Lemma kick_kinv A V F now c c' : kinv A V F c → onBase (kick now) c = Ok c' → kinv A V F c'.
Proof. intros H E%onBase_kick. by apply (kinv_books _ _ _ c). Qed.

Lemma cache_addToReadQueue_kinv A V F now draw pkt n c c' :
  1 < n → kinv A V F c → pkt_id pkt ∉ A → 0 ≤ pkt_id pkt → read_ok pkt →
  findMatch (addr pkt) false (mshrQueue (bufs c)) = None →
  cache_addToReadQueue now draw pkt n c = Ok c' → kinv (pkt_id pkt :: A) V F c'.
Proof.
  intros Hn H Hx H0 Hr Hm. unfold cache_addToReadQueue. intros H'.
  apply bind_ok in H' as (_ & _ & H'). apply bind_ok in H' as (_ & _ & H').
  apply bind_ok in H' as ([[[c1 a1] sv] h] & Hloop & H').
  apply (cache_read_loop_inv c now pkt n _ _ 0) in Hloop as (new & E1 & E2 & Hf & E3 & E4 & Ht & Hh);
    [|done|exists []; by rewrite app_nil_r].
  assert (len (seqZ 0 n) = n) as El by (unfold len; rewrite length_seqZ; lia). rewrite El in E3. clear El.
  destruct Ht as (T1 & T2 & T3 & T4 & T5). unfold helper_of in Hh.
  destruct (Z.eqb_spec sv n) as [->|Hne].
  - assert (new = []) as -> by (apply nil_length_inv; unfold len in E3; lia).
    rewrite app_nil_r in E1. destruct Hh as (_ & F1 & F2).
    apply access_respond_answers in H'. eapply kinv_answer; [|exact H'|done..].
    apply (kinv_books _ _ _ c); [|done]. unfold kbooks, rest, qs. congruence.
  - assert (Hnew : new ≠ []) by (intros ->; unfold len in E3; cbn in E3; lia).
    rewrite decide_False in Hh by done. destruct Hh as (-> & F1 & F2).
    set (c2 := c1 <| base ::= _ |>) in H'.
    assert (Hk2 : kinv (pkt_id pkt :: A) V F c2).
    { apply (kinv_open A V F c c2 (pkt_id pkt) (length new - 1) sv); try done.
      - replace (S (length new - 1)) with (length new) by (destruct new; cbn in *; [done|lia]).
        unfold kkeys, reads, c2. cbn. rewrite E1, E2, T1, T2, !fmap_app, (keys_new_bursts new _ _ Hf).
        set (X := replicate _ _). rewrite <-!app_assoc, app_assoc, (Permutation_app_comm _ X).
        by rewrite <-app_assoc.
      - unfold c2. cbn. rewrite F2, alter_insert_eq. do 2 f_equal. cbn. unfold len in E3.
        destruct new; cbn in *; [done|]. lia.
      - unfold reads, c2. cbn. rewrite E1, T1. pose proof (ki_reads _ _ _ _ H) as Hrd. unfold reads in Hrd. rewrite !Forall_app in *.
        destruct Hrd as [R1 R2]. split; [split; [done|]|done].
        eapply Forall_impl; [exact Hf|]. intros d [-> _]. done.
      - unfold c2. cbn. by rewrite T3. }
    assert (Hc2 : pamQueue c2 = pamQueue c ∧ bufs c2 = bufs c) by done. destruct Hc2 as [G1 G2].
    clearbody c2. apply bind_ok in H' as (c3 & H3 & H'). eapply kick_kinv, H'.
    match type of H3 with (if ?w then _ else _) = _ => destruct w eqn:Ew end; [|by injection H3 as <-].
    apply andb_true_iff in Ew as [_ Ew]. eapply (startPam_kinv _ _ _ _ _ _ c2); try done.
    + by destruct (pamQueue c2 !! addr pkt).
    + by rewrite G2.
Qed.

Lemma cache_push_write_books now pkt a h c c' :
  cache_push_write now pkt a h c = Ok c' →
  ∃ d, writeQueue (base c') = writeQueue (base c) ++ [d] ∧ dp_pkt d = pkt ∧ burstHelper d = h ∧
    readQueue (base c') = readQueue (base c) ∧ helpers (base c') = helpers (base c) ∧
    nextHelper (base c') = nextHelper (base c) ∧ same_tail c c'.
Proof.
  unfold cache_push_write. intros H. apply bind_ok in H as (_ & _ & H).
  apply bind_ok in H as (d & Hd%cache_decodeAddr_pkt & H). apply bind_ok in H as (_ & _ & H).
  apply bind_ok in H as (_ & _ & [= <-]). exists (d <| burstHelper := h |>).
  unfold same_tail. destruct (isGPU pkt); cbn; done.
Qed.

Definition kwrite_inv (c : Cache) (pkt : Packet) (n k : Z) (s : Cache * Addr * option nat) : Prop :=
  let '(c', _, h) := s in
  ∃ new, writeQueue (base c') = writeQueue (base c) ++ new ∧ readQueue (base c') = readQueue (base c) ∧
    Forall (λ d, dp_pkt d = pkt ∧ burstHelper d = h) new ∧ len new = k ∧
    same_tail c c' ∧ helper_of c c' n new h.

Lemma cache_write_burst_inv c now pkt n k s x s' :
  1 < n → kwrite_inv c pkt n k s → cache_write_burst now pkt n s x = Ok s' → kwrite_inv c pkt n (k + 1) s'.
Proof.
  intros Hn. destruct s as [[c1 a] h]. intros (new & E1 & E2 & Hf & Hl & Ht & Hh) H.
  unfold cache_write_burst in H. apply bind_ok in H as (l & _ & H).
  set (c2 := c1 <| base ::= _ |>) in H.
  assert (Hc2 : readQueue (base c2) = readQueue (base c1) ∧ writeQueue (base c2) = writeQueue (base c1) ∧
    same_tail c c2 ∧ helper_of c c2 n new h) by done. clearbody c2. destruct Hc2 as (G1 & G2 & G3 & G4).
  destruct (if (1 <? n) && negb (isSome h) then _ else _) as [h' c3] eqn:Eh.
  apply (make_helper c) with (new := new) in Eh as (-> & T3 & R3 & W3 & Hh3); [|done..].
  apply bind_ok in H as (c4 & H4 & [= <-]).
  apply cache_push_write_books in H4 as (d & P1 & P2 & P3 & P4 & P5 & P6 & P7).
  exists (new ++ [d]). split_and!.
  - rewrite P1, W3, G2, E1. by rewrite app_assoc.
  - congruence.
  - apply Forall_app. split; [|by constructor]. unfold helper_of in Hh. destruct (decide (new = [])) as [->|].
    + constructor. + destruct Hh as (-> & _). done.
  - unfold len in *. rewrite length_app. cbn. lia.
  - eapply same_tail_trans, P7. by eapply same_tail_trans.
  - specialize (Hh3 d). unfold helper_of in *. by rewrite P5, P6.
Qed.

Lemma cache_write_loop_inv c now pkt n l s k s' :
  1 < n → kwrite_inv c pkt n k s → foldM (cache_write_burst now pkt n) s l = Ok s' →
  kwrite_inv c pkt n (k + len l) s'.
Proof.
  intros Hn. revert s k. induction l as [|x l IH]; cbn [foldM]; intros s k Hi H.
  - injection H as <-. unfold len. cbn. by rewrite Z.add_0_r.
  - apply bind_ok in H as (s1 & H1 & H). eapply IH in H; [|by eapply cache_write_burst_inv].
    replace (k + len (x :: l)) with (k + 1 + len l); [done|]. unfold len. cbn. lia.
Qed.

Lemma cache_addToWriteQueue_kinv A V F now pkt n c c' :
  1 < n → kinv A V F c → pkt_id pkt ∉ A → 0 ≤ pkt_id pkt →
  cache_addToWriteQueue now pkt n c = Ok c' → kinv (pkt_id pkt :: A) V F c'.
Proof.
  intros Hn H Hx H0. unfold cache_addToWriteQueue. intros H'.
  apply bind_ok in H' as (_ & _ & H'). apply bind_ok in H' as ([[c1 a1] h] & Hloop & H').
  apply (cache_write_loop_inv c now pkt n _ _ 0) in Hloop as (new & E1 & E2 & Hf & E3 & Ht & Hh);
    [|done|exists []; by rewrite app_nil_r].
  assert (len (seqZ 0 n) = n) as El by (unfold len; rewrite length_seqZ; lia). rewrite El in E3. clear El.
  apply bind_ok in H' as ([q c2] & Hc & H'). apply bind_ok in H' as ([p c3] & Ha & H').
  unfold cloned in Hc. apply bind_ok in Hc as (q' & _ & [= <- <-]).
  apply cache_access_books in Ha as [Ha _]. eapply kick_kinv, H'. cbn in Ha.
  apply (kinv_books _ _ _ c1); [exact Ha|]. clear H' Ha p c3 q'.
  destruct Ht as (T1 & T2 & T3 & T4 & T5). unfold helper_of in Hh.
  destruct new as [|d new]; [unfold len in E3; cbn in E3; lia|]. rewrite decide_False in Hh by done.
  destruct Hh as (-> & F1 & F2).
  apply (kinv_open A V F c c1 (pkt_id pkt) (length new) 0); try done.
  - change (S (length new)) with (length (d :: new)). set (l := d :: new) in *. clearbody l.
    unfold kkeys, reads. rewrite E1, E2, T1, T2, !fmap_app, (keys_new_bursts l _ _ Hf).
    set (X := replicate _ _). rewrite <-!app_assoc.
    rewrite (app_assoc _ X), (Permutation_app_comm _ X), <-app_assoc.
    rewrite (app_assoc _ X), (Permutation_app_comm _ X), <-app_assoc.
    by rewrite (app_assoc _ X), (Permutation_app_comm _ X), <-app_assoc.
  - rewrite F2. do 2 f_equal. unfold len in E3. cbn in E3. lia.
  - unfold reads. rewrite E2, T1. apply H.
  - by rewrite T3.
Qed.

(** ** Requests *)

(** The requests of the memory interface of the protocol: reads and writes of
    whole blocks. *)
Definition request_ok (p : Packet) : bool :=
  (bool_decide (cmd p = ReadReq) || bool_decide (cmd p = WriteReq)) &&
  negb (isSecure p) && negb (isUncacheable p) && (addr p =? blockAlign (addr p)) && (0 <=? pkt_id p).

Lemma request_read p : request_ok p = true → isRead (cmd p) = true → read_ok p.
Proof.
  unfold request_ok, read_ok, simple. intros H Hr.
  repeat match goal with H : _ && _ = true |- _ => apply andb_true_iff in H as [H ?] end.
  apply orb_true_iff in H as [H|H]; apply bool_decide_eq_true in H; [|by rewrite H in Hr].
  repeat match goal with
  | H : negb _ = true |- _ => apply negb_true_iff in H
  | H : (_ =? _) = true |- _ => apply Z.eqb_eq in H end. done.
Qed.

Lemma bypass_hit_kinv A V F now pkt c c' :
  kinv A V F c → pkt_id pkt ∉ A → request_ok pkt = true →
  findMatch (blockAlign (addr pkt)) false (mshrQueue (bufs c)) = None →
  bypass_hit now pkt c = Ok c' → kinv (pkt_id pkt :: A) V F c'.
Proof.
  intros H Hx Hq Hm. pose proof (request_read pkt Hq) as Hr.
  assert (0 ≤ pkt_id pkt) as H0 by (unfold request_ok in Hq; apply andb_true_iff in Hq as [_ ?]; lia).
  unfold bypass_hit. destruct (isRead (cmd pkt)); [by apply miss_kinv; auto|]. intros H'.
  apply bind_ok in H' as ([p c1] & [E1 E2]%cache_access_books & H'). cbn [new_block_packet] in H'.
  apply bind_ok in H' as (q & _ & H'). apply bind_ok in H' as (c2 & E3%write_buffer_books & H').
  apply respond_answers in H'. rewrite E2 in H'. eapply kinv_answer; [|exact H'|done..].
  apply (kinv_books _ _ _ c); [|done]. etrans; [exact E3|exact E1].
Qed.

Lemma running_bypass_kinv A V F now pkt c o c2 :
  kinv A V F c → pkt_id pkt ∉ A → 0 ≤ pkt_id pkt → read_ok pkt →
  findMatch (blockAlign (addr pkt)) false (mshrQueue (bufs c)) = None →
  running_bypass now pkt c = Ok (o, c2) →
  match o with
  | Some c' => kinv (pkt_id pkt :: A) V F c'
  | None => kinv A V F c2 ∧ mshrQueue (bufs c2) = mshrQueue (bufs c)
  end.
Proof.
  intros H Hx H0 Hr Hm. unfold running_bypass. destruct (getSetTagFromAddr (addr pkt)) as [s tg].
  assert (Hgo : ∀ c1 c', kbooks c1 = kbooks c →
    (rb ← allocateMissBuffer now pkt PREDICTION_LATENCY (bufs c1); Ok (c1 <| bufs := rb.2 |>)) = Ok c' →
    kinv (pkt_id pkt :: A) V F c').
  { intros c1 c' Ec Hb. apply (kinv_books _ _ _ _ c1) in H; [|done].
    eapply (miss_kinv A V F now PREDICTION_LATENCY c1); try done.
    - by apply kbooks_eq in Ec as [(_ & -> & _)%rest_eq _].
    - unfold onBufs. apply bind_ok in Hb as (rb & -> & [= <-]). done. }
  destruct (dirtyCleanBypassEnable && _).
  { intros H'. apply bind_ok in H' as (c' & Hg & [= <- _]). apply Hgo in Hg; [|done].
    by apply (kinv_books _ _ _ c'). }
  set (c1 := cstat_if _ _ c). assert (Hc1 : kbooks c1 = kbooks c) by (unfold c1, cstat_if; by case_match).
  clearbody c1. destruct bloomFilterEnable.
  - case_match.
    + intros H'. apply bind_ok in H' as (c' & Hg & [= <- _]). apply Hgo in Hg; [|done].
      by apply (kinv_books _ _ _ c').
    + set (c3 := if negb _ then _ else _). assert (Hc3 : kbooks c3 = kbooks c1).
      { unfold c3, cstat_if. by repeat case_match. }
      clearbody c3. intros [= <- <-]. rewrite Hc1 in Hc3. split; [by apply (kinv_books _ _ _ c)|].
      by apply kbooks_eq in Hc3 as [(_ & -> & _)%rest_eq _].
  - intros [= <- <-]. split; [by apply (kinv_books _ _ _ c)|].
    by apply kbooks_eq in Hc1 as [(_ & -> & _)%rest_eq _].
Qed.

Lemma queue_request_kinv A V F now draw run pkt c b c' :
  kinv A V F c → pkt_id pkt ∉ A → request_ok pkt = true →
  findMatch (blockAlign (addr pkt)) false (mshrQueue (bufs c)) = None →
  queue_request now draw run pkt c = Ok (b, c') → kinv ((if b then [pkt_id pkt] else []) ++ A) V F c'.
Proof.
  intros H Hx Hq Hm. pose proof (request_read pkt Hq) as Hr.
  assert (0 ≤ pkt_id pkt) as H0 by (unfold request_ok in Hq; apply andb_true_iff in Hq as [_ ?]; lia).
  unfold queue_request. set (c0 := c <| switched_gpu_running := run |>).
  assert (Hk0 : kinv A V F c0) by by apply (kinv_books _ _ _ c).
  assert (Hm0 : findMatch (blockAlign (addr pkt)) false (mshrQueue (bufs c0)) = None) by done.
  clearbody c0. clear H Hm c. destruct (isRead (cmd pkt)) eqn:Er.
  - specialize (Hr eq_refl). intros H'. apply bind_ok in H' as ([o c1] & Ho & H').
    assert (Hc1 : match o with Some c' => kinv (pkt_id pkt :: A) V F c'
      | None => kinv A V F c1 ∧ mshrQueue (bufs c1) = mshrQueue (bufs c0) end).
    { destruct (_ && _); [by eapply running_bypass_kinv|]. injection Ho as <- <-. done. }
    destruct o as [c2|]; [by injection H' as <- <-|]. destruct Hc1 as [Hk1 Eq].
    apply bind_ok in H' as (_ & _ & H'). destruct (readQueueFull _ _).
    { injection H' as <- <-. by apply (kinv_books _ _ _ c1). }
    apply bind_ok in H' as (c2 & Ha & [= <- <-]). apply (kinv_books _ _ _ c2); [done|].
    eapply cache_addToReadQueue_kinv, Ha; try done.
    destruct Hr as [_ ->]. by rewrite Eq.
  - destruct (isWrite (cmd pkt)); [|done]. intros H'. apply bind_ok in H' as (_ & _ & H').
    destruct (writeQueueFull _ _). { injection H' as <- <-. by apply (kinv_books _ _ _ c0). }
    apply bind_ok in H' as (c2 & Ha & [= <- <-]). apply (kinv_books _ _ _ c2); [done|].
    by eapply cache_addToWriteQueue_kinv, Ha.
Qed.

(** The responses that an accepted request will get. *)
Definition kowed (pkt : Packet) : list Z :=
  if dramCacheTimingMode && (memInhibit pkt || bool_decide (cmd pkt = CleanEvict)) then [] else [pkt_id pkt].

Lemma cache_recvTimingReq_kinv A V F now draw run pkt c b c' :
  kinv A V F c → pkt_id pkt ∉ A → request_ok pkt = true →
  cache_recvTimingReq now draw run pkt c = Ok (b, c') → kinv ((if b then kowed pkt else []) ++ A) V F c'.
Proof.
  intros H Hx Hq. pose proof (request_read pkt Hq) as Hr.
  assert (0 ≤ pkt_id pkt) as H0 by (unfold request_ok in Hq; apply andb_true_iff in Hq as [_ ?]; lia).
  unfold cache_recvTimingReq, kowed. destruct dramCacheTimingMode; cbn [negb andb].
  2:{ intros H'. apply bind_ok in H' as (c1 & Ha%access_respond_answers & [= <- <-]). by eapply kinv_answer. }
  set (c1 := c <| base ::= _ |>). assert (Hk1 : kinv A V F c1) by by apply (kinv_books _ _ _ c).
  clearbody c1. clear H c. destruct (memInhibit pkt || _).
  { intros [= <- <-]. by apply (kinv_books _ _ _ c1). }
  destruct (negb (blocked (bufs c1) =? 0)). { intros [= <- <-]. by apply (kinv_books _ _ _ c1). }
  set (c2 := c1 <| base ::= arrival now |>).
  assert (Hk2 : kinv A V F c2).
  { apply (kinv_books _ _ _ c1); [|done]. unfold c2, arrival. cbn. by destruct (_ =? 0). }
  clearbody c2. clear Hk1 c1.
  destruct (findMatch (blockAlign (addr pkt)) false (mshrQueue (bufs c2))) as [i|] eqn:Ef.
  { case_bool_decide as Ew; [done|]. intros H'. apply bind_ok in H' as (c3 & Hc & [= <- <-]).
    eapply coalesce_kinv; try done. apply Hr. unfold request_ok in Hq.
    repeat (apply andb_true_iff in Hq as [Hq _]). apply orb_true_iff in Hq as [E|E];
      apply bool_decide_eq_true in E; [by rewrite E|done]. }
  destruct (_ && isRead (cmd pkt)).
  { intros H'. apply bind_ok in H' as (c3 & Ha%access_respond_answers & [= <- <-]).
    eapply kinv_answer; [|exact Ha|done..]. apply (kinv_books _ _ _ c2); [|done].
    unfold cstat_if. by case_match. }
  destruct bypassTagEnable; [|by apply queue_request_kinv].
  destruct (isHit (addr pkt) (bypassTag c2)) as [hit l].
  set (c3 := bypass_stats _ _ _ _). assert (kbooks c3 = kbooks c2) as E3.
  { unfold c3, bypass_stats, cstat_if. by repeat case_match. }
  clearbody c3. assert (Hk3 : kinv A V F c3) by by apply (kinv_books _ _ _ c2).
  assert (Hf3 : findMatch (blockAlign (addr pkt)) false (mshrQueue (bufs c3)) = None).
  { by apply kbooks_eq in E3 as [(_ & -> & _)%rest_eq _]. }
  destruct hit; [|by apply queue_request_kinv].
  intros H'. apply bind_ok in H' as (c4 & Hb & [= <- <-]). by eapply bypass_hit_kinv.
Qed.
End ledger.
End CacheLedger.
