(* ===== verification/CacheAnswers.v ===== *)
(** * The DRAM cache answers every request once: responses and runs

    The handlers that finish requests keep the ledger of the cache, and so does
    every run of the controller, whatever the memory and the requesters do. *)

From S2P Require Import Prelude Intmath Packet AbstractMem DramTypes Config PacketQueue Mshr MshrQueue.
From S2P Require Import DramInit DramAddr DramSched DramTiming DramRefresh DramCtrl DramCtrlProofs.
From S2P Require Import CacheTags BypassTags Predictor CacheBuffers CacheBuffersProofs MissView.
From S2P Require Import CacheTagsSpec CacheCtrl PamView CacheLedger.
Import Intmath MemCmd Packet AbstractMem PacketQueue Mshr MshrQueue DramAddr DramSched DramTiming
  DramRefresh DramCtrl DramCtrlProofs CacheTags CacheTagsSpec BypassTags Predictor CacheBuffers
  CacheBuffersProofs MissView CacheCtrl PamView CacheLedger.

Module CacheAnswers.

(** What happens to the controller: requests, its events, the events of the
    ranks, the sends and retries of its two ports, and the responses of the
    memory. *)
Inductive kop : Type :=
| KReq (draw : Z) (running : bool) (pkt : Packet)
| KNext
| KRespond (running : bool)
| KWriteRespond
| KRank (e : rank_event) (r : Z)
| KSend (accepted : bool)
| KRetry (accepted : bool)
| KMemSend (accepted : bool)
| KMemRetry (accepted : bool)
| KMemResp (running : bool) (pkt : Packet)
| KDrain.

(** The requests accepted, those answered, the reads on their way. *)
Record Env := mkEnv { accepted : list Z; delivered : list Z; on_way : list (nat * Addr) }.
#[export] Instance eta_Env : Eta Env := λ e, mkEnv (accepted e) (delivered e) (on_way e).

Section answers.
Context `{D : DRAMParams} `{P : CacheParams} `{B : BloomFilter} `{C : Clocked} `{R : MemRange}.

(** ** A register is emptied *)

(** The targets of register [i] are gone and the port has the responses [xs]. *)
Record emptied (i : nat) (e : Ent) (xs : list Z) (c c' : Cache) : Prop :=
  { em_qs : qs c' = qs c;
    em_pam : pamQueue c' = pamQueue c;
    em_miss : miss_ok (mshrQueue (bufs c'));
    em_view : cview c' = <[i := e <| e_ids := [] |>]> (cview c);
    em_wait : waiting (base c') ≡ₚ xs ++ waiting (base c) }.

Lemma emptied_then i e xs x c c1 c2 : emptied i e xs c c1 → answers x c1 c2 → emptied i e (x ++ xs) c c2.
Proof.
  intros [H1 H2 H3 H4 H5] [(E1 & E2 & E3)%rest_eq Hw]. split; unfold cview in *; rewrite ?E2; try congruence.
  by rewrite Hw, H5, app_assoc.
Qed.

Lemma then_emptied i e xs x c c1 c2 : answers x c c1 → emptied i e xs c1 c2 → emptied i e (xs ++ x) c c2.
Proof.
  intros [(E1 & E2 & E3)%rest_eq Hw] [H1 H2 H3 H4 H5]. split; unfold cview in *; try congruence.
  by rewrite H5, Hw, app_assoc.
Qed.

Lemma take_all_emptied i e ts c c' :
  miss_ok (mshrQueue (bufs c)) → cview c !! i = Some e → take_all (0, i) c = (ts, c') →
  tid <$> ts = e_ids e ∧ emptied i e [] c c'.
Proof.
  intros Hm Hi. unfold take_all. destruct (takeTargets (0, i) (bufs c)) as [ts' b] eqn:Et.
  intros [= <- <-]. apply (take_view i e) in Et as (H1 & _ & H2 & H3); [|done..]. split; [done|].
  split; done.
Qed.

(** The first target is taken off. *)
Lemma pop_first_view i e t c c' :
  miss_ok (mshrQueue (bufs c)) → cview c !! i = Some e → pop_first (0, i) c = Ok (t, c') →
  e_ids e = tid t :: tail (e_ids e) ∧ qs c' = qs c ∧ pamQueue c' = pamQueue c ∧
  miss_ok (mshrQueue (bufs c')) ∧ cview c' = <[i := e <| e_ids ::= tail |>]> (cview c) ∧
  respPort (base c') = respPort (base c).
Proof.
  intros Hm Hi H. unfold pop_first in H. apply bind_ok in H as (_ & _ & H).
  apply bind_ok in H as (t' & Ht & [= <- <-]). pose proof (pop_view i e (bufs c) Hm Hi) as [H1 H2].
  apply view_Some in Hi as [Hi ->]; [|apply Hm]. unfold getTarget, the_mshr in Ht.
  change (queue_of (bufs c) (0, i).1) with (mshrQueue (bufs c)) in Ht.
  split_and!; try done. unfold ent. cbn [e_ids]. cbn [snd] in Ht.
  destruct (tlist (targets (reg (mshrQueue (bufs c)) i))); [done|]. by injection Ht as ->.
Qed.

(** [popTarget], then all the others: the first target is not answered. *)
Lemma pop_take_emptied i e t c c1 c2 ts c3 xs :
  miss_ok (mshrQueue (bufs c)) → cview c !! i = Some e → pop_first (0, i) c = Ok (t, c1) →
  answers xs c1 c2 → take_all (0, i) c2 = (ts, c3) →
  ∃ y ys, e_ids e = y :: ys ∧ tid <$> ts = ys ∧ emptied i e xs c c3.
Proof.
  intros Hm Hi Hp Hx Ht. apply (pop_first_view i e) in Hp as (E1 & E2 & E3 & E4 & E5 & E6); [|done..].
  destruct Hx as [(F1 & F2 & F3)%rest_eq Hw].
  assert (Hi2 : cview c2 !! i = Some (e <| e_ids ::= tail |>)).
  { unfold cview. rewrite F2. unfold cview in E5. rewrite E5. apply lookup_insert_eq. }
  apply (take_all_emptied i) with (e := e <| e_ids ::= tail |>) in Ht as [T1 [T2 T3 T4 T5 T6]];
    [|by rewrite F2|done].
  exists (tid t), (tail (e_ids e)). split_and!; try done. split; try congruence.
  - rewrite T5. unfold cview in *. rewrite F2, E5, insert_insert_eq. done.
  - rewrite T6, Hw. unfold waiting. by rewrite E6.
Qed.

(** An access that hits beside a parallel access, and one that misses. *)
Lemma pam_hit_emptied now pr pkt i e c c' :
  miss_ok (mshrQueue (bufs c)) → cview c !! i = Some e → pr_mshr pr = (0, i) →
  pam_hit now pr pkt c = Ok c' →
  ∃ y ys xs, e_ids e = y :: ys ∧ xs ≡ₚ pkt_id pkt :: ys ∧ emptied i e xs c c'.
Proof.
  intros Hm Hi Er. unfold pam_hit. rewrite Er. intros H.
  apply bind_ok in H as (c1 & H1%access_respond_answers & H). pose proof H1 as [(F1 & F2 & F3)%rest_eq _].
  apply bind_ok in H as ([t c2] & Hp & H). cbn [snd] in H.
  destruct (take_all (0, i) c2) as [ts c3] eqn:Et.
  destruct (pop_take_emptied i e t c1 c2 c2 ts c3 []) as (y & ys & E1 & E2 & He);
    [by rewrite F2|unfold cview; by rewrite F2|done|apply answers_refl|done|].
  apply each_target_answers in H as (zs & Ez & H); [|intros; by eapply access_respond_answers].
  eapply emptied_then in He; [|exact H]. eapply then_emptied in He; [|exact H1].
  exists y, ys. eexists. split_and!; [done| |exact He]. rewrite app_nil_r, Ez, E2.
  by rewrite Permutation_app_comm.
Qed.

Lemma pam_miss_emptied now run pr pkt i e c c' :
  miss_ok (mshrQueue (bufs c)) → cview c !! i = Some e → pr_mshr pr = (0, i) →
  pam_miss now run pr pkt c = Ok c' →
  ∃ y ys xs, e_ids e = y :: ys ∧ xs ≡ₚ pkt_id pkt :: ys ∧ emptied i e xs c c'.
Proof.
  intros Hm Hi Er. unfold pam_miss. rewrite Er. intros H.
  apply bind_ok in H as ([t c1] & Hp & H). apply bind_ok in H as (c2 & H2%copy_respond_answers & H).
  apply (answers_trans [] _ c1) in H2; [|by apply answers_books]. cbn in H2.
  apply bind_ok in H as (_ & _ & H). destruct (take_all (0, i) c2) as [ts c3] eqn:Et.
  edestruct (pop_take_emptied i e t c c1 c2 ts c3) as (y & ys & E1 & E2 & He); [done..|].
  apply bind_ok in H as (c4 & H4 & H5%fill_block_books).
  apply each_target_answers in H4 as (zs & Ez & H4); [|intros; by eapply copy_respond_answers].
  eapply emptied_then in He; [|exact H4]. eapply emptied_then in He; [|by apply answers_books].
  exists y, ys. eexists. split_and!; [done| |exact He]. cbn. rewrite Ez, E2.
  by rewrite Permutation_app_comm.
Qed.

(** The memory answers a register: after a parallel access, the first target is
    the clone. *)
Lemma free_mshr_view now i e w c c' :
  miss_ok (mshrQueue (bufs c)) → cview c !! i = Some e →
  onBufs (deallocateMSHR now (0, i) w) c = Ok c' →
  qs c' = qs c ∧ pamQueue c' = pamQueue c ∧ respPort (base c') = respPort (base c) ∧
  miss_ok (mshrQueue (bufs c')) ∧ cview c' = delete i (cview c).
Proof.
  intros Hm Hi. unfold onBufs. intros (b & Hb & [= <-])%bind_ok.
  apply (deallocate_miss _ _ _ _ _ e) in Hb as (H1 & _ & H2); done.
Qed.

(** ** Finished reads *)

Section finished.
Context (sr sw : nat).
Implicit Types (A V : list Z) (F : list (nat * Addr)) (c : Cache).

(** A register of the ledger is closed; [new] are requests that were in hand. *)
Lemma kinv_close A V F F' c c' i e new xs :
  kinv sr sw A V F c → cview c !! i = Some e → NoDup (new ++ A) → Forall (λ x, 0 ≤ x) (new ++ A) →
  qs c' = qs c → miss_ok (mshrQueue (bufs c')) → cview c' = delete i (cview c) →
  waiting (base c') ≡ₚ xs ++ waiting (base c) → xs ≡ₚ new ++ nn (e_ids e) →
  pam_ok (cview c') (pamQueue c') F' → pam_done (new ++ A) (kkeys sr sw c) (pamQueue c') →
  kinv sr sw (new ++ A) V F' c'.
Proof.
  intros H Hi Hn Hf Eq Hm Ev Hw Hx Hp Hd. eapply (kinv_qs sr sw A V F _ _ _ c); try done.
  rewrite Ev, Hw, Hx, (ki_perm _ _ _ _ _ _ H), (held_split _ _ _ Hi).
  set (E := elements _). set (G := held _). set (N := nn _). set (W := waiting _).
  rewrite !app_assoc. apply Permutation_app_tail, Permutation_app_tail.
  rewrite <-!app_assoc. rewrite (Permutation_app_comm G (new ++ N)), !app_assoc.
  apply Permutation_app_tail. rewrite <-!app_assoc, (app_assoc E), (Permutation_app_comm E new).
  by rewrite <-app_assoc.
Qed.

(** The other entries of the table. *)
Lemma pam_done_delete A K pam a : pam_done A K pam → pam_done A K (delete a pam).
Proof. intros H b pr [_ Hb]%lookup_delete_Some. exact (H b pr Hb). Qed.
Lemma pam_done_insert A K pam a pr :
  pam_done A K pam → pkt_id (pr_pkt pr) ∈ A → (pkt_id (pr_pkt pr) ∉ ids K) → pam_done A K (<[a := pr]> pam).
Proof. intros H H1 H2 b pr' [[<- <-]|[_ Hb]]%lookup_insert_Some; [done|exact (H b pr' Hb)]. Qed.

(** A read in hand, all its bursts done, with its parallel access: the register
    of the access, with the clone and the requests that joined it. *)
Record in_hand A V F c (pkt : Packet) (pr : pamReq) (i : nat) (e : Ent) (ys : list Z) : Prop :=
  { ih_inv : kinv sr sw A V F c;
    ih_fresh : pkt_id pkt ∉ A;
    ih_nonneg : 0 ≤ pkt_id pkt;
    ih_keys : pkt_id pkt ∉ ids (kkeys sr sw c);
    ih_entry : pamQueue c !! addr pkt = Some pr;
    ih_ident : pkt_id (pr_pkt pr) = pkt_id pkt;
    ih_open : pr_isHit pr = -1;
    ih_ref : pr_mshr pr = (0, i);
    ih_reg : cview c !! i = Some e;
    ih_addr : e_addr e = addr pkt;
    ih_ids : ∃ y, e_ids e = y :: ys ∧ y < 0;
    ih_held : nn (e_ids e) = ys;
    ih_sent : isPamComplete pr = true → e_sent e = true }.

Lemma in_hand_intro A V F c pkt pr :
  kinv sr sw A V F c → pkt_id pkt ∉ A → 0 ≤ pkt_id pkt → (pkt_id pkt ∉ ids (kkeys sr sw c)) →
  pamQueue c !! addr pkt = Some pr → pkt_id (pr_pkt pr) = pkt_id pkt →
  ∃ i e ys, in_hand A V F c pkt pr i e ys.
Proof.
  intros H Hx H0 Hk Hp Eid. assert (Hh : pr_isHit pr = -1).
  { destruct (decide (pr_isHit pr = -1)) as [|Hne]; [done|].
    destruct (ki_done _ _ _ _ _ _ H _ _ Hp Hne) as [Hin _]. congruence. }
  pose proof (ki_pam _ _ _ _ _ _ H) as Hpam.
  destruct (pam_active _ _ _ _ _ Hpam Hp) as (_ & i & e & y & ys & Er & Hi & Ea & Ei & Hy & Hcs); [lia|].
  pose proof (po_tail _ _ _ Hpam i e Hi) as Hys. rewrite Ei in Hys.
  exists i, e, ys. split; try done; [eauto|]. by rewrite Ei, nn_neg, nn_all.
Qed.

(** The register is closed with the response of the read and of the requests
    that joined; the entry goes, or stays while its read is on its way. *)
Lemma in_hand_close A V F c pkt pr i e ys c' xs pam' :
  in_hand A V F c pkt pr i e ys → qs c' = qs c → miss_ok (mshrQueue (bufs c')) →
  cview c' = delete i (cview c) → waiting (base c') ≡ₚ xs ++ waiting (base c) → xs ≡ₚ pkt_id pkt :: ys →
  pamQueue c' = pam' →
  (isPamComplete pr || negb (e_sent e) = true ∧ pam' = delete (addr pkt) (pamQueue c) ∨
   isPamComplete pr = false ∧ e_sent e = true ∧ pam' = <[addr pkt := pr <| pr_isHit := 1 |>]> (pamQueue c)) →
  kinv sr sw ([pkt_id pkt] ++ A) V F c'.
Proof.
  intros I E1 E2 E3 E4 E5 <- Hpam'. destruct I as [H Hx H0 Hk Hp Eid Hh Er Hi Ea _ Hn Hs].
  pose proof (ki_pam _ _ _ _ _ _ H) as Hpam.
  assert (Hst : stale (pamQueue c) (addr pkt) = false) by (unfold stale; by rewrite Hp, Hh).
  destruct (flight_live _ _ _ _ Hpam Hst) as (L1 & _ & L3).
  assert (Hdn : pam_done ([pkt_id pkt] ++ A) (kkeys sr sw c) (pamQueue c))
    by (eapply pam_done_mono; [apply H|set_solver|done]).
  eapply (kinv_close A V F F c c' i e [pkt_id pkt] xs); try done.
  - constructor; [done|apply H].
  - constructor; [done|apply H].
  - by rewrite Hn.
  - rewrite E3. eapply pam_free; [done|done|..]; rewrite ?Ea.
    + intros b Hb. destruct Hpam' as [[_ ->]|(_ & _ & ->)]; [by rewrite lookup_delete_ne|by rewrite lookup_insert_ne].
    + intros pr' Hp'. destruct Hpam' as [[_ E]|(Hc & _ & E)]; rewrite E in Hp'.
      * by rewrite lookup_delete_eq in Hp'. * rewrite lookup_insert_eq in Hp'. by injection Hp' as <-.
    + done.
    + destruct Hpam' as [[Hc E]|(Hc & Hsnt & E)]; rewrite E; unfold stale.
      * rewrite lookup_delete_eq, L3; [done|]. intros j (e' & He' & Ea' & Es' & Hc').
        rewrite (po_uniq _ _ _ Hpam j i e' e) in He' by congruence. rewrite Hi in He'. injection He' as <-.
        unfold complete in Hc'. rewrite Hp in Hc'. by rewrite Hc', Es' in Hc.
      * rewrite lookup_insert_eq. cbn. rewrite (L1 i); [done|]. exists e. split_and!; try done.
        unfold complete. by rewrite Hp.
  - destruct Hpam' as [[_ ->]|(_ & _ & ->)]; [by apply pam_done_delete|].
    apply pam_done_insert; [done|..]; cbn; rewrite Eid; [set_solver|done].
Qed.

(** The register that [emptied] left is freed. *)
Lemma emptied_free now i e xs w c c2 c3 c4 :
  cview c !! i = Some e → emptied i e xs c c2 → kbooks c3 = kbooks (c2 <| pamQueue := pamQueue c3 |>) →
  onBufs (deallocateMSHR now (0, i) w) c3 = Ok c4 →
  qs c4 = qs c ∧ miss_ok (mshrQueue (bufs c4)) ∧ cview c4 = delete i (cview c) ∧
  waiting (base c4) ≡ₚ xs ++ waiting (base c) ∧ pamQueue c4 = pamQueue c3.
Proof.
  intros Hi [M1 M2 M3 M4 M5] [(E1 & E2 & _)%rest_eq E3]%kbooks_eq Hf. cbn in E1, E2, E3.
  assert (Hv3 : cview c3 = <[i := e <| e_ids := [] |>]> (cview c)) by (unfold cview in *; by rewrite E2, M4).
  apply (free_mshr_view now i (e <| e_ids := [] |>)) in Hf as (F1 & F2 & F3 & F4 & F5);
    [|by rewrite E2|rewrite Hv3; apply lookup_insert_eq].
  split_and!; [by rewrite F1, E1|done| | |done].
  - rewrite F5, Hv3. apply delete_insert_eq.
  - unfold waiting in *. by rewrite F3, E3.
Qed.

Lemma the_mshr_sent i e b : miss_ok (mshrQueue b) → view (mshrQueue b) !! i = Some e →
  inService (the_mshr b (0, i)) = e_sent e.
Proof. intros Hm [_ ->]%view_Some; [done|apply Hm]. Qed.

(** The access missed and the memory has not answered: the read joins. *)
Lemma in_hand_join A V F now pkt pr i e ys c c' :
  in_hand A V F c pkt pr i e ys → read_ok pkt → isPamComplete pr = false →
  onBufs (λ b,
    m ← allocateTarget now pkt (headerDelay pkt) (order b) (the_mshr b (0, i));
    Ok (upd_mshr (0, i) m (b <| order ::= λ o, u64 (o + 1) |>)))
    (c <| pamQueue ::= <[addr pkt := pr <| pr_isHit := 0 |>]> |>) = Ok c' →
  kinv sr sw ([pkt_id pkt] ++ A) V F c'.
Proof.
  intros [H Hx H0 Hk Hp Eid Hh Er Hi Ea (y & Ei & Hy) Hn Hsn] [Hs Ha] Ec.
  unfold onBufs. intros (b & Hb & [= <-])%bind_ok. apply bind_ok in Hb as (m & Hm & Eb).
  eapply (join_view now pkt _ _ i e (bufs c) ((bufs c) <| order ::= λ o, u64 (o + 1) |>)) in Hm as [V1 V2];
    try done; [|apply H].
  assert (b = upd_mshr (0, i) m ((bufs c) <| order ::= λ o, u64 (o + 1) |>)) as Eb' by by injection Eb as <-.
  rewrite <-Eb' in V1, V2. clear Eb Eb'.
  eapply (kinv_qs sr sw A V F _ _ _ c); [done|done|done| | | | |].
  - unfold cview. cbn. rewrite V2. apply pam_join; [|done|done].
    eapply pam_mark; [apply H|exact Hp|lia| |done|cbn; by rewrite Ec|cbn; congruence].
    split; [right; by rewrite <-Ec|]. exists i, e, y, ys. cbn. rewrite Ec. done.
  - apply pam_done_insert; cbn; rewrite ?Eid; [|set_solver|done].
    eapply pam_done_mono; [apply H|set_solver|done].
  - constructor; [done|apply H].
  - constructor; [done|apply H].
  - unfold cview at 1. cbn [bufs set_field]. rewrite V2, held_upd. cbn [e_ids set_field].
    rewrite nn_snoc by done.
    rewrite (ki_perm _ _ _ _ _ _ H), (held_split _ _ _ Hi). rewrite <-!app_assoc. cbn.
    by rewrite <-!Permutation_middle.
Qed.

Lemma pam_access_done_kinv A V F now run pr pkt hit i e ys c c' :
  in_hand A V F c pkt pr i e ys → read_ok pkt →
  pam_access_done now run (addr pkt) pr pkt hit c = Ok c' → kinv sr sw ([pkt_id pkt] ++ A) V F c'.
Proof.
  intros I [Hs Ha]. pose proof I as [H Hx H0 Hk Hp Eid Hh Er Hi Ea (y & Ei & Hy) Hn Hsn].
  pose proof (ki_miss _ _ _ _ _ _ H) as Hm.
  unfold pam_access_done. set (pr' := pr <| pr_isHit := _ |>). set (c1 := c <| pamQueue ::= _ |>).
  change (isPamComplete pr') with (isPamComplete pr). change (pr_mshr pr') with (pr_mshr pr). rewrite Er.
  assert (Er' : pr_mshr pr' = (0, i)) by done.
  assert (Hempt : ∀ c2 xs y' ys', e_ids e = y' :: ys' → xs ≡ₚ pkt_id pkt :: ys' → emptied i e xs c1 c2 →
    xs ≡ₚ pkt_id pkt :: ys ∧ pamQueue c2 = <[addr pkt := pr']> (pamQueue c) ∧
    (∀ d w c3 c4, onBufs (deallocateMSHR now (0, i) w) c3 = Ok c4 → c3 = c2 <| pamQueue ::= d |> →
      qs c4 = qs c ∧ miss_ok (mshrQueue (bufs c4)) ∧ cview c4 = delete i (cview c) ∧
      waiting (base c4) ≡ₚ xs ++ waiting (base c) ∧ pamQueue c4 = d (pamQueue c2))).
  { intros c2 xs y' ys' Ei' Ex He. rewrite Ei in Ei'. injection Ei' as <- <-. split; [done|].
    split; [apply He|]. intros d w c3 c4 Hf ->.
    by apply (emptied_free now i e xs w c1 c2) in Hf as (F1 & F2 & F3 & F4 & F5). }
  destruct (isPamComplete pr) eqn:Ec.
  - intros H'. apply bind_ok in H' as (c2 & H2 & Hf).
    assert (∃ y' ys' xs, e_ids e = y' :: ys' ∧ xs ≡ₚ pkt_id pkt :: ys' ∧ emptied i e xs c1 c2)
      as (y' & ys' & xs & G1 & G2 & G3).
    { destruct hit; [by eapply pam_hit_emptied|by eapply pam_miss_emptied]. }
    destruct (Hempt _ _ _ _ G1 G2 G3) as (G4 & G5 & G6).
    destruct (G6 (delete (addr pkt)) _ _ _ Hf eq_refl) as (F1 & F2 & F3 & F4 & F5).
    eapply (in_hand_close A V F c pkt pr i e ys c' xs (pamQueue c')); try done. left. rewrite Ec. split; [done|].
    rewrite F5, G5. apply delete_insert_eq.
  - destruct hit.
    + intros H'. apply bind_ok in H' as (c2 & H2 & H'). apply bind_ok in H' as (c3 & Hf & [= <-]).
      apply (pam_hit_emptied now pr' pkt i e) in H2 as (y' & ys' & xs & G1 & G2 & G3); [|done..].
      destruct (Hempt _ _ _ _ G1 G2 G3) as (G4 & G5 & G6).
      assert (Esv : inService (the_mshr (bufs c2) (0, i)) = e_sent e).
      { rewrite (the_mshr_sent i (e <| e_ids := [] |>)); [done|apply G3|]. fold (cview c2).
        rewrite (em_view _ _ _ _ _ G3). apply lookup_insert_eq. }
      rewrite Esv.
      destruct (G6 id _ c2 _ Hf) as (F1 & F2 & F3 & F4 & F5); [by destruct c2|]. unfold id in F5.
      destruct (e_sent e) eqn:Es.
      * apply (in_hand_close A V F c pkt pr i e ys c3 xs (pamQueue c3)); try done.
        right. by rewrite F5, G5.
      * apply (in_hand_close A V F c pkt pr i e ys _ xs (delete (addr pkt) (pamQueue c3))); try done.
        left. rewrite Es, orb_true_r, F5, G5. split; [done|]. apply delete_insert_eq.
    + by apply (in_hand_join A V F now pkt pr i e ys).
Qed.

Lemma read_miss_kinv A V F now d c c' :
  kinv sr sw A V F c → did d ∉ A → 0 ≤ did d → read_ok (dp_pkt d) →
  read_miss now d c = Ok c' → kinv sr sw ([did d] ++ A) V F c'.
Proof.
  intros H Hx H0 Hr. unfold read_miss. case_match.
  - by apply coalesce_kinv.
  - by apply miss_kinv.
Qed.

Lemma read_done_kinv A V F now run d c c' :
  kinv sr sw A V F c → did d ∉ A → 0 ≤ did d → read_ok (dp_pkt d) → (did d ∉ ids (kkeys sr sw c)) →
  read_done now run d c = Ok c' → kinv sr sw ([did d] ++ A) V F c'.
Proof.
  intros H Hx H0 Hr Hk. unfold read_done. intros H'. apply bind_ok in H' as ([hit t] & _ & H').
  set (c1 := c <| tags := t |>) in H'. assert (Hk1 : kinv sr sw A V F c1) by by apply (kinv_books _ _ _ _ _ c).
  assert (Hkk : did d ∉ ids (kkeys sr sw c1)) by done. clearbody c1. clear H Hk c.
  assert (Hnormal : (if hit then access_respond now (frontendLatency + backendLatency) (dp_pkt d) c1
                     else read_miss now d c1) = Ok c' → kinv sr sw ([did d] ++ A) V F c').
  { destruct hit; [|by apply read_miss_kinv]. intros Ha%access_respond_answers. by eapply kinv_answer. }
  destruct (pamQueue c1 !! addr (dp_pkt d)) as [pr|] eqn:Ep; [|by apply Hnormal].
  destruct (Z.eqb_spec (pkt_id (pr_pkt pr)) (pkt_id (dp_pkt d))) as [E|]; [|by apply Hnormal].
  destruct (in_hand_intro A V F c1 (dp_pkt d) pr) as (i & e & ys & I); try done.
  by eapply pam_access_done_kinv.
Qed.

(** ** Responses of the memory *)

(** The oldest read of a block comes back. *)
Lemma miss_response_emptied now run i e pkt c c' :
  miss_ok (mshrQueue (bufs c)) → cview c !! i = Some e →
  miss_response now run (0, i) pkt c = Ok c' → ∃ xs, xs ≡ₚ e_ids e ∧ emptied i e xs c c'.
Proof.
  intros Hm Hi. unfold miss_response. intros H. apply bind_ok in H as (_ & _ & H).
  apply bind_ok in H as (t & _ & H). destruct (getSetTagFromAddr (addr pkt)) as [s tg].
  apply bind_ok in H as (c1 & H1 & H).
  assert (E1 : kbooks c1 = kbooks c).
  { destruct (_ || _); [|by injection H1 as <-]. apply bind_ok in H1 as (_ & _ & H1).
    by apply fill_block_books in H1. }
  set (c2 := miss_latency _ _ _ _) in H. assert (E2 : kbooks c2 = kbooks c) by (etrans; [|exact E1]; done).
  clearbody c2. destruct (take_all (0, i) c2) as [ts c3] eqn:Et.
  pose proof E2 as [(F1 & F2 & F3)%rest_eq _]%kbooks_eq.
  apply (take_all_emptied i e) in Et as [T1 T2]; [|by rewrite F2|unfold cview; by rewrite F2].
  apply each_target_answers in H as (xs & Ex & H).
  - exists xs. split; [by rewrite Ex, T1|]. apply answers_books in E2.
    eapply then_emptied in T2; [|exact E2]. eapply emptied_then in T2; [|exact H]. by rewrite app_nil_r in T2.
  - intros p c4 c5 (_ & _ & Ha)%bind_ok. by eapply access_respond_answers.
Qed.

(** A response to the oldest read of its block, at register [i]. *)
Lemma response_close A V F c c' i e xs :
  kinv sr sw A V F c → cview c !! i = Some e → stale (pamQueue c) (e_addr e) = false →
  head (flight (e_addr e) F) = Some i →
  qs c' = qs c → miss_ok (mshrQueue (bufs c')) → cview c' = delete i (cview c) →
  waiting (base c') ≡ₚ xs ++ waiting (base c) → xs ≡ₚ nn (e_ids e) →
  pamQueue c' = delete (e_addr e) (pamQueue c) → kinv sr sw A V (drop_first (e_addr e) F) c'.
Proof.
  intros H Hi Hst Hfl E1 E2 E3 E4 E5 E6. pose proof (ki_pam _ _ _ _ _ _ H) as Hpam.
  destruct (flight_live _ _ _ _ Hpam Hst) as (_ & L2 & _).
  destruct (flight (e_addr e) F) as [|j l] eqn:El; [done|]. injection Hfl as ->.
  destruct (L2 i l eq_refl) as [_ ->].
  eapply (kinv_close A V F _ c c' i e [] xs); try done; try apply H.
  - rewrite E3, E6. eapply pam_free; [done|done|..].
    + intros b Hb. by rewrite lookup_delete_ne.
    + intros pr Hp. by rewrite lookup_delete_eq in Hp.
    + intros b Hb. by rewrite flight_drop, decide_False.
    + rewrite flight_drop, decide_True, El by done. unfold stale. by rewrite lookup_delete_eq.
  - rewrite E6. apply pam_done_delete. apply H.
Qed.

(** Answers of the memory that do not concern a read. *)
Lemma clearNoTarget_books now r c c' : onBufs (clearNoTarget now r) c = Ok c' → kbooks c' = kbooks c.
Proof.
  unfold onBufs. intros (b & Hb%clearNoTarget_queue & [= <-])%bind_ok. unfold kbooks, rest. cbn. by rewrite Hb.
Qed.

Lemma write_response_books now r w c c' :
  r.1 ≠ 0 → onBufs (deallocateMSHR now r w) c = Ok c' → kbooks c' = kbooks c.
Proof.
  intros Hr. unfold onBufs. intros (b & Hb & [= <-])%bind_ok.
  apply deallocateMSHR_queue in Hb as (q & _ & E). rewrite (proj2 (Z.eqb_neq _ _) Hr) in E.
  unfold kbooks, rest. cbn. by rewrite E.
Qed.

(** The register of a live read. *)
Lemma live_reg A V F c a i :
  kinv sr sw A V F c → stale (pamQueue c) a = false → head (flight a F) = Some i →
  ∃ e, cview c !! i = Some e ∧ e_addr e = a ∧ e_sent e = true ∧ flight a F = [i].
Proof.
  intros H Hs Hf. destruct (flight_live _ _ _ _ (ki_pam _ _ _ _ _ _ H) Hs) as (_ & L2 & _).
  destruct (flight a F) as [|j l]; [done|]. injection Hf as ->. destruct (L2 i l eq_refl) as [(e & ? & ? & ? & _) ->].
  eauto.
Qed.

(** The parallel access whose cache access is not done gets its data. *)
Lemma pam_data_kinv A V F c pr i a p t b m :
  kinv sr sw A V F c → pamQueue c !! a = Some pr → pr_isHit pr = -1 → head (flight a F) = Some i →
  pr_mshr pr = (0, i) → getTarget (the_mshr (bufs c) (0, i)) = Ok t → pkt_id p = pkt_id (t_pkt t) →
  simple p → addr p = addr (t_pkt t) →
  m = (the_mshr (bufs c) (0, i)) <| targets ::= λ l, l <| tlist ::= λ ts, (t <| t_pkt := p |>) :: tail ts |> |> →
  b = upd_mshr (0, i) m (bufs c) →
  kinv sr sw A V (drop_first a F)
    (c <| pamQueue ::= <[a := pr <| isPamComplete := true |>]> |> <| bufs := b |>).
Proof.
  intros H Hp Hh Hf Er Ht Hid Hsp Hap Em Eb. pose proof (ki_miss _ _ _ _ _ _ H) as Hm.
  assert (Hst : stale (pamQueue c) a = false) by (unfold stale; by rewrite Hp, Hh).
  destruct (live_reg A V F c a i H Hst Hf) as (e & Hi & Ea & Es & Ef).
  pose proof (ki_pam _ _ _ _ _ _ H) as Hpam.
  destruct (pam_active _ _ _ _ _ Hpam Hp) as (_ & j & e' & y & ys & Er' & Hi' & Ea' & Ei & Hy & _); [lia|].
  rewrite Er in Er'. injection Er' as <-. rewrite Hi in Hi'. injection Hi' as <-.
  assert (Hv : miss_ok (mshrQueue b) ∧ view (mshrQueue b) = cview c).
  { subst b m. apply view_Some in Hi as [Hal ->]; [|apply Hm]. unfold getTarget, the_mshr in Ht. cbn in Ht.
    destruct (targets_view i (λ ts, (t <| t_pkt := p |>) :: tail ts) (mshrQueue (bufs c)) Hm Hal) as [V1 V2].
    { destruct (mo_reg _ Hm i Hal) as [_ _ Hfo]. destruct (tlist _) as [|t0 ts]; [done|]. injection Ht as ->.
      apply Forall_cons in Hfo as [[_ Hat] Hfo]. constructor; [|done]. cbn. by rewrite Hap. }
    split; [done|]. etrans; [exact V2|]. unfold cview. apply insert_id.
    apply view_Some; [apply Hm|]. split; [done|]. unfold ent. f_equal.
    destruct (tlist _) as [|t0 ts]; [done|]. injection Ht as ->. unfold tid. cbn. by rewrite Hid. }
  destruct Hv as [V1 V2]. clear Em Eb.
  eapply (kinv_qs sr sw A V F _ _ _ c); [done|done|done| | |apply H|apply H|].
  - unfold cview. cbn. rewrite V2. eapply (pam_mark _ _ F _ a pr); [done|done|lia| | | |done].
    + split; [by left|]. exists i, e, y, ys. cbn. done.
    + intros z Hz. by rewrite flight_drop, decide_False.
    + cbn. by rewrite flight_drop, decide_True, Ef.
  - cbn. intros z pr' [[<- <-]|[_ Hz]]%lookup_insert_Some; [done|].
    exact (ki_done _ _ _ _ _ _ H z pr' Hz).
  - unfold cview at 1. cbn. rewrite V2. apply H.
Qed.

Lemma copy_block_fields dst src p : copy_block dst src = Ok p →
  pkt_id p = pkt_id dst ∧ addr p = addr dst ∧ (simple dst → simple p).
Proof.
  unfold copy_block, copy_in, simple. intros (bs & _ & H)%bind_ok. destruct (data dst); by simplify_eq.
Qed.

Lemma first_target_ok A V F c i e t :
  kinv sr sw A V F c → cview c !! i = Some e → getTarget (the_mshr (bufs c) (0, i)) = Ok t → simple (t_pkt t).
Proof.
  intros H [Hal ->]%view_Some Ht; [|apply H]. destruct (mo_reg _ (ki_miss _ _ _ _ _ _ H) i Hal) as [_ _ Hfo].
  unfold getTarget, the_mshr in Ht. change (queue_of (bufs c) (0, i).1) with (mshrQueue (bufs c)) in Ht.
  cbn [snd] in Ht. destruct (tlist _); [done|]. injection Ht as ->. by apply Forall_cons in Hfo as [[? _] _].
Qed.

(** The parallel access whose cache access missed is answered. *)
Lemma pam_answer_kinv A V F now run r pr pkt c c' :
  kinv sr sw A V F c → pamQueue c !! addr pkt = Some pr → pr_isHit pr = 0 →
  head (flight (addr pkt) F) = Some r.2 → r.1 = 0 →
  (c0 ← onBufs (clearNoTarget now r) (c <| pamQueue ::= <[addr pkt := pr <| isPamComplete := true |>]> |>);
   tc ← pop_first r c0;
   let '(ts, c0) := take_all r tc.2 in
   c0 ← each_target (copy_respond now 1 pkt) ts c0;
   c0 ← onBufs (deallocateMSHR now r (isFull (queue_of (bufs c) r.1))) c0;
   assert (hasContextId pkt) "pkt->req->hasContextId()";;
   c0 ← fill_block now run (addr pkt) (contextId pkt) c0;
   Ok (erase_pam (addr pkt) c0)) = Ok c' → kinv sr sw A V (drop_first (addr pkt) F) c'.
Proof.
  intros H Hp Hh Hf Hr0. destruct r as [q i]. cbn in Hr0, Hf. subst q.
  assert (Hst : stale (pamQueue c) (addr pkt) = false) by (unfold stale; by rewrite Hp, Hh).
  destruct (live_reg A V F c _ i H Hst Hf) as (e & Hi & Ea & Es & _).
  pose proof (ki_pam _ _ _ _ _ _ H) as Hpam.
  destruct (pam_active _ _ _ _ _ Hpam Hp) as (_ & j & e' & y & ys & Er & Hi' & Ea' & Ei & Hy & _); [lia|].
  rewrite (po_uniq _ _ _ Hpam j i e' e) in Hi' by congruence. rewrite Hi in Hi'. injection Hi' as <-.
  pose proof (po_tail _ _ _ Hpam i e Hi) as Hys. rewrite Ei in Hys.
  set (c1 := c <| pamQueue ::= _ |>). intros H'. apply bind_ok in H' as (c2 & E2%clearNoTarget_books & H').
  pose proof E2 as [(Q2 & M2 & P2)%rest_eq W2]%kbooks_eq.
  apply bind_ok in H' as ([t c3] & Hpop & H'). cbn [snd] in H'. destruct (take_all (0, i) c3) as [ts c4] eqn:Et.
  destruct (pop_take_emptied i e t c2 c3 c3 ts c4 []) as (y' & ys' & E1 & E3 & He);
    [rewrite M2; apply H|unfold cview; by rewrite M2|done|apply answers_refl|done|].
  rewrite Ei in E1. injection E1 as <- <-.
  apply bind_ok in H' as (c5 & H5 & H'). apply bind_ok in H' as (c6 & H6 & H').
  apply bind_ok in H' as (_ & _ & H'). apply bind_ok in H' as (c7 & E7%fill_block_books & [= <-]).
  apply each_target_answers in H5 as (zs & Ez & H5); [|intros; by eapply copy_respond_answers].
  eapply emptied_then in He; [|exact H5]. rewrite app_nil_r in He.
  eapply (emptied_free now i e zs _ c2 c5 c5) in H6 as (F1 & F2 & F3 & F4 & F5);
    [|unfold cview; by rewrite M2|done|by destruct c5].
  pose proof E7 as [(Q7 & M7 & P7)%rest_eq W7]%kbooks_eq. rewrite <-Ea.
  eapply (response_close A V F c _ i e zs); rewrite ?Ea; try done.
  - change (qs (erase_pam (addr pkt) c7)) with (qs c7). by rewrite Q7, F1, Q2.
  - change (bufs (erase_pam (addr pkt) c7)) with (bufs c7). by rewrite M7.
  - change (cview (erase_pam (addr pkt) c7)) with (cview c7). unfold cview in *. by rewrite M7, F3, M2.
  - change (waiting (base (erase_pam (addr pkt) c7))) with (waiting (base c7)). unfold waiting in *.
    rewrite W7, F4, W2. done.
  - rewrite Ez, E3, Ei, nn_neg, nn_all by done. done.
  - unfold erase_pam. cbn. rewrite P7, F5, (em_pam _ _ _ _ _ He), P2. apply delete_insert_eq.
Qed.

Lemma pam_response_kinv A V F now run i pr pkt c c' :
  kinv sr sw A V F c → pamQueue c !! addr pkt = Some pr → head (flight (addr pkt) F) = Some i →
  pam_response now run (0, i) pr pkt c = Ok c' → kinv sr sw A V (drop_first (addr pkt) F) c'.
Proof.
  intros H Hp Hf. unfold pam_response. cbn [pr_isHit pr_mshr set_field].
  pose proof (ki_pam _ _ _ _ _ _ H) as Hpam.
  destruct (Z.eqb_spec (pr_isHit pr) (-1)) as [Hh|Hh].
  - destruct (pam_active _ _ _ _ _ Hpam Hp) as (_ & j & e & y & ys & Er & Hi & Ea & _); [lia|].
    assert (Hst : stale (pamQueue c) (addr pkt) = false) by (unfold stale; by rewrite Hp, Hh).
    destruct (live_reg A V F c _ i H Hst Hf) as (e' & Hi' & Ea' & _ & _).
    rewrite (po_uniq _ _ _ Hpam j i e e') in Er by congruence. rewrite Er. intros H'.
    apply bind_ok in H' as (_ & _ & H'). apply bind_ok in H' as (t & Ht & H').
    apply bind_ok in H' as (q & (E1 & E2 & E3)%copy_block_fields & [= <-]).
    assert (Hs : simple (t_pkt t)) by (eapply (first_target_ok A V F c i e'); done).
    eapply kinv_books; [|eapply (pam_data_kinv A V F c pr i (addr pkt) q t); try done; by apply E3]. unfold kbooks, rest. cbn. by rewrite Er.
  - destruct (Z.eqb_spec (pr_isHit pr) 1) as [Hh'|Hh'].
    + intros [= <-]. assert (Hst : stale (pamQueue c) (addr pkt) = true)
        by (unfold stale; rewrite Hp; by apply Z.eqb_eq).
      eapply (kinv_qs sr sw A V F _ _ _ c); [done|done|apply H| | |apply H|apply H|apply H].
      * cbn. rewrite delete_insert_eq. by apply pam_drop_stale.
      * cbn. rewrite delete_insert_eq. apply pam_done_delete, H.
    + intros H'. apply bind_ok in H' as (_ & _ & H').
      eapply (pam_answer_kinv A V F now run (0, i) pr pkt c c'); try done.
      destruct (pam_active _ _ _ _ _ Hpam Hp Hh') as [[?|[? _]] _]; [done|lia].
Qed.

Lemma cache_recvTimingResp_kinv A V F now run pkt r c c' :
  kinv sr sw A V F c → senderState pkt = Some r → (r.1 = 0 → head (flight (addr pkt) F) = Some r.2) →
  cache_recvTimingResp now run pkt c = Ok c' →
  kinv sr sw A V (if r.1 =? 0 then drop_first (addr pkt) F else F) c'.
Proof.
  intros H Hs Hf. unfold cache_recvTimingResp. rewrite Hs. intros H'. apply bind_ok in H' as (_ & _ & H').
  destruct (Z.eqb_spec r.1 0) as [E0|E0].
  - destruct r as [q i]. cbn in E0. subst q. specialize (Hf eq_refl). cbn in Hf.
    destruct (pamQueue c !! addr pkt) as [pr|] eqn:Ep; [by eapply pam_response_kinv|].
    assert (Hst : stale (pamQueue c) (addr pkt) = false) by (unfold stale; by rewrite Ep).
    destruct (live_reg A V F c _ i H Hst Hf) as (e & Hi & Ea & Es & _).
    pose proof (ki_pam _ _ _ _ _ _ H) as Hpam. pose proof (ki_miss _ _ _ _ _ _ H) as Hm.
    apply bind_ok in H' as (c1 & E1%clearNoTarget_books & H'). apply bind_ok in H' as (c2 & H2 & H').
    cbn [andb] in H2. destruct (isRead (cmd pkt)); [|done].
    pose proof E1 as [(Q1 & M1 & P1)%rest_eq W1]%kbooks_eq.
    apply (miss_response_emptied now run i e) in H2 as (xs & Ex & He);
      [|by rewrite M1|unfold cview; by rewrite M1].
    eapply (emptied_free now i e xs _ c1 c2 c2) in H' as (F1 & F2 & F3 & F4 & F5);
      [|unfold cview; by rewrite M1|done|by destruct c2].
    rewrite <-Ea. eapply (response_close A V F c _ i e xs); rewrite ?Ea; try done.
    + congruence.
    + unfold cview in *. by rewrite F3, M1.
    + unfold waiting in *. by rewrite F4, W1.
    + rewrite Ex, nn_all; [done|]. pose proof (po_tail _ _ _ Hpam i e Hi) as Ht.
      destruct (e_ids e) as [|y ys] eqn:Ei; [done|]. constructor; [|done].
      destruct (Z.le_gt_cases 0 y) as [|Hy]; [done|]. exfalso.
      destruct (po_head _ _ _ Hpam i e y Hi) as (pr & Hpr & _); [by rewrite Ei|done|]. congruence.
    + rewrite F5, (em_pam _ _ _ _ _ He), P1. by rewrite delete_id.
  - assert (Hb : kbooks c' = kbooks c); [|by apply (kinv_books _ _ _ _ _ c)].
    assert (H2 : (c0 ← onBufs (clearNoTarget now r) c;
      c0 ← (if (r.1 =? 1) && isWrite (cmd pkt) then
         assert (getNumTargets (the_mshr (bufs c0) r) =? 1) "mshr->getNumTargets()==1";;
         _ ← getTarget (the_mshr (bufs c0) r);
         Ok (c0 <| bufs ::= upd_mshr r (popTarget (the_mshr (bufs c0) r)) |>)
       else Fault (Fatal "DRAMCache doesn't understand this response"));
      onBufs (deallocateMSHR now r (isFull (queue_of (bufs c) r.1))) c0) = Ok c')
      by (by destruct (pamQueue c !! addr pkt)). clear H'.
    apply bind_ok in H2 as (c1 & E1%clearNoTarget_books & H2). apply bind_ok in H2 as (c2 & H3 & H4).
    apply write_response_books in H4; [|done]. rewrite H4, <-E1.
    destruct (_ && _); [|done]. apply bind_ok in H3 as (_ & _ & H3). apply bind_ok in H3 as (_ & _ & [= <-]).
    unfold kbooks, rest, upd_mshr, upd_queue. cbn. by rewrite (proj2 (Z.eqb_neq _ _) E0).
Qed.
End finished.

(** ** The response queues *)

Lemma kinv_perm sr sw A A' V F c : A' ≡ₚ A → kinv sr sw A V F c → kinv sr sw A' V F c.
Proof.
  intros E H. eapply (kinv_qs sr sw A V F _ _ _ c); [done|done|apply H|apply H| | | |]; rewrite ?E; try apply H.
  eapply pam_done_mono; [apply H| |done]. intros x. by rewrite E.
Qed.

Lemma burst_pop sr sw A V F c d h lb b' :
  kinv 0 0 A V F c → kkeys 0 0 c ≡ₚ (did d, Some h) :: kkeys sr sw c →
  Forall (λ d, read_ok (dp_pkt d)) (reads sr c) →
  burst_done h (base c) = Ok (lb, b') →
  if lb then ∃ A0, A ≡ₚ did d :: A0 ∧ (did d ∉ A0) ∧ 0 ≤ did d ∧ (did d ∉ ids (kkeys sr sw (c <| base := b' |>))) ∧
    kinv sr sw A0 V F (c <| base := b' |>)
  else kinv sr sw A V F (c <| base := b' |>).
Proof.
  intros H Hk Hr Hb. pose proof H as [Hs _ Hm Hp Hd Hn Hf Hpm]. rewrite Hk in Hs.
  destruct (split_pop _ _ _ _ _ Hs) as (bh & Hbh & Hpop). unfold burst_done in Hb. rewrite Hbh in Hb.
  cbn [burstsServiced burstCount set_field] in Hb. change (Z.succ ?z) with (z + 1) in Hb.
  rewrite (ids_perm _ _ Hk), ids_cons in Hpm.
  destruct (burstsServiced bh + 1 =? burstCount bh); injection Hb as <- <-; destruct Hpop as [Hs' Hx].
  - rewrite elements_union_singleton in Hpm by done. cbn in Hpm.
    eexists. split; [exact Hpm|]. rewrite Hpm in Hn, Hf. apply NoDup_cons in Hn as [Hn1 Hn2].
    apply Forall_cons in Hf as [Hf1 Hf2]. split_and!; [done|done|done|]. split; try done.
    intros a pr Ha Hh. destruct (Hd a pr Ha Hh) as [G1 G2]. rewrite (ids_perm _ _ Hk), ids_cons in G2.
    apply not_elem_of_union in G2 as [G2 G3]. rewrite not_elem_of_singleton in G2.
    rewrite Hpm in G1. apply elem_of_cons in G1 as [G1|G1]; done.
  - split; try done.
    + intros a pr Ha Hh. destruct (Hd a pr Ha Hh) as [G1 G2]. split; [done|].
      rewrite (ids_perm _ _ Hk), ids_cons in G2. by apply not_elem_of_union in G2 as [_ G2].
    + by rewrite (subseteq_union_1_L {[did d]}) in Hpm by (by apply singleton_subseteq_l).
Qed.

Lemma processRespondHelper_kinv A V F now c c' :
  kinv 1 0 A V F c → processRespondHelper now c = Ok c' → kinv 0 0 A V F c'.
Proof.
  intros H. unfold processRespondHelper. set (c1 := c <| base ::= _ |>).
  assert (H1 : kinv 0 0 A V F c1).
  { assert (kkeys 0 0 c1 = kkeys 1 0 c) as Ek by (unfold kkeys, reads; cbn; by destruct (respQueue (base c))).
    destruct H as [I1 I2 I3 I4 I5 I6 I7 I8]. split; rewrite ?Ek; try done. }
  clearbody c1. clear H c. intros H'. apply bind_ok in H' as (c2 & H2 & [= <-]).
  apply (kinv_books _ _ _ _ _ c1); [|done]. assert (kbooks c2 = kbooks c1) as <-.
  { destruct (respQueue (base c1)) as [|d q].
    - injection H2 as <-. by destruct (_ && _).
    - apply bind_ok in H2 as (_ & _ & H2). apply bind_ok in H2 as (_ & _ & H2).
      apply bind_ok in H2 as (ev & _ & [= <-]). done. }
  unfold kbooks, rest, qs, retry_read. cbn. by destruct (retryRdReq (base c2)).
Qed.

Lemma cache_processRespondEvent_kinv A V F now run c c' :
  kinv 0 0 A V F c → cache_processRespondEvent now run c = Ok c' → kinv 0 0 A V F c'.
Proof.
  intros H. unfold cache_processRespondEvent. set (c1 := c <| base ::= _ |>).
  assert (H1 : kinv 0 0 A V F c1) by by apply (kinv_books _ _ _ _ _ c). clearbody c1. clear H c.
  destruct (respQueue (base c1)) as [|d q] eqn:Eq; [done|]. intros H'.
  apply bind_ok in H' as (c3 & H3 & H'). eapply processRespondHelper_kinv, H'. clear H' c'.
  destruct (burstHelper d) as [h|] eqn:Eh; [|done].
  apply bind_ok in H3 as ([lb b'] & Hb & H3). cbn [fst snd] in H3.
  assert (Hrd : Forall (λ d, read_ok (dp_pkt d)) (reads 0 c1)) by apply H1.
  unfold reads in Hrd. rewrite drop_0, Eq in Hrd. apply Forall_app in Hrd as [R1 [R2 R3]%Forall_cons].
  apply (burst_pop 1 0 A V F c1 d h lb b') in Hb; [|done| |].
  - destruct lb; [|by injection H3 as <-]. destruct Hb as (A0 & E & Hx & H0 & Hk & Hi).
    eapply kinv_perm; [exact E|]. by eapply (read_done_kinv 1 0 A0 V F now run d).
  - unfold kkeys, reads. rewrite Eq. cbn. rewrite !fmap_app. cbn. rewrite Eh.
    rewrite <-!app_assoc. cbn. by rewrite <-Permutation_middle.
  - unfold reads. rewrite Eq. cbn. rewrite drop_0. by apply Forall_app.
Qed.

Lemma write_lookup_books now pkt c c' : write_lookup now pkt c = Ok c' → kbooks c' = kbooks c.
Proof.
  unfold write_lookup. intros H. apply bind_ok in H as ([hit t] & _ & H).
  destruct hit; [by injection H as <-|]. destruct dramCache_write_allocate.
  - destruct (getSetTagFromAddr (addr pkt)) as [s tg]. apply bind_ok in H as (c1 & H1 & [= <-]).
    assert (kbooks c1 = kbooks c) as <-; [|done].
    case_match; [by apply doWriteBack_books in H1|by injection H1 as <-].
  - cbn [new_block_packet] in H. apply bind_ok in H as (p & _ & H). apply bind_ok in H as (p2 & _ & H).
    apply write_buffer_books in H. done.
Qed.

Lemma next_write_response_books now c c' : next_write_response now c = Ok c' → kbooks c' = kbooks c.
Proof.
  unfold next_write_response. destruct (dramPktWriteRespQueue c) as [|d q] eqn:E.
  - intros [= <-]. by destruct (all_idle c && _).
  - intros H. apply bind_ok in H as (_ & _ & H). apply bind_ok in H as (_ & _ & H).
    apply bind_ok in H as (ev & _ & [= <-]). done.
Qed.

Lemma processWriteRespondEvent_kinv A V F now c c' :
  kinv 0 0 A V F c → processWriteRespondEvent now c = Ok c' → kinv 0 0 A V F c'.
Proof.
  intros H. unfold processWriteRespondEvent. set (c1 := c <| respondWriteEvent := None |>).
  assert (H1 : kinv 0 0 A V F c1) by by apply (kinv_books _ _ _ _ _ c). clearbody c1. clear H c.
  destruct (dramPktWriteRespQueue c1) as [|d q] eqn:Eq; [done|]. intros H'.
  apply bind_ok in H' as (c3 & H3 & H'). apply next_write_response_books in H'.
  apply (kinv_books _ _ _ _ _ _ _ H'). clear H' c'.
  destruct (burstHelper d) as [h|] eqn:Eh; [|done].
  apply bind_ok in H3 as ([lb b'] & Hb & H3). cbn [fst snd] in H3.
  assert (Hq : drop 1 (dramPktWriteRespQueue c3) = q → kinv 0 1 A V F c3 →
    kinv 0 0 A V F (c3 <| dramPktWriteRespQueue := q |>)).
  { intros Ed [I1 I2 I3 I4 I5 I6 I7 I8].
    assert (kkeys 0 0 (c3 <| dramPktWriteRespQueue := q |>) = kkeys 0 1 c3) as Ek
      by (unfold kkeys, reads; cbn -[drop]; by rewrite Ed).
    split; rewrite ?Ek; try done. }
  apply (burst_pop 0 1 A V F c1 d h lb b') in Hb; [|done| |apply H1].
  - destruct lb.
    + destruct Hb as (A0 & E & Hx & H0 & Hk & Hi). apply bind_ok in H3 as (c4 & E4%write_lookup_books & H3).
      apply bind_ok in H3 as (_ & _ & H3). apply bind_ok in H3 as (p & Ep%makeResponse_id & H3).
      apply respond_answers in H3. rewrite Ep in H3. pose proof H3 as [(Q & _)%rest_eq _].
      pose proof E4 as [(Q4 & _)%rest_eq _]%kbooks_eq. apply Hq.
      * assert (dramPktWriteRespQueue c3 = dramPktWriteRespQueue c1) as ->; [|by rewrite Eq].
        rewrite Q4 in Q. by injection Q.
      * eapply kinv_perm; [exact E|]. eapply (kinv_answer 0 1 A0 V F c4); [|done..].
        by apply (kinv_books _ _ _ _ _ _ _ E4).
    + injection H3 as <-. apply Hq; [|done]. cbn. by rewrite Eq.
  - unfold kkeys. rewrite Eq. cbn. rewrite !fmap_app. cbn. rewrite Eh.
    rewrite !app_assoc. by rewrite <-Permutation_middle.
Qed.

(** ** The request loop *)

Lemma cache_doDRAMAccess_pkt now rq wq fq d s d' s' :
  cache_doDRAMAccess now rq wq fq d s = Ok (d', s') → dp_pkt d' = dp_pkt d ∧ burstHelper d' = burstHelper d.
Proof.
  unfold cache_doDRAMAccess, dram_access. intros H. apply bind_ok in H as ([[[d1 s1] rh] t] & H1 & [= <- _]).
  apply bind_ok in H1 as ([s2 t2] & _ & H1). apply bind_ok in H1 as (s3 & _ & [= <- _ _ _]). done.
Qed.

(** Bursts move between the queues of the controller. *)
Lemma kinv_moved A V F c c' :
  kkeys 0 0 c' ≡ₚ kkeys 0 0 c →
  Forall (λ d, read_ok (dp_pkt d)) (reads 0 c') →
  helpers (base c') = helpers (base c) → nextHelper (base c') = nextHelper (base c) →
  mshrQueue (bufs c') = mshrQueue (bufs c) → pamQueue c' = pamQueue c → respPort (base c') = respPort (base c) →
  kinv 0 0 A V F c → kinv 0 0 A V F c'.
Proof.
  intros Hk Hr E1 E2 E3 E4 E5 [I1 I2 I3 I4 I5 I6 I7 I8].
  assert (cview c' = cview c) as Ev by (unfold cview; by rewrite E3).
  split; rewrite ?E1, ?E2, ?E3, ?E4, ?Ev; try done.
  - by rewrite Hk.
  - intros a pr Ha Hh. rewrite (ids_perm _ _ Hk). exact (I5 a pr Ha Hh).
  - unfold waiting in *. by rewrite (ids_perm _ _ Hk), E5.
Qed.

Lemma cache_next_read_kinv A V F now sw c b c' :
  kinv 0 0 A V F c → cache_next_read now sw c = Ok (b, c') → kinv 0 0 A V F c'.
Proof.
  intros H. unfold cache_next_read. destruct (readQueue (base c)) as [|d0 q0] eqn:Eq.
  { match goal with |- (if ?w then _ else _) = _ → _ => destruct w end; intros [= _ <-];
      [by apply (kinv_books _ _ _ _ _ c)|]. apply (kinv_books _ _ _ _ _ c); [|done].
    by destruct (_ && _ && _). }
  rewrite <-Eq. intros H'. apply bind_ok in H' as ([found q] & Hc & H'). apply choose_perm in Hc.
  pose proof (ki_reads _ _ _ _ _ _ H) as Hrd. unfold reads in Hrd. rewrite drop_0 in Hrd.
  apply Forall_app in Hrd as [R1 R2]. rewrite <-Hc in R1.
  destruct found; cbn [negb] in H'.
  2:{ injection H' as _ <-. apply (kinv_moved _ _ _ c); try done.
      - unfold kkeys, reads. cbn. by rewrite Hc.
      - unfold reads. cbn. rewrite drop_0. by apply Forall_app. }
  destruct q as [|d rest]; [done|]. apply bind_ok in H' as (_ & _ & H').
  apply bind_ok in H' as ([d1 s1] & Ha & H'). apply cache_doDRAMAccess_pkt in Ha as [E1 E2].
  apply bind_ok in H' as (_ & _ & H'). apply bind_ok in H' as (_ & _ & H').
  apply bind_ok in H' as (b2 & Hb & [= _ <-]).
  assert (Hw : writeQueue b2 = writeQueue (base c)).
  { unfold push_response in Hb. apply bind_ok in Hb as (b3 & Hb3 & [= <-]).
    cbn in Hb3. destruct (last (respQueue (base c))); res_inv; done. }
  apply push_response_books in Hb as (F1 & F2 & F3 & F4 & F5). cbn in F1, F2, F3, F4, F5.
  apply (kinv_books _ _ _ _ _ (c <| base := b2 |>)); [by destruct (_ <? _)|].
  apply Forall_cons in R1 as [Rd Rr]. apply (kinv_moved _ _ _ c); try done.
  - unfold kkeys, reads. cbn. rewrite F1, F2, Hw, !drop_0, <-Hc, !fmap_app. cbn. unfold did.
    rewrite E1, E2. rewrite (app_assoc _ _ [_]), (Permutation_app_comm _ [_]). done.
  - unfold reads. cbn. rewrite F1, F2, drop_0, !Forall_app. split_and!; [done|done|].
    constructor; [by rewrite E1|done].
Qed.

Lemma push_write_response_books now d c c' :
  push_write_response now d c = Ok c' →
  kbooks c' = kbooks (c <| dramPktWriteRespQueue ::= λ q, q ++ [d] |>).
Proof.
  unfold push_write_response. intros H. apply bind_ok in H as (c1 & H1 & [= <-]).
  destruct (last (dramPktWriteRespQueue c)).
  - apply bind_ok in H1 as (_ & _ & H1). apply bind_ok in H1 as (_ & _ & [= <-]). done.
  - apply bind_ok in H1 as (_ & _ & H1). apply bind_ok in H1 as (ev & _ & [= <-]). done.
Qed.

Lemma service_write_kinv A V F now sw c b c' :
  kinv 0 0 A V F c → service_write now sw c = Ok (b, c') → kinv 0 0 A V F c'.
Proof.
  intros H. unfold service_write. intros H'. apply bind_ok in H' as ([found q] & Hc & H').
  apply choose_perm in Hc. destruct found; cbn [negb] in H'.
  2:{ injection H' as _ <-. apply (kinv_moved _ _ _ c); try done; [|apply H].
      unfold kkeys, reads. cbn. by rewrite Hc. }
  destruct q as [|d rest]; [done|]. apply bind_ok in H' as (_ & _ & H'). apply bind_ok in H' as (_ & _ & H').
  apply bind_ok in H' as ([d1 s1] & [E1 E2]%cache_doDRAMAccess_pkt & H').
  apply bind_ok in H' as (c2 & H2%push_write_response_books & [= _ <-]).
  apply (kinv_books _ _ _ _ _ c2); [done|]. apply (kinv_books _ _ _ _ _ _ _ H2).
  apply (kinv_moved _ _ _ c); try done; [|apply H].
  unfold kkeys, reads. cbn. rewrite !drop_0, <-Hc, !fmap_app. cbn. unfold did. rewrite E1, E2.
  apply Permutation_app_head. by rewrite app_assoc, (Permutation_app_comm _ [_]).
Qed.

Lemma service_fill_kinv A V F now sw c b c' :
  kinv 0 0 A V F c → service_fill now sw c = Ok (b, c') → kinv 0 0 A V F c'.
Proof.
  intros H. unfold service_fill. intros H'. apply bind_ok in H' as ([found q] & Hc & H').
  destruct found; cbn [negb] in H'; [|injection H' as _ <-; by apply (kinv_books _ _ _ _ _ c)].
  destruct q as [|d rest]; [done|]. apply bind_ok in H' as (_ & _ & H'). apply bind_ok in H' as (_ & _ & H').
  apply bind_ok in H' as ([d1 s1] & _ & H'). apply bind_ok in H' as (_ & _ & [= _ <-]).
  by apply (kinv_books _ _ _ _ _ c).
Qed.

Lemma onBase_finish now c c' : onBase (finish_req now) c = Ok c' → kbooks c' = kbooks c.
Proof.
  unfold onBase, finish_req. intros (b & H & [= <-])%bind_ok. apply bind_ok in H as (b1 & H1 & [= <-]).
  assert (Hb : (readQueue b1, respQueue b1, writeQueue b1, helpers b1, nextHelper b1, respPort b1) =
    (readQueue (base c), respQueue (base c), writeQueue (base c), helpers (base c), nextHelper (base c),
     respPort (base c))) by (destruct (scheduled _); res_inv; done).
  injection Hb as B1 B2 B3 B4 B5 B6. unfold kbooks, rest, qs. cbn.
  destruct (_ && _); cbn; congruence.
Qed.

Lemma cache_processNextReqEvent_kinv A V F now c c' :
  kinv 0 0 A V F c → cache_processNextReqEvent now c = Ok c' → kinv 0 0 A V F c'.
Proof.
  intros H. unfold cache_processNextReqEvent. intros H'. apply bind_ok in H' as ([busy s] & _ & H').
  match type of H' with context [cache_turn_around ?x] => set (c1 := x) in H' end.
  assert (H1 : kinv 0 0 A V F c1) by by apply (kinv_books _ _ _ _ _ c). clearbody c1. clear H c.
  destruct (busy =? ranksPerChannel); [by injection H' as <-|].
  destruct (cache_turn_around c1) as [sw c2] eqn:Et.
  assert (H2 : kinv 0 0 A V F c2).
  { apply (kinv_books _ _ _ _ _ c1); [|done]. unfold cache_turn_around in Et.
    by destruct (busState (base c1)); simplify_eq. }
  apply bind_ok in H' as ([go c3] & H3 & H').
  assert (Hk3 : kinv 0 0 A V F c3).
  { case_bool_decide; [by eapply cache_next_read_kinv|]. unfold cache_next_write in H3.
    apply bind_ok in H3 as ([g c4] & H4 & H5). assert (kinv 0 0 A V F c4).
    { destruct (do_writes c2); [by eapply service_write_kinv|]. destruct (do_fills c2); [|done].
      by eapply service_fill_kinv. }
    destruct g; cbn [negb] in H5; injection H5 as _ <-; [|done].
    apply (kinv_books _ _ _ _ _ c4); [|done]. by destruct (_ || _ || _). }
  cbn [fst snd] in H'. destruct go; [|by injection H' as <-].
  apply onBase_finish in H'. by apply (kinv_books _ _ _ _ _ _ _ H').
Qed.

(** ** Runs *)

(** The port offers its first response. *)
Definition ksent (acc : bool) (o : PacketQueue * deferred * bool) (s : Env * Cache) : Env * Cache :=
  let '(q, d, _) := o in
  (if acc then s.1 <| delivered ::= cons (pkt_id d.2) |> else s.1,
   s.2 <| base ::= λ b, b <| respPort := q |> |>).

(** The memory port offers a packet; reads that are accepted are on their way. *)
Definition kmem_sent (acc : bool) (o : option Packet * Bufs) (s : Env * Cache) : Env * Cache :=
  let way := match o.1 ≫= λ p, r ← senderState p; Some (r, addr p) with
             | Some (r, a) => if acc && (r.1 =? 0) then [(r.2, a)] else []
             | None => []
             end in
  (s.1 <| on_way ::= λ F, F ++ way |>, s.2 <| bufs := o.2 |> <| nextPkt ::= S |>).

(** A request has an identity of its own in the whole run; events fire at their tick;
    the memory answers only what it was sent, and the reads of one block in their
    order.  Receivers do not call back from within a send or a retry.  The ticks of a
    run need not increase: what holds of every run holds of those in the order of
    time. *)
Definition kstep (s : Env * Cache) (x : Tick * kop) : res (Env * Cache) :=
  let '(e, c) := s in
  let now := x.1 in
  match x.2 with
  | KReq draw run pkt =>
      if request_ok pkt && negb (bool_decide (pkt_id pkt ∈ accepted e)) then
        bc ← cache_recvTimingReq now draw run pkt c;
        Ok (if bc.1 : bool then e <| accepted ::= λ A, kowed pkt ++ A |> else e, bc.2)
      else Ok s
  | KNext =>
      if bool_decide (nextReqEvent (base c) = Some now)
      then c ← cache_processNextReqEvent now c; Ok (e, c) else Ok s
  | KRespond run =>
      if bool_decide (respondEvent (base c) = Some now)
      then c ← cache_processRespondEvent now run c; Ok (e, c) else Ok s
  | KWriteRespond =>
      if bool_decide (respondWriteEvent c = Some now)
      then c ← processWriteRespondEvent now c; Ok (e, c) else Ok s
  | KRank ev r =>
      t ← process_rank now ev r (chan (base c), nextReqEvent (base c));
      Ok (e, c <| base ::= λ b, b <| chan := t.1 |> <| nextReqEvent := t.2 |> |>)
  | KSend acc =>
      if bool_decide (sendEvent (respPort (base c)) = Some now)
      then o ← processSendEvent now (portDraining (base c)) (PacketQueue.answers acc) (respPort (base c)); Ok (ksent acc o s)
      else Ok s
  | KRetry acc =>
      if waitingOnRetry (respPort (base c))
      then o ← retry now (portDraining (base c)) (PacketQueue.answers acc) (respPort (base c)); Ok (ksent acc o s)
      else Ok s
  | KMemSend acc =>
      if bool_decide (sendEvent (sendq (bufs c)) = Some now)
      then o ← cache_processSendEvent now (next_id c) acc (bufs c); Ok (kmem_sent acc o s) else Ok s
  | KMemRetry acc =>
      if waitingOnRetry (sendq (bufs c))
      then o ← cache_recvReqRetry now (next_id c) acc (bufs c); Ok (kmem_sent acc o s) else Ok s
  | KMemResp run pkt =>
      match senderState pkt with
      | Some r =>
          if negb (r.1 =? 0) || bool_decide (head (flight (addr pkt) (on_way e)) = Some r.2) then
            c ← cache_recvTimingResp now run pkt c;
            Ok (if r.1 =? 0 then e <| on_way ::= drop_first (addr pkt) |> else e, c)
          else Ok s
      | None => Ok s
      end
  | KDrain => bc ← cache_drain now c; Ok (e, bc.2)
  end.

Definition kinv_env (s : Env * Cache) : Prop :=
  kinv 0 0 (accepted s.1) (delivered s.1) (on_way s.1) s.2.

Lemma ksent_kinv now acc q d b q0 dr s :
  kinv_env s → transmitList q0 = transmitList (respPort (base s.2)) →
  sendDeferredPacket now dr (PacketQueue.answers acc) q0 = Ok (q, d, b) → kinv_env (ksent acc (q, d, b) s).
Proof.
  destruct s as [e c]. unfold kinv_env, ksent. cbn [fst snd]. intros H E Hs.
  apply sendDeferred_list in Hs as [Hl Hr].
  destruct acc; cbn [accepted delivered on_way set_field];
    (eapply (kinv_rest 0 0 _ _ _ _ _ c); [done|exact H|done|apply H|apply H|]);
    rewrite (ki_perm _ _ _ _ _ _ H); do 2 apply Permutation_app_head; unfold waiting; cbn; rewrite <-E.
  - rewrite Hl. cbn. by rewrite <-Permutation_middle.
  - by rewrite Hr.
Qed.

Lemma kmem_sent_kinv now acc o b0 s :
  kinv_env s → mshrQueue b0 = mshrQueue (bufs s.2) →
  cache_sendDeferredPacket now (next_id s.2) acc b0 = Ok o → kinv_env (kmem_sent acc o s).
Proof.
  destruct s as [e c], o as [o b]. unfold kinv_env, kmem_sent. cbn [fst snd]. intros H E Hs.
  apply send_view in Hs as [Hm Hv]; [|rewrite E; apply H]. rewrite E in Hv.
  assert (Hsame : view (mshrQueue b) = view (mshrQueue (bufs c)) →
    kinv 0 0 (accepted e) (delivered e) (on_way e) (c <| bufs := b |> <| nextPkt ::= S |>)).
  { intros Ev. eapply (kinv_qs 0 0 _ _ _ _ _ _ c); [done|done|done| |apply H|apply H|apply H|].
    - unfold cview. cbn. rewrite Ev. apply H.
    - unfold cview at 1. cbn. rewrite Ev. apply H. }
  destruct o as [p|]; [|cbn; rewrite app_nil_r; auto].
  destruct Hv as (r & Hr & Hv). cbn. rewrite Hr. cbn. destruct (acc && (r.1 =? 0)); [|rewrite app_nil_r; auto].
  destruct Hv as (en & Hi & Hns & Ha & Ev). rewrite Ha.
  eapply (kinv_qs 0 0 _ _ _ _ _ _ c); [done|done|done| |apply H|apply H|apply H|].
  - unfold cview. cbn. rewrite Ev. apply pam_sent; [apply H|done..].
  - unfold cview at 1. cbn. rewrite Ev, held_upd. cbn. rewrite <-(held_split _ r.2 en) by done. apply H.
Qed.

Lemma kstep_kinv s x s' : kinv_env s → kstep s x = Ok s' → kinv_env s'.
Proof.
  destruct s as [e c], x as [now op]. intros H. unfold kstep. cbn [fst snd].
  destruct op as [draw run pkt| |run| |ev r|acc|acc|acc|acc|run pkt|].
  - destruct (_ && _) eqn:Hg; [|by intros [= <-]]. apply andb_true_iff in Hg as [Hq Hx].
    apply negb_true_iff, bool_decide_eq_false in Hx. intros H'. apply bind_ok in H' as ([b c'] & Hr & [= <-]).
    eapply cache_recvTimingReq_kinv in Hr; [|done..]. unfold kinv_env. by destruct b.
  - case_bool_decide; [|by intros [= <-]]. intros H'. apply bind_ok in H' as (c' & Hn & [= <-]).
    by eapply cache_processNextReqEvent_kinv in Hn.
  - case_bool_decide; [|by intros [= <-]]. intros H'. apply bind_ok in H' as (c' & Hn & [= <-]).
    by eapply cache_processRespondEvent_kinv in Hn.
  - case_bool_decide; [|by intros [= <-]]. intros H'. apply bind_ok in H' as (c' & Hn & [= <-]).
    by eapply processWriteRespondEvent_kinv in Hn.
  - intros H'. apply bind_ok in H' as (t & _ & [= <-]). by apply (kinv_books _ _ _ _ _ c).
  - case_bool_decide; [|by intros [= <-]]. intros H'. apply bind_ok in H' as ([[q d] b] & Hn & [= <-]).
    unfold processSendEvent in Hn. apply bind_ok in Hn as (_ & _ & Hn). by eapply (ksent_kinv _ _ _ _ _ _ _ (e, c)) in Hn.
  - case_match; [|by intros [= <-]]. intros H'. apply bind_ok in H' as ([[q d] b] & Hn & [= <-]).
    unfold retry in Hn. apply bind_ok in Hn as (_ & _ & Hn). by eapply (ksent_kinv _ _ _ _ _ _ _ (e, c)) in Hn.
  - case_bool_decide; [|by intros [= <-]]. intros H'. apply bind_ok in H' as (o & Hn & [= <-]).
    unfold cache_processSendEvent in Hn. apply bind_ok in Hn as (_ & _ & Hn).
    by eapply (kmem_sent_kinv _ _ _ _ (e, c)) in Hn.
  - case_match; [|by intros [= <-]]. intros H'. apply bind_ok in H' as (o & Hn & [= <-]).
    unfold cache_recvReqRetry in Hn. apply bind_ok in Hn as (_ & _ & Hn).
    by eapply (kmem_sent_kinv _ _ _ _ (e, c)) in Hn.
  - destruct (senderState pkt) as [r|] eqn:Es; [|by intros [= <-]].
    destruct (_ || _) eqn:Hg; [|by intros [= <-]]. intros H'. apply bind_ok in H' as (c' & Hn & [= <-]).
    eapply cache_recvTimingResp_kinv in Hn; [|done|done|].
    + unfold kinv_env. by destruct (r.1 =? 0).
    + intros E. rewrite E in Hg. by apply bool_decide_eq_true in Hg.
  - unfold cache_drain. intros H'. apply bind_ok in H' as ([b c'] & Hn & [= <-]).
    match type of Hn with (if ?w then _ else _) = _ => destruct w end; [by injection Hn as _ <-|].
    apply bind_ok in Hn as (c1 & H1 & [= _ <-]). apply (kinv_books _ _ _ _ _ c1); [done|].
    case_bool_decide; [by injection H1 as <-|]. by eapply kick_kinv.
Qed.

Lemma new_cache_kinv mshrs wbs s :
  0 ≤ mshrs + readBufferSize - 1 →
  kinv_env (mkEnv [] [] [], (new_cache mshrs wbs) <| base ::= λ b, b <| chan := s |> |>).
Proof.
  intros Hm. split; try done.
  - exact (lg_split [] [] _ (new_ledger s)).
  - split; [by apply new_queue_ok|by apply Forall_replicate|]. intros i ?%not_elem_of_nil. done.
  - apply pam_empty.
  - constructor.
Qed.

(** C1: the DRAM cache answers every request exactly once.  After every run of
    requests (reads and writes of whole blocks), controller events, rank events,
    sends, retries and memory responses, with hits, misses, bypasses and
    parallel accesses in any order, the accepted requests are distinct and each
    either has bursts outstanding, or waits in a miss register, or waits in the
    port, or is delivered, and nothing else is ever sent; all are delivered once
    the queues are empty. *)
Theorem cache_answers_once mshrs wbs s l e c :
  0 ≤ mshrs + readBufferSize - 1 →
  foldM kstep (mkEnv [] [] [], (new_cache mshrs wbs) <| base ::= λ b, b <| chan := s |> |>) l = Ok (e, c) →
  NoDup (accepted e) ∧
  accepted e ≡ₚ elements (ids (kkeys 0 0 c)) ++ held (cview c) ++ waiting (base c) ++ delivered e ∧
  (readQueue (base c) = [] → respQueue (base c) = [] → writeQueue (base c) = [] →
   dramPktWriteRespQueue c = [] → allocatedList (mshrQueue (bufs c)) = [] →
   transmitList (respPort (base c)) = [] → delivered e ≡ₚ accepted e).
Proof.
  intros Hm Hrun. apply (foldM_ind kinv_env) in Hrun as H; [|intros t x t' _; apply kstep_kinv|by apply new_cache_kinv].
  split_and!; [apply H|apply H|]. intros E1 E2 E3 E4 E5 E6. rewrite (ki_perm _ _ _ _ _ _ H). cbn.
  unfold kkeys, reads, cview, view, waiting. by rewrite E1, E2, E3, E4, E5, E6.
Qed.
End answers.

(** The memory's response to the read of register [i]. *)
Definition mem_resp (i : nat) (pkt : Packet) : Packet :=
  pkt <| cmd := ReadResp |> <| senderState := Some (0, i) |>.

(** A miss predicted as a hit; a miss with its parallel access; a read found in
    the fill queue next to a write that misses. *)
Definition ex_answers : list (Tick * kop) :=
  [(1000, KReq 99 false (read_pkt 1 256 0)); (1000, KNext); (3200, KNext); (6400, KNext);
   (31000, KRespond false); (34200, KRespond false); (34201, KMemSend true);
   (90000, KMemResp false (mem_resp 0 (read_pkt 500 256 0))); (90000, KNext); (100000, KSend true);
   (112000, KReq 10 false (read_pkt 2 384 0)); (112000, KNext); (112000, KNext); (112000, KNext);
   (112005, KMemSend true); (135300, KRespond false); (138500, KRespond false);
   (160000, KMemResp false (mem_resp 0 (read_pkt 501 384 0))); (160000, KNext); (160001, KSend true);
   (200000, KReq 10 false (read_pkt 3 256 0)); (200100, KReq 10 true (write_pkt 4 512 31 7));
   (200100, KNext); (200100, KNext); (200100, KNext); (200100, KNext); (210000, KSend true);
   (223400, KWriteRespond); (226600, KWriteRespond); (226601, KMemSend true); (236600, KSend true)].

Definition ex_cache : @CacheOf (@filter_t ex_filter) :=
  (@new_cache HMC_2500_x32_Cache ex_filter 8 8) <| base ::= λ b, b <| chan := ex_chan |> |>.
Abbreviation ex_answers_run :=
  (foldM (@kstep HMC_2500_x32_Cache HMC_cache ex_filter ex_clock ex_range) (mkEnv [] [] [], ex_cache) ex_answers).

Lemma cache_answers_once_witness :
  match ex_answers_run with
  | Ok (e, c) => accepted e = [4; 3; 2; 1] ∧ delivered e = [4; 3; 2; 1] ∧ NoDup (accepted e) ∧
      accepted e ≡ₚ elements (ids (kkeys 0 0 c)) ++ held (cview c) ++ waiting (base c) ++ delivered e
  | Fault _ => False
  end.
Proof.
  assert (E0 : (s ← ex_answers_run; Ok (accepted s.1, delivered s.1)) = Ok ([4; 3; 2; 1], [4; 3; 2; 1]))
    by (vm_compute; reflexivity).
  pose proof (λ e c, @cache_answers_once HMC_2500_x32_Cache HMC_cache ex_filter ex_clock ex_range
    8 8 ex_chan ex_answers e c ltac:(cbn; lia)) as H. fold ex_cache in H.
  destruct ex_answers_run as [[e c]|]; [|discriminate]. cbn in E0. injection E0 as E1 E2.
  destruct (H _ _ eq_refl) as (H1 & H2 & _). done.
Defined.
End CacheAnswers.
