(* ===== verification/CacheQueues.v ===== *)
(** * The queues of the DRAM cache and the request loop

    The sets of queued bursts agree with the queues in every run, the loop only
    turns to writes when there are some, and what follows from it: the write
    that the controller cannot take, and the write it never answers. *)

From S2P Require Import Prelude Intmath Packet AbstractMem DramTypes Config PacketQueue Mshr MshrQueue.
From S2P Require Import DramInit DramAddr DramSched DramTiming DramRefresh DramCtrl DramCtrlProofs.
From S2P Require Import CacheTags BypassTags Predictor CacheBuffers CacheBuffersProofs MissView.
From S2P Require Import CacheTagsSpec CacheCtrl PamView CacheLedger CacheAnswers.
Import Intmath MemCmd Packet AbstractMem PacketQueue Mshr MshrQueue DramAddr DramSched DramTiming
  DramRefresh DramCtrl DramCtrlProofs CacheTags CacheTagsSpec BypassTags Predictor CacheBuffers
  CacheBuffersProofs MissView CacheCtrl PamView CacheLedger CacheAnswers.

Module CacheQueues.

(** The members of the two sets that a burst stands for. *)
Definition fkey (d : DRAMPacket) : Addr * Addr := (requestAddr d, dp_addr d).
Definition wkey (d : DRAMPacket) : Addr * Addr := (addr (dp_pkt d), dp_addr d).

Section queues.
Context `{D : DRAMParams} `{P : CacheParams} `{B : BloomFilter} `{C : Clocked} `{R : MemRange}.

(** ** What leaves the queues of writes and fills alone *)

Definition fills (c : Cache) := (fillQueue c, isInFillQueue c).
Definition writes (c : Cache) := (writeQueue (base c), inWriteQ c, busState (base c)).
Definition loop (c : Cache) := (fills c, writes c).

Lemma respond_loop now pkt lat c c' : respond now pkt lat c = Ok c' → loop c' = loop c.
Proof. unfold respond, onBase, schedTimingResp. intros H. res_inv. done. Qed.

Lemma cache_access_loop pkt c p c' : cache_access pkt c = Ok (p, c') → loop c' = loop c.
Proof. unfold cache_access. intros H. res_inv. done. Qed.

Lemma access_respond_loop now lat pkt c c' : access_respond now lat pkt c = Ok c' → loop c' = loop c.
Proof.
  unfold access_respond. intros ([p c1] & E1%cache_access_loop & E2%respond_loop)%bind_ok. by rewrite E2.
Qed.

Lemma copy_respond_loop now lat src pkt c c' : copy_respond now lat src pkt c = Ok c' → loop c' = loop c.
Proof. unfold copy_respond. intros H. res_inv. by eapply respond_loop. Qed.

Lemma each_target_loop f ts c c' :
  (∀ p c c', f p c = Ok c' → loop c' = loop c) → each_target f ts c = Ok c' → loop c' = loop c.
Proof.
  intros Hf. unfold each_target. intros H. apply (foldM_ind (λ x, loop x = loop c)) in H; [done| |done].
  intros s t s' _ E Hs. by rewrite (Hf _ _ _ Hs).
Qed.

Lemma onBufs_loop f c c' : onBufs f c = Ok c' → loop c' = loop c.
Proof. unfold onBufs. intros H. res_inv. done. Qed.

Lemma kick_loop now c c' : onBase (kick now) c = Ok c' → loop c' = loop c.
Proof. unfold onBase, kick. intros (b & H & [= <-])%bind_ok. case_match; res_inv; done. Qed.

Lemma burst_done_loop h c b : burst_done h (base c) = Ok b → loop (c <| base := b.2 |>) = loop c.
Proof. unfold burst_done. intros H. repeat case_match; res_inv; done. Qed.

Lemma doWriteBack_loop now a ctx c c' : doWriteBack now a ctx c = Ok c' → loop c' = loop c.
Proof.
  unfold doWriteBack. cbn [new_block_packet]. intros H. apply bind_ok in H as (rd & _ & H).
  apply bind_ok in H as (wb & _ & H). apply bind_ok in H as ([p c1] & E1%cache_access_loop & H).
  apply bind_ok in H as (_ & _ & H). apply bind_ok in H as (wb' & _ & H).
  apply bind_ok in H as (c2 & E2%onBufs_loop & [= <-]). transitivity (loop c2); [done|]. by rewrite E2, E1.
Qed.

Lemma replace_line_loop now pkt c c' : replace_line now pkt c = Ok c' → loop c' = loop c.
Proof.
  unfold replace_line. destruct (getSetTagFromAddr (addr pkt)) as [s tg]. intros H.
  apply bind_ok in H as (c1 & H1 & [= <-]).
  assert (loop c1 = loop c) as <-.
  { destruct (_ && _); [|by injection H1 as <-]. rewrite (doWriteBack_loop _ _ _ _ _ H1).
    by destruct bloomFilterEnable. }
  by destruct (bypassTagEnable && _).
Qed.

Lemma startPam_loop now draw pkt c c' : startPam now draw pkt c = Ok c' → loop c' = loop c.
Proof.
  unfold startPam, cloned. destruct (predict_static _ _ _) as [hit t]. case_match; [by intros [= <-]|].
  intros H'. apply bind_ok in H' as (pc & Hp & H'). apply bind_ok in Hp as (p & _ & [= <-]).
  apply bind_ok in H' as (rb & _ & [= <-]). done.
Qed.

(** ** The queues and their sets *)

Record sets_ok (c : Cache) : Prop :=
  { so_fills : isInFillQueue c = list_to_set (fkey <$> fillQueue c);
    so_fills_once : NoDup (fkey <$> fillQueue c);
    so_fills_fit : len (fillQueue c) ≤ fillBufferSize;
    so_writes : inWriteQ c = list_to_set (wkey <$> writeQueue (base c));
    so_writes_once : NoDup (wkey <$> writeQueue (base c));
    so_writes_fit : len (writeQueue (base c)) ≤ writeBufferSize;
    so_mode : busState (base c) = READ_TO_WRITE ∨ busState (base c) = WRITE → 0 < pending_writes c }.

Lemma sets_loop c c' : loop c' = loop c → sets_ok c → sets_ok c'.
Proof.
  intros E [H1 H2 H3 H4 H5 H6 H7]. apply pair_eq in E as [E1 E2]. apply pair_eq in E1 as [F1 F2].
  apply pair_eq in E2 as [E2 F5]. apply pair_eq in E2 as [F3 F4].
  split; rewrite ?F1, ?F2, ?F3, ?F4, ?F5; try done. unfold pending_writes. by rewrite F1, F3.
Qed.

(** A set that counts as many elements as a list with one more than [l] has the
    new element. *)
Lemma push_new (k : Addr * Addr) (l : list (Addr * Addr)) :
  NoDup l → Z.of_nat (S (length l)) = Z.of_nat (base.size ({[k]} ∪ list_to_set l : gset (Addr * Addr))) →
  k ∉ l.
Proof.
  intros Hn Hs Hk. rewrite subseteq_union_1_L in Hs by set_solver.
  rewrite size_list_to_set in Hs by done. lia.
Qed.

Lemma NoDup_snoc {A} (l : list A) x : NoDup l → x ∉ l → NoDup (l ++ [x]).
Proof. intros H Hx. apply NoDup_app. split_and!; [done|set_solver|apply NoDup_singleton]. Qed.

Lemma len_snoc {A} (l : list A) x : len (l ++ [x]) = len l + 1.
Proof. unfold len. rewrite length_app. cbn. lia. Qed.
Lemma len_nonneg {A} (l : list A) : 0 ≤ len l.
Proof. unfold len. lia. Qed.

Lemma decode_burst now pkt a sz rd d :
  cache_decodeAddr now pkt a sz rd = Ok d → dp_pkt d = pkt ∧ dp_addr d = a.
Proof. unfold cache_decodeAddr, make_dram_pkt. intros H. repeat case_match; res_inv; done. Qed.

Lemma fill_burst_sets now pkt s x s' :
  fill_burst now pkt s x = Ok s' → sets_ok s.1 → sets_ok s'.1.
Proof.
  destruct s as [c a]. unfold fill_burst. case_bool_decide as Hin.
  { intros [= <-]. by apply sets_loop. }
  intros H [H1 H2 H3 H4 H5 H6 H7]. res_inv. apply decode_burst in E0 as [E0 E0'].
  apply Z.eqb_eq in E2. apply Z.ltb_lt in E1. rewrite H1 in Hin.
  cbn in *. split; cbn; rewrite ?fmap_app; cbn; try done.
  - rewrite H1, list_to_set_app_L. cbn. unfold fkey at 3. cbn. rewrite E0'. set_solver.
  - apply NoDup_snoc; [done|]. unfold fkey at 1. cbn. rewrite E0'. set_solver.
  - rewrite len_snoc. lia.
  - intros Hm. specialize (H7 Hm). unfold pending_writes in *. cbn. rewrite len_snoc. lia.
Qed.

Lemma fill_block_sets now run a ctx c c' : fill_block now run a ctx c = Ok c' → sets_ok c → sets_ok c'.
Proof.
  unfold fill_block, addToFillQueue. cbn [new_block_packet]. set (pkt := new_packet _ _ _ _ _). intros H Hc.
  apply bind_ok in H as (_ & _ & H). destruct (_ && _); [by apply (sets_loop c); [exact (kick_loop _ _ _ H)|]|].
  apply bind_ok in H as (c1 & H1%replace_line_loop & H).
  assert (sets_ok c1) as Hc1 by (by apply (sets_loop c)). case_match; [by injection H as <-|].
  apply bind_ok in H as (s & Hs & H%kick_loop). eapply sets_loop; [exact H|].
  apply (foldM_ind (λ t : Cache * Addr, sets_ok t.1)) in Hs; [done| |done].
  intros t x t' _ Ht Hx. by eapply fill_burst_sets.
Qed.

Lemma push_write_effect now pkt a h c c' :
  cache_push_write now pkt a h c = Ok c' →
  ∃ d, wkey d = (addr pkt, a) ∧ writeQueue (base c') = writeQueue (base c) ++ [d] ∧
    inWriteQ c' = {[wkey d]} ∪ inWriteQ c ∧ fills c' = fills c ∧ busState (base c') = busState (base c) ∧
    len (writeQueue (base c)) < writeBufferSize ∧
    len (writeQueue (base c)) + 1 = Z.of_nat (base.size ({[wkey d]} ∪ inWriteQ c)).
Proof.
  unfold cache_push_write. intros H. res_inv. apply decode_burst in E0 as [E0 E0'].
  apply Z.eqb_eq in E2. apply Z.ltb_lt in E1. unfold wkey.
  exists (a1 <| burstHelper := h |>). cbn. rewrite E0, E0'.
  destruct (isGPU pkt); cbn in E2; rewrite len_snoc in E2; done.
Qed.

Lemma push_write_sets now pkt a h c c' :
  cache_push_write now pkt a h c = Ok c' → sets_ok c → sets_ok c'.
Proof.
  intros (d & Hd & E1 & E2 & E3 & E4 & Hl & Hs)%push_write_effect [H1 H2 H3 H4 H5 H6 H7].
  apply pair_eq in E3 as [F1 F2].
  assert (wkey d ∉ wkey <$> writeQueue (base c)) as Hin.
  { apply push_new; [done|]. rewrite <-H4, <-Hs, length_fmap. unfold len. lia. }
  split; rewrite ?E1, ?E2, ?E4, ?F1, ?F2, ?fmap_app, ?len_snoc; cbn; try done; [|by apply NoDup_snoc|lia|].
  - rewrite H4, list_to_set_app_L. set_solver.
  - intros Hm. unfold pending_writes. rewrite E1, F1, len_snoc.
    pose proof (len_nonneg (writeQueue (base c))). pose proof (len_nonneg (fillQueue c)). lia.
Qed.

Lemma write_burst_sets now pkt n s x s' :
  cache_write_burst now pkt n s x = Ok s' → sets_ok s.1.1 → sets_ok s'.1.1.
Proof.
  destruct s as [[c a] h]. unfold cache_write_burst. intros H Hc. apply bind_ok in H as (l & _ & H).
  destruct (if _ && _ then _ else _) as [h' c1] eqn:E.
  apply bind_ok in H as (c2 & H%push_write_sets & [= <-]); [done|].
  apply (sets_loop c); [|done]. destruct (_ && _); [|by injection E as _ <-]. by injection E as _ <-.
Qed.

Lemma add_write_sets now pkt n c c' : cache_addToWriteQueue now pkt n c = Ok c' → sets_ok c → sets_ok c'.
Proof.
  unfold cache_addToWriteQueue, cloned. intros H Hc. apply bind_ok in H as (_ & _ & H).
  apply bind_ok in H as (s & Hs & H). apply bind_ok in H as (pc & Hp & H).
  apply bind_ok in Hp as (p & _ & [= <-]). apply bind_ok in H as ([q c2] & H2%cache_access_loop & H%kick_loop).
  apply (sets_loop s.1.1); [by rewrite H|].
  apply (foldM_ind (λ t : Cache * Addr * option nat, sets_ok t.1.1)) in Hs; [done| |done].
  intros t x t' _ Ht Hx. by eapply write_burst_sets.
Qed.

(** ** Requests *)

Lemma push_read_loop now pkt a h c b :
  cache_push_read now pkt a h (base c) = Ok b → loop (c <| base := b |>) = loop c.
Proof. unfold cache_push_read. intros H. res_inv. by destruct (isGPU pkt). Qed.

Lemma read_burst_loop now pkt n s x s' :
  cache_read_burst now pkt n s x = Ok s' → loop s'.1.1.1 = loop s.1.1.1.
Proof.
  destruct s as [[[c a] sv] h]. unfold cache_read_burst. intros H. apply bind_ok in H as (l & _ & H).
  destruct (bool_decide (_ ∈ inWriteQ _) && _); [by injection H as <-|].
  destruct (negb false && _ && _); [by injection H as <-|].
  destruct (if _ && _ then _ else _) as [h' c1] eqn:E. apply bind_ok in H as (c2 & H & [= <-]).
  unfold onBase in H. apply bind_ok in H as (b & Hb%push_read_loop & [= <-]). etrans; [exact Hb|].
  destruct (_ && _); by injection E as _ <-.
Qed.

Lemma add_read_loop now draw pkt n c c' :
  cache_addToReadQueue now draw pkt n c = Ok c' → loop c' = loop c.
Proof.
  unfold cache_addToReadQueue. intros H. do 2 apply bind_ok in H as (_ & _ & H).
  apply bind_ok in H as ([[[c1 a] sv] h] & Hs & H).
  apply (foldM_ind (λ t : Cache * Addr * Z * option nat, loop t.1.1.1 = loop c)) in Hs;
    [|by intros t x t' _ Ht ->%read_burst_loop|done].
  cbn in Hs. rewrite <-Hs. case_match; [by eapply access_respond_loop|].
  apply bind_ok in H as (c2 & H2 & ->%kick_loop).
  transitivity (loop (match h with Some i => c1 <| base ::= λ b,
    b <| helpers ::= alter (λ x, x <| burstsServiced := sv |>) i |> |> | None => c1 end)).
  - case_match; [by eapply startPam_loop|by injection H2 as <-].
  - by destruct h.
Qed.

Lemma bypass_hit_loop now pkt c c' : bypass_hit now pkt c = Ok c' → loop c' = loop c.
Proof.
  unfold bypass_hit. case_match; [by intros ?%onBufs_loop|]. cbn [new_block_packet]. intros H'.
  apply bind_ok in H' as ([p c1] & E1%cache_access_loop & H'). cbn [new_block_packet] in H'. apply bind_ok in H' as (q & _ & H').
  apply bind_ok in H' as (c2 & E2%onBufs_loop & E3%respond_loop). by rewrite E3, E2.
Qed.

Lemma running_bypass_loop now pkt c o c2 :
  running_bypass now pkt c = Ok (o, c2) → loop (default c2 o) = loop c.
Proof.
  unfold running_bypass, cstat_if. destruct (getSetTagFromAddr (addr pkt)) as [s tg]. intros H.
  repeat case_match; res_inv; done.
Qed.

Lemma queue_request_sets now draw run pkt c b c' :
  queue_request now draw run pkt c = Ok (b, c') → sets_ok c → sets_ok c'.
Proof.
  unfold queue_request. intros H Hc.
  assert (sets_ok (c <| switched_gpu_running := run |>)) as Hc0 by (by apply (sets_loop c)). clear Hc. revert H Hc0.
  generalize (c <| switched_gpu_running := run |>). clear c. intros c H Hc.
  destruct (isRead (cmd pkt)).
  - apply bind_ok in H as ([o c1] & H1 & H). assert (loop (default c1 o) = loop c) as E.
    { destruct (_ && _); [by eapply running_bypass_loop|by injection H1 as <- <-]. }
    apply (sets_loop c); [|done]. rewrite <-E. clear H1 E.
    destruct o as [c2|]; [by injection H as _ <-|]. apply bind_ok in H as (_ & _ & H).
    destruct (readQueueFull _ _); [by injection H as _ <-|].
    apply bind_ok in H as (c2 & E%add_read_loop & [= _ <-]). exact E.
  - destruct (isWrite (cmd pkt)); [|done]. apply bind_ok in H as (_ & _ & H).
    destruct (writeQueueFull _ _); [by injection H as _ <-; apply (sets_loop c)|].
    apply bind_ok in H as (c2 & H2%add_write_sets & [= _ <-]); [by apply (sets_loop c2)|done].
Qed.

Lemma recvTimingReq_sets now draw run pkt c b c' :
  sets_ok c → cache_recvTimingReq now draw run pkt c = Ok (b, c') → sets_ok c'.
Proof.
  intros Hc. unfold cache_recvTimingReq. destruct (negb dramCacheTimingMode).
  { intros H. apply bind_ok in H as (c1 & H%access_respond_loop & [= _ <-]). by apply (sets_loop c). }
  set (c1 := c <| base ::= _ |>). assert (sets_ok c1) as Hc1 by by apply (sets_loop c).
  clearbody c1. clear Hc c. destruct (_ || _); [intros [= _ <-]; by apply (sets_loop c1)|].
  destruct (negb _); [intros [= _ <-]; by apply (sets_loop c1)|].
  set (c2 := c1 <| base ::= arrival now |>). assert (sets_ok c2) as Hc2.
  { apply (sets_loop c1); [|done]. unfold c2, arrival. cbn. by destruct (_ =? 0). }
  clearbody c2. clear Hc1 c1. case_match.
  { case_match; [done|]. intros H'. apply bind_ok in H' as (c1 & E%onBufs_loop & [= _ <-]).
    by apply (sets_loop c2). }
  destruct (_ && isRead (cmd pkt)).
  { intros H'. apply bind_ok in H' as (c1 & E%access_respond_loop & [= _ <-]). apply (sets_loop c2); [|done].
    rewrite E. unfold cstat_if. by case_match. }
  destruct bypassTagEnable; [|intros H'; by eapply queue_request_sets].
  destruct (isHit (addr pkt) _) as [hit l]. set (c3 := bypass_stats _ _ _ _).
  assert (sets_ok c3) as Hc3.
  { apply (sets_loop c2); [|done]. unfold c3, bypass_stats, cstat_if. by repeat case_match. }
  clearbody c3. destruct hit; intros H'; [|by eapply queue_request_sets].
  apply bind_ok in H' as (c1 & E%bypass_hit_loop & [= _ <-]). by apply (sets_loop c3).
Qed.

(** ** Responses *)

Lemma write_lookup_loop now pkt c c' : write_lookup now pkt c = Ok c' → loop c' = loop c.
Proof.
  unfold write_lookup. intros H. apply bind_ok in H as ([hit t] & _ & H).
  destruct hit; [by injection H as <-|]. case_match.
  - destruct (getSetTagFromAddr (addr pkt)) as [s tg]. apply bind_ok in H as (c1 & H & [= <-]).
    transitivity (loop c1); [done|]. case_match; [by apply doWriteBack_loop in H|by injection H as <-].
  - cbn [new_block_packet] in H. apply bind_ok in H as (p & _ & H). apply bind_ok in H as (q & _ & H).
    by apply onBufs_loop in H.
Qed.

Lemma next_write_response_loop now c c' : next_write_response now c = Ok c' → loop c' = loop c.
Proof.
  unfold next_write_response. case_match; intros H'; [|by res_inv]. injection H' as <-. by case_match.
Qed.

Lemma processWriteRespondEvent_loop now c c' : processWriteRespondEvent now c = Ok c' → loop c' = loop c.
Proof.
  unfold processWriteRespondEvent. case_match; [done|]. intros H'. apply bind_ok in H' as (c1 & H1 & H').
  apply next_write_response_loop in H'. etrans; [exact H'|]. transitivity (loop c1); [done|].
  case_match; [|done]. apply bind_ok in H1 as (lb & E%burst_done_loop & H1).
  destruct lb.1; [|injection H1 as <-; exact E]. apply bind_ok in H1 as (c2 & E2%write_lookup_loop & H1).
  apply bind_ok in H1 as (_ & _ & H1). apply bind_ok in H1 as (p & _ & E3%respond_loop).
  rewrite E3, E2. exact E.
Qed.

Lemma pop_first_loop r c t c' : pop_first r c = Ok (t, c') → loop c' = loop c.
Proof. unfold pop_first. intros H. by res_inv. Qed.

Lemma take_all_loop r c ts c' : take_all r c = (ts, c') → loop c' = loop c.
Proof. unfold take_all. destruct (takeTargets r (bufs c)) as [l b]. by intros [= _ <-]. Qed.

Lemma pam_hit_loop now pr pkt c c' : pam_hit now pr pkt c = Ok c' → loop c' = loop c.
Proof.
  unfold pam_hit. intros H. apply bind_ok in H as (c1 & E1%access_respond_loop & H).
  apply bind_ok in H as ([t c2] & E2%pop_first_loop & H). cbn [snd] in H.
  destruct (take_all _ c2) as [ts c3] eqn:E3. apply take_all_loop in E3.
  apply each_target_loop in H; [congruence|]. intros p x x'. apply access_respond_loop.
Qed.

Lemma pam_miss_sets now run pr pkt c c' : pam_miss now run pr pkt c = Ok c' → sets_ok c → sets_ok c'.
Proof.
  unfold pam_miss. intros H Hc. apply bind_ok in H as ([t c1] & E1%pop_first_loop & H).
  apply bind_ok in H as (c2 & E2%copy_respond_loop & H). apply bind_ok in H as (_ & _ & H).
  destruct (take_all _ c2) as [ts c3] eqn:E3. apply take_all_loop in E3. apply bind_ok in H as (c4 & E4 & H).
  eapply fill_block_sets; [exact H|]. apply (sets_loop c); [|done].
  apply each_target_loop in E4; [rewrite E4, E3, E2; exact E1|]. intros p x x'. apply copy_respond_loop.
Qed.

Lemma pam_access_done_sets now run key pr pkt hit c c' :
  pam_access_done now run key pr pkt hit c = Ok c' → sets_ok c → sets_ok c'.
Proof.
  unfold pam_access_done, free_mshr. set (pr' := pr <| pr_isHit := _ |>).
  set (c0 := c <| pamQueue ::= _ |>). intros H Hc.
  assert (sets_ok c0) as Hc0 by by apply (sets_loop c). clearbody c0. clear Hc. case_match.
  - apply bind_ok in H as (c1 & H1 & E%onBufs_loop). apply (sets_loop c1); [exact E|].
    destruct hit; [by apply (sets_loop c0); [eapply pam_hit_loop|]|by eapply pam_miss_sets].
  - destruct hit; [|by apply onBufs_loop in H; apply (sets_loop c0)].
    apply bind_ok in H as (c1 & E1%pam_hit_loop & H). apply bind_ok in H as (c2 & E2%onBufs_loop & [= <-]).
    apply (sets_loop c0); [|done]. rewrite <-E1, <-E2. by case_match.
Qed.

Lemma read_done_sets now run d c c' : read_done now run d c = Ok c' → sets_ok c → sets_ok c'.
Proof.
  unfold read_done. intros H Hc. apply bind_ok in H as ([hit t] & _ & H). cbn beta iota in H.
  set (c0 := c <| tags := t |>) in H. assert (sets_ok c0) as Hc0 by by apply (sets_loop c).
  clearbody c0. clear Hc.
  assert (∀ c', (if hit : bool then access_respond now (frontendLatency + backendLatency) (dp_pkt d) c0
    else read_miss now d c0) = Ok c' → sets_ok c') as Hn.
  { intros x Hx. apply (sets_loop c0); [|done]. destruct hit; [by eapply access_respond_loop|].
    unfold read_miss in Hx. case_match; by eapply onBufs_loop. }
  destruct (pamQueue c0 !! _) as [pr|]; [|by apply Hn].
  destruct (_ =? _); [by eapply pam_access_done_sets|by apply Hn].
Qed.

Lemma processRespondHelper_loop now c c' : processRespondHelper now c = Ok c' → loop c' = loop c.
Proof.
  unfold processRespondHelper. intros H. apply bind_ok in H as (c1 & H1 & [= <-]).
  transitivity (loop c1); [unfold loop, fills, writes, retry_read; cbn; by destruct (retryRdReq (base c1))|].
  case_match; [|by res_inv]. injection H1 as <-. by case_match.
Qed.

Lemma processRespondEvent_sets now run c c' :
  cache_processRespondEvent now run c = Ok c' → sets_ok c → sets_ok c'.
Proof.
  unfold cache_processRespondEvent. case_match; [done|]. intros H' Hc.
  apply bind_ok in H' as (c1 & H1 & H'%processRespondHelper_loop). apply (sets_loop c1); [done|].
  case_match; [|done]. apply bind_ok in H1 as (lb & E%burst_done_loop & H1).
  assert (sets_ok (c <| base ::= λ b, b <| respondEvent := None |> |> <| base := lb.2 |>)) as Hc1.
  { apply (sets_loop c); [|done]. rewrite E. done. }
  destruct lb.1; [by eapply read_done_sets|]. injection H1 as <-. done.
Qed.

Lemma pam_response_sets now run r pr pkt c c' :
  pam_response now run r pr pkt c = Ok c' → sets_ok c → sets_ok c'.
Proof.
  unfold pam_response. set (c0 := c <| pamQueue ::= _ |>). intros H Hc.
  assert (sets_ok c0) as Hc0 by by apply (sets_loop c). clearbody c0. clear Hc.
  destruct (_ =? -1). { res_inv. by apply (sets_loop c0). }
  destruct (_ =? 1). { injection H as <-. by apply (sets_loop c0). }
  apply bind_ok in H as (_ & _ & H). apply bind_ok in H as (c1 & E1%onBufs_loop & H).
  apply bind_ok in H as ([t c2] & E2%pop_first_loop & H). cbn [snd] in H.
  destruct (take_all _ c2) as [ts c3] eqn:E3. apply take_all_loop in E3.
  apply bind_ok in H as (c4 & E4 & H). apply each_target_loop in E4; [|intros p x x'; apply copy_respond_loop].
  apply bind_ok in H as (c5 & E5%onBufs_loop & H). apply bind_ok in H as (_ & _ & H).
  apply bind_ok in H as (c6 & H6 & [= <-]). apply (sets_loop c6); [done|].
  eapply fill_block_sets; [exact H6|]. apply (sets_loop c0); [congruence|done].
Qed.

Lemma miss_response_sets now run r pkt c c' :
  miss_response now run r pkt c = Ok c' → sets_ok c → sets_ok c'.
Proof.
  unfold miss_response. intros H Hc. apply bind_ok in H as (_ & _ & H). apply bind_ok in H as (t & _ & H).
  destruct (getSetTagFromAddr (addr pkt)) as [s tg]. apply bind_ok in H as (c1 & H1 & H).
  assert (sets_ok c1) as Hc1.
  { destruct (_ || _); [|by injection H1 as <-]. apply bind_ok in H1 as (_ & _ & H1). by eapply fill_block_sets. }
  destruct (take_all _ _) as [ts c3] eqn:E3. apply take_all_loop in E3. apply (sets_loop c1); [|done].
  apply each_target_loop in H; [rewrite H; exact E3|]. intros p x x' Hx.
  apply bind_ok in Hx as (_ & _ & Hx). by eapply access_respond_loop.
Qed.

Lemma recvTimingResp_sets now run pkt c c' :
  cache_recvTimingResp now run pkt c = Ok c' → sets_ok c → sets_ok c'.
Proof.
  unfold cache_recvTimingResp. intros H Hc. apply bind_ok in H as (_ & _ & H).
  destruct (senderState pkt) as [r|]; [|done].
  assert (∀ c', (let wasFull := isFull (queue_of (bufs c) r.1) in
    c ← onBufs (clearNoTarget now r) c;
    c ← (if (r.1 =? 0) && isRead (cmd pkt) then miss_response now run r pkt c
         else if (r.1 =? 1) && isWrite (cmd pkt) then
           let m := the_mshr (bufs c) r in
           assert (getNumTargets m =? 1) "mshr->getNumTargets()==1";;
           _ ← getTarget m;
           Ok (c <| bufs ::= upd_mshr r (popTarget m) |>)
         else Fault (Fatal "DRAMCache doesn't understand this response"));
    onBufs (deallocateMSHR now r wasFull) c) = Ok c' → sets_ok c') as Hn.
  { intros x Hx. cbv zeta in Hx. apply bind_ok in Hx as (c1 & E1%onBufs_loop & Hx).
    apply bind_ok in Hx as (c2 & H2 & E3%onBufs_loop). apply (sets_loop c2); [done|].
    assert (sets_ok c1) as Hc1 by by apply (sets_loop c).
    destruct (_ && isRead (cmd pkt)); [by eapply miss_response_sets|].
    destruct (_ && _); [|done]. res_inv. by apply (sets_loop c1). }
  destruct (pamQueue c !! addr pkt) as [pr|]; [|by apply Hn].
  destruct (r.1 =? 0); [by eapply pam_response_sets|by apply Hn].
Qed.

(** ** The request loop *)

Lemma doDRAMAccess_keys now rq wq fq d s d' s' :
  cache_doDRAMAccess now rq wq fq d s = Ok (d', s') → fkey d' = fkey d ∧ wkey d' = wkey d.
Proof.
  unfold cache_doDRAMAccess, dram_access. intros H. apply bind_ok in H as ([[[d1 s1] rh] t] & H1 & [= <- _]).
  apply bind_ok in H1 as ([s2 t2] & _ & H1). apply bind_ok in H1 as (s3 & _ & [= <- _ _ _]). done.
Qed.

(** The controller with the bus turned to reads, where the mode says nothing. *)
Definition reading (c : Cache) : Cache := c <| base ::= λ b, b <| busState := READ |> |>.

Lemma sets_reading c : sets_ok c → sets_ok (reading c).
Proof. intros [H1 H2 H3 H4 H5 H6 _]. split; try done. by intros [?|?]. Qed.

Lemma sets_mode c :
  sets_ok (reading c) →
  (busState (base c) = READ_TO_WRITE ∨ busState (base c) = WRITE → 0 < pending_writes c) → sets_ok c.
Proof. by intros [H1 H2 H3 H4 H5 H6 _] Hm. Qed.

Lemma sets_moved c c' :
  sets_ok c → fillQueue c' ≡ₚ fillQueue c → isInFillQueue c' = isInFillQueue c →
  writeQueue (base c') ≡ₚ writeQueue (base c) → inWriteQ c' = inWriteQ c →
  busState (base c') = busState (base c) → sets_ok c'.
Proof.
  intros [H1 H2 H3 H4 H5 H6 H7] E1 E2 E3 E4 E5.
  split; rewrite ?E2, ?E4, ?E5; unfold pending_writes, len in *;
    rewrite ?(Permutation_length E1), ?(Permutation_length E3); try done.
  - rewrite H1. by rewrite E1.
  - by rewrite E1.
  - rewrite H4. by rewrite E3.
  - by rewrite E3.
Qed.

Lemma next_read_sets now sw c b c' :
  0 ≤ writeHighThreshold → busState (base c) = READ → sets_ok c →
  cache_next_read now sw c = Ok (b, c') → sets_ok c'.
Proof.
  intros Hth Hr Hc. unfold cache_next_read. destruct (readQueue (base c)) as [|d0 q0].
  - destruct (negb _ && _) eqn:Hw; intros [= _ <-].
    + apply sets_mode; [by apply (sets_loop (reading c)); [|apply sets_reading]|]. intros _.
      apply andb_true_iff in Hw as [Hw _]. unfold pending_writes, len. cbn.
      destruct (writeQueue (base c)), (fillQueue c); cbn in *; try done; lia.
    + apply (sets_loop c); [by case_match|done].
  - intros H. apply bind_ok in H as ([found q] & _ & H).
    destruct found; cbn [negb] in H; [|injection H as _ <-; by apply (sets_loop c)].
    destruct q as [|d rest]; [done|]. apply bind_ok in H as (_ & _ & H).
    apply bind_ok in H as ([d1 s1] & _ & H). do 2 apply bind_ok in H as (_ & _ & H).
    apply bind_ok in H as (b2 & Hb & [= _ <-]).
    assert (loop (c <| base := b2 |>) = loop c) as E.
    { unfold push_response in Hb. apply bind_ok in Hb as (b3 & Hb3 & [= <-]).
      cbn in Hb3. destruct (last (respQueue (base c))); res_inv; done. }
    destruct (_ <? _) eqn:Ht; [|by apply (sets_loop c)]. apply Z.ltb_lt in Ht.
    apply sets_mode; [apply (sets_loop (reading c)); [|by apply sets_reading]|].
    + injection E as E1 E2. unfold loop, fills, writes. cbn. by rewrite E1.
    + intros _. injection E as E1 E2. unfold pending_writes in *. cbn. rewrite E1. lia.
Qed.

(** An element leaves a queue and its set. *)
Lemma pop_set (k : Addr * Addr) (l : list (Addr * Addr)) :
  NoDup (k :: l) → list_to_set (k :: l) ∖ {[k]} =@{gset _} list_to_set l.
Proof. intros [Hk _]%NoDup_cons. set_solver. Qed.

Lemma service_write_sets now sw c b c' :
  sets_ok c → service_write now sw c = Ok (b, c') →
  sets_ok (reading c') ∧ (b = false → sets_ok c').
Proof.
  intros Hc H. unfold service_write in H. apply bind_ok in H as ([found q] & Hq%choose_perm & H).
  set (c0 := c <| base ::= λ b, b <| writeQueue := q |> |>) in H.
  assert (sets_ok c0) as Hc0 by by apply (sets_moved c).
  destruct found; cbn [negb] in H; [|injection H as <- <-; split; [by apply sets_reading|done]].
  destruct q as [|d rest]; [done|]. do 2 apply bind_ok in H as (_ & _ & H).
  apply bind_ok in H as ([d1 s1] & [_ Hk]%doDRAMAccess_keys & H).
  apply bind_ok in H as (c2 & H2 & [= <- <-]). split; [|done].
  apply sets_reading in Hc0 as [H1 H3 H4 H5 H6 H7 _]. cbn in *.
  assert (loop c2 = (fills c, (rest, inWriteQ c ∖ {[wkey d1]}, busState (base c)))) as E.
  { unfold push_write_response in H2. apply bind_ok in H2 as (c3 & H3' & [= <-]).
    destruct (last _); res_inv; done. }
  injection E as F1 F2 F3 F4 F5. apply NoDup_cons in H6 as [Hk1 Hk2].
  split; cbn; rewrite ?F1, ?F2, ?F3, ?F4; try done.
  - rewrite H5, Hk. apply (pop_set (wkey d)). by apply NoDup_cons.
  - unfold len in *. cbn in H7. lia.
  - by intros [?|?].
Qed.

Lemma service_fill_sets now sw c b c' :
  sets_ok c → service_fill now sw c = Ok (b, c') →
  sets_ok (reading c') ∧ (b = false → sets_ok c').
Proof.
  intros Hc H. unfold service_fill in H. apply bind_ok in H as ([found q] & Hq%choose_perm & H).
  set (c0 := c <| fillQueue := q |>) in H. assert (sets_ok c0) as Hc0 by by apply (sets_moved c).
  destruct found; cbn [negb] in H; [|injection H as <- <-; split; [by apply sets_reading|done]].
  destruct q as [|d rest]; [done|]. do 2 apply bind_ok in H as (_ & _ & H).
  apply bind_ok in H as ([d1 s1] & [Hk _]%doDRAMAccess_keys & H).
  apply bind_ok in H as (_ & _ & [= <- <-]). split; [|done].
  apply sets_reading in Hc0 as [H1 H3 H4 H5 H6 H7 _]. cbn in *. apply NoDup_cons in H3 as [Hk1 Hk2].
  split; cbn; try done.
  - rewrite H1. fold (fkey d1). rewrite Hk. apply (pop_set (fkey d)). by apply NoDup_cons.
  - unfold len in *. cbn in H4. lia.
  - by intros [?|?].
Qed.

Lemma next_write_sets now sw c b c' :
  sets_ok c → cache_next_write now sw c = Ok (b, c') → sets_ok c'.
Proof.
  intros Hc H. unfold cache_next_write in H. apply bind_ok in H as ([go c1] & H1 & H).
  assert (sets_ok (reading c1) ∧ (go = false → sets_ok c1)) as [Hr Hf].
  { destruct (do_writes c); [by eapply service_write_sets|]. destruct (do_fills c); [|done].
    by eapply service_fill_sets. }
  destruct go; cbn [negb] in H; [|injection H as _ <-; by apply Hf].
  injection H as _ <-. match goal with |- sets_ok (if ?w then _ else _) => destruct w eqn:Hw end.
  - apply sets_mode; [by apply (sets_loop (reading c1))|]. by intros [?|?].
  - apply sets_mode; [done|]. intros _. do 2 apply orb_false_iff in Hw as [Hw _].
    unfold pending_writes, len. destruct (writeQueue (base c1)), (fillQueue c1); cbn in *; try done; lia.
Qed.

Lemma turn_around_sets c b c' : sets_ok c → cache_turn_around c = (b, c') → sets_ok c'.
Proof.
  intros Hc. unfold cache_turn_around. pose proof (so_mode c Hc) as Hm.
  destruct (busState (base c)) eqn:E; intros [= _ <-]; try done.
  - apply sets_mode; [by apply (sets_loop (reading c)); [|apply sets_reading]|]. intros _. apply Hm. auto.
  - by apply (sets_loop (reading c)); [|apply sets_reading].
Qed.

Lemma finish_loop now c c' : onBase (finish_req now) c = Ok c' → loop c' = loop c.
Proof.
  unfold onBase, finish_req. intros (b & H & [= <-])%bind_ok. apply bind_ok in H as (b1 & H1 & [= <-]).
  assert (loop (c <| base := b1 |>) = loop c) as <- by (destruct (scheduled _); res_inv; done).
  unfold loop, fills, writes. cbn. by destruct (_ && _).
Qed.

Lemma processNextReqEvent_sets now c c' :
  0 ≤ writeHighThreshold → sets_ok c → cache_processNextReqEvent now c = Ok c' → sets_ok c'.
Proof.
  intros Hth Hc. unfold cache_processNextReqEvent. intros H. apply bind_ok in H as ([busy s] & _ & H).
  match type of H with context [cache_turn_around ?x] => set (c1 := x) in H end.
  assert (sets_ok c1) as Hc1 by by apply (sets_loop c). clearbody c1. clear Hc c.
  destruct (busy =? ranksPerChannel); [by injection H as <-|].
  destruct (cache_turn_around c1) as [sw c2] eqn:Et. apply turn_around_sets in Et as Hc2; [|done].
  apply bind_ok in H as ([go c3] & H3 & H). assert (sets_ok c3) as Hc3.
  { case_bool_decide; [by eapply next_read_sets|by eapply next_write_sets]. }
  cbn [fst snd] in H. destruct go; [|by injection H as <-]. by apply (sets_loop c3); [eapply finish_loop|].
Qed.

Lemma kstep_sets e c x e' c' :
  0 ≤ writeHighThreshold → sets_ok c → kstep (e, c) x = Ok (e', c') → sets_ok c'.
Proof.
  intros Hth Hc. unfold kstep. destruct x as [now op]; cbn [fst snd].
  destruct op; repeat (case_match; [|by intros [= _ <-]]); intros H'.
  - apply bind_ok in H' as ([b c1] & H1 & [= _ <-]). by eapply recvTimingReq_sets.
  - apply bind_ok in H' as (c1 & H1 & [= _ <-]). by eapply processNextReqEvent_sets.
  - apply bind_ok in H' as (c1 & H1 & [= _ <-]). by eapply processRespondEvent_sets.
  - apply bind_ok in H' as (c1 & H1%processWriteRespondEvent_loop & [= _ <-]). by apply (sets_loop c).
  - apply bind_ok in H' as (t & _ & [= _ <-]). by apply (sets_loop c).
  - apply bind_ok in H' as ([[q d] b] & _ & [= _ <-]). by apply (sets_loop c).
  - apply bind_ok in H' as ([[q d] b] & _ & [= _ <-]). by apply (sets_loop c).
  - apply bind_ok in H' as (o & _ & [= _ <-]). by apply (sets_loop c).
  - apply bind_ok in H' as (o & _ & [= _ <-]). by apply (sets_loop c).
  - apply bind_ok in H' as (c1 & H1 & [= _ <-]). by eapply recvTimingResp_sets.
  - unfold cache_drain in H'. apply bind_ok in H' as ([b c1] & H1 & [= _ <-]).
    match type of H1 with (if ?w then _ else _) = _ => destruct w end; [by injection H1 as _ <-|].
    apply bind_ok in H1 as (c2 & H2 & [= _ <-]). apply (sets_loop c2); [done|].
    case_bool_decide; [by injection H2 as <-|]. by apply (sets_loop c); [eapply kick_loop|].
Qed.

Lemma new_cache_sets mshrs wbs s :
  0 ≤ fillBufferSize → 0 ≤ writeBufferSize →
  sets_ok ((new_cache mshrs wbs) <| base ::= λ b, b <| chan := s |> |>).
Proof. split; cbn; try done; try constructor. by intros [?|?]. Qed.

Lemma run_sets e c l e' c' :
  0 ≤ writeHighThreshold → sets_ok c → foldM kstep (e, c) l = Ok (e', c') → sets_ok c'.
Proof.
  intros Hth Hc H. apply (foldM_ind (λ s, sets_ok s.2)) in H; [done| |done].
  intros [e1 c1] x [e2 c2] _ Hs. by apply kstep_sets.
Qed.

Lemma elem_of_keys (f : DRAMPacket → Addr * Addr) k (l : list DRAMPacket) :
  k ∈@{gset _} list_to_set (f <$> l) ↔ ∃ d, d ∈ l ∧ f d = k.
Proof. rewrite elem_of_list_to_set, list_elem_of_fmap. naive_solver. Qed.

(** C21: the sets [isInWriteQueue] and [isInFillQueue] are the queues they stand
    for.  After every run of the DRAM cache, a pair of addresses is in a set
    exactly if a burst with these addresses is queued; the set counts as many
    elements as the queue has bursts, so that the assertions comparing them
    hold; neither queue outgrows its buffer; and the loop is turned to writes
    only while there are writes or fills. *)
Theorem cache_sets_agree mshrs wbs s l e c :
  0 ≤ writeHighThreshold → 0 ≤ fillBufferSize → 0 ≤ writeBufferSize →
  foldM kstep (mkEnv [] [] [], (new_cache mshrs wbs) <| base ::= λ b, b <| chan := s |> |>) l = Ok (e, c) →
  (∀ a b, (a, b) ∈ isInFillQueue c ↔ ∃ d, d ∈ fillQueue c ∧ requestAddr d = a ∧ dp_addr d = b) ∧
  (∀ a b, (a, b) ∈ inWriteQ c ↔ ∃ d, d ∈ writeQueue (base c) ∧ addr (dp_pkt d) = a ∧ dp_addr d = b) ∧
  len (fillQueue c) = Z.of_nat (base.size (isInFillQueue c)) ∧ len (fillQueue c) ≤ fillBufferSize ∧
  len (writeQueue (base c)) = Z.of_nat (base.size (inWriteQ c)) ∧
  len (writeQueue (base c)) ≤ writeBufferSize ∧
  (busState (base c) = READ_TO_WRITE ∨ busState (base c) = WRITE → 0 < pending_writes c).
Proof.
  intros Hth Hf Hw H. apply run_sets in H as [H1 H2 H3 H4 H5 H6 H7]; [|done|by apply new_cache_sets].
  split_and!; try done.
  - intros a b. rewrite H1, elem_of_keys. unfold fkey. naive_solver.
  - intros a b. rewrite H4, elem_of_keys. unfold wkey. naive_solver.
  - by rewrite H1, size_list_to_set, length_fmap.
  - by rewrite H4, size_list_to_set, length_fmap.
Qed.

(** ** A second write to a queued block *)

Abbreviation wkeys c := (wkey <$> writeQueue (base c)).

Lemma write_burst_fresh now pkt n c a h x c' a' h' :
  sets_ok c → cache_write_burst now pkt n (c, a, h) x = Ok (c', a', h') →
  a' = a + 1 ∧ ((addr pkt, a) ∉ wkeys c) ∧ len (writeQueue (base c')) = len (writeQueue (base c)) + 1 ∧
  wkeys c ⊆ wkeys c'.
Proof.
  intros Hc. unfold cache_write_burst. intros H. apply bind_ok in H as (l & _ & H).
  destruct (if _ && _ then _ else _) as [h1 c1] eqn:E. assert (loop c1 = loop c) as El.
  { destruct (_ && _); [|by injection E as _ <-]. by injection E as _ <-. }
  pose proof (sets_loop c c1 El Hc) as Hc1. apply (f_equal (λ x, x.2.1.1)) in El. cbn in El. rewrite <-El.
  apply bind_ok in H as (c2 & H & [= <- <- _]).
  apply push_write_effect in H as (d & Hd & E1 & E2 & _ & _ & _ & Hs).
  rewrite E1, fmap_app, len_snoc. split_and!; [done| |done|set_solver]. rewrite <-Hd.
  apply push_new; [apply Hc1|]. rewrite <-(so_writes c1 Hc1), <-Hs, length_fmap. unfold len. lia.
Qed.

Definition sizes_differ : fault := AssertFail "writeQueue.size() == isInWriteQueue.size()".

Section duplicate.
Context (now : Tick) (pkt : Packet).
Hypothesis Hctx : hasContextId pkt = true.

Lemma push_write_fate a h c :
  sets_ok c → is_ok (cache_decodeAddr now pkt a burstSize false) → len (writeQueue (base c)) < writeBufferSize →
  if bool_decide ((addr pkt, a) ∈ wkeys c) then cache_push_write now pkt a h c = Fault sizes_differ
  else ∃ c', cache_push_write now pkt a h c = Ok c'.
Proof.
  intros Hc Hd Hl. unfold cache_push_write. rewrite assert_bind by done.
  destruct Hd as [d Ed]. rewrite Ed. apply decode_burst in Ed as [Ep Ea].
  cbn [mbind res_bind]. rewrite assert_bind by by apply Z.ltb_lt.
  set (c1 := c <| base ::= _ |> <| inWriteQ ::= _ |>).
  assert (writeQueue (base c1) = writeQueue (base c) ++ [d <| burstHelper := h |>]) as Ew
    by (unfold c1; cbn; by destruct (isGPU pkt)).
  assert (inWriteQ c1 = {[(addr pkt, a)]} ∪ inWriteQ c) as Ei by done. clearbody c1. rewrite Ew, Ei, len_snoc.
  rewrite (so_writes c Hc). pose proof (so_writes_once c Hc) as Hn. case_bool_decide as Hin.
  - rewrite subseteq_union_1_L by set_solver. rewrite size_list_to_set, length_fmap by done.
    unfold len. rewrite (proj2 (Z.eqb_neq _ _)) by lia. done.
  - rewrite size_union, size_singleton, size_list_to_set, length_fmap by (done || set_solver).
    unfold len. rewrite (proj2 (Z.eqb_eq _ _)) by lia. cbn. eauto.
Qed.

Lemma write_loop_fails n l : is_ok (ceilLog2 burstSize) → ∀ c a h k,
  sets_ok c → (∀ j, a ≤ j < a + len l → is_ok (cache_decodeAddr now pkt j burstSize false)) →
  len (writeQueue (base c)) + len l ≤ writeBufferSize → a ≤ k < a + len l → (addr pkt, k) ∈ wkeys c →
  foldM (cache_write_burst now pkt n) (c, a, h) l = Fault sizes_differ.
Proof.
  intros Hlg. induction l as [|x l IH]; intros c a h k Hc Hd Hl Hk Hin; unfold len in *; cbn [length] in *; [lia|].
  cbn [foldM]. destruct (cache_write_burst now pkt n (c, a, h) x) as [[[c' a'] h']|f] eqn:E.
  - pose proof (write_burst_sets _ _ _ _ _ _ E Hc) as Hc'. apply write_burst_fresh in E as (-> & Hf & Hlen & Hsub); [|done].
    cbn [mbind res_bind]. unfold len in Hlen. apply (IH c' (a + 1) h' k); [done|intros; apply Hd; lia|lia| |by apply Hsub].
    destruct (decide (k = a)) as [->|]; [done|lia].
  - cbn. unfold cache_write_burst in E. destruct Hlg as [lg Hlg]. rewrite Hlg in E. cbn [mbind res_bind] in E.
    destruct (if _ && _ then _ else _) as [h1 c1] eqn:E1. assert (loop c1 = loop c) as El.
    { destruct (_ && _); [|by injection E1 as _ <-]. by injection E1 as _ <-. }
    pose proof (sets_loop c c1 El Hc) as Hc1. apply (f_equal (λ x, x.2.1.1)) in El. cbn in El.
    pose proof (push_write_fate a h1 c1 Hc1) as Hp. rewrite El in Hp. specialize (Hp ltac:(apply Hd; lia) ltac:(unfold len; lia)).
    case_bool_decide; [rewrite Hp in E; by injection E as <-|]. destruct Hp as [c2 Hp]. by rewrite Hp in E.
Qed.
End duplicate.

(** C25: with the bypass tags off, a write to a block that has a burst in the write
    queue is refused (the controller is blocked or the queue is full), is fatal
    (a miss of the block is outstanding), or fails the assertion that the write queue
    and the set beside it are of one size: the bursts of writes are not merged, and
    the set cannot hold a burst twice.  [d] is the queued burst, one of the two of the
    block; the request has a context and its bursts are within the device, so that no
    other assertion fails first. *)
Theorem duplicate_write_aborts mshrs wbs s l e c now draw run pkt d :
  0 ≤ writeHighThreshold → 0 ≤ fillBufferSize → 0 ≤ writeBufferSize →
  foldM kstep (mkEnv [] [] [], (new_cache mshrs wbs) <| base ::= λ b, b <| chan := s |> |>) l = Ok (e, c) →
  dramCacheTimingMode = true → bypassTagEnable = false → cmd pkt = WriteReq → memInhibit pkt = false →
  hasContextId pkt = true → size pkt ≠ 0 → is_ok (ceilLog2 burstSize) →
  let a := set_burst_addr dramCache_block_size dramCache_num_sets DRAM_PKT_COUNT (addr pkt) in
  (∀ j, a ≤ j < a + DRAM_PKT_COUNT → is_ok (cache_decodeAddr now pkt j burstSize false)) →
  d ∈ writeQueue (base c) → addr (dp_pkt d) = addr pkt → a ≤ dp_addr d < a + DRAM_PKT_COUNT →
  let r := cache_recvTimingReq now draw run pkt c in
  (blocked (bufs c) ≠ 0 ∨ writeQueueFull DRAM_PKT_COUNT (base c) = true) ∧ (∃ c', r = Ok (false, c')) ∨
  r = Fault (Fatal "DRAMCache got a write request coalescing with read") ∨
  r = Fault (AssertFail "writeQueue.size() == isInWriteQueue.size()").
Proof.
  intros Hth Hf Hw H Ht Hb Hcmd Hi Hctx Hsz Hlg a Hdec Hd Ha Hk r.
  apply run_sets in H as Hc; [|done|by apply new_cache_sets].
  unfold r, cache_recvTimingReq. rewrite Ht, Hi, Hb, Hcmd. cbn [negb orb]. set (c1 := c <| base ::= _ |>).
  cbn beta. change (blocked (bufs c1)) with (blocked (bufs c)). rewrite (bool_decide_eq_false_2 (WriteReq = CleanEvict)) by done.
  destruct (Z.eqb_spec (blocked (bufs c)) 0) as [_|Hbl]; [|left; split; [by left|by eexists]]. cbn [negb].
  set (c2 := c1 <| base ::= arrival now |>).
  assert (loop c2 = loop c) as El.
  { transitivity (loop c1); [|done]. unfold c2, arrival. cbn. by destruct (_ =? 0). }
  assert (writeQueue (base c2) = writeQueue (base c)) as Eq by exact (f_equal (λ x, x.2.1.1) El).
  clearbody c2. destruct (findMatch _ false (mshrQueue _)); [by right; left|].
  unfold queue_request. rewrite Hcmd. change (isRead WriteReq) with false. change (isWrite WriteReq) with true.
  rewrite andb_false_r, assert_bind by (by apply negb_true_iff, Z.eqb_neq).
  set (c3 := c2 <| switched_gpu_running := run |>).
  change (writeQueueFull DRAM_PKT_COUNT (base c3)) with (writeQueueFull DRAM_PKT_COUNT (base c2)).
  unfold writeQueueFull. rewrite Eq. destruct (Z.ltb_spec writeBufferSize (len (writeQueue (base c)) + DRAM_PKT_COUNT)) as [Hfull|Hroom].
  { left. split; [by right|by eexists]. }
  right. right. unfold cache_addToWriteQueue. rewrite Hcmd, assert_bind by done. fold a.
  assert (len (seqZ 0 DRAM_PKT_COUNT) = DRAM_PKT_COUNT) as Hl by done.
  rewrite (write_loop_fails now pkt Hctx _ _ Hlg c3 a None (dp_addr d)); [done|by apply (sets_loop c)|by rewrite Hl| |by rewrite Hl|].
  - rewrite Hl. change (writeQueue (base c3)) with (writeQueue (base c2)). rewrite Eq. lia.
  - apply list_elem_of_fmap. exists d. unfold wkey. rewrite Ha. split; [done|].
    change (writeQueue (base c3)) with (writeQueue (base c2)). by rewrite Eq.
Qed.

(** ** Writes that wait for company *)

(** Nothing is under way, and what is queued does not pass the low threshold. *)
Record stalled (c : Cache) : Prop :=
  { st_mode : busState (base c) = READ ∨ busState (base c) = WRITE_TO_READ;
    st_reads : readQueue (base c) = [];
    st_resp : respondEvent (base c) = None;
    st_wresp : respondWriteEvent c = None;
    st_drain : draining (base c) = false;
    st_few : pending_writes c ≤ writeLowThreshold }.

(** Everything but new requests, memory responses and drains. *)
Definition quiet (op : kop) : bool :=
  match op with KReq _ _ _ | KMemResp _ _ | KDrain => false | _ => true end.

(** What stalls is the state of the queues and the response events. *)
Definition idle (c : Cache) :=
  (writes c, fillQueue c, readQueue (base c), respondEvent (base c), respondWriteEvent c, draining (base c)).

Lemma stalled_idle c c' : idle c' = idle c → stalled c → stalled c' ∧ writeQueue (base c') = writeQueue (base c).
Proof.
  unfold idle, writes. intros [= F1 F2 F3 F4 F5 F6 F7 F8] [H1 H2 H3 H4 H5 H6]. split; [|done].
  split; rewrite ?F3, ?F5, ?F6, ?F7, ?F8; try done. unfold pending_writes. by rewrite F1, F4.
Qed.

Lemma next_req_stalled now c c' :
  stalled c → cache_processNextReqEvent now c = Ok c' →
  stalled c' ∧ writeQueue (base c') = writeQueue (base c).
Proof.
  intros Hs. unfold cache_processNextReqEvent. intros H. apply bind_ok in H as ([busy s] & _ & H).
  match type of H with context [cache_turn_around ?x] => set (c1 := x) in H end.
  destruct (stalled_idle c c1) as [Hs1 <-]; [done..|]. clearbody c1. clear Hs c.
  destruct (busy =? ranksPerChannel); [by injection H as <-|].
  destruct (cache_turn_around c1) as [sw c2] eqn:Et.
  assert (stalled c2 ∧ busState (base c2) = READ ∧ writeQueue (base c2) = writeQueue (base c1)) as (Hs2 & Hb & <-).
  { unfold cache_turn_around in Et. destruct Hs1 as [H1 H2 H3 H4 H5 H6].
    destruct H1 as [H1|H1]; rewrite H1 in Et; injection Et as _ <-; split_and!; try done; split; auto. }
  apply bind_ok in H as ([go c3] & H3 & H). rewrite bool_decide_eq_true_2 in H3 by done.
  unfold cache_next_read in H3. rewrite (st_reads c2 Hs2), (st_drain c2 Hs2) in H3.
  pose proof (st_few c2 Hs2) as Hf. apply Z.ltb_ge in Hf. rewrite Hf, andb_false_r in H3.
  injection H3 as <- <-. by injection H as <-.
Qed.

Lemma kstep_stalled e c x e' c' :
  quiet x.2 = true → stalled c → kstep (e, c) x = Ok (e', c') →
  stalled c' ∧ writeQueue (base c') = writeQueue (base c).
Proof.
  intros Hq Hs. unfold kstep. destruct x as [now op]; cbn [fst snd] in *.
  pose proof (st_resp c Hs) as E1. pose proof (st_wresp c Hs) as E2.
  destruct op; try discriminate Hq; repeat (case_match; [|by intros [= _ <-]]); intros H'.
  - apply bind_ok in H' as (c1 & H1 & [= _ <-]). by eapply next_req_stalled.
  - by case_bool_decide; simplify_eq.
  - by case_bool_decide; simplify_eq.
  - apply bind_ok in H' as (t & _ & [= _ <-]). by apply stalled_idle.
  - apply bind_ok in H' as ([[q d] b] & _ & [= _ <-]). by apply stalled_idle.
  - apply bind_ok in H' as ([[q d] b] & _ & [= _ <-]). by apply stalled_idle.
  - apply bind_ok in H' as (o & _ & [= _ <-]). by apply stalled_idle.
  - apply bind_ok in H' as (o & _ & [= _ <-]). by apply stalled_idle.
Qed.

Lemma run_stalled e c l e' c' :
  Forall (λ x, quiet x.2 = true) l → stalled c → foldM kstep (e, c) l = Ok (e', c') →
  stalled c' ∧ writeQueue (base c') = writeQueue (base c).
Proof.
  intros Hl Hc H.
  apply (foldM_ind (λ s, stalled s.2 ∧ writeQueue (base s.2) = writeQueue (base c))) in H; [done| |done].
  intros [e1 c1] x [e2 c2] Hx [Hs Hw] Hk. rewrite Forall_forall in Hl.
  apply kstep_stalled in Hk as [? E]; [|by apply Hl|done]. cbn in *. split; [done|]. by rewrite E.
Qed.

(** C24: a write that finds the DRAM cache idle is never answered unless something
    else comes.  Writes are answered after their access, but the request loop
    serves them only above the low threshold or when it drains: from a state in
    which no read waits, no response is due and the writes and fills do not
    pass the threshold, no sequence of controller events, refreshes, sends and
    retries, however long, answers one of the writes. *)
Theorem lone_write_never_answered mshrs wbs s l e c l' e' c' d :
  0 ≤ mshrs + readBufferSize - 1 →
  foldM kstep (mkEnv [] [] [], (new_cache mshrs wbs) <| base ::= λ b, b <| chan := s |> |>) l = Ok (e, c) →
  stalled c → Forall (λ x, quiet x.2 = true) l' → foldM kstep (e, c) l' = Ok (e', c') →
  d ∈ writeQueue (base c) → pkt_id (dp_pkt d) ∈ accepted e' ∧ pkt_id (dp_pkt d) ∉ delivered e'.
Proof.
  intros Hm H Hs Hl H' Hd. apply run_stalled in H' as Hw; [|done..]. destruct Hw as [_ Hw].
  apply (foldM_ind kinv_env) in H; [|intros t x t' _; apply kstep_kinv|by apply new_cache_kinv].
  apply (foldM_ind kinv_env) in H' as Hk; [|intros t x t' _; apply kstep_kinv|done].
  pose proof (ki_perm _ _ _ _ _ _ Hk) as Hp. pose proof (ki_nodup _ _ _ _ _ _ Hk) as Hn. cbn in Hp, Hn.
  assert (pkt_id (dp_pkt d) ∈ elements (ids (kkeys 0 0 c'))) as Hi.
  { apply elem_of_elements, elem_of_ids. exists (burstHelper d). apply list_elem_of_fmap. exists d. split; [done|].
    rewrite !elem_of_app, Hw. auto. }
  rewrite Hp in Hn |- *. apply NoDup_app in Hn as (_ & Hn & _). split; [apply elem_of_app; auto|].
  intros Hx. apply (Hn _ Hi). rewrite !elem_of_app. auto.
Qed.
End queues.

Abbreviation ex_krun l :=
  (foldM (@kstep HMC_2500_x32_Cache HMC_cache ex_filter ex_clock ex_range) (mkEnv [] [] [], ex_cache) l).
(** Four fill bursts and two write bursts are queued. *)
Definition ex_queued : list (Tick * kop) := take 22 ex_answers.

Lemma cache_sets_agree_witness :
  match ex_krun ex_queued with
  | Ok (e, c) => base.size (isInFillQueue c) = 4%nat ∧ base.size (inWriteQ c) = 2%nat ∧
      len (fillQueue c) = 4 ∧ len (writeQueue (base c)) = 2 ∧
      ∃ d, d ∈ fillQueue c ∧ requestAddr d = 256 ∧ dp_addr d = 4
  | Fault _ => False
  end.
Proof.
  assert (E0 : (s ← ex_krun ex_queued; Ok (base.size (isInFillQueue s.2), base.size (inWriteQ s.2),
    bool_decide ((256, 4) ∈ isInFillQueue s.2))) = Ok (4%nat, 2%nat, true)) by (vm_compute; reflexivity).
  pose proof (λ e c, @cache_sets_agree HMC_2500_x32_Cache HMC_cache ex_filter ex_clock ex_range
    8 8 ex_chan ex_queued e c ltac:(cbn; lia) ltac:(cbn; lia) ltac:(cbn; lia)) as H. fold ex_cache in H.
  destruct (ex_krun ex_queued) as [[e c]|]; [|discriminate]. injection E0 as E1 E2 E3.
  destruct (H _ _ eq_refl) as (H1 & _ & H2 & _ & H3 & _). cbn [snd] in E1, E2, E3.
  split_and!; [done|done|by rewrite H2; apply (f_equal Z.of_nat E1)|by rewrite H3; apply (f_equal Z.of_nat E2)|]. apply H1. by apply bool_decide_eq_true in E3.
Defined.

(** A write is queued; another one for the same block comes. *)
Definition ex_write : list (Tick * kop) := [(1000, KReq 0 true (write_pkt 1 512 31 7)); (1000, KNext)].
Abbreviation ex_recv c :=
  (@cache_recvTimingReq HMC_2500_x32_Cache HMC_cache ex_filter ex_clock ex_range 2000 0 true (write_pkt 2 512 31 8) c).

Lemma duplicate_write_aborts_witness :
  match ex_krun ex_write with
  | Ok (e, c) => ex_recv c = Fault (AssertFail "writeQueue.size() == isInWriteQueue.size()")
  | Fault _ => False
  end.
Proof.
  assert (E0 : (s ← ex_krun ex_write; Ok (match ex_recv s.2 with Fault (AssertFail _) => true | _ => false end,
     existsb (λ d, (addr (dp_pkt d) =? 512) && (dp_addr d =? 8)) (writeQueue (base s.2)))) =
     Ok (true, true)) by (vm_compute; reflexivity).
  pose proof (λ e c d, @duplicate_write_aborts HMC_2500_x32_Cache HMC_cache ex_filter ex_clock ex_range
    8 8 ex_chan ex_write e c 2000 0 true (write_pkt 2 512 31 8) d
    ltac:(cbn; lia) ltac:(cbn; lia) ltac:(cbn; lia)) as H. fold ex_cache in H.
  destruct (ex_krun ex_write) as [[e c]|]; [|discriminate]. injection E0 as E1 E2.
  apply existsb_exists in E2 as (d & Hd & E2). apply andb_true_iff in E2 as [Ha%Z.eqb_eq Hb%Z.eqb_eq].
  cbn [snd] in E1. assert (∀ j, 8 ≤ j < 10 → j = 8 ∨ j = 9) as Hj by (intros; lia).
  destruct (H e c d eq_refl) as [[_ [c' Hr]]|[Hr|Hr]]; try reflexivity; try done.
  - eexists. vm_compute. reflexivity.
  - intros j [->| ->]%Hj; eexists; vm_compute; reflexivity.
  - by apply list_elem_of_In.
  - rewrite Hb. vm_compute. done.
  - by rewrite Hr in E1.
  - by rewrite Hr in E1.
Defined.

(** The events of a refresh of rank 0, which wakes the request loop. *)
Definition ex_quiet : list (Tick * kop) :=
  [(3892300, KRank Refresh 0); (3892300, KRank Power 0); (3951300, KRank Power 0); (3951300, KNext)].

Lemma lone_write_never_answered_witness :
  match ex_krun ex_write with
  | Ok (e, c) =>
      match foldM (@kstep HMC_2500_x32_Cache HMC_cache ex_filter ex_clock ex_range) (e, c) ex_quiet with
      | Ok (e', c') => nextReqEvent (base c') = None ∧ 1 ∈ accepted e' ∧ 1 ∉ delivered e'
      | Fault _ => False
      end
  | Fault _ => False
  end.
Proof.
  assert (E0 : (s ← ex_krun ex_write; t ← foldM (@kstep HMC_2500_x32_Cache HMC_cache ex_filter ex_clock ex_range) s ex_quiet;
    Ok (nextReqEvent (base t.2), (busState (base s.2), readQueue (base s.2), respondEvent (base s.2)),
       (respondWriteEvent s.2, draining (base s.2), pending_writes s.2,
        existsb (λ d, pkt_id (dp_pkt d) =? 1) (writeQueue (base s.2))))) =
    Ok (None, (READ, [], None), (None, false, 2, true))) by (vm_compute; reflexivity).
  pose proof (λ e c, @lone_write_never_answered HMC_2500_x32_Cache HMC_cache ex_filter ex_clock ex_range
    8 8 ex_chan ex_write e c ex_quiet) as H. fold ex_cache in H.
  destruct (ex_krun ex_write) as [[e c]|]; [|discriminate]. cbn [mbind res_bind] in E0.
  destruct (foldM _ (e, c) ex_quiet) as [[e' c']|] eqn:E; [|discriminate].
  injection E0 as E1 E2 E3 E4 E5 E6 E7 E8. split; [done|].
  apply existsb_exists in E8 as (d & Hd & <-%Z.eqb_eq).
  eapply H; [cbn; lia|done| |by repeat constructor|exact E|by apply list_elem_of_In].
  split; auto. rewrite E7. cbn. lia.
Defined.
End CacheQueues.
