(* ===== verification/CacheData.v ===== *)
(** * The data of the DRAM cache

    A write puts its bytes in the backing store at once, through a clone of its
    packet, and a read that finds the bursts of a write in the queue is answered
    from the store without an access to the array. *)

From S2P Require Import Prelude Intmath Packet AbstractMem DramTypes Config PacketQueue.
From S2P Require Import DramAddr DramCtrl DramCtrlProofs CacheTags CacheTagsSpec CacheBuffers.
From S2P Require Import CacheBuffersProofs CacheCtrl CacheLedger CacheAnswers CacheQueues.
Import Intmath MemCmd Packet AbstractMem PacketQueue DramAddr DramCtrl DramCtrlProofs CacheTags
  CacheTagsSpec CacheBuffers CacheBuffersProofs CacheCtrl CacheLedger CacheAnswers CacheQueues.

Module CacheData.
Section data.
Context `{D : DRAMParams} `{P : CacheParams} `{B : BloomFilter} `{C : Clocked} `{R : MemRange}.

(** The bytes that the clone of a write carries: static data is shared, the copy
    of dynamic data is never filled. *)
Definition payload (w : Packet) : list cell :=
  let n := Z.to_nat (size w) in
  match data w with StaticData bs => take n bs | _ => replicate n None end.

Lemma clone_payload id w q :
  clone_packet id w = Ok q →
  cmd q = cmd w ∧ addr q = addr w ∧ size q = size w ∧ memInhibit q = memInhibit w ∧
  ∃ bs, getPtr q = Ok bs ∧ take (Z.to_nat (size w)) bs = payload w.
Proof.
  unfold clone_packet, payload, Packet.allocate, getPtr. intros H.
  destruct (data w) eqn:E; res_inv; rewrite ?E; split_and!; try done; eexists; (split; [done|]);
    by rewrite ?take_replicate, ?Nat.min_id.
Qed.

Lemma access_write_store w m r bs :
  cmd w = WriteReq → memInhibit w = false → getPtr w = Ok bs → access w m = Ok r →
  store r.2 = store (write_bytes (addr w) (take (Z.to_nat (size w)) bs) m).
Proof.
  intros Hc Hi Hp. unfold access. rewrite Hi, Hc. cbn. intros H. apply bind_ok in H as (_ & _ & H).
  apply bind_ok in H as ([p m1] & H1 & H). unfold access_body in H1. rewrite Hc in H1. cbn in H1.
  assert (store r.2 = store m1) as -> by (case_match; res_inv; done). clear H.
  unfold access_write in H1. assert (∃ l, writeOK w m = (true, w, m <| lockedAddrList := l |>)) as (l & E).
  { unfold writeOK, checkLockedAddrList. rewrite Hc. cbn. destruct (lockedAddrList m) eqn:El; [|eauto].
    exists []. rewrite <-El. by destruct m. }
  rewrite E in H1. cbn in H1. rewrite Hp in H1.
  apply bind_ok in H1 as (_ & [= <-] & H1). apply bind_ok in H1 as (_ & _ & H1). by injection H1 as _ <-.
Qed.

Lemma add_write_store now w n c c' :
  cmd w = WriteReq → memInhibit w = false → cache_addToWriteQueue now w n c = Ok c' →
  read_bytes (addr w) (length (payload w)) (mem (base c')) = payload w.
Proof.
  intros Hc Hi. unfold cache_addToWriteQueue, cloned. intros H. apply bind_ok in H as (_ & _ & H).
  apply bind_ok in H as (s & _ & H). apply bind_ok in H as (pc & Hp & H).
  apply bind_ok in Hp as (q & Hq & [= <-]). apply bind_ok in H as ([r c2] & Ha & H).
  apply clone_payload in Hq as (E1 & E2 & E3 & E4 & bs & Hg & Hb).
  assert (mem (base c') = mem (base c2)) as ->.
  { unfold onBase, kick in H. apply bind_ok in H as (b & Hk & [= <-]). case_match; res_inv; done. }
  cbn [fst snd] in Ha. unfold cache_access in Ha. apply bind_ok in Ha as (_ & _ & Ha). apply bind_ok in Ha as (pm & Ha & [= _ <-]).
  apply (access_write_store _ _ _ bs) in Ha; [|congruence..]. cbn. unfold read_bytes. rewrite Ha, E2, E3, Hb.
  apply read_write_same.
Qed.

(** ** Reads that find a write *)

(** The burst [k] of a block is in the write queue. *)
Definition in_write_queue (a k : Addr) (c : Cache) : Prop :=
  (a, k) ∈ inWriteQ c ∧ ∃ d, d ∈ writeQueue (base c) ∧ dp_addr d = k ∧ dp_size d = burstSize.

Lemma write_burst_queued now w n s x s' :
  cache_write_burst now w n s x = Ok s' →
  s'.1.2 = s.1.2 + 1 ∧ in_write_queue (addr w) s.1.2 s'.1.1 ∧
  ∀ k, in_write_queue (addr w) k s.1.1 → in_write_queue (addr w) k s'.1.1.
Proof.
  destruct s as [[c a] h]. unfold cache_write_burst. intros H. apply bind_ok in H as (l & _ & H).
  destruct (if _ && _ then _ else _) as [h1 c1] eqn:E. apply bind_ok in H as (c2 & H & [= <-]).
  assert (writeQueue (base c1) = writeQueue (base c) ∧ inWriteQ c1 = inWriteQ c) as [E1 E2].
  { destruct (_ && _); [|by injection E as _ <-]. by injection E as _ <-. }
  unfold cache_push_write in H. res_inv. unfold cache_decodeAddr, make_dram_pkt in E3.
  assert (dp_addr a1 = a ∧ dp_size a1 = burstSize) as [F1 F2] by (repeat case_match; res_inv; done).
  unfold in_write_queue. cbn. assert (∀ b : Ctrl, writeQueue (if isGPU w then b else
    stat_at "cpuwrQLenPdf" (len (writeQueue (base c1))) b) = writeQueue b) as Hg by by destruct (isGPU w).
  cbn in Hg. rewrite !Hg, E1, E2. cbn. split_and!; [done|set_solver| |].
  - exists (a1 <| burstHelper := h1 |>). rewrite elem_of_app. split_and!; [|done..]. right. by constructor.
  - intros k [H1 (d & Hd & ?)]. split; [set_solver|]. exists d. rewrite elem_of_app. auto.
Qed.

Lemma write_loop_queued now w n l s s' :
  foldM (cache_write_burst now w n) s l = Ok s' →
  ∀ k, in_write_queue (addr w) k s.1.1 ∨ s.1.2 ≤ k < s.1.2 + len l → in_write_queue (addr w) k s'.1.1.
Proof.
  revert s. induction l as [|x l IH]; intros s H k Hk.
  - injection H as <-. unfold len in Hk. cbn in Hk. destruct Hk; [done|lia].
  - cbn [foldM] in H. apply bind_ok in H as (s1 & (E & H1 & H2)%write_burst_queued & H).
    apply (IH _ H). rewrite E. destruct Hk as [Hk|Hk]; [left; auto|].
    destruct (decide (k = s.1.2)) as [->|]; [by left|right]. unfold len in *. cbn in Hk. lia.
Qed.

Lemma in_write_loop a k c c' : loop c' = loop c → in_write_queue a k c → in_write_queue a k c'.
Proof.
  intros E. pose proof (f_equal (λ x, x.2.1.1) E) as E1. pose proof (f_equal (λ x, x.2.1.2) E) as E2.
  cbn in E1, E2. unfold in_write_queue. by rewrite E1, E2.
Qed.

Lemma add_write_queued now w n c c' :
  cache_addToWriteQueue now w n c = Ok c' →
  let a := set_burst_addr dramCache_block_size dramCache_num_sets n (addr w) in
  ∀ k, a ≤ k < a + n → in_write_queue (addr w) k c'.
Proof.
  intros H a k Hk. unfold cache_addToWriteQueue, cloned in H. apply bind_ok in H as (_ & _ & H).
  apply bind_ok in H as (s & Hs & H). apply bind_ok in H as (pc & Hp & H).
  apply bind_ok in Hp as (q & _ & [= <-]). apply bind_ok in H as ([r c2] & E1%cache_access_loop & E2%kick_loop).
  apply (in_write_loop _ _ s.1.1); [rewrite E2; exact E1|].
  apply (write_loop_queued _ _ _ _ _ _ Hs). right. cbn. unfold len. rewrite length_seqZ. lia.
Qed.

(** A burst that is queued is found; nothing but statistics changes. *)
Definition rview (c : Cache) := (loop c, (readQueue (base c), mem (base c), respPort (base c))).

Lemma read_burst_found now r n c a sv x s' :
  in_write_queue (addr r) a c → cache_read_burst now r n (c, a, sv, None) x = Ok s' →
  ∃ c', s' = (c', a + 1, sv + 1, None) ∧ rview c' = rview c.
Proof.
  intros [Hin (d & Hd & Ha & Hz)]. unfold cache_read_burst. intros H. apply bind_ok in H as (l & _ & H).
  rewrite bool_decide_eq_true_2 in H by done.
  assert (existsb (subsumes a burstSize) (writeQueue (base c)) = true) as E.
  { apply existsb_exists. exists d. split; [by apply list_elem_of_In|]. unfold subsumes. lia. }
  cbn in H. rewrite E in H. injection H as <-. eauto.
Qed.

Lemma read_loop_found now r n l c a sv s' :
  (∀ k, a ≤ k < a + len l → in_write_queue (addr r) k c) →
  foldM (cache_read_burst now r n) (c, a, sv, None) l = Ok s' →
  ∃ c', s' = (c', a + len l, sv + len l, None) ∧ rview c' = rview c.
Proof.
  revert c a sv. induction l as [|x l IH]; intros c a sv Hq H; unfold len in *; cbn [length] in *.
  - injection H as <-. exists c. split; [|done]. do 2 f_equal; [f_equal|]; lia.
  - cbn [foldM] in H. apply bind_ok in H as (s1 & H1 & H).
    apply read_burst_found in H1 as (c1 & -> & E1); [|apply Hq; lia].
    apply IH in H as (c2 & -> & E2).
    + exists c2. split; [|by rewrite E2]. do 2 f_equal; [f_equal|]; lia.
    + intros k Hk. apply (in_write_loop _ _ c); [exact (f_equal fst E1)|]. apply Hq. lia.
Qed.

Lemma access_read_data r m q :
  cmd r = ReadReq → memInhibit r = false → access r m = Ok q →
  pkt_id q.1 = pkt_id r ∧
  ∃ bs, getPtr q.1 = Ok bs ∧ take (Z.to_nat (size r)) bs = read_bytes (addr r) (Z.to_nat (size r)) m.
Proof.
  intros Hc Hi. unfold access. rewrite Hi, Hc. cbn. intros H. apply bind_ok in H as (_ & _ & H).
  apply bind_ok in H as ([p m1] & H1 & H). unfold access_body, access_read in H1. rewrite Hc in H1. cbn in H1.
  apply bind_ok in H1 as (_ & _ & H1). apply bind_ok in H1 as (p1 & H1 & E). injection E as -> _.
  assert (pkt_id q.1 = pkt_id p ∧ getPtr q.1 = getPtr p) as [-> ->]
    by (unfold makeResponse in H; case_match; res_inv; done).
  unfold copy_in in H1. set (bs := read_bytes _ _ _) in *.
  assert (length bs = Z.to_nat (size r)) as Hl by apply length_read_bytes.
  destruct (data r); [done| |]; injection H1 as <-; (split; [done|]); eexists; (split; [done|]);
    rewrite (firstn_all2 bs) by lia; by rewrite take_app_length' by lia.
Qed.

Lemma respond_queued now lat p c c' :
  respond now p lat c = Ok c' → ∃ t, (t, p <| headerDelay := 0 |> <| payloadDelay := 0 |>) ∈ transmitList (respPort (base c')).
Proof.
  unfold respond. intros H. apply bind_ok in H as (_ & _ & H). unfold onBase in H.
  apply bind_ok in H as (b & Hs & [= <-]). unfold schedTimingResp in Hs.
  apply bind_ok in Hs as ([q d] & Hs & [= <-]). apply schedSendTiming_perm in Hs as [t Hs].
  exists t. cbn in *. rewrite Hs. by constructor.
Qed.

(** All bursts of the block of a request are in the write queue. *)
Definition write_queued (n : Z) (p : Packet) (c : Cache) : Prop :=
  let a := set_burst_addr dramCache_block_size dramCache_num_sets n (addr p) in
  ∀ k, a ≤ k < a + n → in_write_queue (addr p) k c.

(** C23: a read of the block of a write is answered at once with the bytes the write
    left in the store, and no burst is read from the array, while all the bursts of the
    write are queued.  They are in [c1], the state after the write; [c] is this state or
    any later one, as long as the bursts are still in the queue (none has been served)
    and no access has changed the bytes of the block in the store.  These are the bytes of the write if its data is static; if
    it is dynamic, which is what the memory interface of Ruby sends, the clone through
    which the store is written was never filled, and the read gets indeterminate
    bytes. *)
Theorem read_after_write now now' draw n w r c0 c1 c c2 :
  0 ≤ n → cmd w = WriteReq → memInhibit w = false → length (payload w) = Z.to_nat (size w) →
  cmd r = ReadReq → memInhibit r = false → addr r = addr w → size r = size w →
  cache_addToWriteQueue now w n c0 = Ok c1 →
  write_queued n w c →
  (let bytes x := read_bytes (addr w) (Z.to_nat (size w)) (mem (base x)) in bytes c = bytes c1) →
  cache_addToReadQueue now' draw r n c = Ok c2 →
  write_queued n w c1 ∧ readQueue (base c2) = readQueue (base c) ∧
  ∃ t p bs, (t, p) ∈ transmitList (respPort (base c2)) ∧ pkt_id p = pkt_id r ∧
    getPtr p = Ok bs ∧ take (Z.to_nat (size r)) bs = payload w.
Proof.
  intros Hn W1 W2 W3 R1 R2 Ea Ez Hw Hq Hst1 Hr. split; [exact (add_write_queued _ _ _ _ _ Hw)|].
  apply add_write_store in Hw as Hst; [|done..]. rewrite W3 in Hst. cbv zeta in Hst1. rewrite <-Hst1 in Hst.
  unfold write_queued in Hq. cbv zeta in Hq. rewrite <-Ea in Hq, Hst.
  unfold cache_addToReadQueue in Hr. do 2 apply bind_ok in Hr as (_ & _ & Hr).
  apply bind_ok in Hr as (s & Hs & Hr).
  apply read_loop_found in Hs as (c3 & -> & Ev); [|intros k; unfold len; rewrite length_seqZ; intros; apply Hq; lia].
  replace (0 + len (seqZ 0 n) =? n) with true in Hr
    by (symmetry; apply Z.eqb_eq; unfold len; rewrite length_seqZ; lia).
  unfold access_respond in Hr. apply bind_ok in Hr as ([p c4] & Ha & Hr).
  unfold cache_access in Ha. apply bind_ok in Ha as (_ & _ & Ha). apply bind_ok in Ha as (q & Ha & [= <- <-]).
  apply access_read_data in Ha as (Hid & bs & Hb & Ht); [|done..].
  pose proof (f_equal (λ x, x.2.1.1) Ev) as E1. pose proof (f_equal (λ x, x.2.1.2) Ev) as E2. cbn in E1, E2.
  split.
  - rewrite <-E1. apply respond_answers in Hr as [Hr _]. apply rest_eq in Hr as [Hr _].
    exact (f_equal (λ x, x.1.1.1.1.1) Hr).
  - apply respond_queued in Hr as [t Hr]. eexists t, _, bs. split_and!; [exact Hr|done|done|].
    by rewrite Ht, E2, Ez.
Qed.
End data.

(** A write with the data [x], a write of another block, and a read of the first. *)
Abbreviation ex_write p c :=
  (@cache_addToWriteQueue HMC_2500_x32_Cache HMC_cache ex_filter ex_range 1000 p 2 c).
Abbreviation ex_first x := ((write_pkt 1 512 31 7) <| data := x |>).
Abbreviation ex_read c :=
  (@cache_addToReadQueue HMC_2500_x32_Cache HMC_cache ex_filter ex_clock ex_range 2000 0 (read_pkt 2 512 31) 2 c).
Definition reads_back (x : pdata) (bytes : list cell) : Prop :=
  match c1 ← ex_write (ex_first x) ex_cache; c ← ex_write (write_pkt 3 1024 31 9) c1; ex_read c with
  | Ok c2 => ∃ t p bs, (t, p) ∈ transmitList (respPort (base c2)) ∧ pkt_id p = 2 ∧
               getPtr p = Ok bs ∧ take 128 bs = bytes
  | Fault _ => False
  end.
(** What the theorem asks of the states between. *)
Definition ex_queued (k : Z) (c : CacheOf (@filter_t ex_filter)) : bool :=
  bool_decide ((512, k) ∈ inWriteQ c) &&
  existsb (λ d, (dp_addr d =? k) && (dp_size d =? @burstSize HMC_2500_x32_Cache)) (writeQueue (base c)).
Abbreviation ex_between x :=
  (match ex_write (ex_first x) ex_cache with
  | Ok c1 =>
      match ex_write (write_pkt 3 1024 31 9) c1 with
      | Ok c => ex_queued 8 c && ex_queued 9 c &&
          bool_decide (read_bytes 512 128 (mem (base c)) = read_bytes 512 128 (mem (base c1))) &&
          match ex_read c with Ok _ => true | _ => false end
      | Fault _ => false
      end
  | Fault _ => false
  end).

Lemma ex_queued_spec k c : ex_queued k c = true → @in_write_queue HMC_2500_x32_Cache ex_filter 512 k c.
Proof.
  unfold ex_queued, in_write_queue. intros [H1%bool_decide_eq_true H2]%andb_true_iff. split; [done|].
  apply existsb_exists in H2 as (d & Hd & [E1%Z.eqb_eq E2%Z.eqb_eq]%andb_true_iff). exists d.
  split; [by apply list_elem_of_In|done].
Qed.

Lemma read_after_write_witness :
  reads_back (StaticData (replicate 128 (Some 7))) (replicate 128 (Some 7)) ∧
  reads_back (DynamicData (replicate 128 (Some 7))) (replicate 128 None).
Proof.
  assert (∀ x bytes, ex_between x = true → payload (ex_first x) = bytes → length bytes = 128%nat → reads_back x bytes) as H.
  { intros x bytes E Hb Hl. unfold reads_back. rewrite <-Hb in Hl.
    destruct (ex_write (ex_first x) ex_cache) as [c1|] eqn:E1; [|discriminate E]. cbn [mbind res_bind].
    destruct (ex_write (write_pkt 3 1024 31 9) c1) as [c|]; [|discriminate E]. cbn [mbind res_bind].
    destruct (ex_read c) as [c2|] eqn:E2; [|by rewrite andb_false_r in E].
    rewrite andb_true_r in E. apply andb_true_iff in E as [E E3%bool_decide_eq_true].
    apply andb_true_iff in E as [Q8%ex_queued_spec Q9%ex_queued_spec]. rewrite <-Hb.
    refine (proj2 (proj2 (@read_after_write HMC_2500_x32_Cache HMC_cache ex_filter ex_clock ex_range 1000 2000 0 2
      (ex_first x) (read_pkt 2 512 31) ex_cache c1 c c2 Z.le_0_2 eq_refl eq_refl
      Hl eq_refl eq_refl eq_refl eq_refl E1 _ E3 E2))).
    assert (@set_burst_addr 128 245760 2 512 = 8) as Ea by (vm_compute; reflexivity).
    intros k Hk. change (@set_burst_addr 128 245760 2 512 ≤ k < @set_burst_addr 128 245760 2 512 + 2) in Hk.
    rewrite Ea in Hk. assert (k = 8 ∨ k = 9) as [->| ->] by lia; [exact Q8|exact Q9]. }
  split; apply H; vm_compute; reflexivity.
Defined.
End CacheData.
