(* ===== verification/CacheDeadlock.v ===== *)
(** * A blocked DRAM cache that stays blocked

    A parallel access that hits frees its register without the test for
    [noTargetMSHR] (dramcache_ctrl.cc, processRespondEvent), which the other
    places that free a register make.  If the register had run out of targets,
    the cache stays blocked for lack of targets although no register is in use. *)

From S2P Require Import Prelude Intmath Packet AbstractMem DramTypes Config PacketQueue Mshr MshrQueue.
From S2P Require Import DramInit DramRefresh DramCtrl DramCtrlProofs CacheTags CacheTagsSpec CacheBuffers.
From S2P Require Import CacheBuffersProofs CacheCtrl CacheLedger CacheAnswers CacheQueues.
Import Intmath MemCmd Packet AbstractMem PacketQueue Mshr MshrQueue DramRefresh DramCtrl DramCtrlProofs
  CacheTags CacheTagsSpec CacheBuffers CacheBuffersProofs CacheCtrl CacheLedger CacheAnswers CacheQueues.

Module CacheDeadlock.
Section dead.
Context `{D : DRAMParams} `{P : CacheParams} `{B : BloomFilter} `{C : Clocked} `{R : MemRange}.

(** Blocked with nothing to do: no burst, no response, no send. *)
Record dead (c : Cache) : Prop :=
  { dd_blocked : blocked (bufs c) ≠ 0;
    dd_stalled : stalled c;
    dd_writes : writeQueue (base c) = [];
    dd_resp : respQueue (base c) = [];
    dd_wresp : dramPktWriteRespQueue c = [];
    dd_send : sendEvent (sendq (bufs c)) = None ∧ waitingOnRetry (sendq (bufs c)) = false }.

(** What death reads: the queues and events of the loop, and the buffers but for
    the retry flag. *)
Definition remains (c : Cache) :=
  (idle c, respQueue (base c), dramPktWriteRespQueue c, (blocked (bufs c), sendq (bufs c))).

Lemma dead_remains c c' : remains c' = remains c → dead c → dead c'.
Proof.
  intros E [H1 H2 H3 H4 H5 H6]. unfold remains in E. apply pair_eq in E as [E E4].
  apply pair_eq in E4 as [E4 E5]. apply pair_eq in E as [E E3]. apply pair_eq in E as [E E2].
  destruct (stalled_idle c c' E H2) as [Hs Hw]. split; rewrite ?E2, ?E3, ?E4, ?E5, ?Hw; done.
Qed.

Lemma next_req_dead now c c' : dead c → cache_processNextReqEvent now c = Ok c' → dead c'.
Proof.
  intros Hd. unfold cache_processNextReqEvent. intros H. apply bind_ok in H as ([busy s] & _ & H).
  match type of H with context [cache_turn_around ?x] => set (c1 := x) in H end.
  assert (dead c1) as Hd1 by by apply (dead_remains c). clearbody c1. clear Hd c.
  destruct (busy =? ranksPerChannel); [by injection H as <-|].
  destruct (cache_turn_around c1) as [sw c2] eqn:Et. destruct Hd1 as [H1 H2 H3 H4 H5 H6].
  assert (dead c2 ∧ busState (base c2) = READ) as [Hd2 Hb].
  { unfold cache_turn_around in Et. destruct H2 as [K1 K2 K3 K4 K5 K6].
    destruct K1 as [K1|K1]; rewrite K1 in Et; injection Et as _ <-; split; try done; split; try done; split; auto. }
  apply bind_ok in H as ([go c3] & H' & H). rewrite bool_decide_eq_true_2 in H' by done.
  unfold cache_next_read in H'. pose proof (dd_stalled c2 Hd2) as Hs. rewrite (st_reads c2 Hs), (st_drain c2 Hs) in H'.
  pose proof (st_few c2 Hs) as Hf. apply Z.ltb_ge in Hf. rewrite Hf, andb_false_r in H'.
  injection H' as <- <-. by injection H as <-.
Qed.

Lemma kstep_dead e c x e' c' :
  dramCacheTimingMode = true → (∀ run p, x.2 ≠ KMemResp run p) → dead c → kstep (e, c) x = Ok (e', c') →
  dead c' ∧ accepted e' = accepted e.
Proof.
  intros Htm Hx Hd. unfold kstep. destruct x as [now op]; cbn [fst snd] in *.
  pose proof Hd as [H1 H2 H3 H4 H5 [H6 H7]]. pose proof H2 as [K1 K2 K3 K4 K5 K6].
  destruct op; try (rewrite ?K3, ?K4, ?H6, ?H7; by intros [= <- <-]).
  - case_match; [|by intros [= <- <-]]. unfold cache_recvTimingReq, kowed. rewrite Htm. cbn [negb andb].
    destruct (memInhibit pkt || _); [by intros [= <- <-]|]. rewrite (proj2 (Z.eqb_neq _ 0)) by done.
    cbn [fst snd mbind res_bind]. intros [= <- <-]. split; [|done]. by apply (dead_remains c).
  - case_bool_decide; [|by intros [= <- <-]]. intros H'. apply bind_ok in H' as (c1 & H' & [= <- <-]).
    split; [|done]. by eapply next_req_dead.
  - intros H'. apply bind_ok in H' as (t & _ & [= <- <-]). split; [|done]. by apply (dead_remains c).
  - case_bool_decide; [|by intros [= <- <-]]. intros H'. apply bind_ok in H' as ([[q d] b] & _ & H').
    unfold ksent in H'. injection H' as <- <-. split; [by apply (dead_remains c)|by case_match].
  - case_match; [|by intros [= <- <-]]. intros H'. apply bind_ok in H' as ([[q d] b] & _ & H').
    unfold ksent in H'. injection H' as <- <-. split; [by apply (dead_remains c)|by case_match].
  - by destruct (Hx running pkt).
  - unfold cache_drain. rewrite H3, K2, H4, H5. by intros [= <- <-].
Qed.

Lemma run_dead e c l e' c' :
  dramCacheTimingMode = true → Forall (λ x, ∀ run p, x.2 ≠ KMemResp run p) l → dead c →
  foldM kstep (e, c) l = Ok (e', c') → accepted e' = accepted e.
Proof.
  intros Htm Hl Hd H. apply (foldM_ind (λ s, dead s.2 ∧ accepted s.1 = accepted e)) in H as [_ H]; [done| |done].
  intros [e1 c1] x [e2 c2] Hx [Hs Ha] Hk. rewrite Forall_forall in Hl.
  apply kstep_dead in Hk as [? E]; [|done|by apply Hl|done]. cbn in *. split; [done|congruence].
Qed.
End dead.

(** The cache of the examples with two targets per register. *)
Definition two_targets : CacheParams :=
  {| dramCache_block_size := 128; dramCache_num_sets := 245760; cache_totalRows := 16384;
     dramCache_write_allocate := false; bloomFilterEnable := true; bypassTagEnable := false;
     dirtyCleanBypassEnable := false; bypass_tag_size := 64; numTarget := 2;
     dramCacheTimingMode := true; fillBufferSize := 64; fillHighThreshold := 54;
     predAccuracy := 95 |}.

(** Three misses fill three blocks, whose fills pass the threshold and go to the
    array.  A read of one of them is predicted to miss and starts a parallel
    access; a second read of it takes the last target of the register.  The
    array access of the first read hits, answers both and frees the register.
    The memory's answer then finds nothing to do. *)
Definition ex_deadlock : list (Tick * kop) :=
  [(1000, KReq 99 false (read_pkt 1 256 0)); (1000, KNext); (3200, KNext); (6400, KNext);
   (31000, KRespond false); (34200, KRespond false); (34201, KMemSend true);
   (61000, KMemResp false (mem_resp 0 (read_pkt 501 256 0))); (61000, KNext); (71000, KSend true);
   (101000, KReq 99 false (read_pkt 2 384 0)); (101000, KNext); (101000, KNext); (101000, KNext);
   (124300, KRespond false); (127500, KRespond false); (127501, KMemSend true);
   (161000, KMemResp false (mem_resp 0 (read_pkt 502 384 0))); (161000, KNext); (171000, KSend true);
   (201000, KReq 99 false (read_pkt 3 512 0)); (201000, KNext); (201000, KNext); (201000, KNext);
   (224300, KRespond false); (227500, KRespond false); (227501, KMemSend true);
   (261000, KMemResp false (mem_resp 0 (read_pkt 503 512 0))); (261000, KNext); (261000, KNext); (261000, KNext);
   (261000, KNext); (262900, KNext); (266100, KNext); (269300, KNext); (271000, KSend true); (272500, KNext);
   (301000, KReq 99 false (read_pkt 4 256 0)); (301000, KNext); (301001, KReq 99 false (read_pkt 5 256 0));
   (301005, KMemSend true); (311500, KNext); (314700, KNext); (339300, KRespond false); (342500, KRespond false);
   (362500, KSend true); (362501, KSend true); (410000, KMemResp false (mem_resp 0 (read_pkt 504 256 0)))].

Abbreviation dstep := (@kstep HMC_2500_x32_Cache two_targets ex_filter ex_clock ex_range).

(** C37: a parallel access that hits can block the cache for ever.  There is a run
    of five reads, all answered, after which no register is in use and nothing
    is under way, but the cache refuses every request: no sequence of requests,
    events, refreshes, sends, retries and drains makes it accept one. *)
Theorem no_target_deadlock :
  ∃ e c, foldM dstep (mkEnv [] [] [], ex_cache) ex_deadlock = Ok (e, c) ∧
    accepted e = [5; 4; 3; 2; 1] ∧ delivered e = [5; 4; 3; 2; 1] ∧ on_way e = [] ∧
    allocatedList (mshrQueue (bufs c)) = [] ∧ allocatedList (writeBuffer (bufs c)) = [] ∧
    ∀ l e' c', Forall (λ x, ∀ run p, x.2 ≠ KMemResp run p) l → foldM dstep (e, c) l = Ok (e', c') →
      accepted e' = accepted e.
Proof.
  assert (E : (s ← foldM dstep (mkEnv [] [] [], ex_cache) ex_deadlock;
    Ok (accepted s.1, delivered s.1, on_way s.1,
      (allocatedList (mshrQueue (bufs s.2)), allocatedList (writeBuffer (bufs s.2)), blocked (bufs s.2)),
      (busState (base s.2), readQueue (base s.2), respondEvent (base s.2), respondWriteEvent s.2),
      (draining (base s.2), pending_writes s.2, writeQueue (base s.2), respQueue (base s.2)),
      (dramPktWriteRespQueue s.2, sendEvent (sendq (bufs s.2)), waitingOnRetry (sendq (bufs s.2))))) =
    Ok ([5; 4; 3; 2; 1], [5; 4; 3; 2; 1], [], ([], [], 4), (READ, [], None, None), (false, 0, [], []), ([], None, false)))
    by (vm_compute; reflexivity).
  destruct (foldM dstep _ ex_deadlock) as [[e c]|]; [|discriminate]. exists e, c. cbn [mbind res_bind fst snd] in E.
  injection E as E1 E2 E3 E4 E5 E6 E7 E8 E9 E10 E11 E12 E13 E14 E15 E16 E17. split_and!; try done.
  intros l e' c' Hl. apply run_dead; [done|done|]. split; try done.
  - intros E0. discriminate (eq_trans (eq_sym E0) E6).
  - split; try done; [by left|]. etrans; [apply Z.eq_le_incl, E12|cbn; lia].
Qed.
End CacheDeadlock.
