(* ===== verification/EventQueue.v ===== *)
(** * The event queue (sim/eventq.hh, eventq.cc, eventq_impl.hh, simulate.cc)

    The queue that every handler of the simulator is called from: a linked list
    of bins, one per tick and priority, each a linked stack of events.  The
    pointers are modelled as the code has them, in a store of events: [nextBin]
    is meaningful in the top event of a bin only and stale in the others.  The
    file holds insertion and removal, [schedule], [deschedule], [reschedule],
    the queue of events from other threads, [serviceOne], the simulation loop
    and the checkpoint of an event.

    The handler [process] of an event is virtual; it is a parameter that gives
    the calls the handler makes, and may look at what the events' public
    accessors show and at the state of the simulated objects. *)

From S2P Require Import Prelude.

Module EventQueue.

Abbreviation ptr := positive (only parsing).
Abbreviation qid := positive (only parsing).

(** ** Flags (base/flags.hh) *)

Definition Squashed : Z := 0x0001.
Definition Scheduled : Z := 0x0002.
Definition AutoDelete : Z := 0x0004.
Definition AutoSerialize : Z := 0x0008.
Definition IsExitEvent : Z := 0x0010.
Definition IsMainQueue : Z := 0x0020.
Definition PublicWrite : Z := 0x001d.
Definition Initialized : Z := 0x7a40.
Definition InitMask : Z := 0xffc0.

Definition isSet (fs f : Z) : bool := negb (Z.land fs f =? 0).
Definition noneSet (fs f : Z) : bool := Z.land fs f =? 0.
Definition clear (f fs : Z) : Z := Z.land fs (Z.lnot f).
Definition set (f fs : Z) : Z := Z.lor fs f.

(** ** Events *)

Record Event := mkEvent
  { nextBin : option ptr;
    nextInBin : option ptr;
    when : Tick;
    priority : Z;
    flags : Z;
    queue : option qid }.
#[export] Instance eta_Event : Eta Event := λ e,
  mkEvent (nextBin e) (nextInBin e) (when e) (priority e) (flags e) (queue e).

Definition scheduled (e : Event) : bool := isSet (flags e) Scheduled.
Definition squashed (e : Event) : bool := isSet (flags e) Squashed.
Definition isExitEvent (e : Event) : bool := isSet (flags e) IsExitEvent.
Definition initialized (e : Event) : bool := Z.land (flags e) InitMask =? Initialized.

Definition lt_ev (l r : Event) : bool :=
  (when l <? when r) || ((when l =? when r) && (priority l <? priority r)).
Definition le_ev (l r : Event) : bool :=
  (when l <? when r) || ((when l =? when r) && (priority l <=? priority r)).
Definition eq_ev (l r : Event) : bool :=
  (when l =? when r) && (priority l =? priority r).

Definition setWhen (t : Tick) (q : qid) (e : Event) : Event :=
  e <| when := t |> <| queue := Some q |>.

(** The constructor [Event(Priority p, Flags f)]. *)
Definition new_event (p f : Z) : res Event :=
  assert (noneSet f (Z.lnot PublicWrite)) "f.noneSet(~PublicWrite)";;
  Ok (mkEvent None None 0 p (set f Initialized) None).

(** ** The store *)

Abbreviation store := (gmap positive Event).

(** Reading through a pointer. *)
Definition get (h : store) (p : ptr) : res Event :=
  match h !! p with Some e => Ok e | None => Fault (Panic "use of a deleted event") end.
Definition upd (h : store) (p : ptr) (f : Event → Event) : res store :=
  e ← get h p; Ok (<[p := f e]> h).

Definition insertBefore (event : ptr) (curr : option ptr) (h : store) : res store :=
  ev ← get h event;
  match curr with
  | None => Ok (<[event := ev <| nextBin := None |> <| nextInBin := None |>]> h)
  | Some c =>
      cv ← get h c;
      if lt_ev ev cv
      then Ok (<[event := ev <| nextBin := Some c |> <| nextInBin := None |>]> h)
      else Ok (<[event := ev <| nextBin := nextBin cv |> <| nextInBin := Some c |>]> h)
  end.

(** The loop of [insert] and [remove] over the bins that come before the event:
    the last of them and the one after it. *)
Fixpoint find_bin (fuel : nat) (ev : Event) (prev : ptr) (curr : option ptr) (h : store)
    : res (ptr * option ptr) :=
  match fuel, curr with
  | O, _ => Fault (Panic "the list of bins is cyclic")
  | S _, None => Ok (prev, None)
  | S fuel, Some c =>
      cv ← get h c;
      if lt_ev cv ev then find_bin fuel ev c (nextBin cv) h else Ok (prev, curr)
  end.

Definition insert (event : ptr) (head : option ptr) (h : store) : res (option ptr * store) :=
  ev ← get h event;
  match head with
  | None => h ← insertBefore event None h; Ok (Some event, h)
  | Some p =>
      hv ← get h p;
      if le_ev ev hv then h ← insertBefore event head h; Ok (Some event, h)
      else
        pc ← find_bin (S (size h)) ev p (nextBin hv) h;
        h ← insertBefore event pc.2 h;
        h ← upd h pc.1 (λ e, e <| nextBin := Some event |>);
        Ok (head, h)
  end.

(** The loop of [removeItem] down the stack of a bin. *)
Fixpoint find_item (fuel : nat) (event curr : ptr) (next : option ptr) (h : store) : res ptr :=
  match fuel, next with
  | O, _ => Fault (Panic "the bin is cyclic")
  | S _, None => Fault (Panic "event not found!")
  | S fuel, Some n =>
      if decide (event = n) then Ok curr
      else nv ← get h n; find_item fuel event n (nextInBin nv) h
  end.

(** The new top of the bin, or of the next bin when it was the only event. *)
Definition removeItem (event top : ptr) (h : store) : res (option ptr * store) :=
  tv ← get h top;
  if decide (event = top) then
    match nextInBin tv with
    | None => Ok (nextBin tv, h)
    | Some n => h ← upd h n (λ e, e <| nextBin := nextBin tv |>); Ok (Some n, h)
    end
  else
    curr ← find_item (S (size h)) event top (nextInBin tv) h;
    nv ← get h event;
    h ← upd h curr (λ e, e <| nextInBin := nextInBin nv |>);
    Ok (Some top, h).

Definition remove (this : qid) (event : ptr) (head : option ptr) (h : store)
    : res (option ptr * store) :=
  match head with
  | None => Fault (Panic "event not found!")
  | Some p =>
      ev ← get h event;
      assert (bool_decide (queue ev = Some this)) "event->queue == this";;
      hv ← get h p;
      if eq_ev hv ev then removeItem event p h
      else
        pc ← find_bin (S (size h)) ev p (nextBin hv) h;
        match pc.2 with
        | None => Fault (Panic "event not found!")
        | Some c =>
            cv ← get h c;
            if negb (eq_ev cv ev) then Fault (Panic "event not found!")
            else
              th ← removeItem event c h;
              h ← upd th.2 pc.1 (λ e, e <| nextBin := th.1 |>);
              Ok (head, h)
        end
  end.

(** ** The queues of the simulator *)

Record Queue := mkQueue { head : option ptr; curTick : Tick; async_queue : list ptr }.
#[export] Instance eta_Queue : Eta Queue := λ q, mkQueue (head q) (curTick q) (async_queue q).

(** The constructor [EventQueue(n)]. *)
Definition new_queue : Queue := mkQueue None 0 [].

Record World := mkWorld
  { events : store;
    queues : gmap positive Queue;
    inParallelMode : bool;
    curEventQueue : qid }.
#[export] Instance eta_World : Eta World := λ w,
  mkWorld (events w) (queues w) (inParallelMode w) (curEventQueue w).

Definition get_queue (w : World) (q : qid) : res Queue :=
  match queues w !! q with Some x => Ok x | None => Fault (Panic "no such queue") end.
Definition upd_event (p : ptr) (f : Event → Event) (w : World) : res World :=
  h ← upd (events w) p f; Ok (w <| events := h |>).
Definition upd_queue (q : qid) (f : Queue → Queue) (w : World) : World :=
  w <| queues ::= alter f q |>.

(** [insert] and [remove] as members of queue [this]. *)
Definition q_insert (this : qid) (event : ptr) (w : World) : res World :=
  q ← get_queue w this;
  r ← insert event (head q) (events w);
  Ok (upd_queue this (λ x, x <| head := r.1 |>) (w <| events := r.2 |>)).
Definition q_remove (this : qid) (event : ptr) (w : World) : res World :=
  q ← get_queue w this;
  r ← remove this event (head q) (events w);
  Ok (upd_queue this (λ x, x <| head := r.1 |>) (w <| events := r.2 |>)).

Definition asyncInsert (this : qid) (event : ptr) (w : World) : World :=
  upd_queue this (λ x, x <| async_queue ::= λ l, l ++ [event] |>) w.

(** The loop of [handleAsyncInsertions]. *)
Fixpoint drain_async (this : qid) (l : list ptr) (w : World) : res World :=
  match l with
  | [] => Ok w
  | e :: l =>
      w ← q_insert this e w;
      drain_async this l (upd_queue this (λ x, x <| async_queue := l |>) w)
  end.
Definition handleAsyncInsertions (this : qid) (w : World) : res World :=
  assert (bool_decide (this = curEventQueue w)) "this == curEventQueue()";;
  q ← get_queue w this;
  drain_async this (async_queue q) w.

(** [delete event], with the assertion of the destructor. *)
Definition delete_event (event : ptr) (w : World) : res World :=
  ev ← get (events w) event;
  assert (negb (scheduled ev)) "!scheduled()";;
  Ok (w <| events ::= delete event |>).

Definition schedule (this : qid) (event : ptr) (t : Tick) (global : bool) (w : World)
    : res World :=
  q ← get_queue w this;
  ev ← get (events w) event;
  assert (curTick q <=? t) "when >= getCurTick()";;
  assert (negb (scheduled ev)) "!event->scheduled()";;
  assert (initialized ev) "event->initialized()";;
  w ← upd_event event (setWhen t this) w;
  w ← (if inParallelMode w && (negb (bool_decide (this = curEventQueue w)) || global)
       then Ok (asyncInsert this event w)
       else q_insert this event w);
  upd_event event (λ e, e <| flags ::= set Scheduled |>) w.

Definition deschedule (this : qid) (event : ptr) (w : World) : res World :=
  ev ← get (events w) event;
  assert (scheduled ev) "event->scheduled()";;
  assert (initialized ev) "event->initialized()";;
  assert (negb (inParallelMode w) || bool_decide (this = curEventQueue w))
    "!inParallelMode || this == curEventQueue()";;
  w ← q_remove this event w;
  w ← upd_event event (λ e, e <| flags ::= clear Squashed |>) w;
  w ← upd_event event (λ e, e <| flags ::= clear Scheduled |>) w;
  ev ← get (events w) event;
  if isSet (flags ev) AutoDelete then delete_event event w else Ok w.

Definition reschedule (this : qid) (event : ptr) (t : Tick) (always : bool) (w : World)
    : res World :=
  q ← get_queue w this;
  ev ← get (events w) event;
  assert (curTick q <=? t) "when >= getCurTick()";;
  assert (always || scheduled ev) "always || event->scheduled()";;
  assert (initialized ev) "event->initialized()";;
  assert (negb (inParallelMode w) || bool_decide (this = curEventQueue w))
    "!inParallelMode || this == curEventQueue()";;
  w ← (if scheduled ev then q_remove this event w else Ok w);
  w ← upd_event event (setWhen t this) w;
  w ← q_insert this event w;
  w ← upd_event event (λ e, e <| flags ::= clear Squashed |>) w;
  upd_event event (λ e, e <| flags ::= set Scheduled |>) w.

(** ** The calls of handlers *)

Inductive call : Type :=
| New (event : ptr) (pri f : Z)
| Delete (event : ptr)
| Schedule (q : qid) (event : ptr) (t : Tick) (global : bool)
| Deschedule (q : qid) (event : ptr)
| Reschedule (q : qid) (event : ptr) (t : Tick) (always : bool)
| Squash (event : ptr)
| SetFlags (event : ptr) (f : Z)
| ClearFlags (event : ptr) (f : Z).

(** [new Event] gives an address that is not in use. *)
Definition construct (event : ptr) (pri f : Z) (w : World) : res World :=
  ev ← new_event pri f;
  match events w !! event with
  | Some _ => Fault (Panic "address in use")
  | None => Ok (w <| events ::= <[event := ev]> |>)
  end.
Definition setFlags (event : ptr) (f : Z) (w : World) : res World :=
  assert (noneSet f (Z.lnot PublicWrite)) "_flags.noneSet(~PublicWrite)";;
  upd_event event (λ e, e <| flags ::= set f |>) w.
Definition clearFlags (event : ptr) (f : Z) (w : World) : res World :=
  assert (noneSet f (Z.lnot PublicWrite)) "_flags.noneSet(~PublicWrite)";;
  upd_event event (λ e, e <| flags ::= clear f |>) w.

Definition do_call (w : World) (c : call) : res World :=
  match c with
  | New e p f => construct e p f w
  | Delete e => delete_event e w
  | Schedule q e t g => schedule q e t g w
  | Deschedule q e => deschedule q e w
  | Reschedule q e t a => reschedule q e t a w
  | Squash e => upd_event e (λ e, e <| flags ::= set Squashed |>) w
  | SetFlags e f => setFlags e f w
  | ClearFlags e f => clearFlags e f w
  end.

(** What the accessors of an event show: [when()], [priority()], the flags. *)
Record View := mkView { v_when : Tick; v_priority : Z; v_flags : Z; v_queue : option qid }.
Definition view (e : Event) : View := mkView (when e) (priority e) (flags e) (queue e).

(** ** Running events *)

Section run.
Context {St : Type}.                   (** the simulated objects *)
Variable process : ptr → Tick → gmap positive View → St → list call * St.

(** [event->process()] at the tick of the queue. *)
Definition run_process (this : qid) (event : ptr) (s : St) (w : World) : res (World * St) :=
  q ← get_queue w this;
  let r := process event (curTick q) (view <$> events w) s in
  w ← foldM do_call w r.1; Ok (w, r.2).

(** The event is unlinked from the front of the queue. *)
Definition pop_head (this : qid) (w : World) : res (ptr * World) :=
  q ← get_queue w this;
  match head q with
  | None => Fault (Panic "head is null")
  | Some event =>
      w ← upd_event event (λ e, e <| flags ::= clear Scheduled |>) w;
      ev ← get (events w) event;
      match nextInBin ev with
      | Some next =>
          w ← upd_event next (λ e, e <| nextBin := nextBin ev |>) w;
          Ok (event, upd_queue this (λ x, x <| head := Some next |>) w)
      | None => Ok (event, upd_queue this (λ x, x <| head := nextBin ev |>) w)
      end
  end.

(** [if (AutoDelete && !event->scheduled()) delete event]. *)
Definition auto_delete (event : ptr) (w : World) : res World :=
  ev ← get (events w) event;
  if isSet (flags ev) AutoDelete && negb (scheduled ev) then delete_event event w else Ok w.

(** The exit event, if the event was one. *)
Definition serviceOne (this : qid) (ws : World * St) : res (option ptr * (World * St)) :=
  pw ← pop_head this ws.1;
  let event := pw.1 in let w := pw.2 in
  ev ← get (events w) event;
  if squashed ev then
    w ← upd_event event (λ e, e <| flags ::= clear Squashed |>) w;
    w ← auto_delete event w;
    Ok (None, (w, ws.2))
  else
    ws ← run_process this event ws.2 (upd_queue this (λ x, x <| curTick := when ev |>) w);
    ev ← get (events ws.1) event;
    if isExitEvent ev then
      assert (negb (isSet (flags ev) AutoDelete) || negb (isSet (flags ev) IsMainQueue))
        "!event->flags.isSet(Event::AutoDelete) || !event->flags.isSet(Event::IsMainQueue)";;
      Ok (Some event, ws)
    else w ← auto_delete event ws.1; Ok (None, (w, ws.2)).

(** [head->when()]. *)
Definition nextTick (this : qid) (w : World) : res Tick :=
  q ← get_queue w this;
  match head q with
  | None => Fault (Panic "head is null")
  | Some e => ev ← get (events w) e; Ok (when ev)
  end.
Definition empty (this : qid) (w : World) : res bool :=
  q ← get_queue w this; Ok (bool_decide (head q = None)).

(** One round of the loop of [doSimLoop].  [poll] is what the round finds in the
    flags that signal handlers of the host set: the calls of the service routines
    it runs, and whether an exception makes it return null.  The result is [Some]
    of what the loop returns, or [None] when it goes on. *)
Definition sim_step (this : qid) (poll : option (list call * bool)) (ws : World * St)
    : res (option (option ptr) * (World * St)) :=
  e ← empty this ws.1;
  assert (negb e) "!eventq->empty()";;
  n ← nextTick this ws.1;
  q ← get_queue ws.1 (curEventQueue ws.1);
  assert (curTick q <=? n) "event scheduled in the past";;
  w ← foldM do_call ws.1 (default ([], false) poll).1;
  if (default ([], false) poll).2 then Ok (Some None, (w, ws.2))
  else
    r ← serviceOne this (w, ws.2);
    Ok (match r.1 with Some e => Some (Some e) | None => None end, r.2).

(** The first result is [None] when the fuel ran out. *)
Fixpoint sim_loop (fuel : nat) (this : qid) (polls : nat → option (list call * bool))
    (ws : World * St) : res (option (option ptr) * (World * St)) :=
  match fuel with
  | O => Ok (None, ws)
  | S fuel =>
      r ← sim_step this (polls fuel) ws;
      match r.1 with Some e => Ok (Some e, r.2) | None => sim_loop fuel this polls r.2 end
  end.
Definition doSimLoop (fuel : nat) (this : qid) (polls : nat → option (list call * bool))
    (ws : World * St) : res (option (option ptr) * (World * St)) :=
  w ← handleAsyncInsertions this (ws.1 <| curEventQueue := this |>);
  sim_loop fuel this polls (w, ws.2).
End run.

(** ** The check of the structure *)

(** The inner loop of [debugVerify], over a bin, with the time, the priority and
    the nodes seen; [None] when the check fails. *)
Fixpoint verify_bin (fuel : nat) (curr : option ptr) (h : store) (st : Tick * Z * gset positive)
    : res (option (Tick * Z * gset positive)) :=
  match fuel, curr with
  | O, _ => Fault (Panic "the bin is cyclic")
  | S _, None => Ok (Some st)
  | S fuel, Some p =>
      e ← get h p;
      if when e <? st.1.1 then Ok None
      else if (when e =? st.1.1) && (priority e <? st.1.2) then Ok None
      else if bool_decide (p ∈ st.2) then Ok None
      else verify_bin fuel (nextInBin e) h (when e, priority e, {[p]} ∪ st.2)
  end.
Fixpoint verify_bins (fuel : nat) (curr : option ptr) (h : store) (st : Tick * Z * gset positive)
    : res bool :=
  match fuel, curr with
  | O, _ => Fault (Panic "the list of bins is cyclic")
  | S _, None => Ok true
  | S fuel, Some p =>
      r ← verify_bin (S (size h)) curr h st;
      match r with
      | None => Ok false
      | Some st => e ← get h p; verify_bins fuel (nextBin e) h st
      end
  end.
Definition debugVerify (this : qid) (w : World) : res bool :=
  q ← get_queue w this;
  verify_bins (S (size (events w))) (head q) (events w) (0, 0, ∅).

(** ** Checkpoints *)

(** [Event::serialize]: [short _flags = flags] reads back as the same 16 bits. *)
Definition serialize (e : Event) : Tick * Z * Z := (when e, priority e, u16 (flags e)).
Definition unserialize (cp : Tick * Z * Z) (e : Event) : res Event :=
  assert (negb (scheduled e)) "!scheduled()";;
  let e := e <| when := cp.1.1 |> <| priority := cp.1.2 |> in
  assert (initialized e) "initialized()";;
  let e := e <| flags := set Initialized cp.2 |> in
  Ok (if scheduled e && negb (squashed e)
      then e <| flags ::= clear (set Squashed Scheduled) |> else e).

Definition checkpointReschedule (this : qid) (event : ptr) (w : World) : res World :=
  ev ← get (events w) event;
  if scheduled ev then q_insert this event w else Ok w.

(** The macro [UNSERIALIZE_EVENT]. *)
Definition UNSERIALIZE_EVENT (this : qid) (event : ptr) (cp : Tick * Z * Z) (w : World) : res World :=
  ev ← get (events w) event;
  ev ← unserialize cp ev;
  checkpointReschedule this event (w <| events ::= <[event := ev]> |>).

End EventQueue.
