(* ===== verification/EventQueueProofs.v ===== *)
(** * The linked lists of the event queue are a sorted list

    A chain of bins in the store is described by the list of their stacks.
    Insertion and removal follow and update the pointers as if the events were
    one list sorted by tick and priority, in which an event goes before those of
    its own tick and priority; everything outside the queue stays as it is. *)

From S2P Require Import Prelude EventQueue.
Import EventQueue.

Module EventQueueProofs.

(** ** Keys *)

Abbreviation key := (Z * Z)%type.
Definition klt (a b : key) : Prop := a.1 < b.1 ∨ (a.1 = b.1 ∧ a.2 < b.2).
Definition ev_key (e : Event) : key := (when e, priority e).
Definition v_key (v : View) : key := (v_when v, v_priority v).
Definition kof (V : gmap positive View) (x : ptr) : key := from_option v_key (0, 0) (V !! x).

#[export] Instance klt_dec a b : Decision (klt a b).
Proof. unfold klt. apply _. Defined.

Lemma klt_irrefl a : ¬ klt a a.
Proof. unfold klt. lia. Qed.
Lemma klt_trans a b c : klt a b → klt b c → klt a c.
Proof. unfold klt. lia. Qed.
Lemma klt_nlt_trans a b c : klt a b → ¬ klt c b → klt a c.
Proof. unfold klt. lia. Qed.
Lemma key_eq (a b : key) : ¬ klt a b → ¬ klt b a → a = b.
Proof. destruct a, b. unfold klt. cbn. intros. f_equal; lia. Qed.

Lemma lt_ev_klt a b : lt_ev a b = true ↔ klt (ev_key a) (ev_key b).
Proof. unfold lt_ev, klt, ev_key. cbn. lia. Qed.
Lemma lt_ev_nlt a b : lt_ev a b = false ↔ ¬ klt (ev_key a) (ev_key b).
Proof. rewrite <-lt_ev_klt. by destruct (lt_ev a b). Qed.
Lemma le_ev_nlt a b : le_ev a b = true ↔ ¬ klt (ev_key b) (ev_key a).
Proof. unfold le_ev, klt, ev_key. cbn. lia. Qed.
Lemma le_ev_lt a b : le_ev a b = false ↔ klt (ev_key b) (ev_key a).
Proof. unfold le_ev, klt, ev_key. cbn. lia. Qed.
Lemma eq_ev_key a b : eq_ev a b = true ↔ ev_key a = ev_key b.
Proof. unfold eq_ev, ev_key. rewrite andb_true_iff, !Z.eqb_eq.
  split; [by intros [-> ->]|by intros [= -> ->]]. Qed.

Lemma kof_view h x e : h !! x = Some e → kof (view <$> h) x = ev_key e.
Proof. unfold kof. rewrite lookup_fmap. by intros ->. Qed.

(** ** The sorted list *)

(** An event goes before the first one that does not precede it. *)
Fixpoint enqueue (V : gmap positive View) (e : ptr) (l : list ptr) : list ptr :=
  match l with
  | [] => [e]
  | x :: l => if decide (klt (kof V x) (kof V e)) then x :: enqueue V e l else e :: x :: l
  end.

Lemma enqueue_perm V e l : enqueue V e l ≡ₚ e :: l.
Proof.
  induction l as [|x l IH]; cbn; [done|]. case_decide; [|done]. rewrite IH. apply perm_swap.
Qed.

Lemma enqueue_app V e l1 l2 :
  (∀ x, x ∈ l1 → klt (kof V x) (kof V e)) → (∀ x, x ∈ l2 → ¬ klt (kof V x) (kof V e)) →
  enqueue V e (l1 ++ l2) = l1 ++ e :: l2.
Proof.
  intros H1 H2. induction l1 as [|x l1 IH]; cbn.
  - destruct l2 as [|y l2]; cbn; [done|]. rewrite decide_False; [done|]. apply H2. left.
  - rewrite decide_True by (apply H1; left). f_equal. apply IH. intros. apply H1. by right.
Qed.

(** ** Chains of pointers *)

Inductive bin (h : store) : option ptr → list ptr → Prop :=
| bin_nil : bin h None []
| bin_cons x e l : h !! x = Some e → bin h (nextInBin e) l → bin h (Some x) (x :: l).

(** A segment of the list of bins, up to the pointer at its end. *)
Inductive seg (h : store) : option ptr → list (list ptr) → option ptr → Prop :=
| seg_nil o : seg h o [] o
| seg_cons x e b bs o :
    h !! x = Some e → bin h (nextInBin e) b → seg h (nextBin e) bs o →
    seg h (Some x) ((x :: b) :: bs) o.

(** The bins have one key each, in increasing order. *)
Fixpoint grouped (V : gmap positive View) (bs : list (list ptr)) : Prop :=
  match bs with
  | [] => True
  | [] :: _ => False
  | (x :: b) :: bs =>
      (∀ y, y ∈ b → kof V y = kof V x) ∧ (∀ y, y ∈ concat bs → klt (kof V x) (kof V y)) ∧
      grouped V bs
  end.

Definition links (e : Event) := (nextBin e, nextInBin e).

Lemma bin_frame h h' o l :
  (∀ x, x ∈ l → nextInBin <$> h' !! x = nextInBin <$> h !! x) → bin h o l → bin h' o l.
Proof.
  intros Hf H. induction H as [|x e l Hx H IH]; [constructor|].
  specialize (Hf x ltac:(left)) as Hx'. rewrite Hx in Hx'.
  apply fmap_Some in Hx' as (e' & He' & E). econstructor; [done|].
  rewrite <-E. apply IH. intros. apply Hf. by right.
Qed.

Lemma seg_frame h h' o bs o' :
  (∀ x, x ∈ concat bs → links <$> h' !! x = links <$> h !! x) → seg h o bs o' → seg h' o bs o'.
Proof.
  intros Hf H. induction H as [|x e b bs o Hx Hb H IH]; [constructor|]. cbn in Hf.
  specialize (Hf x ltac:(left)) as Hx'. rewrite Hx in Hx'.
  apply fmap_Some in Hx' as (e' & He' & E). injection E as E1 E2. econstructor; [done| |].
  - rewrite <-E2. eapply bin_frame, Hb. intros y Hy.
    specialize (Hf y ltac:(right; apply elem_of_app; by left)).
    destruct (h !! y), (h' !! y); unfold links in *; cbn in *; congruence.
  - rewrite <-E1. apply IH. intros. apply Hf. right. apply elem_of_app. by right.
Qed.

Lemma seg_app h o bs1 bs2 o' :
  seg h o (bs1 ++ bs2) o' ↔ ∃ m, seg h o bs1 m ∧ seg h m bs2 o'.
Proof.
  revert o. induction bs1 as [|b bs1 IH]; intros o; cbn; split.
  - intros H. exists o. split; [constructor|done].
  - intros (m & H1 & H2). by inversion H1; subst.
  - intros H. inversion H; subst. match goal with H : seg _ _ (_ ++ _) _ |- _ => apply IH in H as (m & ? & ?) end.
    exists m. split; [by econstructor|done].
  - intros (m & H1 & H2). inversion H1; subst. econstructor; [done..|]. apply IH. eauto.
Qed.

(** The first event of a list of bins. *)
Definition top (bs : list (list ptr)) : option ptr := hd_error (concat bs).

Lemma seg_top h o bs : seg h o bs None → o = top bs.
Proof. by inversion 1. Qed.

Lemma bin_lookup h o l x : bin h o l → x ∈ l → is_Some (h !! x).
Proof. induction 1; intros Hx; inversion Hx; subst; eauto. Qed.
Lemma seg_lookup h o bs o' x : seg h o bs o' → x ∈ concat bs → is_Some (h !! x).
Proof.
  induction 1; cbn; intros Hx; [inversion Hx|].
  inversion Hx as [|? ? ? Hx']; subst; [eauto|]. apply elem_of_app in Hx' as [?|?]; eauto using bin_lookup.
Qed.

Lemma bin_length h o l : bin h o l → NoDup l → (length l ≤ size h)%nat.
Proof.
  intros Hb Hn. rewrite <-(size_list_to_set (C:=gset positive) l) by done.
  rewrite <-size_dom. apply subseteq_size. intros x Hx%elem_of_list_to_set.
  apply elem_of_dom. by eapply bin_lookup.
Qed.
Lemma seg_length h o bs o' : seg h o bs o' → NoDup (concat bs) → (length bs ≤ size h)%nat.
Proof.
  intros Hb Hn. trans (length (concat bs)).
  - clear Hn. induction Hb; cbn; [lia|]. rewrite length_app. lia.
  - rewrite <-(size_list_to_set (C:=gset positive) (concat bs)) by done.
    rewrite <-size_dom. apply subseteq_size. intros x Hx%elem_of_list_to_set.
    apply elem_of_dom. by eapply seg_lookup.
Qed.

Lemma grouped_app V bs1 bs2 :
  grouped V (bs1 ++ bs2) ↔ grouped V bs1 ∧ grouped V bs2 ∧
    ∀ x y, x ∈ concat bs1 → y ∈ concat bs2 → klt (kof V x) (kof V y).
Proof.
  induction bs1 as [|[|x b] bs1 IH]; cbn; [set_solver|tauto|]. rewrite IH, concat_app.
  setoid_rewrite elem_of_app. setoid_rewrite elem_of_cons. setoid_rewrite elem_of_app. split.
  - intros (Hb & Hlt & H1 & H2 & H12). split_and!; [done|eauto|done|done|].
    intros z y [->|[Hz|Hz]] Hy; [eauto| |eauto]. rewrite (Hb z Hz). eauto.
  - intros ((Hb & Hlt & H1) & H2 & H12). split_and!; [done| |done|done|eauto].
    intros y [Hy|Hy]; [eauto|]. apply H12; eauto.
Qed.

(** ** Updates of the store *)

Lemma get_ok h x e : h !! x = Some e → get h x = Ok e.
Proof. unfold get. by intros ->. Qed.
Lemma upd_ok h x e f : h !! x = Some e → upd h x f = Ok (<[x := f e]> h).
Proof. intros H. unfold upd. by rewrite (get_ok _ _ _ H). Qed.

Lemma view_insert (h : store) x e e' :
  h !! x = Some e → view e' = view e → view <$> <[x := e']> h = view <$> h.
Proof.
  intros Hx E. apply map_eq. intros y. rewrite !lookup_fmap.
  destruct (decide (x = y)) as [<-|]; [|by rewrite lookup_insert_ne].
  rewrite lookup_insert_eq, Hx. cbn. by rewrite E.
Qed.

Lemma bin_insert h x e' o l : x ∉ l → bin h o l → bin (<[x := e']> h) o l.
Proof. intros Hx. apply bin_frame. intros y Hy. rewrite lookup_insert_ne; [done|set_solver]. Qed.
Lemma seg_insert h x e' o bs o' : x ∉ concat bs → seg h o bs o' → seg (<[x := e']> h) o bs o'.
Proof. intros Hx. apply seg_frame. intros y Hy. rewrite lookup_insert_ne; [done|set_solver]. Qed.

(** The last bin of a segment is made to point elsewhere. *)
Lemma seg_last h o bs x b o' e n :
  h !! x = Some e → NoDup (concat (bs ++ [x :: b])) → seg h o (bs ++ [x :: b]) o' →
  seg (<[x := e <| nextBin := n |>]> h) o (bs ++ [x :: b]) n.
Proof.
  rewrite concat_app. cbn. rewrite app_nil_r. intros Hx (_ & Hd & Hn)%NoDup_app (m & H1 & H2)%seg_app.
  apply seg_app. exists m. split.
  - apply seg_insert; [|done]. intros Hin. by apply (Hd x Hin); left.
  - inversion H2; subst. simplify_eq. econstructor; [by rewrite lookup_insert_eq| |constructor].
    apply NoDup_cons in Hn as [Hn _]. by apply bin_insert.
Qed.

Lemma insertBefore_spec h e ev bs :
  h !! e = Some ev → e ∉ concat bs → seg h (top bs) bs None → grouped (view <$> h) bs →
  (∀ x, x ∈ concat bs → ¬ klt (kof (view <$> h) x) (ev_key ev)) →
  ∃ ev' bs', insertBefore e (top bs) h = Ok (<[e := ev']> h) ∧ view ev' = view ev ∧
    seg (<[e := ev']> h) (Some e) bs' None ∧ concat bs' = e :: concat bs ∧
    grouped (view <$> h) bs'.
Proof.
  intros He Hni Hs Hg Hle. pose proof (kof_view _ _ _ He) as Ke.
  unfold insertBefore. rewrite (get_ok _ _ _ He). cbn [mbind res_bind].
  destruct bs as [|[|x b] bs]; [|by inversion Hs|]; cbn [top concat app hd_error] in *.
  { eexists _, [[e]]. split_and!; [done|done| |done|cbn; set_solver].
    econstructor; [apply lookup_insert_eq|constructor|constructor]. }
  inversion Hs as [|? ev2 ? ? ? Hx Hb Hbs]; subst. rewrite (get_ok _ _ _ Hx). cbn [mbind res_bind].
  pose proof (kof_view _ _ _ Hx) as Kx. destruct Hg as (Hg1 & Hg2 & Hg3).
  destruct (lt_ev ev ev2) eqn:E.
  - apply lt_ev_klt in E. rewrite <-Kx in E. eexists _, ([e] :: (x :: b) :: bs). split_and!; [done|done| |done|].
    + econstructor; [apply lookup_insert_eq|constructor|]. by apply seg_insert.
    + cbn. rewrite Ke. split_and!; [set_solver| |done..].
      intros y [->|[Hy|Hy]%elem_of_app]%elem_of_cons; [done|by rewrite Hg1|eauto using klt_trans].
  - apply lt_ev_nlt in E. assert (kof (view <$> h) x = ev_key ev) as Kxe.
    { apply key_eq; [apply Hle; left|by rewrite Kx]. }
    eexists _, ((e :: x :: b) :: bs). split_and!; [done|done| |done|].
    + econstructor; [apply lookup_insert_eq| |].
      * econstructor; [rewrite lookup_insert_ne; [done|set_solver]|]. apply bin_insert; set_solver.
      * apply seg_insert; set_solver.
    + cbn. rewrite Ke. split_and!; [|intros y Hy; rewrite <-Kxe; auto|done].
      intros y [->|Hy]%elem_of_cons; [done|]. by rewrite Hg1.
Qed.

(** The top of the last bin, or [p] if there is none. *)
Fixpoint last_top (p : ptr) (bs : list (list ptr)) : ptr :=
  match bs with [] => p | b :: bs => last_top (default p (hd_error b)) bs end.

Lemma last_top_split h o bs o' p b :
  seg h o bs o' → ∃ bs' b', (p :: b) :: bs = bs' ++ [last_top p bs :: b'].
Proof.
  intros H. revert p b. induction H as [|x e b1 bs o Hx Hb H IH]; intros p b; cbn.
  - by exists [], b.
  - destruct (IH x b1) as (bs' & b' & ->). by exists ((p :: b) :: bs'), b'.
Qed.

Lemma find_bin_spec h ev fuel prev curr bs :
  seg h curr bs None → grouped (view <$> h) bs → (length bs < fuel)%nat →
  ∃ bs1 bs2, bs = bs1 ++ bs2 ∧ find_bin fuel ev prev curr h = Ok (last_top prev bs1, top bs2) ∧
    (∀ x, x ∈ concat bs1 → klt (kof (view <$> h) x) (ev_key ev)) ∧
    (∀ x, x ∈ concat bs2 → ¬ klt (kof (view <$> h) x) (ev_key ev)).
Proof.
  revert prev curr bs. induction fuel as [|fuel IH]; intros prev curr bs Hs Hg Hf; [lia|].
  inversion Hs as [|x e b bs0 ? Hx Hb Hbs]; subst; cbn.
  { exists [], []. set_solver. }
  rewrite (get_ok _ _ _ Hx). cbn [mbind res_bind]. pose proof (kof_view _ _ _ Hx) as Kx.
  destruct Hg as (Hg1 & Hg2 & Hg3). destruct (lt_ev e ev) eqn:E.
  - apply lt_ev_klt in E. cbn in Hf.
    destruct (IH x (nextBin e) bs0) as (bs1 & bs2 & -> & -> & H1 & H2); [done..|lia|].
    exists ((x :: b) :: bs1), bs2. split_and!; [done..| |done]. cbn.
    intros y [->|[Hy|Hy]%elem_of_app]%elem_of_cons; [by rewrite Kx|by rewrite Hg1, Kx|eauto].
  - apply lt_ev_nlt in E. exists [], ((x :: b) :: bs0). split_and!; [done..|set_solver|]. cbn.
    intros y [->|[Hy|Hy]%elem_of_app]%elem_of_cons; [by rewrite Kx|by rewrite Hg1, Kx|].
    specialize (Hg2 y Hy). rewrite Kx in Hg2. unfold klt in *. lia.
Qed.

(** From pointer [o] the store holds the events [l], sorted. *)
Definition chain (h : store) (o : option ptr) (l : list ptr) : Prop :=
  ∃ bs, seg h o bs None ∧ grouped (view <$> h) bs ∧ concat bs = l ∧ NoDup l.
(** Only pointers of events of [D] change. *)
Definition only (D : list ptr) (h h' : store) : Prop :=
  view <$> h' = view <$> h ∧ ∀ x, x ∉ D → h' !! x = h !! x.

Lemma only_insert h x e e' D :
  h !! x = Some e → view e' = view e → x ∈ D → only D h (<[x := e']> h).
Proof.
  intros Hx Hv Hd. split; [by apply view_insert with e|].
  intros y Hy. apply lookup_insert_ne. set_solver.
Qed.
Lemma only_trans D h1 h2 h3 : only D h1 h2 → only D h2 h3 → only D h1 h3.
Proof.
  intros [V1 H1] [V2 H2]. split; [congruence|]. intros x Hx. rewrite H2, H1 by done. done.
Qed.
Lemma only_mono D D' h h' : D ⊆ D' → only D h h' → only D' h h'.
Proof. intros HD [Hv H]. split; [done|]. intros x Hx. apply H. set_solver. Qed.
Lemma seg_only D h h' o bs o' :
  only D h h' → (∀ x, x ∈ D → x ∉ concat bs) → seg h o bs o' → seg h' o bs o'.
Proof.
  intros [_ H] HD. apply seg_frame. intros x Hx. rewrite H; [done|]. intros Hin. by apply (HD x).
Qed.

(** ** Insertion *)

(** A chain is changed behind its first bins. *)
Lemma chain_behind h h' o bs1 x b m D o' bs2 :
  let front := bs1 ++ [x :: b] in
  seg h o front m → grouped (view <$> h) front → NoDup (concat front) →
  only D h h' → (∀ y, y ∈ D → y ∉ concat front) →
  seg h' o' bs2 None → grouped (view <$> h) bs2 → NoDup (concat bs2) →
  (∀ y, y ∈ concat bs2 → y ∉ concat front) →
  (∀ y z, y ∈ concat front → z ∈ concat bs2 → klt (kof (view <$> h) y) (kof (view <$> h) z)) →
  ∃ h'', upd h' x (λ e, e <| nextBin := o' |>) = Ok h'' ∧
    chain h'' o (concat front ++ concat bs2) ∧ only (concat front ++ D) h h''.
Proof.
  intros front Hs G1 N1 Ho HD Hs' G2 N2 N12 G12.
  apply (seg_only _ _ _ _ _ _ Ho) in Hs; [|done].
  assert (x ∈ concat front) as Hin by (unfold front; rewrite concat_app; set_solver).
  destruct (seg_lookup _ _ _ _ x Hs Hin) as [xv Hxv].
  rewrite (upd_ok _ _ _ _ Hxv). eexists. split; [done|].
  assert (only [x] h' (<[x:=xv <| nextBin := o' |>]> h')) as Ho' by (apply (only_insert _ _ xv); [done..|left]).
  assert (only (concat front ++ D) h (<[x:=xv <| nextBin := o' |>]> h')) as Ho2.
  { eapply only_trans; [eapply only_mono, Ho|eapply only_mono, Ho']; set_solver. }
  split; [|done]. exists (front ++ bs2). rewrite (proj1 Ho2). split_and!.
  - apply seg_app. exists o'. split; [by eapply seg_last|]. apply seg_insert; [|done].
    intros Hx. by apply (N12 x).
  - by apply grouped_app.
  - by rewrite concat_app.
  - apply NoDup_app. split_and!; [done| |done]. intros y Hy Hy'. by apply (N12 y).
Qed.

Lemma insert_front h bs e ev :
  seg h (top bs) bs None → grouped (view <$> h) bs → NoDup (concat bs) →
  h !! e = Some ev → e ∉ concat bs →
  (∀ x, x ∈ concat bs → ¬ klt (kof (view <$> h) x) (ev_key ev)) →
  ∃ h', insertBefore e (top bs) h = Ok h' ∧
    chain h' (Some e) (enqueue (view <$> h) e (concat bs)) ∧ only (e :: concat bs) h h'.
Proof.
  intros Hs Hg Hn He Hni Hle. pose proof (kof_view _ _ _ He) as Ke.
  destruct (insertBefore_spec h e ev _ He Hni Hs Hg Hle) as (ev' & bs' & E & Hv & Hs' & Hc & Hg').
  eexists. split; [exact E|]. split; [|apply (only_insert _ _ ev); [done|done|left]].
  assert (enqueue (view <$> h) e (concat bs) = e :: concat bs) as ->.
  { apply (enqueue_app _ _ []); [set_solver|]. by rewrite Ke. }
  exists bs'. rewrite (view_insert _ _ _ _ He Hv). split_and!; [done..|]. by constructor.
Qed.

Lemma insert_later h p b bs e ev pv :
  seg h (Some p) ((p :: b) :: bs) None → grouped (view <$> h) ((p :: b) :: bs) →
  NoDup (concat ((p :: b) :: bs)) → h !! e = Some ev → e ∉ concat ((p :: b) :: bs) →
  h !! p = Some pv → klt (ev_key pv) (ev_key ev) →
  ∃ h', (pc ← find_bin (S (size h)) ev p (nextBin pv) h;
         h ← insertBefore e pc.2 h;
         h ← upd h pc.1 (λ x, x <| nextBin := Some e |>);
         Ok (Some p, h)) = Ok (Some p, h') ∧
    chain h' (Some p) (enqueue (view <$> h) e (concat ((p :: b) :: bs))) ∧
    only (e :: concat ((p :: b) :: bs)) h h'.
Proof.
  intros Hs Hg Hn He Hni Hp Hlt. pose proof (kof_view _ _ _ He) as Ke.
  pose proof (kof_view _ _ _ Hp) as Kp. pose proof (seg_length _ _ _ _ Hs Hn) as Hlen. cbn in Hlen.
  inversion Hs as [|? pv' ? ? ? Hp' Hb Hbs]; subst. simplify_eq. pose proof Hg as (Hg1 & _ & Hg3).
  destruct (find_bin_spec h ev (S (size h)) p _ _ Hbs Hg3) as (bs1 & bs2 & -> & E & H1 & H2); [lia|].
  rewrite E. cbn [mbind res_bind fst snd]. rewrite app_comm_cons in Hs, Hg, Hn, Hni |- *.
  apply seg_app in Hs as (m & Hs1 & Hs2). pose proof (seg_top _ _ _ Hs2) as ->.
  apply grouped_app in Hg as (G1 & G2 & G12).
  rewrite concat_app in Hn, Hni |- *. pose proof Hn as (N1 & N12 & N2)%NoDup_app.
  destruct (insertBefore_spec h e ev bs2) as (ev' & bs' & -> & Hv & Hs' & Hc & Hg'); [done|set_solver|done..|].
  cbn [mbind res_bind].
  assert (seg h (nextBin pv) bs1 (top bs2)) as Hbs1 by (by inversion Hs1; simplify_eq).
  destruct (last_top_split _ _ _ _ p b Hbs1) as (bs0 & b' & E0). rewrite E0 in *.
  assert (∀ y, y ∈ concat (bs0 ++ [last_top p bs1 :: b']) → klt (kof (view <$> h) y) (ev_key ev)) as Hall.
  { rewrite <-E0. intros y [->|[Hy|Hy]%elem_of_app]%elem_of_cons; [by rewrite Kp|by rewrite Hg1, Kp|eauto]. }
  rewrite enqueue_app by (by rewrite Ke).
  destruct (chain_behind h (<[e:=ev']> h) (Some p) bs0 (last_top p bs1) b' (top bs2) [e] (Some e) bs')
    as (h' & -> & Hch & Ho); [done..|apply (only_insert _ _ ev); [done|done|left]|set_solver|done|done| | | |].
  - rewrite Hc. constructor; [set_solver|done].
  - rewrite Hc. intros y [->|Hy]%elem_of_cons Hy'; [set_solver|by apply (N12 y)].
  - rewrite Hc. intros y z Hy [->|Hz]%elem_of_cons; [rewrite Ke; eauto|eauto].
  - eexists. split; [done|]. rewrite <-Hc. split; [done|]. eapply only_mono, Ho. set_solver.
Qed.

(** The event is placed as in the sorted list. *)
Lemma insert_spec h o l e ev :
  chain h o l → h !! e = Some ev → e ∉ l →
  ∃ o' h', insert e o h = Ok (o', h') ∧ chain h' o' (enqueue (view <$> h) e l) ∧
    only (e :: l) h h'.
Proof.
  intros (bs & Hs & Hg & <- & Hn) He Hni. pose proof (seg_top _ _ _ Hs) as ->.
  unfold insert. rewrite (get_ok _ _ _ He). cbn [mbind res_bind].
  destruct bs as [|[|p b] bs]; [|by inversion Hs|]; cbn [top concat app hd_error] in *.
  { destruct (insert_front h [] e ev) as (h' & E & Hh); [constructor|done..|set_solver|].
    cbn [top concat app hd_error] in E. rewrite E. cbn [mbind res_bind]. eauto. }
  inversion Hs as [|? pv ? ? ? Hp Hb Hbs]; subst. rewrite (get_ok _ _ _ Hp). cbn [mbind res_bind].
  pose proof (kof_view _ _ _ Hp) as Kp. destruct (le_ev ev pv) eqn:E.
  - apply le_ev_nlt in E. destruct (insert_front h ((p :: b) :: bs) e ev) as (h' & E' & Hh); [done..| |].
    { destruct Hg as (Hg1 & Hg2 & _). intros y [->|[Hy|Hy]%elem_of_app]%elem_of_cons;
        [by rewrite Kp|by rewrite Hg1, Kp|]. specialize (Hg2 y Hy). rewrite Kp in Hg2. unfold klt in *. lia. }
    cbn [top concat app hd_error] in E'. rewrite E'. cbn [mbind res_bind]. eauto.
  - apply le_ev_lt in E. destruct (insert_later h p b bs e ev pv) as (h' & E' & Hh); [done..|].
    exists (Some p), h'. split; [exact E'|exact Hh].
Qed.

(** ** Removal *)

Abbreviation without e l := (filter (λ x : positive, x ≠ e) l).

Lemma without_id (e : ptr) (l : list ptr) : e ∉ l → without e l = l.
Proof.
  induction l as [|x l IH]; [done|]. intros H. rewrite filter_cons_True by set_solver.
  rewrite IH; [done|set_solver].
Qed.

Lemma find_item_spec h fuel e curr cv b :
  h !! curr = Some cv → bin h (nextInBin cv) b → NoDup (curr :: b) → e ∈ b → (length b < fuel)%nat →
  ∃ c v ee, find_item fuel e curr (nextInBin cv) h = Ok c ∧ h !! c = Some v ∧ h !! e = Some ee ∧
    c ∈ curr :: b ∧
    bin (<[c := v <| nextInBin := nextInBin ee |>]> h) (Some curr) (curr :: without e b).
Proof.
  revert curr cv b. induction fuel as [|fuel IH]; intros curr cv b Hc Hb Hn He Hf; [lia|].
  inversion Hb as [E1 E2|n nv b' Hnv Hb' E1 E2]; subst; [set_solver|]. cbn.
  apply NoDup_cons in Hn as [Hn1 Hn2]. destruct (decide (e = n)) as [->|Hne].
  - apply NoDup_cons in Hn2 as [Hn3 _]. eexists curr, cv, nv. split_and!; [done..|left|].
    rewrite decide_False by naive_solver. rewrite without_id by done.
    econstructor; [apply lookup_insert_eq|]. apply bin_insert; [set_solver|done].
  - rewrite (get_ok _ _ _ Hnv). cbn [mbind res_bind] in *. cbn in Hf.
    destruct (IH n nv b') as (c & v & ee & E & Hv & Hee & Hin & Hbin); [done..|set_solver|lia|].
    exists c, v, ee. split_and!; [done..|by right|]. rewrite decide_True by done.
    econstructor; [rewrite lookup_insert_ne; [done|set_solver]|by rewrite <-E1].
Qed.

Lemma find_item_missing h fuel e curr next b :
  bin h next b → e ∉ b → (length b < fuel)%nat →
  find_item fuel e curr next h = Fault (Panic "event not found!").
Proof.
  revert curr next b. induction fuel as [|fuel IH]; intros curr next b Hb He Hf; [lia|].
  inversion Hb as [|n nv b' Hnv Hb']; subst; [done|]. cbn. rewrite decide_False by set_solver.
  rewrite (get_ok _ _ _ Hnv). cbn [mbind res_bind length] in *. eapply IH; [done|set_solver|lia].
Qed.

(** The bin at the front of the segment, without the event. *)
Lemma removeItem_spec h x b bs e :
  seg h (Some x) ((x :: b) :: bs) None → grouped (view <$> h) ((x :: b) :: bs) →
  NoDup (concat ((x :: b) :: bs)) → e ∈ x :: b →
  ∃ o' h' bs', removeItem e x h = Ok (o', h') ∧ seg h' o' bs' None ∧
    concat bs' = without e (x :: b) ++ concat bs ∧ grouped (view <$> h) bs' ∧ only (x :: b) h h'.
Proof.
  intros Hs Hg Hn He. inversion Hs as [|? xv ? ? ? Hx Hb Hbs]; subst. unfold removeItem.
  rewrite (get_ok _ _ _ Hx). cbn [mbind res_bind]. destruct Hg as (Hg1 & Hg2 & Hg3).
  cbn in Hn. apply NoDup_cons in Hn as [Hn1 (N1 & N12 & N2)%NoDup_app]. destruct (decide (e = x)) as [->|Hne].
  - rewrite filter_cons_False, without_id by (naive_solver || set_solver).
    inversion Hb as [E1 E2|n nv b' Hnv Hb' E1 E2]; subst.
    { exists (nextBin xv), h, bs. split_and!; [done..|]. split; [done|]. done. }
    rewrite (upd_ok _ _ _ _ Hnv). cbn [mbind res_bind]. eexists _, _, ((n :: b') :: bs).
    split; [done|]. apply NoDup_cons in N1 as [N1 _]. split_and!; [|done| |].
    + econstructor; [apply lookup_insert_eq|by apply bin_insert|]. apply seg_insert; [|done].
      apply N12. left.
    + cbn [grouped]. rewrite (Hg1 n) by left. split_and!; [|done..]. intros y Hy. apply Hg1. by right.
    + apply (only_insert _ _ nv); [done|done|]. right. left.
  - apply elem_of_cons in He as [->|He]; [done|]. rewrite filter_cons_True by naive_solver.
    assert (NoDup (x :: b)) as Hn. { constructor; [set_solver|done]. }
    assert (length b < S (size h))%nat as Hl by (pose proof (bin_length _ _ _ Hb N1); lia).
    destruct (find_item_spec h (S (size h)) e x xv b) as (c & v & ee & E & Hv & Hee & Hin & Hbin); [done..|].
    rewrite E. cbn [mbind res_bind]. rewrite (get_ok _ _ _ Hee). cbn [mbind res_bind].
    rewrite (upd_ok _ _ _ _ Hv). cbn [mbind res_bind]. eexists _, _, ((x :: without e b) :: bs).
    assert (c ∉ concat bs) as Hcb.
    { apply elem_of_cons in Hin as [->|Hin]; [set_solver|by apply N12]. }
    split_and!; [done| |done| |by apply (only_insert _ _ v)].
    + inversion Hbin as [|? xv' ? Hx' Hb']; subst. econstructor; [done..|].
      replace (nextBin xv') with (nextBin xv); [by apply seg_insert|].
      destruct (decide (c = x)) as [->|]; [rewrite lookup_insert_eq in Hx'|rewrite lookup_insert_ne in Hx' by done];
        by simplify_eq.
    + split_and!; [|done..]. intros y Hy. apply Hg1. apply list_elem_of_filter in Hy. tauto.
Qed.

Lemma removeItem_missing h x b e xv :
  h !! x = Some xv → bin h (nextInBin xv) b → NoDup b → e ∉ x :: b →
  removeItem e x h = Fault (Panic "event not found!").
Proof.
  intros Hx Hb Hn He. unfold removeItem. rewrite (get_ok _ _ _ Hx). cbn [mbind res_bind].
  rewrite decide_False by set_solver.
  rewrite (find_item_missing _ _ _ _ _ b); [done|done|set_solver|].
  pose proof (bin_length _ _ _ Hb Hn). lia.
Qed.

(** The event is in the first bin if it has the key of that bin. *)
Lemma in_first_bin V x b bs e :
  grouped V ((x :: b) :: bs) → kof V x = kof V e → e ∈ concat ((x :: b) :: bs) → e ∈ x :: b.
Proof.
  intros (_ & Hg & _) K. cbn. intros [->|[He|He]%elem_of_app]%elem_of_cons; [left|by right|].
  specialize (Hg e He). rewrite K in Hg. by apply klt_irrefl in Hg.
Qed.

Lemma without_app_r (e : ptr) (l1 l2 : list ptr) : e ∉ l2 → without e (l1 ++ l2) = without e l1 ++ l2.
Proof. intros H. by rewrite filter_app, (without_id e l2). Qed.
Lemma without_app_l (e : ptr) (l1 l2 : list ptr) : e ∉ l1 → without e (l1 ++ l2) = l1 ++ without e l2.
Proof. intros H. by rewrite filter_app, (without_id e l1). Qed.

Lemma without_nodup (e : ptr) (l : list ptr) : NoDup l → NoDup (without e l).
Proof. apply NoDup_filter. Qed.
#[local] Hint Resolve without_nodup : core.

(** The first bin has the key of the event. *)
Lemma remove_first h x b bs e ev :
  seg h (Some x) ((x :: b) :: bs) None → grouped (view <$> h) ((x :: b) :: bs) →
  NoDup (concat ((x :: b) :: bs)) → h !! e = Some ev → kof (view <$> h) x = ev_key ev →
  let l := concat ((x :: b) :: bs) in
  if decide (e ∈ l)
  then ∃ o' h', removeItem e x h = Ok (o', h') ∧ chain h' o' (without e l) ∧ only (x :: b) h h'
  else removeItem e x h = Fault (Panic "event not found!").
Proof.
  intros Hs Hg Hn He K l. rewrite <-(kof_view _ _ _ He) in K. case_decide as Hin.
  - pose proof (in_first_bin _ _ _ _ _ Hg K Hin) as Hb.
    destruct (removeItem_spec h x b bs e) as (o' & h' & bs' & E & Hs' & Hc & Hg' & Ho); [done..|].
    exists o', h'. split_and!; [done| |done]. exists bs'. rewrite (proj1 Ho). split_and!; [done..| |auto].
    rewrite Hc. subst l. change (concat ((x :: b) :: bs)) with ((x :: b) ++ concat bs) in *.
    rewrite without_app_r; [done|]. apply NoDup_app in Hn as (_ & Hd & _). by apply Hd.
  - inversion Hs as [|? xv ? ? ? Hx Hb Hbs]; subst. cbn in Hn. apply NoDup_cons in Hn as [_ (Hn & _ & _)%NoDup_app].
    apply (removeItem_missing _ _ b _ xv); [done..|]. subst l. cbn in Hin. set_solver.
Qed.

Lemma remove_later h p b bs e ev pv :
  seg h (Some p) ((p :: b) :: bs) None → grouped (view <$> h) ((p :: b) :: bs) →
  NoDup (concat ((p :: b) :: bs)) → h !! e = Some ev → h !! p = Some pv → ev_key pv ≠ ev_key ev →
  let l := concat ((p :: b) :: bs) in
  let rest :=
    pc ← find_bin (S (size h)) ev p (nextBin pv) h;
    match pc.2 with
    | None => Fault (Panic "event not found!")
    | Some c =>
        cv ← get h c;
        if negb (eq_ev cv ev) then Fault (Panic "event not found!")
        else
          th ← removeItem e c h;
          h ← upd th.2 pc.1 (λ x, x <| nextBin := th.1 |>);
          Ok (Some p, h)
    end in
  if decide (e ∈ l)
  then ∃ h', rest = Ok (Some p, h') ∧ chain h' (Some p) (without e l) ∧ only l h h'
  else rest = Fault (Panic "event not found!").
Proof.
  intros Hs Hg Hn He Hp Hne l rest. pose proof (kof_view _ _ _ He) as Ke.
  pose proof (kof_view _ _ _ Hp) as Kp. pose proof (seg_length _ _ _ _ Hs Hn) as Hlen. cbn in Hlen.
  inversion Hs as [|? pv' ? ? ? Hp' Hb Hbs]; subst l. simplify_eq. pose proof Hg as (Hg1 & _ & Hg3).
  destruct (find_bin_spec h ev (S (size h)) p _ _ Hbs Hg3) as (bs1 & bs2 & -> & E & H1 & H2); [lia|].
  unfold rest. rewrite E. cbn [mbind res_bind fst snd]. clear rest E.
  assert (e ∉ concat ((p :: b) :: bs1)) as Hn1.
  { cbn. intros [->|[Hy|Hy]%elem_of_app]%elem_of_cons; [by simplify_eq|rewrite (Hg1 e Hy) in Ke; congruence|].
    specialize (H1 e Hy). rewrite Ke in H1. by apply klt_irrefl in H1. }
  rewrite app_comm_cons in Hs, Hg, Hn |- *. rewrite concat_app in Hn |- *.
  apply seg_app in Hs as (m & Hs1 & Hs2). pose proof (seg_top _ _ _ Hs2) as ->.
  apply grouped_app in Hg as (G1 & G2 & G12). pose proof Hn as (N1 & N12 & N2)%NoDup_app.
  rewrite without_app_l by done.
  rewrite (decide_ext (e ∈ concat ((p :: b) :: bs1) ++ concat bs2) (e ∈ concat bs2)) by (rewrite elem_of_app; tauto).
  destruct bs2 as [|[|x b2] bs3]; [by rewrite decide_False by set_solver|by inversion Hs2|].
  change (top ((x :: b2) :: bs3)) with (Some x) in *. cbv iota beta.
  inversion Hs2 as [|? xv ? ? ? Hx Hxb Hxbs]; subst. rewrite (get_ok _ _ _ Hx). cbn [mbind res_bind].
  pose proof (kof_view _ _ _ Hx) as Kx. destruct (eq_ev xv ev) eqn:E; cbn [negb].
  2:{ rewrite decide_False; [done|]. intros Hin. apply not_true_iff_false in E. apply E, eq_ev_key.
      destruct G2 as (G21 & G22 & _). cbn in Hin.
      apply elem_of_cons in Hin as [->|[Hy|Hy]%elem_of_app]; [by simplify_eq|rewrite (G21 e Hy) in Ke; congruence|].
      specialize (G22 e Hy). rewrite Ke in G22. exfalso. apply (H2 x); [left|done]. }
  apply eq_ev_key in E. rewrite <-Kx in E.
  pose proof (remove_first h x b2 bs3 e ev Hs2 G2 N2 He E) as Hr. cbv zeta in Hr.
  case_decide as Hin; [|by rewrite Hr].
  destruct Hr as (o' & h' & -> & (bs' & Hs' & Hg' & Hc & Hn') & Ho). cbn [mbind res_bind fst snd].
  assert (seg h (nextBin pv) bs1 (Some x)) as Hbs1 by (by inversion Hs1; simplify_eq).
  destruct (last_top_split _ _ _ _ p b Hbs1) as (bs0 & b' & E0). rewrite E0 in *.
  rewrite (proj1 Ho) in Hg'. rewrite <-Hc in Hn'.
  assert (∀ y, y ∈ concat bs' → y ∈ concat ((x :: b2) :: bs3)) as Hsub.
  { rewrite Hc. intros y Hy. apply list_elem_of_filter in Hy. tauto. }
  destruct (chain_behind h h' (Some p) bs0 (last_top p bs1) b' (Some x) (x :: b2) o' bs')
    as (h'' & -> & Hch & Ho''); [done..| |done|done|done| | |].
  - intros y Hy Hy'. apply (N12 y Hy'). cbn. set_solver.
  - intros y Hy Hy'. by apply (N12 y), Hsub.
  - intros y z Hy Hz. by apply G12; [|apply Hsub].
  - exists h''. rewrite <-Hc. split_and!; [done..|]. eapply only_mono, Ho''. cbn. set_solver.
Qed.

(** A pending event is unlinked; one that is not pending is not found. *)
Lemma remove_spec h o l this e ev :
  chain h o l → h !! e = Some ev → queue ev = Some this →
  if decide (e ∈ l)
  then ∃ o' h', remove this e o h = Ok (o', h') ∧ chain h' o' (without e l) ∧ only l h h'
  else remove this e o h = Fault (Panic "event not found!").
Proof.
  intros (bs & Hs & Hg & <- & Hn) He Hq. pose proof (seg_top _ _ _ Hs) as ->.
  unfold remove. destruct bs as [|[|p b] bs]; [|by inversion Hs|].
  { cbn [top concat hd_error]. rewrite decide_False; [done|set_solver]. }
  change (top ((p :: b) :: bs)) with (Some p) in *. cbv iota beta.
  inversion Hs as [|? pv ? ? ? Hp Hb Hbs]; subst.
  rewrite (get_ok _ _ _ He). cbn [mbind res_bind]. rewrite assert_bind by (by apply bool_decide_eq_true).
  rewrite (get_ok _ _ _ Hp). cbn [mbind res_bind]. pose proof (kof_view _ _ _ Hp) as Kp.
  destruct (eq_ev pv ev) eqn:E.
  - apply eq_ev_key in E. rewrite <-Kp in E. pose proof (remove_first h p b bs e ev Hs Hg Hn He E) as Hr.
    cbv zeta in Hr. case_decide; [|done]. destruct Hr as (o' & h' & Hr & Hc & Ho).
    exists o', h'. split_and!; [done..|]. eapply only_mono, Ho. cbn. set_solver.
  - assert (ev_key pv ≠ ev_key ev) as Hne by (rewrite <-eq_ev_key; congruence).
    pose proof (remove_later h p b bs e ev pv Hs Hg Hn He Hp Hne) as Hr. cbv zeta in Hr.
    case_decide; [|done]. destruct Hr as (h' & Hr & Hc & Ho). by exists (Some p), h'.
Qed.

(** ** Frames *)

Lemma grouped_ext V V' bs :
  (∀ x, x ∈ concat bs → kof V' x = kof V x) → grouped V bs → grouped V' bs.
Proof.
  induction bs as [|[|x b] bs IH]; cbn; [done..|]. intros Hk (H1 & H2 & H3).
  setoid_rewrite elem_of_cons in Hk. setoid_rewrite elem_of_app in Hk. rewrite (Hk x) by auto. split_and!.
  - intros y Hy. rewrite (Hk y) by auto. auto.
  - intros y Hy. rewrite (Hk y) by auto. auto.
  - apply IH; auto.
Qed.

Lemma enqueue_ext V V' e l :
  (∀ x, x ∈ e :: l → kof V' x = kof V x) → enqueue V' e l = enqueue V e l.
Proof.
  intros H. assert (kof V' e = kof V e) as He by (apply H; left).
  induction l as [|x l IH]; cbn; [done|]. rewrite (H x), He by set_solver.
  case_decide; [|done]. f_equal. apply IH. set_solver.
Qed.

(** A chain only depends on the pointers and the keys of its events. *)
Definition shape (e : Event) := (links e, ev_key e).
Lemma chain_frame h h' o l :
  (∀ x, x ∈ l → shape <$> h' !! x = shape <$> h !! x) → chain h o l → chain h' o l.
Proof.
  intros Hf (bs & Hs & Hg & <- & Hn). exists bs. split_and!; [| |done..].
  - eapply seg_frame, Hs. intros x Hx. specialize (Hf x Hx).
    destruct (h !! x), (h' !! x); cbn in *; unfold shape in *; congruence.
  - eapply grouped_ext, Hg. intros x Hx. specialize (Hf x Hx). unfold kof. rewrite !lookup_fmap.
    destruct (h !! x) as [a|], (h' !! x) as [b|]; cbn in *; try done. change (ev_key b = ev_key a). unfold shape in *; congruence.
Qed.

Lemma chain_insert h o l x e' : x ∉ l → chain h o l → chain (<[x := e']> h) o l.
Proof. intros Hx. apply chain_frame. intros y Hy. rewrite lookup_insert_ne; [done|set_solver]. Qed.
Lemma chain_shape h o l x e e' :
  h !! x = Some e → shape e' = shape e → chain h o l → chain (<[x := e']> h) o l.
Proof.
  intros Hx E. apply chain_frame. intros y _. destruct (decide (x = y)) as [<-|].
  - rewrite lookup_insert_eq, Hx. cbn. by rewrite E.
  - by rewrite lookup_insert_ne.
Qed.

Lemma chain_lookup h o l x : chain h o l → x ∈ l → is_Some (h !! x).
Proof. intros (bs & Hs & _ & <- & _). by apply seg_lookup with o None. Qed.
Lemma chain_head h o l : chain h o l → o = hd_error l.
Proof. intros (bs & Hs & _ & <- & _). by apply seg_top in Hs. Qed.
Lemma chain_nodup h o l : chain h o l → NoDup l.
Proof. by intros (bs & _ & _ & _ & Hn). Qed.

(** The head comes before all others. *)
Lemma chain_min h o l x y :
  chain h o (x :: l) → y ∈ l → ¬ klt (kof (view <$> h) y) (kof (view <$> h) x).
Proof.
  intros (bs & Hs & Hg & E & _) Hy. destruct bs as [|[|z b] bs]; [done|by inversion Hs|].
  cbn in E. simplify_eq. destruct Hg as (H1 & H2 & _).
  apply elem_of_app in Hy as [Hy|Hy]; [rewrite (H1 y Hy); apply klt_irrefl|].
  specialize (H2 y Hy). unfold klt in *. lia.
Qed.

Lemma chain_nil h o : chain h o [] ↔ o = None.
Proof.
  split; [by intros H%chain_head|]. intros ->. exists []. split_and!; [constructor|done|done|constructor].
Qed.

(** Unlinking the head. *)
Lemma pop_spec h o x l :
  chain h o (x :: l) →
  ∃ o' h', removeItem x x h = Ok (o', h') ∧ chain h' o' l ∧ only (x :: l) h h'.
Proof.
  intros Hc. destruct (chain_lookup _ _ _ x Hc) as [e He]; [left|].
  pose proof Hc as (bs & Hs & Hg & E & Hn). destruct bs as [|[|z b] bs]; [done|by inversion Hs|].
  pose proof (seg_top _ _ _ Hs) as ->. rewrite <-E in *. cbn in E. injection E as -> E.
  pose proof (remove_first h x b bs x e Hs Hg Hn He (kof_view _ _ _ He)) as Hr. cbv zeta in Hr.
  rewrite decide_True in Hr by (cbn; left). destruct Hr as (o' & h' & Hr & Hch & Ho).
  exists o', h'. split_and!; [done| |eapply only_mono, Ho; cbn; set_solver].
  cbn [concat app] in Hch, Hn. apply NoDup_cons in Hn as [Hn _].
  rewrite filter_cons_False, without_id in Hch by (naive_solver || done). by rewrite <-E.
Qed.

End EventQueueProofs.
