(* ===== verification/EventQueueSpec.v ===== *)
(** * The event queue refines a sorted list

    The specification of the event queue: each queue is one list of pending
    events, sorted by tick and priority, and events have no pointers.  Every call
    of a handler, every serviced event and the simulation loop behave as in the
    specification, with the same results and the same failures. *)

From S2P Require Import Prelude EventQueue EventQueueProofs.
Import EventQueue EventQueueProofs.

Module EventQueueSpec.

(** ** The specification *)

Record AQueue := mkAQueue { pending : list ptr; a_tick : Tick; a_async : list ptr }.
#[export] Instance eta_AQueue : Eta AQueue := λ q, mkAQueue (pending q) (a_tick q) (a_async q).
Record AWorld := mkAWorld
  { a_events : gmap positive View;
    a_queues : gmap positive AQueue;
    a_par : bool;
    a_cur : qid }.
#[export] Instance eta_AWorld : Eta AWorld := λ a,
  mkAWorld (a_events a) (a_queues a) (a_par a) (a_cur a).
#[export] Instance eta_View : Eta View := λ v,
  mkView (v_when v) (v_priority v) (v_flags v) (v_queue v).

Definition a_get (a : AWorld) (e : ptr) : res View :=
  match a_events a !! e with Some v => Ok v | None => Fault (Panic "use of a deleted event") end.
Definition a_queue (a : AWorld) (q : qid) : res AQueue :=
  match a_queues a !! q with Some x => Ok x | None => Fault (Panic "no such queue") end.
Definition v_scheduled (v : View) : bool := isSet (v_flags v) Scheduled.
Definition v_initialized (v : View) : bool := Z.land (v_flags v) InitMask =? Initialized.

(** Event [e] becomes [v] and the queue changes by [f]. *)
Definition a_put (e : ptr) (v : View) (q : qid) (f : AQueue → AQueue) (a : AWorld) : AWorld :=
  a <| a_events ::= <[e := v]> |> <| a_queues ::= alter f q |>.
Definition a_flags (e : ptr) (f : Z → Z) (a : AWorld) : res AWorld :=
  v ← a_get a e; Ok (a <| a_events ::= <[e := v <| v_flags ::= f |>]> |>).
Definition a_delete (e : ptr) (a : AWorld) : res AWorld :=
  v ← a_get a e;
  assert (negb (v_scheduled v)) "!scheduled()";;
  Ok (a <| a_events ::= delete e |>).

Definition a_schedule (this : qid) (e : ptr) (t : Tick) (global : bool) (a : AWorld) : res AWorld :=
  q ← a_queue a this;
  v ← a_get a e;
  assert (a_tick q <=? t) "when >= getCurTick()";;
  assert (negb (v_scheduled v)) "!event->scheduled()";;
  assert (v_initialized v) "event->initialized()";;
  let v := mkView t (v_priority v) (set Scheduled (v_flags v)) (Some this) in
  Ok (a_put e v this (λ q,
        if a_par a && (negb (bool_decide (this = a_cur a)) || global)
        then q <| a_async ::= λ l, l ++ [e] |>
        else q <| pending ::= enqueue (<[e := v]> (a_events a)) e |>) a).

(** The event must be pending on the queue. *)
Definition a_find (this : qid) (e : ptr) (v : View) (l : list ptr) : res unit :=
  if decide (l = []) then Fault (Panic "event not found!")
  else
    assert (bool_decide (v_queue v = Some this)) "event->queue == this";;
    if decide (e ∈ l) then Ok tt else Fault (Panic "event not found!").

Definition a_deschedule (this : qid) (e : ptr) (a : AWorld) : res AWorld :=
  v ← a_get a e;
  assert (v_scheduled v) "event->scheduled()";;
  assert (v_initialized v) "event->initialized()";;
  assert (negb (a_par a) || bool_decide (this = a_cur a)) "!inParallelMode || this == curEventQueue()";;
  q ← a_queue a this;
  a_find this e v (pending q);;
  let v := v <| v_flags ::= λ f, clear Scheduled (clear Squashed f) |> in
  let a := a_put e v this (λ q, q <| pending := without e (pending q) |>) a in
  Ok (if isSet (v_flags v) AutoDelete then a <| a_events ::= delete e |> else a).

Definition a_reschedule (this : qid) (e : ptr) (t : Tick) (always : bool) (a : AWorld) : res AWorld :=
  q ← a_queue a this;
  v ← a_get a e;
  assert (a_tick q <=? t) "when >= getCurTick()";;
  assert (always || v_scheduled v) "always || event->scheduled()";;
  assert (v_initialized v) "event->initialized()";;
  assert (negb (a_par a) || bool_decide (this = a_cur a)) "!inParallelMode || this == curEventQueue()";;
  (if v_scheduled v then a_find this e v (pending q) else Ok tt);;
  let v := mkView t (v_priority v) (set Scheduled (clear Squashed (v_flags v))) (Some this) in
  Ok (a_put e v this (λ q,
        q <| pending := enqueue (<[e := v]> (a_events a)) e (without e (pending q)) |>) a).

Definition a_construct (e : ptr) (pri f : Z) (a : AWorld) : res AWorld :=
  ev ← new_event pri f;
  match a_events a !! e with
  | Some _ => Fault (Panic "address in use")
  | None => Ok (a <| a_events ::= <[e := view ev]> |>)
  end.

Definition a_call (a : AWorld) (c : call) : res AWorld :=
  match c with
  | New e p f => a_construct e p f a
  | Delete e => a_delete e a
  | Schedule q e t g => a_schedule q e t g a
  | Deschedule q e => a_deschedule q e a
  | Reschedule q e t always => a_reschedule q e t always a
  | Squash e => a_flags e (set Squashed) a
  | SetFlags e f =>
      assert (noneSet f (Z.lnot PublicWrite)) "_flags.noneSet(~PublicWrite)";; a_flags e (set f) a
  | ClearFlags e f =>
      assert (noneSet f (Z.lnot PublicWrite)) "_flags.noneSet(~PublicWrite)";; a_flags e (clear f) a
  end.

(** The events of other threads are inserted one by one. *)
Definition a_handleAsync (this : qid) (a : AWorld) : res AWorld :=
  assert (bool_decide (this = a_cur a)) "this == curEventQueue()";;
  q ← a_queue a this;
  Ok (a <| a_queues ::= <[this := q <| pending := foldl (λ l e, enqueue (a_events a) e l) (pending q) (a_async q) |>
                                    <| a_async := [] |>]> |>).

Section run.
Context {St : Type}.
Variable process : ptr → Tick → gmap positive View → St → list call * St.

Definition a_process (this : qid) (e : ptr) (s : St) (a : AWorld) : res (AWorld * St) :=
  q ← a_queue a this;
  let r := process e (a_tick q) (a_events a) s in
  a ← foldM a_call a r.1; Ok (a, r.2).

Definition a_auto_delete (e : ptr) (a : AWorld) : res AWorld :=
  v ← a_get a e;
  Ok (if isSet (v_flags v) AutoDelete && negb (v_scheduled v)
      then a <| a_events ::= delete e |> else a).

(** The first pending event is taken off the list and processed. *)
Definition a_serviceOne (this : qid) (ws : AWorld * St) : res (option ptr * (AWorld * St)) :=
  q ← a_queue ws.1 this;
  match pending q with
  | [] => Fault (Panic "head is null")
  | e :: l =>
      v ← a_get ws.1 e;
      let v := v <| v_flags ::= clear Scheduled |> in
      if isSet (v_flags v) Squashed then
        a ← a_auto_delete e (a_put e (v <| v_flags ::= clear Squashed |>) this (λ q, q <| pending := l |>) ws.1);
        Ok (None, (a, ws.2))
      else
        ws ← a_process this e ws.2 (a_put e v this (λ q, q <| pending := l |> <| a_tick := v_when v |>) ws.1);
        v ← a_get ws.1 e;
        if isSet (v_flags v) IsExitEvent then
          assert (negb (isSet (v_flags v) AutoDelete) || negb (isSet (v_flags v) IsMainQueue))
            "!event->flags.isSet(Event::AutoDelete) || !event->flags.isSet(Event::IsMainQueue)";;
          Ok (Some e, ws)
        else a ← a_auto_delete e ws.1; Ok (None, (a, ws.2))
  end.

Definition a_sim_step (this : qid) (poll : option (list call * bool)) (ws : AWorld * St)
    : res (option (option ptr) * (AWorld * St)) :=
  q ← a_queue ws.1 this;
  match pending q with
  | [] => Fault (AssertFail "!eventq->empty()")
  | e :: _ =>
      v ← a_get ws.1 e;
      c ← a_queue ws.1 (a_cur ws.1);
      assert (a_tick c <=? v_when v) "event scheduled in the past";;
      a ← foldM a_call ws.1 (default ([], false) poll).1;
      if (default ([], false) poll).2 then Ok (Some None, (a, ws.2))
      else
        r ← a_serviceOne this (a, ws.2);
        Ok (match r.1 with Some e => Some (Some e) | None => None end, r.2)
  end.
Fixpoint a_sim_loop (fuel : nat) (this : qid) (polls : nat → option (list call * bool))
    (ws : AWorld * St) : res (option (option ptr) * (AWorld * St)) :=
  match fuel with
  | O => Ok (None, ws)
  | S fuel =>
      r ← a_sim_step this (polls fuel) ws;
      match r.1 with Some e => Ok (Some e, r.2) | None => a_sim_loop fuel this polls r.2 end
  end.
Definition a_doSimLoop (fuel : nat) (this : qid) (polls : nat → option (list call * bool))
    (ws : AWorld * St) : res (option (option ptr) * (AWorld * St)) :=
  a ← a_handleAsync this (ws.1 <| a_cur := this |>);
  a_sim_loop fuel this polls (a, ws.2).
End run.

(** ** The relation *)

(** Pending events are flagged and know their queue, and flagged events are
    pending, once. *)
Record Inv (a : AWorld) : Prop :=
  { inv_listed q d e : a_queues a !! q = Some d → e ∈ pending d ++ a_async d →
      ∃ v, a_events a !! e = Some v ∧ v_queue v = Some q ∧ v_scheduled v = true;
    inv_once q d : a_queues a !! q = Some d → NoDup (pending d ++ a_async d);
    inv_flagged e v : a_events a !! e = Some v → v_scheduled v = true →
      ∃ q d, v_queue v = Some q ∧ a_queues a !! q = Some d ∧ e ∈ pending d ++ a_async d }.

Definition queue_rel (h : store) (c : Queue) (d : AQueue) : Prop :=
  curTick c = a_tick d ∧ async_queue c = a_async d ∧ chain h (head c) (pending d).

Record Rel (w : World) (a : AWorld) : Prop :=
  { rel_events : a_events a = view <$> events w;
    rel_par : a_par a = inParallelMode w;
    rel_cur : a_cur a = curEventQueue w;
    rel_queues q : option_Forall2 (queue_rel (events w)) (queues w !! q) (a_queues a !! q) }.

Definition R (w : World) (a : AWorld) : Prop := Rel w a ∧ Inv a.

(** Both succeed with related results or both fail in the same way. *)
Definition rres {A B} (P : A → B → Prop) (m : res A) (n : res B) : Prop :=
  match m, n with
  | Ok x, Ok y => P x y
  | Fault f, Fault g => f = g
  | _, _ => False
  end.

Lemma rres_bind {A B A' B'} (P : A → B → Prop) (Q : A' → B' → Prop) m n f g :
  rres P m n → (∀ x y, P x y → rres Q (f x) (g y)) → rres Q (m ≫= f) (n ≫= g).
Proof. destruct m, n; cbn; naive_solver. Qed.
Lemma rres_assert {A B} (Q : A → B → Prop) b c t (f : unit → res A) (g : unit → res B) :
  b = c → (b = true → rres Q (f tt) (g tt)) → rres Q (assert b t ≫= f) (assert c t ≫= g).
Proof. intros <-. destruct b; cbn; auto. Qed.
Lemma rres_mono {A B} (P Q : A → B → Prop) m n :
  rres P m n → (∀ x y, P x y → Q x y) → rres Q m n.
Proof. destruct m, n; cbn; auto. Qed.
Lemma rres_ok {A B} (P Q : A → B → Prop) m n :
  rres P m n → (∀ x y, m = Ok x → n = Ok y → P x y → Q x y) → rres Q m n.
Proof. destruct m, n; cbn; auto. Qed.

(** ** Primitive steps *)

(** The lists of different queues are disjoint. *)
Definition listed (a : AWorld) : Prop := ∀ q d x,
  a_queues a !! q = Some d → x ∈ pending d → ∃ v, a_events a !! x = Some v ∧ v_queue v = Some q.
(** Event [e] is on no list of a queue other than [q]. *)
Definition others (a : AWorld) (q : qid) (e : ptr) : Prop := ∀ q' d,
  q' ≠ q → a_queues a !! q' = Some d → e ∉ pending d.

Lemma inv_lists a : Inv a → listed a.
Proof.
  intros H q d x Hq Hx. destruct (inv_listed _ H q d x Hq) as (v & Hv & Hq' & _); [set_solver|]. eauto.
Qed.

(** An event that is not scheduled is on no list. *)
Lemma inv_unscheduled a e v q d :
  Inv a → a_events a !! e = Some v → v_scheduled v = false → a_queues a !! q = Some d →
  e ∉ pending d ++ a_async d.
Proof. intros H He Hv Hq Hin. destruct (inv_listed _ H q d e Hq Hin) as (v' & ? & _ & ?). congruence. Qed.
(** An event is on no list of a queue other than its own. *)
Lemma listed_others a e v q :
  listed a → a_events a !! e = Some v → v_queue v = Some q → others a q e.
Proof. intros H He Hq q' d Hne Hd Hin. destruct (H q' d e Hd Hin) as (v' & ? & ?). congruence. Qed.

Lemma get_rel w a e : Rel w a →
  rres (λ ev v, events w !! e = Some ev ∧ a_events a !! e = Some v ∧ v = view ev)
    (get (events w) e) (a_get a e).
Proof.
  intros H. unfold get, a_get. rewrite (rel_events _ _ H), lookup_fmap.
  destruct (events w !! e); cbn; auto.
Qed.
Lemma queue_get w a q : Rel w a →
  rres (λ c d, queues w !! q = Some c ∧ a_queues a !! q = Some d ∧ queue_rel (events w) c d)
    (get_queue w q) (a_queue a q).
Proof.
  intros H. unfold get_queue, a_queue. pose proof (rel_queues _ _ H q) as Hq.
  destruct Hq; cbn; auto.
Qed.

Lemma rel_queue w a q d :
  Rel w a → a_queues a !! q = Some d → ∃ c, queues w !! q = Some c ∧ queue_rel (events w) c d.
Proof.
  intros H Hd. pose proof (rel_queues _ _ H q) as Hq. rewrite Hd in Hq. inversion Hq; subst. eauto.
Qed.

Lemma rel_put w a q c d e v h' fc fd :
  Rel w a → listed a → others a q e → queues w !! q = Some c → a_queues a !! q = Some d →
  (∀ x, x ∉ e :: pending d → h' !! x = events w !! x) → view <$> h' = <[e := v]> (a_events a) →
  queue_rel h' (fc c) (fd d) →
  Rel (upd_queue q fc (w <| events := h' |>)) (a_put e v q fd a).
Proof.
  intros H Hl Ho Hc Hd Hh Hv Hq. destruct H as [H1 H2 H3 H4]. split; cbn; [done..|].
  intros q'. destruct (decide (q' = q)) as [->|Hne].
  - rewrite !lookup_alter_eq, Hc, Hd. by constructor.
  - rewrite !lookup_alter_ne by done. specialize (H4 q').
    destruct (a_queues a !! q') as [d'|] eqn:Hd'; inversion H4 as [c' d'' (Ht & Hs & Hch)|]; subst; constructor.
    split_and!; [done..|]. eapply chain_frame, Hch. intros x Hx. rewrite Hh; [done|].
    intros [->|Hin]%elem_of_cons; [by apply (Ho q' d')|].
    destruct (Hl q' d' x Hd' Hx) as (? & ? & ?), (Hl q d x Hd Hin) as (? & ? & ?). congruence.
Qed.

(** A change of flags. *)
Lemma rel_flags w a e ev f :
  Rel w a → events w !! e = Some ev →
  Rel (w <| events ::= <[e := ev <| flags ::= f |>]> |>)
      (a <| a_events ::= <[e := (view ev) <| v_flags ::= f |>]> |>).
Proof.
  intros [H1 H2 H3 H4] He. split; cbn; [by rewrite H1, fmap_insert|done..|].
  intros q. specialize (H4 q). destruct H4 as [c d (Ht & Hs & Hch)|]; constructor.
  split_and!; [done..|]. by apply chain_shape with ev.
Qed.

(** [upd_event] on an event of the store. *)
Lemma upd_event_ok w e ev f :
  events w !! e = Some ev → upd_event e f w = Ok (w <| events ::= <[e := f ev]> |>).
Proof. intros He. unfold upd_event. by rewrite (upd_ok _ _ _ _ He). Qed.
Lemma queue_ok w q c : queues w !! q = Some c → get_queue w q = Ok c.
Proof. unfold get_queue. by intros ->. Qed.

Lemma view_lookup (h : store) V e v : view <$> h = V → V !! e = Some v → ∃ ev, h !! e = Some ev ∧ view ev = v.
Proof. intros <-. rewrite lookup_fmap. intros (ev & ? & ?)%fmap_Some. eauto. Qed.

(** The event gets its time and its place, then flags [g]. *)
Lemma place_spec w a this c d e ev t g :
  Rel w a → listed a → others a this e → e ∉ pending d →
  queues w !! this = Some c → a_queues a !! this = Some d → events w !! e = Some ev →
  let v := mkView t (priority ev) (g (flags ev)) (Some this) in
  ∃ w1 w2 ev2, upd_event e (setWhen t this) w = Ok w1 ∧
    inParallelMode w1 = inParallelMode w ∧ curEventQueue w1 = curEventQueue w ∧
    q_insert this e w1 = Ok w2 ∧ events w2 !! e = Some ev2 ∧
    Rel (w2 <| events ::= <[e := ev2 <| flags ::= g |>]> |>)
      (a_put e v this (λ q, q <| pending ::= enqueue (<[e := v]> (a_events a)) e |>) a).
Proof.
  intros H Hl Ho Hni Hc Hd He v. rewrite (upd_event_ok _ _ _ _ He).
  pose proof (rel_queues _ _ H this) as Hq. rewrite Hc, Hd in Hq. inversion Hq as [? ? (Ht & Hs & Hch)|]; subst.
  set (h1 := <[e := setWhen t this ev]> (events w)).
  destruct (insert_spec h1 (head c) (pending d) e (setWhen t this ev)) as (o & h2 & E & Hch2 & V2 & F2);
    [by apply chain_insert|apply lookup_insert_eq|done|].
  assert (view <$> h1 = <[e := view (setWhen t this ev)]> (a_events a)) as V1.
  { unfold h1. by rewrite fmap_insert, (rel_events _ _ H). }
  destruct (view_lookup h2 _ e (view (setWhen t this ev)) V2) as (ev2 & He2 & Hv2).
  { rewrite V1. apply lookup_insert_eq. }
  exists (w <| events := h1 |>), (upd_queue this (λ x, x <| head := o |>) (w <| events := h2 |>)), ev2.
  split_and!; [done..| |done|].
  { unfold q_insert. erewrite queue_ok by exact Hc. cbn [mbind res_bind events set_field].
    unfold upd_queue. cbn [events queues inParallelMode curEventQueue set_field].
    change (events (w <| events := h1 |>)) with h1. by rewrite E. }
  change (Rel (upd_queue this (λ x, x <| head := o |>) (w <| events := <[e := ev2 <| flags ::= g |>]> h2 |>))
    (a_put e v this (λ q, q <| pending ::= enqueue (<[e := v]> (a_events a)) e |>) a)).
  eapply rel_put; [done..| | |split_and!; [done..|]].
  - intros x Hx. rewrite lookup_insert_ne by set_solver. rewrite F2 by done. apply lookup_insert_ne. set_solver.
  - rewrite fmap_insert, V2, V1, insert_insert_eq. f_equal. destruct ev2; unfold view in *. cbn in *. by simplify_eq.
  - cbn. rewrite (enqueue_ext (view <$> h1)).
    + eapply chain_shape; [done|done|]. exact Hch2.
    + intros x Hx. rewrite V1. unfold kof. destruct (decide (e = x)) as [->|]; [by rewrite !lookup_insert_eq|].
      by rewrite !lookup_insert_ne.
Qed.

Lemma upd_queue_put w h fc q : upd_queue q fc (w <| events := h |>) = (upd_queue q fc w) <| events := h |>.
Proof. done. Qed.

(** [remove] finds the event exactly when the specification does. *)
Lemma unplace_spec w a this c d e ev :
  Rel w a → listed a → queues w !! this = Some c → a_queues a !! this = Some d →
  events w !! e = Some ev →
  rres (λ w' _, ∃ ev', events w' !! e = Some ev' ∧ view ev' = view ev ∧
          inParallelMode w' = inParallelMode w ∧ curEventQueue w' = curEventQueue w ∧
          v_queue (view ev) = Some this ∧ e ∈ pending d ∧
          Rel w' (a_put e (view ev) this (λ q, q <| pending := without e (pending q) |>) a))
    (q_remove this e w) (a_find this e (view ev) (pending d)).
Proof.
  intros H Hl Hc Hd He. unfold q_remove, a_find. rewrite (queue_ok _ _ _ Hc). cbn [mbind res_bind].
  pose proof (rel_queues _ _ H this) as Hq. rewrite Hc, Hd in Hq. inversion Hq as [? ? (Ht & Hs & Hch)|]; subst.
  assert (a_events a !! e = Some (view ev)) as Ha by (by rewrite (rel_events _ _ H), lookup_fmap, He).
  destruct (decide (pending d = [])) as [E|Hne].
  { rewrite E in Hch. apply chain_nil in Hch as ->. done. }
  destruct (decide (queue ev = Some this)) as [Hqe|Hqe].
  2:{ rewrite (bool_decide_eq_false_2 (v_queue (view ev) = _)) by done. rewrite (chain_head _ _ _ Hch).
      destruct (pending d); [done|]. unfold remove. cbn [hd_error]. rewrite (get_ok _ _ _ He). cbn [mbind res_bind].
      rewrite bool_decide_eq_false_2 by done. done. }
  rewrite (bool_decide_eq_true_2 (v_queue (view ev) = _)) by done. cbn [assert mbind res_bind].
  pose proof (remove_spec _ _ _ this e ev Hch He Hqe) as Hr. case_decide as Hin; [|by rewrite Hr].
  destruct Hr as (o & h' & -> & Hch' & Hv & Hf). cbn [mbind res_bind rres fst snd].
  destruct (view_lookup h' _ e (view ev) Hv) as (ev' & He' & Hv'); [by rewrite lookup_fmap, He|].
  exists ev'. split_and!; [done..|]. eapply rel_put; [done|done|by eapply listed_others|done..| | |].
  - intros x Hx. apply Hf. set_solver.
  - by rewrite Hv, <-(rel_events _ _ H), insert_id.
  - by split_and!.
Qed.

Lemma pop_head_eq this w q e ev :
  queues w !! this = Some q → head q = Some e → events w !! e = Some ev →
  pop_head this w =
  (r ← removeItem e e (<[e := ev <| flags ::= clear Scheduled |>]> (events w));
   Ok (e, upd_queue this (λ x, x <| head := r.1 |>) (w <| events := r.2 |>))).
Proof.
  intros Hq Hh He. unfold pop_head. rewrite (queue_ok _ _ _ Hq). cbn [mbind res_bind]. rewrite Hh.
  rewrite (upd_event_ok _ _ _ _ He). cbn [mbind res_bind].
  generalize (ev <| flags ::= clear Scheduled |>) as ev1. intros ev1.
  set (h := <[e := ev1]> (events w)). assert (h !! e = Some ev1) as Heh by apply lookup_insert_eq.
  change (events (w <| events ::= <[e := ev1]> |>)) with h. unfold removeItem.
  rewrite (get_ok _ _ _ Heh). cbn [mbind res_bind]. rewrite decide_True by done.
  destruct (nextInBin ev1) as [n|]; [|done]. unfold upd_event.
  change (events (w <| events ::= <[e := ev1]> |>)) with h. by destruct (upd h n _).
Qed.

(** The head of the queue is the first pending event. *)
Lemma pop_rel w a this c d e l v fd :
  Rel w a → listed a → queues w !! this = Some c → a_queues a !! this = Some d →
  pending d = e :: l → a_events a !! e = Some v → a_tick (fd d) = a_tick d → a_async (fd d) = a_async d →
  pending (fd d) = l →
  ∃ w' ev', pop_head this w = Ok (e, w') ∧ events w' !! e = Some ev' ∧
    view ev' = v <| v_flags ::= clear Scheduled |> ∧
    Rel w' (a_put e (v <| v_flags ::= clear Scheduled |>) this fd a).
Proof.
  intros H Hl Hc Hd Hp Hv Hf1 Hf2 Hf3. pose proof (rel_queues _ _ H this) as Hq. rewrite Hc, Hd in Hq.
  inversion Hq as [? ? (Ht & Hs & Hch)|]; subst. rewrite (rel_events _ _ H) in Hv.
  destruct (view_lookup _ _ e v eq_refl Hv) as (ev & He & <-). rewrite Hp in Hch.
  rewrite (pop_head_eq _ _ c e ev); [|done|by rewrite (chain_head _ _ _ Hch)|done].
  set (ev1 := ev <| flags ::= clear Scheduled |>). set (h := <[e := ev1]> (events w)).
  destruct (pop_spec h (head c) e (pending (fd d))) as (o & h' & -> & Hch' & V & F); [by apply chain_shape with ev|].
  cbn [mbind res_bind fst snd]. destruct (view_lookup h' _ e (view ev1) V) as (ev' & He' & Hv').
  { unfold h. by rewrite lookup_fmap, lookup_insert_eq. }
  eexists _, ev'. split_and!; [done..|]. destruct (Hl this d e Hd) as (v' & Hv2 & Hq2); [rewrite Hp; left|].
  eapply rel_put; [done|done|by eapply listed_others|done..| | |].
  - rewrite Hp. intros x Hx. rewrite F by set_solver. apply lookup_insert_ne. set_solver.
  - unfold h in V. by rewrite V, fmap_insert, (rel_events _ _ H).
  - split_and!; cbn; congruence.
Qed.

(** ** The invariant of the specification *)

Lemma isSet_bit fs n : 0 ≤ n → isSet fs (2 ^ n) = Z.testbit fs n.
Proof.
  intros Hn. unfold isSet. destruct (Z.testbit fs n) eqn:E.
  - destruct (Z.eqb_spec (Z.land fs (2 ^ n)) 0) as [H|]; [|done].
    assert (Z.testbit (Z.land fs (2 ^ n)) n = true) as Hb by (by rewrite Z.land_spec, E, Z.pow2_bits_true).
    rewrite H, Z.bits_0 in Hb. done.
  - replace (Z.land fs (2 ^ n)) with 0; [done|]. symmetry. apply Z.bits_inj'. intros m Hm.
    rewrite Z.land_spec, Z.bits_0, Z.pow2_bits_eqb by done. destruct (Z.eqb_spec n m) as [<-|]; [by rewrite E|].
    apply andb_false_r.
Qed.
Lemma scheduled_bit fs : isSet fs Scheduled = Z.testbit fs 1.
Proof. by apply (isSet_bit fs 1). Qed.

Lemma public_bit f : noneSet f (Z.lnot PublicWrite) = true → Z.testbit f 1 = false.
Proof.
  unfold noneSet. intros H%Z.eqb_eq. assert (Z.testbit (Z.land f (Z.lnot PublicWrite)) 1 = false) as Hb.
  { by rewrite H. }
  rewrite Z.land_spec in Hb. by rewrite andb_comm in Hb.
Qed.

Lemma set_scheduled f : isSet (set Scheduled f) Scheduled = true.
Proof. rewrite scheduled_bit. unfold set. rewrite Z.lor_spec. apply orb_true_r. Qed.
Lemma clear_scheduled f : isSet (clear Scheduled f) Scheduled = false.
Proof. rewrite scheduled_bit. unfold clear. rewrite Z.land_spec. apply andb_false_r. Qed.
Lemma set_keeps g f : Z.testbit g 1 = false → isSet (set g f) Scheduled = isSet f Scheduled.
Proof. intros H. rewrite !scheduled_bit. unfold set. rewrite Z.lor_spec, H. apply orb_false_r. Qed.
Lemma clear_keeps g f : Z.testbit g 1 = false → isSet (clear g f) Scheduled = isSet f Scheduled.
Proof.
  intros H. rewrite !scheduled_bit. unfold clear. rewrite Z.land_spec, Z.lnot_spec, H by done. apply andb_true_r.
Qed.
#[local] Hint Resolve set_scheduled clear_scheduled : core.

Definition on_list (d : AQueue) : list ptr := pending d ++ a_async d.

(** Event [e] and its membership in queue [q] change together. *)
Lemma inv_put a q d e v fd :
  Inv a → a_queues a !! q = Some d →
  (∀ q' d', q' ≠ q → a_queues a !! q' = Some d' → e ∉ on_list d') →
  (∀ x, x ≠ e → x ∈ on_list (fd d) ↔ x ∈ on_list d) → NoDup (on_list (fd d)) →
  (v_scheduled v = true ↔ e ∈ on_list (fd d)) → (e ∈ on_list (fd d) → v_queue v = Some q) →
  Inv (a_put e v q fd a).
Proof.
  intros H Hd Ho Hx Hn Hs Hq. split; cbn [a_put a_events a_queues set_field].
  - intros q' d' x Hd' Hin. destruct (decide (x = e)) as [->|Hne].
    + rewrite lookup_insert_eq. exists v. destruct (decide (q' = q)) as [->|Hne].
      * rewrite lookup_alter_eq, Hd in Hd'. injection Hd' as <-. rewrite Hs. auto.
      * rewrite lookup_alter_ne in Hd' by done. by destruct (Ho q' d').
    + rewrite lookup_insert_ne by done. destruct (decide (q' = q)) as [->|Hne'].
      * rewrite lookup_alter_eq, Hd in Hd'. injection Hd' as <-. apply Hx in Hin; [|done].
        by apply (inv_listed _ H q d x).
      * rewrite lookup_alter_ne in Hd' by done. by apply (inv_listed _ H q' d' x).
  - intros q' d' Hd'. destruct (decide (q' = q)) as [->|Hne].
    + rewrite lookup_alter_eq, Hd in Hd'. by injection Hd' as <-.
    + rewrite lookup_alter_ne in Hd' by done. by apply (inv_once _ H q').
  - intros x v' Hv Hsc. destruct (decide (x = e)) as [->|Hne].
    + rewrite lookup_insert_eq in Hv. injection Hv as <-. exists q, (fd d).
      rewrite lookup_alter_eq, Hd. apply Hs in Hsc. auto.
    + rewrite lookup_insert_ne in Hv by done. destruct (inv_flagged _ H x v' Hv Hsc) as (q' & d' & Hq' & Hd' & Hin).
      exists q'. destruct (decide (q' = q)) as [->|Hne'].
      * exists (fd d). rewrite lookup_alter_eq, Hd. simplify_eq. split_and!; [done..|]. by apply Hx.
      * exists d'. by rewrite lookup_alter_ne.
Qed.

(** An event changes without its membership. *)
Lemma inv_event a e v v' :
  Inv a → a_events a !! e = Some v → v_queue v' = v_queue v → v_scheduled v' = v_scheduled v →
  Inv (a <| a_events ::= <[e := v']> |>).
Proof.
  intros H He Hq Hs. split; cbn [a_events a_queues set_field].
  - intros q d x Hd Hin. destruct (inv_listed _ H q d x Hd Hin) as (vx & Hv & Hq' & Hs').
    destruct (decide (x = e)) as [->|]; [|rewrite lookup_insert_ne by done; eauto].
    rewrite lookup_insert_eq. exists v'. simplify_eq. rewrite Hq, Hs. auto.
  - apply H.
  - intros x vx Hv Hsc. destruct (decide (x = e)) as [->|].
    + rewrite lookup_insert_eq in Hv. injection Hv as <-. rewrite Hq. rewrite Hs in Hsc. by apply (inv_flagged _ H e v).
    + rewrite lookup_insert_ne in Hv by done. by apply (inv_flagged _ H x vx).
Qed.

(** Events that are not scheduled come and go. *)
Lemma inv_new a e v :
  Inv a → a_events a !! e = None → v_scheduled v = false → Inv (a <| a_events ::= <[e := v]> |>).
Proof.
  intros H He Hs. split; cbn [a_events a_queues set_field]; [|apply H|].
  - intros q d x Hd Hin. destruct (inv_listed _ H q d x Hd Hin) as (vx & Hv & ?).
    rewrite lookup_insert_ne by congruence. eauto.
  - intros x vx Hv Hsc. destruct (decide (x = e)) as [->|]; [rewrite lookup_insert_eq in Hv; congruence|].
    rewrite lookup_insert_ne in Hv by done. by apply (inv_flagged _ H x vx).
Qed.
Lemma inv_delete a e v :
  Inv a → a_events a !! e = Some v → v_scheduled v = false → Inv (a <| a_events ::= delete e |>).
Proof.
  intros H He Hs. split; cbn [a_events a_queues set_field]; [|apply H|].
  - intros q d x Hd Hin. destruct (inv_listed _ H q d x Hd Hin) as (vx & Hv & Hq' & Hs').
    rewrite lookup_delete_ne by congruence. eauto.
  - intros x vx [_ Hv]%lookup_delete_Some Hsc. by apply (inv_flagged _ H x vx).
Qed.

(** ** The calls refine the specification *)

Lemma flags_refine w a e f :
  R w a → (∀ x, isSet (f x) Scheduled = isSet x Scheduled) →
  rres R (upd_event e (λ ev, ev <| flags ::= f |>) w) (a_flags e f a).
Proof.
  intros [H Hi] Hf. unfold upd_event, upd, a_flags.
  pose proof (get_rel w a e H) as Hg. unfold get in *. destruct (events w !! e) as [ev|] eqn:He, (a_get a e) as [v|];
    cbn in Hg |- *; [|done..|by simplify_eq]. destruct Hg as (_ & Hv & ->). split.
  - by apply (rel_flags w a e ev f).
  - eapply inv_event; [done|done|done|]. apply Hf.
Qed.

Lemma delete_rel w a e : Rel w a → (∀ q d, a_queues a !! q = Some d → e ∉ pending d) →
  Rel (w <| events ::= delete e |>) (a <| a_events ::= delete e |>).
Proof.
  intros [H1 H2 H3 H4] Hn. split; cbn; [by rewrite H1, fmap_delete|done..|].
  intros q. specialize (H4 q). destruct (a_queues a !! q) as [d|] eqn:Hd;
    inversion H4 as [c d' (Ht & Hs & Hch)|]; subst; constructor. split_and!; [done..|].
  eapply chain_frame, Hch. intros x Hx. rewrite lookup_delete_ne; [done|]. intros <-. by apply (Hn q d).
Qed.

Lemma delete_refines w a e : R w a → rres R (delete_event e w) (a_delete e a).
Proof.
  intros [H Hi]. unfold delete_event, a_delete. eapply rres_bind; [by apply get_rel|].
  intros ev v (He & Hv & ->). apply rres_assert; [done|]. intros Hs%negb_true_iff. cbn. split.
  - apply delete_rel; [done|]. intros q d Hd Hin. apply (inv_unscheduled a e _ q d Hi Hv); [done..|set_solver].
  - by eapply inv_delete.
Qed.

Lemma construct_refines w a e p f : R w a → rres R (construct e p f w) (a_construct e p f a).
Proof.
  intros [H Hi]. unfold construct, a_construct. eapply (rres_bind (λ x y, x = y ∧ new_event p f = Ok x)).
  { by destruct (new_event p f). }
  intros ev ? [<- Hev]. pose proof (rel_events _ _ H) as Hv. rewrite Hv, lookup_fmap.
  destruct (events w !! e) as [ev'|] eqn:He; cbn; [done|].
  assert (a_events a !! e = None) as Ha by (by rewrite Hv, lookup_fmap, He).
  apply bind_ok in Hev as (? & Hb%assert_ok & Hev). injection Hev as <-. split.
  - destruct H as [H1 H2 H3 H4]. split; cbn; [by rewrite H1, fmap_insert|done..|].
    intros q. specialize (H4 q). destruct (a_queues a !! q) as [d|] eqn:Hd;
      inversion H4 as [c d' (Ht & Hs & Hch)|]; subst; constructor. split_and!; [done..|].
    apply chain_insert; [|done]. intros Hin. destruct (chain_lookup _ _ _ _ Hch Hin). congruence.
  - apply inv_new; [done..|]. unfold v_scheduled. cbn. rewrite scheduled_bit. unfold set.
    rewrite Z.lor_spec, (public_bit f) by done. done.
Qed.

(** Scheduling puts the event on a list of its queue. *)
Lemma inv_add a q d e v v' fd :
  Inv a → a_queues a !! q = Some d → a_events a !! e = Some v → v_scheduled v = false →
  on_list (fd d) ≡ₚ e :: on_list d → v_scheduled v' = true → v_queue v' = Some q →
  Inv (a_put e v' q fd a).
Proof.
  intros H Hd He Hs Hp Hs' Hq. pose proof (inv_unscheduled a e v q d H He Hs Hd) as Hni.
  eapply inv_put; [done|done| | | | |by intros].
  - intros q' d' _ Hd'. by apply (inv_unscheduled a e v q').
  - intros x Hx. rewrite Hp. set_solver.
  - rewrite Hp. constructor; [done|]. by apply (inv_once _ H q).
  - rewrite Hp, Hs'. set_solver.
Qed.

Lemma schedule_refines w a this e t global :
  R w a → rres R (schedule this e t global w) (a_schedule this e t global a).
Proof.
  intros [H Hi]. unfold schedule, a_schedule. eapply rres_bind; [by apply queue_get|].
  intros c d (Hc & Hd & Ht & Hs & Hch). eapply rres_bind; [by apply get_rel|]. intros ev v (He & Hv & ->).
  apply rres_assert; [by rewrite Ht|intros _]. apply rres_assert; [done|intros Hsc%negb_true_iff].
  apply rres_assert; [done|intros _].
  set (v := mkView t (v_priority (view ev)) (set Scheduled (v_flags (view ev))) (Some this)).
  pose proof (inv_unscheduled a e _ this d Hi Hv Hsc Hd) as Hni. apply not_elem_of_app in Hni as [Hni Hna].
  assert (others a this e) as Ho.
  { intros q' d' _ Hd' Hin. apply (inv_unscheduled a e _ q' d' Hi Hv Hsc Hd'). set_solver. }
  rewrite (rel_par _ _ H), (rel_cur _ _ H).
  destruct (place_spec w a this c d e ev t (set Scheduled)) as (w1 & w2 & ev2 & E1 & P1 & C1 & E2 & He2 & HR);
    [done|by apply inv_lists|done..|].
  rewrite E1. cbn [mbind res_bind]. rewrite P1, C1.
  destruct (inParallelMode w && _) eqn:Eb; cbn [mbind res_bind].
  - rewrite (upd_event_ok _ _ _ _ He) in E1. injection E1 as <-.
    erewrite upd_event_ok by apply lookup_insert_eq. cbn [rres]. split.
    + set (ev' := (setWhen t this ev) <| flags ::= set Scheduled |>).
      change (Rel (upd_queue this (λ x, x <| async_queue ::= λ l, l ++ [e] |>)
                     (w <| events := <[e := ev']> (<[e := setWhen t this ev]> (events w)) |>))
                  (a_put e v this (λ q, q <| a_async ::= λ l, l ++ [e] |>) a)).
      eapply rel_put; [done|by apply inv_lists|done..| | |].
      * intros x Hx. cbn. rewrite !lookup_insert_ne by set_solver. done.
      * cbn. by rewrite insert_insert_eq, fmap_insert, (rel_events _ _ H).
      * split_and!; [done|cbn; by rewrite Hs|]. cbn. apply chain_insert; [done|]. by apply chain_insert.
    + eapply inv_add; [done..| |apply set_scheduled|done]. unfold on_list. cbn.
      rewrite app_assoc. symmetry. apply Permutation_cons_append.
  - rewrite E2. cbn [mbind res_bind]. rewrite (upd_event_ok _ _ _ _ He2). cbn [rres]. split; [exact HR|].
    eapply inv_add; [done..| |apply set_scheduled|done]. unfold on_list. cbn. by rewrite enqueue_perm.
Qed.

Lemma put_events e v v' q f a : (a_put e v q f a) <| a_events ::= <[e := v']> |> = a_put e v' q f a.
Proof. unfold a_put. cbn. by rewrite insert_insert_eq. Qed.
Lemma put_put e v v' q f g a : a_put e v' q g (a_put e v q f a) = a_put e v' q (g ∘ f) a.
Proof. unfold a_put. cbn. by rewrite insert_insert_eq, alter_alter_eq. Qed.
Lemma put_same e v q d f a :
  a_events a !! e = Some v → a_queues a !! q = Some d → f d = d → a_put e v q f a = a.
Proof.
  intros He Hd Hf. unfold a_put. destruct a as [V Q p c]. cbn in *. rewrite insert_id by done. f_equal.
  apply map_eq. intros q'. destruct (decide (q' = q)) as [->|]; [|by rewrite lookup_alter_ne].
  rewrite lookup_alter_eq, Hd. cbn. by rewrite Hf.
Qed.

(** An event leaves its queue. *)
Lemma inv_leave a q d e v v' fd :
  Inv a → a_queues a !! q = Some d → a_events a !! e = Some v → v_queue v = Some q →
  e :: on_list (fd d) ≡ₚ on_list d → v_scheduled v' = false → Inv (a_put e v' q fd a).
Proof.
  intros H Hd He Hq Hp Hs. pose proof (inv_once _ H q d Hd) as Hn.
  change (NoDup (on_list d)) in Hn. rewrite <-Hp in Hn. apply NoDup_cons in Hn as [Hni Hn].
  apply (inv_put _ _ d); [done|done| | |done|rewrite Hs; set_solver|done].
  - intros q' d' Hne Hd' Hin. destruct (inv_listed _ H q' d' e Hd' Hin) as (v2 & ? & ? & _). congruence.
  - intros x Hx. rewrite <-Hp. set_solver.
Qed.

Lemma without_cons (e : ptr) (l : list ptr) : e ∈ l → NoDup l → e :: without e l ≡ₚ l.
Proof.
  induction l as [|x l IH]; [set_solver|]. intros He (Hx & Hn)%NoDup_cons. destruct (decide (x = e)) as [->|Hne].
  - rewrite filter_cons_False, without_id by (naive_solver || done). done.
  - rewrite filter_cons_True by done. rewrite perm_swap, IH; [done|set_solver|done].
Qed.
Lemma leave_perm d e :
  e ∈ pending d → NoDup (on_list d) → e :: on_list (d <| pending := without e (pending d) |>) ≡ₚ on_list d.
Proof.
  unfold on_list. cbn. intros He (Hn & _ & _)%NoDup_app.
  rewrite app_comm_cons. by rewrite without_cons.
Qed.

Lemma a_get_ok a e v : a_events a !! e = Some v → a_get a e = Ok v.
Proof. unfold a_get. by intros ->. Qed.
Lemma a_delete_ok e v a :
  a_events a !! e = Some v → v_scheduled v = false → a_delete e a = Ok (a <| a_events ::= delete e |>).
Proof. intros He Hs. unfold a_delete, a_get. rewrite He. cbn. by rewrite Hs. Qed.

Lemma deschedule_refines w a this e :
  R w a → rres R (deschedule this e w) (a_deschedule this e a).
Proof.
  intros [H Hi]. unfold deschedule, a_deschedule. eapply rres_bind; [by apply get_rel|].
  intros ev v (He & Hv & ->). apply rres_assert; [done|intros Hsc]. apply rres_assert; [done|intros _].
  apply rres_assert; [by rewrite (rel_par _ _ H), (rel_cur _ _ H)|intros _].
  pose proof (queue_get w a this H) as Hq. unfold q_remove at 1.
  destruct (get_queue w this) as [c|] eqn:Ec, (a_queue a this) as [d|]; cbn in Hq; [|done|done|by subst].
  destruct Hq as (Hc & Hd & _). cbn [mbind res_bind].
  pose proof (unplace_spec w a this c d e ev H (inv_lists _ Hi) Hc Hd He) as Hu.
  unfold q_remove in Hu. rewrite Ec in Hu. cbn [mbind res_bind] in Hu.
  eapply rres_bind; [exact Hu|]. clear Hu. intros w1 [] (ev1 & He1 & Hv1 & _ & _ & Hq1 & Hin & HR).
  rewrite (upd_event_ok _ _ _ _ He1). cbn [mbind res_bind].
  pose proof (rel_flags _ _ _ _ (clear Squashed) HR He1) as HR2.
  erewrite upd_event_ok by apply lookup_insert_eq. cbn [mbind res_bind].
  pose proof (rel_flags _ _ e _ (clear Scheduled) HR2 (lookup_insert_eq _ _ _)) as HR3.
  rewrite !put_events in HR3. set (v := (view ev) <| v_flags ::= _ |>).
  set (ev3 := (ev1 <| flags ::= clear Squashed |>) <| flags ::= clear Scheduled |>) in *.
  set (w3 := w1 <| events ::= _ |> <| events ::= <[e := ev3]> |>) in *.
  assert (view ev3 = v) as Ev3. { injection Hv1 as E1 E2 E3 E4. unfold view. cbn. by rewrite E1, E2, E3, E4. }
  change ((view _) <| v_flags ::= clear Scheduled |>) with (view ev3) in HR3. rewrite Ev3 in HR3.
  assert (Inv (a_put e v this (λ q, q <| pending := without e (pending q) |>) a)) as Hi3.
  { eapply inv_leave; [done..| |apply clear_scheduled]. apply leave_perm; [done|]. by apply (inv_once _ Hi this). }
  rewrite (get_ok _ e ev3) by apply lookup_insert_eq. cbn [mbind res_bind].
  replace (flags ev3) with (v_flags v) by (by rewrite <-Ev3).
  destruct (isSet (v_flags v) AutoDelete); [|by split].
  pose proof (delete_refines w3 _ e (conj HR3 Hi3)) as Hdel.
  erewrite a_delete_ok in Hdel; [exact Hdel|apply lookup_insert_eq|apply clear_scheduled].
Qed.

(** The queue without the event. *)
Definition out (e : ptr) (q : AQueue) : AQueue := q <| pending := without e (pending q) |>.

Lemma listed_leave a this e v : listed a → others a this e → listed (a_put e v this (out e) a).
Proof.
  intros Hl Ho q d x Hd Hin. unfold a_put in *. cbn [a_queues a_events set_field] in *.
  assert (∃ d0, a_queues a !! q = Some d0 ∧ x ∈ pending d0 ∧ (q = this → x ≠ e)) as (d0 & Hd0 & Hx & Hne).
  { destruct (decide (q = this)) as [->|Hne]; [|rewrite lookup_alter_ne in Hd by done; naive_solver].
    rewrite lookup_alter_eq in Hd. apply fmap_Some in Hd as (d0 & -> & ->). cbn in Hin.
    apply list_elem_of_filter in Hin as [? ?]. eauto. }
  destruct (decide (x = e)) as [->|]; [|rewrite lookup_insert_ne by done; by apply (Hl q d0)].
  destruct (decide (q = this)) as [->|]; [naive_solver|]. by destruct (Ho q d0).
Qed.

(** An event that is not scheduled, or scheduled and found, is off the lists. *)
Lemma off_lists w a this c d e ev :
  R w a → queues w !! this = Some c → a_queues a !! this = Some d → events w !! e = Some ev →
  a_events a !! e = Some (view ev) →
  rres (λ w1 _, ∃ ev1, events w1 !! e = Some ev1 ∧ view ev1 = view ev ∧
     Rel w1 (a_put e (view ev) this (out e) a) ∧ (e ∉ a_async d) ∧
     (∀ q' d', q' ≠ this → a_queues a !! q' = Some d' → e ∉ on_list d'))
    (if scheduled ev then q_remove this e w else Ok w)
    (if v_scheduled (view ev) then a_find this e (view ev) (pending d) else Ok tt).
Proof.
  intros [H Hi] Hc Hd He Hv. change (v_scheduled (view ev)) with (scheduled ev). destruct (scheduled ev) eqn:Esc.
  - eapply rres_mono; [by apply unplace_spec with c; try done; apply inv_lists|].
    intros w1 [] (ev1 & He1 & Hv1 & _ & _ & Hq1 & Hin & HR). exists ev1. split_and!; [done..| |].
    + intros Hin'. pose proof (inv_once _ Hi this d Hd) as (_ & Hdis & _)%NoDup_app. by apply (Hdis e).
    + intros q' d' Hne Hd' Hin'. destruct (inv_listed _ Hi q' d' e Hd' Hin') as (v2 & ? & ? & _). congruence.
  - assert (∀ q' d', a_queues a !! q' = Some d' → e ∉ on_list d') as Hno.
    { intros q' d' Hd'. by apply (inv_unscheduled a e (view ev) q'). }
    pose proof (Hno this d Hd) as [Hn1 Hn2]%not_elem_of_app. exists ev. split_and!; [done|done| |done|by eauto].
    erewrite put_same; [done|done..|]. unfold out. rewrite without_id by done. by destruct d.
Qed.

Lemma reschedule_refines w a this e t always :
  R w a → rres R (reschedule this e t always w) (a_reschedule this e t always a).
Proof.
  intros HR0. pose proof HR0 as [H Hi]. unfold reschedule, a_reschedule. eapply rres_bind; [by apply queue_get|].
  intros c d (Hc & Hd & Ht & Hs & Hch). eapply rres_bind; [by apply get_rel|]. intros ev v (He & Hv & ->).
  apply rres_assert; [by rewrite Ht|intros _]. apply rres_assert; [done|intros _].
  apply rres_assert; [done|intros _].
  apply rres_assert; [by rewrite (rel_par _ _ H), (rel_cur _ _ H)|intros _].
  eapply rres_bind; [by apply (off_lists w a this c d)|].
  intros w1 [] (ev1 & He1 & Hv1 & HR & Hna & Hno). injection Hv1 as V1 V2 V3 V4.
  assert (others a this e) as Ho. { intros q' d' Hne Hd' Hin. apply (Hno q' d' Hne Hd'). unfold on_list. set_solver. }
  assert (a_queues (a_put e (view ev) this (out e) a) !! this = Some (out e d)) as Hd1.
  { unfold a_put. cbn. by rewrite lookup_alter_eq, Hd. }
  destruct (rel_queue _ _ _ _ HR Hd1) as (c1 & Hc1 & _).
  destruct (place_spec w1 _ this c1 (out e d) e ev1 t (λ f, set Scheduled (clear Squashed f)) HR)
    as (w2 & w3 & ev3 & -> & _ & _ & E3 & He3 & HR3); [apply listed_leave; [by apply inv_lists|done]| | |done..|].
  { intros q' d' Hne Hd'. unfold a_put in Hd'. cbn in Hd'. rewrite lookup_alter_ne in Hd' by done. by apply (Ho q'). }
  { cbn. by intros [? _]%list_elem_of_filter. }
  cbn [mbind res_bind]. rewrite E3. cbn [mbind res_bind]. rewrite (upd_event_ok _ _ _ _ He3). cbn [mbind res_bind].
  erewrite upd_event_ok by apply lookup_insert_eq. cbn [rres]. split.
  - rewrite put_put in HR3. unfold a_put in HR3. cbn in HR3. rewrite insert_insert_eq in HR3.
    unfold a_put. cbn. rewrite insert_insert_eq, <-V2, <-V3. exact HR3.
  - apply (inv_put _ _ d); [done|done|done| | | |done]; unfold on_list; cbn.
    + intros x Hx. rewrite enqueue_perm, !elem_of_app, elem_of_cons, list_elem_of_filter. tauto.
    + rewrite enqueue_perm. pose proof (inv_once _ Hi this d Hd) as (N1 & N2 & N3)%NoDup_app. cbn. constructor.
      * intros [[? _]%list_elem_of_filter|?]%elem_of_app; done.
      * apply NoDup_app. split_and!; [by apply NoDup_filter| |done]. intros x [_ Hx]%list_elem_of_filter. by apply N2.
    + rewrite enqueue_perm. split; [intros _; set_solver|intros _]. unfold v_scheduled. cbn. apply set_scheduled.
Qed.

Lemma call_refines w a c : R w a → rres R (do_call w c) (a_call a c).
Proof.
  intros HR. destruct c; cbn [do_call a_call].
  - by apply construct_refines.
  - by apply delete_refines.
  - by apply schedule_refines.
  - by apply deschedule_refines.
  - by apply reschedule_refines.
  - apply flags_refine; [done|]. intros x. by apply set_keeps.
  - unfold setFlags. apply rres_assert; [done|intros Hp]. apply flags_refine; [done|]. intros x. by apply set_keeps, public_bit.
  - unfold clearFlags. apply rres_assert; [done|intros Hp]. apply flags_refine; [done|]. intros x. by apply clear_keeps, public_bit.
Qed.
Lemma calls_refine w a cs : R w a → rres R (foldM do_call w cs) (foldM a_call a cs).
Proof.
  revert w a. induction cs as [|c cs IH]; intros w a HR; [done|]. cbn.
  eapply rres_bind; [by apply call_refines|]. intros w1 a1 HR1. by apply IH.
Qed.

(** ** Events of other threads *)

Definition take_async (V : gmap positive View) (d : AQueue) : AQueue :=
  d <| pending := foldl (λ l e, enqueue V e l) (pending d) (a_async d) |> <| a_async := [] |>.

(** One event of the asynchronous queue moves to the pending ones. *)
Lemma async_step w a this c d e l :
  R w a → queues w !! this = Some c → a_queues a !! this = Some d → a_async d = e :: l →
  ∃ w' v, q_insert this e w = Ok w' ∧ a_events a !! e = Some v ∧
    R (upd_queue this (λ x, x <| async_queue := l |>) w')
      (a_put e v this (λ q, q <| pending ::= enqueue (a_events a) e |> <| a_async := l |>) a).
Proof.
  intros [H Hi] Hc Hd Hl. pose proof (rel_queues _ _ H this) as Hq. rewrite Hc, Hd in Hq.
  inversion Hq as [? ? (Ht & Hs & Hch)|]; subst. pose proof (inv_once _ Hi this d Hd) as Hn. rewrite Hl in Hn.
  pose proof Hn as (N1 & N12 & N2)%NoDup_app.
  assert (e ∉ pending d) as Hni by (intros Hin; apply (N12 e Hin); left).
  destruct (inv_listed _ Hi this d e Hd) as (v & Hv & Hqv & Hsv); [rewrite Hl; set_solver|].
  destruct (view_lookup (events w) _ e v (eq_sym (rel_events _ _ H)) Hv) as (ev & He & Hev).
  destruct (insert_spec _ _ _ e ev Hch He Hni) as (o & h' & E & Hch' & V & F).
  eexists _, v. split_and!; [unfold q_insert; rewrite (queue_ok _ _ _ Hc); cbn [mbind res_bind]; by rewrite E|done|].
  cbn [fst snd]. split.
  - replace (upd_queue this (λ x, x <| async_queue := l |>) (upd_queue this (λ x, x <| head := o |>) (w <| events := h' |>)))
      with (upd_queue this (λ x, x <| head := o |> <| async_queue := l |>) (w <| events := h' |>)).
    + eapply rel_put; [done|by apply inv_lists| |done..| |].
      * eapply listed_others; [by apply inv_lists|done..].
      * by rewrite V, <-(rel_events _ _ H), insert_id.
      * split_and!; [done..|]. cbn. rewrite (rel_events _ _ H). exact Hch'.
    + unfold upd_queue. cbn. by rewrite alter_alter_eq.
  - apply (inv_put _ _ d); [done|done| | | | |by intros]; unfold on_list; cbn.
    + intros q' d' Hne Hd' Hin. destruct (inv_listed _ Hi q' d' e Hd' Hin) as (v2 & ? & ? & _). congruence.
    + intros x Hx. rewrite enqueue_perm, Hl. set_solver.
    + rewrite enqueue_perm. change (NoDup (e :: pending d ++ l)). by rewrite Permutation_middle.
    + rewrite enqueue_perm, Hsv. set_solver.
Qed.

Lemma drain_refines w a this d :
  R w a → a_queues a !! this = Some d →
  rres R (drain_async this (a_async d) w) (Ok (a <| a_queues ::= <[this := take_async (a_events a) d]> |>)).
Proof.
  remember (a_async d) as l eqn:Hl. revert w a d Hl. induction l as [|e l IH]; intros w a d Hl HR Hd; cbn [drain_async].
  - replace (a <| a_queues ::= _ |>) with a; [exact HR|]. destruct a as [V Q p c], d as [P t A]. cbn in *.
    rewrite <-Hl. unfold take_async. cbn. by rewrite insert_id by (by rewrite Hl).
  - pose proof HR as [H Hi]. destruct (rel_queue _ _ _ _ H Hd) as (c & Hc & _).
    destruct (async_step w a this c d e l) as (w' & v & -> & Hv & HR'); [done..|]. cbn [mbind res_bind].
    set (d' := d <| pending ::= enqueue (a_events a) e |> <| a_async := l |>).
    specialize (IH _ _ d' eq_refl HR'). unfold a_put in IH. cbn [a_queues a_events set_field] in IH.
    rewrite lookup_alter_eq, Hd in IH. specialize (IH eq_refl).
    rewrite (insert_id (a_events a) e v Hv), insert_alter_eq in IH.
    assert (take_async (a_events a) d' = take_async (a_events a) d) as E.
    { unfold take_async, d'. cbn. by rewrite <-Hl. }
    rewrite E in IH. exact IH.
Qed.

Lemma handleAsync_refines w a this : R w a → rres R (handleAsyncInsertions this w) (a_handleAsync this a).
Proof.
  intros HR. pose proof HR as [H Hi]. unfold handleAsyncInsertions, a_handleAsync.
  apply rres_assert; [by rewrite (rel_cur _ _ H)|intros _]. eapply rres_bind; [by apply queue_get|].
  intros c d (Hc & Hd & Ht & Hs & Hch). rewrite Hs. by apply drain_refines.
Qed.

(** ** Running events *)

Lemma rel_tick w a this e v f t :
  Rel w (a_put e v this f a) →
  Rel (upd_queue this (λ x, x <| curTick := t |>) w) (a_put e v this (λ q, (f q) <| a_tick := t |>) a).
Proof.
  intros [H1 H2 H3 H4]. split; cbn in *; [done..|]. intros q. specialize (H4 q).
  destruct (decide (q = this)) as [->|]; [|by rewrite lookup_alter_ne in H4 by done; rewrite !lookup_alter_ne].
  rewrite lookup_alter_eq in H4. rewrite !lookup_alter_eq. destruct (a_queues a !! this) as [d|]; cbn in *;
    inversion H4 as [c d' (Ht & Hs & Hch)|]; subst; constructor. by split_and!.
Qed.

Lemma auto_delete_refines w a e : R w a → rres R (auto_delete e w) (a_auto_delete e a).
Proof.
  intros HR. pose proof HR as [H Hi]. unfold auto_delete, a_auto_delete. eapply rres_bind; [by apply get_rel|].
  intros ev v (He & Hv & ->). change (v_scheduled (view ev)) with (scheduled ev).
  change (v_flags (view ev)) with (flags ev). destruct (isSet (flags ev) AutoDelete && negb (scheduled ev)) eqn:E; [|exact HR].
  apply andb_true_iff in E as [_ E%negb_true_iff]. pose proof (delete_refines w a e HR) as Hd.
  by rewrite (a_delete_ok e (view ev)) in Hd.
Qed.

Section run_refines.
Context {St : Type}.
Variable process : ptr → Tick → gmap positive View → St → list call * St.

(** The same result, and related worlds. *)
Definition R2 {A} (x : A * (World * St)) (y : A * (AWorld * St)) : Prop :=
  x.1 = y.1 ∧ R x.2.1 y.2.1 ∧ x.2.2 = y.2.2.

Lemma process_refines w a this e s :
  R w a → rres (λ x y, R x.1 y.1 ∧ x.2 = y.2) (run_process process this e s w) (a_process process this e s a).
Proof.
  intros HR. pose proof HR as [H Hi]. unfold run_process, a_process. eapply rres_bind; [by apply queue_get|].
  intros c d (Hc & Hd & Ht & Hs & Hch). rewrite <-(rel_events _ _ H), Ht.
  eapply rres_bind; [by apply calls_refine|]. intros w1 a1 HR1. by split.
Qed.

Lemma leave_head d e l : pending d = e :: l → e :: on_list (d <| pending := l |>) ≡ₚ on_list d.
Proof. unfold on_list. cbn. by intros ->. Qed.

(** The world in which the handler of the first event runs. *)
Lemma taken_related w a this d e l v t :
  R w a → a_queues a !! this = Some d → pending d = e :: l → a_events a !! e = Some v →
  ∃ w', R w' (a_put e (v <| v_flags ::= clear Scheduled |>) this
                (λ q, q <| pending := l |> <| a_tick := t |>) a).
Proof.
  intros [H Hi] Hd Hp Hv. destruct (rel_queue _ _ _ _ H Hd) as (c & Hc & _).
  destruct (pop_rel w a this c d e l v (λ q, q <| pending := l |>) H (inv_lists _ Hi) Hc Hd Hp Hv)
    as (w' & ev & _ & He & Hev & HR); [done..|].
  destruct (inv_listed _ Hi this d e Hd) as (v2 & Hv2 & Hqv & _); [rewrite Hp; left|].
  assert (v2 = v) as -> by congruence.
  eexists. split; [by apply rel_tick|]. eapply inv_leave; [done..| |apply clear_scheduled].
  by apply leave_head.
Qed.

Lemma serviceOne_refines w a s this :
  R w a → rres R2 (serviceOne process this (w, s)) (a_serviceOne process this (a, s)).
Proof.
  intros [H Hi]. unfold serviceOne, a_serviceOne. cbn [fst snd].
  pose proof (queue_get w a this H) as Hq. destruct (a_queue a this) as [d|] eqn:Ed.
  2:{ unfold pop_head. destruct (get_queue w this); cbn in Hq |- *; [done|by rewrite Hq]. }
  destruct (get_queue w this) as [c|] eqn:Ec; cbn in Hq; [|done]. destruct Hq as (Hc & Hd & Ht & Hs & Hch).
  cbn [mbind res_bind]. destruct (pending d) as [|e l] eqn:Hp.
  { unfold pop_head. rewrite Ec. cbn [mbind res_bind]. apply chain_nil in Hch as ->. done. }
  destruct (inv_listed _ Hi this d e Hd) as (v & Hv & Hqv & Hsv); [rewrite Hp; left|].
  rewrite (a_get_ok a e v Hv). cbn [mbind res_bind].
  destruct (pop_rel w a this c d e l v (λ q, q <| pending := l |>) H (inv_lists _ Hi) Hc Hd Hp Hv)
    as (w' & ev & -> & He & Hev & HR); [done..|]. cbn [mbind res_bind fst snd].
  rewrite (get_ok _ _ _ He). cbn [mbind res_bind]. set (v1 := v <| v_flags ::= clear Scheduled |>) in *.
  unfold squashed. change (flags ev) with (v_flags (view ev)). change (when ev) with (v_when (view ev)). rewrite Hev.
  assert (∀ v2 f, v_scheduled v2 = false → (∀ q, on_list (f q) = on_list (q <| pending := l |>)) →
    Inv (a_put e v2 this f a)) as HI.
  { intros v2 f Hv2 Hf. eapply inv_leave; [done..| |done]. rewrite Hf. by apply leave_head. }
  destruct (isSet (v_flags v1) Squashed).
  - rewrite (upd_event_ok _ _ _ _ He). cbn [mbind res_bind].
    pose proof (rel_flags _ _ _ _ (clear Squashed) HR He) as HR2. rewrite put_events, Hev in HR2.
    eapply rres_bind; [apply auto_delete_refines; split; [exact HR2|]|].
    + apply HI; [|done]. unfold v_scheduled, v1. cbn. by rewrite clear_keeps.
    + intros w2 a2 HR3. by split_and!.
  - eapply rres_bind; [apply process_refines; split; [by apply rel_tick|apply HI; [apply clear_scheduled|done]]|].
    intros [w1 s1] [a1 s2] [HR1 Es]. cbn in HR1, Es. subst s2. cbn [fst snd]. pose proof HR1 as [H1 Hi1].
    eapply rres_bind; [by apply get_rel|]. intros ev2 v2 (He2 & Hv2 & ->). unfold isExitEvent.
    change (v_flags (view ev2)) with (flags ev2). destruct (isSet (flags ev2) IsExitEvent).
    + apply rres_assert; [done|intros _]. by split_and!.
    + eapply rres_bind; [by apply auto_delete_refines|]. intros w2 a2 HR3. by split_and!.
Qed.

Lemma sim_step_refines w a s this poll :
  R w a → rres R2 (sim_step process this poll (w, s)) (a_sim_step process this poll (a, s)).
Proof.
  intros HR. pose proof HR as [H Hi]. unfold sim_step, a_sim_step, empty, nextTick. cbn [fst snd].
  pose proof (queue_get w a this H) as Hq. destruct (get_queue w this) as [c|], (a_queue a this) as [d|];
    cbn in Hq; [|done..|by subst]. destruct Hq as (Hc & Hd & Ht & Hs & Hch). cbn [mbind res_bind].
  pose proof (chain_head _ _ _ Hch) as Eh. destruct (pending d) as [|e l] eqn:Hp; cbn in Eh; rewrite Eh; cbn [hd_error]; [done|].
  cbn [bool_decide negb mbind res_bind assert]. rewrite bool_decide_eq_false_2 by done. cbn [negb mbind res_bind assert].
  pose proof (get_rel w a e H) as Hg. destruct (get (events w) e) as [ev|], (a_get a e) as [v|]; cbn in Hg |- *;
    [|done..|by subst]. destruct Hg as (He & Hv & ->). rewrite (rel_cur _ _ H).
  eapply rres_bind; [by apply queue_get|]. intros c1 d1 (Hc1 & Hd1 & Ht1 & _).
  apply rres_assert; [by rewrite Ht1|intros _]. eapply rres_bind; [by apply calls_refine|]. intros w1 a1 HR1.
  destruct (default ([], false) poll).2; [by split_and!|].
  eapply rres_bind; [by apply serviceOne_refines|]. intros [r1 [w2 s1]] [r2 [a2 s2]] (E1 & HR2 & E2).
  cbn in E1, HR2, E2. subst. by split_and!.
Qed.

Lemma sim_loop_refines fuel w a s this polls :
  R w a → rres R2 (sim_loop process fuel this polls (w, s)) (a_sim_loop process fuel this polls (a, s)).
Proof.
  revert w a s. induction fuel as [|fuel IH]; intros w a s HR; cbn [sim_loop a_sim_loop]; [by split_and!|].
  eapply rres_bind; [by apply sim_step_refines|]. intros [r1 [w1 s1]] [r2 [a1 s2]] (E1 & HR1 & E2).
  cbn in E1, HR1, E2. subst. cbn [fst snd]. destruct r2; [by split_and!|]. by apply IH.
Qed.

Lemma doSimLoop_refines fuel w a s this polls :
  R w a → rres R2 (doSimLoop process fuel this polls (w, s)) (a_doSimLoop process fuel this polls (a, s)).
Proof.
  intros [[H1 H2 H3 H4] [I1 I2 I3]]. unfold doSimLoop, a_doSimLoop. cbn [fst snd].
  eapply rres_bind; [apply handleAsync_refines|intros w1 a1 HR1; by apply sim_loop_refines].
  split; split; done.
Qed.
End run_refines.

(** ** Runs *)

(** The simulator with its queues, and no event yet. *)
Definition init (qs : gset positive) (par : bool) (cur : qid) : World :=
  mkWorld ∅ (gset_to_gmap new_queue qs) par cur.
Definition a_init (qs : gset positive) (par : bool) (cur : qid) : AWorld :=
  mkAWorld ∅ (gset_to_gmap (mkAQueue [] 0 []) qs) par cur.

Lemma init_related qs par cur : R (init qs par cur) (a_init qs par cur).
Proof.
  split; split; cbn; try done.
  - intros q. rewrite !lookup_gset_to_gmap. destruct (decide (q ∈ qs)).
    + rewrite !option_guard_True by done. constructor. split_and!; [done..|]. by apply chain_nil.
    + rewrite !option_guard_False by done. constructor.
  - intros q d e. rewrite lookup_gset_to_gmap_Some. intros [_ <-]. cbn. set_solver.
  - intros q d. rewrite lookup_gset_to_gmap_Some. intros [_ <-]. constructor.
Qed.

End EventQueueSpec.
