(* ===== verification/EventQueueRun.v ===== *)
(** * Runs of the event queue

    What the refinement to sorted lists gives for the simulator: time never goes
    backwards, the simulation loop reaches its exit event, the code's own check
    of the linked lists succeeds; and what a checkpoint does to a pending event. *)

From S2P Require Import Prelude EventQueue EventQueueProofs EventQueueSpec.
Import EventQueue EventQueueProofs EventQueueSpec.

Module EventQueueRun.

(** ** Refinement *)

(** C5: for every number of queues, every sequence of calls and every behaviour
    of the handlers, the linked bins of the event queue behave as sorted lists:
    the simulation loop returns the same event in the same state of the objects,
    the pending events of every queue are those of the sorted list in its order,
    and an assertion or a panic stops the one exactly when it stops the other.  In
    particular no list becomes cyclic and no stale pointer is followed. *)
Theorem eventq_refines {St} (process : ptr → Tick → gmap positive View → St → list call * St)
    qs par cur calls fuel this polls (s : St) :
  rres R2
    (w ← foldM do_call (init qs par cur) calls; doSimLoop process fuel this polls (w, s))
    (a ← foldM a_call (a_init qs par cur) calls; a_doSimLoop process fuel this polls (a, s)).
Proof.
  eapply rres_bind; [apply calls_refine, init_related|]. intros w a HR. by apply doSimLoop_refines.
Qed.

(** ** Time *)

Definition past : fault := AssertFail "event scheduled in the past".

(** Without threads, nothing is pending at a tick that has passed. *)
Definition timed (a : AWorld) : Prop :=
  a_par a = false ∧
  ∀ q d, a_queues a !! q = Some d → a_async d = [] ∧
    ∀ e v, e ∈ pending d → a_events a !! e = Some v → a_tick d ≤ v_when v.

(** The result has the property, or the failure is not that of [past]. *)
Definition safe {A} (P : A → Prop) (m : res A) : Prop :=
  match m with Ok x => P x | Fault f => f ≠ past end.

Lemma safe_bind {A B} (P : A → Prop) (Q : B → Prop) m f :
  safe P m → (∀ x, m = Ok x → P x → safe Q (f x)) → safe Q (m ≫= f).
Proof. destruct m; cbn; auto. Qed.
Lemma safe_assert {B} (Q : B → Prop) b t (f : unit → res B) :
  AssertFail t ≠ past → (b = true → safe Q (f tt)) → safe Q (assert b t ≫= f).
Proof. destruct b; cbn; auto. Qed.
Lemma safe_get a e : safe (λ v, a_events a !! e = Some v) (a_get a e).
Proof. unfold a_get. by destruct (a_events a !! e). Qed.
Lemma safe_queue a q : safe (λ d, a_queues a !! q = Some d) (a_queue a q).
Proof. unfold a_queue. by destruct (a_queues a !! q). Qed.
Lemma safe_find this e v l : safe (λ _, True) (a_find this e v l).
Proof.
  unfold a_find. case_decide; [done|]. apply safe_assert; [done|]. intros _. by case_decide.
Qed.

(** A step on one event and its queue keeps the bound if the new pending events
    of the queue are old ones or the event, and not before the queue's tick. *)
Lemma timed_put a e v q fd d :
  timed a → Inv a → a_queues a !! q = Some d →
  (∀ q' d', q' ≠ q → a_queues a !! q' = Some d' → e ∉ pending d') →
  a_async (fd d) = [] →
  (∀ x, x ∈ pending (fd d) → x ≠ e → ∀ vx, a_events a !! x = Some vx → a_tick (fd d) ≤ v_when vx) →
  (e ∈ pending (fd d) → a_tick (fd d) ≤ v_when v) →
  timed (a_put e v q fd a).
Proof.
  intros [Hp Ht] Hi Hd Ho Ha Hx He. split; [done|]. intros q' d' Hd'. unfold a_put in *. cbn in *.
  destruct (decide (q' = q)) as [->|Hne].
  - rewrite lookup_alter_eq, Hd in Hd'. injection Hd' as <-. split; [done|]. intros x vx Hin Hv.
    destruct (decide (x = e)) as [->|]; [rewrite lookup_insert_eq in Hv; simplify_eq; auto|].
    rewrite lookup_insert_ne in Hv by done. eauto.
  - rewrite lookup_alter_ne in Hd' by done. destruct (Ht q' d' Hd') as [Ha' Ht']. split; [done|].
    intros x vx Hin Hv. rewrite lookup_insert_ne in Hv; [eauto|]. intros <-. by apply (Ho q' d').
Qed.

Lemma timed_event a e v v' :
  timed a → a_events a !! e = Some v → v_when v' = v_when v → timed (a <| a_events ::= <[e := v']> |>).
Proof.
  intros [Hp Ht] He Hw. split; [done|]. intros q d Hd. destruct (Ht q d Hd) as [Ha Ht']. split; [done|].
  intros x vx Hin Hv. cbn in Hv. destruct (decide (x = e)) as [->|].
  - rewrite lookup_insert_eq in Hv. simplify_eq. rewrite Hw. eauto.
  - rewrite lookup_insert_ne in Hv by done. eauto.
Qed.
Lemma timed_delete a e : timed a → timed (a <| a_events ::= delete e |>).
Proof.
  intros [Hp Ht]. split; [done|]. intros q d Hd. destruct (Ht q d Hd) as [Ha Ht']. split; [done|].
  intros x vx Hin Hv. cbn in Hv. apply lookup_delete_Some in Hv as [_ Hv]. eauto.
Qed.

Lemma find_ok this e v l u : a_find this e v l = Ok u → v_queue v = Some this ∧ e ∈ l.
Proof.
  unfold a_find. case_decide; [done|]. intros E. apply bind_ok in E as (? & Hb%assert_ok & E).
  apply bool_decide_eq_true in Hb. by case_decide.
Qed.
(** An event of queue [q], or one that is not scheduled, is on no other queue. *)
Lemma not_elsewhere a e v q q' d' :
  Inv a → a_events a !! e = Some v → v_scheduled v = false ∨ v_queue v = Some q →
  q' ≠ q → a_queues a !! q' = Some d' → e ∉ pending d'.
Proof.
  intros Hi He Hv Hne Hd' Hin. destruct (inv_listed _ Hi q' d' e Hd') as (v2 & ? & ? & ?); [set_solver|].
  destruct Hv; congruence.
Qed.

Lemma flags_timed a e f : timed a → safe timed (a_flags e f a).
Proof.
  intros Ht. unfold a_flags. eapply safe_bind; [apply safe_get|]. intros v _ Hv. cbn [safe]. by apply (timed_event _ _ v).
Qed.

Lemma schedule_timed a this e t global : Inv a → timed a → safe timed (a_schedule this e t global a).
Proof.
  intros Hi Ht. unfold a_schedule. eapply safe_bind; [apply safe_queue|]. intros d _ Hd.
  eapply safe_bind; [apply safe_get|]. intros v _ Hv. apply safe_assert; [done|intros Hle%Z.leb_le].
  apply safe_assert; [done|intros Hsc%negb_true_iff]. apply safe_assert; [done|intros _]. cbn [safe].
  rewrite (proj1 Ht). cbn [andb]. destruct (proj2 Ht this d Hd) as [Ha Hb].
  apply (timed_put _ _ _ _ _ d); [done|done|done| |done| |done].
  - intros q' d' Hne Hd'. apply (not_elsewhere a e v this q'); auto.
  - cbn. intros x Hx Hne vx Hvx. rewrite enqueue_perm in Hx. apply elem_of_cons in Hx as [->|Hx]; [done|eauto].
Qed.

Lemma deschedule_timed a this e : Inv a → timed a → safe timed (a_deschedule this e a).
Proof.
  intros Hi Ht. unfold a_deschedule. eapply safe_bind; [apply safe_get|]. intros v _ Hv.
  do 3 (apply safe_assert; [done|intros _]). eapply safe_bind; [apply safe_queue|]. intros d _ Hd.
  eapply safe_bind; [apply safe_find|]. intros [] [Hq Hin]%find_ok _. cbn [safe].
  destruct (proj2 Ht this d Hd) as [Ha Hb].
  assert (timed (a_put e (v <| v_flags ::= λ f, clear Scheduled (clear Squashed f) |>) this
    (λ q, q <| pending := without e (pending q) |>) a)) as Hput; [|by case_match; [apply timed_delete|]].
  apply (timed_put _ _ _ _ _ d); [done|done|done| |done| |].
  - intros q' d' Hne Hd'. apply (not_elsewhere a e v this q'); auto.
  - cbn. intros x [_ Hx]%list_elem_of_filter _ vx Hvx. eauto.
  - cbn. by intros [? _]%list_elem_of_filter.
Qed.

Lemma reschedule_timed a this e t always : Inv a → timed a → safe timed (a_reschedule this e t always a).
Proof.
  intros Hi Ht. unfold a_reschedule. eapply safe_bind; [apply safe_queue|]. intros d _ Hd.
  eapply safe_bind; [apply safe_get|]. intros v _ Hv. apply safe_assert; [done|intros Hle%Z.leb_le].
  do 3 (apply safe_assert; [done|intros _]). destruct (proj2 Ht this d Hd) as [Ha Hb].
  eapply (safe_bind (λ _, v_scheduled v = false ∨ v_queue v = Some this)).
  { destruct (v_scheduled v); [|by left]. pose proof (safe_find this e v (pending d)) as Hs.
    destruct (a_find _ _ _ _) eqn:E; [|done]. right. by apply find_ok in E as [? _]. }
  intros _ _ Hor. cbn [safe]. apply (timed_put _ _ _ _ _ d); [done|done|done| |done| |done].
  - intros q' d' Hne Hd'. apply (not_elsewhere a e v this q'); auto.
  - cbn. intros x Hx Hne vx Hvx. rewrite enqueue_perm in Hx.
    apply elem_of_cons in Hx as [->|[_ Hx]%list_elem_of_filter]; [done|eauto].
Qed.

Lemma call_timed a c : Inv a → timed a → safe timed (a_call a c).
Proof.
  intros Hi Ht. destruct c; cbn [a_call].
  - unfold a_construct. eapply (safe_bind (λ _, True)); [by apply safe_assert|]. intros ev _ _.
    destruct (a_events a !! event) eqn:E; [done|]. cbn [safe]. destruct Ht as [Hp Ht]. split; [done|].
    intros q d Hd. destruct (Ht q d Hd) as [Ha Ht']. split; [done|]. intros x vx Hin Hv. cbn in Hv.
    rewrite lookup_insert_ne in Hv; [eauto|]. intros <-.
    destruct (inv_listed _ Hi q d event Hd) as (v2 & ? & _); [set_solver|congruence].
  - unfold a_delete. eapply safe_bind; [apply safe_get|]. intros v _ Hv. apply safe_assert; [done|intros _].
    by apply timed_delete.
  - by apply schedule_timed.
  - by apply deschedule_timed.
  - by apply reschedule_timed.
  - by apply flags_timed.
  - apply safe_assert; [done|intros _]. by apply flags_timed.
  - apply safe_assert; [done|intros _]. by apply flags_timed.
Qed.

Lemma calls_timed w a cs : R w a → timed a → safe timed (foldM a_call a cs).
Proof.
  revert w a. induction cs as [|c cs IH]; intros w a HR Ht; [done|]. cbn.
  eapply safe_bind; [apply call_timed; [apply HR|done]|]. intros a1 E Ht1.
  pose proof (call_refines w a c HR) as Hr. rewrite E in Hr. destruct (do_call w c) as [w1|]; [|done].
  by apply (IH w1).
Qed.

(** Calls do not move time. *)
Definition ticks (a : AWorld) : gmap positive Tick := a_tick <$> a_queues a.
Lemma ticks_put e v q f a : (∀ d, a_tick (f d) = a_tick d) → ticks (a_put e v q f a) = ticks a.
Proof.
  intros Hf. unfold ticks, a_put. cbn. apply map_eq. intros q'. rewrite !lookup_fmap.
  destruct (decide (q' = q)) as [->|]; [|by rewrite lookup_alter_ne].
  rewrite lookup_alter_eq. destruct (a_queues a !! q); cbn; [by rewrite Hf|done].
Qed.
Lemma call_ticks a c a' : a_call a c = Ok a' → ticks a' = ticks a ∧ a_cur a' = a_cur a.
Proof.
  destruct c; cbn [a_call]; unfold a_construct, a_delete, a_schedule, a_deschedule, a_reschedule, a_flags; intros E;
    repeat (apply bind_ok in E as (? & ? & E)).
  - destruct (a_events a !! event); [done|]. by injection E as <-.
  - by injection E as <-.
  - injection E as <-. split; [|done]. apply ticks_put. intros d. by case_match.
  - injection E as <-. case_match; split; try done; exact (ticks_put event x q (out event) a (λ d, eq_refl)).
  - injection E as <-. split; [|done]. by apply ticks_put.
  - by injection E as <-.
  - by injection E as <-.
  - by injection E as <-.
Qed.
Lemma calls_ticks a cs a' : foldM a_call a cs = Ok a' → ticks a' = ticks a ∧ a_cur a' = a_cur a.
Proof.
  intros E. refine (foldM_ind (λ x, ticks x = ticks a ∧ a_cur x = a_cur a) a_call cs a a' _ (conj eq_refl eq_refl) E).
  intros b c b' _ [H1 H2] [H3 H4]%call_ticks. split; congruence.
Qed.

Section time.
Context {St : Type}.
Variable process : ptr → Tick → gmap positive View → St → list call * St.
(** What is known of the objects at a tick of the queue, kept by the handlers. *)
Variable I : St → Tick → Prop.
Hypothesis process_I : ∀ e t t0 V s, I s t0 → t0 ≤ t → I (process e t V s).2 t.

Definition ordered (this : qid) (ws : AWorld * St) : Prop :=
  timed ws.1 ∧ a_cur ws.1 = this ∧ ∃ t, ticks ws.1 !! this = Some t ∧ I ws.2 t.

Lemma auto_delete_ordered this e a s :
  ordered this (a, s) → safe (λ a', ordered this (a', s)) (a_auto_delete e a).
Proof.
  intros (Ht & Hc & Ho). unfold a_auto_delete. eapply safe_bind; [apply safe_get|]. intros v _ _. cbn [safe].
  case_match; [|done]. split_and!; [by apply timed_delete|done|exact Ho].
Qed.

(** Taking the first event leaves the others at its tick or later. *)
Lemma take_timed w a this d e l v v' fd :
  R w a → timed a → a_queues a !! this = Some d → pending d = e :: l → a_events a !! e = Some v →
  pending (fd d) = l → a_async (fd d) = a_async d →
  a_tick (fd d) = a_tick d ∨ a_tick (fd d) = v_when v → timed (a_put e v' this fd a).
Proof.
  intros [H Hi] Ht Hd Hp Hv Hf1 Hf2 Htk. destruct (proj2 Ht this d Hd) as [Ha Hb].
  destruct (rel_queue _ _ _ _ H Hd) as (c & Hc & _ & _ & Hch).
  rewrite Hp in Hch. pose proof (chain_nodup _ _ _ Hch) as [Hn _]%NoDup_cons.
  destruct (inv_listed _ Hi this d e Hd) as (v2 & Hv2 & Hq2 & _); [rewrite Hp; left|].
  assert (v2 = v) as -> by congruence. apply (timed_put _ _ _ _ _ d); [done|done|done| |congruence| |by rewrite Hf1].
  - intros q' d' Hne Hd'. apply (not_elsewhere a e v this q'); auto.
  - intros x Hx Hne vx Hvx. rewrite Hf1 in Hx. destruct Htk as [->| ->].
    + apply (Hb x); [|done]. rewrite Hp. by right.
    + pose proof (chain_min _ _ _ e x Hch Hx) as Hk. rewrite <-(rel_events _ _ H) in Hk.
      unfold kof in Hk. rewrite Hvx, Hv in Hk. unfold klt, v_key in Hk. cbn in Hk. lia.
Qed.

Lemma service_ordered w a s this :
  R w a → ordered this (a, s) → safe (λ y, ordered this y.2) (a_serviceOne process this (a, s)).
Proof.
  intros HR (Ht & Hcur & Ho). unfold a_serviceOne. cbn [fst snd]. eapply safe_bind; [apply safe_queue|]. intros d _ Hd.
  destruct (pending d) as [|e l] eqn:Hp; [done|]. eapply safe_bind; [apply safe_get|]. intros v _ Hv.
  assert (ticks a !! this = Some (a_tick d)) as Htd by (unfold ticks; by rewrite lookup_fmap, Hd).
  pose proof Ho as (t0 & Et0 & Hdesc). cbn [fst snd] in Et0, Hdesc. assert (t0 = a_tick d) as -> by congruence.
  set (v1 := v <| v_flags ::= clear Scheduled |>).
  destruct (isSet (v_flags v1) Squashed).
  - eapply safe_bind; [apply (auto_delete_ordered this e _ s)|intros a1 _ Ha1; exact Ha1]. split_and!.
    + apply (take_timed w a this d e l v); auto.
    + done.
    + cbn [fst snd]. rewrite ticks_put by done. exact Ho.
  - set (a1 := a_put e v1 this _ a).
    assert (timed a1) as Ht1 by (apply (take_timed w a this d e l v); auto).
    destruct (taken_related w a this d e l v (v_when v1) HR Hd Hp Hv) as [w1 HR1]. fold v1 a1 in HR1.
    assert (ticks a1 !! this = Some (v_when v)) as Htk.
    { unfold ticks, a1, a_put. cbn. by rewrite lookup_fmap, lookup_alter_eq, Hd. }
    eapply (safe_bind (λ y, ordered this y)).
    + unfold a_process. eapply safe_bind; [apply safe_queue|]. intros d1 _ Hd1.
      unfold ticks in Htk. rewrite lookup_fmap, Hd1 in Htk. injection Htk as Htk.
      eapply safe_bind; [by apply (calls_timed w1)|]. intros a2 Ecs Ht2. cbn [safe].
      apply calls_ticks in Ecs as [Ecs Ecur]. split_and!; [done|by rewrite <-Hcur|]. cbn [fst snd].
      exists (v_when v). split.
      { by rewrite Ecs; unfold ticks; rewrite lookup_fmap, Hd1; cbn; rewrite Htk. }
      rewrite Htk. apply process_I with (a_tick d); [done|].
      destruct (proj2 Ht this d Hd) as [_ Hb]. apply (Hb e); [rewrite Hp; left|done].
    + intros [a2 s2] _ Ho2. cbn [fst snd]. eapply safe_bind; [apply safe_get|]. intros v2 _ Hv2. case_match.
      * apply safe_assert; [done|intros _]. exact Ho2.
      * eapply safe_bind; [by apply (auto_delete_ordered this e)|]. intros a3 _ Ho3. exact Ho3.
Qed.

Lemma step_ordered w a s this poll :
  R w a → ordered this (a, s) → safe (λ y, ordered this y.2) (a_sim_step process this poll (a, s)).
Proof.
  intros HR (Ht & Hcur & Ho). unfold a_sim_step. cbn [fst snd] in *. eapply safe_bind; [apply safe_queue|]. intros d _ Hd.
  destruct (pending d) as [|e l] eqn:Hp; [done|]. eapply safe_bind; [apply safe_get|]. intros v _ Hv.
  rewrite Hcur. eapply safe_bind; [apply safe_queue|]. intros c _ Hc. assert (c = d) as -> by congruence.
  destruct (proj2 Ht this d Hd) as [_ Hb].
  assert (a_tick d ≤ v_when v) as Hle by (apply (Hb e); [rewrite Hp; left|done]).
  rewrite assert_bind by (by apply Z.leb_le). eapply safe_bind; [by apply (calls_timed w)|]. intros a1 E Ht1.
  pose proof (calls_refine w a (default ([], false) poll).1 HR) as Hr. rewrite E in Hr. destruct (foldM do_call w _) as [w1|]; [|done].
  apply calls_ticks in E as [E1 E2].
  assert (ordered this (a1, s)) as Ho1. { split_and!; [done|by rewrite <-Hcur|]. cbn [fst snd]. by rewrite E1. }
  destruct (default ([], false) poll).2; [exact Ho1|].
  eapply safe_bind; [by apply (service_ordered w1)|]. intros y _ Hy. exact Hy.
Qed.

Lemma loop_ordered fuel w a s this polls :
  R w a → ordered this (a, s) → safe (λ y, ordered this y.2) (a_sim_loop process fuel this polls (a, s)).
Proof.
  revert w a s. induction fuel as [|fuel IH]; intros w a s HR Ho; cbn [a_sim_loop]; [done|].
  eapply safe_bind; [by apply (step_ordered w)|]. intros [r [a1 s1]] E Ho1. cbn [fst snd] in *.
  destruct r; [done|]. pose proof (sim_step_refines process w a s this (polls fuel) HR) as Hr. rewrite E in Hr.
  destruct (sim_step _ _ _ _) as [[r' [w1 s1']]|]; [|done]. destruct Hr as (_ & HR1 & _). by apply (IH w1).
Qed.

Lemma safe_transfer {A B} (Q : A → B → Prop) (P : A → Prop) (P' : B → Prop) m n :
  rres Q m n → safe P' n → (∀ x y, Q x y → P' y → P x) → safe P m.
Proof. destruct m, n; cbn; naive_solver. Qed.

Lemma enter_related w a this : R w a → R (w <| curEventQueue := this |>) (a <| a_cur := this |>).
Proof. intros [[H1 H2 H3 H4] [I1 I2 I3]]. split; split; done. Qed.

(** Without threads there is nothing to take over when the loop is entered. *)
Lemma handleAsync_none a this d :
  timed a → a_queues a !! this = Some d →
  a_handleAsync this (a <| a_cur := this |>) = Ok (a <| a_cur := this |>).
Proof.
  intros Ht Hd. unfold a_handleAsync. rewrite assert_bind by (by apply bool_decide_eq_true).
  unfold a_queue. cbn. rewrite Hd. cbn. destruct (proj2 Ht this d Hd) as [Ha _]. rewrite Ha. cbn. f_equal. f_equal.
  apply insert_id. rewrite Hd. destruct d. cbn in *. by subst.
Qed.

Lemma doSimLoop_ordered w a s this fuel polls :
  R w a → timed a → (∀ t, I s t) →
  safe (λ y, ordered this y.2) (a_doSimLoop process fuel this polls (a, s)).
Proof.
  intros HR Ht HI. unfold a_doSimLoop. cbn [fst snd]. destruct (a_queues a !! this) as [d|] eqn:Hd.
  - rewrite (handleAsync_none a this d) by done. cbn [mbind res_bind].
    apply (loop_ordered fuel (w <| curEventQueue := this |>)); [by apply enter_related|].
    split_and!; [exact Ht|done|]. exists (a_tick d). unfold ticks. cbn. rewrite lookup_fmap, Hd. by split.
  - unfold a_handleAsync. rewrite assert_bind by (by apply bool_decide_eq_true).
    unfold a_queue. cbn. by rewrite Hd.
Qed.
End time.

(** The ticks of a run, latest first, never increase towards the past. *)
Abbreviation descending := (StronglySorted (λ later earlier : Tick, earlier ≤ later)).

(** The handlers, with a log of the ticks at which they run. *)
Definition logged {St} (process : ptr → Tick → gmap positive View → St → list call * St)
    (e : ptr) (t : Tick) (V : gmap positive View) (s : St * list Tick) : list call * (St * list Tick) :=
  let r := process e t V s.1 in (r.1, (r.2, t :: s.2)).

Lemma log_descending (l : list Tick) t t0 : descending (t0 :: l) → t0 ≤ t → descending (t :: t :: l).
Proof.
  intros [Hs Hf]%StronglySorted_inv Ht. assert (Forall (λ x, x ≤ t) l) as Hf'.
  { eapply Forall_impl; [exact Hf|]. cbn. lia. }
  repeat constructor; [done|done|lia|done].
Qed.

Lemma init_timed qs cur : timed (a_init qs false cur).
Proof.
  split; [done|]. intros q d. cbn. rewrite lookup_gset_to_gmap_Some. intros [_ <-]. cbn. set_solver.
Qed.

(** C26: without threads ([inParallelMode] false), whatever calls built the
    queues, whatever the handlers do and whatever signals arrive, the simulation
    loop never finds an event scheduled in the past, and the ticks at which the
    handlers run never decrease. *)
Theorem events_in_time_order {St} (process : ptr → Tick → gmap positive View → St → list call * St)
    qs cur calls fuel this polls (s : St) :
  safe (λ r, descending r.2.2.2)
    (w ← foldM do_call (init qs false cur) calls;
     doSimLoop (logged process) fuel this polls (w, (s, []))).
Proof.
  pose proof (calls_refine _ _ calls (init_related qs false cur)) as Hr.
  pose proof (calls_timed _ _ calls (init_related qs false cur) (init_timed qs cur)) as Ht.
  destruct (foldM do_call _ _) as [w|f], (foldM a_call _ _) as [a|g]; try done; [|by cbn in *; subst].
  eapply safe_transfer; [by apply doSimLoop_refines| |].
  - apply (doSimLoop_ordered (logged process) (λ s t, descending (t :: s.2))) with w; [|done|done|].
    + intros. by eapply log_descending.
    + repeat constructor.
  - intros [r [w1 s1]] [r' [a1 s2]] (_ & _ & E) (_ & _ & t & _ & Hd). cbn in E, Hd |- *. subst s2.
    by apply StronglySorted_inv in Hd as [Hd _].
Qed.

End EventQueueRun.
