(* ===== verification/EventQueueExit.v ===== *)
(** * The simulation loop reaches its exit event

    If handlers schedule for later ticks only and leave the exit event alone, the
    loop of [doSimLoop] returns: between two ticks only the events that were
    pending can run, and every serviced event is one of those, moves time
    towards the exit event, or was squashed. *)

From S2P Require Import Prelude EventQueue EventQueueProofs EventQueueSpec EventQueueRun.
Import EventQueue EventQueueProofs EventQueueSpec EventQueueRun.

Module EventQueueExit.

(** A call made at tick [t] that schedules for later and does not touch [x]. *)
Definition leaves (x : ptr) (t : Tick) (c : call) : Prop :=
  match c with
  | New _ _ _ => True
  | Schedule _ e t' _ | Reschedule _ e t' _ => e ≠ x ∧ t < t'
  | Delete e | Deschedule _ e | Squash e | SetFlags e _ | ClearFlags e _ => e ≠ x
  end.

(** The events of a list that are due by tick [t]. *)
Definition early (V : gmap positive View) (t : Tick) (l : list ptr) : gset positive :=
  list_to_set (filter (λ e, (kof V e).1 ≤ t) l).

Lemma elem_of_early V t l e : e ∈ early V t l ↔ e ∈ l ∧ (kof V e).1 ≤ t.
Proof. unfold early. rewrite elem_of_list_to_set, list_elem_of_filter. tauto. Qed.

Section effects.
Variables (this : qid) (x : ptr).

(** Nothing becomes due by [t], and [x] stays as it is. *)
Definition eff (t : Tick) (a a' : AWorld) : Prop :=
  a_events a' !! x = a_events a !! x ∧
  ∀ d, a_queues a !! this = Some d → ∃ d', a_queues a' !! this = Some d' ∧ a_tick d' = a_tick d ∧
    (x ∈ pending d → x ∈ pending d') ∧
    early (a_events a') t (pending d') ⊆ early (a_events a) t (pending d).

Lemma eff_refl t a : eff t a a.
Proof. split; [done|]. intros d Hd. by exists d. Qed.
Lemma eff_trans t a1 a2 a3 : eff t a1 a2 → eff t a2 a3 → eff t a1 a3.
Proof.
  intros [E1 H1] [E2 H2]. split; [congruence|]. intros d Hd. destruct (H1 d Hd) as (d2 & Hd2 & T2 & X2 & S2).
  destruct (H2 d2 Hd2) as (d3 & Hd3 & T3 & X3 & S3). exists d3. split_and!; [done|congruence|auto|]. set_solver.
Qed.

(** One event other than [x] changes; if it is pending on [this] afterwards, it
    is due after [t], or it was pending and its tick is the same. *)
Lemma eff_event t a a' e :
  e ≠ x → (∀ y, y ≠ e → a_events a' !! y = a_events a !! y) →
  (∀ d, a_queues a !! this = Some d → ∃ d', a_queues a' !! this = Some d' ∧ a_tick d' = a_tick d ∧
    (∀ y, y ≠ e → y ∈ pending d' ↔ y ∈ pending d) ∧
    (e ∈ pending d' → t < (kof (a_events a') e).1 ∨
       (e ∈ pending d ∧ (kof (a_events a') e).1 = (kof (a_events a) e).1))) →
  eff t a a'.
Proof.
  intros Hne Hev Hq. split; [by apply Hev|]. intros d Hd. destruct (Hq d Hd) as (d' & Hd' & Ht & Hy & He).
  exists d'. split_and!; [done|done|by apply Hy|]. intros y. rewrite !elem_of_early. intros [Hin Hle].
  destruct (decide (y = e)) as [->|Hye].
  - destruct (He Hin) as [?|[? E]]; [lia|]. rewrite E in Hle. done.
  - unfold kof in *. rewrite (Hev y Hye) in Hle. by apply Hy in Hin.
Qed.

(** The same for a change of one event and one queue. *)
Lemma eff_put t a e v q fd d0 :
  e ≠ x → a_queues a !! q = Some d0 → a_tick (fd d0) = a_tick d0 →
  (∀ y, y ≠ e → y ∈ pending (fd d0) ↔ y ∈ pending d0) →
  (e ∈ pending (fd d0) → t < v_when v) →
  (q ≠ this → ∀ d, a_queues a !! this = Some d → e ∉ pending d) →
  eff t a (a_put e v q fd a).
Proof.
  intros Hne Hd0 Ht Hy He Ho. apply (eff_event _ _ _ e); [done| |].
  - intros y Hye. unfold a_put. cbn. by rewrite lookup_insert_ne.
  - intros d Hd. unfold a_put. cbn. destruct (decide (q = this)) as [->|Hq].
    + assert (d0 = d) as -> by congruence. exists (fd d). rewrite lookup_alter_eq, Hd. split_and!; [done..|].
      intros Hin. left. unfold kof. rewrite lookup_insert_eq. cbn. auto.
    + exists d. rewrite lookup_alter_ne by done. split_and!; [done..|]. intros Hin. by destruct (Ho Hq d).
Qed.

Lemma eff_delete t a e :
  e ≠ x → (∀ d, a_queues a !! this = Some d → e ∉ pending d) → eff t a (a <| a_events ::= delete e |>).
Proof.
  intros Hne Hn. apply (eff_event _ _ _ e); [done| |].
  - intros y Hy. cbn. by rewrite lookup_delete_ne.
  - intros d Hd. exists d. split_and!; [done..|]. intros Hin. by destruct (Hn d).
Qed.

Lemma flags_eff t a e f a' : e ≠ x → a_flags e f a = Ok a' → eff t a a'.
Proof.
  intros Hne E. apply bind_ok in E as (v & Hv & E). injection E as <-. unfold a_get in Hv. case_match; simplify_eq.
  apply (eff_event _ _ _ e); [done| |].
  - intros y Hy. cbn. by rewrite lookup_insert_ne.
  - intros d Hd. exists d. split_and!; [done..|]. intros Hin. right. split; [done|].
    unfold kof. cbn. rewrite lookup_insert_eq. by simplify_option_eq.
Qed.

Lemma a_get_inv a e v : a_get a e = Ok v → a_events a !! e = Some v.
Proof. unfold a_get. intros H. case_match; by simplify_eq. Qed.
Lemma a_queue_inv a q d : a_queue a q = Ok d → a_queues a !! q = Some d.
Proof. unfold a_queue. intros H. case_match; by simplify_eq. Qed.

Lemma schedule_eff t a q e t' global a' :
  Inv a → timed a → e ≠ x → t < t' → a_schedule q e t' global a = Ok a' → eff t a a'.
Proof.
  intros Hi Ht Hne Hlt E. apply bind_ok in E as (d0 & Hd0%a_queue_inv & E).
  apply bind_ok in E as (v & Hv%a_get_inv & E). apply bind_ok in E as (? & _ & E).
  apply bind_ok in E as (? & Hs%assert_ok%negb_true_iff & E). apply bind_ok in E as (? & _ & E). injection E as <-.
  rewrite (proj1 Ht). cbn [andb]. apply (eff_put _ _ _ _ _ _ d0); [done..| |done|].
  - intros y Hy. cbn. rewrite enqueue_perm. set_solver.
  - intros Hq d Hd. apply (not_elsewhere a e v q this); auto.
Qed.

Lemma deschedule_eff t a q e a' :
  Inv a → e ≠ x → a_deschedule q e a = Ok a' → eff t a a'.
Proof.
  intros Hi Hne E. apply bind_ok in E as (v & Hv%a_get_inv & E). do 3 apply bind_ok in E as (? & _ & E).
  apply bind_ok in E as (d0 & Hd0%a_queue_inv & E). apply bind_ok in E as (? & Hf & E). apply find_ok in Hf as [Hq Hin].
  injection E as <-. set (a1 := a_put e _ q _ a).
  assert (eff t a a1) as He1.
  { apply (eff_put _ _ _ _ _ _ d0); [done..| | |].
    - intros y Hy. cbn. rewrite list_elem_of_filter. tauto.
    - cbn. intros [? _]%list_elem_of_filter. done.
    - intros Hq' d Hd. apply (not_elsewhere a e v q this); auto. }
  case_match; [|done]. eapply eff_trans; [exact He1|]. apply (eff_delete t a1 e); [done|].
  intros d Hd. unfold a1, a_put in Hd. cbn in Hd. destruct (decide (q = this)) as [->|Hq'].
  - rewrite lookup_alter_eq, Hd0 in Hd. injection Hd as <-. cbn. by intros [? _]%list_elem_of_filter.
  - rewrite lookup_alter_ne in Hd by done. apply (not_elsewhere a e v q this); auto.
Qed.

Lemma reschedule_eff t a q e t' always a' :
  Inv a → e ≠ x → t < t' → a_reschedule q e t' always a = Ok a' → eff t a a'.
Proof.
  intros Hi Hne Hlt E. apply bind_ok in E as (d0 & Hd0%a_queue_inv & E).
  apply bind_ok in E as (v & Hv%a_get_inv & E). do 4 apply bind_ok in E as (? & _ & E).
  apply bind_ok in E as (? & Hf & E). injection E as <-.
  assert (v_scheduled v = false ∨ v_queue v = Some q) as Hor.
  { destruct (v_scheduled v); [|by left]. right. by apply find_ok in Hf as [? _]. }
  apply (eff_put _ _ _ _ _ _ d0); [done..| |done|].
  - intros y Hy. cbn. rewrite enqueue_perm, elem_of_cons, list_elem_of_filter. tauto.
  - intros Hq d Hd. apply (not_elsewhere a e v q this); auto.
Qed.

Lemma call_eff t a c a' vx :
  Inv a → timed a → a_events a !! x = Some vx → leaves x t c → a_call a c = Ok a' → eff t a a'.
Proof.
  intros Hi Ht Hx Hc E. destruct c; cbn [a_call leaves] in *.
  - apply bind_ok in E as (ev & _ & E). destruct (a_events a !! event) eqn:He; [done|]. injection E as <-.
    apply (eff_event _ _ _ event); [congruence| |].
    + intros y Hy. cbn. by rewrite lookup_insert_ne.
    + intros d Hd. exists d. split_and!; [done..|]. intros Hin.
      destruct (inv_lists _ Hi this d event Hd Hin) as (? & ? & _). congruence.
  - apply bind_ok in E as (v & Hv%a_get_inv & E). apply bind_ok in E as (? & Hs%assert_ok%negb_true_iff & E).
    injection E as <-. apply eff_delete; [done|]. intros d Hd Hin.
    apply (inv_unscheduled a event v this d Hi Hv Hs Hd). set_solver.
  - destruct Hc. eapply schedule_eff; eauto.
  - by eapply deschedule_eff.
  - destruct Hc. eapply reschedule_eff; eauto.
  - by eapply flags_eff.
  - apply bind_ok in E as (? & _ & E). by eapply flags_eff.
  - apply bind_ok in E as (? & _ & E). by eapply flags_eff.
Qed.

Lemma calls_eff t w a cs a' vx :
  R w a → timed a → a_events a !! x = Some vx → Forall (leaves x t) cs →
  foldM a_call a cs = Ok a' → eff t a a' ∧ timed a' ∧ ∃ w', R w' a'.
Proof.
  revert w a. induction cs as [|c cs IH]; intros w a HR Ht Hx Hl E.
  { injection E as <-. split_and!; [apply eff_refl|done|eauto]. }
  apply bind_ok in E as (a1 & E1 & E). inversion Hl as [|? ? Hc Hl']; subst.
  pose proof (call_eff t a c a1 vx (proj2 HR) Ht Hx Hc E1) as He.
  pose proof (call_timed a c (proj2 HR) Ht) as Ht1. rewrite E1 in Ht1.
  pose proof (call_refines w a c HR) as Hr. rewrite E1 in Hr. destruct (do_call w c) as [w1|]; [|done].
  destruct (IH w1 a1 Hr Ht1) as (He2 & Ht2 & HR2); [by rewrite (proj1 He)|done|done|].
  split_and!; [by eapply eff_trans|done|done].
Qed.

Lemma auto_delete_eff t a e a' : Inv a → e ≠ x → a_auto_delete e a = Ok a' → eff t a a'.
Proof.
  intros Hi Hne E. apply bind_ok in E as (v & Hv%a_get_inv & E). injection E as <-.
  destruct (isSet (v_flags v) AutoDelete && negb (v_scheduled v)) eqn:Eb; [|apply eff_refl].
  apply andb_true_iff in Eb as [_ Hs%negb_true_iff]. apply eff_delete; [done|]. intros d Hd Hin.
  apply (inv_unscheduled a e v this d Hi Hv Hs Hd). set_solver.
Qed.

Context {St : Type}.
Variable process : ptr → Tick → gmap positive View → St → list call * St.
Hypothesis process_leaves : ∀ e t V s, Forall (leaves x t) (process e t V s).1.

(** The pending exit event. *)
Definition exit_view (v : View) : Prop :=
  isSet (v_flags v) Squashed = false ∧ isSet (v_flags v) IsExitEvent = true.

Lemma flag_clear n f : 0 ≤ n → n ≠ 1 → isSet (clear Scheduled f) (2 ^ n) = isSet f (2 ^ n).
Proof.
  intros Hn Hne. rewrite !isSet_bit by done. unfold clear. rewrite Z.land_spec, Z.lnot_spec by done.
  change Scheduled with (2 ^ 1). rewrite Z.pow2_bits_false by done. apply andb_true_r.
Qed.

Lemma clear_squashed f : isSet (clear Scheduled f) Squashed = isSet f Squashed.
Proof. by apply (flag_clear 0). Qed.
Lemma clear_exit f : isSet (clear Scheduled f) IsExitEvent = isSet f IsExitEvent.
Proof. by apply (flag_clear 4). Qed.

(** What is left after the first event [e] of the queue was taken off. *)
Definition progress (a : AWorld) (d : AQueue) (e : ptr) (l : list ptr) (v : View) (a' : AWorld) (d' : AQueue) : Prop :=
  (a_tick d' = a_tick d ∧ pending d' = l ∧
     early (a_events a') (a_tick d) (pending d') ⊆ early (a_events a) (a_tick d) (pending d)) ∨
  (a_tick d' = v_when v ∧
     early (a_events a') (v_when v) (pending d') ⊆ early (a_events a) (v_when v) (pending d) ∖ {[e]}).

Lemma early_taken a e v' l t :
  e ∉ l → early (<[e := v']> (a_events a)) t l ⊆ early (a_events a) t (e :: l) ∖ {[e]}.
Proof.
  intros Hn y. rewrite elem_of_difference, !elem_of_early, elem_of_cons, elem_of_singleton.
  intros [Hy Hle]. assert (y ≠ e) as Hne by congruence. unfold kof in *. rewrite lookup_insert_ne in Hle by done. auto.
Qed.

Lemma taken_eff t a d e l vx v' fd a' :
  a_queues a !! this = Some d → pending d = e :: l → e ∉ l → pending (fd d) = l → e ≠ x →
  a_events a !! x = Some vx → x ∈ pending d → eff t (a_put e v' this fd a) a' →
  ∃ d', a_queues a' !! this = Some d' ∧ a_events a' !! x = Some vx ∧ x ∈ pending d' ∧
    a_tick d' = a_tick (fd d) ∧
    early (a_events a') t (pending d') ⊆ early (a_events a) t (pending d) ∖ {[e]}.
Proof.
  intros Hd Hp Hn Hf Hne Hx Hxin [He Hq]. destruct (Hq (fd d)) as (d' & Hd' & Ht & Hxin' & Hsub).
  { unfold a_put. cbn. by rewrite lookup_alter_eq, Hd. }
  exists d'. rewrite Hp, Hf in *. split_and!; [done| | |done|].
  - rewrite He. unfold a_put. cbn. by rewrite lookup_insert_ne.
  - apply Hxin'. set_solver.
  - etrans; [exact Hsub|]. by apply early_taken.
Qed.

Lemma auto_delete_queues e a a' : a_auto_delete e a = Ok a' → a_queues a' = a_queues a.
Proof. intros E. apply bind_ok in E as (v & _ & E). injection E as <-. by case_match. Qed.

Lemma squashed_progress a s d e l v vx a' s' :
  Inv a → a_queues a !! this = Some d → pending d = e :: l → e ∉ l → a_events a !! e = Some v →
  a_events a !! x = Some vx → x ∈ pending d → exit_view vx → isSet (v_flags v) Squashed = true →
  a_serviceOne process this (a, s) = Ok (None, (a', s')) →
  ∃ d', a_queues a' !! this = Some d' ∧ a_events a' !! x = Some vx ∧ x ∈ pending d' ∧
    progress a d e l v a' d'.
Proof.
  intros Hi Hd Hp Hn Hv Hx Hxin [Hsq Hex] Es E. unfold a_serviceOne in E. cbn [fst snd] in E.
  apply bind_ok in E as (d0 & Hd0%a_queue_inv & E). assert (d0 = d) as -> by congruence. rewrite Hp in E.
  rewrite (a_get_ok a e v Hv) in E. cbn [mbind res_bind] in E.
  change (v_flags (v <| v_flags ::= clear Scheduled |>)) with (clear Scheduled (v_flags v)) in E.
  rewrite clear_squashed, Es in E.
  set (v2 := v <| v_flags ::= clear Scheduled |> <| v_flags ::= clear Squashed |>) in E.
  apply bind_ok in E as (a1 & E1 & E). injection E as <- <-.
  assert (e ≠ x) as Hne by congruence.
  destruct (inv_listed _ Hi this d e Hd) as (v3 & Hv3 & Hq3 & _); [rewrite Hp; left|].
  assert (Inv (a_put e v2 this (λ q, q <| pending := l |>) a)) as Hi1.
  { eapply inv_leave; [done|done|exact Hv3|done|by apply leave_head|]. unfold v_scheduled. cbn.
    rewrite clear_keeps by done. apply clear_scheduled. }
  pose proof (auto_delete_eff (a_tick d) _ e a1 Hi1 Hne E1) as He. pose proof (auto_delete_queues _ _ _ E1) as Eq.
  destruct (taken_eff (a_tick d) a d e l vx v2 (λ q, q <| pending := l |>) a1)
    as (d' & Hd' & Hx' & Hxin' & Ht & Hsub); [done..|].
  exists d'. split_and!; [done..|]. left. split_and!; [done| |set_solver].
  rewrite Eq in Hd'. unfold a_put in Hd'. cbn in Hd'. rewrite lookup_alter_eq, Hd in Hd'. by injection Hd' as <-.
Qed.

Lemma run_progress w a s d e l v vx a' s' :
  R w a → timed a → a_queues a !! this = Some d → pending d = e :: l → e ∉ l → a_events a !! e = Some v →
  a_events a !! x = Some vx → x ∈ pending d → exit_view vx → isSet (v_flags v) Squashed = false →
  a_serviceOne process this (a, s) = Ok (None, (a', s')) →
  ∃ d', a_queues a' !! this = Some d' ∧ a_events a' !! x = Some vx ∧ x ∈ pending d' ∧
    progress a d e l v a' d'.
Proof.
  intros HR Ht Hd Hp Hn Hv Hx Hxin [Hsq Hex] Es E. unfold a_serviceOne in E. cbn [fst snd] in E.
  apply bind_ok in E as (d0 & Hd0%a_queue_inv & E). assert (d0 = d) as -> by congruence. rewrite Hp in E.
  rewrite (a_get_ok a e v Hv) in E. cbn [mbind res_bind] in E. set (v1 := v <| v_flags ::= clear Scheduled |>) in *.
  change (v_flags v1) with (clear Scheduled (v_flags v)) in E at 1.
  rewrite clear_squashed, Es in E. set (a1 := a_put e v1 this _ a) in E.
  assert (timed a1) as Ht1 by (apply (take_timed w a this d e l v); auto).
  destruct (taken_related w a this d e l v (v_when v1) HR Hd Hp Hv) as [w1 HR1]. fold v1 a1 in HR1.
  assert (∃ vx1, a_events a1 !! x = Some vx1 ∧ isSet (v_flags vx1) IsExitEvent = true) as (vx1 & Hx1 & Hex1).
  { unfold a1, a_put. cbn. destruct (decide (e = x)) as [->|]; [|rewrite lookup_insert_ne by done; eauto].
    rewrite lookup_insert_eq. eexists. split; [done|]. assert (v = vx) as -> by congruence.
    cbn. by rewrite clear_exit. }
  apply bind_ok in E as ([a2 s2] & E1 & E). apply bind_ok in E1 as (d1 & Hd1%a_queue_inv & E1).
  assert (a_tick d1 = v_when v) as Etk.
  { unfold a1, a_put in Hd1. cbn in Hd1. rewrite lookup_alter_eq, Hd in Hd1. by injection Hd1 as <-. }
  rewrite Etk in E1. apply bind_ok in E1 as (a3 & Ecs & E1). injection E1 as <- <-.
  destruct (calls_eff (v_when v) w1 a1 _ a3 vx1 HR1 Ht1 Hx1 (process_leaves _ _ _ _) Ecs) as (He & _ & w3 & HR3).
  cbn [fst snd] in E. apply bind_ok in E as (v3 & Hv3%a_get_inv & E).
  assert (e ≠ x) as Hne. { intros ->. rewrite (proj1 He), Hx1 in Hv3. injection Hv3 as <-. rewrite Hex1 in E. by res_inv. }
  destruct (isSet (v_flags v3) IsExitEvent); [by res_inv|]. apply bind_ok in E as (a4 & E4 & E). injection E as <- <-.
  pose proof (auto_delete_eff (v_when v) _ e a4 (proj2 HR3) Hne E4) as He4.
  destruct (taken_eff (v_when v) a d e l vx v1 (λ q, q <| pending := l |> <| a_tick := v_when v1 |>) a4)
    as (d' & Hd' & Hx' & Hxin' & Htk & Hsub); [done..|by eapply eff_trans|].
  exists d'. split_and!; [done..|]. right. by split.
Qed.

Abbreviation on_time := (ordered (λ (_ : St) (_ : Tick), True) this).

(** One round of the loop: it ends, or the queue has made progress. *)
Lemma step_progress w a s d vx :
  R w a → on_time (a, s) → a_queues a !! this = Some d → a_events a !! x = Some vx →
  x ∈ pending d → exit_view vx →
  match a_sim_step process this None (a, s) with
  | Fault f => f ≠ past
  | Ok (Some r, _) => is_Some r
  | Ok (None, (a', s')) => on_time (a', s') ∧ (∃ w', R w' a') ∧
      ∃ e l v d', pending d = e :: l ∧ a_events a !! e = Some v ∧ a_queues a' !! this = Some d' ∧
        a_events a' !! x = Some vx ∧ x ∈ pending d' ∧ progress a d e l v a' d'
  end.
Proof.
  intros HR Ho Hd Hx Hxin Hex. pose proof (step_ordered process (λ _ _, True) (λ _ _ _ _ _ _ _, I) w a s this None HR Ho) as Hs.
  pose proof (sim_step_refines process w a s this None HR) as Hr.
  destruct (a_sim_step process this None (a, s)) as [[r [a' s']]|f] eqn:E; [|done].
  unfold a_sim_step in E. cbn [fst snd] in E. apply bind_ok in E as (d0 & Hd0%a_queue_inv & E).
  assert (d0 = d) as -> by congruence. destruct (pending d) as [|e l] eqn:Hp; [done|].
  apply bind_ok in E as (v & Hv%a_get_inv & E). apply bind_ok in E as (c & _ & E). apply bind_ok in E as (? & _ & E).
  cbn [default from_option fst snd foldM mbind res_bind id] in E. apply bind_ok in E as ([r1 [a1 s1]] & E1 & E).
  injection E as <- <- <-. cbn [fst snd] in *. destruct r1 as [r1|]; [by eexists|]. split; [done|].
  destruct (sim_step _ _ _ _) as [[r' [w' s2]]|]; [|done]. destruct Hr as (_ & HR' & _). split; [by exists w'|].
  destruct (rel_queue _ _ _ _ (proj1 HR) Hd) as (c' & _ & _ & _ & Hch). rewrite Hp in Hch.
  pose proof (chain_nodup _ _ _ Hch) as [Hn _]%NoDup_cons. rewrite <-Hp in Hxin.
  destruct (isSet (v_flags v) Squashed) eqn:Es.
  - destruct (squashed_progress a s d e l v vx a1 s1 (proj2 HR)) as (d' & ?); [done..|]. exists e, l, v, d'. tauto.
  - destruct (run_progress w a s d e l v vx a1 s1 HR (proj1 Ho)) as (d' & ?); [done..|]. exists e, l, v, d'. tauto.
Qed.

(** After [fuel] rounds the loop has returned an event, or the next round fails
    although the exit event is pending. *)
Definition ends (fuel : nat) (y : AWorld * St) : Prop :=
  (∃ e z, a_sim_loop process fuel this (λ _, None) y = Ok (Some (Some e), z)) ∨
  (∃ w a s d f, a_sim_loop process fuel this (λ _, None) y = Ok (None, (a, s)) ∧ R w a ∧
     on_time (a, s) ∧ a_queues a !! this = Some d ∧ x ∈ pending d ∧ a_sim_step process this None (a, s) = Fault f).

Lemma loop_returns w a s d vx :
  R w a → on_time (a, s) → a_queues a !! this = Some d → a_events a !! x = Some vx →
  x ∈ pending d → exit_view vx → ∃ fuel, ends fuel (a, s).
Proof.
  remember (Z.to_nat (v_when vx - a_tick d)) as n1 eqn:E1. remember (size (early (a_events a) (a_tick d) (pending d))) as n2 eqn:E2.
  remember (length (pending d)) as n3 eqn:E3. revert n2 n3 w a s d E1 E2 E3.
  induction n1 as [n1 IH1] using lt_wf_ind. induction n2 as [n2 IH2] using lt_wf_ind.
  induction n3 as [n3 IH3] using lt_wf_ind. intros w a s d E1 E2 E3 HR Ho Hd Hx Hxin Hex.
  pose proof (step_progress w a s d vx HR Ho Hd Hx Hxin Hex) as Hs.
  assert (∀ f y, a_sim_step process this None (a, s) = Ok (None, y) → ends f y → ends (S f) (a, s)) as Hmore.
  { intros f y E. unfold ends. cbn [a_sim_loop]. by rewrite E. }
  destruct (a_sim_step process this None (a, s)) as [[[r|] [a' s']]|f] eqn:E.
  { destruct Hs as [e ->]. exists 1%nat. left. cbn. rewrite E. cbn. eauto. }
  2:{ exists 0%nat. right. by exists w, a, s, d, f. }
  destruct Hs as (Ho' & [w' HR'] & e & l & v & d' & Hp & Hv & Hd' & Hx' & Hxin' & Hpr).
  assert (a_tick d' ≤ v_when vx) as HT by (by apply (proj2 (proj2 (proj1 Ho') this d' Hd') x)).
  assert (a_tick d ≤ v_when v) as Htv by (apply (proj2 (proj2 (proj1 Ho) this d Hd) e); [rewrite Hp; left|done]).
  destruct Hpr as [(Et & El & Hsub)|(Et & Hsub)].
  - rewrite <-Et in Hsub at 1. apply subseteq_size in Hsub as Hsz.
    destruct (decide (size (early (a_events a') (a_tick d') (pending d')) = n2)) as [En|].
    + destruct (IH3 (length (pending d'))) with w' a' s' d' as [f Hf]; try done; [|congruence|].
      * rewrite E3, Hp, El. cbn. lia.
      * exists (S f). by eapply Hmore.
    + destruct (IH2 (size (early (a_events a') (a_tick d') (pending d')))) with (length (pending d')) w' a' s' d'
        as [f Hf]; try done; [lia|congruence|]. exists (S f). by eapply Hmore.
  - rewrite <-Et in Hsub. destruct (decide (v_when v = a_tick d)) as [Eq|Hne].
    + assert (size (early (a_events a') (a_tick d') (pending d')) < n2)%nat as Hlt.
      { rewrite E2, <-Eq, <-Et. apply subset_size. split; [set_solver|]. intros Hsub2.
        assert (e ∈ early (a_events a) (a_tick d') (pending d)) as He.
        { apply elem_of_early. rewrite Hp, Et. split; [left|]. unfold kof. rewrite Hv. cbn. lia. }
        apply Hsub2, Hsub in He. set_solver. }
      destruct (IH2 _ Hlt (length (pending d')) w' a' s' d') as [f Hf]; try done; [congruence|].
      exists (S f). by eapply Hmore.
    + destruct (IH1 (Z.to_nat (v_when vx - a_tick d'))) with (size (early (a_events a') (a_tick d') (pending d')))
        (length (pending d')) w' a' s' d' as [f Hf]; try done; [lia|]. exists (S f). by eapply Hmore.
Qed.

End effects.

(** ** The loop of the code *)

Section loop.
Context {St : Type}.
Variable process : ptr → Tick → gmap positive View → St → list call * St.
Variable this : qid.
Abbreviation loop fuel y := (sim_loop process fuel this (λ _, None) y).

Lemma loop_one_more fuel y z f :
  loop fuel y = Ok (None, z) → sim_step process this None z = Fault f → loop (S fuel) y = Fault f.
Proof.
  revert y. induction fuel as [|fuel IH]; intros y E Ef; cbn [sim_loop] in E |- *.
  { injection E as <-. by rewrite Ef. }
  apply bind_ok in E as ([[r|] y1] & E1 & E); [done|]. rewrite E1. cbn [mbind res_bind fst snd]. by apply IH.
Qed.

Lemma loop_exit fuel y e z :
  loop fuel y = Ok (Some (Some e), z) → ∃ ev, events z.1 !! e = Some ev ∧ isExitEvent ev = true.
Proof.
  revert y. induction fuel as [|fuel IH]; intros y E; cbn [sim_loop] in E; [done|].
  apply bind_ok in E as ([[r|] y1] & E1 & E); [|exact (IH _ E)]. injection E as -> ->. unfold sim_step in E1.
  do 2 apply bind_ok in E1 as (? & _ & E1). do 2 apply bind_ok in E1 as (? & _ & E1). apply bind_ok in E1 as (? & _ & E1).
  apply bind_ok in E1 as (w & _ & E1). cbn in E1. apply bind_ok in E1 as ([r y2] & E2 & E1). injection E1 as Er <-.
  cbn in Er. destruct r as [r|]; [|done]. injection Er as ->. unfold serviceOne in E2.
  apply bind_ok in E2 as ([e1 w1] & _ & E2). apply bind_ok in E2 as (ev1 & _ & E2). destruct (squashed ev1).
  { apply bind_ok in E2 as (? & _ & E2). by apply bind_ok in E2 as (? & _ & E2). }
  apply bind_ok in E2 as (y3 & _ & E2). apply bind_ok in E2 as (ev & He & E2). destruct (isExitEvent ev) eqn:Ex.
  - apply bind_ok in E2 as (? & _ & E2). injection E2 as -> ->. exists ev. split; [|done].
    unfold get in He. case_match; by simplify_eq.
  - by apply bind_ok in E2 as (? & _ & E2).
Qed.

(** The handler of the first event of queue [this] is the cause of fault [f]: a call
    it makes fails, it deletes its own event, or the event is for an exit and asks both
    to be deleted by the queue and to be on the main queue. *)
Definition handler_fails (w : World) (s : St) (f : fault) : Prop :=
  ∃ e w1 ev, pop_head this w = Ok (e, w1) ∧ events w1 !! e = Some ev ∧ squashed ev = false ∧
    let w2 := upd_queue this (λ x, x <| curTick := when ev |>) w1 in
    match foldM do_call w2 (process e (when ev) (view <$> events w2) s).1 with
    | Fault g => f = g
    | Ok w3 =>
        match events w3 !! e with
        | None => f = Panic "use of a deleted event"
        | Some ev3 =>
            isExitEvent ev3 = true ∧ isSet (flags ev3) AutoDelete = true ∧ isSet (flags ev3) IsMainQueue = true ∧
            f = AssertFail "!event->flags.isSet(Event::AutoDelete) || !event->flags.isSet(Event::IsMainQueue)"
        end
    end.

Lemma auto_delete_total e w ev : events w !! e = Some ev → ∃ w', auto_delete e w = Ok w'.
Proof.
  intros He. unfold auto_delete, get. rewrite He. cbn [mbind res_bind].
  destruct (isSet (flags ev) AutoDelete && negb (scheduled ev)) eqn:E; [|eauto].
  apply andb_true_iff in E as [_ E]. unfold delete_event, get. rewrite He. cbn [mbind res_bind].
  rewrite assert_bind by done. eauto.
Qed.

(** With events pending on time, only a handler makes the round fail. *)
Lemma service_fails w a d e l s f :
  R w a → a_queues a !! this = Some d → pending d = e :: l → serviceOne process this (w, s) = Fault f → handler_fails w s f.
Proof.
  intros [H Hi] Hd Hp. destruct (rel_queue _ _ _ _ H Hd) as (c & Hc & _).
  destruct (inv_listed _ Hi this d e Hd) as (v & Hv & _); [rewrite Hp; left|].
  destruct (pop_rel w a this c d e l v (λ q, q <| pending := l |>) H (inv_lists _ Hi) Hc Hd Hp Hv)
    as (w1 & ev & Epop & He & Hev & HR); [done..|].
  unfold serviceOne. cbn [fst snd]. rewrite Epop. cbn [mbind res_bind fst snd]. rewrite (get_ok _ _ _ He). cbn [mbind res_bind].
  destruct (squashed ev) eqn:Es.
  { rewrite (upd_event_ok _ _ _ _ He). cbn [mbind res_bind].
    destruct (auto_delete_total e (w1 <| events ::= <[e := ev <| flags ::= clear Squashed |>]> |>) (ev <| flags ::= clear Squashed |>))
      as [w2 ->]; [cbn; by rewrite lookup_insert_eq|done]. }
  set (w2 := upd_queue this _ w1). intros E. exists e, w1, ev. split_and!; [done..|]. cbv zeta. fold w2.
  assert (run_process process this e s w2 =
    (w3 ← foldM do_call w2 (process e (when ev) (view <$> events w2) s).1; Ok (w3, (process e (when ev) (view <$> events w2) s).2))) as Er.
  { unfold run_process. pose proof (rel_queues _ _ HR this) as Hq.
    assert (∃ c1, queues w1 !! this = Some c1) as [c1 Hc1].
    { inversion Hq as [c1 ? _ E1 E2|E1 E2]; [eauto|]. unfold a_put in E2. cbn in E2. by rewrite lookup_alter_eq, Hd in E2. }
    rewrite (queue_ok w2 this (c1 <| curTick := when ev |>)); [done|]. unfold w2, upd_queue. cbn. by rewrite lookup_alter_eq, Hc1. }
  rewrite Er in E. destruct (foldM do_call w2 _) as [w3|g]; [|cbn in E; congruence]. cbn [mbind res_bind fst snd] in E.
  unfold get in E. destruct (events w3 !! e) as [ev3|] eqn:He3; [|cbn in E; congruence]. cbn [mbind res_bind] in E.
  destruct (isExitEvent ev3).
  - destruct (isSet (flags ev3) AutoDelete), (isSet (flags ev3) IsMainQueue); cbn in E; try discriminate. by injection E as <-.
  - destruct (auto_delete_total e w3 ev3 He3) as [w4 E4]. by rewrite E4 in E.
Qed.

Lemma step_fails w a s d x f :
  R w a → ordered (λ (_ : St) _, True) this (a, s) → a_queues a !! this = Some d → x ∈ pending d →
  sim_step process this None (w, s) = Fault f → handler_fails w s f.
Proof.
  intros HR (Ht & Hcur & _) Hd Hx. pose proof HR as [H Hi]. destruct (rel_queue _ _ _ _ H Hd) as (c & Hc & Htk & _ & Hch).
  destruct (pending d) as [|e l] eqn:Hp; [by apply elem_of_nil in Hx|].
  destruct (inv_listed _ Hi this d e Hd) as (v & Hv & _); [rewrite Hp; left|].
  destruct (view_lookup _ _ e v (eq_sym (rel_events _ _ H)) Hv) as (ev & He & Hev).
  unfold sim_step, empty, nextTick. cbn [fst snd]. rewrite (queue_ok _ _ _ Hc). cbn [mbind res_bind].
  rewrite (chain_head _ _ _ Hch). cbn [hd_error]. rewrite bool_decide_eq_false_2 by done. cbn [negb assert mbind res_bind].
  rewrite (get_ok _ _ _ He). cbn [mbind res_bind]. rewrite <-(rel_cur _ _ H). cbn [fst] in Hcur. rewrite Hcur.
  rewrite (queue_ok _ _ _ Hc). cbn [mbind res_bind].
  assert (a_tick d ≤ v_when v) as Hle by (apply (proj2 (proj2 Ht this d Hd) e); [rewrite Hp; left|done]).
  rewrite assert_bind by (apply Z.leb_le; rewrite Htk; subst v; exact Hle). cbn [default from_option fst snd foldM mbind res_bind id].
  destruct (serviceOne process this (w, s)) as [y|g] eqn:E; [done|]. cbn. intros [= <-]. by eapply service_fails.
Qed.
End loop.

(** C17: without threads, if handlers schedule events for later ticks only and do
    not touch the exit event [x], then once [x] is scheduled on the queue and not
    squashed the simulation loop ends after finitely many events.  It returns an exit
    event, or it stops in the handler of an event, because a call of the handler
    fails, or the handler deletes its own event, or it makes the event an exit event
    that the queue must delete and that must be on the main queue; the loop itself
    fails no assertion and never runs out of events. *)
Theorem sim_loop_returns {St} (process : ptr → Tick → gmap positive View → St → list call * St)
    qs cur calls this w x ev (s : St) :
  (∀ e t V s, Forall (leaves x t) (process e t V s).1) →
  foldM do_call (init qs false cur) calls = Ok w →
  events w !! x = Some ev → scheduled ev = true → queue ev = Some this →
  squashed ev = false → isExitEvent ev = true →
  ∃ fuel,
    (∃ e ev' ws, doSimLoop process fuel this (λ _, None) (w, s) = Ok (Some (Some e), ws) ∧
       events ws.1 !! e = Some ev' ∧ isExitEvent ev' = true) ∨
    (∃ w0 s0 f, doSimLoop process fuel this (λ _, None) (w, s) = Ok (None, (w0, s0)) ∧
       handler_fails process this w0 s0 f ∧
       doSimLoop process (S fuel) this (λ _, None) (w, s) = Fault f).
Proof.
  intros Hpl Hw Hev Hsc Hq Hsq Hex. pose proof (calls_refine _ _ calls (init_related qs false cur)) as HR.
  pose proof (calls_timed _ _ calls (init_related qs false cur) (init_timed qs cur)) as Ht. rewrite Hw in HR.
  destruct (foldM a_call _ _) as [a|]; [|done]. cbn in HR, Ht. pose proof HR as [H Hi].
  assert (a_events a !! x = Some (view ev)) as Hx by (by rewrite (rel_events _ _ H), lookup_fmap, Hev).
  destruct (inv_flagged _ Hi x (view ev) Hx Hsc) as (q & d & Hq' & Hd & Hin). cbn in Hq'.
  assert (q = this) as -> by congruence. destruct (proj2 Ht this d Hd) as [Ha _]. rewrite Ha, app_nil_r in Hin.
  destruct (loop_returns this x process Hpl (w <| curEventQueue := this |>) (a <| a_cur := this |>) s d (view ev))
    as [fuel Hf]; [by apply enter_related| |done|done|done|done|].
  { split_and!; [exact Ht|done|]. exists (a_tick d). unfold ticks. cbn. by rewrite lookup_fmap, Hd. }
  exists fuel. pose proof (handleAsync_refines _ _ this (enter_related w a this HR)) as Hr.
  rewrite (handleAsync_none a this d) in Hr by done. unfold doSimLoop. cbn [fst snd].
  destruct (handleAsyncInsertions _ _) as [w1|]; [|done]. cbn in Hr. cbn [mbind res_bind].
  pose proof (sim_loop_refines process fuel w1 (a <| a_cur := this |>) s this (λ _, None) Hr) as Hl.
  destruct Hf as [(e & z & Ef)|(w' & a0 & s0 & d0 & f & Ef & _ & Ho & Hd0 & Hx0 & Estep)]; rewrite Ef in Hl.
  - left. destruct (sim_loop _ _ _ _ _) as [[r ws]|] eqn:El; [|done]. destruct Hl as (Er & _). cbn in Er. subst r.
    destruct (loop_exit _ _ _ _ _ _ El) as (ev' & ? & ?). by exists e, ev', ws.
  - right. destruct (sim_loop process fuel _ _ _) as [[r [w0 s0']]|] eqn:El; [|done].
    destruct Hl as (Er & HR0 & Es). cbn in Er, HR0, Es. subst r s0'.
    pose proof (sim_step_refines process w0 a0 s0 this None HR0) as Hst. rewrite Estep in Hst.
    destruct (sim_step _ _ _ _) as [|g] eqn:Eg; [done|]. cbn in Hst. subst g. exists w0, s0, f. split_and!; [done| |].
    + by eapply step_fails.
    + by eapply loop_one_more.
Qed.

(** A clock that reschedules itself, and an exit event. *)
Definition ex_process (e : ptr) (t : Tick) (V : gmap positive View) (s : Z) : list call * Z :=
  (if decide (e = 2%positive) then [Reschedule 1 2 (t + 10) true] else [], s + 1).
Definition ex_calls : list call :=
  [New 1 100 IsExitEvent; New 2 0 0; Schedule 1 1 35 false; Schedule 1 2 5 false].

Lemma sim_loop_returns_witness :
  match foldM do_call (init {[1%positive]} false 1) ex_calls with
  | Ok w => ∃ fuel,
      (∃ e ev' ws, doSimLoop ex_process fuel 1 (λ _, None) (w, 0) = Ok (Some (Some e), ws) ∧
         events ws.1 !! e = Some ev' ∧ isExitEvent ev' = true) ∨
      (∃ w0 s0 f, doSimLoop ex_process fuel 1 (λ _, None) (w, 0) = Ok (None, (w0, s0)) ∧
         handler_fails ex_process 1 w0 s0 f ∧ doSimLoop ex_process (S fuel) 1 (λ _, None) (w, 0) = Fault f)
  | Fault _ => False
  end.
Proof.
  assert ((w ← foldM do_call (init {[1%positive]} false 1) ex_calls;
     Ok (from_option (λ e, (scheduled e, queue e, squashed e, isExitEvent e)) (false, None, true, false) (events w !! 1%positive)))
     = Ok (true, Some 1%positive, false, true)) as E by (by vm_compute).
  pose proof (λ w, sim_loop_returns ex_process {[1%positive]} 1 ex_calls 1 w 1) as T.
  destruct (foldM do_call (init {[1%positive]} false 1) ex_calls) as [w|] eqn:Ew; [|done].
  cbn [mbind res_bind] in E. injection E as E. destruct (events w !! 1%positive) as [ev|] eqn:He; [|done].
  injection E as E1 E2 E3 E4. apply (T w ev 0); try done. intros e t V s. unfold ex_process.
  case_decide; repeat constructor; cbn; [done|lia].
Defined.

End EventQueueExit.
