(* ===== verification/EventQueueCheck.v ===== *)
(** * The check of the event queue, and checkpoints

    [debugVerify] walks over all bins and reports a wrong order or a node that it
    meets twice; on the queues that the simulator can build it succeeds, except
    for an event at tick 0 with a negative priority.  An event that was pending
    when it was written to a checkpoint is not pending after it was read back. *)

From S2P Require Import Prelude EventQueue EventQueueProofs EventQueueSpec.
Import EventQueue EventQueueProofs EventQueueSpec.

Module EventQueueCheck.

(** ** [debugVerify] *)

Lemma verify_order e (st : Tick * Z * gset positive) :
  ((when e <? st.1.1) || ((when e =? st.1.1) && (priority e <? st.1.2))) = true ↔ klt (ev_key e) st.1.
Proof. unfold klt, ev_key. cbn. lia. Qed.

(** The nodes of a bin have the same key and were not seen before. *)
Lemma verify_bin_spec h k fuel o l st :
  bin h o l → (length l < fuel)%nat → NoDup l → (∀ x, x ∈ l → kof (view <$> h) x = k ∧ x ∉ st.2) →
  ¬ klt k st.1 →
  ∃ st', verify_bin fuel o h st = Ok (Some st') ∧ st'.2 = list_to_set l ∪ st.2 ∧
    st'.1 = match l with [] => st.1 | _ => k end.
Proof.
  revert o l st. induction fuel as [|fuel IH]; intros o l st Hb Hf Hn Hk Hlt; [lia|].
  inversion Hb as [|x e l' Hx Hb']; subst; cbn.
  { exists st. split_and!; [done| |done]. set_solver. }
  rewrite (get_ok _ _ _ Hx). cbn [mbind res_bind]. destruct (Hk x) as [Kx Sx]; [left|].
  rewrite (kof_view _ _ _ Hx) in Kx. apply NoDup_cons in Hn as [Hn1 Hn2].
  assert (¬ klt (ev_key e) st.1) as Hlt' by (by rewrite Kx). rewrite <-verify_order in Hlt'.
  apply not_true_iff_false, orb_false_iff in Hlt' as [-> ->]. rewrite bool_decide_eq_false_2 by done. cbn in Hf.
  destruct (IH (nextInBin e) l' (when e, priority e, {[x]} ∪ st.2)) as (st' & -> & E2 & E1); [done|lia|done| | |].
  - intros y Hy. cbn. split; [apply Hk; by right|]. destruct (Hk y); [by right|]. set_solver.
  - cbn. change (¬ klt k (ev_key e)). rewrite Kx. apply klt_irrefl.
  - exists st'. split_and!; [done| |].
    + rewrite E2. cbn. set_solver.
    + rewrite E1. by destruct l'.
Qed.

Lemma verify_bins_spec h fuel o bs st :
  seg h o bs None → grouped (view <$> h) bs → NoDup (concat bs) → (length bs < fuel)%nat →
  (∀ x, x ∈ concat bs → (x ∉ st.2) ∧ ¬ klt (kof (view <$> h) x) st.1) →
  verify_bins fuel o h st = Ok true.
Proof.
  revert o bs st. induction fuel as [|fuel IH]; intros o bs st Hs Hg Hn Hf Hk; [lia|].
  inversion Hs as [|x e b bs' ? Hx Hb Hbs]; subst; [done|]. cbn [verify_bins concat] in *.
  destruct Hg as (Hg1 & Hg2 & Hg3). cbn in Hf. apply NoDup_app in Hn as (N1 & N12 & N2).
  assert (bin h (Some x) (x :: b)) as Hb1 by (by econstructor).
  destruct (verify_bin_spec h (kof (view <$> h) x) (S (size h)) (Some x) (x :: b) st Hb1)
    as (st' & -> & E2 & E1); [pose proof (bin_length _ _ _ Hb1 N1); lia|done| | |].
  - intros y Hy. split; [apply elem_of_cons in Hy as [->|Hy]; auto|]. apply Hk. apply elem_of_app. by left.
  - apply Hk. left.
  - cbn [mbind res_bind]. rewrite (get_ok _ _ _ Hx). cbn [mbind res_bind]. apply IH with bs'; [done..|lia|].
    intros y Hy. rewrite E2, E1. destruct (Hk y) as [H1 H2]; [apply elem_of_app; by right|].
    split; [|intros Hlt; apply (klt_irrefl (kof (view <$> h) x)); eapply klt_trans; [by apply Hg2|done]].
    rewrite elem_of_union, elem_of_list_to_set. intros [Hin|?]; [|done]. by apply (N12 y).
Qed.

(** Whether the first event comes before tick 0 with priority 0. *)
Definition starts_early (c : Queue) (w : World) : bool :=
  match head c with
  | Some e =>
      match events w !! e with
      | Some ev => (when ev <? 0) || ((when ev =? 0) && (priority ev <? 0))
      | None => false
      end
  | None => false
  end.

Lemma debugVerify_chain w q c l :
  queues w !! q = Some c → chain (events w) (head c) l → debugVerify q w = Ok (negb (starts_early c w)).
Proof.
  intros Hq Hch. unfold debugVerify, starts_early. rewrite (queue_ok _ _ _ Hq). cbn [mbind res_bind].
  pose proof Hch as (bs & Hs & Hg & <- & Hn). pose proof (seg_length _ _ _ _ Hs Hn) as Hlen.
  rewrite (seg_top _ _ _ Hs) in *. destruct bs as [|[|x b] bs]; [done|by inversion Hs|].
  cbn [top concat app hd_error] in *. inversion Hs as [|? e ? ? ? Hx Hb Hbs Ho]; subst. rewrite Hx.
  destruct (_ || _) eqn:E; cbn [negb].
  - cbn [verify_bins verify_bin]. rewrite (get_ok _ _ _ Hx). cbn [mbind res_bind fst snd].
    apply orb_true_iff in E as [-> | ->]; [done|]. by destruct (when e <? 0).
  - rewrite <-Ho in Hs. apply (verify_bins_spec _ _ _ _ _ Hs Hg Hn); [lia|]. cbn [fst snd]. intros y Hy.
    split; [set_solver|]. apply not_true_iff_false in E. rewrite (verify_order e (0, 0, ∅)) in E.
    rewrite <-(kof_view _ _ _ Hx) in E. cbn [fst] in E.
    cbn in Hy. apply elem_of_cons in Hy as [->|Hy]; [done|].
    pose proof (chain_min _ _ _ x y Hch Hy). unfold klt in *. lia.
Qed.

(** On every queue the simulator can reach, in every run, the walk of
    [debugVerify] over the linked bins ends and accepts them; it rejects only
    queues whose first event is at tick 0 with a negative priority, although
    these are in order. *)
Theorem debugVerify_accepts {St} (process : ptr → Tick → gmap positive View → St → list call * St)
    qs par cur calls fuel this polls (s : St) q :
  match (w ← foldM do_call (init qs par cur) calls; doSimLoop process fuel this polls (w, s)) with
  | Ok r => ∀ c, queues r.2.1 !! q = Some c → debugVerify q r.2.1 = Ok (negb (starts_early c r.2.1))
  | Fault _ => True
  end.
Proof.
  pose proof (calls_refine _ _ calls (init_related qs par cur)) as Hr.
  destruct (foldM do_call _ _) as [w|f], (foldM a_call _ _) as [a|g]; try done.
  pose proof (doSimLoop_refines process fuel w a s this polls Hr) as Hl. cbn [mbind res_bind].
  destruct (doSimLoop _ _ _ _ _) as [[r [w1 s1]]|], (a_doSimLoop _ _ _ _ _) as [[r' [a1 s2]]|]; try done.
  destruct Hl as (_ & [H _] & _). cbn [fst snd] in *. intros c Hc.
  pose proof (rel_queues _ _ H q) as Hq. rewrite Hc in Hq. inversion Hq as [? d (_ & _ & Hch)|]; subst.
  by eapply debugVerify_chain.
Qed.

(** ** Checkpoints *)

Lemma u16_bit f n : 0 ≤ n < 16 → Z.testbit (u16 f) n = Z.testbit f n.
Proof. intros Hn. unfold u16. apply Z.mod_pow2_bits_low. lia. Qed.

(** Reading a pending event back from a checkpoint clears its [Scheduled]
    flag before [checkpointReschedule] looks at it: the event gets its tick, is
    not scheduled, and no queue changes, so that it never happens. *)
Theorem checkpoint_drops_event w this e fresh ev :
  events w !! e = Some fresh → scheduled fresh = false → initialized fresh = true →
  scheduled ev = true → squashed ev = false →
  ∃ ev', UNSERIALIZE_EVENT this e (serialize ev) w = Ok (w <| events ::= <[e := ev']> |>) ∧
    when ev' = when ev ∧ priority ev' = priority ev ∧ scheduled ev' = false.
Proof.
  intros He Hs Hi Hsc Hsq. unfold UNSERIALIZE_EVENT. rewrite (get_ok _ _ _ He). cbn [mbind res_bind].
  unfold unserialize. rewrite assert_bind by (by rewrite Hs).
  rewrite assert_bind by (unfold initialized in *; cbn; exact Hi).
  set (e1 := _ <| flags := _ |>).
  assert (scheduled e1 = true) as ->.
  { unfold scheduled in *. rewrite scheduled_bit in *.
    change (flags e1) with (Z.lor (u16 (flags ev)) Initialized). by rewrite Z.lor_spec, u16_bit, Hsc. }
  assert (squashed e1 = false) as ->.
  { unfold squashed in *. change Squashed with (2 ^ 0) in *. rewrite isSet_bit in * by done.
    change (flags e1) with (Z.lor (u16 (flags ev)) Initialized). by rewrite Z.lor_spec, u16_bit, Hsq. }
  cbn [andb negb mbind res_bind]. set (e2 := e1 <| flags ::= _ |>).
  assert (scheduled e2 = false) as Hs2.
  { unfold scheduled. rewrite scheduled_bit.
    change (flags e2) with (Z.land (flags e1) (Z.lnot 3)). rewrite Z.land_spec. apply andb_false_r. }
  unfold checkpointReschedule. rewrite (get_ok _ e e2) by apply lookup_insert_eq. cbn [mbind res_bind]. rewrite Hs2.
  by exists e2.
Qed.

(** An event scheduled for tick 7, read back into a new event. *)
Lemma checkpoint_drops_event_witness :
  ∃ ev', UNSERIALIZE_EVENT 1 2 (serialize (mkEvent None None 7 0 (set Scheduled Initialized) (Some 1%positive)))
    (mkWorld {[2%positive := mkEvent None None 0 0 Initialized None]} {[1%positive := new_queue]} false 1)
    = Ok (mkWorld {[2%positive := ev']} {[1%positive := new_queue]} false 1) ∧
    when ev' = 7 ∧ scheduled ev' = false.
Proof.
  destruct (checkpoint_drops_event
    (mkWorld {[2%positive := mkEvent None None 0 0 Initialized None]} {[1%positive := new_queue]} false 1)
    1 2 (mkEvent None None 0 0 Initialized None)
    (mkEvent None None 7 0 (set Scheduled Initialized) (Some 1%positive))) as (ev' & E & Ew & _ & Es);
    [by vm_compute..|]. exists ev'. split; [|by split]. rewrite E. cbn. by rewrite insert_singleton_eq.
Defined.

End EventQueueCheck.
