(* ===== verification/ControllerEvents.v ===== *)
(** * The events of the controllers on the event queue

    The controllers' models keep an event as the optional tick it is scheduled
    at (DramTypes.v).  Here this view is shown to be what the event queue of the
    simulator gives: [schedule], [deschedule] and [reschedule] on the linked
    queue succeed and fail as on the optional tick, and no other event changes. *)

From S2P Require Import Prelude DramTypes EventQueue EventQueueProofs EventQueueSpec EventQueueRun.
Import EventQueue EventQueueProofs EventQueueSpec EventQueueRun.

Module ControllerEvents.

(** The tick at which an event of the store is scheduled. *)
Definition sched_at (w : World) (e : ptr) : DramTypes.event :=
  match events w !! e with
  | Some ev => if scheduled ev then Some (when ev) else None
  | None => None
  end.

Definition v_sched_at (V : gmap positive View) (e : ptr) : DramTypes.event :=
  match V !! e with Some v => if v_scheduled v then Some (v_when v) else None | None => None end.

Lemma sched_at_view w a e : Rel w a → sched_at w e = v_sched_at (a_events a) e.
Proof.
  intros H. unfold sched_at, v_sched_at. rewrite (rel_events _ _ H), lookup_fmap. by destruct (events w !! e).
Qed.

(** The event is at [o], the others are where they were. *)
Definition moved (w : World) (e : ptr) (w' : World) (o : DramTypes.event) : Prop :=
  sched_at w' e = o ∧ ∀ e', e' ≠ e → sched_at w' e' = sched_at w e'.

Lemma moved_put w a w' a' e v o :
  Rel w a → Rel w' a' → a_events a' = <[e := v]> (a_events a) →
  (if v_scheduled v then Some (v_when v) else None) = o → moved w e w' o.
Proof.
  intros H H' E Ho. split; [|intros e' Hne].
  - rewrite (sched_at_view _ _ _ H'), E. unfold v_sched_at. by rewrite lookup_insert_eq.
  - rewrite (sched_at_view _ _ _ H), (sched_at_view _ _ _ H'), E. unfold v_sched_at. by rewrite lookup_insert_ne.
Qed.

(** From the refinement of the linked queue to that of the optional tick. *)
Lemma via_spec {m n} {t : res DramTypes.event} w e :
  rres R m n → rres (λ a' o, ∀ w', Rel w' a' → moved w e w' o) n t → rres (moved w e) m t.
Proof.
  destruct m, n, t; cbn; try done; [|congruence]. intros [H _] Hm. by apply Hm.
Qed.

Section calls.
Context (w : World) (a : AWorld) (q : qid) (c : Queue) (e : ptr) (ev : Event).
Hypothesis HR : R w a.
Hypothesis Ht : timed a.
Hypothesis Hq : queues w !! q = Some c.
Hypothesis He : events w !! e = Some ev.
Hypothesis Hinit : initialized ev = true.
(** The controller schedules the event on its own queue only. *)
Hypothesis Hown : queue ev = Some q ∨ scheduled ev = false.

Lemma own_view : a_events a !! e = Some (view ev).
Proof. by rewrite (rel_events _ _ (proj1 HR)), lookup_fmap, He. Qed.
Lemma own_queue : ∃ d, a_queues a !! q = Some d ∧ a_tick d = curTick c.
Proof.
  pose proof (rel_queues _ _ (proj1 HR) q) as H. rewrite Hq in H. inversion H as [? d (Htk & _)|]; subst. eauto.
Qed.
Lemma own_tick : sched_at w e = if scheduled ev then Some (when ev) else None.
Proof. unfold sched_at. by rewrite He. Qed.

Lemma schedule_tick t :
  rres (moved w e) (schedule q e t false w) (DramTypes.schedule (curTick c) t (sched_at w e)).
Proof.
  eapply via_spec; [by apply (schedule_refines w a)|]. destruct own_queue as (d & Hd' & Htk).
  unfold a_schedule, DramTypes.schedule, a_queue. rewrite Hd'. cbn [mbind res_bind]. rewrite (a_get_ok _ _ _ own_view).
  cbn [mbind res_bind]. apply rres_assert; [by rewrite Htk|intros _]. rewrite own_tick.
  change (v_scheduled (view ev)) with (scheduled ev). change (v_initialized (view ev)) with (initialized ev).
  destruct (scheduled ev) eqn:Es; [done|]. cbn [negb DramTypes.scheduled isSome assert mbind res_bind].
  rewrite Hinit. cbn [assert mbind res_bind rres]. intros w' H'. eapply moved_put; [apply HR|exact H'|done|].
  unfold v_scheduled. cbn [v_flags v_when]. by rewrite set_scheduled.
Qed.

(** A scheduled event is found in its queue. *)
Lemma find_own d : a_queues a !! q = Some d → scheduled ev = true → a_find q e (view ev) (pending d) = Ok tt.
Proof.
  intros Hd' Es. destruct Hown as [Ho|Ho]; [|congruence].
  destruct (inv_flagged _ (proj2 HR) e (view ev) own_view Es) as (q' & d' & Hq' & Hd2 & Hin). cbn in Hq'.
  assert (q' = q) as -> by congruence. assert (d' = d) as -> by congruence.
  destruct (proj2 Ht q d Hd') as [Ha _]. rewrite Ha, app_nil_r in Hin. unfold a_find.
  rewrite decide_False by (intros E; rewrite E in Hin; set_solver).
  rewrite assert_bind by (by apply bool_decide_eq_true). by rewrite decide_True.
Qed.

Lemma deschedule_tick :
  isSet (flags ev) AutoDelete = false →
  rres (moved w e) (deschedule q e w) (DramTypes.deschedule (sched_at w e)).
Proof.
  intros Hauto. eapply via_spec; [by apply (deschedule_refines w a)|]. destruct own_queue as (d & Hd' & _).
  pose proof (find_own d Hd') as Hfind.
  unfold a_deschedule, DramTypes.deschedule. rewrite (a_get_ok _ _ _ own_view). cbn [mbind res_bind]. rewrite own_tick.
  change (v_scheduled (view ev)) with (scheduled ev). change (v_initialized (view ev)) with (initialized ev).
  destruct (scheduled ev) eqn:Es; [|done]. cbn [DramTypes.scheduled isSome assert mbind res_bind].
  rewrite Hinit, (proj1 Ht). cbn [negb orb assert mbind res_bind]. unfold a_queue. rewrite Hd'. cbn [mbind res_bind].
  rewrite Hfind by done. cbn [mbind res_bind rres].
  assert (isSet (clear Scheduled (clear Squashed (flags ev))) AutoDelete = false) as Hb.
  { change AutoDelete with (2 ^ 2) in Hauto |- *. rewrite isSet_bit in Hauto |- * by done. unfold clear.
    by rewrite !Z.land_spec, Hauto. }
  cbn [v_flags set_field]. change (v_flags (view ev)) with (flags ev). rewrite Hb. intros w' H'.
  eapply moved_put; [apply HR|exact H'|done|]. unfold v_scheduled. cbn [v_flags set_field]. by rewrite clear_scheduled.
Qed.

Lemma reschedule_tick t :
  rres (moved w e) (reschedule q e t false w) (DramTypes.reschedule (curTick c) t (sched_at w e)).
Proof.
  eapply via_spec; [by apply (reschedule_refines w a)|]. destruct own_queue as (d & Hd' & Htk).
  pose proof (find_own d Hd') as Hfind.
  unfold a_reschedule, DramTypes.reschedule, a_queue. rewrite Hd'. cbn [mbind res_bind]. rewrite (a_get_ok _ _ _ own_view).
  cbn [mbind res_bind]. apply rres_assert; [by rewrite Htk|intros _]. rewrite own_tick.
  change (v_scheduled (view ev)) with (scheduled ev). change (v_initialized (view ev)) with (initialized ev).
  destruct (scheduled ev) eqn:Es; [|done]. cbn [DramTypes.scheduled isSome orb assert mbind res_bind].
  rewrite Hinit, (proj1 Ht). cbn [negb orb assert mbind res_bind]. rewrite Hfind by done. cbn [mbind res_bind rres].
  intros w' H'. eapply moved_put; [apply HR|exact H'|done|]. unfold v_scheduled. cbn [v_flags v_when]. by rewrite set_scheduled.
Qed.
End calls.

(** ** The states of a simulation *)

(** The states in which code of the simulated objects runs, without threads: before
    the simulation, in the handlers, and between the loops.  A handler runs after its
    event was taken off its queue [this], whose tick is that of the event; a squashed
    event is only taken off, and after its handler an event may be deleted. *)
Inductive reached (qs : gset positive) (cur : qid) : World → Prop :=
| reached_init : reached qs cur (init qs false cur)
| reached_call w c w' : reached qs cur w → do_call w c = Ok w' → reached qs cur w'
| reached_loop w this w' :
    reached qs cur w → handleAsyncInsertions this (w <| curEventQueue := this |>) = Ok w' → reached qs cur w'
| reached_handler w this e w1 ev :
    reached qs cur w → pop_head this w = Ok (e, w1) → events w1 !! e = Some ev → squashed ev = false →
    reached qs cur (upd_queue this (λ x, x <| curTick := when ev |>) w1)
| reached_squashed w this e w1 ev w' :
    reached qs cur w → pop_head this w = Ok (e, w1) → events w1 !! e = Some ev → squashed ev = true →
    upd_event e (λ e, e <| flags ::= clear Squashed |>) w1 = Ok w' → reached qs cur w'
| reached_deleted w e w' : reached qs cur w → auto_delete e w = Ok w' → reached qs cur w'.

(** Taking the first event off a queue, in the specification. *)
Lemma pop_taken w a this e w1 :
  R w a → timed a → pop_head this w = Ok (e, w1) →
  ∃ d l v ev, a_queues a !! this = Some d ∧ pending d = e :: l ∧ a_events a !! e = Some v ∧
    events w1 !! e = Some ev ∧ view ev = v <| v_flags ::= clear Scheduled |> ∧
    Rel w1 (a_put e (v <| v_flags ::= clear Scheduled |>) this (λ q, q <| pending := l |>) a) ∧
    ∀ v2 f, v_scheduled v2 = false → (∀ q, on_list (f q) = on_list (q <| pending := l |>)) →
      pending (f d) = l → a_async (f d) = a_async d → a_tick (f d) = a_tick d ∨ a_tick (f d) = v_when v →
      Inv (a_put e v2 this f a) ∧ timed (a_put e v2 this f a).
Proof.
  intros HR Ht E. pose proof HR as [H Hi]. pose proof (queue_get w a this H) as Hq.
  pose proof E as Eq. unfold pop_head in Eq. apply bind_ok in Eq as (c & Ec & Eq). rewrite Ec in Hq.
  destruct (a_queue a this) as [d|] eqn:Ed; [|done]. destruct Hq as (Hc & Hd & _ & _ & Hch).
  destruct (pending d) as [|e0 l] eqn:Hp; [by apply chain_nil in Hch as Eh; rewrite Eh in Eq|].
  destruct (inv_listed _ Hi this d e0 Hd) as (v & Hv & Hqv & _); [rewrite Hp; left|].
  destruct (pop_rel w a this c d e0 l v (λ q, q <| pending := l |>) H (inv_lists _ Hi) Hc Hd Hp Hv)
    as (w' & ev & E' & He & Hev & HR'); [done..|]. rewrite E' in E. injection E as -> ->.
  exists d, l, v, ev. split_and!; [done..|]. intros v2 f Hv2 Hf Hf1 Hf2 Hf3. split.
  - eapply inv_leave; [done..| |done]. rewrite Hf. by apply leave_head.
  - by apply (take_timed w a this d e l v).
Qed.

Lemma reached_ok qs cur w : reached qs cur w → ∃ a, R w a ∧ timed a.
Proof.
  induction 1 as [|w c w' _ (a & HR & Ht) E|w this w' _ (a & HR & Ht) E|w this e w1 ev _ (a & HR & Ht) E He Hs
    |w this e w1 ev w' _ (a & HR & Ht) E He Hs E'|w e w' _ (a & HR & Ht) E].
  - exists (a_init qs false cur). split; [apply init_related|apply init_timed].
  - pose proof (call_refines w a c HR) as Hr. pose proof (call_timed a c (proj2 HR) Ht) as Ht'. rewrite E in Hr.
    destruct (a_call a c) as [a'|]; [|done]. by exists a'.
  - pose proof (handleAsync_refines _ _ this (enter_related w a this HR)) as Hr. rewrite E in Hr.
    destruct (a_queues a !! this) as [d|] eqn:Hd.
    + rewrite (handleAsync_none a this d) in Hr by done. exists (a <| a_cur := this |>). split; [exact Hr|exact Ht].
    + unfold a_handleAsync in Hr. rewrite assert_bind in Hr by (by apply bool_decide_eq_true).
      unfold a_queue in Hr. cbn in Hr. by rewrite Hd in Hr.
  - destruct (pop_taken w a this e w1 HR Ht E) as (d & l & v & ev' & Hd & Hp & Hv & He' & Hev & Hrel & Hput).
    assert (ev' = ev) as -> by congruence. assert (when ev = v_when v) as Ew by (change (v_when (view ev) = v_when v); by rewrite Hev).
    destruct (Hput (v <| v_flags ::= clear Scheduled |>) (λ q, q <| pending := l |> <| a_tick := when ev |>))
      as [Hi' Ht']; [apply clear_scheduled|done|done|done|right; exact Ew|].
    eexists. split; [split; [by apply rel_tick|exact Hi']|exact Ht'].
  - destruct (pop_taken w a this e w1 HR Ht E) as (d & l & v & ev' & Hd & Hp & Hv & He' & Hev & Hrel & Hput).
    assert (ev' = ev) as -> by congruence. rewrite (upd_event_ok _ _ _ _ He) in E'. injection E' as <-.
    pose proof (rel_flags _ _ _ _ (clear Squashed) Hrel He) as Hrel2. rewrite put_events, Hev in Hrel2.
    destruct (Hput (v <| v_flags ::= clear Scheduled |> <| v_flags ::= clear Squashed |>) (λ q, q <| pending := l |>))
      as [Hi' Ht']; [|done|done|done|by left|].
    { unfold v_scheduled. cbn. rewrite clear_keeps by done. apply clear_scheduled. }
    eexists. split; [split; [exact Hrel2|exact Hi']|exact Ht'].
  - pose proof (auto_delete_refines w a e HR) as Hr. rewrite E in Hr. destruct (a_auto_delete e a) as [a'|] eqn:Ea; [|done].
    exists a'. split; [exact Hr|]. unfold a_auto_delete in Ea. apply bind_ok in Ea as (v & _ & [= <-]).
    case_match; [by apply timed_delete|done].
Qed.

(** Every state that the simulation loop leaves behind is one of them. *)
Section loop.
Context {St : Type} (process : ptr → Tick → gmap positive View → St → list call * St) (qs : gset positive) (cur : qid).
Abbreviation reach := (reached qs cur).

Lemma calls_reached w cs w' : reach w → foldM do_call w cs = Ok w' → reach w'.
Proof. intros H E. refine (foldM_ind reach do_call cs w w' _ H E). intros x c x' _ Hx Ex. by eapply reached_call. Qed.

Lemma service_reached this w s r w' s' :
  reach w → serviceOne process this (w, s) = Ok (r, (w', s')) → reach w'.
Proof.
  intros H E. unfold serviceOne in E. apply bind_ok in E as ([e w1] & Ep & E). apply bind_ok in E as (ev & He & E).
  cbn [fst snd] in *. assert (events w1 !! e = Some ev) as He'
    by (unfold get in He; destruct (events w1 !! e); [by injection He as <-|done]).
  cbn [fst snd] in *. destruct (squashed ev) eqn:Es.
  - apply bind_ok in E as (w2 & E2 & E). apply bind_ok in E as (w3 & E3 & [= <- <- <-]).
    eapply reached_deleted, E3. by eapply reached_squashed.
  - apply bind_ok in E as ([w2 s2] & E2 & E). unfold run_process in E2. apply bind_ok in E2 as (c & _ & E2).
    apply bind_ok in E2 as (w3 & E3 & [= -> <-]). apply calls_reached in E3; [|by eapply reached_handler].
    apply bind_ok in E as (ev2 & _ & E). destruct (isExitEvent ev2).
    + by apply bind_ok in E as (? & _ & [= _ <- _]).
    + apply bind_ok in E as (w4 & E4 & [= _ <- _]). by eapply reached_deleted.
Qed.

Lemma loop_reached fuel this polls : ∀ w s r w' s',
  reach w → sim_loop process fuel this polls (w, s) = Ok (r, (w', s')) → reach w'.
Proof.
  induction fuel as [|fuel IH]; intros w s r w' s' H E; cbn [sim_loop] in E; [by injection E as <- <- <-|].
  apply bind_ok in E as ([o [w1 s1]] & E1 & E). assert (reach w1) as H1.
  { unfold sim_step in E1. do 5 apply bind_ok in E1 as (? & _ & E1). apply bind_ok in E1 as (w2 & E2 & E1).
    apply calls_reached in E2; [|done]. destruct (default ([], false) (polls fuel)).2; [by injection E1 as _ <- _|].
    apply bind_ok in E1 as ([r2 [w3 s3]] & E3 & [= _ <- _]). by eapply service_reached. }
  destruct o; [by injection E as _ <- _|exact (IH _ _ _ _ _ H1 E)].
Qed.

Lemma doSimLoop_reached fuel this polls w s r w' s' :
  reach w → doSimLoop process fuel this polls (w, s) = Ok (r, (w', s')) → reach w'.
Proof.
  intros H E. unfold doSimLoop in E. apply bind_ok in E as (w1 & E1 & E). eapply loop_reached, E.
  by eapply reached_loop.
Qed.
End loop.

(** C16: in every state of a simulation without threads in which code of the
    simulated objects runs, the middle of a handler at any tick included
    ([reached]), for an event that its controller keeps on queue [q], [schedule],
    [deschedule] and [reschedule] on the linked event queue do to the tick of the event
    exactly what the operations on the optional tick do in the controllers' models,
    assertion failures included, and leave all other events where they are. *)
Theorem controller_events qs cur w q c e ev t :
  reached qs cur w → queues w !! q = Some c → events w !! e = Some ev →
  initialized ev = true → isSet (flags ev) AutoDelete = false →
  queue ev = Some q ∨ scheduled ev = false →
  rres (moved w e) (schedule q e t false w) (DramTypes.schedule (curTick c) t (sched_at w e)) ∧
  rres (moved w e) (deschedule q e w) (DramTypes.deschedule (sched_at w e)) ∧
  rres (moved w e) (reschedule q e t false w) (DramTypes.reschedule (curTick c) t (sched_at w e)).
Proof.
  intros (a & HR & Ht)%reached_ok Hq He Hi Ha Ho.
  split_and!; [by eapply schedule_tick|by eapply deschedule_tick|by eapply reschedule_tick].
Qed.

(** After a round of the loop at tick 5, an event for tick 7 is moved to tick 9; it
    cannot be moved to tick 4. *)
Definition ex_calls : list call :=
  [New 2 0 0; New 3 (-1) 0; Schedule 1 2 7 false; Schedule 1 3 5 false].
Definition ex_process (_ : ptr) (_ : Tick) (_ : gmap positive View) (s : unit) : list call * unit := ([], s).
Definition ex_world : World :=
  match w ← foldM do_call (init {[1%positive]} false 1) ex_calls; doSimLoop ex_process 1 1 (λ _, None) (w, tt) with
  | Ok r => r.2.1 | Fault _ => init ∅ false 1 end.

Lemma controller_events_witness :
  sched_at ex_world 2 = Some 7 ∧
  rres (moved ex_world 2) (reschedule 1 2 9 false ex_world) (Ok (Some 9)) ∧
  rres (moved ex_world 2) (reschedule 1 2 4 false ex_world) (Fault (AssertFail "when >= getCurTick()")) ∧
  rres (moved ex_world 2) (deschedule 1 2 ex_world) (Ok None).
Proof.
  assert (reached {[1%positive]} 1 ex_world) as Hr.
  { unfold ex_world. destruct (foldM do_call (init {[1%positive]} false 1) ex_calls) as [w|] eqn:Ew; [|by vm_compute in Ew].
    cbn [mbind res_bind]. destruct (doSimLoop ex_process 1 1 (λ _, None) (w, tt)) as [[r [w' u]]|] eqn:E.
    - eapply doSimLoop_reached, E. eapply calls_reached, Ew. constructor.
    - exfalso. assert ((w ← foldM do_call (init {[1%positive]} false 1) ex_calls;
        _ ← doSimLoop ex_process 1 1 (λ _, None) (w, tt); Ok tt) = Ok tt) as E0 by (by vm_compute).
      rewrite Ew in E0. cbn [mbind res_bind] in E0. by rewrite E in E0. }
  assert ((from_option curTick 1 (queues ex_world !! 1%positive),
         from_option (λ e, (initialized e, isSet (flags e) AutoDelete, queue e, scheduled e, when e)) (false, true, None, false, 0)
           (events ex_world !! 2%positive))
     = (5, (true, false, Some 1%positive, true, 7))) as E by (by vm_compute).
  pose proof (controller_events {[1%positive]} 1 ex_world 1) as T. clear -E T Hr. revert E T. generalize dependent ex_world. intros w Hr E T.
  destruct (queues w !! 1%positive) as [c|] eqn:Hq; [|done]. destruct (events w !! 2%positive) as [ev|] eqn:He; [|done].
  injection E as E0 E1 E2 E3 E4 E5. destruct (T c 2%positive ev 9) as (_ & Hd & Hm); [done..|by left|].
  destruct (T c 2%positive ev 4) as (_ & _ & Hb); [done..|by left|].
  assert (sched_at w 2 = Some 7) as Es by (unfold sched_at; by rewrite He, E4, E5).
  cbn in E0. rewrite Es, E0 in *. by split_and!.
Defined.

End ControllerEvents.
