(* ===== verification/AddrRange.v ===== *)
(** * Address ranges (base/addr_range.hh)

    Ranges of addresses with their interleaving: a range selects the addresses
    between its ends whose interleaving bits, xored with a second slice if the
    range is hashed, have the match value. *)

From S2P Require Import Prelude Intmath.
Import Intmath.

Module AddrRange.

Record AddrRange := mkAddrRange
  { start : Addr; stop : Addr;             (** [_start], [_end] *)
    intlvHighBit : Z; xorHighBit : Z; intlvBits : Z; intlvMatch : Z }.
#[export] Instance eta_AddrRange : Eta AddrRange := λ r,
  mkAddrRange (start r) (stop r) (intlvHighBit r) (xorHighBit r) (intlvBits r) (intlvMatch r).

(** The constructors. *)
Definition new_range (s e high xhigh nbits mtch : Z) : res AddrRange :=
  if negb (nbits =? 0) && (u64 (Z.shiftl 1 nbits) <=? mtch)
  then Fault (Fatal "Match value does not fit in interleaving bits")
  else if negb (nbits =? 0) && negb (xhigh =? 0) then
    if xhigh =? high then Fault (Fatal "XOR and interleave high bit must be different")
    else if high <? xhigh then
      if xhigh - high <? nbits then Fault (Fatal "XOR and interleave high bit must be further apart")
      else Ok (mkAddrRange s e high xhigh nbits mtch)
    else
      if high - xhigh <? nbits then Fault (Fatal "Interleave and XOR high bit must be further apart")
      else Ok (mkAddrRange s e high xhigh nbits mtch)
  else Ok (mkAddrRange s e high xhigh nbits mtch).
Definition plain_range (s e : Addr) : AddrRange := mkAddrRange s e 0 0 0 0.
Definition RangeSize (s sz : Addr) : AddrRange := plain_range s (u64 (s + sz - 1)).

Definition interleaved (r : AddrRange) : bool := negb (intlvBits r =? 0).
Definition hashed (r : AddrRange) : bool := interleaved r && negb (xorHighBit r =? 0).
Definition granularity (r : AddrRange) : Z := u64 (Z.shiftl 1 (intlvHighBit r - intlvBits r + 1)).
Definition stripes (r : AddrRange) : Z := u32 (Z.shiftl 1 (intlvBits r)).
Definition size (r : AddrRange) : Addr := Z.shiftr (u64 (stop r - start r + 1)) (intlvBits r).
Definition valid (r : AddrRange) : bool := start r <=? stop r.

Definition mergesWith (this r : AddrRange) : bool :=
  (start r =? start this) && (stop r =? stop this) && (intlvHighBit r =? intlvHighBit this) &&
  (xorHighBit r =? xorHighBit this) && (intlvBits r =? intlvBits this).

(** The slice of an address that is compared with the match value. *)
Definition select (r : AddrRange) (a : Addr) : Z :=
  if hashed r
  then Z.lxor (bits a (intlvHighBit r) (intlvHighBit r - intlvBits r + 1))
              (bits a (xorHighBit r) (xorHighBit r - intlvBits r + 1))
  else bits a (intlvHighBit r) (intlvHighBit r - intlvBits r + 1).

Definition contains (r : AddrRange) (a : Addr) : bool :=
  let in_range := (start r <=? a) && (a <=? stop r) in
  if negb (interleaved r) then in_range
  else if in_range then select r a =? intlvMatch r
  else false.

Definition intersects (this r : AddrRange) : res bool :=
  if (stop r <? start this) || (stop this <? start r) then Ok false
  else if negb (interleaved this) && negb (interleaved r) then Ok true
  else if size r =? 1 then Ok (contains this (start r))
  else if mergesWith this r then Ok (intlvMatch this =? intlvMatch r)
  else Fault (Panic "Cannot test intersection").

Definition isSubset (this r : AddrRange) : res bool :=
  if interleaved this then Fault (Panic "Cannot test subset of interleaved range")
  else Ok ((start r <=? start this) && (stop this <=? stop r)).

(** [operator<]. *)
Definition ltr (l r : AddrRange) : bool :=
  if negb (start l =? start r) then start l <? start r else intlvMatch l <? intlvMatch r.

(** The constructor that merges the ranges of an interleaved chunk. *)
Fixpoint merge_check (front : AddrRange) (mtch : Z) (rs : list AddrRange) : res unit :=
  match rs with
  | [] => Ok tt
  | r :: rs =>
      if negb (mergesWith front r)
      then Fault (Fatal "Can only merge ranges with the same start, end and interleaving bits")
      else if negb (intlvMatch r =? mtch) then Fault (Fatal "Unexpected interleave match when merging")
      else merge_check front (u8 (mtch + 1)) rs
  end.
Definition merge_ranges (rs : list AddrRange) : res AddrRange :=
  match rs with
  | [] => Ok (plain_range 1 0)
  | front :: _ =>
      if negb (Z.of_nat (length rs) =? u64 (Z.shiftl 1 (intlvBits front)))
      then Fault (Fatal "Wrong number of ranges for the interleaving bits")
      else
        merge_check front 0 rs;;
        Ok (plain_range (start front) (stop front))
  end.

(** ** Well-formed ranges *)

(** The slices lie inside an address, and the match value fits. *)
Record range_ok (r : AddrRange) : Prop :=
  { ok_ends : 0 ≤ start r ≤ stop r ∧ stop r < 2 ^ 64;
    ok_bits : 0 ≤ intlvBits r ≤ 8;
    ok_high : intlvBits r ≤ intlvHighBit r + 1 ≤ 64;
    ok_xor : xorHighBit r = 0 ∨ (intlvBits r ≤ xorHighBit r + 1 ≤ 64);
    ok_match : 0 ≤ intlvMatch r < 2 ^ intlvBits r }.

(** A slice of [n] bits is below [2 ^ n]. *)
Lemma bits_range a h n : 0 ≤ n < 64 → 0 ≤ a → 0 ≤ bits a h (h - n + 1) < 2 ^ n.
Proof.
  intros Hn Ha. unfold bits, mask. replace (h - (h - n + 1) + 1) with n by lia.
  destruct (Z.eqb_spec n 64) as [|_]; [lia|]. rewrite Z.shiftl_1_l.
  assert (0 < 2 ^ n < 2 ^ 64) by (split; [|apply Z.pow_lt_mono_r]; lia).
  rewrite u64_small by lia. replace (2 ^ n - 1) with (Z.ones n) by (rewrite Z.ones_equiv; lia).
  rewrite Z.land_ones by lia. apply Z.mod_pos_bound. lia.
Qed.

Lemma lxor_range a b n : 0 ≤ n → 0 ≤ a < 2 ^ n → 0 ≤ b < 2 ^ n → 0 ≤ Z.lxor a b < 2 ^ n.
Proof.
  intros Hn Ha Hb. assert (Z.lxor a b = Z.lxor a b mod 2 ^ n) as ->.
  { apply Z.bits_inj'. intros i Hi. destruct (decide (i < n)).
    - by rewrite Z.mod_pow2_bits_low.
    - rewrite Z.mod_pow2_bits_high by lia. rewrite Z.lxor_spec.
      rewrite <-(Z.mod_small a (2 ^ n)), <-(Z.mod_small b (2 ^ n)) by done.
      by rewrite !Z.mod_pow2_bits_high by lia. }
  apply Z.mod_pos_bound. lia.
Qed.

Lemma select_range r a : range_ok r → 0 ≤ a → 0 ≤ select r a < 2 ^ intlvBits r.
Proof.
  intros H Ha. pose proof (ok_bits _ H). unfold select. destruct (hashed r).
  - apply lxor_range; [lia|apply bits_range; lia..].
  - apply bits_range; lia.
Qed.

(** Ranges of the same chunk select the same slice. *)
Lemma merges_select r1 r2 a : mergesWith r1 r2 = true → select r1 a = select r2 a.
Proof.
  unfold mergesWith. rewrite !andb_true_iff, !Z.eqb_eq. intros ((((E1 & E2) & E3) & E4) & E5).
  unfold select, hashed, interleaved. by rewrite E3, E4, E5.
Qed.

(** ** Interleaving *)

Lemma merge_check_ok front m rs u i r :
  merge_check front (u8 m) rs = Ok u → rs !! i = Some r →
  mergesWith front r = true ∧ intlvMatch r = u8 (m + Z.of_nat i).
Proof.
  revert m i. induction rs as [|x rs IH]; intros m i E Hi; [done|]. cbn in E.
  destruct (mergesWith front x) eqn:Em; [|done]. destruct (Z.eqb_spec (intlvMatch x) (u8 m)) as [Ex|]; [|done].
  destruct i as [|i]; cbn in Hi; [simplify_eq; rewrite Z.add_0_r; done|].
  cbn in E. replace (u8 (u8 m + 1)) with (u8 (m + 1)) in E by (unfold u8; by rewrite Z.add_mod_idemp_l).
  destruct (IH (m + 1) i E Hi) as [H1 H2]. split; [done|]. rewrite H2. f_equal. lia.
Qed.

(** What the constructor accepts is a complete chunk: the [i]-th range has match
    value [i]. *)
Lemma merge_ranges_ok front rs m :
  merge_ranges (front :: rs) = Ok m → range_ok front →
  m = plain_range (start front) (stop front) ∧ Z.of_nat (S (length rs)) = 2 ^ intlvBits front ∧
  ∀ i r, (front :: rs) !! i = Some r → mergesWith front r = true ∧ intlvMatch r = Z.of_nat i.
Proof.
  intros E Hok. unfold merge_ranges in E. pose proof (ok_bits _ Hok) as Hb.
  destruct (Z.eqb_spec (Z.of_nat (length (front :: rs))) (u64 (Z.shiftl 1 (intlvBits front)))) as [El|]; [|done].
  assert (2 ^ intlvBits front ≤ 2 ^ 8) by (apply Z.pow_le_mono_r; lia).
  rewrite Z.shiftl_1_l, u64_small in El by lia. cbn [negb] in E. apply bind_ok in E as (u & Ec & E).
  injection E as <-. split_and!; [done|done|]. intros i r Hi. change 0 with (u8 0) in Ec.
  destruct (merge_check_ok _ _ _ _ i r Ec Hi) as [H1 H2]. split; [done|].
  apply lookup_lt_Some in Hi. cbn in Hi, El. rewrite H2. apply u8_small. lia.
Qed.

Lemma contains_chunk front r a :
  mergesWith front r = true → range_ok front → 0 ≤ a →
  contains r a = (start front <=? a) && (a <=? stop front) &&
                 (negb (interleaved front) || (select front a =? intlvMatch r)).
Proof.
  intros Hm Hok Ha. pose proof (merges_select _ _ a Hm) as Hs. unfold mergesWith in Hm.
  rewrite !andb_true_iff, !Z.eqb_eq in Hm. destruct Hm as ((((E1 & E2) & _) & _) & E5).
  unfold contains, interleaved in *. rewrite Hs, E1, E2, E5.
  by destruct (intlvBits front =? 0), ((start front <=? a) && (a <=? stop front)); cbn.
Qed.

(** The address selects the range of the chunk. *)
Lemma merge_selects front rs m a :
  merge_ranges (front :: rs) = Ok m → range_ok front → 0 ≤ a →
  if contains m a
  then ∃ i r, (front :: rs) !! i = Some r ∧ contains r a = true ∧
         ∀ j r', (front :: rs) !! j = Some r' → contains r' a = true → j = i
  else ∀ r, r ∈ front :: rs → contains r a = false.
Proof.
  intros E Hok Ha. destruct (merge_ranges_ok _ _ _ E Hok) as (-> & Hl & Hr).
  unfold contains at 1. cbn. destruct ((start front <=? a) && (a <=? stop front)) eqn:Ein.
  2:{ intros r [i Hi]%list_elem_of_lookup_1. destruct (Hr i r Hi) as [Hm _].
      by rewrite (contains_chunk front r a Hm Hok Ha), Ein. }
  pose proof (select_range front a Hok Ha) as Hsel. pose proof (ok_bits _ Hok) as Hb.
  set (k := if interleaved front then Z.to_nat (select front a) else 0%nat).
  assert (k < length (front :: rs))%nat as Hk.
  { unfold k. cbn. destruct (interleaved front); [lia|]. lia. }
  destruct (lookup_lt_is_Some_2 _ _ Hk) as [r Hk']. exists k, r. destruct (Hr k r Hk') as [Hm Hmt].
  split_and!; [done| |].
  - rewrite (contains_chunk front r a Hm Hok Ha), Ein, Hmt. unfold k. destruct (interleaved front); cbn; [|done].
    apply Z.eqb_eq. lia.
  - intros j r' Hj. destruct (Hr j r' Hj) as [Hm' Hmt'].
    rewrite (contains_chunk front r' a Hm' Hok Ha), Ein, Hmt'. cbn [andb]. unfold k, interleaved.
    destruct (Z.eqb_spec (intlvBits front) 0) as [Eb|]; cbn.
    + intros _. apply lookup_lt_Some in Hj. cbn in Hj. rewrite Eb in Hl. lia.
    + intros Es%Z.eqb_eq. lia.
Qed.

(** When the ranges of an interleaved chunk are merged, the merge is accepted
    only for a complete chunk, and then every address of the merged range belongs
    to exactly one of them, also when the interleaving is hashed, and no address
    outside to any. *)
Theorem merge_partitions front rs m a :
  merge_ranges (front :: rs) = Ok m → range_ok front → 0 ≤ a →
  if contains m a
  then ∃ i r, (front :: rs) !! i = Some r ∧ contains r a = true ∧
         ∀ j r', (front :: rs) !! j = Some r' → contains r' a = true → j = i
  else ∀ r, r ∈ front :: rs → contains r a = false.
Proof. apply merge_selects. Qed.

(** The addresses covered by a list of ranges. *)
Definition covers (l : list AddrRange) (a : Addr) : Prop := ∃ r, r ∈ l ∧ contains r a = true.

Lemma covers_app l1 l2 a : covers (l1 ++ l2) a ↔ covers l1 a ∨ covers l2 a.
Proof. unfold covers. set_solver. Qed.
Lemma covers_cons r l a : covers (r :: l) a ↔ contains r a = true ∨ covers l a.
Proof. unfold covers. set_solver. Qed.
Lemma covers_nil a : covers [] a ↔ False.
Proof. unfold covers. set_solver. Qed.

(** The merged range is the union of the ranges. *)
Lemma merge_covers rs m a :
  merge_ranges rs = Ok m → (∀ r, r ∈ rs → range_ok r) → rs ≠ [] → 0 ≤ a →
  contains m a = true ↔ covers rs a.
Proof.
  unfold covers. destruct rs as [|front rs]; [done|]. intros E Hok _ Ha.
  pose proof (merge_selects front rs m a E (Hok front ltac:(left)) Ha) as H. destruct (contains m a); split; try done.
  - destruct H as (i & r & Hi & Hr & _). intros _. exists r. split; [by eapply list_elem_of_lookup_2|done].
  - intros (r & Hr & Hc). by rewrite (H r Hr) in Hc.
Qed.

(** Four hashed channels of 4 GB: bits 8 and 7, xored with bits 13 and 12. *)
Definition ex_channel (i : Z) : AddrRange := mkAddrRange 0 (2 ^ 32 - 1) 8 13 2 i.

Lemma merge_partitions_witness :
  merge_ranges [ex_channel 0; ex_channel 1; ex_channel 2; ex_channel 3] = Ok (plain_range 0 (2 ^ 32 - 1)) ∧
  ∃ i r, [ex_channel 0; ex_channel 1; ex_channel 2; ex_channel 3] !! i = Some r ∧ contains r 0x1180 = true ∧
    ∀ j r', [ex_channel 0; ex_channel 1; ex_channel 2; ex_channel 3] !! j = Some r' → contains r' 0x1180 = true → j = i.
Proof.
  split; [by vm_compute|].
  refine (merge_partitions (ex_channel 0) [ex_channel 1; ex_channel 2; ex_channel 3]
    (plain_range 0 (2 ^ 32 - 1)) 0x1180 _ _ _);
    [by vm_compute| |lia]. by split; cbn; lia.
Defined.

End AddrRange.
