(* ===== verification/AddrRangeMap.v ===== *)
(** * The map from address ranges (base/addr_range_map.hh)

    [AddrRangeMap] keeps its entries in a [std::map] ordered by [operator<] of the
    ranges: a list sorted by start and match value here, with iterators as
    indices.  [find] looks at the entry before the upper bound of the range and,
    in an interleaved chunk, steps backwards through it. *)

From S2P Require Import Prelude Intmath AddrRange.
Import Intmath AddrRange.

Module AddrRangeMap.

Section map.
Context {V : Type}.
Abbreviation tree := (list (AddrRange * V)).
Implicit Types (t : tree) (r : AddrRange) (a : Addr).

(** [tree.upper_bound(r)]: the first entry after [r]. *)
Fixpoint upper_bound (r : AddrRange) (t : tree) : nat :=
  match t with
  | [] => 0
  | x :: t => if ltr r x.1 then 0 else S (upper_bound r t)
  end.

(** [i->first.intersects(r)]. *)
Definition hit (t : tree) (r : AddrRange) (i : nat) : res bool :=
  match t !! i with
  | Some x => intersects x.1 r
  | None => Fault (Panic "iterator past the end")
  end.

(** The loop that steps backwards, and the check after it. *)
Fixpoint step_back (t : tree) (r orig : AddrRange) (i : nat) : res (option nat) :=
  let last := b ← hit t r i; Ok (if b : bool then Some i else None) in
  match i with
  | O => last
  | S j =>
      match t !! i with
      | Some x =>
          if mergesWith x.1 orig then
            b ← hit t r j;
            if b : bool then Ok (Some j) else step_back t r orig j
          else last
      | None => Fault (Panic "iterator past the end")
      end
  end.

(** [None] is [tree.end()]. *)
Definition find (r : AddrRange) (t : tree) : res (option nat) :=
  match t with
  | [] => Ok None
  | _ =>
      match upper_bound r t with
      | O => b ← hit t r 0; Ok (if b : bool then Some 0%nat else None)
      | S i =>
          b ← hit t r i;
          if b : bool then Ok (Some i)
          else
            match t !! i with
            | Some x => if interleaved x.1 then step_back t r x.1 i else Ok None
            | None => Fault (Panic "iterator past the end")
            end
      end
  end.
Definition find_addr (a : Addr) (t : tree) : res (option nat) := find (RangeSize a 1) t.

(** [std::map::insert]: an entry with an equivalent key stays. *)
Fixpoint map_insert (r : AddrRange) (d : V) (t : tree) : nat * tree :=
  match t with
  | [] => (0%nat, [(r, d)])
  | x :: t' =>
      if ltr r x.1 then (0%nat, (r, d) :: t)
      else if ltr x.1 r then let i := map_insert r d t' in (S i.1, x :: i.2)
      else (0%nat, t)
  end.
Definition insert (r : AddrRange) (d : V) (t : tree) : res (option nat * tree) :=
  o ← find r t;
  match o with
  | Some _ => Ok (None, t)
  | None => let i := map_insert r d t in Ok (Some i.1, i.2)
  end.

(** ** Disjoint ranges *)

(** [x] comes before [y]: it ends before, or is an earlier range of the same
    chunk. *)
Definition apart (x y : AddrRange) : Prop :=
  stop x < start y ∨ (mergesWith x y = true ∧ intlvMatch x < intlvMatch y).
(** The first address of a chunk belongs to its first range. *)
Definition aligned (x : AddrRange) : Prop := interleaved x = true → select x (start x) = 0.

Record tree_ok (t : tree) : Prop :=
  { tree_ranges x : x ∈ t → range_ok x.1 ∧ aligned x.1;
    tree_strong : StronglySorted (λ x y, apart x.1 y.1) t }.

Lemma tree_sorted t (H : tree_ok t) i j x y :
  (i < j)%nat → t !! i = Some x → t !! j = Some y → apart x.1 y.1.
Proof.
  destruct H as [_ H]. revert i j. induction H as [|z t _ IH Hz]; intros i j Hlt Hi Hj; [done|].
  destruct j as [|j]; [lia|]. destruct i as [|i]; cbn in *; [|by apply (IH i j); [lia|..]].
  simplify_eq. rewrite Forall_forall in Hz. by apply Hz, list_elem_of_lookup_2 with j.
Qed.

Lemma merges_eq x y :
  mergesWith x y = true ↔ start y = start x ∧ stop y = stop x ∧ intlvHighBit y = intlvHighBit x ∧
    xorHighBit y = xorHighBit x ∧ intlvBits y = intlvBits x.
Proof. unfold mergesWith. rewrite !andb_true_iff, !Z.eqb_eq. tauto. Qed.

Lemma RangeSize_1 a : 0 ≤ a < 2 ^ 64 → RangeSize a 1 = plain_range a a.
Proof. intros Ha. unfold RangeSize. rewrite u64_small by lia. by replace (a + 1 - 1) with a by lia. Qed.

(** Meeting a single address is containing it. *)
Lemma intersects_addr x a : 0 ≤ a < 2 ^ 64 → intersects x (RangeSize a 1) = Ok (contains x a).
Proof.
  intros Ha. rewrite RangeSize_1 by done. unfold intersects, contains. cbn [start stop plain_range].
  replace (size (plain_range a a) =? 1) with true.
  2:{ unfold size. cbn. by replace (a - a + 1) with 1 by lia. }
  destruct (Z.ltb_spec a (start x)), (Z.ltb_spec (stop x) a); cbn [orb].
  1-3: destruct (Z.leb_spec (start x) a), (Z.leb_spec a (stop x)); cbn; by repeat case_match; try lia.
  rewrite (proj2 (Z.leb_le (start x) a)), (proj2 (Z.leb_le a (stop x))) by lia. cbn.
  by destruct (interleaved x).
Qed.

Lemma hit_addr t a i x : 0 ≤ a < 2 ^ 64 → t !! i = Some x → hit t (RangeSize a 1) i = Ok (contains x.1 a).
Proof. intros Ha Hi. unfold hit. rewrite Hi. by apply intersects_addr. Qed.

Lemma contains_in r a : contains r a = true → start r ≤ a ≤ stop r.
Proof.
  unfold contains. destruct (interleaved r); cbn; repeat case_match; try done; rewrite ?andb_true_iff, ?Z.leb_le in *; lia.
Qed.

(** An address belongs to at most one of two ranges that are apart. *)
Lemma apart_disjoint x y a :
  apart x y → range_ok x → range_ok y → 0 ≤ a → contains x a = true → contains y a = false.
Proof.
  intros [Hlt|[Hm Hlt]] Hx Hy Ha Hc.
  - apply contains_in in Hc. destruct (contains y a) eqn:E; [|done]. apply contains_in in E. lia.
  - rewrite (contains_chunk x y a Hm Hx Ha). assert (mergesWith x x = true) as Hmx by (by apply merges_eq).
    rewrite (contains_chunk x x a Hmx Hx Ha) in Hc. apply andb_true_iff in Hc as [-> Hc]. cbn [andb].
    pose proof (ok_match _ Hx). pose proof (ok_match _ Hy). apply merges_eq in Hm as (_ & _ & _ & _ & Eb).
    unfold interleaved in *. destruct (Z.eqb_spec (intlvBits x) 0) as [E0|]; cbn in *.
    + rewrite Eb, E0 in *. change (2 ^ 0) with 1 in *. lia.
    + apply Z.eqb_eq in Hc. rewrite Hc. apply Z.eqb_neq. lia.
Qed.

Lemma tree_unique t a i j x y :
  tree_ok t → 0 ≤ a → t !! i = Some x → t !! j = Some y →
  contains x.1 a = true → contains y.1 a = true → i = j.
Proof.
  intros H Ha Hi Hj Hx Hy.
  assert (∀ i j x y, t !! i = Some x → t !! j = Some y → contains x.1 a = true → contains y.1 a = true → ¬ (i < j)%nat) as Hno.
  { intros i' j' x' y' Hi' Hj' Hx' Hy' Hlt. pose proof (tree_sorted _ H _ _ _ _ Hlt Hi' Hj') as Hap.
    destruct (tree_ranges _ H x') as [Ox _]; [by eapply list_elem_of_lookup_2|].
    destruct (tree_ranges _ H y') as [Oy _]; [by eapply list_elem_of_lookup_2|].
    rewrite (apart_disjoint _ _ a Hap Ox Oy Ha Hx') in Hy'. done. }
  pose proof (Hno i j x y Hi Hj Hx Hy). pose proof (Hno j i y x Hj Hi Hy Hx). lia.
Qed.

(** ** Looking up an address *)

Lemma upper_bound_before r t i x : (i < upper_bound r t)%nat → t !! i = Some x → ltr r x.1 = false.
Proof.
  revert i. induction t as [|y t IH]; intros i Hlt Hi; [done|]. cbn in Hlt.
  destruct (ltr r y.1) eqn:E; [lia|]. destruct i as [|i]; cbn in Hi; [by simplify_eq|]. apply (IH i); [lia|done].
Qed.
Lemma upper_bound_at r t x : t !! upper_bound r t = Some x → ltr r x.1 = true.
Proof. induction t as [|y t IH]; cbn; [done|]. destruct (ltr r y.1) eqn:E; cbn; [intros ?; by simplify_eq|done]. Qed.
Lemma upper_bound_le r t : (upper_bound r t ≤ length t)%nat.
Proof. induction t as [|y t IH]; cbn; [lia|]. case_match; cbn; lia. Qed.

Lemma ltr_addr a x : ltr (plain_range a a) x = true ↔ a < start x ∨ (start x = a ∧ 0 < intlvMatch x).
Proof. unfold ltr. cbn. destruct (Z.eqb_spec a (start x)); cbn; rewrite Z.ltb_lt; lia. Qed.

(** Ranges that start after the address, or at it with a match value that is not
    that of the first range, do not contain it. *)
Lemma behind_not_contains x a :
  range_ok x → aligned x → ltr (plain_range a a) x = true → contains x a = false.
Proof.
  intros Hok Hal [Hlt|[<- Hm]]%ltr_addr.
  - destruct (contains x a) eqn:E; [|done]. apply contains_in in E. lia.
  - unfold contains, aligned in *. destruct (interleaved x) eqn:Ei; cbn.
    + rewrite Hal by done. case_match; [|done]. apply Z.eqb_neq. lia.
    + unfold interleaved in Ei. apply negb_false_iff, Z.eqb_eq in Ei. pose proof (ok_match _ Hok) as Hr.
      rewrite Ei in Hr. change (2 ^ 0) with 1 in Hr. lia.
Qed.

(** No entry from the upper bound on contains the address. *)
Lemma after_upper_bound t a j y :
  tree_ok t → (upper_bound (plain_range a a) t ≤ j)%nat → t !! j = Some y → contains y.1 a = false.
Proof.
  intros H Hle Hj. destruct (tree_ranges _ H y) as [Oy Ay]; [by eapply list_elem_of_lookup_2|].
  apply behind_not_contains; [done|done|]. apply lookup_lt_Some in Hj as Hl.
  destruct (lookup_lt_is_Some_2 t (upper_bound (plain_range a a) t)) as [x Hx]; [lia|].
  pose proof (upper_bound_at _ _ _ Hx) as Hu. destruct (decide (upper_bound (plain_range a a) t = j)) as [E|Hne].
  { rewrite E in Hx. by simplify_eq. }
  destruct (tree_ranges _ H x) as [Ox _]; [by eapply list_elem_of_lookup_2|]. pose proof (ok_ends _ Ox).
  assert (upper_bound (plain_range a a) t < j)%nat as Hlt by lia.
  pose proof (tree_sorted _ H _ j _ _ Hlt Hx Hj) as Hap. rewrite ltr_addr in Hu |- *.
  destruct Hap as [?|[(Es & _)%merges_eq Hm]]; lia.
Qed.

Lemma step_back_spec t a orig i x :
  0 ≤ a < 2 ^ 64 → t !! i = Some x → contains x.1 a = false →
  ∃ o, step_back t (RangeSize a 1) orig i = Ok o ∧
    match o with
    | Some k => ∃ y, t !! k = Some y ∧ contains y.1 a = true
    | None => ∀ j y, (j ≤ i)%nat → t !! j = Some y →
        (∀ k z, (j < k ≤ i)%nat → t !! k = Some z → mergesWith z.1 orig = true) → contains y.1 a = false
    end.
Proof.
  intros Ha. revert x. induction i as [|i IH]; intros x Hx Hc; cbn [step_back].
  - rewrite (hit_addr _ _ _ _ Ha Hx), Hc. exists None. split; [done|]. intros j y Hj Hy _.
    assert (j = 0%nat) as -> by lia. by simplify_eq.
  - rewrite Hx. destruct (mergesWith x.1 orig) eqn:Em.
    + destruct (lookup_lt_is_Some_2 t i) as [y Hy]; [apply lookup_lt_Some in Hx; lia|].
      rewrite (hit_addr _ _ _ _ Ha Hy). cbn [mbind res_bind]. destruct (contains y.1 a) eqn:Ey.
      { exists (Some i). split; [done|]. eauto. }
      destruct (IH y Hy Ey) as (o & -> & Ho). exists o. split; [done|]. destruct o as [k|]; [done|].
      intros j z Hj Hz Hk. destruct (decide (j = S i)) as [->|]; [by simplify_eq|].
      apply (Ho j z); [lia|done|]. intros k u Hku Hu. apply (Hk k u); [lia|done].
    + rewrite (hit_addr _ _ _ _ Ha Hx), Hc. exists None. split; [done|].
      intros j z Hj Hz Hk. destruct (decide (j = S i)) as [->|]; [by simplify_eq|].
      rewrite (Hk (S i) x) in Em; [done|lia|done].
Qed.

(** Between two entries of a chunk there are only entries of the chunk. *)
Lemma chunk_between t j k i x y z :
  tree_ok t → (j < k < i)%nat → t !! j = Some x → t !! k = Some y → t !! i = Some z →
  mergesWith x.1 z.1 = true → mergesWith y.1 z.1 = true.
Proof.
  intros H Hlt Hj Hk Hi Hm. pose proof (tree_sorted _ H j k _ _ ltac:(lia) Hj Hk) as Hxy.
  pose proof (tree_sorted _ H k i _ _ ltac:(lia) Hk Hi) as [Hyz|[? _]]; [|done]. apply merges_eq in Hm as (Es & _).
  destruct (tree_ranges _ H x) as [Ox _]; [by eapply list_elem_of_lookup_2|]. pose proof (ok_ends _ Ox).
  destruct (tree_ranges _ H y) as [Oy _]; [by eapply list_elem_of_lookup_2|]. pose proof (ok_ends _ Oy).
  destruct Hxy as [?|[(Exy & _)%merges_eq _]]; lia.
Qed.

(** The result is the one entry that contains the address, or there is none. *)
Definition found (t : tree) (a : Addr) (o : option nat) : Prop :=
  match o with
  | Some i => ∃ x, t !! i = Some x ∧ contains x.1 a = true ∧
      ∀ j y, t !! j = Some y → contains y.1 a = true → j = i
  | None => ∀ y, y ∈ t → contains y.1 a = false
  end.

Lemma found_here t a i x :
  tree_ok t → 0 ≤ a → t !! i = Some x → contains x.1 a = true → found t a (Some i).
Proof.
  intros H Ha Hi Hx. exists x. split_and!; [done..|]. intros j y Hj Hy. by apply (tree_unique t a j i y x).
Qed.

(** Nothing before the upper bound contains the address if neither the entry in
    front of it nor its chunk does. *)
Lemma not_before t a i x j y :
  tree_ok t → 0 ≤ a → upper_bound (plain_range a a) t = S i → t !! i = Some x → t !! j = Some y → (j < i)%nat →
  contains y.1 a = true → mergesWith y.1 x.1 = true ∧ interleaved x.1 = true.
Proof.
  intros H Ha Eu Hi Hj Hlt Hc. pose proof (tree_sorted _ H j i _ _ Hlt Hj Hi) as Hap.
  destruct (tree_ranges _ H x) as [Ox _]; [by eapply list_elem_of_lookup_2|].
  destruct (tree_ranges _ H y) as [Oy _]; [by eapply list_elem_of_lookup_2|].
  pose proof (upper_bound_before (plain_range a a) t i x ltac:(lia) Hi) as Hn.
  apply not_true_iff_false in Hn. rewrite ltr_addr in Hn. apply contains_in in Hc.
  destruct Hap as [?|[Hm Hmt]]; [lia|]. split; [done|]. unfold interleaved.
  destruct (Z.eqb_spec (intlvBits x.1) 0) as [E0|]; [|done]. apply merges_eq in Hm as (_ & _ & _ & _ & Eb).
  pose proof (ok_match _ Ox). pose proof (ok_match _ Oy). rewrite <-Eb, E0 in *. change (2 ^ 0) with 1 in *. lia.
Qed.

(** Looking up an address finds the one entry that contains it. *)
Lemma find_addr_ok t a : tree_ok t → 0 ≤ a < 2 ^ 64 → ∃ o, find_addr a t = Ok o ∧ found t a o.
Proof.
  intros H Ha. unfold find_addr, find. destruct t as [|t0 t']; [exists None; split; [done|set_solver]|].
  set (t := t0 :: t') in *. assert (∀ j y, t !! j = Some y → (upper_bound (RangeSize a 1) t ≤ j)%nat → contains y.1 a = false) as Hafter.
  { intros j y Hj Hle. rewrite RangeSize_1 in Hle by done. by apply (after_upper_bound t a j). }
  destruct (upper_bound (RangeSize a 1) t) as [|i] eqn:Eu.
  { rewrite (hit_addr t a 0 t0) by done. rewrite (Hafter 0%nat t0) by (done || lia). exists None. split; [done|].
    intros y [j Hj]%list_elem_of_lookup_1. apply (Hafter j y Hj). lia. }
  destruct (lookup_lt_is_Some_2 t i) as [x Hx]; [pose proof (upper_bound_le (RangeSize a 1) t); lia|].
  rewrite (hit_addr t a i x) by done. cbn [mbind res_bind]. destruct (contains x.1 a) eqn:Ex.
  { exists (Some i). split; [done|]. eapply found_here; eauto. lia. }
  rewrite RangeSize_1 in Eu by done. rewrite Hx.
  assert (∀ j y, t !! j = Some y → contains y.1 a = true → (j < i)%nat) as Hlt.
  { intros j y Hj Hy. destruct (decide (S i ≤ j)%nat) as [Hle|]; [by rewrite (Hafter j y Hj Hle) in Hy|].
    destruct (decide (j = i)) as [->|]; [simplify_eq; congruence|lia]. }
  destruct (interleaved x.1) eqn:Ei.
  - destruct (step_back_spec t a x.1 i x Ha Hx Ex) as (o & -> & Ho). exists o. split; [done|].
    destruct o as [k|]; [destruct Ho as (y & Hk & Hy); eapply found_here; eauto; lia|].
    intros y [j Hj]%list_elem_of_lookup_1. destruct (contains y.1 a) eqn:Ey; [|done].
    pose proof (Hlt j y Hj Ey) as Hji. rewrite <-Ey. apply (Ho j y); [lia|done|].
    destruct (not_before t a i x j y) as [Hm _]; [done|lia|done..|].
    intros k z Hk Hz. destruct (decide (k = i)) as [->|]; [simplify_eq; by apply merges_eq|].
    apply (chunk_between t j k i y z x); [done|lia|done..].
  - exists None. split; [done|]. intros y [j Hj]%list_elem_of_lookup_1. destruct (contains y.1 a) eqn:Ey; [|done].
    pose proof (Hlt j y Hj Ey) as Hji. destruct (not_before t a i x j y) as [_ Hi]; [done|lia|done..|]. congruence.
Qed.

(** ** Insertion *)

(** A new range that is apart from the others, before or after each of them. *)
Record fits (r : AddrRange) (t : tree) : Prop :=
  { fits_ok : range_ok r ∧ aligned r;
    fits_size : interleaved r = true → size r ≠ 1;
    fits_apart x : x ∈ t → apart x.1 r ∨ apart r x.1 }.

Lemma merges_sym x y : mergesWith x y = mergesWith y x.
Proof. apply eq_true_iff_eq. rewrite !merges_eq. intuition congruence. Qed.

Lemma chunk_interleaved x y :
  range_ok x → range_ok y → mergesWith x y = true → intlvMatch x ≠ intlvMatch y → interleaved x = true.
Proof.
  intros Hx Hy (_ & _ & _ & _ & Eb)%merges_eq Hne. unfold interleaved.
  destruct (Z.eqb_spec (intlvBits x) 0) as [E0|]; [|done]. pose proof (ok_match _ Hx). pose proof (ok_match _ Hy).
  rewrite Eb, E0 in *. change (2 ^ 0) with 1 in *. lia.
Qed.

Lemma apart_intersects x r :
  range_ok x → range_ok r → (interleaved r = true → size r ≠ 1) → apart x r ∨ apart r x →
  intersects x r = Ok false.
Proof.
  intros Hx Hr Hs Hap. assert (stop x < start r ∨ stop r < start x ∨ (mergesWith x r = true ∧ intlvMatch x ≠ intlvMatch r)) as Hc.
  { destruct Hap as [[?|[? ?]]|[?|[? ?]]]; [by left|right; right; split; [done|lia]|right; by left|].
    right; right. rewrite merges_sym. split; [done|lia]. }
  unfold intersects. destruct Hc as [Hlt|[Hlt|[Hm Hne]]].
  - rewrite (proj2 (Z.ltb_lt (stop x) (start r))) by done. by rewrite orb_true_r.
  - by rewrite (proj2 (Z.ltb_lt (stop r) (start x))).
  - destruct (_ || _); [done|]. pose proof (chunk_interleaved x r Hx Hr Hm Hne) as Hi. rewrite Hi. cbn [negb andb].
    assert (interleaved r = true) as Hir by (apply merges_eq in Hm as (_ & _ & _ & _ & Eb); unfold interleaved in *; by rewrite Eb).
    rewrite (proj2 (Z.eqb_neq _ _) (Hs Hir)), Hm. f_equal. by apply Z.eqb_neq.
Qed.

Lemma hit_none t r i :
  (∀ x, x ∈ t → intersects x.1 r = Ok false) → (i < length t)%nat → hit t r i = Ok false.
Proof.
  intros H [x Hx]%lookup_lt_is_Some_2. unfold hit. rewrite Hx. by eapply H, list_elem_of_lookup_2.
Qed.
Lemma step_back_none t r orig i :
  (∀ x, x ∈ t → intersects x.1 r = Ok false) → (i < length t)%nat → step_back t r orig i = Ok None.
Proof.
  intros H. induction i as [|i IH]; intros Hi; cbn [step_back]; rewrite (hit_none t r _ H Hi); [done|].
  destruct (lookup_lt_is_Some_2 t (S i) Hi) as [x ->]. case_match; [|done].
  rewrite (hit_none t r i H) by lia. cbn [mbind res_bind]. apply IH. lia.
Qed.
Lemma find_none t r : (∀ x, x ∈ t → intersects x.1 r = Ok false) → find r t = Ok None.
Proof.
  intros H. unfold find. destruct t as [|t0 t']; [done|]. set (t := t0 :: t') in *.
  destruct (upper_bound r t) as [|i] eqn:Eu; [by rewrite (hit_none t r 0 H) by (cbn; lia)|].
  assert (i < length t)%nat as Hi by (pose proof (upper_bound_le r t); lia).
  rewrite (hit_none t r i H Hi). cbn [mbind res_bind]. destruct (lookup_lt_is_Some_2 t i Hi) as [x ->].
  case_match; [|done]. by apply step_back_none.
Qed.

Lemma apart_ltr x y : range_ok x → apart x y → ltr x y = true ∧ ltr y x = false.
Proof.
  intros Hx Hap. pose proof (ok_ends _ Hx). unfold ltr. destruct Hap as [Hlt|[(Es & _)%merges_eq Hm]].
  - rewrite !(proj2 (Z.eqb_neq _ _)) by lia. cbn [negb]. split; [apply Z.ltb_lt|apply Z.ltb_ge]; lia.
  - rewrite Es, Z.eqb_refl. cbn [negb]. split; [apply Z.ltb_lt|apply Z.ltb_ge]; lia.
Qed.

Lemma map_insert_ok t r d :
  tree_ok t → fits r t → tree_ok (map_insert r d t).2 ∧ (map_insert r d t).2 ≡ₚ (r, d) :: t.
Proof.
  intros [Hr Hs] [Hok _ Hap]. assert ((map_insert r d t).2 ≡ₚ (r, d) :: t ∧
    StronglySorted (λ x y, apart x.1 y.1) (map_insert r d t).2) as [Hp Hs'].
  { induction t as [|x t IH]; cbn [map_insert]; [by repeat constructor|].
    apply StronglySorted_inv in Hs as [Hs Hx]. destruct (Hr x) as [Ox _]; [left|].
    destruct (Hap x) as [Hxr|Hrx]; [left| |].
    - destruct (apart_ltr _ _ Ox Hxr) as [-> ->]. cbn [snd].
      destruct IH as [Hp Hs2]; [set_solver|done|set_solver|]. split; [rewrite Hp; apply perm_swap|].
      constructor; [done|]. rewrite Hp. by constructor.
    - destruct (apart_ltr _ _ (proj1 Hok) Hrx) as [-> _]. cbn [snd]. split; [done|].
      constructor; [by constructor|]. constructor; [done|]. rewrite Forall_forall in Hx |- *. intros y Hy.
      destruct (Hap y) as [Hyr|]; [by right| |done]. exfalso.
      specialize (Hx y Hy). destruct (Hr y) as [Oy _]; [by right|].
      pose proof (ok_ends _ Ox). pose proof (ok_ends _ Oy). pose proof (ok_ends _ (proj1 Hok)).
      destruct Hrx as [?|[(?&?&_)%merges_eq ?]], Hyr as [?|[(?&?&_)%merges_eq ?]], Hx as [?|[(?&?&_)%merges_eq ?]]; lia. }
  split; [|done]. split; [|done]. intros x Hx. rewrite Hp in Hx. apply elem_of_cons in Hx as [->|Hx]; auto.
Qed.

(** A range that fits is inserted. *)
Lemma insert_ok t r d :
  tree_ok t → fits r t → ∃ i t', insert r d t = Ok (Some i, t') ∧ tree_ok t' ∧ t' ≡ₚ (r, d) :: t.
Proof.
  intros Ht Hf. destruct (map_insert_ok t r d Ht Hf) as [Ht' Hp]. unfold insert. rewrite find_none.
  - cbn [mbind res_bind]. eauto.
  - intros x Hx. apply apart_intersects; [by apply (tree_ranges _ Ht)|apply Hf..|by apply (fits_apart _ _ Hf)].
Qed.

(** Insertion that stops on an overlap, as its callers do. *)
Definition add (t : tree) (rd : AddrRange * V) : res tree :=
  i ← insert rd.1 rd.2 t;
  match i.1 with None => Fault (Fatal "overlapping") | Some _ => Ok i.2 end.

(** Ranges that are apart from each other, in whatever order. *)
Record disjoint (l : list (AddrRange * V)) : Prop :=
  { dis_ok x : x ∈ l → range_ok x.1 ∧ aligned x.1 ∧ (interleaved x.1 = true → size x.1 ≠ 1);
    dis_apart i j x y : i ≠ j → l !! i = Some x → l !! j = Some y → apart x.1 y.1 ∨ apart y.1 x.1 }.

Lemma disjoint_perm l1 l2 : l1 ≡ₚ l2 → disjoint l2 → disjoint l1.
Proof.
  intros Hp Hd. split; [intros y Hy; apply (dis_ok _ Hd); by rewrite <-Hp|].
  intros i j y z Hne Hi Hj. apply Permutation_inj in Hp as (_ & f & Hf & Hlk).
  rewrite Hlk in Hi, Hj. apply (dis_apart _ Hd (f i) (f j)); [|done..]. intros ?%Hf. done.
Qed.

Lemma adds_ok t l :
  tree_ok t → disjoint (t ++ l) → ∃ t', foldM add t l = Ok t' ∧ tree_ok t' ∧ t' ≡ₚ t ++ l.
Proof.
  revert t. induction l as [|x l IH]; intros t Ht Hd; [exists t; by rewrite app_nil_r|].
  destruct (insert_ok t x.1 x.2 Ht) as (i & t1 & E & Ht1 & Hp).
  { destruct (dis_ok _ Hd x) as (H1 & H2 & H3); [apply elem_of_app; right; left|]. split; [done|done|].
    intros y [j Hj]%list_elem_of_lookup_1. pose proof (lookup_lt_Some _ _ _ Hj).
    apply (dis_apart _ Hd j (length t)); [lia|by apply lookup_app_l_Some|by apply list_lookup_middle]. }
  rewrite <-surjective_pairing in Hp. assert (add t x = Ok t1) as Ea by (unfold add; by rewrite E).
  cbn [foldM]. rewrite Ea. cbn [mbind res_bind].
  assert (t1 ++ l ≡ₚ t ++ x :: l) as Hp1 by (rewrite Hp; apply Permutation_middle).
  destruct (IH t1 Ht1) as (t' & E' & Ht' & Hp'); [by eapply disjoint_perm|].
  exists t'. split_and!; [done..|]. by rewrite Hp'.
Qed.

(** Ranges that are apart from each other, plain, interleaved or hashed, are
    all accepted in whatever order they are inserted, and afterwards the lookup of
    any address gives the one inserted range that contains it, also in the middle
    of an interleaved chunk, and nothing exactly if there is none. *)
Theorem insert_then_find l a :
  disjoint l → 0 ≤ a < 2 ^ 64 →
  ∃ t o, foldM add [] l = Ok t ∧ find_addr a t = Ok o ∧
    match o ≫= (t !!.) with
    | Some x => x ∈ l ∧ contains x.1 a = true ∧ ∀ y, y ∈ l → contains y.1 a = true → y = x
    | None => ∀ y, y ∈ l → contains y.1 a = false
    end.
Proof.
  intros Hd Ha. destruct (adds_ok [] l) as (t & E & Ht & Hp); [split; [set_solver|constructor]|done|].
  destruct (find_addr_ok t a Ht Ha) as (o & Ef & Ho). exists t, o. split_and!; [done..|]. cbn in Hp.
  destruct o as [i|]; cbn.
  - destruct Ho as (x & Hi & Hx & Hu). rewrite Hi. split_and!; [rewrite <-Hp; by eapply list_elem_of_lookup_2|done|].
    intros y Hy Hc. rewrite <-Hp in Hy. apply list_elem_of_lookup_1 in Hy as [j Hj].
    assert (j = i) as -> by (by apply (Hu j y)). congruence.
  - intros y Hy. apply Ho. by rewrite Hp.
Qed.
End map.

(** ** What the check of [insert] misses *)

(** [insert] only looks at the entry before the new range, so a range that
    covers a later entry is accepted as free of overlap, and then one address is
    in two entries; and the first address of a hashed chunk whose xor slice is not
    zero there is found in no entry, although one contains it. *)
Theorem map_misses :
  (∃ t, (t1 ← insert (plain_range 0 5) 1 []; t2 ← insert (plain_range 50 60) 2 t1.2;
         insert (plain_range 10 100) 3 t2.2) = Ok (Some 1%nat, t) ∧
     contains (plain_range 50 60) 55 = true ∧ contains (plain_range 10 100) 55 = true ∧
     t.*2 = [1; 3; 2]) ∧
  (∃ t, (t1 ← insert (mkAddrRange 0x1000 0x1fff 7 12 1 0) 1 [];
         insert (mkAddrRange 0x1000 0x1fff 7 12 1 1) 2 t1.2) = Ok (Some 1%nat, t) ∧
     contains (mkAddrRange 0x1000 0x1fff 7 12 1 1) 0x1000 = true ∧ find_addr 0x1000 t = Ok None).
Proof.
  split.
  - exists [(plain_range 0 5, 1); (plain_range 10 100, 3); (plain_range 50 60, 2)].
    split_and!; by vm_compute.
  - exists [(mkAddrRange 0x1000 0x1fff 7 12 1 0, 1); (mkAddrRange 0x1000 0x1fff 7 12 1 1, 2)].
    split_and!; by vm_compute.
Qed.

(** Two hashed channels and a device. *)
Definition ex_entries : list (AddrRange * Z) :=
  [(plain_range (2 ^ 31) (2 ^ 31 + 0xfff), 3); (mkAddrRange 0 (2 ^ 31 - 1) 7 12 1 1, 2);
   (mkAddrRange 0 (2 ^ 31 - 1) 7 12 1 0, 1)].

Lemma ex_disjoint : disjoint ex_entries.
Proof.
  split.
  - intros x Hx. unfold ex_entries in Hx. rewrite !elem_of_cons in Hx.
    destruct Hx as [->|[->|[->|Hx]]]; [..|by apply elem_of_nil in Hx];
      (split_and!; [split; cbn; lia|intros; by vm_compute|by vm_compute]).
  - intros i j x y Hne Hi Hj. destruct i as [|[|[|?]]], j as [|[|[|?]]]; cbn in Hi, Hj; simplify_eq; try done; unfold apart; cbn;
      solve [left; left; lia|right; left; lia|left; right; split; [by vm_compute|lia]|right; right; split; [by vm_compute|lia]].
Qed.

Lemma insert_then_find_witness :
  (t ← foldM add [] ex_entries; find_addr 0x1080 t) = Ok (Some 0%nat) ∧
  ∃ t o, foldM add [] ex_entries = Ok t ∧ find_addr 0x1080 t = Ok o ∧
    match o ≫= (t !!.) with
    | Some x => x ∈ ex_entries ∧ contains x.1 0x1080 = true ∧ ∀ y, y ∈ ex_entries → contains y.1 0x1080 = true → y = x
    | None => ∀ y, y ∈ ex_entries → contains y.1 0x1080 = false
    end.
Proof. split; [by vm_compute|]. apply (insert_then_find ex_entries 0x1080); [apply ex_disjoint|lia]. Defined.

End AddrRangeMap.
