(* ===== verification/PhysicalMem.v ===== *)
(** * The physical memory (mem/physical.hh, physical.cc)

    The system's memories with the global address map: construction inserts the
    ranges of the memories and gives each chunk of addresses a backing store, but
    none to a DRAM cache outside the map; accesses are routed to the memory that
    owns the address, with a cache of the last entry.  A memory is its position in
    the system's list, a backing store the number of its [mmap]. *)

From S2P Require Import Prelude Intmath AddrRange AddrRangeMap.
Import Intmath AddrRange AddrRangeMap.

Module PhysicalMem.

Record Memory := mkMemory
  { m_range : AddrRange; isInAddrMap : bool; isNull : bool; isDRAMCache : bool;
    isConfReported : bool }.

Record PhysicalMemory := mkPhys
  { addrMap : list (AddrRange * nat);
    rangeCache : option nat;               (** [None] is [addrMap.end()] *)
    memories : list nat;
    totalSize : Z;
    backingStore : list AddrRange;         (** the region of the [k]-th [mmap] *)
    pmemAddr : gmap nat nat }.             (** [AbstractMemory::pmemAddr] *)
#[export] Instance eta_PhysicalMemory : Eta PhysicalMemory := λ p,
  mkPhys (addrMap p) (rangeCache p) (memories p) (totalSize p) (backingStore p) (pmemAddr p).

Section phys.
(** Whether the [k]-th [mmap] succeeds. *)
Variable mmap : nat → bool.

Definition createBackingStore (range : AddrRange) (ms : list nat) (p : PhysicalMemory) : res PhysicalMemory :=
  if interleaved range then Fault (Panic "Cannot create backing store for interleaved range")
  else
    let k := length (backingStore p) in
    if negb (mmap k) then Fault (Fatal "Could not mmap")
    else Ok (p <| backingStore ::= λ l, l ++ [range] |>
               <| pmemAddr ::= λ pm, foldl (λ pm m, <[m := k]> pm) pm ms |>).

(** The body of the first loop of the constructor. *)
Definition add_memory (p : PhysicalMemory) (im : nat * Memory) : res PhysicalMemory :=
  let i := im.1 in let m := im.2 in
  if isInAddrMap m then
    let p := p <| memories ::= λ l, l ++ [i] |> <| totalSize ::= λ s, u64 (s + size (m_range m)) |> in
    r ← insert (m_range m) i (addrMap p);
    match r.1 with
    | None => Fault (Fatal "Memory address range is overlapping")
    | Some _ => Ok (p <| addrMap := r.2 |>)
    end
  else if interleaved (m_range m)
  then Fault (Fatal "Memory that is not in the global address map cannot be interleaved")
  else if isDRAMCache m then Ok p
  else createBackingStore (m_range m) [i] p.

(** The ranges of an interleaved chunk are merged. *)
Definition flush (ranges : list AddrRange) (ms : list nat) (p : PhysicalMemory) : res PhysicalMemory :=
  if decide (ranges = []) then Ok p
  else merged ← merge_ranges ranges; createBackingStore merged ms p.

(** The second loop, over the address map, with the interleaved ranges that wait
    and their memories. *)
Fixpoint create_stores (null : nat → bool) (t : list (AddrRange * nat)) (ranges : list AddrRange) (ms : list nat)
    (p : PhysicalMemory) : res PhysicalMemory :=
  match t with
  | [] => flush ranges ms p
  | (r, m) :: t =>
      if null m then create_stores null t ranges ms p
      else if interleaved r then
        let other := match last ranges with Some b => negb (mergesWith b r) | None => false end in
        if other then p ← flush ranges ms p; create_stores null t [r] [m] p
        else create_stores null t (ranges ++ [r]) (ms ++ [m]) p
      else p ← createBackingStore r [m] p; create_stores null t ranges ms p
  end.

Definition null_of (sys : list Memory) (m : nat) : bool :=
  match sys !! m with Some x => isNull x | None => false end.

Definition new_physical (sys : list Memory) : res PhysicalMemory :=
  p ← foldM add_memory (mkPhys [] None [] 0 [] ∅) (imap pair sys);
  create_stores (null_of sys) (addrMap p) [] [] p.

(** The entry of the cached iterator, if it contains the address. *)
Definition cached (a : Addr) (p : PhysicalMemory) : option nat :=
  match rangeCache p with
  | Some i => match addrMap p !! i with
              | Some x => if contains x.1 a then Some x.2 else None
              | None => None
              end
  | None => None
  end.

Definition isMemAddr (a : Addr) (p : PhysicalMemory) : res (bool * PhysicalMemory) :=
  match cached a p with
  | Some _ => Ok (true, p)
  | None =>
      o ← find_addr a (addrMap p);
      match o with
      | None => Ok (false, p)
      | Some i => Ok (true, p <| rangeCache := Some i |>)
      end
  end.

(** The memory that [access] and [functionalAccess] hand the packet to. *)
Definition access_target (a : Addr) (p : PhysicalMemory) : res nat :=
  match cached a p with
  | Some m => Ok m
  | None =>
      o ← find_addr a (addrMap p);
      match o ≫= (addrMap p !!.) with
      | None => Fault (AssertFail "m != addrMap.end()")
      | Some x => Ok x.2
      end
  end.

(** [getConfAddrRanges]. *)
Fixpoint conf_ranges (conf : nat → bool) (t : list (AddrRange * nat)) (ranges : list AddrRange) : res (list AddrRange) :=
  let close := if decide (ranges = []) then Ok [] else merged ← merge_ranges ranges; Ok [merged] in
  match t with
  | [] => close
  | (r, m) :: t =>
      if negb (conf m) then conf_ranges conf t ranges
      else if interleaved r then
        let other := match last ranges with Some b => negb (mergesWith b r) | None => false end in
        if other then l ← close; l' ← conf_ranges conf t [r]; Ok (l ++ l')
        else conf_ranges conf t (ranges ++ [r])
      else l ← conf_ranges conf t ranges; Ok (r :: l)
  end.

Definition conf_of (sys : list Memory) (m : nat) : bool :=
  match sys !! m with Some x => isConfReported x | None => false end.

(** ** Backing stores *)

(** The memory with range [r] has a store for all its addresses. *)
Definition stored (p : PhysicalMemory) (r : AddrRange) (m : nat) : Prop :=
  ∃ k rng, pmemAddr p !! m = Some k ∧ backingStore p !! k = Some rng ∧
    interleaved rng = false ∧ start rng = start r ∧ stop rng = stop r.

Lemma set_stores_other (pm : gmap nat nat) k ms m :
  m ∉ ms → foldl (λ pm m, <[m := k]> pm) pm ms !! m = pm !! m.
Proof.
  revert pm. induction ms as [|x ms IH]; intros pm Hm; [done|]. cbn. rewrite IH by set_solver.
  apply lookup_insert_ne. set_solver.
Qed.
Lemma set_stores_in (pm : gmap nat nat) k ms m :
  m ∈ ms → foldl (λ pm m, <[m := k]> pm) pm ms !! m = Some k.
Proof.
  revert pm. induction ms as [|x ms IH]; intros pm Hm; [set_solver|]. cbn.
  destruct (decide (m ∈ ms)); [by apply IH|]. rewrite set_stores_other by done.
  assert (m = x) as -> by set_solver. apply lookup_insert_eq.
Qed.

Lemma create_keeps range ms p p' r m :
  createBackingStore range ms p = Ok p' → m ∉ ms → stored p r m → stored p' r m.
Proof.
  unfold createBackingStore. intros E Hm (k & rng & H1 & H2 & H3). repeat case_match; simplify_eq/=.
  exists k, rng. cbn. rewrite set_stores_other by done. split_and!; [done| |tauto..].
  by apply lookup_app_l_Some.
Qed.
Lemma create_stores_range range ms p p' r m :
  createBackingStore range ms p = Ok p' → m ∈ ms → start range = start r → stop range = stop r → stored p' r m.
Proof.
  unfold createBackingStore. intros E Hm Hs Ht. repeat case_match; simplify_eq/=.
  exists (length (backingStore p)), range. cbn. rewrite set_stores_in by done. split_and!; [done| |done..].
  by apply list_lookup_middle.
Qed.
Lemma create_addrMap range ms p p' :
  createBackingStore range ms p = Ok p' → addrMap p' = addrMap p ∧ rangeCache p' = rangeCache p.
Proof. unfold createBackingStore. intros E. repeat case_match; by simplify_eq/=. Qed.

Lemma flush_keeps ranges ms p p' r m : flush ranges ms p = Ok p' → m ∉ ms → stored p r m → stored p' r m.
Proof.
  unfold flush. case_decide; [by intros [= <-]|]. intros (rng & _ & E)%bind_ok. by eapply create_keeps.
Qed.
Lemma flush_addrMap ranges ms p p' :
  flush ranges ms p = Ok p' → addrMap p' = addrMap p ∧ rangeCache p' = rangeCache p.
Proof. unfold flush. case_decide; [by intros [= <-]|]. intros (rng & _ & E)%bind_ok. by eapply create_addrMap. Qed.

(** All ranges of the chunk get the store of the merged range. *)
Lemma flush_stores ranges ms p p' i r m :
  flush ranges ms p = Ok p' → ranges !! i = Some r → ms !! i = Some m → stored p' r m.
Proof.
  unfold flush. case_decide as E0; [by subst|]. intros (rng & Em & E)%bind_ok Hr Hm.
  destruct ranges as [|front rs]; [done|]. unfold merge_ranges in Em. case_match; [done|].
  apply bind_ok in Em as (u & Ec & Em). injection Em as <-. change 0 with (u8 0) in Ec.
  destruct (merge_check_ok _ _ _ _ i r Ec Hr) as [(E1 & E2 & _)%merges_eq _].
  eapply create_stores_range; [done|by eapply list_elem_of_lookup_2|done..].
Qed.

(** Every waiting memory and every memory of the rest of the map gets its store,
    the others keep theirs. *)
Lemma create_stores_ok null t ranges ms p p' :
  create_stores null t ranges ms p = Ok p' → NoDup (ms ++ t.*2) → length ranges = length ms →
  (∀ i r m, ranges !! i = Some r → ms !! i = Some m → stored p' r m) ∧
  (∀ r m, (r, m) ∈ t → null m = false → stored p' r m) ∧
  (∀ r m, m ∉ ms ++ t.*2 → stored p r m → stored p' r m) ∧
  addrMap p' = addrMap p ∧ rangeCache p' = rangeCache p.
Proof.
  revert ranges ms p. induction t as [|[r m] t IH]; intros ranges ms p E Hn Hlen; cbn [create_stores] in E.
  { split_and!; [intros; by eapply flush_stores|intros ? ? Hin; by apply elem_of_nil in Hin| |by eapply flush_addrMap..].
    cbn. rewrite app_nil_r. intros. by eapply flush_keeps. }
  cbn [fmap list_fmap] in Hn. pose proof Hn as Hn'. rewrite <-Permutation_middle in Hn'. apply NoDup_cons in Hn' as [Hm Hn'].
  setoid_rewrite elem_of_cons. destruct (null m) eqn:Enull.
  { destruct (IH _ _ _ E Hn' Hlen) as (I1 & I2 & I3 & I4). split_and!; [done| | |apply I4..].
    - intros r' m' [[= -> ->]|Hin] Hm'; [congruence|auto].
    - intros r' m' Hni. apply I3. clear -Hni. cbn in Hni. set_solver. }
  destruct (interleaved r) eqn:Ei.
  - destruct (match last ranges with Some b => _ | None => _ end).
    + apply bind_ok in E as (p1 & Ef & E). pose proof Hn as (N1 & N12 & N2)%NoDup_app.
      destruct (IH [r] [m] p1 E) as (I1 & I2 & I3 & I4 & I5); [by cbn|done|].
      destruct (flush_addrMap _ _ _ _ Ef) as [F1 F2]. split_and!; [| | |congruence..].
      * intros i r' m' Hr Hm'. apply I3; [|by eapply flush_stores].
        apply list_elem_of_lookup_2 in Hm'. cbn. specialize (N12 m' Hm'). cbn in N12. set_solver.
      * intros r' m' [[= -> ->]|Hin] Hnl; [by apply (I1 0%nat)|auto].
      * intros r' m' Hni Hst. apply I3; [cbn in *; set_solver|]. eapply flush_keeps; [done| |done]. set_solver.
    + destruct (IH (ranges ++ [r]) (ms ++ [m]) p E) as (I1 & I2 & I3 & I4);
        [by rewrite <-app_assoc|by rewrite !length_app, Hlen|]. split_and!; [| | |apply I4..].
      * intros i r' m' Hr Hm'. apply (I1 i); by apply lookup_app_l_Some.
      * intros r' m' [[= -> ->]|Hin] Hnl; [|auto]. apply (I1 (length ranges)); [by apply list_lookup_middle|].
        rewrite Hlen. by apply list_lookup_middle.
      * intros r' m' Hni. apply I3. rewrite <-app_assoc. exact Hni.
  - apply bind_ok in E as (p1 & Ec & E). destruct (IH _ _ p1 E Hn' Hlen) as (I1 & I2 & I3 & I4 & I5).
    destruct (create_addrMap _ _ _ _ Ec) as [F1 F2]. split_and!; [done| | |congruence..].
    + intros r' m' [[= -> ->]|Hin] Hnl; [|auto]. apply I3; [done|]. eapply create_stores_range; [done|left|done..].
    + intros r' m' Hni Hst. apply I3; [set_solver|]. eapply create_keeps; [done| |done]. set_solver.
Qed.

(** ** Construction *)

Definition owns (sys : list Memory) (m : nat) (a : Addr) : Prop :=
  ∃ x, sys !! m = Some x ∧ isInAddrMap x = true ∧ contains (m_range x) a = true.

(** What the address map asks of the ranges of its memories: they are ranges of 64-bit
    addresses; an interleaved chunk starts at an address of its first channel, without
    which its first address is found in no entry ([AddrRangeMap.map_misses]); an
    interleaved range is not a single address; and two ranges are disjoint, or
    different channels of one chunk. *)
Record layout (sys : list Memory) : Prop :=
  { lay_range m x : sys !! m = Some x → isInAddrMap x = true → range_ok (m_range x);
    lay_aligned m x : sys !! m = Some x → isInAddrMap x = true → aligned (m_range x);
    lay_size m x : sys !! m = Some x → isInAddrMap x = true →
      interleaved (m_range x) = true → size (m_range x) ≠ 1;
    lay_apart m n x y : m ≠ n → sys !! m = Some x → sys !! n = Some y →
      isInAddrMap x = true → isInAddrMap y = true → apart (m_range x) (m_range y) ∨ apart (m_range y) (m_range x) }.

(** The address map holds the memories below [n]. *)
Definition mapped (sys : list Memory) (n : nat) (t : list (AddrRange * nat)) : Prop :=
  tree_ok t ∧ NoDup t.*2 ∧
  ∀ r m, (r, m) ∈ t ↔ (m < n)%nat ∧ ∃ x, sys !! m = Some x ∧ isInAddrMap x = true ∧ m_range x = r.

Lemma add_memory_ok sys n x p p' :
  layout sys → sys !! n = Some x → mapped sys n (addrMap p) → rangeCache p = None →
  add_memory p (n, x) = Ok p' → mapped sys (S n) (addrMap p') ∧ rangeCache p' = None.
Proof.
  intros Hl Hx (Ht & Hn & Hm) Hc E. unfold add_memory in E. cbn [fst snd] in E.
  assert (isInAddrMap x = false → mapped sys (S n) (addrMap p)) as Hskip.
  { intros Hin. split_and!; [done..|]. intros r m. rewrite Hm. split; intros [Hlt (y & Hy)]; (split; [|by exists y]).
    - lia.
    - destruct (decide (m = n)) as [->|]; [|lia]. destruct Hy as (Hy & Hy2 & _). congruence. }
  destruct (isInAddrMap x) eqn:Ein.
  - apply bind_ok in E as ([o t] & Ei & E). cbn [fst snd addrMap set_field] in *. destruct o as [i|]; [|done].
    injection E as <-. cbn. split; [|done]. pose proof (lay_range _ Hl n x Hx Ein) as Ok1.
    pose proof (lay_aligned _ Hl n x Hx Ein) as Al. pose proof (lay_size _ Hl n x Hx Ein) as Sz.
    destruct (insert_ok (addrMap p) (m_range x) n Ht) as (i' & t' & Ei' & Ht' & Hp).
    { split; [by split|done|]. intros [r m] Hin. apply Hm in Hin as (Hlt & y & Hy & Hyin & <-). cbn.
      apply (lay_apart _ Hl m n); [lia|done..]. }
    rewrite Ei' in Ei. injection Ei as -> ->. split_and!; [done| |].
    + rewrite Hp. cbn. constructor; [|done]. intros ([r m] & -> & Hin)%list_elem_of_fmap. apply Hm in Hin as [Hlt _]. cbn in Hlt. lia.
    + intros r m. rewrite Hp, elem_of_cons, Hm. split.
      * intros [[= -> ->]|[Hlt Hy]]; [split; [lia|by exists x]|split; [lia|done]].
      * intros [Hlt (y & Hy & Hyin & <-)]. destruct (decide (m = n)) as [->|]; [left; congruence|].
        right. split; [lia|by exists y].
  - destruct (interleaved (m_range x)); [done|]. destruct (isDRAMCache x); [injection E as <-; auto|].
    destruct (create_addrMap _ _ _ _ E) as [-> ->]. auto.
Qed.

Lemma imap_pair_lookup {A} (l : list A) i n x : imap pair l !! i = Some (n, x) → n = i ∧ l !! i = Some x.
Proof. rewrite list_lookup_imap. intros (y & Hy & [= <- <-])%fmap_Some. done. Qed.

Lemma add_memories_ok sys p p' n l :
  layout sys → drop n (imap pair sys) = l → mapped sys n (addrMap p) → rangeCache p = None →
  foldM add_memory p l = Ok p' → mapped sys (n + length l) (addrMap p') ∧ rangeCache p' = None.
Proof.
  intros Hl. revert n p. induction l as [|[m x] l IH]; intros n p Hd Hm Hc E.
  { injection E as <-. by rewrite Nat.add_0_r. }
  apply bind_ok in E as (p1 & E1 & E). assert (imap pair sys !! n = Some (m, x)) as Hx.
  { rewrite <-(Nat.add_0_r n), <-lookup_drop, Hd. done. }
  apply imap_pair_lookup in Hx as [-> Hx]. destruct (add_memory_ok sys n x p p1 Hl Hx Hm Hc E1) as [Hm1 Hc1].
  replace (n + length ((n, x) :: l))%nat with (S n + length l)%nat by (cbn; lia). apply (IH (S n) p1); [|done..].
  replace (S n) with (n + 1)%nat by lia. by rewrite <-drop_drop, Hd.
Qed.

Lemma new_physical_ok sys p :
  layout sys → new_physical sys = Ok p →
  mapped sys (length sys) (addrMap p) ∧ rangeCache p = None ∧
  ∀ m x, sys !! m = Some x → isInAddrMap x = true → isNull x = false → stored p (m_range x) m.
Proof.
  intros Hl E. apply bind_ok in E as (p1 & E1 & E).
  destruct (add_memories_ok sys (mkPhys [] None [] 0 [] ∅) p1 0 (imap pair sys)) as [Hm Hc]; [done|by rewrite drop_0| |done..|].
  { split_and!; cbn; [split; [set_solver|constructor]|constructor|]. intros r m. split; [set_solver|intros [? _]; lia]. }
  rewrite length_imap in Hm. pose proof Hm as (Ht & Hn & Hin).
  destruct (create_stores_ok _ _ _ _ _ _ E) as (_ & I2 & _ & I4 & I5); [done..|].
  rewrite I4, I5. split_and!; [done..|]. intros m x Hx Hxin Hnull. apply I2.
  - apply Hin. split; [by apply lookup_lt_Some in Hx|]. by exists x.
  - unfold null_of. by rewrite Hx.
Qed.

(** ** Routing *)

(** The cached entry is an entry of the map. *)
Definition routed (sys : list Memory) (p : PhysicalMemory) : Prop :=
  layout sys ∧ mapped sys (length sys) (addrMap p).

Lemma mapped_owner sys t m a :
  mapped sys (length sys) t → owns sys m a ↔ ∃ i x, t !! i = Some x ∧ x.2 = m ∧ contains x.1 a = true.
Proof.
  intros (_ & _ & Hin). split.
  - intros (x & Hx & Hxin & Hc). assert ((m_range x, m) ∈ t) as [i Hi]%list_elem_of_lookup_1.
    { apply Hin. split; [by apply lookup_lt_Some in Hx|]. by exists x. }
    by exists i, (m_range x, m).
  - intros (i & [r m'] & Hi & <- & Hc). apply list_elem_of_lookup_2, Hin in Hi as (_ & x & Hx & Hxin & <-). by exists x.
Qed.

(** What the cache or the map says about an address. *)
Lemma lookup_cases sys p a :
  routed sys p → 0 ≤ a < 2 ^ 64 →
  (∃ m, owns sys m a ∧ (∀ m', owns sys m' a → m' = m) ∧ access_target a p = Ok m ∧
     ∃ p', isMemAddr a p = Ok (true, p') ∧ routed sys p' ∧ backingStore p' = backingStore p ∧ pmemAddr p' = pmemAddr p) ∨
  ((∀ m, ¬ owns sys m a) ∧ access_target a p = Fault (AssertFail "m != addrMap.end()") ∧ isMemAddr a p = Ok (false, p)).
Proof.
  intros [Hl Hm] Ha. pose proof Hm as (Ht & _ & _).
  assert (∀ i x, addrMap p !! i = Some x → contains x.1 a = true → owns sys x.2 a ∧ ∀ m', owns sys m' a → m' = x.2) as Hown.
  { intros i x Hi Hc. split; [apply (mapped_owner sys _ _ _ Hm); eauto|].
    intros m' (j & y & Hj & <- & Hy)%(mapped_owner sys _ _ _ Hm).
    assert (j = i) as -> by (by apply (tree_unique (addrMap p) a j i y x); try done; lia). congruence. }
  unfold access_target, isMemAddr. destruct (cached a p) as [m|] eqn:Ec.
  - left. unfold cached in Ec. destruct (rangeCache p) as [i|]; [|done]. destruct (addrMap p !! i) as [x|] eqn:Hi; [|done].
    destruct (contains x.1 a) eqn:Hc; [|done]. injection Ec as <-. destruct (Hown i x Hi Hc) as [H1 H2].
    exists x.2. split_and!; [done..|]. exists p. by split_and!.
  - destruct (find_addr_ok (addrMap p) a Ht Ha) as (o & -> & Ho). cbn [mbind res_bind].
    destruct o as [i|]; cbn [mbind option_bind].
    + destruct Ho as (x & Hi & Hc & _). rewrite Hi. left. destruct (Hown i x Hi Hc) as [H1 H2]. exists x.2.
      split_and!; [done..|]. eexists. by split_and!.
    + right. split_and!; [|done..]. intros m (j & y & Hj & <- & Hy)%(mapped_owner sys _ _ _ Hm).
      rewrite Ho in Hy; [done|by eapply list_elem_of_lookup_2].
Qed.

Definition query (p : PhysicalMemory) (a : Addr) : res PhysicalMemory := r ← isMemAddr a p; Ok r.2.

Lemma queries_ok sys p qs :
  routed sys p → Forall (λ q, 0 ≤ q < 2 ^ 64) qs →
  ∃ p', foldM query p qs = Ok p' ∧ routed sys p' ∧ backingStore p' = backingStore p ∧ pmemAddr p' = pmemAddr p.
Proof.
  intros Hr Hq. revert p Hr. induction Hq as [|q qs Hq _ IH]; intros p Hr; [by exists p|]. cbn [foldM].
  assert (∃ p1, query p q = Ok p1 ∧ routed sys p1 ∧ backingStore p1 = backingStore p ∧ pmemAddr p1 = pmemAddr p)
    as (p1 & E1 & Hr1 & B1 & A1).
  { unfold query. destruct (lookup_cases sys p q Hr Hq) as [(m & _ & _ & _ & p' & -> & Hp')|(_ & _ & ->)]; by eexists. }
  rewrite E1. cbn [mbind res_bind]. destruct (IH p1 Hr1) as (p' & -> & Hr' & B' & A'). exists p'. split_and!; congruence.
Qed.

End phys.

Lemma close_covers ranges l a :
  (if decide (ranges = []) then Ok [] else merged ← merge_ranges ranges; Ok [merged]) = Ok l →
  (∀ r, r ∈ ranges → range_ok r) → 0 ≤ a → covers l a ↔ covers ranges a.
Proof.
  intros E Hok Ha. case_decide as E0; [by simplify_eq|]. apply bind_ok in E as (m & Em & E). injection E as <-.
  rewrite covers_cons, covers_nil, (merge_covers ranges m a) by done. unfold covers. tauto.
Qed.

(** The addresses of the reported ranges are those of the waiting ranges and of
    the memories of the map that are reported. *)
Lemma conf_ranges_ok conf t ranges l a :
  conf_ranges conf t ranges = Ok l → (∀ x, x ∈ t → range_ok x.1) → (∀ r, r ∈ ranges → range_ok r) → 0 ≤ a →
  covers l a ↔ covers ranges a ∨ ∃ x, x ∈ t ∧ conf x.2 = true ∧ contains x.1 a = true.
Proof.
  intros E Ht Hr Ha. revert ranges l E Hr. induction t as [|[r m] t IH]; intros ranges l E Hr; cbn [conf_ranges] in E.
  { rewrite (close_covers ranges l a E Hr Ha). set_solver. }
  specialize (IH ltac:(intros; apply Ht; by right)). assert (range_ok r) as Hok by (apply (Ht (r, m)); left).
  assert ((∃ x, x ∈ (r, m) :: t ∧ conf x.2 = true ∧ contains x.1 a = true) ↔
    (conf m = true ∧ contains r a = true) ∨ ∃ x, x ∈ t ∧ conf x.2 = true ∧ contains x.1 a = true) as -> by set_solver.
  destruct (conf m); cbn [negb] in E; [|rewrite (IH _ _ E Hr); clear; intuition congruence].
  destruct (interleaved r).
  - destruct (match last ranges with Some b => _ | None => _ end).
    + apply bind_ok in E as (l1 & E1 & E). apply bind_ok in E as (l2 & E2 & E). injection E as <-.
      rewrite covers_app, (close_covers _ _ a E1 Hr Ha), (IH [r] l2 E2), covers_cons, covers_nil by set_solver. clear. tauto.
    + rewrite (IH _ _ E), covers_app, covers_cons, covers_nil by (clear -Hr Hok; set_solver). clear. tauto.
  - apply bind_ok in E as (l1 & E1 & E). injection E as <-. rewrite covers_cons, (IH _ _ E1 Hr). clear. tauto.
Qed.

(** [pmemAddr + addr - range.start()]: the store and the offset of an address. *)
Definition host (sys : list Memory) (p : PhysicalMemory) (m : nat) (a : Addr) : option (nat * Z) :=
  k ← pmemAddr p !! m; x ← sys !! m; Some (k, a - start (m_range x)).

Lemma host_stored sys p m x a :
  sys !! m = Some x → stored p (m_range x) m → contains (m_range x) a = true →
  ∃ k rng, host sys p m a = Some (k, a - start rng) ∧ backingStore p !! k = Some rng ∧
    start rng ≤ a ≤ stop rng.
Proof.
  intros Hx (k & rng & Hk & Hrng & _ & Es & Et) Hc. exists k, rng. unfold host. rewrite Hk. cbn. rewrite Hx. cbn.
  apply contains_in in Hc. rewrite Es, Et. split_and!; [done|done|lia..].
Qed.

(** C12: take a system whose address-mapped memories have well-formed ranges that are
    disjoint or channels of one chunk, with every interleaved chunk starting at an
    address of its first channel and no interleaved range of size one ([layout]).  Once
    the physical memory is constructed and whatever addresses were asked for in between (which
    changes the cached entry), every address is handed to the one memory that owns
    it, and to none if there is none; an address of a memory that is not null lies
    inside its backing store, which interleaved channels share, and different
    addresses have different places; and the ranges reported to the configuration
    tables cover exactly the addresses of the memories that are reported. *)
Theorem physical_memory_ok mmap sys p qs :
  layout sys → new_physical mmap sys = Ok p → Forall (λ q, 0 ≤ q < 2 ^ 64) qs →
  ∃ p', foldM query p qs = Ok p' ∧
    (∀ a, 0 ≤ a < 2 ^ 64 →
       (∀ m, owns sys m a → access_target a p' = Ok m ∧ fst <$> isMemAddr a p' = Ok true) ∧
       ((∀ m, ¬ owns sys m a) →
          access_target a p' = Fault (AssertFail "m != addrMap.end()") ∧ fst <$> isMemAddr a p' = Ok false)) ∧
    (∀ m a, owns sys m a → null_of sys m = false →
       ∃ k rng, host sys p' m a = Some (k, a - start rng) ∧ backingStore p' !! k = Some rng ∧
         start rng ≤ a ≤ stop rng) ∧
    (∀ m1 m2 a1 a2, owns sys m1 a1 → owns sys m2 a2 → null_of sys m1 = false → null_of sys m2 = false →
       host sys p' m1 a1 = host sys p' m2 a2 → a1 = a2) ∧
    (∀ l a, conf_ranges (conf_of sys) (addrMap p') [] = Ok l → 0 ≤ a →
       covers l a ↔ ∃ m, owns sys m a ∧ conf_of sys m = true).
Proof.
  intros Hl E Hqs. destruct (new_physical_ok mmap sys p Hl E) as (Hm & _ & Hst).
  destruct (queries_ok sys p qs (conj Hl Hm) Hqs) as (p' & E' & Hr & B & A). exists p'. split; [done|].
  assert (∀ m a, owns sys m a → null_of sys m = false → ∃ k rng, host sys p' m a = Some (k, a - start rng) ∧
    backingStore p' !! k = Some rng ∧ start rng ≤ a ≤ stop rng) as Hhost.
  { intros m a (x & Hx & Hin & Hc) Hnull. apply (host_stored _ _ _ x); [done| |done].
    unfold null_of in Hnull. rewrite Hx in Hnull. destruct (Hst m x Hx Hin Hnull) as (k & rng & ?).
    exists k, rng. by rewrite A, B. }
  split_and!; [|done|..].
  - intros a Ha. destruct (lookup_cases sys p' a Hr Ha) as [(m & Hm' & Hu & -> & p1 & -> & _)|(Hno & -> & ->)].
    + split; [intros m' Ho; by rewrite (Hu m' Ho)|intros Hno; by destruct (Hno m)].
    + split; [intros m Ho; by destruct (Hno m)|done].
  - intros m1 m2 a1 a2 H1 H2 N1 N2 Eq. destruct (Hhost m1 a1 H1 N1) as (k1 & r1 & E1 & K1 & _).
    destruct (Hhost m2 a2 H2 N2) as (k2 & r2 & E2 & K2 & _). rewrite E1, E2 in Eq. injection Eq as -> Eo.
    assert (r1 = r2) as -> by congruence. lia.
  - intros l a El Ha. destruct Hr as [_ Hmap]. assert (∀ x, x ∈ addrMap p' → range_ok x.1) as Hok.
    { intros [r m] (_ & x & Hx & Hin & <-)%(proj2 (proj2 Hmap)). by apply (lay_range sys Hl m x). }
    rewrite (conf_ranges_ok _ _ _ _ a El Hok), covers_nil by (done || set_solver).
    setoid_rewrite (mapped_owner sys _ _ a Hmap). split.
    + intros [[]|(x & [i Hi]%list_elem_of_lookup_1 & Hc & Hx)]. exists x.2. split; [by exists i, x|done].
    + intros (m & (i & x & Hi & <- & Hx) & Hc). right. exists x. split; [by eapply list_elem_of_lookup_2|done].
Qed.

(** Two hashed channels and a DRAM cache outside the address map, which gets no
    backing store. *)
Definition ex_system : list Memory :=
  [mkMemory (mkAddrRange 0 (2 ^ 31 - 1) 7 12 1 0) true false false true;
   mkMemory (plain_range 0 (2 ^ 27 - 1)) false false true false;
   mkMemory (mkAddrRange 0 (2 ^ 31 - 1) 7 12 1 1) true false false true].

Lemma ex_layout : layout ex_system.
Proof.
  split.
  1-3: intros m x Hx Hin; destruct m as [|[|[|?]]]; cbn in Hx; simplify_eq; try done;
    first [split; cbn; lia|intros; by vm_compute].
  intros m n x y Hne Hx Hy Hix Hiy. destruct m as [|[|[|?]]], n as [|[|[|?]]]; cbn in Hx, Hy; simplify_eq; try done;
    unfold apart; cbn; solve [left; right; split; [by vm_compute|lia]|right; right; split; [by vm_compute|lia]].
Qed.

Lemma physical_memory_ok_witness :
  (p ← new_physical (λ _, true) ex_system; p ← query p 0x1080; Ok (pmemAddr p !! 1%nat, backingStore p)) =
    Ok (None, [plain_range 0 (2 ^ 31 - 1)]) ∧
  (p ← new_physical (λ _, true) ex_system; p ← query p 0x1080; access_target 0x80 p) = Ok 2%nat.
Proof.
  split; [by vm_compute|].
  destruct (new_physical (λ _, true) ex_system) as [p|] eqn:E; [|by vm_compute in E]. cbn [mbind res_bind].
  destruct (physical_memory_ok (λ _, true) ex_system p [0x1080] ex_layout E) as (p' & Eq & Hroute & _);
    [repeat constructor; lia|]. cbn [foldM] in Eq. apply bind_ok in Eq as (p1 & -> & Eq). injection Eq as ->.
  cbn [mbind res_bind]. apply (Hroute 0x80); [lia|]. eexists. split; [by vm_compute|]. by split; vm_compute.
Defined.
End PhysicalMem.
