(* ===== verification/SimpleMem.v ===== *)
(** * The simple memory (mem/simple_mem.hh, simple_mem.cc)

    A memory with a latency and a bandwidth: it accepts a request unless it is
    busy with the one before, performs it at once on the backing store, and sends
    the responses in order.  The peer may make further requests while it takes
    a response. *)

From S2P Require Import Prelude Packet AbstractMem DramTypes.
Import MemCmd Packet AbstractMem.

Module SimpleMem.

Abbreviation deferred := (Tick * Packet)%type.

Record SimpleMemory := mkSimple
  { mem : Mem;                             (** the base class [AbstractMemory] *)
    packetQueue : list deferred;
    isBusy : bool;
    retryReq : bool;
    retryResp : bool;
    releaseEvent : event;
    dequeueEvent : event;
    pendingDelete : list Packet }.
#[export] Instance eta_SimpleMemory : Eta SimpleMemory := λ s,
  mkSimple (mem s) (packetQueue s) (isBusy s) (retryReq s) (retryResp s) (releaseEvent s)
    (dequeueEvent s) (pendingDelete s).

Definition new_simple : SimpleMemory := mkSimple new_mem [] false false false None None [].

(** [reschedule(event, when, true)]. *)
Definition reschedule_always (now when : Tick) (e : event) : res event :=
  assert (now <=? when) "when >= getCurTick()";; Ok (Some when).

(** [SimpleMemory::drain]: true if there is nothing to send. *)
Definition drain (s : SimpleMemory) : bool := bool_decide (packetQueue s = []).

(** [pkt->headerDelay = pkt->payloadDelay = 0]. *)
Definition settled (p : Packet) : Packet := p <| headerDelay := 0 |> <| payloadDelay := 0 |>.

Section simple.
Context `{R : MemRange}.
Variable latency : Tick.
(** The time a packet of this size takes: its product with the [double]
    [bandwidth], as a [Tick]. *)
Variable duration : Z → Tick.

(** [draw] is the random part, 0 if there is no [latency_var]. *)
Definition getLatency (draw : Tick) : Tick := latency + draw.

Definition recvAtomic (draw : Tick) (pkt : Packet) (s : SimpleMemory)
    : res (Tick * Packet * SimpleMemory) :=
  r ← access pkt (mem s);
  Ok (if memInhibit r.1 then 0 else getLatency draw, r.1, s <| mem := r.2 |>).

(** The memory is busy for the time of a read or a write. *)
Definition occupy (now : Tick) (pkt : Packet) (s : SimpleMemory) : res SimpleMemory :=
  if isRead (cmd pkt) || isWrite (cmd pkt) then
    let d := duration (size pkt) in
    if negb (d =? 0) then
      ev ← schedule now (now + d) (releaseEvent s);
      Ok (s <| releaseEvent := ev |> <| isBusy := true |>)
    else Ok s
  else Ok s.

(** A request: the two draws of [getLatency], of which the one in [recvAtomic] is
    not used, and the packet. *)
Definition recvTimingReq (now : Tick) (s : SimpleMemory) (rq : Tick * Tick * Packet)
    : res (bool * SimpleMemory) :=
  let '(d1, d2, pkt) := rq in
  let s := s <| pendingDelete := [] |> in
  if memInhibit pkt then Ok (true, s <| pendingDelete ::= λ l, l ++ [pkt] |>)
  else if retryReq s then Ok (false, s)
  else if isBusy s then Ok (false, s <| retryReq := true |>)
  else
    let pkt := settled pkt in
    s ← occupy now pkt s;
    let needs := needsResponse (cmd pkt) in
    r ← recvAtomic d1 pkt s;
    let '(_, pkt, s) := r in
    if needs then
      assert (isResponse (cmd pkt)) "pkt->isResponse()";;
      let t := now + getLatency d2 in
      let s := s <| packetQueue ::= λ l, l ++ [(t, pkt)] |> in
      if negb (retryResp s) && negb (scheduled (dequeueEvent s)) then
        ev ← schedule now t (dequeueEvent s);
        Ok (true, s <| dequeueEvent := ev |>)
      else Ok (true, s)
    else Ok (true, s <| pendingDelete ::= λ l, l ++ [pkt] |>).

(** Whether a retry is sent. *)
Definition release (s : SimpleMemory) : res (bool * SimpleMemory) :=
  assert (isBusy s) "isBusy";;
  let s := s <| isBusy := false |> in
  if retryReq s then Ok (true, s <| retryReq := false |>) else Ok (false, s).

(** The requests that the peer makes during a call, with what it is told. *)
Fixpoint requests (now : Tick) (s : SimpleMemory) (rqs : list (Tick * Tick * Packet))
    : res (list bool * SimpleMemory) :=
  match rqs with
  | [] => Ok ([], s)
  | rq :: rqs =>
      r ← recvTimingReq now s rq;
      r' ← requests now r.2 rqs;
      Ok (r.1 :: r'.1, r'.2)
  end.

(** [accepted] is the answer of the peer to [sendTimingResp], and [rqs] are its
    requests during the call.  The result is the packet offered, the answers to the
    requests, whether the drain is signalled as done, and the memory. *)
Definition dequeue (now : Tick) (draining accepted : bool) (rqs : list (Tick * Tick * Packet))
    (s : SimpleMemory) : res (deferred * list bool * bool * SimpleMemory) :=
  match packetQueue s with
  | [] => Fault (AssertFail "!packetQueue.empty()")
  | deferred_pkt :: _ =>
      r ← requests now s rqs;
      let s := r.2 <| retryResp := negb accepted |> in
      if negb (retryResp s) then
        let s := s <| packetQueue ::= tail |> in
        match packetQueue s with
        | f :: _ =>
            ev ← reschedule_always now (Z.max f.1 now) (dequeueEvent s);
            Ok (deferred_pkt, r.1, false, s <| dequeueEvent := ev |>)
        | [] => Ok (deferred_pkt, r.1, draining, s)
        end
      else Ok (deferred_pkt, r.1, false, s)
  end.

Definition recvRespRetry (now : Tick) (draining accepted : bool) (rqs : list (Tick * Tick * Packet))
    (s : SimpleMemory) : res (deferred * list bool * bool * SimpleMemory) :=
  assert (retryResp s) "retryResp";;
  dequeue now draining accepted rqs s.

(** ** Runs

    Requests arrive, time passes up to the next event, the events happen and the
    peer asks for a response again.  The run records the requests that were taken
    and the responses that were accepted, with their ticks. *)
Inductive sop : Type :=
| Request (rq : Tick * Tick * Packet)
| Advance (t : Tick)
| Release
| Dequeue (accepted : bool) (rqs : list (Tick * Tick * Packet))
| RespRetry (accepted : bool) (rqs : list (Tick * Tick * Packet)).

Record srun := mkRun
  { r_now : Tick; r_mem : SimpleMemory; r_taken : list (Tick * Packet);
    r_sent : list (Tick * deferred) }.

(** The requests that were taken: not refused, and not left to a snooper. *)
Fixpoint taken (rqs : list (Tick * Tick * Packet)) (bs : list bool) : list Packet :=
  match rqs, bs with
  | rq :: rqs, b :: bs =>
      (if b && negb (memInhibit rq.2) then [settled rq.2] else []) ++ taken rqs bs
  | _, _ => []
  end.

Definition offered (c : srun) (accepted : bool) (rqs : list (Tick * Tick * Packet))
    (o : deferred * list bool * bool * SimpleMemory) : srun :=
  let '(d, bs, _, s) := o in
  mkRun (r_now c) s (r_taken c ++ (pair (r_now c) <$> taken rqs bs))
    (if accepted then r_sent c ++ [(r_now c, d)] else r_sent c).

Definition sm_step (dr : bool) (c : srun) (op : sop) : res srun :=
  match op with
  | Request rq =>
      r ← requests (r_now c) (r_mem c) [rq];
      Ok (mkRun (r_now c) r.2 (r_taken c ++ (pair (r_now c) <$> taken [rq] r.1)) (r_sent c))
  | Advance t => Ok (mkRun t (r_mem c) (r_taken c) (r_sent c))
  | Release =>
      r ← release ((r_mem c) <| releaseEvent := None |>);
      Ok (mkRun (r_now c) r.2 (r_taken c) (r_sent c))
  | Dequeue a rqs => offered c a rqs <$> dequeue (r_now c) dr a rqs ((r_mem c) <| dequeueEvent := None |>)
  | RespRetry a rqs => offered c a rqs <$> recvRespRetry (r_now c) dr a rqs (r_mem c)
  end.

(** A peer that refuses a response makes no request in that call. *)
Definition sm_guard (c : srun) (op : sop) : bool :=
  match op with
  | Request _ => true
  | Advance t =>
      (r_now c <=? t) && (default t (releaseEvent (r_mem c)) >=? t) &&
      (default t (dequeueEvent (r_mem c)) >=? t)
  | Release => bool_decide (releaseEvent (r_mem c) = Some (r_now c))
  | Dequeue a rqs => bool_decide (dequeueEvent (r_mem c) = Some (r_now c)) && (a || bool_decide (rqs = []))
  | RespRetry a rqs => retryResp (r_mem c) && (a || bool_decide (rqs = []))
  end.
Definition sm_gstep (dr : bool) (c : srun) (op : sop) : res srun :=
  if sm_guard c op then sm_step dr c op else Ok c.

(** ** Correctness *)

(** A busy memory has its release event ahead, and only a busy one owes a retry;
    while a response waits, the peer owes a retry or the event that sends it is
    scheduled at the earliest tick possible. *)
Definition busy_ok (now : Tick) (s : SimpleMemory) : Prop :=
  if isBusy s then ∃ w, releaseEvent s = Some w ∧ now ≤ w
  else releaseEvent s = None ∧ retryReq s = false.
Definition queue_ready (now : Tick) (s : SimpleMemory) : Prop :=
  match packetQueue s with
  | [] => dequeueEvent s = None ∧ retryResp s = false
  | f :: _ => if retryResp s then dequeueEvent s = None ∧ f.1 ≤ now
              else dequeueEvent s = Some (Z.max f.1 now)
  end.

(** The payload of a packet. *)
Definition payload (p : Packet) : list cell := match getPtr p with Ok bs => bs | Fault _ => [] end.

Definition rq_ok (rq : Tick * Tick * Packet) : Prop :=
  0 ≤ rq.1.1 ∧ 0 ≤ rq.1.2 ∧ (memInhibit rq.2 = true ∨ served_pkt rq.2 (payload rq.2)).
Definition op_ok (op : sop) : Prop :=
  match op with
  | Request rq => rq_ok rq
  | Dequeue _ rqs | RespRetry _ rqs => Forall rq_ok rqs
  | _ => True
  end.

(** Successive requests are as far apart as the earlier one takes. *)
Definition spaced (tk : list (Tick * Packet)) : Prop :=
  ∀ i x y, tk !! i = Some x → tk !! S i = Some y → x.1 + duration (size x.2) ≤ y.1.

(** The requests taken so far and their responses, sent or waiting. *)
Record ledger (now : Tick) (s : SimpleMemory) (tk : list (Tick * Packet)) (out : list deferred) : Prop :=
  { l_run : mem_run new_mem tk.*2 = Ok (mem s, out.*2);
    l_served : Forall (λ x, served_pkt x.2 (payload x.2)) tk;
    l_late : Forall2 (λ x d : Tick * Packet, x.1 + latency ≤ d.1) tk out;
    l_spaced : spaced tk;
    l_free : ∀ x, last tk = Some x → x.1 + duration (size x.2) ≤ default now (releaseEvent s);
    l_locks : locks_ok (mem s) }.

Hypothesis latency_pos : 0 ≤ latency.
Hypothesis duration_pos : ∀ n, 0 ≤ n → 0 ≤ duration n.

Lemma spaced_snoc tk x : spaced tk → (∀ y, last tk = Some y → y.1 + duration (size y.2) ≤ x.1) → spaced (tk ++ [x]).
Proof.
  intros Hs Hl i y z Hy Hz. apply lookup_app_Some in Hz as [Hz|[Hge Hz]].
  - rewrite lookup_app_l in Hy by (apply lookup_lt_Some in Hz; lia). by eapply Hs.
  - assert (S i = length tk) as Hi.
    { apply lookup_lt_Some in Hz. cbn in Hz. lia. }
    rewrite <-Hi, Nat.sub_diag in Hz. injection Hz as <-. apply Hl.
    rewrite last_lookup, <-Hi. cbn. rewrite lookup_app_l in Hy by lia. done.
Qed.

Lemma served_rw p bs : served_pkt p bs →
  isRead (cmd p) || isWrite (cmd p) = true ∧ needsResponse (cmd p) = true ∧ isResponse (responseCommand (cmd p)) = true.
Proof.
  intros H. pose proof (sp_cmd _ _ H) as Hc. rewrite !elem_of_cons in Hc.
  destruct Hc as [->|[->|[->|[->|Hc%elem_of_nil]]]]; done.
Qed.

Lemma occupy_ok now p bs s : served_pkt p bs → isBusy s = false → releaseEvent s = None → retryReq s = false →
  ∃ b ev, occupy now p s = Ok (s <| releaseEvent := ev |> <| isBusy := b |>) ∧
    busy_ok now (s <| releaseEvent := ev |> <| isBusy := b |>) ∧ now + duration (size p) ≤ default now ev.
Proof.
  intros Hp Hb He Hr. unfold occupy. destruct (served_rw p bs Hp) as (-> & _).
  pose proof (sp_size _ _ Hp). pose proof (duration_pos (size p) ltac:(lia)). destruct (Z.eqb_spec (duration (size p)) 0) as [E|E]; cbn [negb].
  - exists false, None. split_and!; [by destruct s; cbn in *; subst|by split|cbn; lia].
  - unfold schedule. rewrite !assert_bind by (rewrite ?He; done || lia).
    exists true, (Some (now + duration (size p))). split_and!; [done|eexists; split; [done|lia]|done].
Qed.

Lemma settled_served p : served_pkt p (payload p) → served_pkt (settled p) (payload (settled p)).
Proof. intros []. by split. Qed.

Lemma foldM_snoc {A B} (f : B → A → res B) b l x : foldM f b (l ++ [x]) = (b' ← foldM f b l; f b' x).
Proof.
  revert b. induction l as [|y l IH]; intros b; cbn; [by destruct (f b x)|]. destruct (f b y); cbn; [apply IH|done].
Qed.

Lemma mem_run_snoc m ps m1 out p p1 m2 :
  mem_run m ps = Ok (m1, out) → access p m1 = Ok (p1, m2) → mem_run m (ps ++ [p]) = Ok (m2, out ++ [p1]).
Proof.
  unfold mem_run. intros E Ep. rewrite foldM_snoc, E. cbn [foldM mbind res_bind fst snd].
  by rewrite Ep.
Qed.

(** Serving a request extends the ledger. *)
Lemma ledger_snoc now s tk out p p1 t s' :
  ledger now s tk out → served_pkt p (payload p) → access p (mem s) = Ok (p1, mem s') → locks_ok (mem s') →
  releaseEvent s = None → now + latency ≤ t → now + duration (size p) ≤ default now (releaseEvent s') →
  ledger now s' (tk ++ [(now, p)]) (out ++ [(t, p1)]).
Proof.
  intros [H1 H2 H3 H4 H5 H6] Hp Ha Hl He Ht Hd. split.
  - rewrite !fmap_app. by eapply mem_run_snoc.
  - apply Forall_app. split; [done|]. constructor; [done|constructor].
  - apply Forall2_app; [done|]. constructor; [done|constructor].
  - apply spaced_snoc; [done|]. intros y Hy. specialize (H5 y Hy). by rewrite He in H5.
  - intros x. rewrite last_snoc. by intros [= <-].
  - done.
Qed.

Lemma timing_request_ok now s rq tk out :
  rq_ok rq → busy_ok now s → ledger now s tk out →
  ∃ b s', recvTimingReq now s rq = Ok (b, s') ∧ busy_ok now s' ∧ retryResp s' = retryResp s ∧
    ((taken [rq] [b] = [] ∧ packetQueue s' = packetQueue s ∧ dequeueEvent s' = dequeueEvent s ∧ ledger now s' tk out) ∨
     ∃ p t p1, taken [rq] [b] = [p] ∧ packetQueue s' = packetQueue s ++ [(t, p1)] ∧ now ≤ t ∧
       ledger now s' (tk ++ [(now, p)]) (out ++ [(t, p1)]) ∧
       dequeueEvent s' = if negb (retryResp s) && negb (scheduled (dequeueEvent s)) then Some t else dequeueEvent s).
Proof.
  destruct rq as [[d1 d2] pkt]. intros (_ & Hd2 & Hpkt) Hb HL. unfold recvTimingReq, taken.
  set (s0 := s <| pendingDelete := [] |>).
  assert (busy_ok now s0 ∧ ledger now s0 tk out) as [Hb0 HL0] by (split; [exact Hb|by destruct HL; split]).
  change (packetQueue s) with (packetQueue s0). change (dequeueEvent s) with (dequeueEvent s0).
  change (retryResp s) with (retryResp s0). clearbody s0. clear s Hb HL. cbn [fst snd] in *.
  destruct (memInhibit pkt) eqn:Ei.
  { eexists true, _. split; [reflexivity|]. split_and!; [done..|]. left. split_and!; [done..|]. by destruct HL0; split. }
  destruct Hpkt as [|Hp]; [done|]. apply settled_served in Hp.
  unfold busy_ok in Hb0. destruct (retryReq s0) eqn:Er.
  { destruct (isBusy s0) eqn:Eb; [|by destruct Hb0]. exists false, s0. unfold busy_ok. rewrite Eb. split_and!; auto. }
  destruct (isBusy s0) eqn:Eb.
  { eexists false, _. split; [reflexivity|]. unfold busy_ok. cbn. rewrite Eb. split_and!; [done..|]. left.
    split_and!; [done..|]. by destruct HL0; split. }
  destruct Hb0 as [He _]. destruct (occupy_ok now (settled pkt) _ s0 Hp) as (b & ev & E & Hb' & Hev); [done..|].
  cbv zeta. rewrite E. cbn [mbind res_bind]. clear E. set (s1 := s0 <| releaseEvent := ev |> <| isBusy := b |>) in *.
  destruct (access_ok _ _ (mem s0) Hp (l_locks _ _ _ _ HL0)) as (p1 & m1 & bs1 & Ea & Hm1 & _ & _ & Ec).
  destruct (served_rw _ _ Hp) as (_ & -> & Hresp). unfold recvAtomic.
  change (mem s1) with (mem s0). rewrite Ea. cbn [mbind res_bind fst snd]. rewrite assert_bind by (by rewrite Ec).
  set (t := now + getLatency d2). set (s2 := s1 <| mem := m1 |> <| packetQueue ::= _ |>).
  assert (now ≤ t ∧ now + latency ≤ t) as [Ht1 Ht2] by (unfold t, getLatency; lia).
  assert (∀ ev', ledger now (s2 <| dequeueEvent := ev' |>) (tk ++ [(now, settled pkt)]) (out ++ [(t, p1)])) as HL'.
  { intros ev'. by apply (ledger_snoc now s0). }
  change (retryResp s2) with (retryResp s0). change (dequeueEvent s2) with (dequeueEvent s0).
  destruct (negb (retryResp s0) && negb (scheduled (dequeueEvent s0))) eqn:Eq.
  - apply andb_true_iff in Eq as [_ Eq]. unfold schedule. rewrite !assert_bind by (done || lia). cbn [mbind res_bind].
    exists true, (s2 <| dequeueEvent := Some t |>). split_and!; [done..|]. right. exists (settled pkt), t, p1. by split_and!.
  - exists true, s2. split_and!; [done..|]. right. exists (settled pkt), t, p1. split_and!; [done..| |done].
    apply (HL' (dequeueEvent s0)).
Qed.

(** A list of requests: the first response arms the event if it is not armed and no
    retry is awaited. *)
Lemma requests_ok now rqs s tk out :
  Forall rq_ok rqs → busy_ok now s → ledger now s tk out →
  ∃ bs s' new, requests now s rqs = Ok (bs, s') ∧ busy_ok now s' ∧ retryResp s' = retryResp s ∧
    packetQueue s' = packetQueue s ++ new ∧ Forall (λ d, now ≤ d.1) new ∧
    ledger now s' (tk ++ (pair now <$> taken rqs bs)) (out ++ new) ∧
    dequeueEvent s' = if retryResp s then dequeueEvent s else dequeueEvent s <|> (fst <$> head new).
Proof.
  intros Hr. revert s tk out. induction Hr as [|rq rqs Hrq _ IH]; intros s tk out Hb HL.
  { exists [], s, []. rewrite !app_nil_r. split_and!; [done..|]. by destruct (retryResp s), (dequeueEvent s). }
  destruct (timing_request_ok now s rq tk out Hrq Hb HL) as (b & s1 & E1 & Hb1 & Er1 & Hcase). cbn [requests]. rewrite E1. cbn [mbind res_bind fst snd].
  assert (∀ bs, taken (rq :: rqs) (b :: bs) = taken [rq] [b] ++ taken rqs bs) as Htk by (intros bs; cbn; by rewrite app_nil_r).
  destruct Hcase as [(E & Eq & Ee & HL1)|(p & t & p1 & E & Eq & Ht & HL1 & Ee)];
    destruct (IH s1 _ _ Hb1 HL1) as (bs & s2 & new & -> & Hb2 & Er2 & Eq2 & Hn & HL2 & Ee2); cbn [mbind res_bind fst snd];
    (eexists _, s2, _; split; [reflexivity|]); rewrite Htk, E; (split; [done|]); (split; [congruence|]).
  - split; [by rewrite Eq2, Eq|]. split_and!; [done..|]. by rewrite Ee2, Er1, Ee.
  - split; [by rewrite Eq2, Eq, <-app_assoc|]. split; [by constructor|]. split; [by rewrite <-!app_assoc in HL2|].
    rewrite Ee2, Er1, Ee. by destruct (retryResp s), (dequeueEvent s).
Qed.

Lemma ledger_frame now s s' tk out :
  ledger now s tk out → mem s' = mem s → releaseEvent s' = releaseEvent s → ledger now s' tk out.
Proof. intros [] E1 E2. split; rewrite ?E1, ?E2; done. Qed.

(** The head of the queue is offered. *)
Lemma dequeue_ok now dr (a : bool) rqs s f l tk snt :
  packetQueue s = f :: l → f.1 ≤ now → dequeueEvent s = None → Forall rq_ok rqs → (a = true ∨ rqs = []) →
  busy_ok now s → ledger now s tk (snt ++ f :: l) →
  ∃ bs d s', dequeue now dr a rqs s = Ok (f, bs, d, s') ∧ busy_ok now s' ∧ queue_ready now s' ∧
    ledger now s' (tk ++ (pair now <$> taken rqs bs)) (snt ++ (if a then [f] else []) ++ packetQueue s').
Proof.
  intros Eq Hf He Hr Ha Hb HL. unfold dequeue. rewrite Eq.
  destruct (requests_ok now rqs s tk _ Hr Hb HL) as (bs & s1 & new & E & Hb1 & Er1 & Eq1 & Hn & HL1 & Ee1).
  pose proof E as E0. rewrite E. cbn [mbind res_bind fst snd]. cbv zeta. destruct a.
  - change (negb (retryResp _)) with true. cbn iota. set (s2 := s1 <| retryResp := negb true |> <| packetQueue ::= tail |>).
    assert (packetQueue s2 = l ++ new) as Eq2 by (cbn; by rewrite Eq1, Eq).
    rewrite <-app_assoc in HL1. cbn [app] in HL1. rewrite <-Eq2 in HL1. destruct (packetQueue s2) as [|g l'] eqn:Eg.
    + exists bs, dr, s2. split_and!; [done|done| |rewrite Eg; by eapply ledger_frame].
      unfold queue_ready. rewrite Eg. split; [|done]. symmetry in Eq2. apply app_nil in Eq2 as [_ ->]. cbn. rewrite Ee1, He. by destruct (retryResp s).
    + unfold reschedule_always. rewrite assert_bind by lia. cbn [mbind res_bind].
      eexists bs, false, _. split; [reflexivity|]. split_and!; [done| |].
      * unfold queue_ready. cbn. cbn in Eg. by rewrite Eg.
      * cbn. cbn in Eg. rewrite Eg. by eapply ledger_frame.
  - change (negb (retryResp _)) with false. cbn iota. destruct Ha as [|Ha]; [done|]. subst rqs. cbn in E0. simplify_eq.
    eexists _, false, _. split; [reflexivity|]. split_and!; [done| |].
    + unfold queue_ready. cbn. by rewrite Eq.
    + cbn. rewrite Eq, app_nil_r. by eapply ledger_frame.
Qed.

(** The invariant of runs. *)
Record sm_inv (c : srun) : Prop :=
  { i_busy : busy_ok (r_now c) (r_mem c);
    i_queue : queue_ready (r_now c) (r_mem c);
    i_ledger : ledger (r_now c) (r_mem c) (r_taken c) ((r_sent c).*2 ++ packetQueue (r_mem c));
    i_sent : Forall (λ e : Tick * deferred, e.2.1 ≤ e.1) (r_sent c) }.

Lemma offered_ok c dr (a : bool) rqs s f l :
  sm_inv c → packetQueue s = f :: l → f.1 ≤ r_now c → dequeueEvent s = None → Forall rq_ok rqs → (a = true ∨ rqs = []) →
  packetQueue s = packetQueue (r_mem c) → mem s = mem (r_mem c) → busy_ok (r_now c) s → releaseEvent s = releaseEvent (r_mem c) →
  ∃ c', offered c a rqs <$> dequeue (r_now c) dr a rqs s = Ok c' ∧ sm_inv c'.
Proof.
  intros [_ _ HL Hs] Eq Hf He Hr Ha Eq' Em Hb Ere. rewrite <-Eq', Eq in HL.
  destruct (dequeue_ok (r_now c) dr a rqs s f l (r_taken c) (r_sent c).*2) as (bs & d & s' & -> & Hb' & Hq' & HL'); try done.
  { by eapply ledger_frame. }
  eexists. split; [reflexivity|]. cbn. split; [done|done|cbn; destruct a; cbn|cbn; destruct a; cbn].
  - rewrite fmap_app, <-app_assoc. exact HL'.
  - exact HL'.
  - apply Forall_app. split; [done|]. by repeat constructor.
  - done.
Qed.

Lemma request_step dr c rq : sm_inv c → rq_ok rq → ∃ c', sm_step dr c (Request rq) = Ok c' ∧ sm_inv c'.
Proof.
  intros [Hb Hq HL Hs] Hr. unfold sm_step.
  destruct (requests_ok (r_now c) [rq] (r_mem c) _ _ ltac:(by constructor) Hb HL) as (bs & s' & new & -> & Hb' & Er & Eq & Hn & HL' & Ee).
  eexists. split; [reflexivity|]. split; [done| |cbn; rewrite Eq; by rewrite <-app_assoc in HL'|done]. cbn.
  unfold queue_ready in *. rewrite Eq, Er, Ee. destruct (packetQueue (r_mem c)) as [|f l]; cbn [app].
  - destruct Hq as [-> ->]. destruct new as [|g new]; [done|]. apply Forall_cons in Hn as [Hg _]. cbn. f_equal. lia.
  - destruct (retryResp (r_mem c)); [done|]. by rewrite Hq.
Qed.

Lemma advance_step dr c t : sm_inv c → sm_guard c (Advance t) = true → ∃ c', sm_step dr c (Advance t) = Ok c' ∧ sm_inv c'.
Proof.
  intros [Hb Hq [H1 H2 H3 H4 H5 H6] Hs] Hg. cbn in Hg. rewrite !andb_true_iff in Hg. destruct Hg as [[Hg1 Hg2] Hg3].
  eexists. split; [reflexivity|]. split; cbn; [| |split; try done|done].
  - unfold busy_ok in *. destruct (isBusy (r_mem c)); [|done]. destruct Hb as (w & Ew & Hw). rewrite Ew in Hg2. cbn in Hg2.
    exists w. split; [done|lia].
  - unfold queue_ready in *. destruct (packetQueue (r_mem c)) as [|f l]; [done|]. destruct (retryResp (r_mem c)).
    + destruct Hq. split; [done|lia].
    + rewrite Hq in Hg3 |- *. cbn in Hg3. f_equal. lia.
  - intros x Hx. specialize (H5 x Hx). destruct (releaseEvent (r_mem c)); cbn in *; lia.
Qed.

Lemma release_step dr c : sm_inv c → sm_guard c Release = true → ∃ c', sm_step dr c Release = Ok c' ∧ sm_inv c'.
Proof.
  intros [Hb Hq [H1 H2 H3 H4 H5 H6] Hs] Hg. cbn in Hg. apply bool_decide_eq_true in Hg. unfold sm_step, release.
  unfold busy_ok in Hb. destruct (isBusy (r_mem c)) eqn:Eb; [|destruct Hb; congruence].
  rewrite assert_bind by done. cbv zeta. rewrite Hg in H5.
  destruct (retryReq _) eqn:Er; (eexists; split; [reflexivity|]); by split.
Qed.

Lemma sm_gstep_ok dr c op : sm_inv c → op_ok op → ∃ c', sm_gstep dr c op = Ok c' ∧ sm_inv c'.
Proof.
  intros Hi Hop. unfold sm_gstep. destruct (sm_guard c op) eqn:Hg; [|by exists c].
  destruct op as [rq|t| |a rqs|a rqs]; [by apply request_step|by apply advance_step|by apply release_step|..];
    apply andb_true_iff in Hg as [Hg Ha]; apply orb_true_iff in Ha; rewrite bool_decide_eq_true in Ha.
  - apply bool_decide_eq_true in Hg. pose proof (i_queue _ Hi) as Hq. unfold queue_ready in Hq.
    destruct (packetQueue (r_mem c)) as [|f l] eqn:Eq; [destruct Hq; congruence|].
    destruct (retryResp (r_mem c)); [destruct Hq; congruence|]. assert (f.1 ≤ r_now c) by (rewrite Hg in Hq; injection Hq; lia).
    by apply (offered_ok c dr a rqs _ f l Hi); try done; apply Hi.
  - pose proof (i_queue _ Hi) as Hq. unfold queue_ready in Hq. rewrite Hg in Hq.
    destruct (packetQueue (r_mem c)) as [|f l] eqn:Eq; [by destruct Hq|]. destruct Hq as [He Hf].
    unfold sm_step, recvRespRetry. rewrite assert_bind by done. by apply (offered_ok c dr a rqs _ f l Hi); try done; apply Hi.
Qed.

Lemma sm_run_ok dr ops c : sm_inv c → Forall op_ok ops → ∃ c', foldM (sm_gstep dr) c ops = Ok c' ∧ sm_inv c'.
Proof.
  intros Hi Ho. revert c Hi. induction Ho as [|op ops Hop _ IH]; intros c Hi; [by exists c|]. cbn.
  destruct (sm_gstep_ok dr c op Hi Hop) as (c1 & -> & H1). by apply IH.
Qed.

(** C15: whatever requests arrive, also while a response is taken, however time
    passes and whichever responses the peer refuses, no assertion of the memory
    fails; the responses sent and waiting are, in the order the requests were
    taken, the answers of the abstract memory to them; none is sent before the
    latency is over; requests are taken no closer than the bandwidth allows; a
    waiting response is due at the earliest tick possible unless the peer owes a
    retry, and a retry is owed to a requester only while the memory is busy and the
    event that ends this is scheduled. *)
Theorem simple_memory_ok dr ops :
  Forall op_ok ops →
  ∃ c, foldM (sm_gstep dr) (mkRun 0 new_simple [] []) ops = Ok c ∧
    busy_ok (r_now c) (r_mem c) ∧ queue_ready (r_now c) (r_mem c) ∧ spaced (r_taken c) ∧
    Forall (λ e : Tick * deferred, e.2.1 ≤ e.1) (r_sent c) ∧
    let out := (r_sent c).*2 ++ packetQueue (r_mem c) in
    Forall2 (λ x d : Tick * Packet, x.1 + latency ≤ d.1) (r_taken c) out ∧
    let '(sp, answers) := spec_run (mkSpec ∅ ∅) ((λ x, (x.2, payload x.2)) <$> r_taken c) in
    abs_mem (mem (r_mem c)) = sp ∧ Forall2 answer out.*2 answers.
Proof.
  intros Ho. destruct (sm_run_ok dr ops (mkRun 0 new_simple [] [])) as (c & E & [Hb Hq [H1 H2 H3 H4 H5 H6] Hs]); [|done|].
  { split; cbn; [done|done| |constructor]. split; [done|constructor|constructor|by intros i x y|done|apply NoDup_nil_2]. }
  exists c. split_and!; [done..|].
  destruct (mem_run_ok ((λ x, (x.2, payload x.2)) <$> r_taken c) new_mem [] []) as (m' & out & Em & Hm);
    [apply NoDup_nil_2|constructor|by apply Forall_fmap|].
  rewrite <-list_fmap_compose in Em. change (fst ∘ _) with (@snd Tick Packet) in Em.
  unfold mem_run in H1. rewrite Em in H1. injection H1 as -> ->. cbv zeta. by split.
Qed.
End simple.

(** A write and a read of it; the read is refused while the memory is busy with the
    write, and its response is refused once. *)
Definition ex_run : list sop :=
  let w := (ex_mem_pkt WriteReq 64 0 7).1 in let r := (ex_mem_pkt ReadReq 64 0 0).1 in
  [Request (0, 0, w); Request (0, 0, r); Advance 8; Release; Request (0, 3, r);
   Advance 16; Release; Advance 30; Dequeue true []; Advance 41; Dequeue false []; RespRetry true []].

Lemma simple_memory_ok_witness :
  let R := mkRange 0 1023 in
  ∃ c, foldM (sm_gstep 30 (Z.mul 2) false) (mkRun 0 new_simple [] []) ex_run = Ok c ∧
    (λ e : Tick * deferred, (e.1, payload e.2.2)) <$> r_sent c =
      [(30, replicate 4 (Some 7)); (41, replicate 4 (Some 7))] ∧
    fst <$> r_taken c = [0; 8] ∧ spaced (Z.mul 2) (r_taken c).
Proof.
  intros R. destruct (simple_memory_ok 30 (Z.mul 2) ltac:(lia) ltac:(intros; lia) false ex_run) as (c & E & _ & _ & Hsp & _).
  - repeat constructor; cbn; try lia; right; apply ex_mem_pkt_served; (set_solver || lia).
  - exists c. split; [exact E|]. vm_compute in E. injection E as <-. split_and!; [done..|exact Hsp].
Defined.
End SimpleMem.
