(* ===== verification/Clock.v ===== *)
(** * Clocked objects (sim/clocked_object.hh)

    A clocked object caches the tick and the number of the next clock edge and
    brings them up to date when it is asked for an edge. *)

From S2P Require Import Prelude Intmath.
Import Intmath.

Module Clock.

Record Clock := mkClock { tick : Tick; cycle : Z }.
#[export] Instance eta_Clock : Eta Clock := λ c, mkClock (tick c) (cycle c).

Definition new_clock : Clock := mkClock 0 0.

Section clock.
Variable clockPeriod : Tick.

Definition update (now : Tick) (c : Clock) : Clock :=
  if now <=? tick c then c
  else
    let c := c <| tick ::= λ t, t + clockPeriod |> <| cycle ::= λ n, n + 1 |> in
    if now <=? tick c then c
    else
      let elapsedCycles := divCeil (now - tick c) clockPeriod in
      c <| cycle ::= λ n, n + elapsedCycles |> <| tick ::= λ t, t + elapsedCycles * clockPeriod |>.

Definition resetClock (now : Tick) : Clock :=
  let elapsedCycles := divCeil now clockPeriod in mkClock (elapsedCycles * clockPeriod) elapsedCycles.

Definition clockEdge (now : Tick) (cycles : Z) (c : Clock) : Tick * Clock :=
  let c := update now c in (tick c + clockPeriod * cycles, c).
Definition curCycle (now : Tick) (c : Clock) : Z * Clock :=
  let c := update now c in (cycle c, c).
Definition nextCycle (now : Tick) (c : Clock) : Tick * Clock := clockEdge now 1 c.

Definition ticksToCycles (t : Tick) : Z := divCeil t clockPeriod.
Definition cyclesToTicks (c : Z) : Tick := clockPeriod * c.

(** The cached edge is an edge, and was the next one when it was computed. *)
Definition clock_ok (now : Tick) (c : Clock) : Prop :=
  tick c = cycle c * clockPeriod ∧ tick c < now + clockPeriod.

Hypothesis period_pos : 0 < clockPeriod.

Lemma new_clock_ok now : 0 ≤ now → clock_ok now new_clock.
Proof. split; cbn; lia. Qed.
Lemma reset_ok now : clock_ok now (resetClock now).
Proof. pose proof (divCeil_spec now clockPeriod period_pos). split; cbn; nia. Qed.
Lemma clock_later now t c : clock_ok now c → now ≤ t → clock_ok t c.
Proof. intros [? ?] ?. split; [done|lia]. Qed.

(** An edge that is at least [now] and less than a period later is the next one. *)
Lemma edge_unique now n : now ≤ n * clockPeriod < now + clockPeriod → n = divCeil now clockPeriod.
Proof. intros H. pose proof (divCeil_spec now clockPeriod period_pos). nia. Qed.

Lemma update_ok now c : clock_ok now c →
  update now c = mkClock (divCeil now clockPeriod * clockPeriod) (divCeil now clockPeriod).
Proof.
  intros [Ht Hl]. assert (∀ n, now ≤ n * clockPeriod < now + clockPeriod →
    mkClock (n * clockPeriod) n = mkClock (divCeil now clockPeriod * clockPeriod) (divCeil now clockPeriod)) as Hn.
  { intros n H. by rewrite (edge_unique now n H). }
  unfold update. destruct c as [t n]. cbn in *. subst t. destruct (Z.leb_spec now (n * clockPeriod)); [apply Hn; lia|].
  destruct (Z.leb_spec now (n * clockPeriod + clockPeriod)).
  - rewrite <-(Hn (n + 1)) by lia. f_equal. lia.
  - pose proof (divCeil_spec (now - (n * clockPeriod + clockPeriod)) clockPeriod period_pos) as H1.
    set (e := divCeil (now - (n * clockPeriod + clockPeriod)) clockPeriod) in *. rewrite Z.mul_sub_distr_r in H1. rewrite <-(Hn (n + 1 + e)) by (rewrite !Z.mul_add_distr_r; lia). f_equal; ring.
Qed.

(** Whenever it is asked, and whatever was asked before, the next edge is the first
    multiple of the period that is not in the past. *)
Lemma clockEdge_ok now k c : clock_ok now c →
  ∃ c', clockEdge now k c = ((divCeil now clockPeriod + k) * clockPeriod, c') ∧ clock_ok now c'.
Proof.
  intros H. unfold clockEdge. rewrite (update_ok now c H). eexists. split; [cbn; f_equal; lia|].
  pose proof (divCeil_spec now clockPeriod period_pos). split; cbn; nia.
Qed.

Lemma edge_late now k : now + k * clockPeriod ≤ (divCeil now clockPeriod + k) * clockPeriod.
Proof. pose proof (divCeil_spec now clockPeriod period_pos). nia. Qed.
End clock.
End Clock.
