(* ===== verification/Bridge.v ===== *)
(** * The bridge (mem/bridge.hh, bridge.cc)

    A bridge takes requests on its slave port and forwards them, delayed, on its
    master port; responses go the other way.  It reserves space for the response
    when it takes a request, and owes its requester a retry after a refusal.  The
    peers may call the bridge again while they take a packet: a handler that sends
    works on a world that contains the bridge, and the peer is a function on that
    world. *)

From S2P Require Import Prelude Intmath Packet DramTypes Clock.
Import Intmath MemCmd Packet Clock.

Module Bridge.

Abbreviation deferred := (Tick * Packet)%type.

Record Bridge := mkBridge
  { clk : Clock;
    m_list : list deferred;                (** [masterPort.transmitList] *)
    m_event : event;                       (** [masterPort.sendEvent] *)
    s_list : list deferred;                (** [slavePort.transmitList] *)
    s_event : event;                       (** [slavePort.sendEvent] *)
    outstandingResponses : Z;
    retryReq : bool }.
#[export] Instance eta_Bridge : Eta Bridge := λ b,
  mkBridge (clk b) (m_list b) (m_event b) (s_list b) (s_event b) (outstandingResponses b) (retryReq b).

Definition new_bridge : Bridge := mkBridge new_clock [] None [] None 0 false.

(** [pkt->headerDelay = pkt->payloadDelay = 0]. *)
Definition no_delay (p : Packet) : Packet := p <| headerDelay := 0 |> <| payloadDelay := 0 |>.

#[local] Arguments no_delay : simpl never.

Definition expects_response (p : Packet) : bool := needsResponse (cmd p) && negb (memInhibit p).

(** The number of packets that expect a response. *)
Definition n_expect (l : list Packet) : Z := Z.of_nat (length (List.filter expects_response l)).

Section bridge.
Variables (clockPeriod : Tick) (delay reqQueueLimit respQueueLimit : Z).

Definition reqQueueFull (b : Bridge) : bool := Z.of_nat (length (m_list b)) =? reqQueueLimit.
Definition respQueueFull (b : Bridge) : bool := outstandingResponses b =? respQueueLimit.

(** [bridge.clockEdge(cycles)]. *)
Definition edge (now : Tick) (cycles : Z) (b : Bridge) : Tick * Bridge :=
  let r := clockEdge clockPeriod now cycles (clk b) in (r.1, b <| clk := r.2 |>).

Definition schedTimingReq (now : Tick) (pkt : Packet) (when : Tick) (b : Bridge) : res Bridge :=
  ev ← (if bool_decide (m_list b = []) then schedule now when (m_event b) else Ok (m_event b));
  assert (negb (Z.of_nat (length (m_list b)) =? reqQueueLimit)) "transmitList.size() != reqQueueLimit";;
  Ok (b <| m_event := ev |> <| m_list ::= λ l, l ++ [(when, pkt)] |>).

Definition schedTimingResp (now : Tick) (pkt : Packet) (when : Tick) (b : Bridge) : res Bridge :=
  ev ← (if bool_decide (s_list b = []) then schedule now when (s_event b) else Ok (s_event b));
  Ok (b <| s_event := ev |> <| s_list ::= λ l, l ++ [(when, pkt)] |>).

(** [BridgeMasterPort::recvTimingResp], which always accepts. *)
Definition recvTimingResp (now : Tick) (pkt : Packet) (b : Bridge) : res Bridge :=
  let e := edge now delay b in schedTimingResp now (no_delay pkt) e.1 e.2.

(** [BridgeSlavePort::recvTimingReq]: whether the request is taken. *)
Definition recvTimingReq (now : Tick) (pkt : Packet) (b : Bridge) : res (bool * Bridge) :=
  assert (negb (retryReq b)) "!retryReq";;
  b ← (if reqQueueFull b then Ok (b <| retryReq := true |>)
       else
         b ← (if expects_response pkt then
                if respQueueFull b then Ok (b <| retryReq := true |>)
                else
                  assert (negb (outstandingResponses b =? respQueueLimit)) "outstandingResponses != respQueueLimit";;
                  Ok (b <| outstandingResponses ::= λ n, u32 (n + 1) |>)
              else Ok b);
         if negb (retryReq b) then let e := edge now delay b in schedTimingReq now (no_delay pkt) e.1 e.2
         else Ok b);
  Ok (negb (retryReq b), b).

(** Whether a retry is sent. *)
Definition retryStalledReq (b : Bridge) : bool * Bridge :=
  if retryReq b then (true, b <| retryReq := false |>) else (false, b).

(** What the ports do when the packet was accepted, and whether a retry is sent,
    which they do last. *)
Definition req_sent (now : Tick) (b : Bridge) : res (bool * Bridge) :=
  let b := b <| m_list ::= tail |> in
  b ← match m_list b with
      | next_req :: _ =>
          let e := edge now 0 b in
          ev ← schedule now (Z.max next_req.1 e.1) (m_event e.2); Ok (e.2 <| m_event := ev |>)
      | [] => Ok b
      end;
  Ok (retryStalledReq b).

Definition resp_sent (now : Tick) (b : Bridge) : res (bool * Bridge) :=
  let b := b <| s_list ::= tail |> in
  assert (negb (outstandingResponses b =? 0)) "outstandingResponses != 0";;
  let b := b <| outstandingResponses ::= λ n, u32 (n - 1) |> in
  b ← match s_list b with
      | next_resp :: _ =>
          let e := edge now 0 b in
          ev ← schedule now (Z.max next_resp.1 e.1) (s_event e.2); Ok (e.2 <| s_event := ev |>)
      | [] => Ok b
      end;
  if negb (reqQueueFull b) && retryReq b then Ok (true, b <| retryReq := false |>) else Ok (false, b).

(** *** Sending

    [X] is the world with the bridge in it. *)
Section send.
Context {X : Type}.
Variables (bridge : X → Bridge) (put : Bridge → X → X).

(** [BridgeMasterPort::trySendTiming]. *)
Definition trySendReq (sendTimingReq : Packet → X → res (bool * X)) (now : Tick) (x : X) : res (bool * X) :=
  match m_list (bridge x) with
  | [] => Fault (AssertFail "!transmitList.empty()")
  | req :: _ =>
      assert (req.1 <=? now) "req.tick <= curTick()";;
      r ← sendTimingReq req.2 x;
      if r.1 : bool then rb ← req_sent now (bridge r.2); Ok (rb.1, put rb.2 r.2) else Ok (false, r.2)
  end.

(** [BridgeSlavePort::trySendTiming]. *)
Definition trySendResp (sendTimingResp : Packet → X → res (bool * X)) (now : Tick) (x : X) : res (bool * X) :=
  match s_list (bridge x) with
  | [] => Fault (AssertFail "!transmitList.empty()")
  | resp :: _ =>
      assert (resp.1 <=? now) "resp.tick <= curTick()";;
      r ← sendTimingResp resp.2 x;
      if r.1 : bool then rb ← resp_sent now (bridge r.2); Ok (rb.1, put rb.2 r.2) else Ok (false, r.2)
  end.
End send.

(** ** Runs

    The world of a run: the tick, the bridge, the requests taken and forwarded and
    the responses received and delivered, and whether each peer owes a retry. *)
Record brun := mkBRun
  { r_now : Tick; r_br : Bridge;
    taken : list (Tick * Packet); forwarded : list (Tick * deferred);
    received : list (Tick * Packet); delivered : list (Tick * deferred);
    m_wait : bool; s_wait : bool }.
#[export] Instance eta_brun : Eta brun := λ c,
  mkBRun (r_now c) (r_br c) (taken c) (forwarded c) (received c) (delivered c) (m_wait c) (s_wait c).
Definition put_bridge (b : Bridge) (c : brun) : brun := c <| r_br := b |>.

(** The calls of the peers.  A requester that was refused waits for its retry, and
    the memory answers requests it was sent. *)
Inductive bcall : Type := CallReq (pkt : Packet) | CallResp (pkt : Packet).

Definition may_call (c : brun) (k : bcall) : bool :=
  match k with
  | CallReq _ => negb (retryReq (r_br c))
  | CallResp _ =>
      Z.of_nat (length (received c)) <? n_expect (forwarded c).*2.*2
  end.
Definition do_call (c : brun) (k : bcall) : res brun :=
  if may_call c k then
    match k with
    | CallReq pkt =>
        r ← recvTimingReq (r_now c) pkt (r_br c);
        Ok (if r.1 : bool then c <| r_br := r.2 |> <| taken ::= λ l, l ++ [(r_now c, no_delay pkt)] |>
            else c <| r_br := r.2 |>)
    | CallResp pkt =>
        b ← recvTimingResp (r_now c) pkt (r_br c);
        Ok (c <| r_br := b |> <| received ::= λ l, l ++ [(r_now c, no_delay pkt)] |>)
    end
  else Ok c.

(** The peers: they make calls, and accept the packet or not. *)
Definition memory_side (accepted : bool) (ks : list bcall) (pkt : Packet) (c : brun) : res (bool * brun) :=
  let d := default (0, pkt) (head (m_list (r_br c))) in
  c ← foldM do_call c ks;
  Ok (accepted, if accepted then c <| forwarded ::= λ l, l ++ [(r_now c, (d.1, pkt))] |> <| m_wait := false |>
                else c <| m_wait := true |>).
Definition requester (accepted : bool) (ks : list bcall) (pkt : Packet) (c : brun) : res (bool * brun) :=
  let d := default (0, pkt) (head (s_list (r_br c))) in
  c ← foldM do_call c ks;
  Ok (accepted, if accepted then c <| delivered ::= λ l, l ++ [(r_now c, (d.1, pkt))] |> <| s_wait := false |>
                else c <| s_wait := true |>).

Inductive bop : Type :=
| Call (k : bcall)
| Advance (t : Tick)
| SendReq (accepted : bool) (ks : list bcall)       (** the send event of the master port *)
| SendResp (accepted : bool) (ks : list bcall)
| ReqRetry (accepted : bool) (ks : list bcall)      (** [recvReqRetry] *)
| RespRetry (accepted : bool) (ks : list bcall).

Definition b_guard (c : brun) (op : bop) : bool :=
  match op with
  | Call _ => true
  | Advance t =>
      (r_now c <=? t) && (t <=? default t (m_event (r_br c))) && (t <=? default t (s_event (r_br c)))
  | SendReq _ _ => bool_decide (m_event (r_br c) = Some (r_now c))
  | SendResp _ _ => bool_decide (s_event (r_br c) = Some (r_now c))
  | ReqRetry _ _ => m_wait c
  | RespRetry _ _ => s_wait c
  end.
Definition b_step (c : brun) (op : bop) : res brun :=
  match op with
  | Call k => do_call c k
  | Advance t => Ok (c <| r_now := t |>)
  | SendReq a ks =>
      snd <$> trySendReq r_br put_bridge (memory_side a ks) (r_now c) (put_bridge ((r_br c) <| m_event := None |>) c)
  | SendResp a ks =>
      snd <$> trySendResp r_br put_bridge (requester a ks) (r_now c) (put_bridge ((r_br c) <| s_event := None |>) c)
  | ReqRetry a ks => snd <$> trySendReq r_br put_bridge (memory_side a ks) (r_now c) c
  | RespRetry a ks => snd <$> trySendResp r_br put_bridge (requester a ks) (r_now c) c
  end.
Definition b_gstep (c : brun) (op : bop) : res brun := if b_guard c op then b_step c op else Ok c.

(** ** Correctness *)

#[local] Arguments edge : simpl never.
#[local] Arguments schedule : simpl never.

(** A port with packets to send has its event scheduled, not before the first is
    due, unless the peer refused that packet and owes a retry. *)
Definition ready (now : Tick) (wait : bool) (l : list deferred) (ev : event) : Prop :=
  match l with
  | [] => ev = None ∧ wait = false
  | f :: _ => if wait then ev = None ∧ f.1 ≤ now else ∃ w, ev = Some w ∧ f.1 ≤ w ∧ now ≤ w
  end.

(** Packets pass unchanged, and with the delay of the bridge. *)
Definition passed (x : Tick * Packet) (d : deferred) : Prop :=
  x.2 = d.2 ∧ x.1 + delay * clockPeriod ≤ d.1.

(** The invariant, for ports that wait for a retry or are in the middle of an
    offer ([mw], [sw]). *)
Record inv (mw sw : bool) (c : brun) : Prop :=
  { i_clock : clock_ok clockPeriod (r_now c) (clk (r_br c));
    i_m : ready (r_now c) mw (m_list (r_br c)) (m_event (r_br c));
    i_s : ready (r_now c) sw (s_list (r_br c)) (s_event (r_br c));
    i_taken : Forall2 passed (taken c) ((forwarded c).*2 ++ m_list (r_br c));
    i_received : Forall2 passed (received c) ((delivered c).*2 ++ s_list (r_br c));
    i_forwarded : Forall (λ e : Tick * deferred, e.2.1 ≤ e.1) (forwarded c);
    i_delivered : Forall (λ e : Tick * deferred, e.2.1 ≤ e.1) (delivered c);
    i_count : outstandingResponses (r_br c) = n_expect (taken c).*2 - Z.of_nat (length (delivered c));
    i_answers : Z.of_nat (length (received c)) ≤ n_expect (forwarded c).*2.*2;
    i_limits : outstandingResponses (r_br c) ≤ respQueueLimit ∧ Z.of_nat (length (m_list (r_br c))) ≤ reqQueueLimit;
    i_retry : retryReq (r_br c) = true → reqQueueFull (r_br c) = true ∨ respQueueFull (r_br c) = true }.

Hypothesis period_pos : 0 < clockPeriod.
Hypothesis delay_pos : 0 ≤ delay.
Hypothesis limits_ok : 0 < reqQueueLimit ∧ 0 < respQueueLimit < 2 ^ 32.

Lemma n_expect_app l1 l2 : n_expect (l1 ++ l2) = n_expect l1 + n_expect l2.
Proof. unfold n_expect. rewrite List.filter_app, length_app. lia. Qed.
Lemma n_expect_one p : n_expect [p] = if expects_response p then 1 else 0.
Proof. unfold n_expect. cbn. by destruct (expects_response p). Qed.

Lemma passed_pkts l l' : Forall2 passed l l' → l.*2 = l'.*2.
Proof. induction 1 as [|x d l l' [H _] _ IH]; [done|]. cbn. by rewrite H, IH. Qed.

(** The responses that wait have their place reserved. *)
Lemma reserved mw sw c : inv mw sw c → Z.of_nat (length (s_list (r_br c))) ≤ outstandingResponses (r_br c).
Proof.
  intros H. pose proof (i_answers _ _ _ H). rewrite (i_count _ _ _ H), (passed_pkts _ _ (i_taken _ _ _ H)), fmap_app, n_expect_app.
  pose proof (Forall2_length _ _ _ (i_received _ _ _ H)) as Hl. rewrite length_app, length_fmap in Hl.
  assert (0 ≤ n_expect (m_list (r_br c)).*2) by (unfold n_expect; lia). lia.
Qed.

Lemma edge_ok now k b : clock_ok clockPeriod now (clk b) → 0 ≤ k →
  ∃ t c, edge now k b = (t, b <| clk := c |>) ∧ clock_ok clockPeriod now c ∧ now + k * clockPeriod ≤ t ∧ now ≤ t.
Proof.
  intros H Hk. unfold edge. destruct (clockEdge_ok _ period_pos now k (clk b) H) as (c & -> & Hc). eexists _, c.
  split; [done|]. pose proof (edge_late _ period_pos now k). split_and!; [done|done|]. cbn. nia.
Qed.

(** One more packet at the end of a port. *)
Lemma ready_snoc now w l ev t p : ready now w l ev → now ≤ t →
  ∃ ev', (if bool_decide (l = []) then schedule now t ev else Ok ev) = Ok ev' ∧ ready now w (l ++ [(t, p)]) ev'.
Proof.
  intros H Ht. destruct l as [|f l]; cbn in *.
  - destruct H as [-> ->]. unfold schedule. rewrite !assert_bind by (done || lia). eexists. split; [done|]. eexists. split; [done|]. cbn; lia.
  - by exists ev.
Qed.

(** What the calls of the peers leave alone. *)
Record kept (c c' : brun) : Prop :=
  { k_now : r_now c' = r_now c; k_forwarded : forwarded c' = forwarded c; k_delivered : delivered c' = delivered c;
    k_mwait : m_wait c' = m_wait c; k_swait : s_wait c' = s_wait c;
    k_m : m_list (r_br c) `prefix_of` m_list (r_br c'); k_s : s_list (r_br c) `prefix_of` s_list (r_br c') }.
Lemma kept_refl c : kept c c.
Proof. done. Qed.
Lemma kept_trans c1 c2 c3 : kept c1 c2 → kept c2 c3 → kept c1 c3.
Proof. intros [] []. split; congruence || by etrans. Qed.

Lemma passed_snoc l l' t p t' : Forall2 passed l l' → t + delay * clockPeriod ≤ t' →
  Forall2 passed (l ++ [(t, p)]) (l' ++ [(t', p)]).
Proof. intros H Ht. apply Forall2_app; [done|]. by constructor. Qed.

Lemma call_resp_ok mw sw c pkt : inv mw sw c → may_call c (CallResp pkt) = true →
  ∃ c', do_call c (CallResp pkt) = Ok c' ∧ inv mw sw c' ∧ kept c c'.
Proof.
  intros H Hg. unfold do_call. rewrite Hg. cbn in Hg. pose proof H as [Hc Hm Hs Ht Hr Hf Hd Hn Ha Hl Hq].
  unfold recvTimingResp. destruct (edge_ok (r_now c) delay (r_br c) Hc delay_pos) as (t & ck & -> & Hck & Hle & Hnow). cbn [fst snd].
  unfold schedTimingResp. cbn [s_list s_event set_field].
  destruct (ready_snoc (r_now c) sw _ _ t (no_delay pkt) Hs Hnow) as (ev & Ee & Hs'). rewrite Ee. cbn [mbind res_bind].
  eexists. split; [reflexivity|]. split; [|by split; cbn; try done; eexists].
  split; cbn; try done.
  - rewrite app_assoc. by apply passed_snoc.
  - rewrite length_app. cbn. lia.
Qed.

(** A request that is taken: the space for its response is reserved, and it is
    put in the queue. *)
Lemma take_request_ok mw sw c pkt n : inv mw sw c → retryReq (r_br c) = false → reqQueueFull (r_br c) = false →
  n = outstandingResponses (r_br c) + n_expect [pkt] → n ≤ respQueueLimit →
  ∃ b, (let e := edge (r_now c) delay ((r_br c) <| outstandingResponses := n |>) in
        schedTimingReq (r_now c) (no_delay pkt) e.1 e.2) = Ok b ∧ retryReq b = false ∧
    let c' := c <| r_br := b |> <| taken ::= λ l, l ++ [(r_now c, no_delay pkt)] |> in inv mw sw c' ∧ kept c c'.
Proof.
  intros H Hret Hfull En Hlim. pose proof H as [Hc Hm Hs Ht Hr Hf Hd Hn Ha Hl Hq].
  destruct (edge_ok (r_now c) delay ((r_br c) <| outstandingResponses := n |>)) as (t & ck & -> & Hck & Hle & Hnow);
    [exact Hc|exact delay_pos|]. cbn [fst snd]. unfold schedTimingReq. cbn [m_list m_event set_field].
  destruct (ready_snoc (r_now c) mw _ _ t (no_delay pkt) Hm Hnow) as (ev & Ee & Hm'). rewrite Ee. cbn [mbind res_bind].
  unfold reqQueueFull in Hfull. rewrite assert_bind by (by rewrite Hfull). eexists. split; [reflexivity|]. split; [done|]. cbv zeta.
  split; [|by split; cbn; try done; eexists]. split; cbn; try done.
  - rewrite app_assoc. by apply passed_snoc.
  - rewrite fmap_app, n_expect_app. change ([(r_now c, no_delay pkt)].*2) with [no_delay pkt].
    assert (n_expect [no_delay pkt] = n_expect [pkt]) by (by rewrite !n_expect_one). lia.
  - rewrite length_app. cbn. lia.
  - by rewrite Hret.
Qed.

Lemma call_req_ok mw sw c pkt : inv mw sw c → may_call c (CallReq pkt) = true →
  ∃ c', do_call c (CallReq pkt) = Ok c' ∧ inv mw sw c' ∧ kept c c'.
Proof.
  intros H Hg. unfold do_call. rewrite Hg. cbn in Hg. apply negb_true_iff in Hg. unfold recvTimingReq. rewrite assert_bind by (by rewrite Hg).
  assert (∀ b, b = (r_br c) <| retryReq := true |> → reqQueueFull (r_br c) = true ∨ respQueueFull (r_br c) = true →
    inv mw sw (c <| r_br := b |>) ∧ kept c (c <| r_br := b |>)) as Href.
  { intros b -> Hfull. destruct H. by split. }
  destruct (reqQueueFull (r_br c)) eqn:Ef.
  { cbn [mbind res_bind]. eexists. split; [reflexivity|]. apply Href; auto. }
  pose proof (i_limits _ _ _ H) as [Hl _]. pose proof (reserved _ _ _ H).
  pose proof (n_expect_one pkt) as H1. destruct (expects_response pkt) eqn:Ex.
  - destruct (respQueueFull (r_br c)) eqn:Er.
    { cbn [mbind res_bind]. eexists. split; [reflexivity|]. apply Href; auto. }
    unfold respQueueFull in Er. rewrite assert_bind by (by rewrite Er). apply Z.eqb_neq in Er. cbn [mbind res_bind].
    change (retryReq (_ <| outstandingResponses ::= _ |>)) with (retryReq (r_br c)). rewrite Hg. cbn [negb].
    destruct (take_request_ok mw sw c pkt (u32 (outstandingResponses (r_br c) + 1)) H Hg Ef) as (b & Eb & Hb & Hc');
      [rewrite u32_small; lia|rewrite u32_small; lia|].
    match goal with |- context [schedTimingReq ?x ?p ?t ?y] =>
      replace (schedTimingReq x p t y) with (Ok b) by (symmetry; exact Eb) end. cbn [mbind res_bind fst snd]. rewrite Hb. eexists. by split; [reflexivity|].
  - cbn [mbind res_bind]. rewrite Hg. cbn [negb].
    destruct (take_request_ok mw sw c pkt (outstandingResponses (r_br c)) H Hg Ef) as (b & Eb & Hb & Hc'); [lia|lia|].
    assert ((r_br c) <| outstandingResponses := outstandingResponses (r_br c) |> = r_br c) as E0 by (by destruct (r_br c)).
    rewrite E0 in Eb. cbv zeta in Eb |- *. rewrite Eb. cbn [mbind res_bind fst snd]. rewrite Hb. eexists. by split; [reflexivity|].
Qed.

Lemma calls_ok mw sw ks c : inv mw sw c → ∃ c', foldM do_call c ks = Ok c' ∧ inv mw sw c' ∧ kept c c'.
Proof.
  revert c. induction ks as [|k ks IH]; intros c H; [exists c; by split_and!|]. cbn.
  assert (∃ c', do_call c k = Ok c' ∧ inv mw sw c' ∧ kept c c') as (c1 & -> & H1 & K1).
  { destruct (may_call c k) eqn:Eg; [destruct k; [by apply call_req_ok|by apply call_resp_ok]|].
    exists c. unfold do_call. by rewrite Eg. }
  destruct (IH c1 H1) as (c2 & E & H2 & K2). exists c2. split_and!; [done|done|by eapply kept_trans].
Qed.

(** The next packet of a port is scheduled. *)
Lemma next_ok now g l b : clock_ok clockPeriod now (clk b) →
  ∃ t ck, edge now 0 b = (t, b <| clk := ck |>) ∧ clock_ok clockPeriod now ck ∧
    schedule now (Z.max g.1 t) None = Ok (Some (Z.max g.1 t)) ∧ ready now false (g :: l) (Some (Z.max g.1 t)).
Proof.
  intros Hc. destruct (edge_ok now 0 b Hc) as (t & ck & E & Hck & _ & Ht); [lia|].
  exists t, ck. split_and!; [done|done|unfold schedule; by rewrite !assert_bind by (done || lia)|]. eexists. split; [done|]. lia.
Qed.

Lemma req_sent_ok now b f l :
  clock_ok clockPeriod now (clk b) → m_list b = f :: l → m_event b = None →
  ∃ r ck ev, req_sent now b = Ok (r, b <| clk := ck |> <| m_list := l |> <| m_event := ev |> <| retryReq := false |>) ∧
    clock_ok clockPeriod now ck ∧ ready now false l ev.
Proof.
  intros Hc El He. unfold req_sent, retryStalledReq. destruct b as [ck ml me sl se o r]. cbn in *. subst ml me. cbn.
  destruct l as [|g l].
  - exists r, ck, None. cbn. by destruct r.
  - destruct (next_ok now g l (mkBridge ck (g :: l) None sl se o r) Hc) as (t & ck' & -> & Hck & Es & Hr). cbn in Es |- *.
    rewrite Es. cbn. exists r, ck', (Some (Z.max g.1 t)). by destruct r.
Qed.

Lemma resp_sent_ok now b f l :
  clock_ok clockPeriod now (clk b) → s_list b = f :: l → s_event b = None → 0 < outstandingResponses b ≤ respQueueLimit →
  ∃ r ck ev ret, resp_sent now b = Ok (r, b <| clk := ck |> <| s_list := l |> <| s_event := ev |>
                     <| outstandingResponses := outstandingResponses b - 1 |> <| retryReq := ret |>) ∧
    clock_ok clockPeriod now ck ∧ ready now false l ev ∧ (ret = true → reqQueueFull b = true).
Proof.
  intros Hc El He Ho. unfold resp_sent. destruct b as [ck ml me sl se o r]. cbn in *. subst sl se. cbn.
  rewrite assert_bind by (apply negb_true_iff, Z.eqb_neq; lia). rewrite u32_small by lia.
  assert (∀ b', m_list b' = ml → reqQueueFull b' = reqQueueFull (mkBridge ck ml me (f :: l) None o r)) as Hfull.
  { intros b' E. unfold reqQueueFull. by rewrite E. }
  destruct l as [|g l].
  - cbn. rewrite Hfull by done. destruct (reqQueueFull _) eqn:Ef; cbn; [|destruct r; cbn].
    + by exists false, ck, None, r.
    + by exists true, ck, None, false.
    + by exists false, ck, None, false.
  - destruct (next_ok now g l (mkBridge ck ml me (g :: l) None (o - 1) r) Hc) as (t & ck' & -> & Hck & Es & Hr). cbn in Es |- *.
    rewrite Es. cbn. rewrite Hfull by done. destruct (reqQueueFull _) eqn:Ef; cbn; [|destruct r; cbn].
    + by exists false, ck', (Some (Z.max g.1 t)), r.
    + by exists true, ck', (Some (Z.max g.1 t)), false.
    + by exists false, ck', (Some (Z.max g.1 t)), false.
Qed.

Lemma send_req_ok a ks sw c : inv true sw c →
  ∃ r, trySendReq r_br put_bridge (memory_side a ks) (r_now c) c = Ok r ∧ inv (m_wait r.2) sw r.2 ∧ s_wait r.2 = s_wait c.
Proof.
  intros H. pose proof (i_m _ _ _ H) as Hm. unfold trySendReq. unfold ready in Hm.
  destruct (m_list (r_br c)) as [|f l] eqn:El; [by destruct Hm|]. destruct Hm as [He Hf]. rewrite assert_bind by lia.
  unfold memory_side. rewrite El. destruct (calls_ok true sw ks c H) as (c1 & -> & H1 & [K1 K2 K3 K4 K5 [l2 K6] K7]).
  cbn [mbind res_bind fst snd]. destruct a; [|eexists; split; [reflexivity|]; by destruct H1].
  pose proof H1 as [Hc Hm Hs Ht Hr Hfw Hd Hn Ha Hl Hq]. rewrite El in K6. cbn [app] in K6. rewrite K6 in Hm, Ht, Hl.
  destruct Hm as [He1 Hf1]. rewrite K1 in *.
  destruct (req_sent_ok (r_now c) (r_br c1) f (l ++ l2) Hc K6 He1) as (r & ck & ev & E & Hck & Hrd).
  cbn [r_br set_field]. rewrite E. cbn [mbind res_bind fst snd]. eexists. split; [reflexivity|]. split; [|done].
  destruct f as [tf pf]. split; cbn; rewrite ?K1; try done.
  - by rewrite fmap_app, <-app_assoc.
  - apply Forall_app. split; [done|]. by repeat constructor.
  - rewrite !fmap_app, n_expect_app. unfold n_expect at 2. lia.
  - cbn in Hl. lia.
Qed.

Lemma send_resp_ok a ks mw c : inv mw true c →
  ∃ r, trySendResp r_br put_bridge (requester a ks) (r_now c) c = Ok r ∧ inv mw (s_wait r.2) r.2 ∧ m_wait r.2 = m_wait c.
Proof.
  intros H. pose proof (i_s _ _ _ H) as Hm. unfold trySendResp. unfold ready in Hm.
  destruct (s_list (r_br c)) as [|f l] eqn:El; [by destruct Hm|]. destruct Hm as [He Hf]. rewrite assert_bind by lia.
  unfold requester. rewrite El. destruct (calls_ok mw true ks c H) as (c1 & -> & H1 & [K1 K2 K3 K4 K5 K6 [l2 K7]]).
  cbn [mbind res_bind fst snd]. destruct a; [|eexists; split; [reflexivity|]; by destruct H1].
  pose proof (reserved _ _ _ H1) as Hres. pose proof H1 as [Hc Hm Hs Ht Hr Hfw Hd Hn Ha Hl Hq].
  rewrite El in K7. cbn [app] in K7. rewrite K7 in Hs, Hr, Hres. destruct Hs as [He1 Hf1]. rewrite K1 in *.
  destruct (resp_sent_ok (r_now c) (r_br c1) f (l ++ l2) Hc K7 He1) as (r & ck & ev & ret & E & Hck & Hrd & Hret); [cbn in Hres; lia|].
  cbn [r_br set_field]. rewrite E. cbn [mbind res_bind fst snd]. eexists. split; [reflexivity|]. split; [|done].
  destruct f as [tf pf]. split; cbn; rewrite ?K1; try done.
  - by rewrite fmap_app, <-app_assoc.
  - apply Forall_app. split; [done|]. by repeat constructor.
  - rewrite length_app. cbn. lia.
  - lia.
  - intros Hr'. left. by apply Hret.
Qed.

Definition b_inv (c : brun) : Prop := inv (m_wait c) (s_wait c) c.

Lemma ready_later now t w l ev : ready now w l ev → now ≤ t → t ≤ default t ev → ready t w l ev.
Proof.
  destruct l as [|f l]; [done|]. destruct w; cbn.
  - intros [-> ?] ? ?. split; [done|lia].
  - intros (e & -> & He) ? Ht. cbn in Ht. exists e. split; [done|lia].
Qed.

(** The event of a port with packets happens at or after the tick of the first. *)
Lemma ready_fires now w l : ready now w l (Some now) → ready now true l None.
Proof.
  destruct l as [|f l]; [by intros []|]. destruct w; cbn; [by intros []|]. intros (e & [= ->] & He). split; [done|lia].
Qed.

Lemma b_gstep_ok c op : b_inv c → ∃ c', b_gstep c op = Ok c' ∧ b_inv c'.
Proof.
  intros H. unfold b_gstep. destruct (b_guard c op) eqn:Hg; [|by exists c].
  destruct op as [k|t|a ks|a ks|a ks|a ks]; cbn in Hg; unfold b_step.
  - destruct (calls_ok _ _ [k] c H) as (c' & E & H' & [_ _ _ K4 K5 _ _]). cbn in E. exists c'. unfold b_inv. rewrite K4, K5.
    destruct (do_call c k); [|done]. by injection E as ->.
  - rewrite !andb_true_iff, !Z.leb_le in Hg. destruct Hg as [[Hg1 Hg2] Hg3]. eexists. split; [reflexivity|].
    destruct H. split; cbn; try done; [by eapply clock_later|by eapply ready_later..].
  - apply bool_decide_eq_true in Hg. set (c0 := put_bridge ((r_br c) <| m_event := None |>) c). assert (inv true (s_wait c) c0) as H0.
    { destruct H as [? Hm]. rewrite Hg in Hm. apply ready_fires in Hm. by split. }
    destruct (send_req_ok a ks _ c0 H0) as (r & E & Hr & Ew). exists r.2. unfold b_inv. rewrite Ew. split; [|exact Hr].
    change (r_now c) with (r_now c0). by rewrite E.
  - apply bool_decide_eq_true in Hg. set (c0 := put_bridge ((r_br c) <| s_event := None |>) c). assert (inv (m_wait c) true c0) as H0.
    { destruct H as [? ? Hs]. rewrite Hg in Hs. apply ready_fires in Hs. by split. }
    destruct (send_resp_ok a ks _ c0 H0) as (r & E & Hr & Ew). exists r.2. unfold b_inv. rewrite Ew. split; [|exact Hr].
    change (r_now c) with (r_now c0). by rewrite E.
  - unfold b_inv in H. rewrite Hg in H. destruct (send_req_ok a ks _ c H) as (r & -> & Hr & Ew). exists r.2. unfold b_inv. by rewrite Ew.
  - unfold b_inv in H. rewrite Hg in H. destruct (send_resp_ok a ks _ c H) as (r & -> & Hr & Ew). exists r.2. unfold b_inv. by rewrite Ew.
Qed.

Lemma b_run_ok ops c : b_inv c → ∃ c', foldM b_gstep c ops = Ok c' ∧ b_inv c'.
Proof.
  revert c. induction ops as [|op ops IH]; intros c H; [by exists c|]. cbn.
  destruct (b_gstep_ok c op H) as (c1 & -> & H1). by apply IH.
Qed.

Definition start : brun := mkBRun 0 new_bridge [] [] [] [] false false.

(** C14: however requests and responses arrive, also in the middle of a send, and
    whichever sends the peers refuse, no assertion of the bridge fails; requests
    are forwarded and responses delivered unchanged, in order, each once, and not
    before the delay is over; there is always space for the responses, as every
    request under way that expects one has its place reserved; a port with packets
    has its event scheduled or waits for a retry of its peer; and a refused
    requester waits only while there is a packet whose sending ends the stall. *)
Theorem bridge_ok ops :
  ∃ c, foldM b_gstep start ops = Ok c ∧ let b := r_br c in
    Forall2 passed (taken c) ((forwarded c).*2 ++ m_list b) ∧
    Forall2 passed (received c) ((delivered c).*2 ++ s_list b) ∧
    Forall (λ e : Tick * deferred, e.2.1 ≤ e.1) (forwarded c ++ delivered c) ∧
    outstandingResponses b = n_expect (taken c).*2 - Z.of_nat (length (delivered c)) ∧
    Z.of_nat (length (s_list b)) ≤ outstandingResponses b ≤ respQueueLimit ∧
    Z.of_nat (length (m_list b)) ≤ reqQueueLimit ∧
    ready (r_now c) (m_wait c) (m_list b) (m_event b) ∧ ready (r_now c) (s_wait c) (s_list b) (s_event b) ∧
    (retryReq b = true → m_list b ≠ [] ∨ 0 < outstandingResponses b).
Proof.
  destruct (b_run_ok ops start) as (c & E & H).
  { split; cbn; try done. lia. }
  exists c. split; [done|]. pose proof (reserved _ _ _ H). destruct H as [Hc Hm Hs Ht Hr Hf Hd Hn Ha Hl Hq]. cbv zeta.
  split_and!; [done..|by apply Forall_app|lia|lia|lia|lia|done|done|].
  intros Hret. destruct (Hq Hret) as [Hfull|Hfull]; apply Z.eqb_eq in Hfull; [left; intros E0; rewrite E0 in Hfull; cbn in Hfull|right]; lia.
Qed.
End bridge.

(** Two reads through a bridge with room for one response: the second is refused
    twice, the first time it is retried in vain when the first was forwarded, and is
    taken after the first was answered. *)
Definition ex_bridge : list bop :=
  [Call (CallReq (read_pkt 1 0 0)); Call (CallReq (read_pkt 2 128 0)); Advance 30; SendReq false []; Advance 35;
   ReqRetry true []; Call (CallReq (read_pkt 2 128 0)); Call (CallResp (read_pkt 1 0 0)); Advance 70;
   SendResp true []; Call (CallReq (read_pkt 2 128 0))].

Lemma bridge_ok_witness :
  ∃ c, foldM (b_gstep 10 3 4 1) start ex_bridge = Ok c ∧
    (fst <$> taken c, fst <$> forwarded c, fst <$> received c, fst <$> delivered c) = ([0; 70], [35], [35], [70]) ∧
    retryReq (r_br c) = false ∧ Forall2 (passed 10 3) (taken c) ((forwarded c).*2 ++ m_list (r_br c)).
Proof.
  destruct (bridge_ok 10 3 4 1 ltac:(lia) ltac:(lia) ltac:(lia) ex_bridge) as (c & E & Hp & _).
  exists c. split; [exact E|]. split; [|split; [|exact Hp]]; vm_compute in E; by injection E as <-.
Defined.
End Bridge.
