(* ===== verification/XBar.v ===== *)
(** * The crossbars (mem/xbar.hh, xbar.cc, noncoherent_xbar.hh, noncoherent_xbar.cc)

    A crossbar routes requests from its slave ports to the master port whose
    ranges contain the address, and responses back.  Each destination has a layer
    that carries one packet at a time and keeps the sources that wait for it.  The
    file holds the layers, the routing with its cache and the announcement of
    ranges, and the non-coherent crossbar.

    A layer that is released tells the source that waits longest to try again,
    and that source may call the crossbar at once: these handlers work on a world
    that contains the crossbar.  The answer of a peer to a request that is offered to
    it is an input; a peer that calls the crossbar before it answers is not modelled. *)

From S2P Require Import Prelude Intmath Packet DramTypes PacketQueue Clock AddrRange AddrRangeMap.
Import Intmath MemCmd Packet PacketQueue Clock AddrRange AddrRangeMap.

Module XBar.

(** ** Layers *)

Inductive LayerState : Set := IDLE | BUSY | RETRY.
#[export] Instance LayerState_eq_dec : EqDecision LayerState.
Proof. solve_decision. Defined.

(** A port is its number. *)
Record Layer := mkLayer
  { state : LayerState;
    waitingForLayer : list nat;
    waitingForPeer : option nat;
    releaseEvent : event;
    occupancy : Z }.
#[export] Instance eta_Layer : Eta Layer := λ l,
  mkLayer (state l) (waitingForLayer l) (waitingForPeer l) (releaseEvent l) (occupancy l).
Definition new_layer : Layer := mkLayer IDLE [] None None 0.

Definition in_state (s : LayerState) (l : Layer) : bool := bool_decide (state l = s).

Definition occupyLayer (now until : Tick) (l : Layer) : res Layer :=
  assert (in_state BUSY l) "state == BUSY";;
  assert (negb (until =? 0)) "until != 0";;
  ev ← schedule now until (releaseEvent l);
  Ok (l <| releaseEvent := ev |> <| occupancy ::= λ o, o + (until - now) |>).

Definition tryTiming (src : nat) (l : Layer) : res (bool * Layer) :=
  if in_state BUSY l || isSome (waitingForPeer l) then
    assert (negb (bool_decide (src ∈ waitingForLayer l))) "src_port is not waiting";;
    Ok (false, l <| waitingForLayer ::= λ w, w ++ [src] |>)
  else Ok (true, l <| state := BUSY |>).

Definition succeededTiming (now busy_time : Tick) (l : Layer) : res Layer :=
  assert (in_state BUSY l) "state == BUSY";;
  occupyLayer now busy_time l.

Definition failedTiming (now : Tick) (src : nat) (busy_time : Tick) (l : Layer) : res Layer :=
  assert (negb (isSome (waitingForPeer l))) "waitingForPeer == NULL";;
  let l := l <| waitingForPeer := Some src |> in
  assert (in_state BUSY l) "state == BUSY";;
  occupyLayer now busy_time l.

(** [Layer::drain]: true if drained. *)
Definition layer_drain (l : Layer) : bool := in_state IDLE l.

(** ** Routing *)

Record PortCache := mkPortCache { pc_valid : bool; pc_id : nat; pc_range : AddrRange }.

Record XBar := mkXBar
  { clk : Clock;
    portMap : list (AddrRange * nat);
    portCache : PortCache * PortCache * PortCache;
    gotAddrRanges : list bool;
    gotAllAddrRanges : bool;
    defaultRange : AddrRange;
    xbarRanges : list AddrRange;
    routeTo : gmap Z nat;
    reqLayers : list Layer;
    respLayers : list Layer;
    slavePorts : list PacketQueue;
    xstats : stats }.
#[export] Instance eta_XBar : Eta XBar := λ x,
  mkXBar (clk x) (portMap x) (portCache x) (gotAddrRanges x) (gotAllAddrRanges x) (defaultRange x)
    (xbarRanges x) (routeTo x) (reqLayers x) (respLayers x) (slavePorts x) (xstats x).

(** The constructor, for the numbers of master ports, the default port included, and
    of slave ports. *)
Definition new_xbar (masters slaves : nat) : XBar :=
  let none := mkPortCache false 0 (plain_range 1 0) in
  mkXBar new_clock [] (none, none, none) (replicate masters false) false (plain_range 1 0) [] ∅
    (replicate masters new_layer) (replicate slaves new_layer) (replicate slaves new_packet_queue) ∅.

Definition checkPortCache (a : Addr) (x : XBar) : option nat :=
  let '(c0, c1, c2) := portCache x in
  if pc_valid c0 && contains (pc_range c0) a then Some (pc_id c0)
  else if pc_valid c1 && contains (pc_range c1) a then Some (pc_id c1)
  else if pc_valid c2 && contains (pc_range c2) a then Some (pc_id c2)
  else None.
Definition updatePortCache (id : nat) (r : AddrRange) (x : XBar) : XBar :=
  let '(c0, c1, _) := portCache x in x <| portCache := (mkPortCache true id r, c0, c1) |>.
Definition clearPortCache (x : XBar) : XBar :=
  let inval c := mkPortCache false (pc_id c) (pc_range c) in
  let '(c0, c1, c2) := portCache x in x <| portCache := (inval c0, inval c1, inval c2) |>.

Section xbar.
(** The parameters of the crossbar: a default port, whether its range is used, the
    latencies in cycles, the width in bytes, the ticks of a microsecond; and the
    request a packet belongs to. *)
Variables (clockPeriod : Tick) (defaultPortID : option nat) (useDefaultRange : bool).
Variables (frontendLatency forwardLatency responseLatency width us : Z).
Variable req : Packet → Z.

Definition findPort (a : Addr) (x : XBar) : res (nat * XBar) :=
  assert (gotAllAddrRanges x) "gotAllAddrRanges";;
  match checkPortCache a x with
  | Some id => Ok (id, x)
  | None =>
      o ← find_addr a (portMap x);
      match o ≫= (portMap x !!.) with
      | Some e => Ok (e.2, updatePortCache e.2 e.1 x)
      | None =>
          if useDefaultRange then
            if contains (defaultRange x) a
            then match defaultPortID with Some d => Ok (d, x) | None => Fault (Panic "no default port") end
            else Fault (Fatal "Unable to find destination")
          else match defaultPortID with Some d => Ok (d, x) | None => Fault (Fatal "Unable to find destination") end
      end
  end.

(** A range that is not inside the default range is kept. *)
Definition keep_range (x : XBar) (r : AddrRange) : res (list AddrRange) :=
  if useDefaultRange then s ← isSubset r (defaultRange x); Ok (if s : bool then [] else [r]) else Ok [r].

(** The loop that merges interleaved ranges, with those that wait. *)
Fixpoint aggregate (x : XBar) (t : list (AddrRange * nat)) (ranges : list AddrRange) : res (list AddrRange) :=
  let close := if decide (ranges = []) then Ok [] else merged ← merge_ranges ranges; keep_range x merged in
  match t with
  | [] => close
  | (r, _) :: t =>
      if interleaved r then
        let other := match last ranges with Some b => negb (mergesWith b r) | None => false end in
        if other then l ← close; l' ← aggregate x t [r]; Ok (l ++ l')
        else aggregate x t (ranges ++ [r])
      else l ← keep_range x r; l' ← aggregate x t ranges; Ok (l ++ l')
  end.

(** No range overlaps the default range without being inside it. *)
Fixpoint check_default (d : AddrRange) (rs : list AddrRange) : res unit :=
  match rs with
  | [] => Ok tt
  | r :: rs =>
      i ← intersects r d;
      s ← (if i : bool then isSubset r d else Ok true);
      if s : bool then check_default d rs else Fault (Fatal "Range intersects the default range but is not a subset")
  end.

Fixpoint add_ranges (id : nat) (rs : list AddrRange) (t : list (AddrRange * nat)) : res (list (AddrRange * nat)) :=
  match rs with
  | [] => Ok t
  | r :: rs =>
      i ← AddrRangeMap.insert r id t;
      match i.1 with
      | Some _ => add_ranges id rs i.2
      | None => Fault (Fatal "two ports responding within range")
      end
  end.

(** [ranges] are the ranges of the slave module behind the port. *)
Definition recvRangeChange (id : nat) (ranges : list AddrRange) (x : XBar) : res XBar :=
  let x := x <| gotAddrRanges ::= <[id := true]> |> in
  let x := if gotAllAddrRanges x then x else x <| gotAllAddrRanges := forallb (λ b, b) (gotAddrRanges x) |> in
  x ← (if bool_decide (defaultPortID = Some id) then
         if useDefaultRange then
           match ranges with
           | [r] => Ok (x <| defaultRange := r |>)
           | _ => Fault (Fatal "Crossbar may only have a single default range")
           end
         else Ok x
       else
         let t := List.filter (λ e : AddrRange * nat, negb (bool_decide (e.2 = id))) (portMap x) in
         t ← add_ranges id ranges t; Ok (x <| portMap := t |>));
  x ← (if gotAllAddrRanges x then
         (if useDefaultRange then
            match defaultPortID ≫= (gotAddrRanges x !!.) with
            | Some true => Ok tt
            | Some false => Fault (Fatal "Crossbar uses default range, but none provided")
            | None => Fault (Panic "no default port")
            end
          else Ok tt);;
         l ← aggregate x (portMap x) [];
         let l := (if useDefaultRange then [defaultRange x] else []) ++ l in
         (if useDefaultRange then check_default (defaultRange x) l else Ok tt);;
         Ok (x <| xbarRanges := l |>)
       else Ok x);
  Ok (clearPortCache x).

Definition getAddrRanges (x : XBar) : res (list AddrRange) :=
  assert (gotAllAddrRanges x) "gotAllAddrRanges";;
  Ok (xbarRanges x).

(** ** The non-coherent crossbar *)

Definition edge (now : Tick) (cycles : Z) (x : XBar) : Tick * XBar :=
  let r := clockEdge clockPeriod now cycles (clk x) in (r.1, x <| clk := r.2 |>).

Definition calcPacketTiming (now : Tick) (pkt : Packet) (header_delay : Tick) (x : XBar) : res (Packet * XBar) :=
  let e := edge now 0 x in
  let pkt := pkt <| headerDelay ::= λ h, h + (e.1 - now) + header_delay |> in
  if us <? headerDelay pkt then Fault (Panic "Encountered header delay exceeding 1 us")
  else
    let pkt := if hasData (cmd pkt)
               then pkt <| payloadDelay ::= λ d, Z.max d (divCeil (Packet.size pkt) width * clockPeriod) |> else pkt in
    Ok (pkt, e.2).

Definition on_layer {A} (which : XBar → list Layer) (put : list Layer → XBar → XBar) (i : nat)
    (f : Layer → res (A * Layer)) (x : XBar) : res (A * XBar) :=
  match which x !! i with
  | None => Fault (Panic "no such layer")
  | Some l => r ← f l; Ok (r.1, put (<[i := r.2]> (which x)) x)
  end.
Definition on_req {A} (i : nat) (f : Layer → res (A * Layer)) (x : XBar) : res (A * XBar) :=
  on_layer reqLayers (λ l x, x <| reqLayers := l |>) i f x.
Definition on_resp {A} (i : nat) (f : Layer → res (A * Layer)) (x : XBar) : res (A * XBar) :=
  on_layer respLayers (λ l x, x <| respLayers := l |>) i f x.
Definition unit_of (m : res Layer) : res (unit * Layer) := l ← m; Ok (tt, l).

(** [pkt->cmdToIndex()]. *)
Definition cmdToIndex (c : Command) : Z :=
  Z.of_nat (default 0%nat (first_index (λ c', bool_decide (c' = c)) all_commands)).

Definition count_packet (s m : nat) (pkt_size pkt_cmd : Z) (x : XBar) : XBar :=
  let i := Z.of_nat s * Z.of_nat (length (reqLayers x)) + Z.of_nat m in
  x <| xstats ::= λ st, stat_inc_at "transDist" pkt_cmd
                          (stat_add "pktSize" i pkt_size (stat_add "pktCount" i 1 st)) |>.

(** [accepted] is the answer of the peer to [sendTimingReq].  The result is whether
    the request was taken and, if it was offered to the peer, the port and the packet
    as the call leaves it. *)
Definition recvTimingReq (now : Tick) (accepted : bool) (pkt : Packet) (s : nat) (x : XBar)
    : res (bool * option (nat * Packet) * XBar) :=
  assert (negb (isExpressSnoop pkt)) "!pkt->isExpressSnoop()";;
  mx ← findPort (addr pkt) x;
  let m := mx.1 in
  r ← on_req m (tryTiming s) mx.2;
  if negb r.1 then Ok (false, None, r.2)
  else
    let pkt_size := if hasData (cmd pkt) then Packet.size pkt else 0 in
    px ← calcPacketTiming now pkt ((frontendLatency + forwardLatency) * clockPeriod) r.2;
    let e := edge now 1 px.2 in
    let packetFinishTime := e.1 + payloadDelay px.1 in
    if negb accepted then
      assert (negb (memInhibit px.1)) "!pkt->memInhibitAsserted()";;
      let e := edge now 1 e.2 in
      r ← on_req m (λ l, unit_of (failedTiming now s e.1 l)) e.2;
      Ok (false, Some (m, px.1 <| headerDelay := headerDelay pkt |>), r.2)
    else
      x ← (if needsResponse (cmd pkt) && negb (memInhibit pkt) then
             assert (bool_decide (routeTo e.2 !! req pkt = None)) "routeTo.find(pkt->req) == routeTo.end()";;
             Ok (e.2 <| routeTo ::= <[req pkt := s]> |>)
           else Ok e.2);
      r ← on_req m (λ l, unit_of (succeededTiming now packetFinishTime l)) x;
      Ok (true, Some (m, px.1), count_packet s m pkt_size (cmdToIndex (cmd pkt)) r.2).

(** The result is whether the response was taken, and the port and the packet put in
    its queue. *)
Definition recvTimingResp (now : Tick) (draining : bool) (pkt : Packet) (m : nat) (x : XBar)
    : res (option (nat * Packet) * XBar) :=
  match routeTo x !! req pkt with
  | None => Fault (AssertFail "route_lookup != routeTo.end()")
  | Some s =>
      assert (bool_decide (s < length (respLayers x))%nat) "slave_port_id < respLayers.size()";;
      r ← on_resp s (tryTiming m) x;
      if negb r.1 then Ok (None, r.2)
      else
        let pkt_size := if hasData (cmd pkt) then Packet.size pkt else 0 in
        px ← calcPacketTiming now pkt (responseLatency * clockPeriod) r.2;
        let e := edge now 1 px.2 in
        let packetFinishTime := e.1 + payloadDelay px.1 in
        let latency := headerDelay px.1 in
        let pkt' := px.1 <| headerDelay := 0 |> in
        x ← match slavePorts e.2 !! s with
            | None => Fault (Panic "no such port")
            | Some q =>
                qd ← schedSendTiming now draining pkt' (now + latency) false q;
                Ok (e.2 <| slavePorts ::= <[s := qd.1]> |>)
            end;
        let x := x <| routeTo ::= delete (req pkt) |> in
        r ← on_resp s (λ l, unit_of (succeededTiming now packetFinishTime l)) x;
        Ok (Some (s, pkt'), count_packet s m pkt_size (cmdToIndex (cmd pkt)) r.2)
  end.

(** *** Release and retry of a layer *)
Section release.
Context {X : Type}.
Variables (xbar : X → XBar) (putx : XBar → X → X).
(** One kind of layers, and [sendRetry] to a source. *)
Variables (which : XBar → list Layer) (putl : list Layer → XBar → XBar).
Variable sendRetry : nat → X → res X.

Definition get_layer (i : nat) (w : X) : res Layer :=
  match which (xbar w) !! i with Some l => Ok l | None => Fault (Panic "no such layer") end.
Definition put_layer (i : nat) (l : Layer) (w : X) : X :=
  putx (putl (<[i := l]> (which (xbar w))) (xbar w)) w.

Definition retryWaiting (now : Tick) (i : nat) (w : X) : res X :=
  l ← get_layer i w;
  match waitingForLayer l with
  | [] => Fault (AssertFail "!waitingForLayer.empty()")
  | retryingPort :: rest =>
      assert (in_state IDLE l) "state == IDLE";;
      w ← sendRetry retryingPort (put_layer i (l <| state := RETRY |> <| waitingForLayer := rest |>) w);
      l ← get_layer i w;
      if in_state RETRY l then
        let e := edge now 0 (xbar w) in
        l ← occupyLayer now e.1 (l <| state := BUSY |>);
        Ok (put_layer i l (putx e.2 w))
      else Ok w
  end.

(** The second result is whether the drain is signalled as done. *)
Definition releaseLayer (now : Tick) (draining : bool) (i : nat) (w : X) : res (bool * X) :=
  l ← get_layer i w;
  assert (in_state BUSY l) "state == BUSY";;
  assert (negb (scheduled (releaseEvent l))) "!releaseEvent.scheduled()";;
  let w := put_layer i (l <| state := IDLE |>) w in
  match waitingForLayer l with
  | _ :: _ => if isSome (waitingForPeer l) then Ok (false, w) else w ← retryWaiting now i w; Ok (false, w)
  | [] => Ok (negb (isSome (waitingForPeer l)) && draining, w)
  end.

Definition recvRetry (now : Tick) (i : nat) (w : X) : res X :=
  l ← get_layer i w;
  match waitingForPeer l with
  | None => Fault (AssertFail "waitingForPeer != NULL")
  | Some p =>
      let w := put_layer i (l <| waitingForLayer ::= cons p |> <| waitingForPeer := None |>) w in
      if in_state IDLE l then retryWaiting now i w
      else assert (in_state BUSY l) "state == BUSY";; Ok w
  end.
End release.
End xbar.
End XBar.
