(* ===== verification/XBarProofs.v ===== *)
(** * The crossbar: layers and routing stay consistent

    The invariant of a crossbar between the calls of its handlers, also in the
    middle of a retry, and that requests, responses, releases and retries keep it
    without failing an assertion. *)

From S2P Require Import Prelude Intmath Packet DramTypes PacketQueue Clock AddrRange AddrRangeMap XBar.
Import Intmath MemCmd Packet PacketQueue Clock AddrRange AddrRangeMap XBar.

Module XBarProofs.

(** The layers for requests and for responses. *)
Definition layers (k : bool) (x : XBar) : list Layer := if k then reqLayers x else respLayers x.
Definition put_layers (k : bool) (l : list Layer) (x : XBar) : XBar :=
  if k then x <| reqLayers := l |> else x <| respLayers := l |>.

(** The sources that a layer owes a retry. *)
Definition waiters (l : Layer) : list nat := waitingForLayer l ++ option_list (waitingForPeer l).

(** A busy layer has its release scheduled; an idle layer has nobody waiting, unless
    its peer refused a packet and owes a retry. *)
Definition layer_ok (now : Tick) (l : Layer) : Prop :=
  NoDup (waiters l) ∧
  match state l with
  | IDLE => releaseEvent l = None ∧
            ((waitingForLayer l = [] ∧ waitingForPeer l = None) ∨ (isSome (waitingForPeer l) = true ∧ 0 < now))
  | BUSY => ∃ w, releaseEvent l = Some w ∧ now ≤ w ∧ 0 < w
  | RETRY => False
  end.
(** A layer that has sent a retry whose call has not returned. *)
Definition layer_mid (l : Layer) : Prop :=
  NoDup (waiters l) ∧ state l = RETRY ∧ releaseEvent l = None ∧ waitingForPeer l = None.

Section xbar.
Variables (clockPeriod : Tick) (defaultPortID : option nat) (useDefaultRange : bool).
Variables (frontendLatency forwardLatency responseLatency width us : Z).
Variable req : Packet → Z.

(** The port an address belongs to. *)
Definition route (a : Addr) (x : XBar) : option nat :=
  match List.find (λ e : AddrRange * nat, contains e.1 a) (portMap x) with
  | Some e => Some e.2
  | None => if negb useDefaultRange || contains (defaultRange x) a then defaultPortID else None
  end.

Definition cache_entry_ok (x : XBar) (c : PortCache) : Prop :=
  pc_valid c = true → (pc_range c, pc_id c) ∈ portMap x.
Definition cache_ok (x : XBar) : Prop :=
  let '(c0, c1, c2) := portCache x in cache_entry_ok x c0 ∧ cache_entry_ok x c1 ∧ cache_entry_ok x c2.

Lemma find_entry t a (e : AddrRange * nat) :
  tree_ok t → 0 ≤ a → e ∈ t → contains e.1 a = true → List.find (λ e : AddrRange * nat, contains e.1 a) t = Some e.
Proof.
  intros Ht Ha [i Hi]%list_elem_of_lookup_1 Hc. destruct (List.find _ t) as [e'|] eqn:E.
  - apply List.find_some in E as [Hin Hc']. apply list_elem_of_In, list_elem_of_lookup_1 in Hin as [j Hj].
    assert (i = j) as -> by (by apply (tree_unique t a i j e e')). congruence.
  - assert (In e t) as Hin by (by eapply list_elem_of_In, list_elem_of_lookup_2). by rewrite (List.find_none _ _ E e Hin) in Hc.
Qed.

Lemma find_no_entry (t : list (AddrRange * nat)) a :
  (∀ e, e ∈ t → contains e.1 a = false) → List.find (λ e : AddrRange * nat, contains e.1 a) t = None.
Proof.
  intros H. destruct (List.find _ t) as [e|] eqn:E; [|done]. apply List.find_some in E as [Hin Hc].
  by rewrite (H e) in Hc by (by apply list_elem_of_In).
Qed.

(** The cache does not change where an address goes. *)
Lemma findPort_ok a x m :
  tree_ok (portMap x) → cache_ok x → gotAllAddrRanges x = true → 0 ≤ a < 2 ^ 64 → route a x = Some m →
  ∃ pc, findPort defaultPortID useDefaultRange a x = Ok (m, x <| portCache := pc |>) ∧ cache_ok (x <| portCache := pc |>).
Proof.
  intros Ht Hc Hg Ha Hr. unfold findPort, route in *. rewrite assert_bind by done.
  destruct (portCache x) as [[c0 c1] c2] eqn:Epc.
  assert (∀ c, cache_entry_ok x c → pc_valid c && contains (pc_range c) a = true → pc_id c = m) as Hhit.
  { intros c Hok [Hv Hin]%andb_true_iff. by rewrite (find_entry _ _ _ Ht (proj1 Ha) (Hok Hv) Hin) in Hr; simplify_eq. }
  assert (∀ n, n = m → ∃ pc, Ok (n, x) = Ok (m, x <| portCache := pc |>) ∧ cache_ok (x <| portCache := pc |>)) as Hsame.
  { intros n ->. exists (portCache x). split; [by destruct x|]. unfold cache_ok in *. cbn. by rewrite Epc in *. }
  unfold cache_ok in Hc. rewrite Epc in Hc. destruct Hc as (Hc0 & Hc1 & Hc2). unfold checkPortCache. rewrite Epc.
  destruct (pc_valid c0 && _) eqn:E0; [by apply Hsame, Hhit|]. destruct (pc_valid c1 && _) eqn:E1; [by apply Hsame, Hhit|].
  destruct (pc_valid c2 && _) eqn:E2; [by apply Hsame, Hhit|].
  destruct (find_addr_ok _ a Ht Ha) as ([i|] & -> & Hf); cbn [mbind res_bind option_bind].
  - destruct Hf as (e & He & Hin & _). rewrite He. pose proof (list_elem_of_lookup_2 _ _ _ He) as Hel.
    rewrite (find_entry _ _ e Ht (proj1 Ha) Hel Hin) in Hr. simplify_eq. unfold updatePortCache. rewrite Epc.
    eexists. split; [reflexivity|]. unfold cache_ok. cbn. split_and!; [|done|done]. intros _. by destruct e.
  - rewrite (find_no_entry _ _ Hf) in Hr. destruct useDefaultRange, (contains (defaultRange x) a); cbn in Hr; try done; rewrite Hr; by apply Hsame.
Qed.

(** ** The invariant *)

(** [r] is the layer in the middle of a retry, if any. *)
Definition layer_status (now : Tick) (r : option (bool * nat)) (k : bool) (i : nat) (l : Layer) : Prop :=
  if decide (r = Some (k, i)) then layer_mid l else layer_ok now l.

Record xinv (now : Tick) (r : option (bool * nat)) (x : XBar) : Prop :=
  { x_now : 0 ≤ now;
    x_clock : clock_ok clockPeriod now (clk x);
    x_tree : tree_ok (portMap x);
    x_ids e : e ∈ portMap x → (e.2 < length (reqLayers x))%nat;
    x_default d : defaultPortID = Some d → (d < length (reqLayers x))%nat;
    x_got : gotAllAddrRanges x = true;
    x_cache : cache_ok x;
    x_layers k i l : layers k x !! i = Some l → layer_status now r k i l;
    x_resp i l : respLayers x !! i = Some l → waitingForPeer l = None;
    x_ports : length (respLayers x) = length (slavePorts x);
    x_queues i q : slavePorts x !! i = Some q → pq_ok now q;
    x_routes p s : routeTo x !! p = Some s → (s < length (slavePorts x))%nat }.

Definition after (r : option (bool * nat)) (k : bool) (i : nat) : option (bool * nat) :=
  if decide (r = Some (k, i)) then None else r.

Lemma put_layers_ok now r k i l l' x :
  xinv now r x → layers k x !! i = Some l → layer_ok now l' → (k = false → waitingForPeer l' = None) →
  xinv now (after r k i) (put_layers k (<[i := l']> (layers k x)) x).
Proof.
  intros H Hi Hl' Hp. pose proof (lookup_lt_Some _ _ _ Hi) as Hlt.
  assert (∀ k' j lj, layers k' (put_layers k (<[i := l']> (layers k x)) x) !! j = Some lj →
    layer_status now (after r k i) k' j lj) as Hlay.
  { intros k' j lj Hj. destruct (decide ((k', j) = (k, i))) as [E|Hne].
    - injection E as -> ->. assert (lj = l') as ->.
      { unfold put_layers, layers in Hj, Hlt. destruct k; cbn in Hj; rewrite list_lookup_insert_eq in Hj by done; congruence. }
      unfold layer_status, after. by repeat case_decide.
    - assert (layers k' x !! j = Some lj) as Hj'.
      { unfold put_layers, layers in *. destruct k, k'; cbn in Hj; try done; rewrite list_lookup_insert_ne in Hj by congruence; done. }
      pose proof (x_layers _ _ _ H _ _ _ Hj') as Hs. unfold layer_status, after in *. repeat case_decide; congruence || done. }
  assert (∀ j lj, respLayers (put_layers k (<[i := l']> (layers k x)) x) !! j = Some lj → waitingForPeer lj = None) as Hresp.
  { intros j lj. unfold put_layers, layers. destruct k; cbn; [apply (x_resp _ _ _ H)|].
    intros [(_ & -> & _)|[_ Hj]]%list_lookup_insert_Some; [by apply Hp|by eapply (x_resp _ _ _ H)]. }
  destruct H. unfold put_layers, layers in *. destruct k; split; cbn in *; rewrite ?length_insert; done.
Qed.

(** What the fields other than the layers may become. *)
Lemma xinv_frame now r x x' :
  xinv now r x → clock_ok clockPeriod now (clk x') → cache_ok x' → portMap x' = portMap x →
  gotAllAddrRanges x' = gotAllAddrRanges x → reqLayers x' = reqLayers x → respLayers x' = respLayers x →
  length (slavePorts x') = length (slavePorts x) → (∀ i q, slavePorts x' !! i = Some q → pq_ok now q) →
  (∀ p s, routeTo x' !! p = Some s → (s < length (slavePorts x))%nat) → xinv now r x'.
Proof.
  intros [] Hc Hca E1 E2 E3 E4 E5 Hq Hr. split; rewrite ?E1, ?E2, ?E3, ?E4, ?E5; try done.
  intros k i l. unfold layers. rewrite E3, E4. apply x_layers0.
Qed.
Lemma xinv_same now r x x' :
  xinv now r x → clock_ok clockPeriod now (clk x') → cache_ok x' → portMap x' = portMap x →
  gotAllAddrRanges x' = gotAllAddrRanges x → reqLayers x' = reqLayers x → respLayers x' = respLayers x →
  slavePorts x' = slavePorts x → routeTo x' = routeTo x → xinv now r x'.
Proof. intros H ? ? ? ? ? ? E1 E2. apply (xinv_frame now r x); try done; rewrite ?E1, ?E2; [done|apply H..]. Qed.

Lemma route_bound now r x a m : xinv now r x → route a x = Some m → (m < length (reqLayers x))%nat.
Proof.
  intros H. unfold route. destruct (List.find _ _) as [e|] eqn:E.
  - intros [= <-]. apply List.find_some in E as [Hin _]. by eapply (x_ids _ _ _ H), list_elem_of_In.
  - destruct (_ || _); [|done]. apply (x_default _ _ _ H).
Qed.

(** *** Layers *)

Lemma waiters_snoc l s : s ∉ waiters l → NoDup (waiters l) → NoDup (waiters (l <| waitingForLayer ::= λ w, w ++ [s] |>)).
Proof.
  intros Hs Hn. unfold waiters in *. cbn. rewrite <-app_assoc, (Permutation_app_comm [s]), app_assoc.
  apply NoDup_app. split_and!; [done|set_solver|apply NoDup_singleton].
Qed.

Lemma tryTiming_ok now r k i src l : layer_status now r k i l → src ∉ waiters l →
  (∃ l', tryTiming src l = Ok (false, l') ∧ layer_ok now l' ∧ r ≠ Some (k, i) ∧ waitingForPeer l' = waitingForPeer l) ∨
  (tryTiming src l = Ok (true, l <| state := BUSY |>) ∧ releaseEvent l = None ∧ waitingForPeer l = None ∧ NoDup (waiters l)).
Proof.
  intros Hl Hs. unfold tryTiming. destruct (in_state BUSY l || isSome (waitingForPeer l)) eqn:E.
  - left. rewrite assert_bind by (apply negb_true_iff, bool_decide_eq_false; unfold waiters in Hs; set_solver).
    eexists. split; [reflexivity|]. unfold layer_status in Hl. apply orb_true_iff in E. unfold in_state in E. rewrite bool_decide_eq_true in E.
    case_decide; [destruct Hl as (_ & E1 & _ & E2); rewrite E1, E2 in E; naive_solver|]. split_and!; [|done|done].
    destruct Hl as [Hn Hst]. split; [by apply waiters_snoc|]. cbn. destruct (state l); [|done..].
    destruct Hst as [He [[_ Hp]|Hp]]; [rewrite Hp in E; naive_solver|]. split; [done|by right].
  - right. apply orb_false_iff in E as [E1 E2]. unfold in_state in E1. apply bool_decide_eq_false in E1.
    assert (waitingForPeer l = None) as Hp by (by destruct (waitingForPeer l)). split; [done|].
    unfold layer_status in Hl. case_decide; [by destruct Hl as (? & _ & ? & _)|]. destruct Hl as [Hn Hst].
    destruct (state l); [by destruct Hst|done|done].
Qed.

Lemma layer_occupy_ok now until l : releaseEvent l = None → now ≤ until → 0 < until → NoDup (waiters l) →
  ∃ l', occupyLayer now until (l <| state := BUSY |>) = Ok l' ∧ layer_ok now l' ∧ waitingForPeer l' = waitingForPeer l.
Proof.
  intros He Hu Hp Hn. unfold occupyLayer, schedule. cbn. rewrite He, !assert_bind by (done || lia). cbn.
  eexists. split; [reflexivity|]. split; [|done]. split; [done|]. cbn. by exists until.
Qed.

Lemma succeeded_ok now until l : releaseEvent l = None → now ≤ until → 0 < until → NoDup (waiters l) →
  ∃ l', unit_of (succeededTiming now until (l <| state := BUSY |>)) = Ok (tt, l') ∧ layer_ok now l' ∧
    waitingForPeer l' = waitingForPeer l.
Proof.
  intros He Hu Hp Hn. unfold unit_of, succeededTiming. rewrite assert_bind by done.
  destruct (layer_occupy_ok now until l He Hu Hp Hn) as (l' & -> & H). by exists l'.
Qed.

Lemma failed_ok now src until l : releaseEvent l = None → now ≤ until → 0 < until → NoDup (waiters l) → waitingForPeer l = None →
  src ∉ waiters l → ∃ l', unit_of (failedTiming now src until (l <| state := BUSY |>)) = Ok (tt, l') ∧ layer_ok now l'.
Proof.
  intros He Hu Hp Hn Hw Hs. unfold unit_of, failedTiming. cbn. rewrite Hw, !assert_bind by done.
  destruct (layer_occupy_ok now until (l <| waitingForPeer := Some src |>)) as (l' & E & H & _); [done..| |].
  { unfold waiters in *. rewrite Hw in *. cbn in *. rewrite app_nil_r in *. apply NoDup_app. split_and!; [done|set_solver|apply NoDup_singleton]. }
  exists l'. cbn in E. by rewrite E.
Qed.

(** *** Requests *)

Hypothesis period_pos : 0 < clockPeriod.
Hypothesis latency_pos : 0 ≤ frontendLatency ∧ 0 ≤ forwardLatency ∧ 0 ≤ responseLatency.

(** A packet that is no express snoop and whose delays are within the limit of the
    crossbar. *)
Definition pkt_fits (p : Packet) : Prop :=
  0 ≤ headerDelay p ∧ 0 ≤ payloadDelay p ∧
  headerDelay p + clockPeriod + (frontendLatency + forwardLatency + responseLatency) * clockPeriod ≤ us ∧
  isExpressSnoop p = false.

Lemma xedge_ok now k x : clock_ok clockPeriod now (clk x) → 0 ≤ k →
  ∃ t c, edge clockPeriod now k x = (t, x <| clk := c |>) ∧ clock_ok clockPeriod now c ∧
    now + k * clockPeriod ≤ t ∧ t < now + (k + 1) * clockPeriod.
Proof.
  intros H Hk. unfold edge. destruct (clockEdge_ok _ period_pos now k (clk x) H) as (c & -> & Hc). eexists _, c.
  split; [done|]. split; [done|]. split; [by apply edge_late|]. pose proof (divCeil_spec now clockPeriod period_pos). cbn. nia.
Qed.

Lemma timing_ok now pkt d x : clock_ok clockPeriod now (clk x) → pkt_fits pkt →
  0 ≤ d ≤ (frontendLatency + forwardLatency + responseLatency) * clockPeriod →
  ∃ h p ck, calcPacketTiming clockPeriod width us now pkt d x =
      Ok (pkt <| headerDelay := h |> <| payloadDelay := p |>, x <| clk := ck |>) ∧
    clock_ok clockPeriod now ck ∧ 0 ≤ h ≤ us ∧ 0 ≤ p.
Proof.
  intros Hc (H1 & H2 & H3) Hd. unfold calcPacketTiming. destruct (xedge_ok now 0 x Hc) as (t & ck & -> & Hck & Ht1 & Ht2); [lia|].
  cbn [fst snd]. cbn [headerDelay set_field].
  match goal with |- context [us <? ?h] => set (hd := h); assert (0 ≤ hd ≤ us) as Hh by (subst hd; cbn; lia) end.
  rewrite (proj2 (Z.ltb_ge us hd)) by lia. exists hd. destruct (hasData _).
  - eexists _, ck. split; [reflexivity|]. split_and!; [done|lia|lia|]. cbn. lia.
  - exists (payloadDelay pkt), ck. split_and!; [|done|lia|lia|done]. subst hd. by destruct pkt.
Qed.

(** The frame of the requests: what routes addresses is left alone. *)
Definition same_routes (x x' : XBar) : Prop :=
  portMap x' = portMap x ∧ defaultRange x' = defaultRange x ∧ length (reqLayers x') = length (reqLayers x) ∧
  length (slavePorts x') = length (slavePorts x).
Lemma same_route x x' a : same_routes x x' → route a x' = route a x.
Proof. intros (E1 & E2 & _). unfold route. by rewrite E1, E2. Qed.

Definition expects (p : Packet) : bool := needsResponse (cmd p) && negb (memInhibit p).
Definition free (k : bool) (s : nat) (x : XBar) : Prop := ∀ i l, layers k x !! i = Some l → s ∉ waiters l.

Lemma on_layer_ok {A} k i l (f : Layer → res (A * Layer)) x a l' :
  layers k x !! i = Some l → f l = Ok (a, l') →
  on_layer (layers k) (put_layers k) i f x = Ok (a, put_layers k (<[i := l']> (layers k x)) x).
Proof. intros Hi E. unfold on_layer. by rewrite Hi, E. Qed.
Lemma on_req_ok {A} i l (f : Layer → res (A * Layer)) x a l' :
  reqLayers x !! i = Some l → f l = Ok (a, l') → on_req i f x = Ok (a, x <| reqLayers ::= <[i := l']> |>).
Proof. apply (on_layer_ok true). Qed.
Lemma on_resp_ok {A} i l (f : Layer → res (A * Layer)) x a l' :
  respLayers x !! i = Some l → f l = Ok (a, l') → on_resp i f x = Ok (a, x <| respLayers ::= <[i := l']> |>).
Proof. apply (on_layer_ok false). Qed.

(** The end of a request that was accepted: its route is kept and the layer is
    occupied. *)
Lemma req_taken_ok now r x1 x3 ck m l s (pkt : Packet) until sz (pk : Packet) :
  xinv now r x1 → reqLayers x1 !! m = Some l → releaseEvent l = None → NoDup (waiters l) → now ≤ until → 0 < until →
  x3 = x1 <| reqLayers ::= <[m := l <| state := BUSY |>]> |> <| clk := ck |> → clock_ok clockPeriod now ck →
  (s < length (slavePorts x1))%nat → (expects pkt = true → routeTo x1 !! req pkt = None) →
  ∃ x', (x ← (if needsResponse (cmd pkt) && negb (memInhibit pkt) then
                assert (bool_decide (routeTo x3 !! req pkt = None)) "routeTo.find(pkt->req) == routeTo.end()";;
                Ok (x3 <| routeTo ::= <[req pkt := s]> |>)
              else Ok x3);
         q ← on_req m (λ l, unit_of (succeededTiming now until l)) x;
         Ok (true, Some (m, pk), count_packet s m sz (cmdToIndex (cmd pkt)) q.2)) = Ok (true, Some (m, pk), x') ∧
    (∃ r', xinv now r' x' ∧ (r' = r ∨ r' = None)) ∧ same_routes x1 x' ∧
    routeTo x' = (if expects pkt then <[req pkt := s]> (routeTo x1) else routeTo x1).
Proof.
  intros H Hl He Hn Hu1 Hu2 E3 Hck Hs Hreq.
  assert (∃ y, (if needsResponse (cmd pkt) && negb (memInhibit pkt)
                then assert (bool_decide (routeTo x3 !! req pkt = None)) "routeTo.find(pkt->req) == routeTo.end()";;
                     Ok (x3 <| routeTo ::= <[req pkt := s]> |>) else Ok x3) = Ok y ∧
    y = x3 <| routeTo := if expects pkt then <[req pkt := s]> (routeTo x1) else routeTo x1 |>) as (y & -> & Ey).
  { fold (expects pkt). assert (routeTo x3 = routeTo x1) as Er by (by rewrite E3). destruct (expects pkt).
    - rewrite assert_bind by (apply bool_decide_eq_true; rewrite Er; by apply Hreq). eexists. split; [reflexivity|]. cbn. by rewrite Er.
    - exists x3. split; [done|]. rewrite <-Er. by destruct x3. }
  cbn [mbind res_bind]. destruct (succeeded_ok now until l He Hu1 Hu2 Hn) as (l' & El & Hl' & _).
  assert (reqLayers y !! m = Some (l <| state := BUSY |>)) as Hy.
  { rewrite Ey, E3. apply list_lookup_insert_eq. by eapply lookup_lt_Some. }
  rewrite (on_req_ok m _ _ y tt l' Hy El). cbn [mbind res_bind fst snd]. eexists. split; [reflexivity|].
  assert (reqLayers y = <[m := l <| state := BUSY |>]> (reqLayers x1)) as Ely by (by rewrite Ey, E3).
  split_and!; [|unfold same_routes; cbn; rewrite Ely, !length_insert; rewrite Ey, E3; done|by rewrite Ey].
  exists (after r true m). split; [|unfold after; case_decide; auto].
  apply (xinv_frame now _ _ _ (put_layers_ok now r true m l l' x1 H Hl Hl' ltac:(done))); cbn;
    rewrite ?Ely, ?list_insert_insert_eq, ?Ey, ?E3; try done; [apply H|apply H|].
  cbn. intros q s' Hq. destruct (expects pkt); [|by eapply (x_routes _ _ _ H)].
  apply lookup_insert_Some in Hq as [[_ <-]|[_ Hq]]; [done|by eapply (x_routes _ _ _ H)].
Qed.

Lemma req_ok now r a pkt s x m :
  xinv now r x → free true s x → (s < length (slavePorts x))%nat → pkt_fits pkt → 0 ≤ addr pkt < 2 ^ 64 →
  route (addr pkt) x = Some m → (expects pkt = true → routeTo x !! req pkt = None) → (a = false → memInhibit pkt = false) →
  ∃ b o x', recvTimingReq clockPeriod defaultPortID useDefaultRange frontendLatency forwardLatency width us req now a pkt s x =
              Ok (b, o, x') ∧
    (∃ r', xinv now r' x' ∧ (r' = r ∨ r' = None)) ∧ same_routes x x' ∧
    routeTo x' = (if b && expects pkt then <[req pkt := s]> (routeTo x) else routeTo x) ∧
    (b = true → ∃ h p, o = Some (m, pkt <| headerDelay := h |> <| payloadDelay := p |>)) ∧
    (b = false → ∀ e, o = Some e → ∃ d, e = (m, pkt <| payloadDelay := d |>)).
Proof.
  intros H Hfree Hs Hfit Haddr Hroute Hreq Hinh. unfold recvTimingReq. rewrite assert_bind by (destruct Hfit as (_ & _ & _ & ->); done).
  destruct (findPort_ok (addr pkt) x m) as (pc & -> & Hpc); try done; [apply H..|]. cbn [mbind res_bind fst snd].
  pose proof (route_bound _ _ _ _ _ H Hroute) as Hm. apply lookup_lt_is_Some_2 in Hm as [l Hl].
  pose proof (x_layers _ _ _ H true m l Hl) as Hst.
  set (x1 := x <| portCache := pc |>).
  assert (xinv now r x1) as H1 by (apply (xinv_same now r x); try done; apply H).
  destruct (tryTiming_ok now r true m s l Hst (Hfree m l Hl)) as [(l' & Et & Hl' & Hr & _)|(Et & He & Hp & Hn)];
    rewrite (on_req_ok m l (tryTiming s) x1 _ _ Hl Et); cbn [mbind res_bind fst snd negb].
  { eexists false, None, _. split; [reflexivity|]. split_and!; [|unfold same_routes; cbn; by rewrite length_insert|done|done|done].
    exists (after r true m). split; [by apply (put_layers_ok now r true m l l' x1)|]. left. unfold after. by case_decide. }
  set (x2 := x1 <| reqLayers ::= <[m := l <| state := BUSY |>]> |>).
  destruct (timing_ok now pkt ((frontendLatency + forwardLatency) * clockPeriod) x2) as (h & p & ck & -> & Hck & Hh & Hp0);
    [apply H|done|nia|]. cbn [mbind res_bind fst snd].
  destruct (xedge_ok now 1 (x2 <| clk := ck |>)) as (t & ck1 & -> & Hck1 & Ht & _); [exact Hck|lia|]. cbn [fst snd].
  pose proof (x_now _ _ _ H). destruct a; cbn [negb].
  - destruct (req_taken_ok now r x1 (x2 <| clk := ck |> <| clk := ck1 |>) ck1 m l s pkt (t + p)
      (if hasData (cmd pkt) then Packet.size pkt else 0) (pkt <| headerDelay := h |> <| payloadDelay := p |>))
      as (x' & E & Hx' & Hsame & Hrt); try done; [lia|lia|].
    exists true, (Some (m, pkt <| headerDelay := h |> <| payloadDelay := p |>)), x'. split; [exact E|].
    split_and!; [done|exact Hsame|done|intros _; by exists h, p|done].
  - rewrite assert_bind by (cbn; by rewrite Hinh). set (x3 := x2 <| clk := ck |> <| clk := ck1 |>).
    destruct (xedge_ok now 1 x3) as (t2 & ck2 & -> & Hck2 & Ht2 & _); [exact Hck1|lia|]. cbn [fst snd].
    destruct (failed_ok now s t2 l) as (l' & El & Hl'); [done|lia|lia|done|done|by apply (Hfree m)|].
    assert (reqLayers (x3 <| clk := ck2 |>) !! m = Some (l <| state := BUSY |>)) as Hy.
    { apply list_lookup_insert_eq. by eapply lookup_lt_Some. }
    rewrite (on_req_ok m _ _ _ tt l' Hy El). cbn [mbind res_bind fst snd]. eexists false, _, _. split; [reflexivity|].
    split_and!; [|unfold same_routes; cbn; by rewrite !length_insert|done|done|intros _ e [= <-]; exists p; by destruct pkt].
    exists (after r true m). split; [|unfold after; case_decide; auto].
    apply (xinv_same now _ _ _ (put_layers_ok now r true m l l' x1 H1 Hl Hl' ltac:(done))); cbn; try done.
    by rewrite list_insert_insert_eq.
Qed.

(** *** Responses *)

Lemma resp_ok now r dr pkt m x s :
  xinv now r x → free false m x → pkt_fits pkt → routeTo x !! req pkt = Some s → now + us < MaxTick →
  (∀ q, slavePorts x !! s = Some q → Z.of_nat (length (transmitList q)) ≤ 1000) →
  ∃ o x', recvTimingResp clockPeriod responseLatency width us req now dr pkt m x = Ok (o, x') ∧
    (∃ r', xinv now r' x' ∧ (r' = r ∨ r' = None)) ∧ same_routes x x' ∧
    match o with
    | Some (s', p) => s' = s ∧ routeTo x' = delete (req pkt) (routeTo x) ∧
        ∃ d, p = pkt <| headerDelay := 0 |> <| payloadDelay := d |>
    | None => routeTo x' = routeTo x
    end.
Proof.
  intros H Hfree Hfit Hs Hmax Hlen. unfold recvTimingResp. rewrite Hs. pose proof (x_routes _ _ _ H _ _ Hs) as Hlt.
  pose proof Hlt as Hlt'. rewrite <-(x_ports _ _ _ H) in Hlt'. rewrite assert_bind by (by apply bool_decide_eq_true).
  apply lookup_lt_is_Some_2 in Hlt' as [l Hl]. pose proof (x_layers _ _ _ H false s l Hl) as Hst.
  destruct (tryTiming_ok now r false s m l Hst (Hfree s l Hl)) as [(l' & Et & Hl' & Hr & Hpe)|(Et & He & Hp & Hn)];
    rewrite (on_resp_ok s l (tryTiming m) x _ _ Hl Et); cbn [mbind res_bind fst snd negb].
  { eexists None, _. split; [reflexivity|]. split_and!; [|done|done]. exists (after r false s).
    split; [|left; unfold after; by case_decide]. apply (put_layers_ok now r false s l l' x H Hl Hl'). intros _. rewrite Hpe. by eapply (x_resp _ _ _ H). }
  set (x2 := x <| respLayers ::= <[s := l <| state := BUSY |>]> |>).
  destruct (timing_ok now pkt (responseLatency * clockPeriod) x2) as (h & p & ck & Eck & Hck & Hh & Hp0); [apply H|done|nia|].
  rewrite Eck. cbn [mbind res_bind fst snd].
  destruct (xedge_ok now 1 (x2 <| clk := ck |>)) as (t & ck1 & -> & Hck1 & Ht & _); [exact Hck|lia|]. cbn [fst snd].
  set (x3 := x2 <| clk := ck |> <| clk := ck1 |>). apply lookup_lt_is_Some_2 in Hlt as [q Hq].
  change (slavePorts x3) with (slavePorts x). rewrite Hq. pose proof (x_now _ _ _ H).
  set (pkt' := pkt <| headerDelay := h |> <| payloadDelay := p |> <| headerDelay := 0 |>).
  destruct (schedSendTiming_ok now dr pkt' (now + h) false q) as (q' & t' & Eq & Hq' & _); [by eapply (x_queues _ _ _ H)|lia|by apply Hlen|apply Hfit|].
  change (headerDelay (pkt <| headerDelay := h |> <| payloadDelay := p |>)) with h.
  change (payloadDelay (pkt <| headerDelay := h |> <| payloadDelay := p |>)) with p.
  rewrite Eq. cbn [mbind res_bind fst snd].
  destruct (succeeded_ok now (t + p) l) as (l' & El & Hl' & Hpe); [done|lia|lia|done|].
  set (y := x3 <| slavePorts ::= <[s := q']> |> <| routeTo ::= delete (req pkt) |>).
  assert (respLayers y !! s = Some (l <| state := BUSY |>)) as Hy.
  { apply list_lookup_insert_eq. by eapply lookup_lt_Some. }
  rewrite (on_resp_ok s _ _ y tt l' Hy El). cbn [mbind res_bind fst snd]. eexists (Some _), _. split; [reflexivity|].
  split_and!; [|unfold same_routes; cbn; by rewrite !length_insert|done|done|by exists p].
  exists (after r false s). split; [|unfold after; case_decide; auto].
  apply (xinv_frame now _ _ _ (put_layers_ok now r false s l l' x H Hl Hl' ltac:(intros _; by rewrite Hpe))); cbn; try done.
  - apply H.
  - by rewrite list_insert_insert_eq.
  - by rewrite length_insert.
  - intros i qi [(_ & -> & _)|[_ Hi]]%list_lookup_insert_Some; [done|by eapply (x_queues _ _ _ H)].
  - intros k s' Hk. apply lookup_delete_Some in Hk as [_ Hk]. by eapply (x_routes _ _ _ H).
Qed.
End xbar.
End XBarProofs.
