(* ===== verification/XBarRoute.v ===== *)
(** * The routes of a crossbar

    Ports announce the ranges of what is behind them, once or again with other
    ranges, and addresses are looked up in between: the map of the ports holds what
    was announced last, the cache never sends an address to a port that gave it up,
    and the ranges the crossbar announces itself are the addresses it routes. *)

From S2P Require Import Prelude Intmath Packet DramTypes PacketQueue Clock AddrRange AddrRangeMap XBar XBarProofs.
Import Intmath Packet PacketQueue Clock AddrRange AddrRangeMap XBar XBarProofs.

Module XBarRoute.

Inductive rop : Type := Announce (id : nat) (rs : list AddrRange) | Ask (a : Addr).

Section route.
Variables (defaultPortID : option nat) (useDefaultRange : bool).
Let find_port := findPort defaultPortID useDefaultRange.
Let dest := route defaultPortID useDefaultRange.

(** An announcement, or the lookup of an address that has a destination. *)
Definition r_step (x : XBar) (op : rop) : res XBar :=
  match op with
  | Announce id rs => recvRangeChange defaultPortID useDefaultRange id rs x
  | Ask a =>
      if gotAllAddrRanges x && (0 <=? a) && (a <? 2 ^ 64) && isSome (dest a x)
      then r ← find_port a x; Ok r.2 else Ok x
  end.

(** The entries that are announced: a port other than the default replaces its own. *)
Definition next (t : list (AddrRange * nat)) (op : rop) : list (AddrRange * nat) :=
  match op with
  | Announce id rs =>
      if decide (defaultPortID = Some id) then t
      else List.filter (λ e : AddrRange * nat, negb (bool_decide (e.2 = id))) t ++ ((λ r, (r, id)) <$> rs)
  | Ask _ => t
  end.
Definition announced (ops : list rop) : list (AddrRange * nat) := foldl next [] ops.

(** The announcements are of ports of the crossbar; the ranges announced at any time
    are apart, and the default range is not interleaved. *)
Definition op_ok (masters : nat) (t : list (AddrRange * nat)) (op : rop) : Prop :=
  match op with
  | Announce id rs =>
      (id < masters)%nat ∧ disjoint (next t op) ∧
      (defaultPortID = Some id → ∀ r, r ∈ rs → interleaved r = false)
  | Ask _ => True
  end.
Fixpoint ops_ok (masters : nat) (t : list (AddrRange * nat)) (ops : list rop) : Prop :=
  match ops with [] => True | op :: ops => op_ok masters t op ∧ ops_ok masters (next t op) ops end.

(** ** The ranges of the crossbar *)

Definition in_default (x : XBar) (a : Addr) : Prop := useDefaultRange = true ∧ contains (defaultRange x) a = true.

Lemma plain_contains r a : interleaved r = false → contains r a = true ↔ start r ≤ a ≤ stop r.
Proof. intros H. unfold contains. rewrite H. cbn. rewrite andb_true_iff, !Z.leb_le. done. Qed.

Lemma keep_range_ok x r l a : keep_range useDefaultRange x r = Ok l → interleaved (defaultRange x) = false →
  covers l a ∨ in_default x a ↔ contains r a = true ∨ in_default x a.
Proof.
  unfold keep_range, in_default. intros E Hd. destruct useDefaultRange.
  - apply bind_ok in E as (s & E & [= <-]). unfold isSubset in E. destruct (interleaved r) eqn:Hr; [done|]. injection E as E.
    destruct s; rewrite ?covers_cons, ?covers_nil; [|tauto]. apply andb_true_iff in E as [E1 E2].
    rewrite (plain_contains r a Hr), (plain_contains (defaultRange x) a Hd). split; [tauto|]. intros [H|H]; [|tauto]. right. split; [done|lia].
  - injection E as <-. rewrite covers_cons, covers_nil. tauto.
Qed.

Lemma announce_close_ok x ranges l a :
  (if decide (ranges = []) then Ok [] else merged ← merge_ranges ranges; keep_range useDefaultRange x merged) = Ok l →
  (∀ r, r ∈ ranges → range_ok r) → interleaved (defaultRange x) = false → 0 ≤ a →
  covers l a ∨ in_default x a ↔ covers ranges a ∨ in_default x a.
Proof.
  intros E Hok Hd Ha. case_decide as E0; [by simplify_eq|]. apply bind_ok in E as (m & Em & E).
  by rewrite (keep_range_ok x m l a E Hd), (merge_covers ranges m a).
Qed.

Lemma or_default (P Q P' Q' D : Prop) : (P ∨ D ↔ P' ∨ D) → (Q ∨ D ↔ Q' ∨ D) → (P ∨ Q) ∨ D ↔ (P' ∨ Q') ∨ D.
Proof. intros [? ?] [? ?]. split; intros [[?|?]|?]; tauto. Qed.

Lemma aggregate_ok x t ranges l a :
  aggregate useDefaultRange x t ranges = Ok l → (∀ e, e ∈ t → range_ok e.1) → (∀ r, r ∈ ranges → range_ok r) →
  interleaved (defaultRange x) = false → 0 ≤ a →
  covers l a ∨ in_default x a ↔ covers (ranges ++ t.*1) a ∨ in_default x a.
Proof.
  intros E Ht Hr Hd Ha. revert ranges l E Hr. induction t as [|[r m] t IH]; intros ranges l E Hr; cbn [aggregate] in E.
  { rewrite app_nil_r. by apply announce_close_ok. }
  specialize (IH ltac:(intros; apply Ht; by right)). assert (range_ok r) as Hok by (apply (Ht (r, m)); left).
  rewrite covers_app. cbn [fmap list_fmap fst]. rewrite covers_cons. destruct (interleaved r).
  - destruct (match last ranges with Some b => _ | None => _ end).
    + apply bind_ok in E as (l1 & E1 & E). apply bind_ok in E as (l2 & E2 & E). injection E as <-.
      pose proof (announce_close_ok x ranges l1 a E1 Hr Hd Ha) as H1. pose proof (IH [r] l2 E2 ltac:(by intros r' ->%list_elem_of_singleton)) as H2.
      cbn [app] in H2. rewrite covers_cons in H2. rewrite covers_app. by apply or_default.
    + rewrite (IH _ _ E), !covers_app, covers_cons, covers_nil by (clear -Hr Hok; set_solver). clear. tauto.
  - apply bind_ok in E as (l1 & E1 & E). apply bind_ok in E as (l2 & E2 & E). injection E as <-.
    pose proof (keep_range_ok x r l1 a E1 Hd) as H1. pose proof (IH _ _ E2 Hr) as H2. rewrite covers_app in H2 |- *.
    rewrite (or_default _ _ _ _ _ H1 H2). clear. tauto.
Qed.

(** ** Announcements *)

Lemma filter_tree {V} (f : AddrRange * V → bool) t : tree_ok t → tree_ok (List.filter f t).
Proof.
  intros [Hr Hs]. assert (∀ x, x ∈ List.filter f t → x ∈ t) as Hin.
  { intros x. rewrite !list_elem_of_In, List.filter_In. tauto. }
  split; [intros x Hx; by apply Hr, Hin|]. clear Hr Hin. induction Hs as [|x t _ IH Hx]; cbn; [constructor|].
  destruct (f x); [|done]. constructor; [done|]. rewrite Forall_forall in Hx |- *. intros y Hy. apply Hx.
  rewrite list_elem_of_In, List.filter_In, <-list_elem_of_In in Hy. tauto.
Qed.

Lemma range_filter_perm {A} (f : A → bool) l l' : l ≡ₚ l' → List.filter f l ≡ₚ List.filter f l'.
Proof.
  induction 1 as [|x l l' _ IH|x y l|l1 l2 l3 _ IH1 _ IH2]; cbn; [done| | |by etrans].
  - destruct (f x); [by constructor|done].
  - destruct (f x), (f y); [constructor|done..].
Qed.

Lemma add_ranges_ok id rs t : tree_ok t → disjoint (t ++ ((λ r, (r, id)) <$> rs)) →
  ∃ t', add_ranges id rs t = Ok t' ∧ tree_ok t' ∧ t' ≡ₚ t ++ ((λ r, (r, id)) <$> rs).
Proof.
  intros Ht Hd. destruct (adds_ok t _ Ht Hd) as (t' & E & Ht' & Hp). exists t'. split_and!; [|done..]. clear -E.
  revert t E. induction rs as [|r rs IH]; intros t E; [done|]. cbn [fmap list_fmap foldM] in E. apply bind_ok in E as (t1 & Ea & E).
  unfold add in Ea. cbn in Ea. cbn [add_ranges]. destruct (AddrRangeMap.insert r id t) as [[[i|] t2]|]; [|done..]. cbn in Ea |- *.
  injection Ea as ->. by apply IH.
Qed.

(** The state after some announcements and lookups. *)
Record rinv (masters slaves : nat) (t : list (AddrRange * nat)) (x : XBar) : Prop :=
  { ri_tree : tree_ok (portMap x);
    ri_entries : portMap x ≡ₚ t;
    ri_ids e : e ∈ t → (e.2 < masters)%nat;
    ri_cache : cache_ok x;
    ri_default : interleaved (defaultRange x) = false;
    ri_ranges : gotAllAddrRanges x = true →
      ∀ a, 0 ≤ a → covers (xbarRanges x) a ↔ covers (portMap x).*1 a ∨ in_default x a;
    ri_rest : clk x = new_clock ∧ routeTo x = ∅ ∧ reqLayers x = replicate masters new_layer ∧
      respLayers x = replicate slaves new_layer ∧ slavePorts x = replicate slaves new_packet_queue }.

(** The last part of [recvRangeChange]. *)
Lemma finish_ranges_ok masters slaves t x x' :
  tree_ok (portMap x) → portMap x ≡ₚ t → (∀ e, e ∈ t → (e.2 < masters)%nat) → interleaved (defaultRange x) = false →
  clk x = new_clock ∧ routeTo x = ∅ ∧ reqLayers x = replicate masters new_layer ∧
    respLayers x = replicate slaves new_layer ∧ slavePorts x = replicate slaves new_packet_queue →
  (x ← (if gotAllAddrRanges x then
          (if useDefaultRange then
             match defaultPortID ≫= (gotAddrRanges x !!.) with
             | Some true => Ok tt
             | Some false => Fault (Fatal "Crossbar uses default range, but none provided")
             | None => Fault (Panic "no default port")
             end
           else Ok tt);;
          l ← aggregate useDefaultRange x (portMap x) [];
          let l := (if useDefaultRange then [defaultRange x] else []) ++ l in
          (if useDefaultRange then check_default (defaultRange x) l else Ok tt);;
          Ok (x <| xbarRanges := l |>)
        else Ok x);
   Ok (clearPortCache x)) = Ok x' → rinv masters slaves t x'.
Proof.
  intros Ht Hp Hids Hd Hrest E. apply bind_ok in E as (x1 & E & [= <-]).
  assert (∃ l, x1 = x <| xbarRanges := l |> ∧ (gotAllAddrRanges x = true →
    ∀ a, 0 ≤ a → covers l a ↔ covers (portMap x).*1 a ∨ in_default x a)) as (l & -> & Hl).
  { destruct (gotAllAddrRanges x); [|injection E as <-; exists (xbarRanges x); by destruct x].
    apply bind_ok in E as ([] & _ & E). apply bind_ok in E as (l & El & E). apply bind_ok in E as ([] & _ & [= <-]).
    eexists. split; [reflexivity|]. intros _ a Ha. pose proof (aggregate_ok x _ [] l a El) as Hagg. cbn [app] in Hagg.
    rewrite covers_app, <-Hagg; [|intros e He; by apply (tree_ranges _ Ht)|set_solver|done|done].
    unfold in_default. destruct useDefaultRange; rewrite ?covers_cons, covers_nil; intuition congruence. }
  unfold clearPortCache. cbn [portCache set_field]. destruct (portCache x) as [[c0 c1] c2].
  split; cbn; try done.
Qed.

Lemma announce_ok masters slaves t x id rs x' : rinv masters slaves t x → op_ok masters t (Announce id rs) →
  recvRangeChange defaultPortID useDefaultRange id rs x = Ok x' → rinv masters slaves (next t (Announce id rs)) x'.
Proof.
  intros [Ht Hp Hids Hc Hd Hr Hrest] (Hid & Hdis & Hdef) E. unfold recvRangeChange in E.
  set (x1 := x <| gotAddrRanges ::= <[id := true]> |>) in E.
  set (x2 := if gotAllAddrRanges x1 then x1 else _) in E.
  assert (∃ g h, x2 = x <| gotAddrRanges := g |> <| gotAllAddrRanges := h |>) as (g & h & E2).
  { unfold x2. destruct (gotAllAddrRanges x1) eqn:Eg; [|by eexists _, _].
    exists (<[id := true]> (gotAddrRanges x)), (gotAllAddrRanges x). by destruct x. }
  clearbody x2. clear x1. subst x2. cbv zeta in E. apply bind_ok in E as (x3 & E3 & E). cbn [next] in *.
  destruct (decide (defaultPortID = Some id)) as [Ed|Ed].
  - rewrite bool_decide_eq_true_2 in E3 by done. assert (∃ d, x3 = x <| gotAddrRanges := g |> <| gotAllAddrRanges := h |> <| defaultRange := d |> ∧ interleaved d = false)
      as (d & -> & Hd').
    { destruct useDefaultRange; [|injection E3 as <-; exists (defaultRange x); by destruct x].
      destruct rs as [|r [|]]; [done| |done]. injection E3 as <-. exists r. split; [done|]. apply (Hdef Ed). left. }
    by apply (finish_ranges_ok masters slaves t) in E.
  - rewrite bool_decide_eq_false_2 in E3 by done. cbn [portMap set_field] in E3.
    assert (Hpf : List.filter (λ e : AddrRange * nat, negb (bool_decide (e.2 = id))) (portMap x) ≡ₚ
      List.filter (λ e : AddrRange * nat, negb (bool_decide (e.2 = id))) t) by (by apply range_filter_perm).
    destruct (add_ranges_ok id rs (List.filter (λ e : AddrRange * nat, negb (bool_decide (e.2 = id))) (portMap x))) as (t' & Et & Ht' & Hp');
      [by apply filter_tree|eapply disjoint_perm; [|exact Hdis]; by rewrite Hpf|].
    rewrite Et in E3. injection E3 as <-. apply (finish_ranges_ok masters slaves) with (t := List.filter (λ e : AddrRange * nat, negb (bool_decide (e.2 = id))) t ++ ((λ r, (r, id)) <$> rs)) in E; try done.
    + cbn. by rewrite Hp', Hpf.
    + intros e [He|He]%elem_of_app.
      * apply Hids. rewrite list_elem_of_In, List.filter_In, <-list_elem_of_In in He. tauto.
      * by apply list_elem_of_fmap in He as (r & -> & _).
Qed.

Lemma r_step_ok masters slaves t x op x' : rinv masters slaves t x → op_ok masters t op → r_step x op = Ok x' →
  rinv masters slaves (next t op) x'.
Proof.
  intros H Hop E. destruct op as [id rs|a]; [by eapply announce_ok|]. cbn in E |- *.
  destruct (_ && _ && _ && _) eqn:Eg; [|by simplify_eq]. rewrite !andb_true_iff in Eg. destruct Eg as [[[Hg Ha1] Ha2] Hm].
  destruct (dest a x) as [m|] eqn:Em; [|done].
  destruct (findPort_ok defaultPortID useDefaultRange a x m) as (pc & Ef & Hpc); [apply H|apply H|done|lia|done|].
  unfold find_port in E. rewrite Ef in E. injection E as <-. destruct H. by split.
Qed.

Lemma r_run_ok masters slaves ops t x x' : rinv masters slaves t x → ops_ok masters t ops →
  foldM r_step x ops = Ok x' → rinv masters slaves (foldl next t ops) x'.
Proof.
  revert t x. induction ops as [|op ops IH]; intros t x H Ho E; [by injection E as <-|]. destruct Ho as [Hop Ho].
  cbn in E. apply bind_ok in E as (x1 & E1 & E). apply (IH (next t op) x1); [by eapply r_step_ok|done..].
Qed.

Lemma new_xbar_ok masters slaves : rinv masters slaves [] (new_xbar masters slaves).
Proof.
  split; cbn; try done; [split; [by intros x ?%elem_of_nil|constructor]|by intros e ?%elem_of_nil].
Qed.

(** ** Announcements that succeed *)

Definition plain_op (op : rop) : Prop :=
  match op with Announce _ rs => ∀ r, r ∈ rs → interleaved r = false | Ask _ => True end.

Lemma aggregate_plain x t : useDefaultRange = false → (∀ e, e ∈ t → interleaved e.1 = false) →
  ∃ l, aggregate useDefaultRange x t [] = Ok l.
Proof.
  intros Hu. induction t as [|[r m] t IH]; intros Ht; [by exists []|]. cbn [aggregate].
  assert (interleaved r = false) as -> by (apply (Ht (r, m)); left). unfold keep_range at 1. rewrite Hu. cbn [mbind res_bind]. rewrite <-Hu.
  destruct IH as (l & ->); [intros; apply Ht; by right|]. by eexists.
Qed.

Lemma announce_plain masters slaves t x id rs : useDefaultRange = false → rinv masters slaves t x →
  op_ok masters t (Announce id rs) → (∀ e, e ∈ next t (Announce id rs) → interleaved e.1 = false) →
  ∃ x', recvRangeChange defaultPortID useDefaultRange id rs x = Ok x'.
Proof.
  intros Hu [Ht Hp _ _ _ _ _] (_ & Hdis & _) Hpl. unfold recvRangeChange.
  set (x1 := x <| gotAddrRanges ::= <[id := true]> |>). set (x2 := if gotAllAddrRanges x1 then x1 else _).
  assert (portMap x2 = portMap x) as Em by (unfold x2; by destruct (gotAllAddrRanges x1)).
  clearbody x2. clear x1. cbv zeta. cbn [next] in *.
  match goal with |- ∃ x', (y ← ?m; _) = _ => assert (∃ x3, m = Ok x3 ∧ ∀ e, e ∈ portMap x3 → interleaved e.1 = false) as (x3 & -> & H3) end.
  { case_bool_decide as Ed; [rewrite decide_True in Hpl by done|rewrite decide_False in Hdis, Hpl by done].
    { rewrite Hu. exists x2. split; [done|]. rewrite Em. intros e He. apply Hpl. by rewrite <-Hp. }
    destruct (add_ranges_ok id rs (List.filter (λ e : AddrRange * nat, negb (bool_decide (e.2 = id))) (portMap x2))) as (t' & -> & _ & Hp').
    - rewrite Em. by apply filter_tree.
    - eapply disjoint_perm; [|exact Hdis]. by rewrite Em, (range_filter_perm _ _ _ Hp).
    - eexists. split; [reflexivity|]. cbn. intros e He. apply Hpl. by rewrite <-(range_filter_perm _ _ _ Hp), <-Em, <-Hp'. }
  cbn [mbind res_bind]. destruct (gotAllAddrRanges x3); [|by eexists].
  destruct (aggregate_plain x3 (portMap x3) Hu H3) as (l & ->). rewrite Hu. cbn [mbind res_bind]. by eexists.
Qed.

Lemma plain_run masters slaves ops t x : useDefaultRange = false → rinv masters slaves t x → ops_ok masters t ops →
  (∀ e, e ∈ t → interleaved e.1 = false) → Forall plain_op ops → ∃ x', foldM r_step x ops = Ok x'.
Proof.
  intros Hu H Ho Ht Hf. revert t x H Ho Ht. induction Hf as [|op ops Hop _ IH]; intros t x H Ho Ht; [by exists x|].
  destruct Ho as [Ho1 Ho]. assert (∀ e, e ∈ next t op → interleaved e.1 = false) as Hn.
  { destruct op as [id rs|a]; [|done]. cbn. case_decide; [done|]. intros e [He|He]%elem_of_app.
    - apply Ht. rewrite list_elem_of_In, List.filter_In, <-list_elem_of_In in He. tauto.
    - apply list_elem_of_fmap in He as (r & -> & Hr). by apply Hop. }
  assert (∃ x1, r_step x op = Ok x1) as (x1 & E1).
  { destruct op as [id rs|a]; [by eapply announce_plain|]. cbn.
    destruct (_ && _ && _ && _) eqn:Eg; [|by eexists]. rewrite !andb_true_iff in Eg. destruct Eg as [[[Hg Ha1] Ha2] Hm].
    destruct (dest a x) as [m|] eqn:Em; [|done]. unfold find_port.
    destruct (findPort_ok defaultPortID useDefaultRange a x m) as (pc & -> & _); [apply H|apply H|done|lia|done|]. by eexists. }
  cbn. rewrite E1. cbn. apply (IH (next t op) x1); [by eapply r_step_ok|done..].
Qed.

(** An address of no port. *)
Lemma findPort_none masters slaves t x a d : rinv masters slaves t x → gotAllAddrRanges x = true → 0 ≤ a < 2 ^ 64 →
  (∀ e, e ∈ t → contains e.1 a = false) → defaultPortID = Some d →
  find_port a x = if negb useDefaultRange || contains (defaultRange x) a then Ok (d, x)
                  else Fault (Fatal "Unable to find destination").
Proof.
  intros H Hg Ha Hno Hd. assert (∀ e, e ∈ portMap x → contains e.1 a = false) as Hno'.
  { intros e. rewrite (ri_entries _ _ _ _ H). apply Hno. }
  unfold find_port, findPort. rewrite assert_bind by done. pose proof (ri_cache _ _ _ _ H) as Hc.
  unfold cache_ok in Hc. unfold checkPortCache. destruct (portCache x) as [[c0 c1] c2].
  assert (∀ c, cache_entry_ok x c → pc_valid c && contains (pc_range c) a = false) as Hmiss.
  { intros c Hce. apply andb_false_iff. destruct (pc_valid c) eqn:Ev; [right|by left]. by apply (Hno' (pc_range c, pc_id c)), Hce. }
  destruct Hc as (Hc0 & Hc1 & Hc2). rewrite !Hmiss by done.
  destruct (find_addr_ok _ a (ri_tree _ _ _ _ H) Ha) as ([i|] & -> & Hf).
  - destruct Hf as (e & He & Hin & _). rewrite (Hno' e) in Hin; [done|by eapply list_elem_of_lookup_2].
  - cbn. rewrite Hd. by destruct useDefaultRange, (contains _ _).
Qed.

(** C38: announcements of ranges that are apart and not interleaved succeed, also of
    ports that change their ranges and with lookups in between; after any sequence
    that succeeds, an address goes to the port that last announced it,
    whatever the cache of ports held; an address of no port goes to the default
    port, if the default range is not used or contains it; and the ranges the
    crossbar announces itself are exactly the addresses that are announced to it. *)
Theorem xbar_routes masters slaves ops :
  ops_ok masters [] ops →
  (useDefaultRange = false → Forall plain_op ops → ∃ x, foldM r_step (new_xbar masters slaves) ops = Ok x) ∧
  ∀ x a, foldM r_step (new_xbar masters slaves) ops = Ok x → gotAllAddrRanges x = true → 0 ≤ a < 2 ^ 64 →
  (∀ e, e ∈ announced ops → contains e.1 a = true → ∃ x', findPort defaultPortID useDefaultRange a x = Ok (e.2, x')) ∧
  (∀ d, (∀ e, e ∈ announced ops → contains e.1 a = false) → defaultPortID = Some d →
     findPort defaultPortID useDefaultRange a x =
       if negb useDefaultRange || contains (defaultRange x) a then Ok (d, x)
       else Fault (Fatal "Unable to find destination")) ∧
  ∃ rs, getAddrRanges x = Ok rs ∧ (covers rs a ↔ covers (announced ops).*1 a ∨ in_default x a).
Proof.
  intros Ho. split.
  { intros Hu Hf. apply (plain_run masters slaves ops []); try done; [apply new_xbar_ok|by intros e ?%elem_of_nil]. }
  intros x a E Hg Ha. pose proof (r_run_ok masters slaves ops [] _ _ (new_xbar_ok masters slaves) Ho E) as H. split_and!.
  - intros e He Hc. rewrite <-(ri_entries _ _ _ _ H) in He.
    destruct (findPort_ok defaultPortID useDefaultRange a x e.2) as (pc & Ef & _); [apply H|apply H|done|done| |by eexists].
    unfold route. by rewrite (find_entry _ a e (ri_tree _ _ _ _ H) (proj1 Ha) He Hc).
  - intros d Hno Hd. by eapply findPort_none.
  - exists (xbarRanges x). unfold getAddrRanges. rewrite assert_bind by done. split; [done|].
    rewrite (ri_ranges _ _ _ _ H Hg a (proj1 Ha)). assert (covers (portMap x).*1 a ↔ covers (announced ops).*1 a) as ->; [|done].
    unfold covers. by setoid_rewrite (ri_entries _ _ _ _ H).
Qed.
End route.

(** A memory that moves: its old addresses go to the default port, although they were
    looked up before. *)
Definition ex_routes : list rop :=
  [Announce 0 [plain_range 0 0xfff]; Announce 1 [plain_range 0x2000 0x2fff]; Announce 2 []; Ask 0x10; Ask 0x2010;
   Announce 0 [plain_range 0x4000 0x4fff]].

(** One plain range, and two, the first before the second. *)
Lemma plain_alone a b (i : nat) : 0 ≤ a ≤ b → b < 2 ^ 64 → disjoint [(plain_range a b, i)].
Proof.
  intros H1 H2. split; [|intros [|k] [|l] y z Hne Hk Hl; done].
  intros e ->%list_elem_of_singleton. split_and!; (split; cbn; lia) || by intros.
Qed.
Lemma plain_disjoint a b c d (i j : nat) : 0 ≤ a ≤ b → b < c → c ≤ d < 2 ^ 64 →
  disjoint [(plain_range a b, i); (plain_range c d, j)].
Proof.
  intros H1 H2 H3. split.
  - intros e [->|[->|He%elem_of_nil]%elem_of_cons]%elem_of_cons; [..|done]; split_and!; (split; cbn; lia) || by intros.
  - intros k l y z Hne Hk Hl. destruct k as [|[|k]], l as [|[|l]]; cbn in Hk, Hl; simplify_eq; try done; unfold apart; cbn; lia.
Qed.

Lemma ex_routes_ok : ops_ok (Some 2%nat) 3 [] ex_routes.
Proof.
  pose proof (plain_alone 0 0xfff 0 ltac:(lia) ltac:(lia)) as D1.
  pose proof (plain_disjoint 0 0xfff 0x2000 0x2fff 0 1 ltac:(lia) ltac:(lia) ltac:(lia)) as D2.
  pose proof (plain_disjoint 0x2000 0x2fff 0x4000 0x4fff 1 0 ltac:(lia) ltac:(lia) ltac:(lia)) as D3.
  unfold ex_routes, ops_ok, op_ok. split_and!; try exact I; try lia; try done; try exact D1; try exact D2; try exact D3.
  by intros _ r ?%elem_of_nil.
Qed.

Lemma xbar_routes_witness :
  ∃ x, foldM (r_step (Some 2%nat) false) (new_xbar 3 1) ex_routes = Ok x ∧
    findPort (Some 2%nat) false 0x10 x = Ok (2%nat, x) ∧
    ∃ rs, getAddrRanges x = Ok rs ∧ covers rs 0x4010 ∧ ¬ covers rs 0x10.
Proof.
  destruct (xbar_routes (Some 2%nat) false 3 1 ex_routes ex_routes_ok) as [H1 H2].
  destruct H1 as (x & E); [done| |].
  { repeat apply Forall_cons_2; try exact I; [by intros r ->%list_elem_of_singleton..| |by intros r ->%list_elem_of_singleton|constructor].
    by intros r ?%elem_of_nil. }
  assert (gotAllAddrRanges x = true) as Hg by (vm_compute in E; by injection E as <-).
  exists x. split; [exact E|].
  destruct (H2 x 0x10 E Hg ltac:(lia)) as (_ & H3 & rs & Er & H4).
  destruct (H2 x 0x4010 E Hg ltac:(lia)) as (_ & _ & rs' & Er' & H5). rewrite Er in Er'. injection Er' as <-.
  assert (announced (Some 2%nat) ex_routes = [(plain_range 0x2000 0x2fff, 1%nat); (plain_range 0x4000 0x4fff, 0%nat)]) as Ea by done.
  rewrite Ea in H3, H4, H5. split; [|exists rs; split_and!; [done|..]].
  - rewrite (H3 2%nat); [done| |done]. intros e He. rewrite !elem_of_cons, elem_of_nil in He. by destruct He as [->|[->|[]]].
  - rewrite H5. left. exists (plain_range 0x4000 0x4fff). split; [right; left|done].
  - rewrite H4. intros [(r & Hr & Hc)|[? _]]; [|done]. cbn in Hr. rewrite !elem_of_cons, elem_of_nil in Hr. by destruct Hr as [->|[->|[]]].
Defined.
End XBarRoute.
