(* ===== verification/XBarRun.v ===== *)
(** * Runs of the non-coherent crossbar

    Requests and responses arrive, layers are released and retried, peers refuse
    packets and ask for them again, and sources that are told to retry call the
    crossbar at once or not: every request goes to the port that owns its address
    and every response back to where its request came from. *)

From S2P Require Import Prelude Intmath Packet DramTypes PacketQueue Clock AddrRange AddrRangeMap XBar XBarProofs.
From S2P Require Import XBarRoute.
Import Intmath MemCmd Packet PacketQueue Clock AddrRange AddrRangeMap XBar XBarProofs XBarRoute.

Module XBarRun.

(** The world: the tick, the crossbar, the requests taken (source, destination) and
    the responses put in the queue of their destination. *)
Record xrun := mkXRun
  { r_now : Tick; xb : XBar; accepted : list (nat * nat * Packet); answered : list (nat * Packet) }.
#[export] Instance eta_xrun : Eta xrun := λ c, mkXRun (r_now c) (xb c) (accepted c) (answered c).
Definition put_xb (x : XBar) (c : xrun) : xrun := c <| xb := x |>.

(** A request at a slave port with the answer of the memory behind, or a response at
    a master port. *)
Inductive xcall : Type := XReq (s : nat) (pkt : Packet) (ok : bool) | XResp (m : nat) (pkt : Packet).

Inductive xop : Type :=
| Call (k : xcall)
| Advance (t : Tick)
| Release (k : bool) (i : nat) (ks : list xcall)       (** the calls made during the retry *)
| ReqRetry (m : nat) (ks : list xcall)
| QueueSend (s : nat) (ok : bool)
| QueueRetry (s : nat) (ok : bool).

Definition free_at (s : nat) (ls : list Layer) : bool := forallb (λ l, negb (bool_decide (s ∈ waiters l))) ls.
Definition not_past (t : Tick) (ev : event) : bool := t <=? default t ev.

Section run.
Variables (clockPeriod : Tick) (defaultPortID : option nat) (useDefaultRange : bool).
Variables (frontendLatency forwardLatency responseLatency width us : Z).
Variable req : Packet → Z.
Let fits := pkt_fits clockPeriod frontendLatency forwardLatency responseLatency us.
Let dest := route defaultPortID useDefaultRange.
Let request := recvTimingReq clockPeriod defaultPortID useDefaultRange frontendLatency forwardLatency width us req.
Let response := recvTimingResp clockPeriod responseLatency width us req.
Let inv := xinv clockPeriod defaultPortID.

#[export] Instance pkt_fits_dec p : Decision (pkt_fits clockPeriod frontendLatency forwardLatency responseLatency us p).
Proof. unfold pkt_fits. apply _. Defined.

(** What the peers observe: a source that was refused waits for its retry; addresses
    have a destination; a request is not sent again while it is under way; and
    responses answer requests under way. *)
Definition may_call (c : xrun) (k : xcall) : bool :=
  match k with
  | XReq s pkt ok =>
      bool_decide (s < length (slavePorts (xb c)))%nat && free_at s (reqLayers (xb c)) && bool_decide (fits pkt) &&
      (0 <=? addr pkt) && (addr pkt <? 2 ^ 64) && isSome (dest (addr pkt) (xb c)) &&
      (negb (expects pkt) || negb (isSome (routeTo (xb c) !! req pkt))) && (ok || negb (memInhibit pkt))
  | XResp m pkt =>
      free_at m (respLayers (xb c)) && bool_decide (fits pkt) && (r_now c + us <? MaxTick) &&
      match routeTo (xb c) !! req pkt with
      | None => false
      | Some s => match slavePorts (xb c) !! s with
                  | Some q => Z.of_nat (length (transmitList q)) <=? 1000
                  | None => false
                  end
      end
  end.
Definition do_call (dr : bool) (c : xrun) (k : xcall) : res xrun :=
  if may_call c k then
    match k with
    | XReq s pkt ok =>
        r ← request (r_now c) ok pkt s (xb c);
        let '(taken, o, x) := r in
        Ok (match taken, o with
            | true, Some (m, _) => c <| xb := x |> <| accepted ::= λ l, l ++ [(s, m, pkt)] |>
            | _, _ => c <| xb := x |>
            end)
    | XResp m pkt =>
        r ← response (r_now c) dr pkt m (xb c);
        Ok (match r.1 with
            | Some (s, _) => c <| xb := r.2 |> <| answered ::= λ l, l ++ [(s, pkt)] |>
            | None => c <| xb := r.2 |>
            end)
    end
  else Ok c.

(** A source that is told to retry makes some calls, possibly none. *)
Definition source (dr : bool) (ks : list xcall) (p : nat) (c : xrun) : res xrun := foldM (do_call dr) c ks.

Definition x_guard (c : xrun) (op : xop) : bool :=
  match op with
  | Call _ => true
  | Advance t =>
      (r_now c <=? t) && forallb (λ l, not_past t (releaseEvent l)) (reqLayers (xb c) ++ respLayers (xb c)) &&
      forallb (λ q, not_past t (sendEvent q)) (slavePorts (xb c))
  | Release k i _ => bool_decide (releaseEvent <$> layers k (xb c) !! i = Some (Some (r_now c)))
  | ReqRetry m _ => match reqLayers (xb c) !! m with Some l => isSome (waitingForPeer l) | None => false end
  | QueueSend s _ => bool_decide (sendEvent <$> slavePorts (xb c) !! s = Some (Some (r_now c)))
  | QueueRetry s _ => match slavePorts (xb c) !! s with Some q => waitingOnRetry q | None => false end
  end.

(** The queue of a slave port. *)
Definition on_queue (s : nat) (f : PacketQueue → res (PacketQueue * deferred * bool)) (c : xrun) : res xrun :=
  match slavePorts (xb c) !! s with
  | Some q => r ← f q; Ok (put_xb ((xb c) <| slavePorts ::= <[s := r.1.1]> |>) c)
  | None => Fault (Panic "no such port")
  end.

Definition x_step (dr : bool) (c : xrun) (op : xop) : res xrun :=
  match op with
  | Call k => do_call dr c k
  | Advance t => Ok (c <| r_now := t |>)
  | Release k i ks =>
      l ← get_layer xb (layers k) i c;
      let c := put_layer xb put_xb (layers k) (put_layers k) i (l <| releaseEvent := None |>) c in
      snd <$> releaseLayer clockPeriod xb put_xb (layers k) (put_layers k) (source dr ks) (r_now c) dr i c
  | ReqRetry m ks => recvRetry clockPeriod xb put_xb (layers true) (put_layers true) (source dr ks) (r_now c) m c
  | QueueSend s ok => on_queue s (processSendEvent (r_now c) dr (answers ok)) c
  | QueueRetry s ok => on_queue s (retry (r_now c) dr (answers ok)) c
  end.
Definition x_gstep (dr : bool) (c : xrun) (op : xop) : res xrun := if x_guard c op then x_step dr c op else Ok c.

(** ** The invariant of runs *)

(** Requests taken that expect a response are answered at their source, or their
    route is kept. *)
Variable x0 : XBar.                    (** the crossbar at the start *)
Record c_inv (r : option (bool * nat)) (c : xrun) : Prop :=
  { c_xbar : inv (r_now c) r (xb c);
    c_same : same_routes x0 (xb c);
    c_dest : Forall (λ e : nat * nat * Packet, dest (addr e.2) x0 = Some e.1.2) (accepted c);
    c_routes : ((λ e : nat * Packet, (req e.2, e.1)) <$> answered c) ++ map_to_list (routeTo (xb c)) ≡ₚ
               (λ e : nat * nat * Packet, (req e.2, e.1.1)) <$> List.filter (λ e, expects e.2) (accepted c) }.

Hypothesis period_pos : 0 < clockPeriod.
Hypothesis latency_pos : 0 ≤ frontendLatency ∧ 0 ≤ forwardLatency ∧ 0 ≤ responseLatency.

Lemma free_at_ok k s x : free_at s (layers k x) = true → free k s x.
Proof.
  intros H i l Hl Hin. unfold free_at in H. rewrite forallb_forall in H.
  specialize (H l). rewrite <-list_elem_of_In in H. specialize (H (list_elem_of_lookup_2 _ _ _ Hl)).
  by apply negb_true_iff, bool_decide_eq_false in H.
Qed.

Lemma same_trans x1 x2 x3 : same_routes x1 x2 → same_routes x2 x3 → same_routes x1 x3.
Proof. intros (? & ? & ? & ?) (? & ? & ? & ?). split_and!; congruence. Qed.

(** What a call leaves alone. *)
Definition kept (c c' : xrun) : Prop := r_now c' = r_now c ∧ same_routes (xb c) (xb c').
Lemma xkept_trans c1 c2 c3 : kept c1 c2 → kept c2 c3 → kept c1 c3.
Proof. intros [? ?] [? ?]. split; [congruence|by eapply same_trans]. Qed.

Lemma xcall_req_ok dr r c s pkt ok : c_inv r c → may_call c (XReq s pkt ok) = true →
  ∃ c' r', do_call dr c (XReq s pkt ok) = Ok c' ∧ c_inv r' c' ∧ (r' = r ∨ r' = None) ∧ kept c c'.
Proof.
  intros [H Hsx Hd Hr] Hg. unfold do_call. rewrite Hg. cbn in Hg. rewrite !andb_true_iff, !orb_true_iff, !negb_true_iff, !bool_decide_eq_true in Hg.
  destruct Hg as (((((((G1 & G2) & G3) & G4) & G5) & G6) & G7) & G8).
  destruct (dest (addr pkt) (xb c)) as [m|] eqn:Em; [|done].
  destruct (req_ok clockPeriod defaultPortID useDefaultRange frontendLatency forwardLatency responseLatency width us req
    period_pos latency_pos (r_now c) r ok pkt s (xb c) m) as (b & o & x' & E & (r' & H' & Hrr) & Hsame & Hroute & Ho & _); try done.
  { by apply (free_at_ok true). }
  { lia. }
  { intros Hex. destruct G7 as [G7|G7]; [congruence|]. by destruct (routeTo (xb c) !! req pkt). }
  { intros ->. by destruct G8. }
  unfold request. rewrite E. cbn [mbind res_bind]. destruct b.
  - destruct (Ho eq_refl) as (h & p & ->). eexists _, r'. split; [reflexivity|]. split_and!; [|done|done].
    split; cbn; [done|by eapply same_trans| |].
    + apply Forall_app. split; [done|]. constructor; [|constructor]. cbn. unfold dest in *. by rewrite <-(same_route _ _ _ _ _ Hsx).
    + rewrite List.filter_app, fmap_app, <-Hr, Hroute. cbn. destruct (expects pkt) eqn:Ex; cbn; [|by rewrite app_nil_r].
      rewrite map_to_list_insert; [by rewrite <-app_assoc, <-Permutation_cons_append|].
      destruct G7 as [G7|G7]; [congruence|]. by destruct (routeTo (xb c) !! req pkt).
  - eexists _, r'. split; [reflexivity|]. split_and!; [|done|done]. split; cbn; [done|by eapply same_trans|done|by rewrite Hroute].
Qed.

Lemma xcall_resp_ok dr r c m pkt : c_inv r c → may_call c (XResp m pkt) = true →
  ∃ c' r', do_call dr c (XResp m pkt) = Ok c' ∧ c_inv r' c' ∧ (r' = r ∨ r' = None) ∧ kept c c'.
Proof.
  intros [H Hsx Hd Hr] Hg. unfold do_call. rewrite Hg. cbn in Hg. rewrite !andb_true_iff, !bool_decide_eq_true in Hg.
  destruct Hg as (((G1 & G2) & G3) & G4). destruct (routeTo (xb c) !! req pkt) as [s|] eqn:Es; [|done].
  destruct (slavePorts (xb c) !! s) as [q|] eqn:Eq; [|done].
  destruct (resp_ok clockPeriod defaultPortID frontendLatency forwardLatency responseLatency width us req
    period_pos latency_pos (r_now c) r dr pkt m (xb c) s) as (o & x' & E & (r' & H' & Hrr) & Hsame & Ho); try done.
  { by apply (free_at_ok false). }
  { lia. }
  { intros q' ?. simplify_eq. lia. }
  unfold response. rewrite E. cbn [mbind res_bind fst snd]. eexists _, r'. split; [reflexivity|]. destruct o as [[s' p]|].
  - destruct Ho as (-> & Hroute & _). split_and!; [|done|done]. split; cbn; [done|by eapply same_trans|done|].
    rewrite fmap_app, Hroute, <-app_assoc, <-Hr. apply Permutation_app_head. by apply map_to_list_delete.
  - split_and!; [|done|done]. split; cbn; [done|by eapply same_trans|done|by rewrite Ho].
Qed.

Lemma xcalls_ok dr ks r c : c_inv r c →
  ∃ c' r', foldM (do_call dr) c ks = Ok c' ∧ c_inv r' c' ∧ (r' = r ∨ r' = None) ∧ kept c c'.
Proof.
  revert r c. induction ks as [|k ks IH]; intros r c H; [exists c, r; by split_and!; auto|]. cbn.
  assert (∃ c' r', do_call dr c k = Ok c' ∧ c_inv r' c' ∧ (r' = r ∨ r' = None) ∧ kept c c') as (c1 & r1 & -> & H1 & Hr1 & N1).
  { destruct (may_call c k) eqn:Eg; [destruct k; [by apply xcall_req_ok|by apply xcall_resp_ok]|].
    exists c, r. unfold do_call. rewrite Eg. by split_and!; auto. }
  destruct (IH r1 c1 H1) as (c2 & r2 & E & H2 & Hr2 & N2). exists c2, r2. split_and!; [done|done| |by eapply xkept_trans].
  destruct Hr1, Hr2; subst; auto.
Qed.

(** *** Releases and retries *)

Lemma layers_put k l x : layers k (put_layers k l x) = l.
Proof. by destruct k. Qed.
Lemma put_xb_put k l l' x : put_layers k l (put_layers k l' x) = put_layers k l x.
Proof. by destruct k. Qed.

(** A layer that begins a retry. *)
Lemma put_mid_ok now k i l l' x :
  inv now None x → layers k x !! i = Some l → layer_mid l' → inv now (Some (k, i)) (put_layers k (<[i := l']> (layers k x)) x).
Proof.
  intros H Hi Hm.
  destruct H. pose proof (lookup_lt_Some _ _ _ Hi) as Hlt. unfold put_layers, layers in *.
  split; try (destruct k; cbn; rewrite ?length_insert; done).
  - intros k' j lj Hj. unfold layer_status. case_decide as Ed; [|].
    + injection Ed as <- <-. destruct k; cbn in Hj; rewrite list_lookup_insert_eq in Hj by done; by simplify_eq.
    + assert (layer_status now None k' j lj) as Hs; [|unfold layer_status in Hs; by case_decide].
      apply x_layers0. unfold layers. destruct k, k'; cbn in Hj; try done; by rewrite list_lookup_insert_ne in Hj by congruence.
  - intros j lj. destruct k; cbn; [apply x_resp0|]. intros [(_ & -> & _)|[_ Hj]]%list_lookup_insert_Some; [apply Hm|by eapply x_resp0].
Qed.

Lemma kept_layers r r' c c' k i l : c_inv r c → c_inv r' c' → kept c c' → layers k (xb c) !! i = Some l →
  ∃ l', layers k (xb c') !! i = Some l'.
Proof.
  intros [H _ _ _] [H' _ _ _] [_ (_ & _ & E1 & E2)] Hi. apply lookup_lt_is_Some_2. apply lookup_lt_Some in Hi.
  destruct k; cbn in *; [by rewrite E1|]. by rewrite (x_ports _ _ _ _ _ H'), E2, <-(x_ports _ _ _ _ _ H).
Qed.

Let put k := put_layer xb put_xb (layers k) (put_layers k).
Lemma put_twice k i l l' c : put k i l (put k i l' c) = put k i l c.
Proof. unfold put, put_layer, put_xb. destruct c. cbn. by rewrite layers_put, put_xb_put, list_insert_insert_eq. Qed.
Lemma get_put k i l l' c : layers k (xb c) !! i = Some l → get_layer xb (layers k) i (put k i l' c) = Ok l'.
Proof.
  intros Hi. unfold get_layer, put, put_layer, put_xb. cbn. rewrite layers_put, list_lookup_insert_eq; [done|by eapply lookup_lt_Some].
Qed.
Lemma c_inv_put r r' k i l c : c_inv r c → inv (r_now c) r' (put_layers k (<[i := l]> (layers k (xb c))) (xb c)) → c_inv r' (put k i l c).
Proof.
  intros [H Hsx Hd Hr] H'. split; [exact H'| |done|by destruct k]. eapply same_trans; [done|].
  destruct k; unfold same_routes; cbn; by rewrite ?length_insert.
Qed.

Lemma retryWaiting_ok dr ks k i c l0 l p rest :
  c_inv None c → layers k (xb c) !! i = Some l0 → state l = IDLE → waitingForLayer l = p :: rest → releaseEvent l = None →
  waitingForPeer l = None → NoDup (waiters l) → 0 < r_now c →
  ∃ c', retryWaiting clockPeriod xb put_xb (layers k) (put_layers k) (source dr ks) (r_now c) i (put k i l c) = Ok c' ∧
    c_inv None c' ∧ r_now c' = r_now c.
Proof.
  intros H Hi Hst Hw He Hp Hn Hnow. unfold retryWaiting. rewrite (get_put k i l0 l c Hi). cbn [mbind res_bind]. rewrite Hw.
  rewrite assert_bind by (by apply bool_decide_eq_true). fold (put k). rewrite put_twice. set (lm := l <| state := RETRY |> <| waitingForLayer := rest |>).
  assert (layer_mid lm) as Hm.
  { split_and!; [|done|done|done]. unfold waiters in *. rewrite Hw, Hp in Hn. cbn in *. rewrite Hp. by apply NoDup_cons in Hn as [_ Hn]. }
  assert (c_inv (Some (k, i)) (put k i lm c)) as H1 by (eapply c_inv_put, put_mid_ok; [done|apply H|done|done]).
  unfold source. destruct (xcalls_ok dr ks _ _ H1) as (c1 & r1 & -> & Hc1 & Hr1 & Hk). cbn [mbind res_bind].
  destruct (kept_layers _ _ _ _ k i lm H1 Hc1 Hk) as [l1 Hl1].
  { cbn. rewrite layers_put. apply list_lookup_insert_eq. by eapply lookup_lt_Some. }
  unfold get_layer. rewrite Hl1. cbn [mbind res_bind]. destruct Hk as [Hk _]. cbn in Hk. pose proof (c_xbar _ _ Hc1) as Hx1.
  pose proof (x_layers _ _ _ _ _ Hx1 k i l1 Hl1) as Hs1. unfold layer_status in Hs1. destruct Hr1 as [-> | ->].
  - rewrite decide_True in Hs1 by done. destruct Hs1 as (Hn1 & Est1 & He1 & Hp1). unfold in_state. rewrite bool_decide_eq_true_2 by done.
    destruct (xedge_ok clockPeriod period_pos (r_now c) 0 (xb c1)) as (t & ck & -> & Hck & Ht & _); [rewrite <-Hk; apply Hx1|lia|]. cbn [fst snd].
    destruct (layer_occupy_ok (r_now c) t l1 He1) as (l2 & -> & Hl2 & Hp2); [lia|lia|done|]. cbn [mbind res_bind].
    eexists. split; [reflexivity|]. split; [|done]. set (c2 := put_xb ((xb c1) <| clk := ck |>) c1).
    assert (c_inv (Some (k, i)) c2) as H2.
    { destruct Hc1 as [_ Hsx Hd Hr]. split; [|done..]. apply (xinv_same _ _ (r_now c1) _ (xb c1)); try done; [by rewrite Hk|apply Hx1]. }
    apply (c_inv_put _ None k i l2 c2 H2). pose proof (put_layers_ok clockPeriod defaultPortID (r_now c2) (Some (k, i)) k i l1 l2 (xb c2)) as Hput.
    unfold after in Hput. rewrite decide_True in Hput by done. apply Hput; [apply H2|by destruct k|by rewrite <-Hk in Hl2|].
    intros _. congruence.
  - rewrite decide_False in Hs1 by done. destruct Hs1 as [_ Hs1]. unfold in_state. rewrite bool_decide_eq_false_2 by (intros E; by rewrite E in Hs1).
    by exists c1.
Qed.

Lemma release_ok dr ks k i c : c_inv None c → x_guard c (Release k i ks) = true →
  ∃ c', x_step dr c (Release k i ks) = Ok c' ∧ c_inv None c'.
Proof.
  intros H Hg. cbn in Hg. apply bool_decide_eq_true in Hg. destruct (layers k (xb c) !! i) as [l|] eqn:Hi; [|done].
  injection Hg as He. unfold x_step, get_layer. rewrite Hi. cbn [mbind res_bind]. cbv zeta. fold (put k).
  pose proof (x_layers _ _ _ _ _ (c_xbar _ _ H) k i l Hi) as [Hn Hst]. destruct (state l) eqn:Est; [by destruct Hst; congruence| |done].
  destruct Hst as (w & Ew & _ & Hw). assert (0 < r_now c) as Hnow by (rewrite He in Ew; injection Ew; lia).
  unfold releaseLayer. rewrite (get_put k i l _ c Hi). cbn [mbind res_bind].
  rewrite !assert_bind by (unfold in_state; cbn; rewrite ?Est; done). fold (put k). rewrite put_twice.
  set (l1 := l <| releaseEvent := None |> <| state := IDLE |>). change (r_now (put k i _ c)) with (r_now c).
  assert (∀ q, waitingForPeer l = Some q ∨ waitingForLayer l = [] → c_inv None (put k i l1 c)) as Hidle.
  { intros q Hq. eapply c_inv_put; [done|]. apply (put_layers_ok _ _ _ None k i l l1); [apply H|done| |].
    - split; [done|]. cbn. split; [done|]. destruct (waitingForPeer l); [right; done|]. left. by destruct Hq.
    - intros ->. cbn. by eapply (x_resp _ _ _ _ _ (c_xbar _ _ H)). }
  cbn [waitingForLayer waitingForPeer set_field]. destruct (waitingForLayer l) as [|p rest] eqn:Ew'.
  { eexists. split; [reflexivity|]. apply (Hidle 0%nat). by right. }
  destruct (waitingForPeer l) as [q|] eqn:Ep; cbn [isSome].
  { eexists. split; [reflexivity|]. apply (Hidle q). by left. }
  destruct (retryWaiting_ok dr ks k i c l l1 p rest) as (c' & E & Hc' & _); try done.
  change (put_layer xb put_xb (layers k) (put_layers k) i l1 c) with (put k i l1 c). rewrite E. by exists c'.
Qed.

Lemma req_retry_ok dr ks m c : c_inv None c → x_guard c (ReqRetry m ks) = true →
  ∃ c', x_step dr c (ReqRetry m ks) = Ok c' ∧ c_inv None c'.
Proof.
  intros H Hg. cbn in Hg. destruct (reqLayers (xb c) !! m) as [l|] eqn:Hi; [|done].
  destruct (waitingForPeer l) as [p|] eqn:Ep; [|done]. unfold x_step, recvRetry, get_layer. cbn [layers]. rewrite Hi. cbn [mbind res_bind].
  rewrite Ep. pose proof (x_layers _ _ _ _ _ (c_xbar _ _ H) true m l Hi) as [Hn Hst].
  set (l1 := l <| waitingForLayer ::= cons p |> <| waitingForPeer := None |>). change (put_layer _ _ _ _ m l1 c) with (put true m l1 c).
  assert (NoDup (waiters l1)) as Hn1.
  { unfold waiters in *. rewrite Ep in Hn. cbn in *. rewrite app_nil_r. by rewrite <-Permutation_cons_append in Hn. }
  unfold in_state. destruct (state l) eqn:Est; [| |done].
  - rewrite bool_decide_eq_true_2 by done. destruct Hst as [He [[_ ?]|[_ Hnow]]]; [congruence|].
    destruct (retryWaiting_ok dr ks true m c l l1 p (waitingForLayer l)) as (c' & E & Hc' & _); try done.
    exists c'. split; [exact E|done].
  - rewrite bool_decide_eq_false_2 by done. rewrite assert_bind by done. eexists. split; [reflexivity|].
    eapply c_inv_put; [done|]. apply (put_layers_ok _ _ _ None true m l l1); [apply H|done| |done]. split; [done|]. cbn. by rewrite Est.
Qed.

Lemma queue_step_ok c s f q q' d b : c_inv None c → slavePorts (xb c) !! s = Some q →
  f q = Ok (q', d, b) → pq_ok (r_now c) q' → ∃ c', on_queue s f c = Ok c' ∧ c_inv None c'.
Proof.
  intros [H Hsx Hd Hr] Hq E Hq'. unfold on_queue. rewrite Hq, E. cbn [mbind res_bind]. eexists. split; [reflexivity|].
  split; [| |done|done].
  2: { eapply same_trans; [done|]. unfold same_routes. cbn. by rewrite length_insert. }
  apply (xinv_frame _ _ (r_now c) None (xb c) _ H); cbn; try done; try apply H.
  - by rewrite length_insert.
  - intros i qi [(_ & -> & _)|[_ Hi]]%list_lookup_insert_Some; [done|by eapply (x_queues _ _ _ _ _ H)].
Qed.

Lemma queue_send_ok dr c s ok q f : c_inv None c → slavePorts (xb c) !! s = Some q →
  (f = processSendEvent (r_now c) dr (answers ok) ∧ sendEvent q = Some (r_now c)) ∨ (f = retry (r_now c) dr (answers ok) ∧ waitingOnRetry q = true) →
  ∃ c', on_queue s f c = Ok c' ∧ c_inv None c'.
Proof.
  intros H Hq Hf. pose proof (x_queues _ _ _ _ _ (c_xbar _ _ H) s q Hq) as [Hs Hfin He].
  destruct (transmitList q) as [|g l] eqn:El; [destruct He; destruct Hf as [[_ ?]|[_ ?]]; congruence|].
  destruct Hf as [[-> Hev]|[-> Hw]].
  - destruct (waitingOnRetry q) eqn:Ew; [destruct He; congruence|]. destruct He as (w & Ew' & Hw).
    assert (w = r_now c) as -> by congruence.
    destruct (sendDeferredPacket_ok (r_now c) dr ok (q <| sendEvent := None |>) g l) as (q' & d & E & Hq');
      [split; cbn; rewrite El; done || (split; [done|lia])|done..|lia|].
    eapply (queue_step_ok c s _ q q'); [done|done| |done]. unfold processSendEvent. rewrite assert_bind by (cbn; by rewrite Ew). exact E.
  - rewrite Hw in He. destruct He as [He Hle].
    destruct (sendDeferredPacket_ok (r_now c) dr ok (q <| waitingOnRetry := false |>) g l) as (q' & d & E & Hq');
      [split; cbn; rewrite El; done|done..|].
    eapply (queue_step_ok c s _ q q'); [done|done| |done]. unfold retry. rewrite assert_bind by done. exact E.
Qed.

Lemma layer_later now t l : layer_ok now l → now ≤ t → not_past t (releaseEvent l) = true → layer_ok t l.
Proof.
  intros [Hn Hst] Ht Hp. split; [done|]. unfold not_past in Hp. destruct (state l); [| |done].
  - destruct Hst as [He [?|[? ?]]]; (split; [done|]); [by left|right; split; [done|lia]].
  - destruct Hst as (w & Ew & ? & ?). rewrite Ew in Hp. cbn in Hp. exists w. split; [done|lia].
Qed.
Lemma queue_later now t q : pq_ok now q → now ≤ t → not_past t (sendEvent q) = true → pq_ok t q.
Proof.
  intros [Hs Hf He] Ht Hp. split; [done..|]. unfold not_past in Hp. destruct (transmitList q) as [|f l]; [done|].
  destruct (waitingOnRetry q); [destruct He; split; [done|lia]|]. destruct He as (w & Ew & Hw). rewrite Ew in Hp. cbn in Hp. exists w. split; [done|lia].
Qed.

Lemma advance_ok c t : c_inv None c → x_guard c (Advance t) = true → c_inv None (c <| r_now := t |>).
Proof.
  intros [H Hsx Hd Hr] Hg. cbn in Hg. rewrite !andb_true_iff, !forallb_forall in Hg. destruct Hg as [[Hg1 Hg2] Hg3]. split; [|done..].
  cbn. pose proof (x_now _ _ _ _ _ H). assert (r_now c ≤ t) as Ht by lia. destruct H. split; try done; [lia|by eapply clock_later| |].
  - intros k i l Hl. specialize (x_layers0 k i l Hl). unfold layer_status in *. rewrite decide_False in * by done.
    eapply layer_later; [done|done|]. apply Hg2. rewrite <-list_elem_of_In. apply elem_of_app.
    destruct k; [left|right]; by eapply list_elem_of_lookup_2.
  - intros i q Hq. eapply queue_later; [by eapply x_queues0|done|]. apply Hg3. rewrite <-list_elem_of_In. by eapply list_elem_of_lookup_2.
Qed.

Lemma x_gstep_ok dr c op : c_inv None c → ∃ c', x_gstep dr c op = Ok c' ∧ c_inv None c'.
Proof.
  intros H. unfold x_gstep. destruct (x_guard c op) eqn:Hg; [|by exists c].
  destruct op as [k|t|k i ks|m ks|s ok|s ok]; [|eexists; split; [reflexivity|by apply advance_ok]|by apply release_ok|by apply req_retry_ok|..].
  - destruct (xcalls_ok dr [k] None c H) as (c' & r' & E & H' & [-> | ->] & _); cbn in E |- *; destruct (do_call dr c k); simplify_eq; by eexists.
  - cbn in Hg. apply bool_decide_eq_true in Hg. destruct (slavePorts (xb c) !! s) as [q|] eqn:Eq; [|done]. injection Hg as Hg.
    cbn. eapply queue_send_ok; [done|done|by left].
  - cbn in Hg. destruct (slavePorts (xb c) !! s) as [q|] eqn:Eq; [|done]. cbn. eapply queue_send_ok; [done|done|by right].
Qed.

Lemma x_run_ok dr ops c : c_inv None c → ∃ c', foldM (x_gstep dr) c ops = Ok c' ∧ c_inv None c'.
Proof.
  revert c. induction ops as [|op ops IH]; intros c H; [by exists c|]. cbn.
  destruct (x_gstep_ok dr c op H) as (c1 & -> & H1). by apply IH.
Qed.

(** A crossbar whose ports have announced their ranges. *)
Lemma start_ok masters slaves t : rinv useDefaultRange masters slaves t x0 → gotAllAddrRanges x0 = true →
  (∀ d, defaultPortID = Some d → (d < masters)%nat) → c_inv None (mkXRun 0 x0 [] []).
Proof.
  intros [Ht Hp Hids Hc Hd Hr (E1 & E2 & E3 & E4 & E5)] Hg Hdef. split; cbn; [|done|done|by rewrite E2].
  split; rewrite ?E1, ?E2, ?E3, ?E4, ?E5, ?length_replicate; try done.
  - intros e He. apply Hids. by rewrite <-Hp.
  - intros k i l Hl. unfold layers in Hl. rewrite E3, E4 in Hl. unfold layer_status. rewrite decide_False by done.
    assert (l = new_layer) as ->; [|split; cbn; [constructor|auto]].
    destruct k; by apply lookup_replicate in Hl as [-> _].
  - intros i l Hl. by apply lookup_replicate in Hl as [-> _].
  - intros i q Hq. apply lookup_replicate in Hq as [-> _]. by split; cbn; [constructor..|].
Qed.

(** The port an address was announced by, or else the default port. *)
Definition owned_by (ann : list (AddrRange * nat)) (a : Addr) (m : nat) : Prop :=
  (∃ r, (r, m) ∈ ann ∧ contains r a = true) ∨ ((∀ e, e ∈ ann → contains e.1 a = false) ∧ defaultPortID = Some m).

Lemma dest_owned masters slaves t a m : rinv useDefaultRange masters slaves t x0 → dest a x0 = Some m → owned_by t a m.
Proof.
  intros H. unfold dest, route. destruct (List.find _ _) as [[r m']|] eqn:E.
  - intros [= <-]. apply List.find_some in E as [Hin Hc]. left. exists r. split; [|done].
    by rewrite <-(ri_entries _ _ _ _ _ H), list_elem_of_In.
  - destruct (_ || _); [|done]. intros Hm. right. split; [|done]. intros e He. rewrite <-(ri_entries _ _ _ _ _ H), list_elem_of_In in He.
    by apply (List.find_none _ _ E e).
Qed.
End run.

(** C13: for a crossbar whose ports have announced ranges that are apart, however
    requests and responses arrive, also while a source is told to retry, layers are
    released and peers refuse requests, no assertion fails and nothing panics;
    every request taken was offered to the port that announced its address, or else
    the default port; every response is put in the queue of the port its request
    came from, once, and the others have their route kept; and no source waits in
    vain: a layer that owes retries has its release scheduled or waits for its
    peer. *)
Theorem xbar_ok clockPeriod defaultPortID useDefaultRange frontendLatency forwardLatency responseLatency width us req
    masters slaves ann x dr ops :
  0 < clockPeriod → 0 ≤ frontendLatency ∧ 0 ≤ forwardLatency ∧ 0 ≤ responseLatency →
  (∀ d, defaultPortID = Some d → (d < masters)%nat) → ops_ok defaultPortID masters [] ann →
  foldM (r_step defaultPortID useDefaultRange) (new_xbar masters slaves) ann = Ok x → gotAllAddrRanges x = true →
  ∃ c, foldM (x_gstep clockPeriod defaultPortID useDefaultRange frontendLatency forwardLatency responseLatency width us req dr)
         (mkXRun 0 x [] []) ops = Ok c ∧
    Forall (λ e : nat * nat * Packet, owned_by defaultPortID (announced defaultPortID ann) (addr e.2) e.1.2) (accepted c) ∧
    ((λ e : nat * Packet, (req e.2, e.1)) <$> answered c) ++ map_to_list (routeTo (xb c)) ≡ₚ
      ((λ e : nat * nat * Packet, (req e.2, e.1.1)) <$> List.filter (λ e, expects e.2) (accepted c)) ∧
    (∀ k i l, layers k (xb c) !! i = Some l → layer_ok (r_now c) l) ∧
    (∀ s q, slavePorts (xb c) !! s = Some q → pq_ok (r_now c) q).
Proof.
  intros Hper Hlat Hdef Hann E Hg.
  pose proof (r_run_ok defaultPortID useDefaultRange masters slaves ann [] _ _ (new_xbar_ok _ masters slaves) Hann E) as Hri.
  destruct (x_run_ok clockPeriod defaultPortID useDefaultRange frontendLatency forwardLatency responseLatency width us req
    x Hper Hlat dr ops (mkXRun 0 x [] [])) as (c & Ec & [H _ Hd Hr]).
  { by eapply start_ok. }
  exists c. split_and!; [done| |done| |apply H].
  - eapply Forall_impl; [exact Hd|]. intros e He. by eapply dest_owned.
  - intros k i l Hl. by apply (x_layers _ _ _ _ _ H k i l Hl).
Qed.

(** Two sources and one memory.  The second source finds the layer busy and tries
    again when it is released; the memory refuses its request once and answers the
    first one in the meantime. *)
Definition ex_ann : list rop := [Announce 0 [plain_range 0 0xfff]; Announce 1 []].
Definition ex_xops : list xop :=
  let p1 := read_pkt 1 0 0 in let p2 := read_pkt 2 128 0 in
  [Call (XReq 0 p1 true); Call (XReq 1 p2 true); Advance 10; Release true 0 [XReq 1 p2 false];
   Call (XResp 0 (p1 <| cmd := ReadResp |>)); Advance 20; QueueSend 0 true; Release true 0 []; ReqRetry 0 [XReq 1 p2 true]].

Lemma ex_ann_ok : ops_ok (Some 1%nat) 2 [] ex_ann.
Proof.
  pose proof (plain_alone 0 0xfff 0 ltac:(lia) ltac:(lia)) as D1.
  unfold ex_ann, ops_ok, op_ok. split_and!; try exact I; try lia; try done; try exact D1. by intros _ r ?%elem_of_nil.
Qed.

Lemma xbar_ok_witness :
  ∃ x c, foldM (r_step (Some 1%nat) false) (new_xbar 2 2) ex_ann = Ok x ∧
    foldM (x_gstep 10 (Some 1%nat) false 1 1 1 8 1000000 pkt_id false) (mkXRun 0 x [] []) ex_xops = Ok c ∧
    ((λ e : nat * nat * Packet, (e.1, pkt_id e.2)) <$> accepted c) = [((0, 0)%nat, 1); ((1, 0)%nat, 2)] ∧
    ((λ e : nat * Packet, (e.1, pkt_id e.2)) <$> answered c) = [(0%nat, 1)] ∧
    ∀ k i l, layers k (xb c) !! i = Some l → layer_ok (r_now c) l.
Proof.
  destruct (foldM (r_step (Some 1%nat) false) (new_xbar 2 2) ex_ann) as [x|f] eqn:E; [|by vm_compute in E].
  assert (gotAllAddrRanges x = true) as Hg by (vm_compute in E; by injection E as <-).
  destruct (xbar_ok 10 (Some 1%nat) false 1 1 1 8 1000000 pkt_id 2 2 ex_ann x false ex_xops) as (c & Ec & _ & _ & Hl & _);
    [lia|lia|intros d [= <-]; lia|exact ex_ann_ok|exact E|exact Hg|].
  exists x, c. split; [done|]. split; [exact Ec|]. vm_compute in E. injection E as <-. vm_compute in Ec. injection Ec as <-.
  split_and!; [done|done|exact Hl].
Defined.
End XBarRun.
