(* ===== verification/ByteWrites.v ===== *)
(** * Writes of byte strings to a flat memory

    The components of the GPU are compared with their effect on a memory: a
    function from addresses to bytes and the list of the writes that reach it,
    in order. *)

From S2P Require Import Prelude.

Section writes.
Context {A : Type}.
Implicit Types (m : Addr → A) (w : Addr * list A) (ws : list (Addr * list A)).

Definition covers (x : Addr) (w : Addr * list A) : bool :=
  (w.1 <=? x) && (x <? w.1 + Z.of_nat (length w.2)).

(** The memory after one write, and after writes in order. *)
Definition put_bytes m w (x : Addr) : A :=
  if w.1 <=? x then default (m x) (w.2 !! Z.to_nat (x - w.1)) else m x.
Definition memory_after ws m : Addr → A := foldl put_bytes m ws.

Lemma covers_spec x w : covers x w = true ↔ w.1 ≤ x < w.1 + Z.of_nat (length w.2).
Proof. unfold covers. rewrite andb_true_iff, Z.leb_le, Z.ltb_lt. done. Qed.

Lemma put_bytes_in m w x : covers x w = true →
  ∃ b, w.2 !! Z.to_nat (x - w.1) = Some b ∧ put_bytes m w x = b.
Proof.
  rewrite covers_spec. intros Hx.
  destruct (lookup_lt_is_Some_2 w.2 (Z.to_nat (x - w.1))) as [b Hb]; [lia|].
  exists b. split; [done|]. unfold put_bytes. rewrite (proj2 (Z.leb_le _ _)) by lia. by rewrite Hb.
Qed.

Lemma put_bytes_out m w x : covers x w = false → put_bytes m w x = m x.
Proof.
  unfold covers, put_bytes. destruct (Z.leb_spec w.1 x); [|done]. cbn. intros ?%Z.ltb_ge.
  by rewrite lookup_ge_None_2 by lia.
Qed.

(** A covered byte does not depend on the memory before. *)
Lemma put_bytes_forget m m' w x : covers x w = true → put_bytes m w x = put_bytes m' w x.
Proof.
  intros Hx. destruct (put_bytes_in m w x Hx) as (b & Hb & ->).
  destruct (put_bytes_in m' w x Hx) as (b' & Hb' & ->). congruence.
Qed.

(** A byte afterwards depends on that byte before. *)
Lemma memory_after_ext ws m m' x : m x = m' x → memory_after ws m x = memory_after ws m' x.
Proof.
  unfold memory_after. revert m m'. induction ws as [|w ws IH]; intros m m' H; [done|].
  cbn. apply IH. unfold put_bytes. by rewrite H.
Qed.

(** A byte is what the last write that covers it put there. *)
Lemma memory_after_last ws m x :
  memory_after ws m x =
  match last (List.filter (covers x) ws) with Some w => put_bytes m w x | None => m x end.
Proof.
  unfold memory_after. induction ws as [|w ws IH] using rev_ind; [done|].
  rewrite foldl_app, List.filter_app. cbn [foldl List.filter]. destruct (covers x w) eqn:E.
  - rewrite last_snoc. by apply put_bytes_forget.
  - rewrite app_nil_r, <-IH. by apply put_bytes_out.
Qed.

Lemma memory_after_filter ws ws' m x :
  List.filter (covers x) ws = List.filter (covers x) ws' →
  memory_after ws m x = memory_after ws' m x.
Proof. intros H. by rewrite !memory_after_last, H. Qed.

(** The order of writes does not matter at a byte at most one of them covers. *)
Lemma memory_after_perm ws ws' m x : ws ≡ₚ ws' →
  (length (List.filter (covers x) ws) ≤ 1)%nat → memory_after ws m x = memory_after ws' m x.
Proof.
  intros HP Hl. apply memory_after_filter.
  assert (HF : List.filter (covers x) ws ≡ₚ List.filter (covers x) ws').
  { clear Hl. induction HP as [|y l l' HP IH|y z l|l l1 l2 H1 IH1 H2 IH2]; cbn; [done| | |by etrans].
    - destruct (covers x y); by rewrite IH.
    - destruct (covers x y), (covers x z); try done. apply perm_swap. }
  destruct (List.filter (covers x) ws) as [|y [|]]; cbn in Hl; [| |lia].
  - by apply Permutation_nil_l in HF.
  - symmetry in HF. by apply Permutation_singleton_r in HF.
Qed.
End writes.
