(* ===== verification/CopyEngine.v ===== *)
(** * The copy engine of the GPU (gem5-gpu/src/gpu/copy_engine.hh, copy_engine.cc)

    A copy between host and device memory is cut into cache lines.  Each line is
    translated and read, the bytes are gathered in a buffer, and lines of the
    destination are written as soon as the bytes before them have arrived.
    Translations and responses come in any order; a port whose peer refused a
    packet queues what follows it. *)

From S2P Require Import Prelude Intmath Packet DramTypes Clock.
Import Intmath MemCmd Clock.

Module CopyEngine.

(** The two ports of the engine and the modes of a translation. *)
Inductive side : Set := Host | Device.
Inductive Mode : Set := Read | Write.
#[export] Instance side_eq_dec : EqDecision side.
Proof. solve_decision. Defined.
#[export] Instance Mode_eq_dec : EqDecision Mode.
Proof. solve_decision. Defined.

(** [stream_operation_type]; the operations that are no copies are one value. *)
Inductive stream_operation_type : Set :=
| stream_memcpy_host_to_device | stream_memcpy_device_to_host | stream_memcpy_device_to_device
| stream_other.

(** A request: virtual address, size, and the data of a write ([setExtraData]). *)
Record request := mkReq { vaddr : Addr; rsize : Z; extraData : list Z }.
(** A packet: command, request, physical address and data. *)
Record cpkt := mkCPkt { c_cmd : Command; c_req : request; c_paddr : Addr; c_data : list Z }.

(** What the engine does to its surroundings: a translation that will finish
    later, a packet a peer has taken, and the end of an operation. *)
Inductive output : Type :=
| Translating (md : Mode) (r : request)
| Sent (p : cpkt)
| Finished.

Record CE := mkCE
  { clk : Clock;
    tickEvent : event;
    hostQ : list cpkt;                      (** [outstandingPkts] of the two ports *)
    deviceQ : list cpkt;
    readPort : option side;
    writePort : option side;
    readDTB : option side;
    writeDTB : option side;
    needToRead : bool;
    needToWrite : bool;
    running : bool;
    currentReadAddr : Addr;
    currentWriteAddr : Addr;
    beginAddr : Addr;
    writeLeft : Z;
    writeDone : Z;
    readLeft : Z;
    readDone : Z;
    totalLength : Z;
    curData : list Z;
    readsDone : list bool;
    memCpyStartTime : Tick;
    memCpyLength : Z;
    memCpyStats : list (Tick * Z);
    cestats : stats }.
#[export] Instance eta_CE : Eta CE := λ e,
  mkCE (clk e) (tickEvent e) (hostQ e) (deviceQ e) (readPort e) (writePort e) (readDTB e) (writeDTB e)
    (needToRead e) (needToWrite e) (running e) (currentReadAddr e) (currentWriteAddr e) (beginAddr e)
    (writeLeft e) (writeDone e) (readLeft e) (readDone e) (totalLength e) (curData e) (readsDone e)
    (memCpyStartTime e) (memCpyLength e) (memCpyStats e) (cestats e).

Definition new_engine : CE :=
  mkCE new_clock None [] [] None None None None false false false 0 0 0 0 0 0 0 0 [] [] 0 0 [] ∅.

(** ** Ports *)

Definition outstandingPkts (sd : side) (e : CE) : list cpkt := match sd with Host => hostQ e | Device => deviceQ e end.
Definition put_queue (sd : side) (q : list cpkt) (e : CE) : CE :=
  match sd with Host => e <| hostQ := q |> | Device => e <| deviceQ := q |> end.
Definition isStalled (sd : side) (e : CE) : bool := negb (bool_decide (outstandingPkts sd e = [])).
Definition setStalled (sd : side) (p : cpkt) (e : CE) : CE := put_queue sd (outstandingPkts sd e ++ [p]) e.

(** [accepted] is the answer of the peer to [sendTimingReq]. *)
Definition sendPacket (sd : side) (accepted : bool) (p : cpkt) (e : CE) : CE * list output :=
  if isStalled sd e || negb accepted then (setStalled sd p e, []) else (e, [Sent p]).

(** A pointer to a port that is set. *)
Definition deref (p : option side) : res side :=
  match p with Some sd => Ok sd | None => Fault (Panic "null port") end.

(** Bytes or flags stored into an array. *)
Definition store {A} (off : Z) (xs l : list A) : res (list A) :=
  if (0 <=? off) && (off + Z.of_nat (length xs) <=? Z.of_nat (length l))
  then Ok (list_inserts (Z.to_nat off) xs l) else Fault (Panic "out of bounds").

(** [while (readDone < totalLength && readsDone[readDone]) readDone++]. *)
Fixpoint leading (l : list bool) : nat :=
  match l with true :: l => S (leading l) | _ => 0%nat end.

Section engine.
Variables (clockPeriod : Tick) (cacheLineSize bufferDepth driverDelay : Z).

(** [schedule(tickEvent, nextCycle())] unless it is scheduled. *)
Definition wake (now : Tick) (e : CE) : res CE :=
  if scheduled (tickEvent e) then Ok e
  else
    let r := nextCycle clockPeriod now (clk e) in
    ev ← schedule now r.1 (tickEvent e);
    Ok (e <| tickEvent := ev |> <| clk := r.2 |>).

(** The answers of the peer, one for each call of [sendTimingReq] that succeeds. *)
Fixpoint resend (now : Tick) (sd : side) (answers : list bool) (e : CE) : res (CE * list output) :=
  match answers, outstandingPkts sd e with
  | true :: answers, p :: rest =>
      e ← wake now (put_queue sd rest e);
      r ← resend now sd answers e;
      Ok (r.1, Sent p :: r.2)
  | _, _ => Ok (e, [])
  end.
Definition recvReqRetry (now : Tick) (sd : side) (answers : list bool) (e : CE) : res (CE * list output) :=
  assert (isStalled sd e) "outstandingPkts.size()";;
  resend now sd answers e.

Definition finishMemcpy (now : Tick) (e : CE) : CE :=
  let total_time := now - memCpyStartTime e in
  e <| running := false |> <| readPort := None |> <| writePort := None |> <| readDTB := None |> <| writeDTB := None |>
    <| cestats ::= λ st, stat_add "operationTimeTicks" 0 total_time (stat_inc "numOperations" st) |>
    <| memCpyStats ::= λ l, l ++ [(total_time, memCpyLength e)] |>.

Definition recvPacket (now : Tick) (p : cpkt) (e : CE) : res (CE * list output) :=
  let r := c_req p in
  if isRead (c_cmd p) then
    let off := sub64 (vaddr r) (beginAddr e) in
    data ← store off (c_data p) (curData e);
    flags ← store off (replicate (Z.to_nat (rsize r)) true) (readsDone e);
    let e := e <| curData := data |> <| cestats ::= stat_add "bytesRead" 0 (rsize r) |> <| readsDone := flags |> in
    e ← (if readDone e <? totalLength e then wake now (e <| needToWrite := true |>) else Ok e);
    let more := leading (take (Z.to_nat (totalLength e - readDone e)) (drop (Z.to_nat (readDone e)) (readsDone e))) in
    let e := e <| readDone ::= λ d, d + Z.of_nat more |> in
    Ok (if totalLength e <=? readDone e then e <| needToRead := false |> else e, [])
  else
    let e := e <| writeDone ::= λ d, u64 (d + rsize r) |> <| cestats ::= stat_add "bytesWritten" 0 (rsize r) |> in
    if negb (writeDone e <? totalLength e)
    then Ok (finishMemcpy now (e <| needToWrite := false |>), [Finished])
    else e ← wake now e; Ok (e, []).

(** ** Translations

    [fault] is whether the translation failed and [pa] the address it gave. *)
Definition finishTranslation (md : Mode) (r : request) (fault : bool) (pa : Addr) (accepted : bool) (e : CE)
    : res (CE * list output) :=
  if fault then Fault (Panic "Translation encountered fault")
  else match md with
       | Read => sd ← deref (readPort e); Ok (sendPacket sd accepted (mkCPkt ReadReq r pa []) e)
       | Write => sd ← deref (writePort e); Ok (sendPacket sd accepted (mkCPkt WriteReq r pa (extraData r)) e)
       end.

(** A translation finishes at once ([Some]) or later. *)
Definition beginTranslateTiming (dtb : option side) (md : Mode) (r : request) (tr : option (Addr * bool)) (e : CE)
    : res (CE * list output) :=
  _ ← deref dtb;
  match tr with
  | Some (pa, accepted) => finishTranslation md r false pa accepted e
  | None => Ok (e, [Translating md r])
  end.

(** The bytes up to the end of the line, or all that are left. *)
Definition chunk (a left : Z) : Z :=
  let size := if a mod cacheLineSize =? 0 then cacheLineSize else cacheLineSize - a mod cacheLineSize in
  if size - 1 <? left then size else left.

Definition tryRead (now : Tick) (tr : option (Addr * bool)) (e : CE) : res (CE * list output) :=
  if readLeft e <=? 0 then Ok (e, [])
  else
    let size := chunk (currentReadAddr e) (readLeft e) in
    r ← beginTranslateTiming (readDTB e) Read (mkReq (currentReadAddr e) size []) tr e;
    let e := (r.1) <| currentReadAddr ::= λ a, u64 (a + size) |> <| readLeft ::= λ l, sub64 l size |> in
    e ← (if negb (0 <? readLeft e) then wake now (e <| needToRead := false |>)
         else sd ← deref (readPort e); if negb (isStalled sd e) then wake now e else Ok e);
    Ok (e, r.2).

Definition tryWrite (now : Tick) (tr : option (Addr * bool)) (e : CE) : res (CE * list output) :=
  if writeLeft e <=? 0 then Ok (e, [])
  else
    let size := chunk (currentWriteAddr e) (writeLeft e) in
    let off := totalLength e - writeLeft e in
    if readDone e <? size + off then Ok (e, [])
    else
      assert (off + size <=? readDone e) "(totalLength-writeLeft +size) <= readDone";;
      let data := take (Z.to_nat size) (drop (Z.to_nat off) (curData e)) in
      r ← beginTranslateTiming (writeDTB e) Write (mkReq (currentWriteAddr e) size data) tr e;
      let e := (r.1) <| currentWriteAddr ::= λ a, u64 (a + size) |> <| writeLeft ::= λ l, sub64 l size |> in
      e ← (if negb (0 <? writeLeft e) then wake now e else Ok e);
      Ok (e, r.2).

Definition buffersFull (e : CE) : bool :=
  let amount_buffered := u32 (readDone e - (totalLength e - writeLeft e)) in
  (0 <? bufferDepth) && (bufferDepth <? amount_buffered).

Definition tick (now : Tick) (trR trW : option (Addr * bool)) (e : CE) : res (CE * list output) :=
  if negb (running e) then Ok (e, [])
  else
    rp ← deref (readPort e); wp ← deref (writePort e);
    if isStalled rp e && isStalled wp e then Ok (e, [])
    else
      r1 ← (if needToRead e && negb (isStalled rp e) && negb (buffersFull e) then tryRead now trR e else Ok (e, []));
      let e := r1.1 in
      r2 ← (if needToWrite e && negb (isStalled wp e) && (totalLength e - writeLeft e <? readDone e)
            then tryWrite now trW e else Ok (e, []));
      Ok (r2.1, r1.2 ++ r2.2).

(** ** Operations *)

(** [schedule(tickEvent, nextCycle() + driverDelay)] unless it is scheduled. *)
Definition start_event (now : Tick) (e : CE) : res CE :=
  if scheduled (tickEvent e) then Ok e
  else
    let r := nextCycle clockPeriod now (clk e) in
    ev ← schedule now (r.1 + driverDelay) (tickEvent e);
    Ok (e <| tickEvent := ev |> <| clk := r.2 |>).

Definition sides (type : stream_operation_type) : res (side * side) :=
  match type with
  | stream_memcpy_host_to_device => Ok (Host, Device)
  | stream_memcpy_device_to_host => Ok (Device, Host)
  | stream_memcpy_device_to_device => Ok (Device, Device)
  | stream_other => Fault (Panic "Unknown stream memcpy type")
  end.

Definition memcpy (now : Tick) (src dst length : Z) (type : stream_operation_type) (e : CE) : res CE :=
  sd ← sides type;
  let e := e <| readPort := Some sd.1 |> <| readDTB := Some sd.1 |> <| writePort := Some sd.2 |> <| writeDTB := Some sd.2 |> in
  assert (0 <? length) "length > 0";;
  let e := e <| memCpyLength := length |> in
  assert (negb (running e)) "!running";;
  start_event now
    (e <| running := true |> <| memCpyStartTime := now |> <| needToRead := true |> <| needToWrite := false |>
       <| currentReadAddr := src |> <| currentWriteAddr := dst |> <| beginAddr := src |>
       <| readLeft := length |> <| writeLeft := length |> <| totalLength := length |>
       <| readDone := 0 |> <| writeDone := 0 |>
       <| curData := replicate (Z.to_nat length) 0 |> <| readsDone := replicate (Z.to_nat length) false |>).

Definition memset (now : Tick) (dst value length : Z) (e : CE) : res CE :=
  assert (negb (running e) && negb (isSome (readPort e)) && negb (isSome (readDTB e))) "!running && !readPort && !readDTB";;
  let e := e <| readPort := Some Host |> <| readDTB := Some Host |> <| writePort := Some Device |> <| writeDTB := Some Device |> in
  assert (0 <? length) "length > 0";;
  start_event now
    (e <| running := true |> <| memCpyStartTime := now |> <| memCpyLength := length |>
       <| needToRead := false |> <| needToWrite := true |> <| currentWriteAddr := dst |>
       <| readLeft := 0 |> <| writeLeft := length |> <| totalLength := length |>
       <| readDone := length |> <| writeDone := 0 |>
       <| curData := replicate (Z.to_nat length) (u8 value) |> <| readsDone := replicate (Z.to_nat length) true |>).
End engine.
End CopyEngine.
