(* ===== verification/CopyEngineProofs.v ===== *)
(** * Copies are exact and end

    Runs of the copy engine: operations are started one after the other,
    translations and responses come in any order and at any time, and the peers
    refuse packets as they like.  The invariant says which bytes are being read,
    have arrived, are being written and have been written. *)

From S2P Require Import Prelude Intmath Packet DramTypes Clock ByteWrites CopyEngine.
Import Intmath MemCmd Clock CopyEngine.

Module CopyEngineProofs.

(** ** Runs *)

Inductive job : Type :=
| Copy (src dst len : Z) (type : stream_operation_type)
| Fill (dst value len : Z).

(** The tick, the engine, the translations and packets under way, the operation
    under way with the writes that were acknowledged, and the operations that
    were finished, with their writes. *)
Record crun := mkCRun
  { r_now : Tick; r_e : CE; r_tr : list (Mode * request); r_fly : list cpkt;
    r_job : option job; r_writes : list (Addr * list Z); r_jobs : list (job * list (Addr * list Z)) }.
#[export] Instance eta_crun : Eta crun := λ c,
  mkCRun (r_now c) (r_e c) (r_tr c) (r_fly c) (r_job c) (r_writes c) (r_jobs c).

Inductive cop : Type :=
| Start (j : job)
| Advance (t : Tick)
| Fire (trR trW : option (Addr * bool))
| Translated (i : nat) (pa : Addr) (accepted : bool)
| Retry (sd : side) (answers : list bool)
| Respond (i : nat).

Definition absorb (c : crun) (o : output) : crun :=
  match o with
  | Translating md r => c <| r_tr ::= λ l, l ++ [(md, r)] |>
  | Sent p => c <| r_fly ::= λ l, l ++ [p] |>
  | Finished =>
      match r_job c with
      | Some j => c <| r_jobs ::= λ l, l ++ [(j, r_writes c)] |> <| r_job := None |> <| r_writes := [] |>
      | None => c
      end
  end.
Definition outcome (c : crun) (r : CE * list output) : crun := foldl absorb (c <| r_e := r.1 |>) r.2.

Definition j_dst (j : job) : Addr := match j with Copy _ d _ _ => d | Fill d _ _ => d end.
Definition j_len (j : job) : Z := match j with Copy _ _ n _ => n | Fill _ _ n => n end.
Definition j_base (j : job) : Addr := match j with Copy s _ _ _ => s | Fill _ _ _ => 0 end.

Definition job_ok (j : job) : bool :=
  (0 <? j_len j) && (j_len j <? 2 ^ 31) && (0 <=? j_base j) && (j_base j + j_len j <? 2 ^ 64) &&
  (0 <=? j_dst j) && (j_dst j + j_len j <? 2 ^ 64) &&
  match j with Copy _ _ _ stream_other => false | _ => true end.

Section run.
Variables (clockPeriod : Tick) (cacheLineSize bufferDepth driverDelay : Z).
(** The memory that is read; it does not change during a copy. *)
Variable content : Addr → Z.

Definition c_guard (c : crun) (op : cop) : bool :=
  match op with
  | Start j => negb (isSome (r_job c)) && job_ok j
  | Advance t => (r_now c <=? t) && (t <=? default t (tickEvent (r_e c)))
  | Fire _ _ => bool_decide (tickEvent (r_e c) = Some (r_now c))
  | Translated i _ _ => isSome (r_tr c !! i)
  | Retry sd _ => isStalled sd (r_e c)
  | Respond i => isSome (r_fly c !! i)
  end.

(** The memory's response to a request. *)
Definition answer (p : cpkt) : cpkt :=
  if isRead (c_cmd p)
  then mkCPkt ReadResp (c_req p) (c_paddr p) (content <$> seqZ (vaddr (c_req p)) (rsize (c_req p)))
  else mkCPkt WriteResp (c_req p) (c_paddr p) [].

Definition c_step (c : crun) (op : cop) : res crun :=
  match op with
  | Start j =>
      e ← match j with
          | Copy src dst len type => memcpy clockPeriod driverDelay (r_now c) src dst len type (r_e c)
          | Fill dst value len => memset clockPeriod driverDelay (r_now c) dst value len (r_e c)
          end;
      Ok (c <| r_e := e |> <| r_job := Some j |> <| r_writes := [] |>)
  | Advance t => Ok (c <| r_now := t |>)
  | Fire trR trW =>
      outcome c <$> tick clockPeriod cacheLineSize bufferDepth (r_now c) trR trW ((r_e c) <| tickEvent := None |>)
  | Translated i pa accepted =>
      match r_tr c !! i with
      | Some (md, r) =>
          outcome (c <| r_tr ::= delete i |>) <$> finishTranslation md r false pa accepted (r_e c)
      | None => Fault (Panic "no such translation")
      end
  | Retry sd answers => outcome c <$> recvReqRetry clockPeriod (r_now c) sd answers (r_e c)
  | Respond i =>
      match r_fly c !! i with
      | Some p =>
          let ws := if isRead (c_cmd p) then [] else [(vaddr (c_req p), c_data p)] in
          outcome (c <| r_fly ::= delete i |> <| r_writes ::= λ l, l ++ ws |>)
            <$> recvPacket clockPeriod (r_now c) (answer p) (r_e c)
      | None => Fault (Panic "no such packet")
      end
  end.
Definition c_gstep (c : crun) (op : cop) : res crun := if c_guard c op then c_step c op else Ok c.
Definition start : crun := mkCRun 0 new_engine [] [] None [] [].

(** ** What is under way *)

Definition of_pkt (p : cpkt) : Mode * request := (if isRead (c_cmd p) then Read else Write, c_req p).
(** Requests queued at the ports, and those of some outputs. *)
Definition queued (e : CE) : list (Mode * request) := of_pkt <$> (hostQ e ++ deviceQ e).
Definition leaving (o : output) : list (Mode * request) :=
  match o with Translating md r => [(md, r)] | Sent p => [of_pkt p] | Finished => [] end.
Definition outside (c : crun) : list (Mode * request) := r_tr c ++ (of_pkt <$> r_fly c).
Definition pend (c : crun) : list (Mode * request) := queued (r_e c) ++ outside c.

(** 1 if the byte lies in the range. *)
Definition ind (a n x : Z) : Z := if (a <=? x) && (x <? a + n) then 1 else 0.
Definition cover_of (md : Mode) (x : Z) (y : Mode * request) : Z :=
  if decide (y.1 = md) then ind (vaddr y.2) (rsize y.2) x else 0.
Fixpoint zsum {A} (f : A → Z) (l : list A) : Z := match l with [] => 0 | x :: l => f x + zsum f l end.
(** How many requests of a mode contain a byte, and how many writes. *)
Definition cover (md : Mode) (x : Z) (P : list (Mode * request)) : Z := zsum (cover_of md x) P.
Definition acover (x : Z) (ws : list (Addr * list Z)) : Z := zsum (λ w, ind w.1 (Z.of_nat (length w.2)) x) ws.
Definition wsize (y : Mode * request) : Z := if decide (y.1 = Write) then rsize y.2 else 0.
Definition asize (w : Addr * list Z) : Z := Z.of_nat (length w.2).

Lemma zsum_app {A} (f : A → Z) l l' : zsum f (l ++ l') = zsum f l + zsum f l'.
Proof. induction l as [|x l IH]; cbn; [done|rewrite IH; lia]. Qed.
#[export] Instance zsum_proper {A} (f : A → Z) : Proper ((≡ₚ) ==> (=)) (zsum f).
Proof. induction 1; cbn; lia. Qed.
Lemma zsum_nonneg {A} (f : A → Z) l : (∀ x, x ∈ l → 0 ≤ f x) → 0 ≤ zsum f l.
Proof. induction l as [|x l IH]; intros H; cbn; [done|]. pose proof (H x ltac:(left)). specialize (IH ltac:(intros; apply H; by right)). lia. Qed.
Lemma zsum_le {A} (f : A → Z) l x : (∀ x, x ∈ l → 0 ≤ f x) → x ∈ l → f x ≤ zsum f l.
Proof.
  intros H Hx. apply elem_of_Permutation in Hx as [k Hk]. rewrite Hk. cbn. assert (0 ≤ zsum f k); [|lia].
  apply zsum_nonneg. intros y Hy. apply H. rewrite Hk. by right.
Qed.
Lemma ind_range a n x : 0 ≤ ind a n x ≤ 1.
Proof. unfold ind. destruct (_ && _); lia. Qed.
Lemma cover_of_range md x y : 0 ≤ cover_of md x y ≤ 1.
Proof. unfold cover_of. case_decide; [apply ind_range|lia]. Qed.

(** ** Correct writes *)

(** The byte number [i] the operation has to write. *)
Definition target (j : job) (i : Z) : Z :=
  match j with Copy s _ _ _ => content (s + i) | Fill _ v _ => u8 v end.
(** A range inside one cache line. *)
Definition one_line (a n : Z) : Prop := (a + n - 1) `div` cacheLineSize = a `div` cacheLineSize.

Definition write_ok (j : job) (w : Addr * list Z) : Prop :=
  let n := Z.of_nat (length w.2) in
  0 < n ∧ j_dst j ≤ w.1 ∧ w.1 + n ≤ j_dst j + j_len j ∧ one_line w.1 n ∧ w.2 = target j <$> seqZ (w.1 - j_dst j) n.
(** Every byte is written once, and nothing else. *)
Definition copied (j : job) (ws : list (Addr * list Z)) : Prop :=
  (∀ i, 0 ≤ i < j_len j → acover (j_dst j + i) ws = 1) ∧ Forall (write_ok j) ws.

Definition ce_req_ok (j : job) (x : Mode * request) : Prop :=
  let '(md, r) := x in
  0 < rsize r ∧ one_line (vaddr r) (rsize r) ∧
  match md with
  | Read => j_base j ≤ vaddr r ∧ vaddr r + rsize r ≤ j_base j + j_len j
  | Write => j_dst j ≤ vaddr r ∧ vaddr r + rsize r ≤ j_dst j + j_len j ∧
      extraData r = target j <$> seqZ (vaddr r - j_dst j) (rsize r)
  end.

(** ** The invariant of an operation *)

Definition arrived (e : CE) (i : Z) : Prop := readsDone e !! Z.to_nat i = Some true.
#[export] Instance arrived_dec e i : Decision (arrived e i).
Proof. unfold arrived. apply _. Defined.
Definition arrived_z (e : CE) (i : Z) : Z := if decide (arrived e i) then 1 else 0.
Definition below (i n : Z) : Z := if i <? n then 1 else 0.

Record jinv (j : job) (e : CE) (P : list (Mode * request)) (ws : list (Addr * list Z)) : Prop :=
  { ji_job : job_ok j = true;
    ji_ports : isSome (readPort e) = true ∧ isSome (writePort e) = true ∧ isSome (readDTB e) = true ∧ isSome (writeDTB e) = true;
    ji_total : totalLength e = j_len j;
    ji_left : 0 ≤ readLeft e ≤ j_len j ∧ 0 ≤ writeLeft e ≤ j_len j;
    ji_read : needToRead e = (0 <? readLeft e);
    ji_write : 0 < readDone e → needToWrite e = true;
    ji_raddr : 0 < readLeft e → currentReadAddr e = j_base j + (j_len j - readLeft e);
    ji_waddr : currentWriteAddr e = j_dst j + (j_len j - writeLeft e);
    ji_begin : match j with Copy s _ _ _ => beginAddr e = s | Fill _ _ _ => readLeft e = 0 ∧ Forall (λ x, x.1 = Write) P end;
    ji_lengths : Z.of_nat (length (readsDone e)) = j_len j ∧ Z.of_nat (length (curData e)) = j_len j;
    ji_reqs : Forall (ce_req_ok j) P;
    ji_cover : ∀ i, 0 ≤ i < j_len j → cover Read (j_base j + i) P + arrived_z e i = below i (j_len j - readLeft e);
    ji_done : 0 ≤ readDone e ≤ j_len j ∧ (∀ i, 0 ≤ i < readDone e → arrived e i) ∧
      (readDone e < j_len j → ¬ arrived e (readDone e));
    ji_data : ∀ i, 0 ≤ i → arrived e i → curData e !! Z.to_nat i = Some (target j i);
    ji_ahead : j_len j - writeLeft e ≤ readDone e;
    ji_wcover : ∀ i, 0 ≤ i < j_len j → cover Write (j_dst j + i) P + acover (j_dst j + i) ws = below i (j_len j - writeLeft e);
    ji_wsum : zsum wsize P + zsum asize ws = j_len j - writeLeft e;
    ji_wdone : writeDone e = zsum asize ws;
    ji_open : writeDone e < j_len j;
    ji_ws : Forall (write_ok j) ws }.

#[export] Instance jinv_proper j e : Proper ((≡ₚ) ==> (=) ==> impl) (jinv j e).
Proof.
  intros P P' HP ws ? <- []. unfold cover in *. split; unfold cover; try done; try (setoid_rewrite <-HP; done).
  destruct j; [done|]. by rewrite <-HP.
Qed.

(** The fields the invariant speaks of. *)
Definition core (e : CE) :=
  (readPort e, writePort e, (readDTB e, writeDTB e), (totalLength e, readLeft e, writeLeft e),
   (needToRead e, needToWrite e, readDone e, writeDone e), (currentReadAddr e, currentWriteAddr e, beginAddr e),
   (readsDone e, curData e)).
Lemma jinv_core j e e' P ws : core e' = core e → jinv j e P ws → jinv j e' P ws.
Proof.
  unfold core. intros [= E1 E2 E3 E4 E5 E6 E7 E8 E9 E10 E11 E12 E13 E14 E15 E16] [].
  assert (∀ i, arrived e' i ↔ arrived e i) as Ha by (intros i; unfold arrived; by rewrite E15).
  assert (∀ i, arrived_z e' i = arrived_z e i) as Hz by (intros i; apply decide_ext, Ha).
  split; rewrite ?E1, ?E2, ?E3, ?E4, ?E5, ?E6, ?E7, ?E8, ?E9, ?E10, ?E11, ?E12, ?E13, ?E14, ?E15, ?E16; try done.
  - intros i Hi. rewrite Hz. by apply ji_cover0.
  - by setoid_rewrite Ha.
  - intros i. rewrite Ha. by apply ji_data0.
Qed.

Hypothesis period_pos : 0 < clockPeriod.
Hypothesis line_pos : 0 < cacheLineSize.
Hypothesis depth_ok : bufferDepth = 0 ∨ cacheLineSize ≤ bufferDepth.
Hypothesis delay_pos : 0 ≤ driverDelay.

(** ** The parts of the operations *)

Definition engine_ok (now : Tick) (e : CE) : Prop :=
  0 ≤ now ∧ clock_ok clockPeriod now (clk e) ∧ ∀ t, tickEvent e = Some t → now ≤ t.

(** The steps that are left, counted by stages. *)
Definition ow (o : output) : Z := match o with Translating _ _ => 8 | Sent _ => 4 | Finished => 0 end.
Definition qw (e : CE) : Z := 6 * Z.of_nat (length (hostQ e) + length (deviceQ e)).
Definition wt (e : CE) : Z :=
  16 * (readLeft e + writeLeft e) + qw e + (if scheduled (tickEvent e) then 1 else 0).

Lemma nextCycle_ok now c : clock_ok clockPeriod now c →
  ∃ t c', nextCycle clockPeriod now c = (t, c') ∧ clock_ok clockPeriod now c' ∧ now ≤ t.
Proof.
  intros H. destruct (clockEdge_ok clockPeriod period_pos now 1 c H) as (c' & E & H'). eexists _, _. split; [exact E|].
  split; [done|]. pose proof (edge_late clockPeriod period_pos now 1). lia.
Qed.

Lemma schedule_none now t : now ≤ t → schedule now t None = Ok (Some t).
Proof. intros H. unfold schedule. rewrite assert_bind by lia. done. Qed.

Lemma wake_ok now e : engine_ok now e →
  ∃ t ck, wake clockPeriod now e = Ok (e <| tickEvent := Some t |> <| clk := ck |>) ∧
    engine_ok now (e <| tickEvent := Some t |> <| clk := ck |>).
Proof.
  intros (H0 & Hc & Ht). unfold wake. destruct (tickEvent e) as [t|] eqn:Et; cbn [scheduled isSome].
  - exists t, (clk e). split; [f_equal; destruct e; cbn in *; by subst|]. split_and!; cbn; [done..|]. intros ? [= <-]. by apply Ht.
  - destruct (nextCycle_ok now (clk e) Hc) as (t & ck & -> & Hck & Hle). cbn [fst snd]. rewrite schedule_none by done.
    exists t, ck. split; [done|]. split_and!; cbn; [done..|]. by intros ? [= <-].
Qed.

Lemma start_event_ok now e : engine_ok now e →
  ∃ t ck, start_event clockPeriod driverDelay now e = Ok (e <| tickEvent := Some t |> <| clk := ck |>) ∧
    engine_ok now (e <| tickEvent := Some t |> <| clk := ck |>).
Proof.
  intros (H0 & Hc & Ht). unfold start_event. destruct (tickEvent e) as [t|] eqn:Et; cbn [scheduled isSome].
  - exists t, (clk e). split; [f_equal; destruct e; cbn in *; by subst|]. split_and!; cbn; [done..|]. intros ? [= <-]. by apply Ht.
  - destruct (nextCycle_ok now (clk e) Hc) as (t & ck & -> & Hck & Hle). cbn [fst snd]. rewrite schedule_none by lia.
    exists (t + driverDelay), ck. split; [done|]. split_and!; cbn; [done..|]. intros ? [= <-]. lia.
Qed.

Lemma chunk_ok a left : 0 < left →
  0 < chunk cacheLineSize a left ≤ left ∧ chunk cacheLineSize a left ≤ cacheLineSize ∧ one_line a (chunk cacheLineSize a left).
Proof.
  intros Hl. pose proof (Z.mod_pos_bound a cacheLineSize line_pos) as Hm. unfold chunk.
  assert (∃ s, (if a mod cacheLineSize =? 0 then cacheLineSize else cacheLineSize - a mod cacheLineSize) = s ∧
    0 < s ∧ a mod cacheLineSize + s ≤ cacheLineSize) as (s & -> & Hs).
  { destruct (Z.eqb_spec (a mod cacheLineSize) 0); eexists; (split; [reflexivity|lia]). }
  assert (∀ n, 0 < n ≤ s → one_line a n) as Hone.
  { intros n Hn. unfold one_line. symmetry. apply Z.div_unique with (a mod cacheLineSize + n - 1); [lia|].
    pose proof (Z.div_mod a cacheLineSize). lia. }
  destruct (Z.ltb_spec (s - 1) left); (split_and!; [lia..|apply Hone; lia]).
Qed.

(** Packets carry the data of their requests. *)
Definition pkt_ok (p : cpkt) : Prop :=
  (c_cmd p = ReadReq ∧ c_data p = []) ∨ (c_cmd p = WriteReq ∧ c_data p = extraData (c_req p)).
Definition pkts_ok (e : CE) : Prop := Forall pkt_ok (hostQ e ++ deviceQ e).
Definition out_ok (o : output) : Prop := match o with Translating _ _ => True | Sent p => pkt_ok p | Finished => False end.

(** A request [x] leaves the engine or is queued at a port, at a cost of [n]. *)
Definition handed (n : Z) (x : Mode * request) (e : CE) (hq dq : list cpkt) (o : list output) : Prop :=
  (of_pkt <$> (hq ++ dq)) ++ flat_map leaving o ≡ₚ x :: queued e ∧
  (pkts_ok e → Forall pkt_ok (hq ++ dq)) ∧ Forall out_ok o ∧
  6 * Z.of_nat (length hq + length dq) + zsum ow o ≤ qw e + n.

Lemma send_ok sd accepted p e : pkt_ok p →
  ∃ hq dq o, sendPacket sd accepted p e = (e <| hostQ := hq |> <| deviceQ := dq |>, o) ∧ handed 6 (of_pkt p) e hq dq o.
Proof.
  intros Hp. unfold sendPacket, handed, qw, queued, pkts_ok. destruct (isStalled sd e || negb accepted).
  - destruct sd; [exists (hostQ e ++ [p]), (deviceQ e), []|exists (hostQ e), (deviceQ e ++ [p]), []];
      rewrite ?app_nil_r, !length_app, !fmap_app; (split; [by destruct e|]); cbn [length zsum flat_map];
      split_and!; [cbn; solve_Permutation| |constructor|lia|cbn; solve_Permutation| |constructor|lia];
      rewrite !Forall_app, Forall_singleton; tauto.
  - exists (hostQ e), (deviceQ e), [Sent p]. split; [by destruct e|].
    split_and!; [cbn; solve_Permutation|done|by apply Forall_singleton|cbn; lia].
Qed.

Lemma ce_finish_ok md r pa accepted e : isSome (readPort e) = true → isSome (writePort e) = true →
  ∃ hq dq o, finishTranslation md r false pa accepted e = Ok (e <| hostQ := hq |> <| deviceQ := dq |>, o) ∧
    handed 6 (md, r) e hq dq o.
Proof.
  intros Hr Hw. unfold finishTranslation. destruct (readPort e) as [rp|]; [|done]. destruct (writePort e) as [wp|]; [|done].
  destruct md; cbn [deref mbind res_bind].
  - destruct (send_ok rp accepted (mkCPkt ReadReq r pa []) e) as (hq & dq & o & -> & H); [by left|]. by exists hq, dq, o.
  - destruct (send_ok wp accepted (mkCPkt WriteReq r pa (extraData r)) e) as (hq & dq & o & -> & H); [by right|]. by exists hq, dq, o.
Qed.

Lemma begin_ok dtb md r tr e : isSome dtb = true → isSome (readPort e) = true → isSome (writePort e) = true →
  ∃ hq dq o, beginTranslateTiming dtb md r tr e = Ok (e <| hostQ := hq |> <| deviceQ := dq |>, o) ∧
    handed 8 (md, r) e hq dq o.
Proof.
  intros Hd Hr Hw. unfold beginTranslateTiming. destruct dtb; [|done]. cbn [deref mbind res_bind]. destruct tr as [[pa a]|].
  - destruct (ce_finish_ok md r pa a e Hr Hw) as (hq & dq & o & -> & H1 & H2 & H3 & H4). exists hq, dq, o. unfold handed. split_and!; [done..|lia].
  - exists (hostQ e), (deviceQ e), [Translating md r]. unfold handed, qw, queued.
    split_and!; [by destruct e|cbn; solve_Permutation|done|by apply Forall_singleton|cbn; lia].
Qed.

(** ** Requests that are issued *)

Lemma below_ind b i m n : 0 ≤ n → below i (m + n) = below i m + ind (b + m) n (b + i).
Proof.
  intros Hn. unfold below, ind. destruct (Z.ltb_spec i (m + n)), (Z.ltb_spec i m), (Z.leb_spec (b + m) (b + i)), (Z.ltb_spec (b + i) (b + m + n));
    cbn; lia.
Qed.

Lemma arrived_z_same e e' i : readsDone e' = readsDone e → arrived_z e' i = arrived_z e i.
Proof. intros E. apply decide_ext. unfold arrived. by rewrite E. Qed.
Lemma cover_same md x r : cover_of md x (md, r) = ind (vaddr r) (rsize r) x.
Proof. unfold cover_of. by rewrite decide_True. Qed.

Lemma wsize_write r : wsize (Write, r) = rsize r.
Proof. done. Qed.

Lemma job_bounds j : job_ok j = true →
  0 < j_len j < 2 ^ 31 ∧ 0 ≤ j_base j ∧ j_base j + j_len j < 2 ^ 64 ∧ 0 ≤ j_dst j ∧ j_dst j + j_len j < 2 ^ 64.
Proof. unfold job_ok. rewrite !andb_true_iff. lia. Qed.

Lemma read_more j e P ws n : jinv j e P ws → 0 < n ≤ readLeft e → one_line (currentReadAddr e) n →
  jinv j (e <| currentReadAddr ::= λ a, u64 (a + n) |> <| readLeft ::= λ l, sub64 l n |> <| needToRead := 0 <? sub64 (readLeft e) n |>)
    ((Read, mkReq (currentReadAddr e) n []) :: P) ws.
Proof.
  intros H Hn Hl. pose proof (job_bounds _ (ji_job _ _ _ _ H)) as Hj. destruct H as [? ? ? Hleft ? ? Hra ? Hb ? ? Hc ? ? ? Hw ? ? ? ?].
  rewrite Hra in Hl |- * by lia.
  assert (sub64 (readLeft e) n = readLeft e - n) as El by (apply sub64_small; lia).
  split; cbn; rewrite ?El; try done; [lia| | | | ].
  - intros _. rewrite Hra by lia. rewrite u64_small by lia. lia.
  - destruct j as [s d len ty|d v len]; [done|]. destruct Hb as [Hz _]. cbn in *. lia.
  - constructor; [|done]. cbn. split_and!; [lia|done|lia|lia].
  - intros i Hi. rewrite (arrived_z_same e) by done. specialize (Hc i Hi). unfold cover in Hc. rewrite cover_same. cbn [vaddr rsize].
    replace (j_len j - (readLeft e - n)) with (j_len j - readLeft e + n) by lia. rewrite (below_ind (j_base j)) by lia. lia.
Qed.

(** A part of the buffer whose bytes have arrived. *)
Lemma slice_ok (l : list Z) (f : Z → Z) off n : 0 ≤ off → (∀ i, off ≤ i < off + n → l !! Z.to_nat i = Some (f i)) →
  take (Z.to_nat n) (drop (Z.to_nat off) l) = f <$> seqZ off n.
Proof.
  intros Ho H. apply list_eq. intros k. destruct (decide (k < Z.to_nat n)%nat) as [Hk|Hk].
  - rewrite lookup_take_lt, lookup_drop, list_lookup_fmap by done. rewrite lookup_seqZ_lt by lia. cbn.
    rewrite <-H by lia. f_equal. lia.
  - rewrite lookup_take_ge, list_lookup_fmap by lia. rewrite lookup_seqZ_ge by lia. done.
Qed.

Lemma write_more j e P ws n data : jinv j e P ws → 0 < n ≤ writeLeft e → one_line (currentWriteAddr e) n →
  j_len j - writeLeft e + n ≤ readDone e → data = take (Z.to_nat n) (drop (Z.to_nat (j_len j - writeLeft e)) (curData e)) →
  jinv j (e <| currentWriteAddr ::= λ a, u64 (a + n) |> <| writeLeft ::= λ l, sub64 l n |>)
    ((Write, mkReq (currentWriteAddr e) n data) :: P) ws.
Proof.
  intros H Hn Hl Hd ->. pose proof (job_bounds _ (ji_job _ _ _ _ H)) as Hj. destruct H as [? ? ? Hleft ? ? ? Hwa Hb ? ? Hc [Hdone [Hpre ?]] Hdata ? Hw Hs ? ? ?].
  rewrite Hwa in Hl |- *.
  assert (sub64 (writeLeft e) n = writeLeft e - n) as El by (apply sub64_small; lia).
  split; cbn; rewrite ?El; try done; try lia.
  - rewrite u64_small; lia.
  - destruct j as [s d len ty|d v len]; [done|]. destruct Hb as [Hz Hf]. split; [done|]. by constructor.
  - constructor; [|done]. cbn. split_and!; [lia|done|lia|lia|].
    rewrite (slice_ok _ (target j)); [f_equal; f_equal; lia|lia|]. intros i Hi. apply Hdata; [lia|]. apply Hpre. lia.
  - intros i Hi. specialize (Hw i Hi). unfold cover in Hw. rewrite cover_same. cbn [vaddr rsize].
    replace (j_len j - (writeLeft e - n)) with (j_len j - writeLeft e + n) by lia. rewrite (below_ind (j_dst j)) by lia. lia.
  - rewrite wsize_write. cbn. lia.
Qed.

(** The engine [e] became [e'] with the outputs [o], which added a request. *)
Record issued (j : job) (X : list (Mode * request)) (ws : list (Addr * list Z)) (now : Tick) (e e' : CE) (o : list output) : Prop :=
  { is_inv : jinv j e' (queued e' ++ flat_map leaving o ++ X) ws;
    is_engine : engine_ok now e';
    is_pkts : pkts_ok e';
    is_running : running e' = running e;
    is_out : Forall out_ok o;
    is_some : queued e' ++ flat_map leaving o ≠ [];
    is_less : wt e' + zsum ow o < wt e }.

(** A request that was handed on, and perhaps a tick scheduled. *)
Lemma issued_intro j X ws now e e1 x hq dq o ev ck :
  let e' := e1 <| hostQ := hq |> <| deviceQ := dq |> <| tickEvent := ev |> <| clk := ck |> in
  jinv j e1 (x :: queued e ++ X) ws → handed 8 x e hq dq o → engine_ok now e' → pkts_ok e → running e1 = running e →
  readLeft e1 + writeLeft e1 < readLeft e + writeLeft e → issued j X ws now e e' o.
Proof.
  intros e' H (H1 & H2 & H3 & H4) He Hp Hr Hl. split; try done; unfold queued; cbn.
  - eapply jinv_core; [|eapply jinv_proper; [|reflexivity|exact H]]; [done|]. rewrite app_assoc, H1. done.
  - by apply H2.
  - intros E0. rewrite E0 in H1. by apply Permutation_nil_cons in H1.
  - unfold wt, qw in *. cbn in *. destruct (scheduled ev), (scheduled (tickEvent e)); lia.
Qed.

Lemma tryRead_ok j X ws now tr e : jinv j e (queued e ++ X) ws → engine_ok now e → pkts_ok e → 0 < readLeft e →
  ∃ e' o, tryRead clockPeriod cacheLineSize now tr e = Ok (e', o) ∧ issued j X ws now e e' o.
Proof.
  intros H He Hp Hl. destruct (chunk_ok (currentReadAddr e) (readLeft e) Hl) as (Hn & _ & Hone).
  unfold tryRead. set (n := chunk _ _ _) in *. destruct (Z.leb_spec (readLeft e) 0); [lia|].
  destruct (ji_ports _ _ _ _ H) as (P1 & P2 & P3 & P4).
  destruct (begin_ok (readDTB e) Read (mkReq (currentReadAddr e) n []) tr e P3 P1 P2) as (hq & dq & o & -> & Ho). cbn [mbind res_bind fst snd].
  pose proof (read_more j e _ ws n H Hn Hone) as H1. set (e2 := _ <| readLeft ::= _ |>).
  pose proof (ji_left _ _ _ _ H). pose proof (job_bounds _ (ji_job _ _ _ _ H)).
  assert (sub64 (readLeft e) n = readLeft e - n) as El by (apply sub64_small; lia).
  assert (engine_ok now e2 ∧ engine_ok now (e2 <| needToRead := false |>)) as [He2 He2'] by done.
  assert (∀ ev ck b, b = (0 <? sub64 (readLeft e) n) → let e' := e2 <| needToRead := b |> <| tickEvent := ev |> <| clk := ck |> in
    engine_ok now e' → issued j X ws now e e' o) as Hfin.
  { intros ev ck b -> e' He'. apply (issued_intro j X ws now e _ _ hq dq o ev ck H1 Ho); try done. cbn. rewrite El. lia. }
  destruct (Z.ltb_spec 0 (readLeft e2)) as [Hpos|Hpos]; cbn [negb]; change (readLeft e2) with (sub64 (readLeft e) n) in Hpos.
  - change (readPort e2) with (readPort e). destruct (readPort e) as [rp|]; [|done]. cbn [deref mbind res_bind].
    destruct (isStalled rp e2); cbn [negb].
    + eexists _, o. split; [reflexivity|]. apply (Hfin (tickEvent e) (clk e) (needToRead e)); [|done].
      rewrite (ji_read _ _ _ _ H). destruct (Z.ltb_spec 0 (readLeft e)), (Z.ltb_spec 0 (sub64 (readLeft e) n)); done || lia.
    + destruct (wake_ok now e2 He2) as (t & ck & -> & Hw). eexists _, o. split; [reflexivity|].
      apply (Hfin (Some t) ck (needToRead e)); [|done].
      rewrite (ji_read _ _ _ _ H). destruct (Z.ltb_spec 0 (readLeft e)), (Z.ltb_spec 0 (sub64 (readLeft e) n)); done || lia.
  - destruct (wake_ok now _ He2') as (t & ck & -> & Hw). eexists _, o. split; [reflexivity|].
    apply (Hfin (Some t) ck false); [|done]. destruct (Z.ltb_spec 0 (sub64 (readLeft e) n)); done || lia.
Qed.

Lemma tryWrite_ok j X ws now tr e : jinv j e (queued e ++ X) ws → engine_ok now e → pkts_ok e → 0 < writeLeft e →
  ∃ e' o, tryWrite clockPeriod cacheLineSize now tr e = Ok (e', o) ∧
    (issued j X ws now e e' o ∨
     e' = e ∧ o = [] ∧ readDone e < j_len j - writeLeft e + chunk cacheLineSize (currentWriteAddr e) (writeLeft e)).
Proof.
  intros H He Hp Hl. destruct (chunk_ok (currentWriteAddr e) (writeLeft e) Hl) as (Hn & _ & Hone).
  unfold tryWrite. set (n := chunk _ _ _) in *. destruct (Z.leb_spec (writeLeft e) 0); [lia|]. rewrite (ji_total _ _ _ _ H).
  destruct (Z.ltb_spec (readDone e) (n + (j_len j - writeLeft e))); [eexists _, _; split; [reflexivity|]; right; split_and!; [done..|lia]|].
  rewrite assert_bind by lia. destruct (ji_ports _ _ _ _ H) as (P1 & P2 & P3 & P4). set (data := take _ _).
  destruct (begin_ok (writeDTB e) Write (mkReq (currentWriteAddr e) n data) tr e P4 P1 P2) as (hq & dq & o & -> & Ho). cbn [mbind res_bind fst snd].
  pose proof (write_more j e _ ws n data H Hn Hone ltac:(lia) eq_refl) as Hwm. set (e2 := _ <| writeLeft ::= _ |>).
  pose proof (ji_left _ _ _ _ H). pose proof (job_bounds _ (ji_job _ _ _ _ H)).
  assert (sub64 (writeLeft e) n = writeLeft e - n) as El by (apply sub64_small; lia).
  assert (∀ ev ck, let e' := e2 <| tickEvent := ev |> <| clk := ck |> in engine_ok now e' → issued j X ws now e e' o) as Hfin.
  { intros ev ck e' He'. apply (issued_intro j X ws now e _ _ hq dq o ev ck Hwm Ho); try done. cbn. rewrite El. lia. }
  destruct (0 <? writeLeft e2); cbn [negb].
  - eexists _, o. split; [reflexivity|]. left. by apply (Hfin (tickEvent e) (clk e)).
  - destruct (wake_ok now e2 He) as (t & ck & -> & Hw). eexists _, o. split; [reflexivity|]. left. by apply (Hfin (Some t) ck).
Qed.

(** *** A tick *)

Record ticked (j : job) (X : list (Mode * request)) (ws : list (Addr * list Z)) (now : Tick) (e e' : CE) (o : list output) : Prop :=
  { ti_inv : jinv j e' (queued e' ++ flat_map leaving o ++ X) ws;
    ti_engine : engine_ok now e';
    ti_pkts : pkts_ok e';
    ti_running : running e' = running e;
    ti_out : Forall out_ok o;
    ti_less : wt e' + zsum ow o ≤ wt e }.

Lemma issued_ticked j X ws now e e' o : issued j X ws now e e' o → ticked j X ws now e e' o.
Proof. intros []. split; try done. lia. Qed.
Lemma ticked_refl j X ws now e : jinv j e (queued e ++ X) ws → engine_ok now e → pkts_ok e → ticked j X ws now e e [].
Proof. intros. split; try done. cbn. lia. Qed.
Lemma ticked_trans j X ws now e e1 e2 o1 o2 :
  ticked j X ws now e e1 o1 → ticked j (flat_map leaving o1 ++ X) ws now e1 e2 o2 → ticked j X ws now e e2 (o1 ++ o2).
Proof.
  intros [H1 _ _ R1 O1 L1] [H2 E2 K2 R2 O2 L2]. split; try done.
  - eapply jinv_proper; [|reflexivity|exact H2]. rewrite flat_map_app. solve_Permutation.
  - congruence.
  - by apply Forall_app.
  - rewrite zsum_app. lia.
Qed.

(** With nothing under way all that was asked for has arrived. *)
Lemma idle_done j e ws : jinv j e [] ws → readDone e = j_len j - readLeft e ∧ 0 < writeLeft e.
Proof.
  intros H. pose proof (ji_left _ _ _ _ H). pose proof (ji_open _ _ _ _ H). pose proof (ji_wdone _ _ _ _ H). pose proof (ji_wsum _ _ _ _ H) as Hs. cbn in Hs.
  split; [|lia]. pose proof (ji_done _ _ _ _ H) as (Hd & Hpre & Hnext).
  assert (∀ i, 0 ≤ i < j_len j → arrived e i ↔ i < j_len j - readLeft e) as Ha.
  { intros i Hi. pose proof (ji_cover _ _ _ _ H i Hi) as Hc. unfold arrived_z, below in Hc. cbn in Hc.
    destruct (decide (arrived e i)), (Z.ltb_spec i (j_len j - readLeft e)); split; intros; done || lia. }
  destruct (Z.lt_trichotomy (readDone e) (j_len j - readLeft e)) as [Hlt|[|Hgt]]; [|done|].
  - destruct Hnext; [lia|]. apply Ha; lia.
  - assert (arrived e (j_len j - readLeft e)) as ?%Ha by (apply Hpre; lia); lia.
Qed.

Lemma buffers_bound e : buffersFull bufferDepth e = true → cacheLineSize < readDone e - (totalLength e - writeLeft e) ∨ readDone e < totalLength e - writeLeft e.
Proof.
  unfold buffersFull. rewrite andb_true_iff. intros [H1 H2].
  destruct (Z.lt_ge_cases (readDone e) (totalLength e - writeLeft e)); [by right|left].
  assert (u32 (readDone e - (totalLength e - writeLeft e)) ≤ readDone e - (totalLength e - writeLeft e)) by (apply Z.mod_le; lia). lia.
Qed.

Lemma tick_ok j X ws now trR trW e : jinv j e (queued e ++ X) ws → engine_ok now e → pkts_ok e → running e = true →
  ∃ e' o, tick clockPeriod cacheLineSize bufferDepth now trR trW e = Ok (e', o) ∧ ticked j X ws now e e' o ∧
    queued e' ++ flat_map leaving o ++ X ≠ [].
Proof.
  intros H He Hp Hr. unfold tick. rewrite Hr. cbn [negb]. destruct (ji_ports _ _ _ _ H) as (P1 & P2 & _ & _).
  destruct (readPort e) as [rp|] eqn:Erp; [|done]. destruct (writePort e) as [wp|] eqn:Ewp; [|done]. cbn [deref mbind res_bind].
  assert (∀ sd, isStalled sd e = true → queued e ≠ []) as Hst.
  { intros sd. unfold isStalled, queued. rewrite negb_true_iff, bool_decide_eq_false. intros Hne E0. apply Hne.
    apply fmap_nil_inv, app_nil in E0 as [E1 E2]. by destruct sd. }
  destruct (isStalled rp e && isStalled wp e) eqn:Es.
  { apply andb_true_iff in Es as [Es _]. eexists e, []. split; [done|]. split; [by apply ticked_refl|]. cbn. intros [E0 _]%app_nil. by apply (Hst rp). }
  assert (∃ e1 o1, (if needToRead e && negb (isStalled rp e) && negb (buffersFull bufferDepth e)
                    then tryRead clockPeriod cacheLineSize now trR e else Ok (e, [])) = Ok (e1, o1) ∧
    ticked j X ws now e e1 o1 ∧ (queued e1 ++ flat_map leaving o1 ≠ [] ∨
      e1 = e ∧ o1 = [] ∧ (readLeft e = 0 ∨ buffersFull bufferDepth e = true ∨ isStalled rp e = true))) as (e1 & o1 & -> & Ht1 & Hn1).
  { destruct (needToRead e) eqn:En, (isStalled rp e), (buffersFull bufferDepth e); cbn [andb negb];
      rewrite (ji_read _ _ _ _ H) in En; pose proof (ji_left _ _ _ _ H);
      try (exists e, []; split; [done|]; split; [by apply ticked_refl|]; right; split_and!; [done..|auto]; left; lia).
    destruct (tryRead_ok j X ws now trR e H He Hp ltac:(lia)) as (e1 & o1 & -> & Hi). exists e1, o1.
    split; [done|]. split; [by apply issued_ticked|]. left. apply Hi. }
  cbn [mbind res_bind fst snd]. pose proof (ti_inv _ _ _ _ _ _ _ Ht1) as H1. rewrite (ji_total _ _ _ _ H1).
  destruct (needToWrite e1 && negb (isStalled wp e1) && (j_len j - writeLeft e1 <? readDone e1)) eqn:Ew.
  - pose proof (ji_done _ _ _ _ H1) as (Hd & _). rewrite !andb_true_iff in Ew. destruct Ew as [_ Ew].
    destruct (tryWrite_ok j (flat_map leaving o1 ++ X) ws now trW e1 H1) as (e2 & o2 & -> & Hi); [apply Ht1..|lia|]. cbn [mbind res_bind fst snd].
    eexists e2, (o1 ++ o2). split; [done|]. split.
    { eapply ticked_trans; [exact Ht1|]. destruct Hi as [Hi|(-> & -> & _)]; [by apply issued_ticked|]. apply ticked_refl; apply Ht1. }
    rewrite flat_map_app. intros E0. destruct Hi as [Hi|(-> & -> & Hlt)].
    + apply (is_some _ _ _ _ _ _ _ Hi). apply app_nil in E0 as [-> [[_ ->]%app_nil _]%app_nil]. done.
    + apply app_nil in E0 as [Eq [[Eo _]%app_nil EX]%app_nil]. destruct Hn1 as [Hn1|(-> & -> & Hwhy)]; [by rewrite Eq, Eo in Hn1|].
      rewrite Eq, EX in H. destruct (idle_done j e ws H) as [Hrd Hwl]. destruct (chunk_ok (currentWriteAddr e) (writeLeft e) Hwl) as (Hc1 & Hc2 & _).
      destruct Hwhy as [?|[Hf|Hs]]; [lia| |by apply (Hst rp)]. apply buffers_bound in Hf. rewrite (ji_total _ _ _ _ H) in Hf. lia.
  - eexists e1, (o1 ++ []). split; [reflexivity|]. rewrite app_nil_r. split; [done|]. intros E0.
    destruct Hn1 as [Hn1|(-> & -> & Hwhy)]; [by rewrite app_assoc in E0; apply app_nil in E0 as [? _]|]. cbn in E0. apply app_nil in E0 as [Eq EX].
    rewrite Eq, EX in H. destruct (idle_done j e ws H) as [Hrd Hwl]. pose proof (ji_left _ _ _ _ H). pose proof (job_bounds _ (ji_job _ _ _ _ H)). pose proof (ji_ahead _ _ _ _ H).
    assert (0 < readDone e ∧ j_len j - writeLeft e < readDone e) as [Hpos Hlt].
    { destruct Hwhy as [?|[Hf|Hs]]; [lia| |by destruct (Hst rp Hs)]. apply buffers_bound in Hf. rewrite (ji_total _ _ _ _ H) in Hf. lia. }
    rewrite (ji_write _ _ _ _ H Hpos) in Ew. destruct (isStalled wp e) eqn:Esw; [by apply (Hst wp)|]. cbn in Ew. lia.
Qed.

(** *** Responses *)

Lemma store_ok {A} off (xs l : list A) : 0 ≤ off → off + Z.of_nat (length xs) ≤ Z.of_nat (length l) →
  ∃ l', store off xs l = Ok l' ∧ length l' = length l ∧
    ∀ i, 0 ≤ i → l' !! Z.to_nat i =
      if (off <=? i) && (i <? off + Z.of_nat (length xs)) then xs !! Z.to_nat (i - off) else l !! Z.to_nat i.
Proof.
  intros H1 H2. unfold store. rewrite (proj2 (andb_true_iff _ _)) by lia. eexists. split; [reflexivity|].
  split; [apply length_inserts|]. intros i Hi. destruct (Z.leb_spec off i), (Z.ltb_spec i (off + Z.of_nat (length xs))); cbn [andb].
  - rewrite list_lookup_inserts by lia. f_equal. lia.
  - apply list_lookup_inserts_ge. lia.
  - apply list_lookup_inserts_lt. lia.
  - apply list_lookup_inserts_lt. lia.
Qed.

Lemma leading_ok l : (leading l ≤ length l)%nat ∧ (∀ k, (k < leading l)%nat → l !! k = Some true) ∧ l !! leading l ≠ Some true.
Proof.
  induction l as [|[] l (IH1 & IH2 & IH3)]; cbn; [|split_and!; [lia| |done]|]; [split_and!; [lia|lia|done]| |split_and!; [lia|lia|done]].
  intros [|k] Hk; [done|]. apply IH2. lia.
Qed.

(** The bytes of a read: the engine counts the ones that follow without a gap. *)
Lemma prefix_ok e n : Z.of_nat (length (readsDone e)) = n → 0 ≤ readDone e ≤ n → (∀ i, 0 ≤ i < readDone e → arrived e i) →
  let d := readDone e + Z.of_nat (leading (take (Z.to_nat (n - readDone e)) (drop (Z.to_nat (readDone e)) (readsDone e)))) in
  0 ≤ d ≤ n ∧ (∀ i, 0 ≤ i < d → arrived e i) ∧ (d < n → ¬ arrived e d).
Proof.
  intros Hn Hd Hpre d. subst d. rewrite take_ge by (rewrite length_drop; lia).
  destruct (leading_ok (drop (Z.to_nat (readDone e)) (readsDone e))) as (L1 & L2 & L3). rewrite length_drop in L1.
  set (m := leading _) in *. split_and!; [lia|lia| |].
  - intros i Hi. destruct (Z.lt_ge_cases i (readDone e)); [apply Hpre; lia|]. unfold arrived.
    specialize (L2 (Z.to_nat i - Z.to_nat (readDone e))%nat ltac:(lia)). rewrite lookup_drop in L2. rewrite <-L2. f_equal. lia.
  - intros _. unfold arrived. rewrite lookup_drop in L3. replace (Z.to_nat (readDone e + Z.of_nat m)) with (Z.to_nat (readDone e) + m)%nat by lia. done.
Qed.

Lemma arrive_fresh j e P ws r i : jinv j e ((Read, r) :: P) ws →
  vaddr r - j_base j ≤ i < vaddr r - j_base j + rsize r → ¬ arrived e i ∧ cover Read (j_base j + i) P = 0 ∧ i < j_len j - readLeft e.
Proof.
  intros H Hi. pose proof (ji_reqs _ _ _ _ H) as [(Hr0 & Hone & Hr1 & Hr2) HP]%Forall_cons.
  pose proof (ji_cover _ _ _ _ H i ltac:(lia)) as Hc. unfold cover, arrived_z in Hc |- *. cbn [zsum] in Hc. rewrite cover_same in Hc.
  assert (0 ≤ zsum (cover_of Read (j_base j + i)) P) by (apply zsum_nonneg; intros; apply cover_of_range).
  unfold ind, below in Hc. rewrite (proj2 (andb_true_iff _ _)) in Hc by lia. destruct (Z.ltb_spec i (j_len j - readLeft e)), (decide (arrived e i)); split_and!; done || lia.
Qed.

Lemma arrive_inv j e P ws r data flags d :
  let off := vaddr r - j_base j in
  let e' := e <| curData := data |> <| readsDone := flags |> <| needToWrite := true |> <| readDone := d |> in
  jinv j e ((Read, r) :: P) ws → (∀ i, target j i = content (j_base j + i)) →
  length data = length (curData e) → length flags = length (readsDone e) →
  (∀ i, 0 ≤ i → data !! Z.to_nat i = if (off <=? i) && (i <? off + rsize r) then Some (content (j_base j + i)) else curData e !! Z.to_nat i) →
  (∀ i, 0 ≤ i → arrived e' i ↔ off ≤ i < off + rsize r ∨ arrived e i) →
  readDone e ≤ d ≤ j_len j → (∀ i, 0 ≤ i < d → arrived e' i) → (d < j_len j → ¬ arrived e' d) → jinv j e' P ws.
Proof.
  intros off e' H Htg El1 El2 Hdata Harr Hd Hpre Hnext.
  assert (∀ i, off ≤ i < off + rsize r → ¬ arrived e i ∧ cover Read (j_base j + i) P = 0 ∧ i < j_len j - readLeft e) as Hfresh.
  { intros i Hi. by eapply arrive_fresh. }
  destruct H as [? ? ? ? ? ? ? ? Hb Hlen [Hr HP]%Forall_cons Hc Hdn Hdt Hah Hw Hs ? ? ?]. split; cbn; try done.
  - destruct j; [done|]. destruct Hb as [? [? ?]%Forall_cons]. done.
  - by rewrite El1, El2.
  - intros i Hi. specialize (Hc i Hi). unfold cover in Hc. cbn [zsum] in Hc. rewrite cover_same in Hc. unfold arrived_z in Hc |- *.
    specialize (Harr i ltac:(lia)). unfold ind in Hc. destruct (decide (off ≤ i < off + rsize r)) as [Hin|Hout].
    + destruct (Hfresh i Hin) as (Hna & Hz & Hlt). rewrite decide_True by (apply Harr; by left). fold (cover Read (j_base j + i) P). rewrite Hz.
      unfold below. destruct (Z.ltb_spec i (j_len j - readLeft e)); lia.
    + assert (arrived e' i ↔ arrived e i) as Ha by (rewrite Harr; tauto). rewrite (decide_ext _ _ _ _ Ha). unfold off in *.
      destruct (Z.leb_spec (vaddr r) (j_base j + i)), (Z.ltb_spec (j_base j + i) (vaddr r + rsize r)); cbn [andb] in Hc; fold (cover Read (j_base j + i) P) in Hc; lia.
  - split; [lia|]. by split.
  - intros i Hi Ha. rewrite (Hdata i Hi). apply (Harr i Hi) in Ha. destruct (Z.leb_spec off i), (Z.ltb_spec i (off + rsize r)); cbn [andb];
      [by rewrite Htg|..]; (apply Hdt; [done|]; destruct Ha; [lia|done]).
  - lia.
Qed.

Lemma read_arrives j e P ws now r pa : jinv j e ((Read, r) :: P) ws → engine_ok now e →
  ∃ e', recvPacket clockPeriod now (mkCPkt ReadResp r pa (content <$> seqZ (vaddr r) (rsize r))) e = Ok (e', []) ∧
    jinv j e' P ws ∧ engine_ok now e' ∧ hostQ e' = hostQ e ∧ deviceQ e' = deviceQ e ∧ running e' = running e ∧
    scheduled (tickEvent e') = true ∧ readLeft e' = readLeft e ∧ writeLeft e' = writeLeft e.
Proof.
  intros H He. pose proof (job_bounds _ (ji_job _ _ _ _ H)) as Hj.
  pose proof (ji_reqs _ _ _ _ H) as [(Hr0 & Hone & Hr1 & Hr2) HP]%Forall_cons.
  pose proof (ji_lengths _ _ _ _ H) as [HL1 HL2]. pose proof (ji_done _ _ _ _ H) as (Hd & Hpre & Hnext). pose proof (ji_left _ _ _ _ H) as Hleft.
  assert (beginAddr e = j_base j ∧ (∀ i, target j i = content (j_base j + i))) as [Eb Etg].
  { pose proof (ji_begin _ _ _ _ H) as Hb. destruct j; [done|]. by destruct Hb as [_ [? _]%Forall_cons]. }
  unfold recvPacket. cbn [c_req c_cmd c_data isRead]. rewrite Eb, sub64_small by lia.
  destruct (store_ok (vaddr r - j_base j) (content <$> seqZ (vaddr r) (rsize r)) (curData e)) as (data & -> & Hdl & Hdata);
    [lia|rewrite length_fmap, length_seqZ; lia|].
  destruct (store_ok (vaddr r - j_base j) (replicate (Z.to_nat (rsize r)) true) (readsDone e)) as (flags & -> & Hfl & Hflags);
    [lia|rewrite length_replicate; lia|].
  rewrite length_fmap, length_seqZ in Hdata. rewrite length_replicate in Hflags. cbn [mbind res_bind]. rewrite Z2Nat.id in Hdata, Hflags by lia.
  assert (∀ d, let e' := e <| curData := data |> <| readsDone := flags |> <| needToWrite := true |> <| readDone := d |> in
    ∀ i, 0 ≤ i → arrived e' i ↔ vaddr r - j_base j ≤ i < vaddr r - j_base j + rsize r ∨ arrived e i) as Harr.
  { intros d e' i Hi. unfold arrived. cbn [e' readsDone set_field]. rewrite (Hflags i Hi).
    destruct (Z.leb_spec (vaddr r - j_base j) i), (Z.ltb_spec i (vaddr r - j_base j + rsize r)); cbn [andb];
      [rewrite lookup_replicate_2 by lia; split; [by left|done]|..]; (split; [by right|intros [?|?]; [lia|done]]). }
  set (e1 := _ <| readsDone := flags |>). change (readDone e1) with (readDone e). change (totalLength e1) with (totalLength e). rewrite (ji_total _ _ _ _ H).
  destruct (Z.ltb_spec (readDone e) (j_len j)) as [_|Hge].
  2: { destruct (arrive_fresh j e P ws r (vaddr r - j_base j) H ltac:(lia)) as (Hna & _). destruct Hna. apply Hpre. lia. }
  destruct (wake_ok now (e1 <| needToWrite := true |>)) as (t & ck & -> & He'); [exact He|].
  cbn [mbind res_bind]. set (e2 := _ <| clk := ck |>) in *. assert (totalLength e2 = j_len j) as Et by apply H. rewrite Et.
  destruct (prefix_ok e2 (j_len j)) as (Q1 & Q2 & Q3); [cbn; lia|exact Hd|intros i Hi; apply (Harr 0 i); [lia|right; by apply Hpre]|].
  set (more := leading _) in *. change (readDone e2) with (readDone e) in *. set (d := readDone e + Z.of_nat more) in *.
  pose proof (arrive_inv j e P ws r data flags d H Etg Hdl Hfl) as Hinv. eexists. split; [reflexivity|].
  assert (jinv j (e <| curData := data |> <| readsDone := flags |> <| needToWrite := true |> <| readDone := d |>) P ws) as H3.
  { apply Hinv; [|by apply Harr|lia|exact Q2|exact Q3]. intros i Hi. rewrite (Hdata i Hi).
    destruct (Z.leb_spec (vaddr r - j_base j) i), (Z.ltb_spec i (vaddr r - j_base j + rsize r)); cbn [andb]; [|done..].
    rewrite list_lookup_fmap, lookup_seqZ_lt by lia. cbn. do 2 f_equal. lia. }
  change (totalLength (e2 <| readDone ::= λ d : Z, d + Z.of_nat more |>)) with (totalLength e). rewrite (ji_total _ _ _ _ H).
  change (readDone (e2 <| readDone ::= λ d : Z, d + Z.of_nat more |>)) with d.
  destruct (Z.leb_spec (j_len j) d) as [Hall|Hall]; split_and!; try done; (eapply jinv_core; [|exact H3]); [|done].
  assert (needToRead e = false) as Er; [|unfold core; cbn; by rewrite Er].
  rewrite (ji_read _ _ _ _ H). pose proof (ji_cover _ _ _ _ H3 (j_len j - 1) ltac:(lia)) as Hc. cbn in Hc.
  unfold arrived_z in Hc. rewrite decide_True in Hc by (apply (ji_done _ _ _ _ H3); cbn; lia).
  assert (0 ≤ cover Read (j_base j + (j_len j - 1)) P) by (apply zsum_nonneg; intros; apply cover_of_range).
  unfold below in Hc. destruct (Z.ltb_spec (j_len j - 1) (j_len j - readLeft e)); lia.
Qed.

Lemma wsize_nonneg j P : Forall (ce_req_ok j) P → 0 ≤ zsum wsize P.
Proof.
  intros HP. apply zsum_nonneg. intros [[] q] Hq; [done|]. rewrite Forall_forall in HP. specialize (HP _ Hq).
  rewrite wsize_write. cbn in HP. lia.
Qed.

(** The write of a line is acknowledged; the last one ends the operation. *)
Lemma write_done j e P ws now r pa : jinv j e ((Write, r) :: P) ws → engine_ok now e →
  let ws' := ws ++ [(vaddr r, extraData r)] in
  ∃ e' o, recvPacket clockPeriod now (mkCPkt WriteResp r pa []) e = Ok (e', o) ∧
    engine_ok now e' ∧ hostQ e' = hostQ e ∧ deviceQ e' = deviceQ e ∧ readLeft e' = readLeft e ∧ writeLeft e' = writeLeft e ∧
    ((o = [] ∧ running e' = running e ∧ jinv j e' P ws' ∧ scheduled (tickEvent e') = true) ∨
     (o = [Finished] ∧ running e' = false ∧ readPort e' = None ∧ readDTB e' = None ∧ tickEvent e' = tickEvent e ∧
        P = [] ∧ readLeft e = 0 ∧ writeLeft e = 0 ∧ copied j ws')).
Proof.
  intros H He ws'. pose proof (job_bounds _ (ji_job _ _ _ _ H)) as Hj. pose proof (ji_left _ _ _ _ H) as Hleft.
  pose proof (ji_reqs _ _ _ _ H) as [(Hr0 & Hone & Hr1 & Hr2 & Hx) HP]%Forall_cons. pose proof (ji_wdone _ _ _ _ H) as Hwd.
  assert (Z.of_nat (length (extraData r)) = rsize r) as Hxl by (rewrite Hx, length_fmap, length_seqZ; lia).
  assert (Forall (write_ok j) ws') as Hok.
  { apply Forall_app. split; [apply H|]. apply Forall_singleton. unfold write_ok. cbn [fst snd]. rewrite Hxl. by split_and!. }
  assert (zsum asize ws' = zsum asize ws + rsize r) as Es by (unfold ws'; rewrite zsum_app; cbn; unfold asize at 2; cbn; lia).
  assert (∀ i, 0 ≤ i < j_len j → cover Write (j_dst j + i) P + acover (j_dst j + i) ws' = below i (j_len j - writeLeft e)) as Hcov.
  { intros i Hi. rewrite <-(ji_wcover _ _ _ _ H i Hi). unfold ws', cover, acover. rewrite zsum_app. cbn [zsum fst snd]. rewrite cover_same, Hxl. lia. }
  pose proof (wsize_nonneg j P HP) as HP0.
  pose proof (ji_wsum _ _ _ _ H) as Hs. cbn [zsum] in Hs. rewrite wsize_write in Hs.
  assert (0 ≤ zsum asize ws) by (apply zsum_nonneg; intros; unfold asize; lia).
  unfold recvPacket. cbn [c_req c_cmd isRead]. set (e1 := _ <| cestats ::= _ |>).
  assert (writeDone e1 = writeDone e + rsize r) as Ew by (cbn; apply u64_small; lia).
  rewrite Ew. change (totalLength e1) with (totalLength e). rewrite (ji_total _ _ _ _ H).
  destruct (Z.ltb_spec (writeDone e + rsize r) (j_len j)); cbn [negb].
  - destruct (wake_ok now e1 He) as (t & ck & -> & He'). eexists _, []. split; [reflexivity|]. split_and!; try done. left. split_and!; try done.
    eapply (jinv_core j (e <| writeDone := writeDone e + rsize r |>)); [unfold core; cbn in Ew |- *; by rewrite Ew|].
    destruct H. split; cbn; try done; [|lia|lia]. destruct j; [done|]. by destruct ji_begin0 as [? [? ?]%Forall_cons].
  - eexists _, [Finished]. split; [reflexivity|]. split_and!; try done. right.
    assert (writeLeft e = 0 ∧ zsum wsize P = 0) as [Ewl Ez] by lia.
    assert (readDone e = j_len j) as Erd by (pose proof (ji_ahead _ _ _ _ H); pose proof (ji_done _ _ _ _ H); lia).
    assert (P = []) as ->.
    { destruct P as [|[[] q] P']; [done|exfalso..].
      - pose proof (ji_done _ _ _ _ H) as (_ & Hpre & _). apply Forall_cons in HP as [(Hq0 & _ & Hq1 & Hq2) _].
        destruct (arrive_fresh j e ((Write, r) :: P') ws q (vaddr q - j_base j)) as (Hna & _); [|lia|apply Hna, Hpre; lia].
        eapply jinv_proper; [|reflexivity|exact H]. constructor.
      - apply Forall_cons in HP as [(Hq0 & _) HP]. cbn [zsum] in Ez. rewrite wsize_write in Ez.
        pose proof (wsize_nonneg j P' HP). lia. }
    assert (readLeft e = 0) as Erl.
    { pose proof (ji_cover _ _ _ _ H (j_len j - 1) ltac:(lia)) as Hc. unfold arrived_z in Hc. pose proof (ji_done _ _ _ _ H) as (_ & Hpre & _).
      rewrite decide_True in Hc by (apply Hpre; lia). change (cover _ _ _) with 0 in Hc. unfold below in Hc. destruct (Z.ltb_spec (j_len j - 1) (j_len j - readLeft e)); lia. }
    split_and!; try done. split; [|done]. intros i Hi. specialize (Hcov i Hi). unfold below in Hcov. cbn in Hcov.
    destruct (Z.ltb_spec i (j_len j - writeLeft e)); lia.
Qed.

(** *** Retries *)

Lemma resend_ok now sd answers e : engine_ok now e → pkts_ok e →
  ∃ e' o, resend clockPeriod now sd answers e = Ok (e', o) ∧ core e' = core e ∧ running e' = running e ∧
    engine_ok now e' ∧ pkts_ok e' ∧ Forall out_ok o ∧ queued e' ++ flat_map leaving o ≡ₚ queued e ∧
    qw e' + zsum ow o + 2 * Z.of_nat (length o) = qw e ∧
    (scheduled (tickEvent e) = true → scheduled (tickEvent e') = true) ∧ (head answers = Some true → isStalled sd e = true → o ≠ []).
Proof.
  revert e. induction answers as [|[] answers IH]; intros e He Hp; cbn [resend].
  - exists e, []. split_and!; try done; [by rewrite app_nil_r|cbn; lia].
  - destruct (outstandingPkts sd e) as [|p rest] eqn:Eq.
    { exists e, []. split_and!; try done; [by rewrite app_nil_r|cbn; lia|]. unfold isStalled. by rewrite Eq. }
    destruct (wake_ok now (put_queue sd rest e)) as (t & ck & -> & He1); [by destruct sd|]. cbn [mbind res_bind].
    set (e1 := _ <| clk := ck |>) in *. assert (pkt_ok p ∧ pkts_ok e1) as [Hpp Hp1].
    { unfold pkts_ok in *. destruct sd; cbn in *; rewrite Eq in Hp; rewrite !Forall_app, ?Forall_cons in *; tauto. }
    destruct (IH e1 He1 Hp1) as (e' & o & -> & Hc & Hr & He' & Hp' & Ho & Hq & Hw & Ht & _). cbn [mbind res_bind fst snd].
    exists e', (Sent p :: o). split_and!; try done; [by destruct sd|by destruct sd|by constructor| | |by intros _; apply Ht].
    + cbn [flat_map leaving]. rewrite (Permutation_app_comm [of_pkt p]), app_assoc, Hq. unfold queued, e1.
      destruct sd; cbn in *; rewrite Eq, ?fmap_app; cbn; solve_Permutation.
    + cbn [zsum ow length]. unfold qw in Hw |- *. destruct sd; cbn in *; rewrite Eq; cbn; lia.
  - exists e, []. split_and!; try done; [by rewrite app_nil_r|cbn; lia].
Qed.

(** ** The invariant of runs *)

Record c_inv (c : crun) : Prop :=
  { ci_engine : engine_ok (r_now c) (r_e c);
    ci_pkts : pkts_ok (r_e c) ∧ Forall pkt_ok (r_fly c);
    ci_jobs : Forall (λ x, copied x.1 x.2) (r_jobs c);
    ci_job :
      match r_job c with
      | Some j => running (r_e c) = true ∧ jinv j (r_e c) (pend c) (r_writes c) ∧
          (scheduled (tickEvent (r_e c)) = true ∨ pend c ≠ [])
      | None => running (r_e c) = false ∧ pend c = [] ∧ readPort (r_e c) = None ∧ readDTB (r_e c) = None ∧
          readLeft (r_e c) = 0 ∧ writeLeft (r_e c) = 0
      end }.

Definition work (c : crun) : Z :=
  wt (r_e c) + 8 * Z.of_nat (length (r_tr c)) + 4 * Z.of_nat (length (r_fly c)).

Lemma absorb_ok o c : Forall out_ok o → let c' := foldl absorb c o in
  r_now c' = r_now c ∧ r_e c' = r_e c ∧ r_job c' = r_job c ∧ r_writes c' = r_writes c ∧ r_jobs c' = r_jobs c ∧
  outside c' ≡ₚ flat_map leaving o ++ outside c ∧ (Forall pkt_ok (r_fly c) → Forall pkt_ok (r_fly c')) ∧
  8 * Z.of_nat (length (r_tr c')) + 4 * Z.of_nat (length (r_fly c')) =
    8 * Z.of_nat (length (r_tr c)) + 4 * Z.of_nat (length (r_fly c)) + zsum ow o.
Proof.
  intros Ho. revert c. induction Ho as [|x o Hx _ IH]; intros c; cbn [foldl]; [split_and!; try done; cbn; lia|].
  destruct (IH (absorb c x)) as (-> & -> & E3 & E4 & E5 & E6 & E7 & E8). rewrite E3, E4, E5, E8.
  destruct x as [md r|p|]; [| |done]; cbn [absorb]; split_and!; try done; try (cbn; rewrite ?length_app; cbn; lia).
  - rewrite E6. unfold outside. cbn. solve_Permutation.
  - rewrite E6. unfold outside. cbn. rewrite fmap_app. cbn. solve_Permutation.
  - intros HF. apply E7. cbn. by apply Forall_app_2; [|apply Forall_singleton].
Qed.

(** A handler that issued requests for the operation under way. *)
Lemma outcome_ok c j e o : r_job c = Some j → Forall pkt_ok (r_fly c) → Forall (λ x, copied x.1 x.2) (r_jobs c) →
  running e = true → engine_ok (r_now c) e → pkts_ok e → Forall out_ok o →
  jinv j e (queued e ++ flat_map leaving o ++ outside c) (r_writes c) →
  (scheduled (tickEvent e) = true ∨ queued e ++ flat_map leaving o ++ outside c ≠ []) →
  c_inv (outcome c (e, o)) ∧
  work (outcome c (e, o)) = wt e + zsum ow o + 8 * Z.of_nat (length (r_tr c)) + 4 * Z.of_nat (length (r_fly c)).
Proof.
  intros Ej Hf Hjs Hr He Hp Ho Hi Hl. unfold outcome. cbn [fst snd].
  destruct (absorb_ok o (c <| r_e := e |>) Ho) as (E1 & E2 & E3 & E4 & E5 & E6 & E7 & E8). cbn in *.
  set (c' := foldl _ _ _) in *. split.
  - assert (pend c' ≡ₚ queued e ++ flat_map leaving o ++ outside c) as Hpend by (unfold pend; rewrite E2, E6; done).
    split; rewrite ?E1, ?E2, ?E3, ?E4, ?E5; try done; [split; [done|by apply E7]|]. rewrite Ej. split_and!; [done| |].
    + eapply jinv_proper; [symmetry; exact Hpend|reflexivity|done].
    + destruct Hl as [?|Hne]; [by left|right]. intros E0. apply Hne. rewrite E0 in Hpend. by apply Permutation_nil in Hpend.
  - unfold work. rewrite E2. lia.
Qed.

(** *** Steps *)

Lemma below_zero i n : 0 ≤ i → below i (n - n) = 0.
Proof. intros H. unfold below. destruct (Z.ltb_spec i (n - n)); lia. Qed.

Lemma memcpy_inv src dst len type e rp wp now :
  let j := Copy src dst len type in
  job_ok j = true → jinv j
    (e <| readPort := Some rp |> <| readDTB := Some rp |> <| writePort := Some wp |> <| writeDTB := Some wp |>
       <| memCpyLength := len |>
       <| running := true |> <| memCpyStartTime := now |> <| needToRead := true |> <| needToWrite := false |>
       <| currentReadAddr := src |> <| currentWriteAddr := dst |> <| beginAddr := src |>
       <| readLeft := len |> <| writeLeft := len |> <| totalLength := len |> <| readDone := 0 |> <| writeDone := 0 |>
       <| curData := replicate (Z.to_nat len) 0 |> <| readsDone := replicate (Z.to_nat len) false |>) [] [].
Proof.
  intros j Hj. pose proof (job_bounds _ Hj) as Hb. cbn in Hb.
  assert (∀ i, replicate (Z.to_nat len) false !! Z.to_nat i ≠ Some true) as Hno.
  { intros i [? ?]%lookup_replicate_1. done. }
  split; cbn; try done; try lia.
  - rewrite !length_replicate. lia.
  - intros i Hi. rewrite below_zero by lia. unfold arrived_z. rewrite decide_False; [done|]. apply Hno.
  - split; [lia|]. split; [lia|]. intros _. apply Hno.
  - intros i _ Ha. by destruct (Hno i).
  - intros i Hi. by rewrite below_zero by lia.
Qed.

Lemma memset_inv dst value len e rp wp now :
  let j := Fill dst value len in
  job_ok j = true → jinv j
    (e <| readPort := Some rp |> <| readDTB := Some rp |> <| writePort := Some wp |> <| writeDTB := Some wp |>
       <| running := true |> <| memCpyStartTime := now |> <| memCpyLength := len |>
       <| needToRead := false |> <| needToWrite := true |> <| currentWriteAddr := dst |>
       <| readLeft := 0 |> <| writeLeft := len |> <| totalLength := len |> <| readDone := len |> <| writeDone := 0 |>
       <| curData := replicate (Z.to_nat len) (u8 value) |> <| readsDone := replicate (Z.to_nat len) true |>) [] [].
Proof.
  intros j Hj. pose proof (job_bounds _ Hj) as Hb. cbn in Hb.
  assert (∀ i, 0 ≤ i < len → replicate (Z.to_nat len) true !! Z.to_nat i = Some true) as Hall.
  { intros i Hi. apply lookup_replicate_2. lia. }
  split; cbn; try done; try lia.
  - rewrite !length_replicate. lia.
  - intros i Hi. unfold arrived_z. rewrite decide_True by (apply Hall; lia). unfold below. destruct (Z.ltb_spec i (len - 0)); cbn; lia.
  - split; [lia|]. split; [|lia]. intros i Hi. by apply Hall.
  - intros i Hi [_ Ha]%lookup_replicate_1. by apply lookup_replicate_2.
  - intros i Hi. by rewrite below_zero by lia.
Qed.

Lemma ce_start_ok c j : c_inv c → c_guard c (Start j) = true → ∃ c', c_step c (Start j) = Ok c' ∧ c_inv c'.
Proof.
  intros [He [Hp Hf] Hjs Hj] [Hn Hok]%andb_true_iff. destruct (r_job c) as [|] eqn:Ej; [done|].
  destruct Hj as (Hrun & Hpend & Erp & Erd & _). pose proof (job_bounds _ Hok) as Hb.
  assert (∃ e, match j with
      | Copy src dst len type => memcpy clockPeriod driverDelay (r_now c) src dst len type (r_e c)
      | Fill dst value len => memset clockPeriod driverDelay (r_now c) dst value len (r_e c)
      end = Ok e ∧ engine_ok (r_now c) e ∧ hostQ e = hostQ (r_e c) ∧ deviceQ e = deviceQ (r_e c) ∧
      running e = true ∧ jinv j e [] [] ∧ scheduled (tickEvent e) = true) as (e & E & He' & E1 & E2 & E3 & Hi & Ht).
  { destruct j as [src dst len type|dst value len]; cbn in Hb.
    - unfold memcpy. assert (∃ rp wp, sides type = Ok (rp, wp)) as (rp & wp & ->).
      { unfold job_ok in Hok. rewrite !andb_true_iff in Hok. destruct Hok as [_ Hok]. destruct type; [by eexists _, _..|done]. }
      cbn [mbind res_bind fst snd]. rewrite assert_bind by lia. cbn [mbind res_bind]. rewrite assert_bind by (cbn; by rewrite Hrun).
      match goal with |- context [start_event _ _ _ ?x] => destruct (start_event_ok (r_now c) x) as (t & ck & -> & He') end; [exact He|].
      eexists; split; [reflexivity|]; split_and!; try done.
      eapply jinv_core; [|by apply (memcpy_inv src dst len type (r_e c) rp wp (r_now c))]. unfold core. cbn. reflexivity.
    - unfold memset. rewrite assert_bind by (by rewrite Hrun, Erp, Erd). rewrite assert_bind by lia.
      match goal with |- context [start_event _ _ _ ?x] => destruct (start_event_ok (r_now c) x) as (t & ck & -> & He') end; [exact He|].
      eexists; split; [reflexivity|]; split_and!; try done.
      eapply jinv_core; [|by apply (memset_inv dst value len (r_e c) Host Device (r_now c))]. unfold core. cbn. reflexivity. }
  unfold c_step. rewrite E. eexists. split; [reflexivity|]. unfold pkts_ok, pend, queued in *.
  split; cbn; try done; [split; [unfold pkts_ok; by rewrite E1, E2|done]|]. split_and!; [done| |by left].
  unfold pend, queued, outside in *. cbn. by rewrite E1, E2, Hpend.
Qed.

Lemma fire_ok c trR trW : c_inv c → c_guard c (Fire trR trW) = true →
  ∃ c', c_step c (Fire trR trW) = Ok c' ∧ c_inv c' ∧ work c' < work c.
Proof.
  intros [He [Hp Hf] Hjs Hj] Hg%bool_decide_eq_true. unfold c_step. set (e := (r_e c) <| tickEvent := None |>).
  assert (engine_ok (r_now c) e) as He' by (destruct He as (? & ? & _); by split_and!).
  assert (wt e < wt (r_e c)) as Hw by (unfold wt, qw; cbn; rewrite Hg; cbn; lia).
  destruct (r_job c) as [j|] eqn:Ej.
  - destruct Hj as (Hrun & Hi & _).
    destruct (tick_ok j (outside c) (r_writes c) (r_now c) trR trW e) as (e' & o & -> & Ht & Hne); [apply (jinv_core j (r_e c)); [reflexivity|exact Hi]|done..|].
    destruct Ht as [Hi' He'' Hp' Hr' Ho' Hless]. eexists. split; [reflexivity|].
    destruct (outcome_ok c j e' o) as [Hc Hwk]; try done; [by rewrite Hr'|by right|]. split; [done|]. rewrite Hwk. unfold work. lia.
  - destruct Hj as (Hrun & Hpend & Hrest). unfold tick. change (running e) with (running (r_e c)). rewrite Hrun. cbn [negb fmap res_fmap].
    eexists. split; [reflexivity|]. split; [|change (wt e + 8 * Z.of_nat (length (r_tr c)) + 4 * Z.of_nat (length (r_fly c)) < work c); unfold work; lia]. split; cbn; try done. by rewrite Ej.
Qed.

Lemma translated_ok c i pa a : c_inv c → c_guard c (Translated i pa a) = true →
  ∃ c', c_step c (Translated i pa a) = Ok c' ∧ c_inv c' ∧ work c' < work c.
Proof.
  intros [He [Hp Hf] Hjs Hj] Hg. unfold c_guard in Hg. unfold c_step. destruct (r_tr c !! i) as [[md r]|] eqn:Ei; [|done].
  pose proof (delete_Permutation _ _ _ Ei) as Hd. destruct (r_job c) as [j|] eqn:Ej.
  2: { destruct Hj as (_ & Hpend & _). unfold pend, outside in Hpend. apply app_nil in Hpend as [_ [E0 _]%app_nil]. by rewrite E0 in Ei. }
  destruct Hj as (Hrun & Hi & _). destruct (ji_ports _ _ _ _ Hi) as (P1 & P2 & _).
  destruct (ce_finish_ok md r pa a (r_e c) P1 P2) as (hq & dq & o & -> & H1 & H2 & H3 & H4). eexists. split; [reflexivity|].
  set (c1 := c <| r_tr ::= delete i |>). set (e' := _ <| deviceQ := dq |>).
  assert (pend c ≡ₚ (md, r) :: queued (r_e c) ++ outside c1) as Hpc.
  { unfold pend, outside. etrans; [apply Permutation_app_head, Permutation_app_tail, Hd|]. cbn. solve_Permutation. }
  assert (queued e' ++ flat_map leaving o ++ outside c1 ≡ₚ pend c) as HP.
  { rewrite app_assoc. change (queued e') with (of_pkt <$> (hq ++ dq)). by rewrite H1, Hpc. }
  destruct (outcome_ok c1 j e' o) as [Hc Hwk]; try done; [by apply H2| | |].
  - eapply jinv_core; [|eapply jinv_proper; [symmetry; exact HP|reflexivity|exact Hi]]. done.
  - right. intros E0. rewrite E0, Hpc in HP. by apply Permutation_nil_cons in HP.
  - split; [done|]. rewrite Hwk. unfold work, wt, qw in *. cbn. apply Permutation_length in Hd. cbn in Hd. lia.
Qed.

Lemma retry_ok c sd answers : c_inv c → c_guard c (Retry sd answers) = true →
  ∃ c', c_step c (Retry sd answers) = Ok c' ∧ c_inv c' ∧ (head answers = Some true → work c' < work c).
Proof.
  intros [He [Hp Hf] Hjs Hj] Hg. cbn in Hg. unfold c_step, recvReqRetry. rewrite assert_bind by done.
  destruct (resend_ok (r_now c) sd answers (r_e c) He Hp) as (e' & o & -> & Hcore & Hr & He' & Hp' & Ho & Hq & Hw & Ht & Hne).
  assert (readLeft e' = readLeft (r_e c) ∧ writeLeft e' = writeLeft (r_e c)) as [El1 El2] by (by unfold core in Hcore; simplify_eq).
  eexists. split; [reflexivity|]. destruct (r_job c) as [j|] eqn:Ej.
  - destruct Hj as (Hrun & Hi & Hl).
    assert (queued e' ++ flat_map leaving o ++ outside c ≡ₚ pend c) as HP by (rewrite app_assoc, Hq; done).
    destruct (outcome_ok c j e' o) as [Hc Hwk]; try done; [by rewrite Hr| | |].
    + eapply jinv_core; [exact Hcore|]. eapply jinv_proper; [symmetry; exact HP|reflexivity|exact Hi].
    + destruct Hl as [Hl|Hl]; [left; by apply Ht|right]. intros E0. rewrite E0 in HP. by apply Permutation_nil in HP.
    + split; [done|]. intros Hh. rewrite Hwk. specialize (Hne Hh Hg). destruct o as [|x o]; [done|]. unfold work, wt in *. rewrite El1, El2.
      cbn [length] in Hw. destruct (scheduled (tickEvent e')), (scheduled (tickEvent (r_e c))); lia.
  - destruct Hj as (_ & Hpend & _). unfold pend in Hpend. apply app_nil in Hpend as [E0 _]. unfold isStalled, queued in *.
    apply fmap_nil_inv, app_nil in E0 as [E1 E2]. destruct sd; cbn in Hg; by rewrite ?E1, ?E2 in Hg.
Qed.

Lemma ce_respond_ok c i : c_inv c → c_guard c (Respond i) = true → ∃ c', c_step c (Respond i) = Ok c' ∧ c_inv c' ∧ work c' < work c.
Proof.
  intros [He [Hp Hf] Hjs Hj] Hg. unfold c_guard in Hg. unfold c_step. destruct (r_fly c !! i) as [p|] eqn:Ei; [|done].
  pose proof (delete_Permutation _ _ _ Ei) as Hd. pose proof (Permutation_length Hd) as Hlen. cbn in Hlen.
  assert (Forall pkt_ok (delete i (r_fly c)) ∧ pkt_ok p) as [Hf1 Hpk] by (rewrite Hd in Hf; apply Forall_cons in Hf; tauto).
  destruct (r_job c) as [j|] eqn:Ej.
  2: { destruct Hj as (_ & Hpend & _). unfold pend, outside in Hpend. apply app_nil in Hpend as [_ [_ E0%fmap_nil_inv]%app_nil]. by rewrite E0 in Ei. }
  destruct Hj as (Hrun & Hi & _).
  assert (∀ ws, let c1 := c <| r_fly ::= delete i |> <| r_writes ::= λ l, l ++ ws |> in
    jinv j (r_e c) (of_pkt p :: queued (r_e c) ++ outside c1) (r_writes c)) as Hi1.
  { intros ws c1. eapply jinv_proper; [|reflexivity|exact Hi]. unfold pend, outside. cbn.
    etrans; [apply Permutation_app_head, Permutation_app_head; apply fmap_Permutation; exact Hd|]. cbn. solve_Permutation. }
  unfold answer. destruct Hpk as [[Ec _]|[Ec Edata]]; unfold of_pkt in Hi1; rewrite Ec in Hi1 |- *;
    [change (isRead ReadReq) with true in *|change (isRead WriteReq) with false in *].
  - set (c1 := c <| r_fly ::= _ |> <| r_writes ::= _ |>).
    destruct (read_arrives j (r_e c) _ _ (r_now c) (c_req p) (c_paddr p) (Hi1 []) He) as (e' & -> & Hi' & He' & E1 & E2 & E3 & E4 & E5 & E6).
    eexists. split; [reflexivity|]. destruct (outcome_ok c1 j e' []) as [Hc Hwk]; try done.
    + by rewrite E3.
    + unfold pkts_ok. by rewrite E1, E2.
    + unfold queued. rewrite E1, E2. cbn [c1 r_writes set_field]. by rewrite app_nil_r.
    + by left.
    + split; [done|]. rewrite Hwk. unfold work, wt, qw in *. rewrite E1, E2, E4, E5, E6. cbn. destruct (scheduled (tickEvent (r_e c))); lia.
  - rewrite Edata. set (c1 := c <| r_fly ::= _ |> <| r_writes ::= _ |>).
    destruct (write_done j (r_e c) _ _ (r_now c) (c_req p) (c_paddr p) (Hi1 [(vaddr (c_req p), extraData (c_req p))]) He)
      as (e' & o & -> & He' & E1 & E2 & E3 & E4 & [(-> & E5 & Hi' & E6)|(-> & E5 & E6 & E7 & E8 & Hnil & E9 & E10 & Hcop)]).
    + eexists. split; [reflexivity|]. destruct (outcome_ok c1 j e' []) as [Hc Hwk]; try done.
      * by rewrite E5.
      * unfold pkts_ok. by rewrite E1, E2.
      * unfold queued. by rewrite E1, E2.
      * by left.
      * split; [done|]. rewrite Hwk. unfold work, wt, qw in *. rewrite E1, E2, E3, E4, E6. cbn. destruct (scheduled (tickEvent (r_e c))); lia.
    + eexists. split; [reflexivity|]. unfold outcome. cbn [foldl fst snd absorb].
      change (r_job (c1 <| r_e := e' |>)) with (r_job c). rewrite Ej. split.
      * split; cbn; try done; [split; [unfold pkts_ok; by rewrite E1, E2|done]|by apply Forall_app_2; [|apply Forall_singleton]|].
        split_and!; try done; [|congruence..]. unfold pend, queued in *. cbn. by rewrite E1, E2.
      * unfold work, wt, qw. cbn. rewrite E1, E2, E3, E4, E8. lia.
Qed.

Definition effective (op : cop) : bool :=
  match op with
  | Fire _ _ | Translated _ _ _ | Respond _ => true
  | Retry _ answers => bool_decide (head answers = Some true)
  | _ => false
  end.

Lemma c_step_ok c op : c_inv c → c_guard c op = true →
  ∃ c', c_step c op = Ok c' ∧ c_inv c' ∧ (effective op = true → work c' < work c).
Proof.
  intros H Hg. destruct op as [j|t|trR trW|i pa a|sd answers|i].
  - destruct (ce_start_ok c j H Hg) as (c' & ? & ?). by exists c'.
  - eexists. split; [reflexivity|]. split; [|done]. cbn in Hg. apply andb_true_iff in Hg as [Hg1 Hg2].
    destruct H as [(He1 & He2 & He3) Hp Hjs Hj]. split; cbn; try done. split_and!; [lia|eapply clock_later; [exact He2|lia]|].
    intros t' Et. rewrite Et in Hg2. cbn in Hg2. lia.
  - destruct (fire_ok c trR trW H Hg) as (c' & ? & ? & ?). by exists c'.
  - destruct (translated_ok c i pa a H Hg) as (c' & ? & ? & ?). by exists c'.
  - destruct (retry_ok c sd answers H Hg) as (c' & ? & ? & Hw). exists c'. split_and!; try done. intros He. apply Hw. by apply bool_decide_eq_true in He.
  - destruct (ce_respond_ok c i H Hg) as (c' & ? & ? & ?). by exists c'.
Qed.

Lemma c_run_ok ops c : c_inv c → ∃ c', foldM c_gstep c ops = Ok c' ∧ c_inv c'.
Proof.
  revert c. induction ops as [|op ops IH]; intros c H; [by exists c|]. cbn.
  assert (∃ c1, c_gstep c op = Ok c1 ∧ c_inv c1) as (c1 & -> & H1); [|by apply IH].
  unfold c_gstep. destruct (c_guard c op) eqn:Eg; [|by exists c].
  destruct (c_step_ok c op H Eg) as (c1 & -> & H1 & _). by exists c1.
Qed.

Lemma c_inv_start : c_inv start.
Proof. split; cbn; try done. split; apply Forall_nil_2. Qed.

(** Something is always left to do for an operation under way. *)
Lemma can_go_on c j : c_inv c → r_job c = Some j →
  ∃ op, effective op = true ∧
    (c_guard c op = true ∨ ∃ t, c_guard c (Advance t) = true ∧ c_guard (c <| r_now := t |>) op = true).
Proof.
  intros [(He1 & He2 & He3) _ _ Hj] Ej. rewrite Ej in Hj. destruct Hj as (_ & _ & [Ht|Hne]).
  - destruct (tickEvent (r_e c)) as [t|] eqn:Et; [|done]. exists (Fire None None). split; [done|]. right. exists t. cbn. rewrite Et. cbn.
    specialize (He3 t eq_refl). split; [|by apply bool_decide_eq_true]. apply andb_true_iff. lia.
  - unfold pend, outside in Hne. destruct (r_tr c) as [|x T] eqn:Etr; [|exists (Translated 0 0 true); split; [done|]; left; cbn; by rewrite Etr].
    destruct (r_fly c) as [|p F] eqn:Ef; [|exists (Respond 0); split; [done|]; left; cbn; by rewrite Ef]. cbn in Hne. rewrite app_nil_r in Hne.
    destruct (hostQ (r_e c)) as [|p q] eqn:Eh.
    + destruct (deviceQ (r_e c)) as [|p q] eqn:Ed; [by unfold queued in Hne; rewrite Eh, Ed in Hne|].
      exists (Retry Device [true]). split; [done|]. left. cbn. unfold isStalled. cbn. by rewrite Ed.
    + exists (Retry Host [true]). split; [done|]. left. cbn. unfold isStalled. cbn. by rewrite Eh.
Qed.

(** ** What the memory holds afterwards *)

Lemma writes_effect j ws m a : Forall (write_ok j) ws →
  memory_after ws m a = if 0 <? acover a ws then target j (a - j_dst j) else m a.
Proof.
  induction ws as [|w ws IH] using rev_ind; intros H; [done|]. apply Forall_app in H as [H [Hw _]%Forall_cons].
  unfold memory_after in *. rewrite foldl_app. cbn [foldl]. unfold acover. rewrite zsum_app. cbn [zsum]. fold (acover a ws).
  assert (0 ≤ acover a ws) by (apply zsum_nonneg; intros; apply ind_range).
  unfold ind. fold (covers a w). destruct (covers a w) eqn:E.
  - destruct (put_bytes_in (foldl put_bytes m ws) w a E) as (b & Hb & ->). apply covers_spec in E.
    destruct Hw as (Hn & H1 & H2 & _ & Hd). set (n := Z.of_nat (length w.2)) in *.
    rewrite Hd, list_lookup_fmap, lookup_seqZ_lt in Hb by lia. injection Hb as <-.
    destruct (Z.ltb_spec 0 (acover a ws + (1 + 0))); [|lia]. f_equal. lia.
  - rewrite put_bytes_out, IH by done. by rewrite !Z.add_0_r.
Qed.

Lemma copied_effect j ws m a : copied j ws →
  memory_after ws m a = if (j_dst j <=? a) && (a <? j_dst j + j_len j) then target j (a - j_dst j) else m a.
Proof.
  intros [Hc Hw]. rewrite (writes_effect j ws m a Hw). destruct ((j_dst j <=? a) && (a <? j_dst j + j_len j)) eqn:E.
  - apply andb_true_iff in E. specialize (Hc (a - j_dst j) ltac:(lia)). replace (j_dst j + (a - j_dst j)) with a in Hc by lia. by rewrite Hc.
  - apply andb_false_iff in E. assert (acover a ws = 0) as ->; [|done]. clear Hc. unfold acover. induction Hw as [|w ws (H1 & H2 & H3 & _) _ IH]; [done|].
    cbn [zsum]. rewrite IH. unfold ind. destruct (Z.leb_spec w.1 a), (Z.ltb_spec a (w.1 + Z.of_nat (length w.2))); cbn; lia.
Qed.

(** C9: for every sequence of copies and fills, whatever the order in which
    translations finish and responses arrive and whichever packets the peers
    refuse, no assertion of the engine fails and no access is outside its buffers;
    each operation it reports as finished has written every byte of its
    destination once, in pieces that stay within a cache line, with the byte of the
    source, and nothing else; while one is under way there is a step that goes on
    with it, and every such step reduces the work left, so that it ends. *)
Theorem copy_engine_ok ops :
  ∃ c, foldM c_gstep start ops = Ok c ∧
    Forall (λ x : job * list (Addr * list Z),
      (∀ i, 0 ≤ i < j_len x.1 → acover (j_dst x.1 + i) x.2 = 1) ∧
      Forall (λ w : Addr * list Z, one_line w.1 (Z.of_nat (length w.2))) x.2 ∧
      ∀ m a, memory_after x.2 m a =
        if (j_dst x.1 <=? a) && (a <? j_dst x.1 + j_len x.1) then target x.1 (a - j_dst x.1) else m a) (r_jobs c) ∧
    (∀ j, r_job c = Some j → ∃ op, effective op = true ∧
       (c_guard c op = true ∨ ∃ t, c_guard c (Advance t) = true ∧ c_guard (c <| r_now := t |>) op = true)) ∧
    (∀ op, c_guard c op = true → ∃ c', c_step c op = Ok c' ∧ (effective op = true → work c' < work c)) ∧ 0 ≤ work c.
Proof.
  destruct (c_run_ok ops start c_inv_start) as (c & E & H). exists c. split; [done|]. split_and!.
  - eapply Forall_impl; [apply (ci_jobs _ H)|]. intros [j ws] Hc. split; [apply Hc|]. split; [|by intros m a; apply copied_effect].
    destruct Hc as [_ Hw]. eapply Forall_impl; [exact Hw|]. by intros w (_ & _ & _ & ? & _).
  - intros j Ej. by eapply can_go_on.
  - intros op Hg. destruct (c_step_ok c op H Hg) as (c' & ? & _ & ?). by exists c'.
  - unfold work, wt, qw. assert (0 ≤ readLeft (r_e c) ∧ 0 ≤ writeLeft (r_e c)) as [? ?].
    { pose proof (ci_job _ H) as Hj. destruct (r_job c) as [j|]; [|lia]. destruct Hj as (_ & Hi & _). pose proof (ji_left _ _ _ _ Hi). lia. }
    destruct (scheduled _); lia.
Qed.
End run.

(** A copy of 100 bytes from the host to the device, in lines of 64 bytes; the
    response of the last line comes first, and a write is refused once. *)
Definition ex_copy : list cop :=
  [Start (Copy 1000 5 100 stream_memcpy_host_to_device); Advance 10; Fire (Some (0, true)) None; Advance 20; Fire None None;
   Translated 0 64 true; Advance 30; Fire (Some (128, true)) None; Respond 2; Advance 40; Fire None None; Respond 0; Respond 0;
   Advance 50; Fire None (Some (0, false)); Retry Device [true]; Advance 60; Fire None (Some (64, true)); Respond 1; Respond 0].

Lemma copy_engine_ok_witness :
  let content a := a mod 7 in
  ∃ c, foldM (c_gstep 10 64 128 0 content) start ex_copy = Ok c ∧
    fst <$> r_jobs c = [Copy 1000 5 100 stream_memcpy_host_to_device] ∧ r_job c = None ∧
    Forall (λ x : job * list (Addr * list Z), ∀ m, memory_after x.2 m 6 = 1001 mod 7 ∧ memory_after x.2 m 105 = m 105) (r_jobs c).
Proof.
  intros content. destruct (copy_engine_ok 10 64 128 0 content ltac:(lia) ltac:(lia) ltac:(lia) ltac:(lia) ex_copy) as (c & E & H & _).
  assert (fst <$> r_jobs c = [Copy 1000 5 100 stream_memcpy_host_to_device] ∧ r_job c = None) as [Ej En].
  { assert ((λ c, (fst <$> r_jobs c, r_job c)) <$> foldM (c_gstep 10 64 128 0 content) start ex_copy =
      Ok ([Copy 1000 5 100 stream_memcpy_host_to_device], None)) as E' by (vm_compute; reflexivity).
    rewrite E in E'. cbn in E'. injection E' as E1 E2. split; assumption. }
  exists c. split; [exact E|]. clear E. split_and!; [done|done|]. destruct (r_jobs c) as [|[j ws] [|]]; try done. injection Ej as ->.
  apply Forall_singleton in H as (_ & _ & H). apply Forall_singleton. intros m. by rewrite !H.
Defined.
End CopyEngineProofs.
