(* ===== verification/AtomicOps.v ===== *)
(** * Atomic operations of the GPU (gem5-gpu/src/gpu/atomic_operations.hh, .cc)

    A lane's atomic is an [AtomicOpRequest] object; a packet of the cache
    hierarchy carries an array of pointers to such objects, the last of which has
    [lastAccess] set.  When the packet reaches the memory the operations are
    performed one after the other on the backing store.  The objects live on a
    heap from pointers to their fields.  The 16 bytes of [data] are the two words
    the code uses, [data[0..3]] and [data[8..11]], as unsigned integers. *)

From Stdlib Require Import Floats.SpecFloat.
From S2P Require Import Prelude Packet AbstractMem.
Import MemCmd Packet AbstractMem.

Module AtomicOps.

Inductive Operation : Set :=
| ATOMIC_INVALID_OP | ATOMIC_CAS_OP | ATOMIC_ADD_OP | ATOMIC_INC_OP | ATOMIC_MAX_OP | ATOMIC_MIN_OP.
Inductive DataType : Set := INVALID_TYPE | S32_TYPE | U32_TYPE | F32_TYPE | B32_TYPE.

#[export] Instance Operation_eq_dec : EqDecision Operation.
Proof. solve_decision. Defined.

Record AtomicOpRequest := mkAtomic
  { uniqueId : nat;
    dataType : DataType;
    atomicOp : Operation;
    lineOffset : Z;
    lastAccess : bool;
    word0 : Z;       (** [data[0..3]]: the operand, then the old value *)
    word8 : Z }.     (** [data[8..11]]: the second operand of a compare-and-swap *)
#[export] Instance eta_AtomicOpRequest : Eta AtomicOpRequest := λ a,
  mkAtomic (uniqueId a) (dataType a) (atomicOp a) (lineOffset a) (lastAccess a) (word0 a) (word8 a).

Abbreviation heap := (gmap nat AtomicOpRequest).

(** A dereferenced pointer. *)
Definition load_op (h : heap) (p : nat) : res AtomicOpRequest :=
  match h !! p with Some a => Ok a | None => Fault (Panic "segmentation fault") end.

Definition dataSizeBytes (a : AtomicOpRequest) : res Z :=
  match dataType a with
  | S32_TYPE | U32_TYPE | F32_TYPE | B32_TYPE => Ok 4
  | INVALID_TYPE => Fault (Panic "Unknown atomic type")
  end.

(** [setData(in_data)]: [in_data] by its words at offsets 0 and 8. *)
Definition setData (in0 in8 : Z) (a : AtomicOpRequest) : res AtomicOpRequest :=
  assert (negb (bool_decide (atomicOp a = ATOMIC_INVALID_OP))) "atomicOp != ATOMIC_INVALID_OP";;
  dataSizeBytes a;;
  let a := a <| word0 := in0 |> in
  Ok (if bool_decide (atomicOp a = ATOMIC_CAS_OP) then a <| word8 := in8 |> else a).

(** [writeData(out_data)]: the word it copies out. *)
Definition writeData (a : AtomicOpRequest) : res Z := dataSizeBytes a;; Ok (word0 a).

(** ** The arithmetic of C++ on 32-bit words *)

(** A word read as an [int]; conversions back wrap around. *)
Definition s32 (w : Z) : Z := if w <? 2 ^ 31 then w else w - 2 ^ 32.

(** A word read as a [float] (IEEE binary32), and the word of a float; all not-a-number
    words are one. *)
Definition float_of_word (w : Z) : spec_float :=
  let s := Z.testbit w 31 in
  let e := Z.land (Z.shiftr w 23) 255 in
  let m := Z.land w (2 ^ 23 - 1) in
  if e =? 255 then if m =? 0 then S754_infinity s else S754_nan
  else if e =? 0 then match m with Zpos p => S754_finite s p (-149) | _ => S754_zero s end
  else match m + 2 ^ 23 with Zpos p => S754_finite s p (e - 150) | _ => S754_zero s end.

Definition word_of_float (f : spec_float) : Z :=
  let sign (s : bool) := if s then 2 ^ 31 else 0 in
  match f with
  | S754_zero s => sign s
  | S754_infinity s => sign s + Z.shiftl 255 23
  | S754_nan => Z.shiftl 511 22
  | S754_finite s m e =>
      if Zpos m <? 2 ^ 23 then sign s + Zpos m
      else sign s + Z.shiftl (e + 150) 23 + (Zpos m - 2 ^ 23)
  end.

Definition float_add (x y : Z) : Z :=
  word_of_float (SFadd 24 128 (float_of_word x) (float_of_word y)).

(** [doAtomicOperation(read_data, write_data)] on the word read: the word to
    write; the old value replaces the operand in the object. *)
Definition new_word (a : AtomicOpRequest) (mem : Z) : res Z :=
  let reg := word0 a in
  match atomicOp a with
  | ATOMIC_CAS_OP =>
      match dataType a with
      | B32_TYPE | U32_TYPE => Ok (if mem =? reg then word8 a else mem)
      | _ => Fault (Panic "Unimplemented atomic compare and swap type")
      end
  | ATOMIC_ADD_OP =>
      match dataType a with
      | S32_TYPE => Ok (u32 (s32 reg + s32 mem))
      | U32_TYPE => Ok (u32 (reg + mem))
      | F32_TYPE => Ok (float_add reg mem)
      | _ => Fault (Panic "Unimplemented atomic add type")
      end
  | ATOMIC_INC_OP =>
      match dataType a with
      | U32_TYPE => Ok (if reg <=? mem then 0 else u32 (mem + 1))
      | _ => Fault (Panic "Unimplemented atomic increment type")
      end
  | ATOMIC_MAX_OP =>
      match dataType a with
      | U32_TYPE => Ok (if reg <? mem then mem else reg)
      | S32_TYPE => Ok (if s32 reg <? s32 mem then mem else reg)
      | _ => Fault (Panic "Unimplemented atomic max type")
      end
  | ATOMIC_MIN_OP =>
      match dataType a with
      | S32_TYPE => Ok (if s32 mem <? s32 reg then mem else reg)
      | U32_TYPE => Ok (if mem <? reg then mem else reg)
      | _ => Fault (Panic "Unimplemented atomic min type")
      end
  | ATOMIC_INVALID_OP => Fault (Panic "Unimplemented atomic operation")
  end.

Definition doAtomicOperation (a : AtomicOpRequest) (mem : Z) : res (AtomicOpRequest * Z) :=
  w ← new_word a mem;
  Ok (a <| word0 := mem |>, w).

(** ** The operations of a packet on the backing store *)

(** The little-endian word in the first four bytes of a buffer; an indeterminate
    byte reads as zero. *)
Definition word_of (bs : list cell) : Z :=
  foldr (λ c v, default 0 c + 256 * v) 0 (take 4 bs).

(** [Packet(&atomic_req, cmd, 4)] on a static buffer of 8 bytes. *)
Definition atomic_pkt (c : Command) (a : Addr) (buffer : list cell) : Packet :=
  {| pkt_id := 0; cmd := c; addr := a; size := 4; isSecure := false;
     hasContextId := false; contextId := 0; isUncacheable := false;
     masterId := 0; isInstFetch := false; isCondSwap := false; extraData := 0;
     memInhibit := false; isExpressSnoop := false; headerDelay := 0; payloadDelay := 0;
     data := StaticData buffer; senderState := None |}.

Section memory.
Context `{R : MemRange}.

(** One round of the loop: read, operate, write. *)
Definition perform (a : AtomicOpRequest) (base : Addr) (m : Mem) : res (AtomicOpRequest * Mem) :=
  let x := u64 (base + lineOffset a) in
  rd ← access (atomic_pkt ReadReq x (replicate 8 None)) m;
  let '(p, m) := rd in
  read_data ← getPtr p;
  aw ← doAtomicOperation a (word_of read_data);
  let '(a, w) := aw in
  wr ← access (atomic_pkt WriteReq x (le_bytes 4 w ++ replicate 4 None)) m;
  let '(_, m) := wr in
  Ok (a, m).

(** The loop [for (i = 0; !atomics_done; i++)] over the array of pointers. *)
Fixpoint perform_all (base : Addr) (ops : list nat) (h : heap) (m : Mem) : res (heap * Mem) :=
  match ops with
  | [] => Fault (Panic "read past the end of the packet's data")
  | p :: ops =>
      a ← load_op h p;
      n ← dataSizeBytes a;
      assert (n =? 4) "atomic_ops[i]->dataSizeBytes() == data_size_bytes";;
      am ← perform a base m;
      let '(a, m) := am in
      let h := <[p := a]> h in
      if lastAccess a then Ok (h, m) else perform_all base ops h m
  end.

(** [atomicMemoryAccess(pkt, phys_mem)] for a packet with command [c] at [base]
    whose payload is the array [ops]: the command of the response, the objects
    and the memory. *)
Definition atomicMemoryAccess (c : Command) (base : Addr) (ops : list nat) (h : heap) (m : Mem)
    : res (Command * heap * Mem) :=
  p ← match head ops with Some p => Ok p | None => Fault (Panic "read past the end of the packet's data") end;
  a ← load_op h p;
  n ← dataSizeBytes a;
  assert (n =? 4) "data_size_bytes == 4";;
  hm ← perform_all base ops h m;
  let '(h, m) := hm in
  assert (needsResponse c) "pkt->needsResponse()";;
  assert (isRequest c) "isRequest()";;
  Ok (responseCommand c, h, m).
End memory.
End AtomicOps.
