(* ===== verification/WarpInst.v ===== *)
(** * Warp instructions of the GPU's load-store queue
      (gem5-gpu/src/gpu/lsq_warp_inst_buffer.hh, .cc)

    A [WarpInstBuffer] collects the requests of the lanes of one warp instruction,
    coalesces them into cache accesses, and hands the responses back to the
    lanes.  An access is identified by its number within the instruction (the
    code compares pointers).  The data pointer of a lane's packet points to its
    bytes or, for an atomic, to an [AtomicOpRequest] on the heap of [AtomicOps];
    the payload of an atomic access is an array of such pointers. *)

From S2P Require Import Prelude Packet AtomicOps.
Import MemCmd Packet AtomicOps.

Module WarpInst.

Inductive BufferState : Set := EMPTY | DISPATCHING | COALESCED | FENCING | FENCE_COMPLETE.
Inductive InstructionType : Set := INVALID | LOAD_INST | STORE_INST | MEM_FENCE | ATOMIC_INST.

#[export] Instance BufferState_eq_dec : EqDecision BufferState.
Proof. solve_decision. Defined.
#[export] Instance InstructionType_eq_dec : EqDecision InstructionType.
Proof. solve_decision. Defined.

(** The data pointer of a lane's packet. *)
Inductive ldata : Type := NoBytes | Bytes (bs : list cell) | Atomic (p : nat).

(** A lane's packet, with the fields of its request. *)
Record lane_pkt := mkLane
  { l_cmd : Command; l_vaddr : Addr; l_size : Z; l_swap : bool; l_threadId : Z; l_pc : Addr;
    l_masterId : Z; l_bypassL1 : bool; l_data : ldata }.
#[export] Instance eta_lane_pkt : Eta lane_pkt := λ p,
  mkLane (l_cmd p) (l_vaddr p) (l_size p) (l_swap p) (l_threadId p) (l_pc p) (l_masterId p)
    (l_bypassL1 p) (l_data p).

(** The payload of an access. *)
Inductive adata : Type := NoPayload | Payload (bs : list cell) | Ops (ps : list nat).

(** [CoalescedAccess]: the request's fields, the lanes, [pktData] and the data
    pointer of the packet itself. *)
Record CoalescedAccess := mkAccess
  { a_no : nat; a_cmd : Command; a_vaddr : Addr; a_paddr : Addr; a_size : Z; a_bypassL1 : bool; a_swap : bool;
    a_pc : Addr; a_masterId : Z; activeLanes : list nat; pktData : adata; a_data : adata;
    injectTime : Z }.
#[export] Instance eta_CoalescedAccess : Eta CoalescedAccess := λ a,
  mkAccess (a_no a) (a_cmd a) (a_vaddr a) (a_paddr a) (a_size a) (a_bypassL1 a) (a_swap a) (a_pc a)
    (a_masterId a) (activeLanes a) (pktData a) (a_data a) (injectTime a).

Record WIB := mkWIB
  { warpId : Z; laneCount : nat; warpParts : nat; state : BufferState;
    instructionType : InstructionType; requestDataSize : Z; startTick : Tick;
    firstCycleTick : Tick; completeCycleTick : Tick; b_masterId : Z;
    laneRequestPkts : list (option lane_pkt); b_pc : Addr; bypassL1 : bool;
    coalescedAccesses : list CoalescedAccess; translatedAccesses : list CoalescedAccess;
    accesses_made : nat;     (** the number of the next access *)
    ops : heap }.
#[export] Instance eta_WIB : Eta WIB := λ b,
  mkWIB (warpId b) (laneCount b) (warpParts b) (state b) (instructionType b) (requestDataSize b)
    (startTick b) (firstCycleTick b) (completeCycleTick b) (b_masterId b) (laneRequestPkts b)
    (b_pc b) (bypassL1 b) (coalescedAccesses b) (translatedAccesses b) (accesses_made b) (ops b).

(** The constructor; fields it leaves alone are zero. *)
Definition new_buffer (lane_count warp_parts : nat) : WIB :=
  mkWIB (-1) lane_count warp_parts EMPTY INVALID 0 0 0 0 0 (replicate lane_count None) 0 false
    [] [] 0 ∅.

(** ** Lanes *)

Definition lane (b : WIB) (i : nat) : option lane_pkt :=
  match laneRequestPkts b !! i with Some (Some p) => Some p | _ => None end.

Definition getLane (b : WIB) (i : nat) : res lane_pkt :=
  match lane b i with Some p => Ok p | None => Fault (AssertFail "lane_pkt") end.

Definition setLane (i : nat) (p : option lane_pkt) (b : WIB) : WIB :=
  b <| laneRequestPkts ::= <[i := p]> |>.

Definition getLaneAddr (b : WIB) (i : nat) : res Addr := p ← getLane b i; Ok (l_vaddr p).

Definition getLaneData (b : WIB) (i : nat) : res ldata :=
  assert (bool_decide (i < laneCount b)%nat) "lane_id < laneCount";;
  p ← getLane b i;
  match l_data p with
  | NoBytes => Fault (AssertFail "flags.isSet(STATIC_DATA|DYNAMIC_DATA)")
  | d => Ok d
  end.

(** [getLaneData] as bytes; an object is not read as bytes. *)
Definition getLaneBytes (b : WIB) (i : nat) : res (list cell) :=
  d ← getLaneData b i;
  match d with Bytes bs => Ok bs | _ => Fault (Panic "type punning") end.

Definition getLaneAtomicRequest (b : WIB) (i : nat) : res nat :=
  assert (bool_decide (instructionType b = ATOMIC_INST)) "instructionType == ATOMIC_INST";;
  d ← getLaneData b i;
  match d with Atomic p => Ok p | _ => Fault (Panic "type punning") end.

(** [Packet::makeResponse] on a lane's packet. *)
Definition respond (p : lane_pkt) : res lane_pkt :=
  assert (needsResponse (l_cmd p)) "needsResponse()";;
  assert (isRequest (l_cmd p)) "isRequest()";;
  Ok (p <| l_cmd := responseCommand (l_cmd p) |>).

(** ** Filling the buffer *)

Definition type_of (p : lane_pkt) : res InstructionType :=
  if isRead (l_cmd p) then Ok (if l_swap p then ATOMIC_INST else LOAD_INST)
  else if isWrite (l_cmd p) then
    assert (negb (l_swap p)) "!pkt->req->isSwap()";; Ok STORE_INST
  else if bool_decide (l_cmd p = FenceReq) then
    assert (negb (l_swap p)) "!pkt->req->isSwap()";; Ok MEM_FENCE
  else Fault (Panic "Instruction type not found!").

Definition initializeInstBuffer (now : Tick) (p : lane_pkt) (b : WIB) : res WIB :=
  assert (bool_decide (state b = EMPTY)) "state == EMPTY";;
  t ← type_of p;
  Ok ((((((((b <| state := DISPATCHING |>) <| startTick := now |>) <| instructionType := t |>)
    <| warpId := l_threadId p |>) <| requestDataSize := l_size p |>) <| b_pc := l_pc p |>)
    <| b_masterId := l_masterId p |>) <| bypassL1 := l_bypassL1 p |>).

Definition addLaneRequest (now : Tick) (lane_id : nat) (p : lane_pkt) (b : WIB) : res (bool * WIB) :=
  if negb (now =? startTick b) then Ok (false, b)
  else
    assert (bool_decide (state b = DISPATCHING)) "state == DISPATCHING";;
    assert (negb (isSome (lane b lane_id))) "!laneRequestPkts[lane_id]";;
    Ok (true, setLane lane_id (Some p) b).

Definition startFence (now : Tick) (b : WIB) : res WIB :=
  assert (bool_decide (state b = DISPATCHING)) "state == DISPATCHING";;
  Ok ((b <| firstCycleTick := now |>) <| state := FENCING |>).

Definition arriveAtFence (b : WIB) : res WIB :=
  assert (bool_decide (state b = FENCING)) "state == FENCING";;
  Ok (b <| state := FENCE_COMPLETE |>).

(** ** Coalescing *)

(** [transaction_info]: the 32-byte chunks touched, as a mask, and the lanes. *)
Record transaction_info := mkTx { chunks : Z; tx_lanes : list nat }.

(** [map.find(key)] and [map[key]] updated in place: the entries are sorted by key. *)
Fixpoint map_get {V} (k : Z) (l : list (Z * V)) : option V :=
  match l with
  | [] => None
  | (k', v) :: l' => if k =? k' then Some v else map_get k l'
  end.
Fixpoint map_upd {V} (dflt : V) (k : Z) (f : V → V) (l : list (Z * V)) : list (Z * V) :=
  match l with
  | [] => [(k, f dflt)]
  | (k', v) :: l' =>
      if k <? k' then (k, f dflt) :: l
      else if k =? k' then (k', f v) :: l'
      else (k', v) :: map_upd dflt k f l'
  end.

Definition segment_size (requestDataSize : Z) : Z :=
  if requestDataSize =? 1 then 32
  else if requestDataSize =? 2 then 64
  else if (requestDataSize =? 4) || (requestDataSize =? 8) || (requestDataSize =? 16) then 128
  else 0.

(** [addr & ~((Addr)(segment_size - 1))]. *)
Definition block_of (seg a : Z) : Addr := Z.ldiff a (u32 (seg - 1)).

(** Step 1 for one thread. *)
Definition add_thread (b : WIB) (seg : Z) (txs : list (Addr * transaction_info)) (thread : nat)
    : res (list (Addr * transaction_info)) :=
  match lane b thread with
  | None => Ok txs
  | Some p =>
      let a := l_vaddr p in
      let block_address := block_of seg a in
      let chunk := Z.land a 127 / 32 in
      assert (block_address =? block_of seg (u64 (a + requestDataSize b - 1)))
        "block_address == ((addr + requestDataSize - 1) & ~((Addr)(segment_size - 1)))";;
      Ok (map_upd (mkTx 0 []) block_address
            (λ t, mkTx (Z.setbit (chunks t) chunk) (tx_lanes t ++ [thread])) txs)
  end.

(** Step 2: the part of the segment that has to be accessed. *)
Definition halve (lower upper : bool) (step size addr : Z) : res (Addr * Z) :=
  if lower && negb upper then Ok (addr, size / 2)
  else if negb lower && upper then Ok (addr + step, size / 2)
  else assert (lower && upper) "lower_half_used && upper_half_used";; Ok (addr, size).

Definition reduce (seg addr : Z) (q : Z) : res (Addr * Z) :=
  assert (Z.land addr (u32 (seg - 1)) =? 0) "(addr & (segment_size-1)) == 0";;
  assert (negb (q =? 0)) "q.count() >= 1";;
  let q i := Z.testbit q i in
  asz ← (if seg =? 128 then halve (q 0 || q 1) (q 2 || q 3) 64 128 addr else Ok (addr, seg));
  let '(addr', size) := asz in
  (** the halves used of a segment of 64 bytes *)
  h ← (if seg =? 128 then Ok (if addr' =? addr then (q 0, q 1) else (q 2, q 3))
       else if seg =? 64 then
         if addr mod 128 =? 0 then Ok (q 0, q 1)
         else assert (addr mod 128 =? 64) "(addr % 128) == 64";; Ok (q 2, q 3)
       else Ok (false, false));
  if size =? 64 then halve h.1 h.2 32 64 addr' else Ok (addr', size).

(** [memcpy(&dst[off], src, n)]; an access outside the buffers is a fault. *)
Definition memcpy_at (dst : list cell) (off : Z) (src : list cell) (n : Z) : res (list cell) :=
  if (0 <=? off) && (off + n <=? Z.of_nat (length dst)) && (0 <=? n) && (n <=? Z.of_nat (length src))
  then Ok (take (Z.to_nat off) dst ++ take (Z.to_nat n) src ++ drop (Z.to_nat (off + n)) dst)
  else Fault (Panic "buffer overrun").

Definition push_access (c : Command) (addr size : Z) (swap : bool) (lanes : list nat) (d : adata)
    (b : WIB) : WIB :=
  let a := mkAccess (accesses_made b) c addr 0 size (bypassL1 b) swap (b_pc b) (b_masterId b) lanes d
             NoPayload 0 in
  (b <| coalescedAccesses ::= λ l, l ++ [a] |>) <| accesses_made ::= S |>.

(** The payload of a store: the words of its lanes, in the order of the list. *)
Definition store_word (b : WIB) (addr : Addr) (buf : list cell) (i : nat) : res (list cell) :=
  a ← getLaneAddr b i;
  bs ← getLaneBytes b i;
  memcpy_at buf (sub64 a addr) bs (requestDataSize b).

(** The lanes of each 32-byte subblock. *)
Definition add_subblock (b : WIB) (addr : Addr) (subs : list (Z * list nat)) (i : nat)
    : res (list (Z * list nat)) :=
  a ← getLaneAddr b i;
  Ok (map_upd [] (sub64 a addr / 32) (λ l, l ++ [i]) subs).

Definition sub_get (subs : list (Z * list nat)) (k : Z) : list nat := default [] (map_get k subs).

Definition max_atom_per_subblock_per_pkt : nat := 3.

(** The lane's object is prepared for a packet at [addr]. *)
Definition place_op (addr : Addr) (bps : WIB * list nat) (i : nat) : res (WIB * list nat) :=
  let '(b, ps) := bps in
  p ← getLaneAtomicRequest b i;
  o ← load_op (ops b) p;
  assert (uniqueId o =? i)%nat "lane_request->uniqueId == lane_index";;
  a ← getLaneAddr b i;
  Ok (b <| ops ::= <[p := (o <| lineOffset := u32 (sub64 a addr) |>) <| lastAccess := false |>]> |>,
      ps ++ [p]).

Definition mark_last (ps : list nat) (b : WIB) : res WIB :=
  match last ps with
  | None => Fault (Panic "write before the start of the packet's data")
  | Some p => o ← load_op (ops b) p; Ok (b <| ops ::= <[p := o <| lastAccess := true |>]> |>)
  end.

(** One atomic packet: up to three operations for each subblock, the next in
    line.  [subs] gives the lanes that are left for each subblock. *)
Definition atomic_packet (addr size : Z) (bs : WIB * list (list nat)) (_ : nat)
    : res (WIB * list (list nat)) :=
  let '(b, subs) := bs in
  let lanes_this_packet := concat (take max_atom_per_subblock_per_pkt <$> subs) in
  bps ← foldM (place_op addr) (b, []) lanes_this_packet;
  let '(b, ps) := bps in
  b ← mark_last ps b;
  Ok (push_access SwapReq addr size true lanes_this_packet (Ops ps) b,
      drop max_atom_per_subblock_per_pkt <$> subs).

Definition generateCoalescedAccesses (addr size : Z) (active_lanes : list nat) (b : WIB) : res WIB :=
  match instructionType b with
  | LOAD_INST => Ok (push_access ReadReq addr size false active_lanes NoPayload b)
  | STORE_INST =>
      pkt_data ← foldM (store_word b addr) (replicate (Z.to_nat size) None) active_lanes;
      Ok (push_access WriteReq addr size false active_lanes (Payload pkt_data) b)
  | ATOMIC_INST =>
      assert (requestDataSize b =? 4) "requestDataSize == 4";;
      assert (negb (bool_decide (active_lanes = []))) "active_lanes.size() > 0";;
      subs ← foldM (add_subblock b addr) [] active_lanes;
      let subblocks := sub_get subs <$> seqZ 0 (size / 32) in
      let max_atoms_per_subline := foldr Nat.max 0%nat (length <$> subblocks) in
      let num_packets := ((max_atoms_per_subline + 2) / 3)%nat in
      bs ← foldM (atomic_packet addr size) (b, subblocks) (seq 0 num_packets);
      Ok bs.1
  | _ => Fault (Panic "Invalid instruction generating coalesced accesses")
  end.

(** The [multimap] from offsets to lanes: equal keys in the order of insertion. *)
Fixpoint multimap_insert (o : Z) (i : nat) (l : list (Z * nat)) : list (Z * nat) :=
  match l with
  | [] => [(o, i)]
  | (o', i') :: l' => if o <? o' then (o, i) :: l else (o', i') :: multimap_insert o i l'
  end.

Definition add_word (b : WIB) (size : Z) (ws : list (Z * nat)) (i : nat) : res (list (Z * nat)) :=
  a ← getLaneAddr b i;
  Ok (multimap_insert (Z.land a (size - 1)) i ws).

(** The inner loop: the lanes and the bytes of the chunk that starts with [w],
    and the words after it. *)
Fixpoint take_chunk (ds : Z) (w : Z * nat) (rest : list (Z * nat)) : list nat * Z * list (Z * nat) :=
  match rest with
  | [] => ([w.2], ds, [])
  | next :: rest' =>
      if w.1 + ds =? next.1 then
        let '(lanes, n, r) := take_chunk ds next rest' in (w.2 :: lanes, ds + n, r)
      else if negb (w.1 =? next.1) then ([w.2], ds, rest)
      else let '(lanes, n, r) := take_chunk ds next rest' in (w.2 :: lanes, n, r)
  end.

(** The outer loop: every round uses up a word. *)
Fixpoint send_chunks (fuel : nat) (addr : Addr) (ws : list (Z * nat)) (b : WIB) : res WIB :=
  match fuel, ws with
  | _, [] => Ok b
  | O, _ => Fault (Panic "out of fuel")
  | S fuel, w :: rest =>
      let '(lanes, chunkSize, rest) := take_chunk (requestDataSize b) w rest in
      b ← generateCoalescedAccesses (addr + w.1) chunkSize lanes b;
      send_chunks fuel addr rest b
  end.

(** Step 2 for one transaction. *)
Definition send_transaction (seg : Z) (b : WIB) (t : Addr * transaction_info) : res WIB :=
  asz ← reduce seg t.1 (chunks t.2);
  let '(addr, size) := asz in
  match instructionType b with
  | LOAD_INST => generateCoalescedAccesses addr size (tx_lanes t.2) b
  | STORE_INST =>
      validWords ← foldM (add_word b size) [] (tx_lanes t.2);
      send_chunks (length validWords) addr validWords b
  | ATOMIC_INST => generateCoalescedAccesses addr size (tx_lanes t.2) b
  | _ => Fault (Panic "Invalid instruction in coalescer")
  end.

Definition coalesce_subwarp (seg : Z) (subwarp_size : nat) (b : WIB) (subwarp : nat) : res WIB :=
  txs ← foldM (add_thread b seg) [] (seq (subwarp * subwarp_size) subwarp_size);
  foldM (send_transaction seg) b txs.

Definition coalesce (b : WIB) : res WIB :=
  assert (laneCount b =? 32)%nat "laneCount == 32";;
  assert (bool_decide (instructionType b ∈ [LOAD_INST; STORE_INST; ATOMIC_INST]))
    "instructionType == LOAD_INST || STORE_INST || ATOMIC_INST";;
  foldM (coalesce_subwarp (segment_size (requestDataSize b)) (laneCount b / warpParts b))
    b (seq 0 (warpParts b)).

Definition coalesceMemRequests (now : Tick) (b : WIB) : res WIB :=
  assert (bool_decide (state b = DISPATCHING)) "state == DISPATCHING";;
  b ← coalesce (b <| firstCycleTick := now |>);
  Ok (b <| state := COALESCED |>).

(** ** Accesses *)

(** [list::remove] by identity. *)
Definition remove_access (a : CoalescedAccess) : list CoalescedAccess → list CoalescedAccess :=
  List.filter (λ a', negb (a_no a' =? a_no a)%nat).

Definition removeCoalesced (a : CoalescedAccess) (b : WIB) : WIB :=
  b <| coalescedAccesses ::= remove_access a |>.
Definition setTranslated (a : CoalescedAccess) (b : WIB) : WIB :=
  b <| translatedAccesses ::= λ l, l ++ [a] |>.
Definition removeTranslated (a : CoalescedAccess) (b : WIB) : WIB :=
  b <| translatedAccesses ::= remove_access a |>.

Definition moveDataToPacket (a : CoalescedAccess) : res CoalescedAccess :=
  assert (match pktData a with NoPayload => false | _ => true end) "pktData";;
  Ok ((a <| a_data := pktData a |>) <| pktData := NoPayload |>).

(** What [ShaderLSQ::finishTranslation] does to the packet of an access that was
    translated to [paddr]: writes get their data, loads a fresh buffer. *)
Definition translated_packet (paddr : Addr) (a : CoalescedAccess) : res CoalescedAccess :=
  let a := a <| a_paddr := paddr |> in
  if isWrite (a_cmd a) then moveDataToPacket a
  else
    assert (isRead (a_cmd a)) "pkt->isRead()";;
    assert (match a_data a with NoPayload => true | _ => false end)
      "flags.noneSet(STATIC_DATA|DYNAMIC_DATA)";;
    Ok (a <| a_data := Payload (replicate (Z.to_nat (a_size a)) None) |>).

(** The loop over the operations of an atomic access. *)
Fixpoint finish_ops (ps : list nat) (active_lanes : list nat) (b : WIB) : res (list nat * WIB) :=
  match ps with
  | [] => Fault (Panic "read past the end of the packet's data")
  | p :: ps =>
      o ← load_op (ops b) p;
      let lane_id := uniqueId o in
      assert (bool_decide (head active_lanes = Some lane_id)) "active_lanes->front() == lane_id";;
      lp ← getLane b lane_id;
      lp ← respond lp;
      let b := setLane lane_id (Some lp) b in
      assert (match l_data lp with Atomic p' => (p' =? p)%nat | _ => false end)
        "lane_pkt->getPtr<uint8_t>() == atomic_ops[i]";;
      let atomics_done := lastAccess o in
      let b := b <| ops ::= <[p := o <| lastAccess := true |>]> |> in
      if atomics_done then Ok (tail active_lanes, b) else finish_ops ps (tail active_lanes) b
  end.

(** One round of the loop over the lanes of a load or a store; [a_data] is the
    payload of the response. *)
Definition finish_lane (a : CoalescedAccess) (b : WIB) (lane_id : nat) : res WIB :=
  lp ← getLane b lane_id;
  match instructionType b with
  | LOAD_INST =>
      let offset := sub64 (l_vaddr lp) (a_vaddr a) in
      assert (offset <? a_size a) "offset < mem_access->getSize()";;
      dst ← match l_data lp with Bytes bs => Ok bs | _ => Fault (AssertFail "flags.isSet(STATIC_DATA|DYNAMIC_DATA)") end;
      src ← match a_data a with Payload bs => Ok bs | _ => Fault (AssertFail "flags.isSet(STATIC_DATA|DYNAMIC_DATA)") end;
      dst ← memcpy_at dst 0 (drop (Z.to_nat offset) src) (l_size lp);
      lp ← respond (lp <| l_data := Bytes dst |>);
      Ok (setLane lane_id (Some lp) b)
  | t =>
      assert (bool_decide (t = STORE_INST)) "instructionType == STORE_INST";;
      Ok (setLane lane_id None b)
  end.

(** [finishAccess]: whether the warp instruction is complete. *)
Definition finishAccess (a : CoalescedAccess) (b : WIB) : res (bool * WIB) :=
  b ← (if bool_decide (instructionType b = ATOMIC_INST) then
         ps ← match a_data a with Ops ps => Ok ps | _ => Fault (AssertFail "flags.isSet(STATIC_DATA|DYNAMIC_DATA)") end;
         lb ← finish_ops ps (activeLanes a) b;
         assert (bool_decide (lb.1 = [])) "active_lanes->empty()";;
         Ok lb.2
       else foldM (finish_lane a) b (activeLanes a));
  let b := removeTranslated a b in
  Ok (bool_decide (coalescedAccesses b = [] ∧ translatedAccesses b = []), b).

Definition resetState (b : WIB) : res WIB :=
  assert (bool_decide (state b ∈ [COALESCED; FENCE_COMPLETE])) "state == COALESCED || state == FENCE_COMPLETE";;
  assert (bool_decide (coalescedAccesses b = [])) "coalescedAccesses.empty()";;
  assert (bool_decide (translatedAccesses b = [])) "translatedAccesses.empty()";;
  Ok (((((((b <| warpId := -1 |>) <| state := EMPTY |>) <| instructionType := INVALID |>)
    <| startTick := 0 |>) <| firstCycleTick := 0 |>) <| completeCycleTick := 0 |>)
    <| bypassL1 := false |>).

End WarpInst.
