(* ===== verification/CoalesceProofs.v ===== *)
(** * Coalescing keeps the meaning of a warp's accesses

    The requests of the lanes are split over the accesses; a load hands every
    lane its own bytes, and the stores leave the memory that the lanes would have
    left one after the other, whatever the order in which the accesses finish. *)

From S2P Require Import Prelude Intmath Packet ByteWrites AtomicOps WarpInst.
Import Intmath MemCmd Packet AtomicOps WarpInst.

Module CoalesceProofs.

(** ** Sorted maps *)

Section maps.
Context {V : Type} (d : V).
Implicit Types (l : list (Z * V)).

Abbreviation sorted l := (StronglySorted Z.lt (fst <$> l)).

Lemma map_upd_keys k f l k' : k' ∈ (fst <$> map_upd d k f l) → k' = k ∨ k' ∈ (fst <$> l).
Proof.
  induction l as [|[k1 v1] l IH]; cbn; [set_solver|].
  destruct (k <? k1); [set_solver|]. destruct (k =? k1); cbn; set_solver.
Qed.

Lemma map_upd_sorted k f l : sorted l → sorted (map_upd d k f l).
Proof.
  induction l as [|[k1 v1] l IH]; cbn; intros H; [repeat constructor|].
  apply StronglySorted_cons in H as [H1 H]. destruct (Z.ltb_spec k k1); cbn.
  { constructor; [by constructor|]. constructor; [done|]. eapply Forall_impl; [exact H1|]. cbn. lia. }
  destruct (Z.eqb_spec k k1); cbn; [by constructor|]. constructor; [by apply IH|].
  apply Forall_forall. intros x Hx%map_upd_keys. rewrite Forall_forall in H1. destruct Hx as [->|Hx]; [lia|by apply H1].
Qed.

Lemma map_get_elem k v l : sorted l → map_get k l = Some v ↔ (k, v) ∈ l.
Proof.
  induction l as [|[k1 v1] l IH]; cbn; [set_solver|]. intros [H1 H]%StronglySorted_cons.
  rewrite elem_of_cons. destruct (Z.eqb_spec k k1) as [->|Hne].
  - split; [intros [= ->]; by left|]. intros [[= ->]|Hin]; [done|]. rewrite Forall_forall in H1.
    specialize (H1 k1 ltac:(apply list_elem_of_fmap; by exists (k1, v))). lia.
  - rewrite IH by done. naive_solver.
Qed.

Lemma map_get_upd k f l k' : sorted l →
  map_get k' (map_upd d k f l) = if k' =? k then Some (f (default d (map_get k l))) else map_get k' l.
Proof.
  induction l as [|[k1 v1] l IH]; cbn; [done|]. intros [H1 H]%StronglySorted_cons.
  destruct (Z.ltb_spec k k1); cbn.
  - destruct (Z.eqb_spec k' k); [subst|done]. destruct (Z.eqb_spec k k1); [lia|].
    assert (map_get k l = None) as ->; [|done]. destruct (map_get k l) eqn:E; [|done].
    apply map_get_elem in E; [|done]. rewrite Forall_forall in H1.
    specialize (H1 k ltac:(apply list_elem_of_fmap; by eexists (k, _))). lia.
  - destruct (Z.eqb_spec k k1) as [<-|]; cbn; [by destruct (k' =? k)|]. rewrite IH by done.
    destruct (Z.eqb_spec k' k1); [|done]. by destruct (Z.eqb_spec k' k); [lia|].
Qed.

(** What a field of the entries holds in total, when an update appends to it. *)
Lemma map_upd_concat {A} (g : V → list A) k f l x : g d = [] → (∀ v, g (f v) = g v ++ x) →
  concat (g ∘ snd <$> map_upd d k f l) ≡ₚ concat (g ∘ snd <$> l) ++ x.
Proof.
  intros Hd Hf. induction l as [|[k1 v1] l IH]; cbn; [by rewrite Hf, Hd, app_nil_r|].
  destruct (k <? k1); cbn; [rewrite Hf, Hd; cbn; apply Permutation_app_comm|].
  destruct (k =? k1); cbn; [|rewrite IH; by rewrite app_assoc].
  rewrite Hf, <-!app_assoc. apply Permutation_app_head, Permutation_app_comm.
Qed.
End maps.

Lemma elem_of_concat_fmap {A B} (f : A → list B) l y : y ∈ concat (f <$> l) ↔ ∃ x, x ∈ l ∧ y ∈ f x.
Proof.
  induction l as [|x l IH]; cbn; [set_solver|]. rewrite elem_of_app, IH. set_solver.
Qed.

(** Lists that share no element. *)
Lemma concat_disjoint {A} (f : A → list nat) l : NoDup (concat (f <$> l)) →
  (∀ x, x ∈ l → NoDup (f x)) ∧ ∀ x y i, x ∈ l → y ∈ l → i ∈ f x → i ∈ f y → x = y.
Proof.
  induction l as [|z l IH]; cbn; [set_solver|]. intros (H1 & H2 & H3)%NoDup_app. destruct (IH H3) as [IH1 IH2].
  split; [intros x [->|Hx]%elem_of_cons; auto|].
  assert (Hno : ∀ y i, y ∈ l → i ∈ f z → i ∈ f y → False).
  { intros y i Hy Hz Hi. apply (H2 i Hz). apply elem_of_concat_fmap. by exists y. }
  intros x y i [->|Hx]%elem_of_cons [->|Hy]%elem_of_cons Hi Hj; [done|by destruct (Hno y i)|by destruct (Hno x i)|by eapply IH2].
Qed.

(** ** The words of a store, sorted by offset *)

Section words.
Context (off : nat → Z) (ds : Z).
Definition wd (i : nat) : Z * nat := (off i, i).
Definition at_off (o : Z) (L : list nat) : list nat := List.filter (λ i, off i =? o) L.
Abbreviation ascending L := (StronglySorted Z.le (off <$> L)).

Lemma multimap_insert_spec i L : ascending L →
  ∃ L', multimap_insert (off i) i (wd <$> L) = wd <$> L' ∧ L' ≡ₚ L ++ [i] ∧ ascending L' ∧
    ∀ o, at_off o L' = at_off o (L ++ [i]).
Proof.
  induction L as [|j L IH]; cbn; intros H; [by exists [i]; repeat constructor|].
  apply StronglySorted_cons in H as [H1 H]. destruct (Z.ltb_spec (off i) (off j)) as [Hlt|Hge].
  - exists (i :: j :: L). split_and!; [done|by rewrite (Permutation_app_comm (j :: L) [i])| |].
    + cbn. constructor; [by constructor|]. constructor; [lia|]. eapply Forall_impl; [exact H1|]. cbn. lia.
    + intros o. unfold at_off. cbn. destruct (Z.eqb_spec (off i) o) as [<-|Hne].
      * assert (Hnone : List.filter (λ i0, off i0 =? off i) (j :: L) = []).
        { apply elem_of_nil_inv. intros x Hx. rewrite list_elem_of_In, List.filter_In, <-list_elem_of_In, Z.eqb_eq in Hx.
          destruct Hx as [[->|Hx]%elem_of_cons Ex]; [lia|]. rewrite Forall_forall in H1.
          specialize (H1 (off x) ltac:(by apply list_elem_of_fmap_2)). lia. }
        cbn in Hnone. rewrite List.filter_app. cbn. rewrite Z.eqb_refl. destruct (off j =? off i); [done|]. by rewrite Hnone.
      * rewrite List.filter_app. cbn. apply Z.eqb_neq in Hne. rewrite Hne, app_nil_r. done.
  - destruct (IH H) as (L' & -> & HP & Hs & Hf). exists (j :: L'). split_and!; [done|by rewrite HP| |].
    + cbn. constructor; [done|]. rewrite Forall_fmap, HP, Forall_app. rewrite Forall_fmap in H1. split; [done|]. by repeat constructor.
    + intros o. specialize (Hf o). unfold at_off in *. cbn. by rewrite Hf.
Qed.

(** The first chunk: its words are consecutive, and those left come later. *)
Lemma take_chunk_spec i L : 0 < ds → ascending (i :: L) →
  ∃ C n R, take_chunk ds (wd i) (wd <$> L) = (i :: C, n, wd <$> R) ∧ L = C ++ R ∧ ds ≤ n ∧
    (∀ j, j ∈ i :: C → off i ≤ off j ∧ off j + ds ≤ off i + n) ∧
    (∀ j r, j ∈ i :: C → r ∈ R → off j < off r) ∧
    (∀ y, off i ≤ y < off i + n → ∃ j, j ∈ i :: C ∧ off j ≤ y < off j + ds).
Proof.
  intros Hds. revert i. induction L as [|j L IH]; intros i H; cbn.
  { exists [], ds, []. split_and!; [done|done|lia|intros j ->%list_elem_of_singleton; lia|set_solver|].
    intros y Hy. exists i. split; [by left|lia]. }
  rewrite (fmap_cons off i) in H. apply StronglySorted_cons in H as [H1 H].
  assert (Hall : ∀ r, r ∈ j :: L → off i ≤ off r) by (intros r Hr; rewrite Forall_forall in H1; by apply H1, list_elem_of_fmap_2).
  pose proof (Hall j ltac:(by left)) as Hij.
  destruct (IH j H) as (C & n & R & E & EL & Hn & Hin & Hlt & Hcov).
  destruct (Z.eqb_spec (off i + ds) (off j)) as [Hnext|Hnext]; [|destruct (Z.eqb_spec (off i) (off j)) as [Heq|Hne]]; cbn.
  - rewrite E. exists (j :: C), (ds + n), R. split_and!; [done|by rewrite EL|lia| | |].
    + intros x [->|Hx]%elem_of_cons; [lia|]. specialize (Hin x Hx). lia.
    + intros x r [->|Hx]%elem_of_cons Hr; [|by apply Hlt]. specialize (Hlt j r ltac:(by left) Hr). lia.
    + intros y Hy. destruct (Z.lt_ge_cases y (off j)); [exists i; split; [by left|lia]|].
      destruct (Hcov y ltac:(lia)) as (x & Hx & ?). exists x. split; [by right|done].
  - rewrite E. exists (j :: C), n, R. split_and!; [done|by rewrite EL|done| | |].
    + intros x [->|Hx]%elem_of_cons; [lia|]. specialize (Hin x Hx). lia.
    + intros x r [->|Hx]%elem_of_cons Hr; [|by apply Hlt]. specialize (Hlt j r ltac:(by left) Hr). lia.
    + intros y Hy. destruct (Hcov y ltac:(lia)) as (x & Hx & ?). exists x. split; [by right|done].
  - exists [], ds, (j :: L). split_and!; [done|done|lia|intros x ->%list_elem_of_singleton; lia| |].
    + intros x r ->%list_elem_of_singleton Hr. destruct (decide (off r = off i)) as [Er|]; [|specialize (Hall r Hr); lia].
      rewrite fmap_cons in H. apply StronglySorted_cons in H as [H2 _]. apply elem_of_cons in Hr as [->|Hr]; [lia|].
      rewrite Forall_forall in H2. specialize (H2 (off r) ltac:(by apply list_elem_of_fmap_2)). lia.
    + intros y Hy. exists i. split; [by left|lia].
Qed.
End words.

(** ** One warp instruction *)

Definition laddr (b : WIB) (i : nat) : Addr := match lane b i with Some p => l_vaddr p | None => 0 end.
Definition lbytes (b : WIB) (i : nat) : list cell :=
  match lane b i with Some p => match l_data p with Bytes bs => bs | _ => [] end | None => [] end.
Definition active (b : WIB) : list nat := List.filter (λ i, isSome (lane b i)) (seq 0 (laneCount b)).
(** The store of a lane. *)
Definition lw (b : WIB) (i : nat) : Addr * list cell := (laddr b i, lbytes b i).

(** The sizes the coalescer knows; addresses are multiples of the size. *)
Definition size_ok (ds : Z) : Prop := ds ∈ [1; 2; 4; 8; 16].

Definition lane_ok (t : InstructionType) (ds : Z) (p : lane_pkt) : Prop :=
  l_size p = ds ∧ 0 ≤ l_vaddr p < 2 ^ 64 ∧ l_vaddr p mod ds = 0 ∧
  l_cmd p = (match t with STORE_INST => WriteReq | _ => ReadReq end) ∧
  match t, l_data p with
  | ATOMIC_INST, Atomic _ => True
  | ATOMIC_INST, _ => False
  | _, Bytes bs => Z.of_nat (length bs) = ds
  | _, _ => False
  end.

Record warp_ok (b : WIB) : Prop :=
  { wo_lanes : laneCount b = 32%nat;
    wo_length : length (laneRequestPkts b) = 32%nat;
    wo_parts : warpParts b = 1%nat;
    wo_type : instructionType b ∈ [LOAD_INST; STORE_INST; ATOMIC_INST];
    wo_size : size_ok (requestDataSize b);
    wo_lane : ∀ i p, lane b i = Some p → lane_ok (instructionType b) (requestDataSize b) p }.

Section coalescing.
Context (b : WIB) (Hb : warp_ok b).
Abbreviation ds := (requestDataSize b).
Abbreviation seg := (segment_size ds).

Lemma sizes : ds ∈ [1; 2; 4; 8; 16] ∧ 0 < ds ∧ 32 mod ds = 0 ∧ (seg = 32 ∨ seg = 64 ∨ seg = 128) ∧ ds ≤ 32.
Proof.
  pose proof (wo_size b Hb) as H. split; [done|]. unfold size_ok in H. revert H.
  rewrite !elem_of_cons, elem_of_nil. intros [->|[->|[->|[->|[->|[]]]]]]; vm_compute; split_and!; naive_solver.
Qed.

Lemma active_elem i : i ∈ active b ↔ is_Some (lane b i).
Proof.
  unfold active. rewrite list_elem_of_In, List.filter_In, <-list_elem_of_In, elem_of_seq, (wo_lanes b Hb).
  unfold lane. split.
  - intros [_ H]. destruct (laneRequestPkts b !! i) as [[p|]|]; [by eexists|done|done].
  - intros [p Hp]. destruct (laneRequestPkts b !! i) as [[q|]|] eqn:E; try done.
    split; [|done]. apply lookup_lt_Some in E. rewrite (wo_length b Hb) in E. lia.
Qed.

Lemma active_NoDup : NoDup (active b).
Proof. apply NoDup_ListNoDup, List.NoDup_filter, List.seq_NoDup. Qed.

Lemma active_lane i : i ∈ active b →
  ∃ p, lane b i = Some p ∧ lane_ok (instructionType b) ds p ∧ laddr b i = l_vaddr p.
Proof. intros [p Hp]%active_elem. exists p. split_and!; [done|by eapply wo_lane|]. unfold laddr. by rewrite Hp. Qed.

Lemma laddr_ok i : i ∈ active b → 0 ≤ laddr b i < 2 ^ 64 ∧ laddr b i mod ds = 0.
Proof. intros (p & _ & (_ & ? & ? & _) & ->)%active_lane. done. Qed.

(** ** Transactions *)

Definition chunk_of (a : Addr) : Z := a mod 128 / 32.

Lemma block_of_eq s a : s = 32 ∨ s = 64 ∨ s = 128 → block_of s a = s * (a / s).
Proof.
  intros [-> | [-> | ->]]; unfold block_of;
    [change (u32 (32 - 1)) with (Z.ones 5)|change (u32 (64 - 1)) with (Z.ones 6)|change (u32 (128 - 1)) with (Z.ones 7)];
    rewrite Z.ldiff_ones_r, Z.shiftl_mul_pow2, Z.shiftr_div_pow2 by lia; apply Z.mul_comm.
Qed.

Lemma land_127 a : Z.land a 127 / 32 = chunk_of a.
Proof. change 127 with (Z.ones 7). by rewrite Z.land_ones by lia. Qed.

(** An aligned access stays within its chunk of 32 bytes. *)
Lemma in_chunk a : 0 ≤ a → a mod ds = 0 → a / 32 = (a + ds - 1) / 32.
Proof.
  intros Ha Hal. destruct sizes as (Hs & _). revert Hs Hal. rewrite !elem_of_cons, elem_of_nil.
  intros [->|[->|[->|[->|[->|[]]]]]] Hal; Z.to_euclidean_division_equations; lia.
Qed.

Lemma same_block s a : s = 32 ∨ s = 64 ∨ s = 128 → 0 ≤ a < 2 ^ 64 → a mod ds = 0 →
  block_of s (u64 (a + ds - 1)) = block_of s a.
Proof.
  intros Hs Ha Hal. pose proof (in_chunk a ltac:(lia) Hal). destruct sizes as (_ & ? & _ & _ & ?).
  rewrite u64_small by (Z.to_euclidean_division_equations; lia). rewrite !block_of_eq by done.
  destruct Hs as [-> | [-> | ->]]; Z.to_euclidean_division_equations; lia.
Qed.

Lemma chunk_bounds a : 0 ≤ chunk_of a < 4.
Proof. unfold chunk_of. Z.to_euclidean_division_equations; lia. Qed.

Definition group (k : Z) (L : list nat) : list nat := List.filter (λ i, block_of seg (laddr b i) =? k) L.

(** The transactions made for the lanes of [L]. *)
Record txs_ok (L : list nat) (txs : list (Addr * transaction_info)) : Prop :=
  { tx_sorted : StronglySorted Z.lt (fst <$> txs);
    tx_group : ∀ k t, (k, t) ∈ txs → tx_lanes t = group k L ∧ tx_lanes t ≠ [] ∧
      ∀ c, 0 ≤ c → Z.testbit (chunks t) c = true ↔ ∃ i, i ∈ tx_lanes t ∧ chunk_of (laddr b i) = c;
    tx_all : concat (tx_lanes ∘ snd <$> txs) ≡ₚ L }.

Lemma group_snoc k L i : group k (L ++ [i]) = group k L ++ (if block_of seg (laddr b i) =? k then [i] else []).
Proof. unfold group. rewrite List.filter_app. cbn. by destruct (_ =? _). Qed.

Lemma group_elem k L i : i ∈ group k L ↔ i ∈ L ∧ block_of seg (laddr b i) = k.
Proof. unfold group. rewrite list_elem_of_In, List.filter_In, <-list_elem_of_In, Z.eqb_eq. done. Qed.

(** The transaction of a block, the empty one if there is none. *)
Lemma tx_entry L txs k t0 : txs_ok L txs → default (mkTx 0 []) (map_get k txs) = t0 →
  tx_lanes t0 = group k L ∧
  ∀ c, 0 ≤ c → Z.testbit (chunks t0) c = true ↔ ∃ i, i ∈ tx_lanes t0 ∧ chunk_of (laddr b i) = c.
Proof.
  intros [H1 H2 H3] <-. destruct (map_get k txs) as [t|] eqn:E; cbn.
  - apply map_get_elem in E; [|done]. by destruct (H2 _ _ E) as (? & _ & ?).
  - split; [|intros c _; rewrite Z.bits_0; split; [done|]; by intros (j & []%not_elem_of_nil & _)].
    symmetry. apply elem_of_nil_inv. intros j [Hj Hk]%group_elem. rewrite <-H3 in Hj.
    apply elem_of_concat_fmap in Hj as ([k' t'] & Hin & Hj). cbn in Hj. destruct (H2 _ _ Hin) as (El & _).
    rewrite El in Hj. apply group_elem in Hj as [_ Hk']. apply map_get_elem in Hin; congruence.
Qed.

Lemma add_thread_ok L txs i : i ∈ active b → txs_ok L txs →
  ∃ txs', add_thread b seg txs i = Ok txs' ∧ txs_ok (L ++ [i]) txs'.
Proof.
  intros Hi Ht. destruct (active_lane i Hi) as (p & Hp & (_ & Hr & Hal & _) & Ea).
  destruct sizes as (_ & _ & _ & Hs & _). unfold add_thread. rewrite Hp, same_block by done.
  rewrite assert_bind by (by rewrite Z.eqb_refl). eexists. split; [done|]. rewrite <-Ea, land_127.
  pose proof (chunk_bounds (laddr b i)) as Hc. set (k := block_of seg (laddr b i)). pose proof Ht as [H1 H2 H3].
  constructor; [by apply map_upd_sorted| |by rewrite (map_upd_concat (mkTx 0 []) tx_lanes _ _ _ [i]), H3].
  intros k' t Hin. apply map_get_elem in Hin; [|by apply map_upd_sorted]. rewrite map_get_upd in Hin by done.
  rewrite group_snoc. fold k. destruct (Z.eqb_spec k' k) as [->|Hne].
  - injection Hin as <-. cbn [tx_lanes chunks]. destruct (tx_entry L txs k _ Ht eq_refl) as [-> Hbit].
    rewrite Z.eqb_refl. split_and!; [done|by destruct (group k L)|]. intros c Hc0.
    rewrite Z.setbit_eqb, orb_true_iff, Z.eqb_eq, Hbit by lia. set_solver.
  - destruct (Z.eqb_spec k k'); [done|]. rewrite app_nil_r. by apply H2, map_get_elem.
Qed.

Lemma threads_ok : ∃ txs, foldM (add_thread b seg) [] (seq 0 (laneCount b)) = Ok txs ∧ txs_ok (active b) txs.
Proof.
  unfold active. generalize (laneCount b) as n. intros n.
  assert (∀ l L txs, txs_ok L txs → ∃ txs', foldM (add_thread b seg) txs l = Ok txs' ∧
    txs_ok (L ++ List.filter (λ i, isSome (lane b i)) l) txs') as H.
  { induction l as [|i l IH]; intros L txs H; cbn; [rewrite app_nil_r; by eexists|].
    destruct (lane b i) as [p|] eqn:E; cbn.
    - destruct (add_thread_ok L txs i) as (txs1 & -> & H1); [by apply active_elem; eexists|done|].
      cbn. destruct (IH _ _ H1) as (txs' & -> & H'). rewrite <-app_assoc in H'. by eexists.
    - assert (add_thread b seg txs i = Ok txs) as -> by (unfold add_thread; by rewrite E). by apply IH. }
  apply (H (seq 0 n) [] []). constructor; [constructor| |done]. intros k t []%not_elem_of_nil.
Qed.

(** ** The part of a segment that is accessed *)

Definition line (k : Z) : Z := 128 * (k / 128).

(** The result covers the chunks that are used. *)
Record reduced (s k q : Z) (r : Addr * Z) : Prop :=
  { rd_size : r.2 = 32 ∨ r.2 = 64 ∨ r.2 = 128;
    rd_align : r.1 mod r.2 = 0;
    rd_in : k ≤ r.1 ∧ r.1 + r.2 ≤ k + s;
    rd_chunks : ∀ c, 0 ≤ c → Z.testbit q c = true → r.1 ≤ line k + 32 * c ∧ line k + 32 * c + 32 ≤ r.1 + r.2 }.

Lemma segment_aligned s k : s = 32 ∨ s = 64 ∨ s = 128 → k mod s = 0 → (Z.land k (u32 (s - 1)) =? 0) = true.
Proof.
  intros Hs Hk. apply Z.eqb_eq. rewrite <-Hk.
  destruct Hs as [-> | [-> | ->]]; [apply (Z.land_ones k 5)|apply (Z.land_ones k 6)|apply (Z.land_ones k 7)]; lia.
Qed.

Lemma reduce_ok s k q : s = 32 ∨ s = 64 ∨ s = 128 → k mod s = 0 → 0 ≤ k →
  (∃ c, 0 ≤ c ∧ Z.testbit q c = true) →
  (∀ c, 0 ≤ c → Z.testbit q c = true → k ≤ line k + 32 * c ∧ line k + 32 * c + 32 ≤ k + s) →
  ∃ r, reduce s k q = Ok r ∧ reduced s k q r.
Proof.
  intros Hs Hk Hk0 (c0 & Hc0 & Hbit) Hin. unfold reduce. rewrite assert_bind by by apply segment_aligned.
  rewrite assert_bind by (destruct (Z.eqb_spec q 0); [subst; by rewrite Z.bits_0 in Hbit|done]).
  assert (Hfew : ∀ c, 0 ≤ c → Z.testbit q c = true → c = 0 ∨ c = 1 ∨ c = 2 ∨ c = 3).
  { intros c ? Hc. specialize (Hin c ltac:(done) Hc). unfold line in Hin. destruct Hs as [-> | [-> | ->]]; Z.to_euclidean_division_equations; lia. }
  assert (Hany : Z.testbit q 0 || Z.testbit q 1 || Z.testbit q 2 || Z.testbit q 3 = true).
  { destruct (Hfew c0 Hc0 Hbit) as [-> | [-> | [-> | ->]]]; rewrite Hbit, ?orb_true_r; done. }
  pose proof (Hin 0 ltac:(lia)) as H0. pose proof (Hin 1 ltac:(lia)) as H1. pose proof (Hin 2 ltac:(lia)) as H2. pose proof (Hin 3 ltac:(lia)) as H3.
  assert (Hr : ∀ r : Addr * Z, (r.2 = 32 ∨ r.2 = 64 ∨ r.2 = 128) → r.1 mod r.2 = 0 → k ≤ r.1 ∧ r.1 + r.2 ≤ k + s →
    (∀ c, c = 0 ∨ c = 1 ∨ c = 2 ∨ c = 3 → Z.testbit q c = true → r.1 ≤ line k + 32 * c ∧ line k + 32 * c + 32 ≤ r.1 + r.2) → reduced s k q r).
  { intros r ? ? ? Hc. constructor; [done..|]. intros c Hc' Hq. apply Hc; [by apply Hfew|done]. }
  clear Hin Hfew Hbit. unfold line in *. unfold halve.
  destruct (Z.testbit q 0) eqn:E0, (Z.testbit q 1) eqn:E1, (Z.testbit q 2) eqn:E2, (Z.testbit q 3) eqn:E3; try discriminate Hany; clear Hany;
    repeat match goal with H : true = true → _ |- _ => specialize (H eq_refl) | H : false = true → _ |- _ => clear H end.
  all: destruct Hs as [-> | [-> | ->]]; [| |].
  all: repeat match goal with
    | |- context [?x mod 128 =? 0] => destruct (Z.eqb_spec (x mod 128) 0)
    | |- context [?x mod 128 =? 64] => destruct (Z.eqb_spec (x mod 128) 64)
    end.
  all: try (Z.to_euclidean_division_equations; lia).
  all: cbn -[Z.testbit Z.div Z.mul Z.add Z.modulo].
  all: change (128 / 2) with 64; change (64 / 2) with 32; rewrite ?Z.eqb_refl;
    repeat match goal with |- context [?x + 64 =? ?x] => destruct (Z.eqb_spec (x + 64) x); [lia|] end; cbn.
  all: eexists; split; [reflexivity|]; apply Hr; cbn [fst snd]; [lia|Z.to_euclidean_division_equations; lia|lia|].
  all: intros c [-> | [-> | [-> | ->]]] Hq; try congruence; Z.to_euclidean_division_equations; lia.
Qed.

(** Where a lane's chunk lies within the segment of its block. *)
Lemma lane_chunk i k : i ∈ active b → block_of seg (laddr b i) = k →
  k mod seg = 0 ∧ 0 ≤ k ∧ k + seg ≤ 2 ^ 64 ∧
  k ≤ line k + 32 * chunk_of (laddr b i) ∧ line k + 32 * chunk_of (laddr b i) + 32 ≤ k + seg ∧
  line k + 32 * chunk_of (laddr b i) ≤ laddr b i ∧ laddr b i + ds ≤ line k + 32 * chunk_of (laddr b i) + 32.
Proof.
  intros Hi <-. destruct (laddr_ok i Hi) as [Ha Hal]. pose proof (in_chunk (laddr b i) ltac:(lia) Hal) as Hc.
  destruct sizes as (_ & Hp & _ & Hs & _). rewrite block_of_eq by done. unfold line, chunk_of.
  generalize dependent (laddr b i). intros a Ha _ Hc.
  assert (∃ q r, a = 32 * (4 * (a / 128) + q) + r ∧ 0 ≤ q < 4 ∧ 0 ≤ r ∧ r + ds ≤ 32) as (q & r & Ea & Hq & Hr & Hd).
  { exists (chunk_of a), (a mod 128 mod 32). unfold chunk_of.
    pose proof (Z.div_mod a 128 ltac:(done)). pose proof (Z.div_mod (a mod 128) 32 ltac:(done)).
    pose proof (Z.mod_pos_bound a 128 ltac:(done)). pose proof (Z.mod_pos_bound (a mod 128) 32 ltac:(done)).
    pose proof (Z.div_mod (a + ds - 1) 32 ltac:(done)). pose proof (Z.mod_pos_bound (a + ds - 1) 32 ltac:(done)).
    assert (a / 32 = 4 * (a / 128) + a mod 128 / 32) by (symmetry; apply Z.div_unique with (a mod 128 mod 32); lia). lia. }
  set (l := a / 128) in *. assert (a mod 128 / 32 = q) as -> by (clear Hc; Z.to_euclidean_division_equations; lia).
  assert (128 * (seg * (a / seg) / 128) = 128 * l) as ->
    by (clear Hc; destruct Hs as [-> | [-> | ->]]; Z.to_euclidean_division_equations; lia).
  clear Hc. destruct Hs as [-> | [-> | ->]]; Z.to_euclidean_division_equations; lia.
Qed.

Lemma tx_reduced L txs k t : txs_ok L txs → (∀ i, i ∈ L → i ∈ active b) → (k, t) ∈ txs →
  ∃ r, reduce seg k (chunks t) = Ok r ∧ (r.2 = 32 ∨ r.2 = 64 ∨ r.2 = 128) ∧ r.1 mod r.2 = 0 ∧
    0 ≤ r.1 ∧ r.1 + r.2 ≤ 2 ^ 64 ∧
    ∀ i, i ∈ tx_lanes t → r.1 ≤ laddr b i ∧ laddr b i + ds ≤ r.1 + r.2.
Proof.
  intros [_ H2 _] HL Hin. destruct (H2 _ _ Hin) as (El & Hne & Hbit).
  assert (Hl : ∀ i, i ∈ tx_lanes t → i ∈ active b ∧ block_of seg (laddr b i) = k).
  { intros i. rewrite El. intros [? ?]%group_elem. auto. }
  destruct (tx_lanes t) as [|i0 l0] eqn:E; [done|]. rewrite <-E in *.
  assert (H0 : i0 ∈ tx_lanes t) by (rewrite E; by left). destruct (Hl i0 H0) as [Ha0 Hk0].
  destruct (lane_chunk i0 k Ha0 Hk0) as (Hmod & Hk & Hmax & _). destruct sizes as (_ & _ & _ & Hs & _).
  destruct (reduce_ok seg k (chunks t) Hs Hmod Hk) as (r & Er & [R1 R2 R3 R4]).
  - exists (chunk_of (laddr b i0)). pose proof (chunk_bounds (laddr b i0)). split; [lia|]. apply Hbit; [lia|by exists i0].
  - intros c Hc (i & Hi & <-)%Hbit; [|done]. destruct (Hl i Hi) as [Hia Hik]. by destruct (lane_chunk i k Hia Hik) as (_ & _ & _ & ? & ? & _).
  - exists r. split_and!; [done..|lia|lia|]. intros i Hi. destruct (Hl i Hi) as [Hia Hik]. pose proof (chunk_bounds (laddr b i)).
    destruct (lane_chunk i k Hia Hik) as (_ & _ & _ & _ & _ & ? & ?).
    destruct (R4 (chunk_of (laddr b i)) ltac:(lia)) as [? ?]; [apply Hbit; [lia|by exists i]|lia].
Qed.

(** ** Accesses *)

Definition same_addr (i : nat) (L : list nat) : list nat := List.filter (λ j, laddr b j =? laddr b i) L.

(** The payload of a store access is what its lanes store, in their order. *)
Definition payload_ok (a : CoalescedAccess) (buf : list cell) : Prop :=
  Z.of_nat (length buf) = a_size a ∧
  (∀ x, a_vaddr a ≤ x < a_vaddr a + a_size a → ∃ i, i ∈ activeLanes a ∧ covers x (lw b i) = true) ∧
  (∀ m x, put_bytes m (a_vaddr a, buf) x = memory_after (lw b <$> activeLanes a) m x).

(** A load or a store access: the lanes it serves, with all lanes of the warp
    that have the address of one of them. *)
Record acc_ok (a : CoalescedAccess) : Prop :=
  { ao_ne : activeLanes a ≠ [];
    ao_in : ∀ i, i ∈ activeLanes a →
      i ∈ active b ∧ a_vaddr a ≤ laddr b i ∧ laddr b i + ds ≤ a_vaddr a + a_size a ∧
      same_addr i (activeLanes a) = same_addr i (active b);
    ao_range : 0 ≤ a_vaddr a ∧ 0 < a_size a ∧ a_vaddr a + a_size a ≤ 2 ^ 64;
    ao_line : a_vaddr a / 128 = (a_vaddr a + a_size a - 1) / 128;
    ao_kind : match instructionType b with
      | LOAD_INST => a_cmd a = ReadReq ∧ pktData a = NoPayload ∧ a_vaddr a mod a_size a = 0 ∧
          (a_size a = 32 ∨ a_size a = 64 ∨ a_size a = 128)
      | STORE_INST => a_cmd a = WriteReq ∧ ∃ buf, pktData a = Payload buf ∧ payload_ok a buf
      | _ => False
      end }.

Definition with_acc (accs : list CoalescedAccess) (b : WIB) : WIB :=
  (b <| coalescedAccesses ::= λ l, l ++ accs |>) <| accesses_made ::= λ n, (n + length accs)%nat |>.

Lemma with_acc_app l l' b0 : with_acc l' (with_acc l b0) = with_acc (l ++ l') b0.
Proof. unfold with_acc. cbn. rewrite length_app, app_assoc, Nat.add_assoc. done. Qed.

Lemma same_addr_filter (p : nat → bool) i L :
  (∀ j, laddr b j = laddr b i → p j = true) → same_addr i (List.filter p L) = same_addr i L.
Proof.
  intros Hp. unfold same_addr. induction L as [|j L IH]; [done|]. cbn.
  destruct (Z.eqb_spec (laddr b j) (laddr b i)) as [E|E].
  - rewrite (Hp j E). cbn. rewrite E, Z.eqb_refl. by rewrite IH.
  - destruct (p j); cbn; [|done]. apply Z.eqb_neq in E. by rewrite E.
Qed.

(** The lanes of a transaction keep their order within an address. *)
Lemma tx_same_addr txs k t i : txs_ok (active b) txs → (k, t) ∈ txs → i ∈ tx_lanes t →
  i ∈ active b ∧ same_addr i (tx_lanes t) = same_addr i (active b).
Proof.
  intros [_ H2 _] Hin Hi. destruct (H2 _ _ Hin) as (El & _). rewrite El in Hi |- *. apply group_elem in Hi as [Hi Hk].
  split; [done|]. apply same_addr_filter. intros j ->. by apply Z.eqb_eq.
Qed.

(** One access of an aligned size lies in one line. *)
Lemma aligned_line a s : (s = 32 ∨ s = 64 ∨ s = 128) → a mod s = 0 → a / 128 = (a + s - 1) / 128.
Proof. intros [-> | [-> | ->]]; Z.to_euclidean_division_equations; lia. Qed.

(** What the accesses of one transaction, or of all of them, are together. *)
Record accs_ok (b0 : WIB) (L : list nat) (accs : list CoalescedAccess) : Prop :=
  { as_all : Forall acc_ok accs;
    as_lanes : concat (activeLanes <$> accs) ≡ₚ L;
    as_no : a_no <$> accs = seq (accesses_made b0) (length accs);
    as_new : Forall (λ a, a_data a = NoPayload ∧ injectTime a = 0) accs }.

Lemma accs_ok_nil b0 : accs_ok b0 [] [].
Proof. by constructor. Qed.

Lemma accs_ok_app b0 L L' accs accs' :
  accs_ok b0 L accs → accs_ok (with_acc accs b0) L' accs' → accs_ok b0 (L ++ L') (accs ++ accs').
Proof.
  intros [H1 H2 H3 H4] [H1' H2' H3' H4']. constructor; [by apply Forall_app|by rewrite fmap_app, concat_app, H2, H2'| |by apply Forall_app].
  rewrite fmap_app, H3, H3', length_app, seq_app. done.
Qed.

Lemma send_load L0 txs k t : instructionType b = LOAD_INST → txs_ok (active b) txs → (k, t) ∈ txs →
  ∃ accs, send_transaction seg (with_acc L0 b) (k, t) = Ok (with_acc accs (with_acc L0 b)) ∧
    accs_ok (with_acc L0 b) (tx_lanes t) accs.
Proof.
  intros Ht Htx Hin. destruct (tx_reduced _ _ _ _ Htx ltac:(done) Hin) as ([ra rs] & Er & Hs & Hal & Hr0 & Hr1 & Hl). cbn in Hs, Hal, Hr0, Hr1, Hl.
  pose proof Htx as [_ H2 _]. destruct (H2 _ _ Hin) as (_ & Hne & _).
  unfold send_transaction. cbn [fst snd]. rewrite Er. cbn. rewrite Ht. cbn. rewrite ?Ht.
  eexists [_]. split; [unfold push_access, with_acc; cbn; rewrite Nat.add_1_r; reflexivity|].
  constructor; cbn; [|by rewrite app_nil_r|done|by repeat constructor]. constructor; [|done].
  constructor; cbn; [done| |lia|by apply aligned_line|by rewrite Ht].
  intros i Hi. destruct (tx_same_addr _ _ _ _ Htx Hin Hi); split_and!; [done|by apply Hl..|done].
Qed.

(** ** Stores *)

Lemma memcpy_at_ok dst off src n : 0 ≤ off → off + n ≤ Z.of_nat (length dst) → Z.of_nat (length src) = n →
  ∃ dst', memcpy_at dst off src n = Ok dst' ∧ length dst' = length dst ∧
    ∀ m base x, put_bytes m (base, dst') x = put_bytes (put_bytes m (base, dst)) (base + off, src) x.
Proof.
  intros H1 H2 H3. unfold memcpy_at.
  destruct ((0 <=? off) && (off + n <=? Z.of_nat (length dst)) && (0 <=? n) && (n <=? Z.of_nat (length src))) eqn:E; [|lia].
  rewrite (take_ge src) by lia. eexists. split; [done|].
  assert (Hlen : length (take (Z.to_nat off) dst ++ src ++ drop (Z.to_nat (off + n)) dst) = length dst)
    by (rewrite !length_app, length_take, length_drop; lia).
  split; [done|]. intros m base x. unfold put_bytes. cbn [fst snd].
  destruct (Z.leb_spec base x); [|by destruct (Z.leb_spec (base + off) x); [lia|]].
  destruct (Z.leb_spec (base + off) x).
  - rewrite lookup_app_r by (rewrite length_take; lia). rewrite length_take, Nat.min_l by lia.
    replace (Z.to_nat (x - base) - Z.to_nat off)%nat with (Z.to_nat (x - (base + off))) by lia.
    destruct (src !! Z.to_nat (x - (base + off))) eqn:Es; [by rewrite (lookup_app_l_Some _ _ _ _ Es)|].
    cbn. apply lookup_ge_None in Es. rewrite lookup_app_r by done. rewrite lookup_drop. f_equal. f_equal. lia.
  - rewrite lookup_app_l by (rewrite length_take; lia). by rewrite lookup_take_lt by lia.
Qed.

Lemma store_lane i : instructionType b = STORE_INST → i ∈ active b →
  Z.of_nat (length (lbytes b i)) = ds ∧
  ∀ L0, getLaneAddr (with_acc L0 b) i = Ok (laddr b i) ∧ getLaneBytes (with_acc L0 b) i = Ok (lbytes b i).
Proof.
  intros Ht Hi. destruct (active_lane i Hi) as (p & Hp & (_ & _ & _ & _ & Hd) & Ea). rewrite Ht in Hd.
  assert (Hlt : (i < laneCount b)%nat).
  { rewrite (wo_lanes b Hb), <-(wo_length b Hb). unfold lane in Hp. destruct (laneRequestPkts b !! i) eqn:E; [by eapply lookup_lt_Some|done]. }
  unfold lbytes. rewrite Hp. destruct (l_data p) as [|bs|] eqn:Ed; [done| |done]. split; [done|]. intros L0.
  unfold getLaneAddr, getLaneBytes, getLaneData, getLane. change (lane (with_acc L0 b) i) with (lane b i). rewrite Hp. cbn.
  rewrite bool_decide_eq_true_2 by done. rewrite Ea. cbn. by rewrite Ed.
Qed.

(** The payload: the words written one over the other. *)
Lemma store_words L0 base C buf : instructionType b = STORE_INST → 0 ≤ base →
  (∀ i, i ∈ C → i ∈ active b ∧ base ≤ laddr b i ∧ laddr b i + ds ≤ base + Z.of_nat (length buf)) →
  ∃ buf', foldM (store_word (with_acc L0 b) base) buf C = Ok buf' ∧ length buf' = length buf ∧
    ∀ m x, put_bytes m (base, buf') x = memory_after (lw b <$> C) (put_bytes m (base, buf)) x.
Proof.
  intros Ht Hb0. revert buf. induction C as [|i C IH]; intros buf H; [by exists buf|]. cbn [foldM].
  destruct (H i ltac:(by left)) as (Hi & H1 & H2). destruct (store_lane i Ht Hi) as (Hl & Hg). destruct (Hg L0) as [Ga Gb].
  destruct (laddr_ok i Hi) as [Ha _].
  assert (store_word (with_acc L0 b) base buf i = memcpy_at buf (laddr b i - base) (lbytes b i) ds) as ->.
  { unfold store_word. rewrite Ga. cbn [mbind res_bind]. rewrite Gb. cbn [mbind res_bind]. by rewrite sub64_small by lia. }
  destruct (memcpy_at_ok buf (laddr b i - base) (lbytes b i) ds) as (buf1 & -> & Hlen & Hput); [lia|lia|done|]. cbn [mbind res_bind].
  destruct (IH buf1) as (buf' & -> & Hlen' & Hput'); [intros j Hj; rewrite Hlen; apply H; by right|].
  exists buf'. split_and!; [done|congruence|]. intros m x. rewrite Hput'. rewrite fmap_cons.
  change (memory_after (lw b i :: (lw b <$> C)) ?m x) with (memory_after (lw b <$> C) (put_bytes m (lw b i)) x).
  apply memory_after_ext. rewrite Hput. unfold lw. by replace (base + (laddr b i - base)) with (laddr b i) by lia.
Qed.

(** A lane covers the bytes from its address. *)
Lemma lane_covers i x : instructionType b = STORE_INST → i ∈ active b →
  covers x (lw b i) = true ↔ laddr b i ≤ x < laddr b i + ds.
Proof. intros Ht Hi. rewrite covers_spec. cbn. by destruct (store_lane i Ht Hi) as (-> & _). Qed.

(** One chunk of consecutive words. *)
Lemma store_chunk L0 base n C : instructionType b = STORE_INST → 0 ≤ base → 0 < n →
  (∀ i, i ∈ C → i ∈ active b ∧ base ≤ laddr b i ∧ laddr b i + ds ≤ base + n) →
  (∀ x, base ≤ x < base + n → ∃ i, i ∈ C ∧ laddr b i ≤ x < laddr b i + ds) →
  ∃ buf, generateCoalescedAccesses base n C (with_acc L0 b) =
      Ok (push_access WriteReq base n false C (Payload buf) (with_acc L0 b)) ∧
    Z.of_nat (length buf) = n ∧
    ∀ m x, put_bytes m (base, buf) x = memory_after (lw b <$> C) m x.
Proof.
  intros Ht Hb0 Hn Hin Hcov. destruct (store_words L0 base C (replicate (Z.to_nat n) None) Ht Hb0) as (buf & E & Hl & Hp).
  { intros i Hi. rewrite length_replicate, Z2Nat.id by lia. by apply Hin. }
  rewrite length_replicate in Hl. exists buf. split_and!; [|lia|].
  { unfold generateCoalescedAccesses. change (instructionType (with_acc L0 b)) with (instructionType b). rewrite Ht.
    by rewrite E. }
  intros m x. rewrite Hp, !memory_after_last.
  destruct (last (List.filter (covers x) (lw b <$> C))) as [w|] eqn:El.
  - apply put_bytes_forget. apply last_Some_elem_of in El.
    rewrite list_elem_of_In, List.filter_In in El. apply El.
  - apply put_bytes_out. destruct (covers x _) eqn:Ec; [|done]. apply covers_spec in Ec. cbn in Ec. rewrite length_replicate in Ec.
    destruct (Hcov x ltac:(lia)) as (i & Hi & Hx). apply last_None in El.
    assert (lw b i ∈ List.filter (covers x) (lw b <$> C)) as Hin'; [|rewrite El in Hin'; by apply not_elem_of_nil in Hin'].
    rewrite list_elem_of_In, List.filter_In, <-list_elem_of_In. split; [by apply list_elem_of_fmap_2|].
    apply lane_covers; [done|by apply Hin|done].
Qed.

Lemma with_acc_nil b0 : with_acc [] b0 = b0.
Proof. destruct b0. unfold with_acc. cbn. by rewrite app_nil_r, Nat.add_0_r. Qed.

Lemma push_access_eq c addr size sw lanes d b0 : ∃ a,
  push_access c addr size sw lanes d b0 = with_acc [a] b0 ∧ a_no a = accesses_made b0 ∧ a_cmd a = c ∧ a_vaddr a = addr ∧
  a_size a = size ∧ activeLanes a = lanes ∧ pktData a = d ∧ a_data a = NoPayload ∧ injectTime a = 0.
Proof. eexists. unfold push_access, with_acc. cbn. rewrite Nat.add_1_r. by split_and!. Qed.

Lemma lane_line i : i ∈ active b → laddr b i / 128 = (laddr b i + ds - 1) / 128 ∧ laddr b i + ds ≤ 2 ^ 64.
Proof.
  intros Hi. destruct (laddr_ok i Hi) as [Ha Hal]. pose proof (in_chunk (laddr b i) ltac:(lia) Hal).
  Z.to_euclidean_division_equations; lia.
Qed.

Lemma same_addr_app i L L' : same_addr i (L ++ L') = same_addr i L ++ same_addr i L'.
Proof. apply List.filter_app. Qed.

Lemma same_addr_nil i L : (∀ j, j ∈ L → laddr b j ≠ laddr b i) → same_addr i L = [].
Proof.
  intros H. apply elem_of_nil_inv. intros j Hj. unfold same_addr in Hj.
  rewrite list_elem_of_In, List.filter_In, <-list_elem_of_In, Z.eqb_eq in Hj. destruct Hj as [Hj E]. by eapply H.
Qed.

(** The words of a transaction at [addr] that are still to be sent. *)
Definition words_ok (addr : Addr) (off : nat → Z) (W : list nat) : Prop :=
  StronglySorted Z.le (off <$> W) ∧
  ∀ i, i ∈ W → i ∈ active b ∧ laddr b i = addr + off i ∧ 0 ≤ off i ∧ addr / 128 = laddr b i / 128 ∧
    same_addr i W = same_addr i (active b).

(** One chunk is one access; the others are still to be sent. *)
Lemma send_chunk addr off i W L0 : instructionType b = STORE_INST → 0 ≤ addr → words_ok addr off (i :: W) →
  ∃ C n R a, take_chunk ds (wd off i) (wd off <$> W) = (i :: C, n, wd off <$> R) ∧ W = C ++ R ∧
    generateCoalescedAccesses (addr + off i) n (i :: C) (with_acc L0 b) = Ok (with_acc [a] (with_acc L0 b)) ∧
    accs_ok (with_acc L0 b) (i :: C) [a] ∧ words_ok addr off R.
Proof.
  intros Ht Haddr [Hs HW]. destruct sizes as (_ & Hds & _).
  destruct (take_chunk_spec off ds i W Hds Hs) as (C & n & R & Etc & -> & Hn & Hin & Hlt & Hcov).
  assert (HC : ∀ j, j ∈ i :: C → j ∈ i :: C ++ R) by set_solver.
  destruct (HW i ltac:(by left)) as (Hia & Hil & Hi0 & Hline & _).
  destruct (store_chunk L0 (addr + off i) n (i :: C) Ht) as (buf & Eg & Hlen & Hput); [lia|lia| | |].
  { intros j Hj. destruct (HW j (HC j Hj)) as (? & ? & _). specialize (Hin j Hj). split; [done|lia]. }
  { intros x Hx. destruct (Hcov (x - addr) ltac:(lia)) as (j & Hj & ?). exists j. split; [done|].
    destruct (HW j (HC j Hj)) as (_ & ? & _). lia. }
  destruct (push_access_eq WriteReq (addr + off i) n false (i :: C) (Payload buf) (with_acc L0 b)) as (a & Ea & A1 & A2 & A3 & A4 & A5 & A6 & A7 & A8).
  exists C, n, R, a. split_and!; [done|done|by rewrite Eg, Ea| |].
  - constructor; [|cbn; by rewrite A5, app_nil_r|cbn; by rewrite A1|by repeat constructor]. constructor; [|done].
    destruct (Hcov (off i + n - 1) ltac:(lia)) as (j & Hj & Hjx). destruct (HW j (HC j Hj)) as (Hja & Hjl & _ & Hjline & _).
    destruct (lane_line j Hja) as [Hj1 Hj2]. specialize (Hin j Hj) as Hjin.
    constructor; rewrite ?A3, ?A4, ?A5, ?A6; [done| |lia|replace (addr + off i + n - 1) with (laddr b j + ds - 1) by lia; congruence|].
    + intros x Hx. destruct (HW x (HC x Hx)) as (Hxa & Hxl & _ & _ & Hsame). specialize (Hin x Hx). split_and!; [done|lia|lia|].
      rewrite <-Hsame, app_comm_cons, same_addr_app, (same_addr_nil x R), app_nil_r; [done|].
      intros r Hr. destruct (HW r ltac:(set_solver)) as (_ & ? & _). specialize (Hlt x r Hx Hr). lia.
    + rewrite Ht. split; [done|]. exists buf. split; [done|]. unfold payload_ok. rewrite A3, A4, A5. split_and!; [done| |done].
      intros x Hx. destruct (Hcov (x - addr) ltac:(lia)) as (y & Hy & ?). destruct (HW y (HC y Hy)) as (? & ? & _).
      exists y. split; [done|]. apply lane_covers; [done|done|lia].
  - split; [rewrite fmap_cons, fmap_app in Hs; apply StronglySorted_cons in Hs as [_ Hs]; by eapply StronglySorted_app_1_r|].
    intros r Hr. destruct (HW r ltac:(set_solver)) as (? & ? & ? & ? & Hsame). split_and!; [done..|].
    rewrite <-Hsame, app_comm_cons, same_addr_app, (same_addr_nil r (i :: C)); [done|].
    intros x Hx. destruct (HW x (HC x Hx)) as (_ & ? & _). specialize (Hlt x r Hx Hr). lia.
Qed.

Lemma send_chunks_ok addr off : instructionType b = STORE_INST → 0 ≤ addr →
  ∀ fuel W L0, (length W ≤ fuel)%nat → words_ok addr off W →
  ∃ accs, send_chunks fuel addr (wd off <$> W) (with_acc L0 b) = Ok (with_acc accs (with_acc L0 b)) ∧
    accs_ok (with_acc L0 b) W accs.
Proof.
  intros Ht Haddr. induction fuel as [|fuel IH]; intros [|i W] L0 Hf HW; cbn in Hf; try lia.
  1,2: exists []; rewrite with_acc_nil; split; [done|apply accs_ok_nil].
  destruct (send_chunk addr off i W L0 Ht Haddr HW) as (C & n & R & a & Etc & -> & Eg & Ha & HR).
  rewrite length_app in Hf. destruct (IH R (L0 ++ [a])) as (accs & Es & Haccs); [lia|done|].
  rewrite <-with_acc_app in Es, Haccs. exists ([a] ++ accs). rewrite <-with_acc_app. split.
  - rewrite fmap_cons. cbn [send_chunks]. change (requestDataSize (with_acc L0 b)) with ds. rewrite Etc.
    cbn [wd fst]. rewrite Eg. cbn [mbind res_bind]. exact Es.
  - rewrite app_comm_cons. by apply accs_ok_app.
Qed.

(** The words of the lanes, gathered in a multimap. *)
Lemma gather_words L0 sz L : (∀ i, i ∈ L → i ∈ active b) → let off i := Z.land (laddr b i) (sz - 1) in
  ∃ W, foldM (add_word (with_acc L0 b) sz) [] L = Ok (wd off <$> W) ∧ W ≡ₚ L ∧
    StronglySorted Z.le (off <$> W) ∧ ∀ o, at_off off o W = at_off off o L.
Proof.
  intros HL off. change [] with (wd off <$> []) at 1.
  assert (∀ L W0, (∀ i, i ∈ L → i ∈ active b) → StronglySorted Z.le (off <$> W0) →
    ∃ W, foldM (add_word (with_acc L0 b) sz) (wd off <$> W0) L = Ok (wd off <$> W) ∧ W ≡ₚ W0 ++ L ∧
      StronglySorted Z.le (off <$> W) ∧ ∀ o, at_off off o W = at_off off o (W0 ++ L)) as H; [|by apply (H L [] HL); constructor].
  clear L HL. induction L as [|i L IH]; intros W0 HL Hs; [exists W0; by rewrite app_nil_r|].
  destruct (multimap_insert_spec off i W0 Hs) as (W1 & E1 & P1 & S1 & F1).
  destruct (IH W1 ltac:(set_solver) S1) as (W & E & P & S & F). exists W. split_and!; [|by rewrite P, P1, <-app_assoc|done|].
  - cbn [foldM]. assert (add_word (with_acc L0 b) sz (wd off <$> W0) i = Ok (wd off <$> W1)) as ->; [|exact E].
    destruct (active_lane i ltac:(set_solver)) as (p & Hp & _ & Ea). rewrite <-E1. unfold add_word, getLaneAddr, getLane.
    change (lane (with_acc L0 b) i) with (lane b i). rewrite Hp. cbn. by rewrite <-Ea.
  - intros o. rewrite F. unfold at_off in *. rewrite List.filter_app, F1, <-List.filter_app, <-app_assoc. done.
Qed.

Lemma offset_in sz a x : sz = 32 ∨ sz = 64 ∨ sz = 128 → a mod sz = 0 → a ≤ x < a + sz → Z.land x (sz - 1) = x - a.
Proof.
  intros Hs Ha Hx. assert (Z.land x (sz - 1) = x mod sz) as ->.
  { destruct Hs as [-> | [-> | ->]]; [apply (Z.land_ones x 5)|apply (Z.land_ones x 6)|apply (Z.land_ones x 7)]; lia. }
  symmetry. apply Z.mod_unique with (a / sz); [lia|]. pose proof (Z.div_mod a sz ltac:(lia)). lia.
Qed.

Lemma send_store L0 txs k t : instructionType b = STORE_INST → txs_ok (active b) txs → (k, t) ∈ txs →
  ∃ accs, send_transaction seg (with_acc L0 b) (k, t) = Ok (with_acc accs (with_acc L0 b)) ∧
    accs_ok (with_acc L0 b) (tx_lanes t) accs.
Proof.
  intros Ht Htx Hin. destruct (tx_reduced _ _ _ _ Htx ltac:(done) Hin) as ([ra rs] & Er & Hs & Hal & Hr0 & Hr1 & Hl). cbn in Hs, Hal, Hr0, Hr1, Hl.
  destruct sizes as (_ & Hds & _).
  destruct (gather_words L0 rs (tx_lanes t)) as (W & Ew & HP & Hsort & Hf); [intros i Hi; by eapply tx_same_addr|].
  set (off i := Z.land (laddr b i) (rs - 1)) in *.
  assert (Hoff : ∀ i, i ∈ W → laddr b i = ra + off i ∧ 0 ≤ off i).
  { intros i Hi. rewrite HP in Hi. specialize (Hl i Hi). unfold off. rewrite (offset_in rs ra) by (done || lia). lia. }
  assert (words_ok ra off W) as HW.
  { split; [done|]. intros i Hi. destruct (Hoff i Hi) as [Ho Ho0]. pose proof Hi as Hi'. rewrite HP in Hi'.
    destruct (tx_same_addr _ _ _ _ Htx Hin Hi') as [Hia Hsame]. specialize (Hl i Hi').
    pose proof (aligned_line ra rs Hs Hal). split_and!; [done..|Z.to_euclidean_division_equations; lia|].
    rewrite <-Hsame. trans (at_off off (off i) W).
    - apply List.filter_ext_in. intros j Hj%list_elem_of_In. destruct (Hoff j Hj) as [Hj1 _].
      destruct (Z.eqb_spec (laddr b j) (laddr b i)), (Z.eqb_spec (off j) (off i)); lia.
    - rewrite Hf. symmetry. apply List.filter_ext_in. intros j Hj%list_elem_of_In. rewrite <-HP in Hj. destruct (Hoff j Hj) as [Hj1 _].
      destruct (Z.eqb_spec (laddr b j) (laddr b i)), (Z.eqb_spec (off j) (off i)); lia. }
  destruct (send_chunks_ok ra off Ht Hr0 (length (wd off <$> W)) W L0) as (accs & Es & [A1 A2 A3 A4]); [by rewrite length_fmap|done|].
  exists accs. split.
  - unfold send_transaction. cbn [fst snd]. rewrite Er. cbn [mbind res_bind].
    change (instructionType (with_acc L0 b)) with (instructionType b). rewrite Ht, Ew. cbn [mbind res_bind]. exact Es.
  - constructor; [done|by rewrite A2|done|done].
Qed.

(** ** All accesses of the instruction *)

Lemma send_all txs : instructionType b = LOAD_INST ∨ instructionType b = STORE_INST → txs_ok (active b) txs →
  ∀ l L0, (∀ kt, kt ∈ l → kt ∈ txs) →
  ∃ accs, foldM (send_transaction seg) (with_acc L0 b) l = Ok (with_acc accs (with_acc L0 b)) ∧
    accs_ok (with_acc L0 b) (concat (tx_lanes ∘ snd <$> l)) accs.
Proof.
  intros Ht Htx. induction l as [|[k t] l IH]; intros L0 Hl; [exists []; rewrite with_acc_nil; split; [done|apply accs_ok_nil]|].
  assert (∃ accs, send_transaction seg (with_acc L0 b) (k, t) = Ok (with_acc accs (with_acc L0 b)) ∧
    accs_ok (with_acc L0 b) (tx_lanes t) accs) as (accs & E & H)
    by (destruct Ht; [eapply send_load|eapply send_store]; try done; apply Hl; by left).
  destruct (IH (L0 ++ accs)) as (accs' & E' & H'); [set_solver|]. rewrite <-with_acc_app in E', H'.
  exists (accs ++ accs'). rewrite <-with_acc_app. split; [cbn [foldM]; by rewrite E|]. by apply accs_ok_app.
Qed.

Lemma warp_coalesce_ok : instructionType b = LOAD_INST ∨ instructionType b = STORE_INST →
  ∃ accs, coalesce b = Ok (with_acc accs b) ∧ accs_ok b (active b) accs.
Proof.
  intros Ht. destruct threads_ok as (txs & Etx & Htx). destruct (send_all txs Ht Htx txs []) as (accs & E & H); [done|].
  rewrite with_acc_nil in E, H. exists accs. destruct H as [A1 A2 A3 A4]. split; [|constructor; [done|rewrite A2; apply Htx|done|done]].
  unfold coalesce. rewrite (wo_lanes b Hb), (wo_parts b Hb). rewrite assert_bind by done.
  rewrite assert_bind by (apply bool_decide_eq_true; destruct Ht as [-> | ->]; set_solver). cbn [seq foldM].
  unfold coalesce_subwarp. rewrite (wo_lanes b Hb) in Etx. cbn [Nat.mul]. change (32 / 1)%nat with 32%nat. rewrite Etx. cbn [mbind res_bind].
  by rewrite E.
Qed.
End coalescing.
End CoalesceProofs.
