(* ===== verification/WarpRun.v ===== *)
(** * Runs of one warp instruction

    After coalescing, the accesses of a load or a store are translated, sent and
    answered in any order; a memory answers loads and takes stores when an access
    is finished. *)

From S2P Require Import Prelude Packet ByteWrites AtomicOps WarpInst CoalesceProofs.
Import MemCmd Packet AtomicOps WarpInst CoalesceProofs.

Module WarpRun.

(** The buffer, the memory and whether the last finished access completed the
    instruction. *)
Record wrun := mkRun { w_b : WIB; w_mem : Addr → cell; w_complete : bool }.
#[export] Instance eta_wrun : Eta wrun := λ w, mkRun (w_b w) (w_mem w) (w_complete w).

Inductive wop : Type :=
| Translate (i : nat) (paddr : Addr)   (** the translation of a coalesced access *)
| Inject (i : nat)                     (** a translated access is sent *)
| Finish (i : nat).                    (** an access that was sent is answered *)

Definition nos (l : list CoalescedAccess) : list nat := a_no <$> l.

Definition w_guard (w : wrun) (op : wop) : bool :=
  let C := coalescedAccesses (w_b w) in
  let T := translatedAccesses (w_b w) in
  match op with
  | Translate i _ => match C !! i with Some a => bool_decide (a_no a ∉ nos T) | None => false end
  | Inject i => match T !! i with Some a => bool_decide (a_no a ∈ nos C) | None => false end
  | Finish i => match T !! i with Some a => bool_decide (a_no a ∉ nos C) | None => false end
  end.

Definition mem_bytes (m : Addr → cell) (a : Addr) (n : Z) : list cell := m <$> seqZ a n.

(** The memory performs an access: the response's payload and the new memory. *)
Definition serve (m : Addr → cell) (a : CoalescedAccess) : CoalescedAccess * (Addr → cell) :=
  if isWrite (a_cmd a)
  then (a, match a_data a with Payload bs => put_bytes m (a_vaddr a, bs) | _ => m end)
  else (a <| a_data := Payload (mem_bytes m (a_vaddr a) (a_size a)) |>, m).

Definition w_step (w : wrun) (op : wop) : res wrun :=
  let b := w_b w in
  match op with
  | Translate i pa =>
      match coalescedAccesses b !! i with
      | Some a => a ← translated_packet pa a; Ok (w <| w_b := setTranslated a b |>)
      | None => Ok w
      end
  | Inject i =>
      match translatedAccesses b !! i with
      | Some a => Ok (w <| w_b := removeCoalesced a b |>)
      | None => Ok w
      end
  | Finish i =>
      match translatedAccesses b !! i with
      | Some a =>
          let '(a, m) := serve (w_mem w) a in
          fb ← finishAccess a b;
          Ok (mkRun fb.2 m fb.1)
      | None => Ok w
      end
  end.

Definition w_gstep (w : wrun) (op : wop) : res wrun := if w_guard w op then w_step w op else Ok w.

(** Accesses that are not translated yet. *)
Definition untranslated (C T : list CoalescedAccess) : list CoalescedAccess :=
  List.filter (λ a, bool_decide (a_no a ∉ nos T)) C.

Definition work (b : WIB) : nat :=
  let C := coalescedAccesses b in
  let T := translatedAccesses b in
  (2 * length (untranslated C T) + length C + length T)%nat.

Section run.
Context (b : WIB) (Hb : warp_ok b) (Ht : instructionType b = LOAD_INST ∨ instructionType b = STORE_INST).
Context (m0 : Addr → cell) (accs : list CoalescedAccess) (Haccs : accs_ok b b (active b) accs).
Abbreviation ds := (requestDataSize b).

(** The packet of a lane when its access is finished. *)
Definition lane_after (p : lane_pkt) : option lane_pkt :=
  match instructionType b with
  | LOAD_INST => Some ((p <| l_data := Bytes (mem_bytes m0 (l_vaddr p) ds) |>) <| l_cmd := ReadResp |>)
  | _ => None
  end.

Definition acc_write (a : CoalescedAccess) : Addr * list cell :=
  (a_vaddr a, match pktData a with Payload bs => bs | _ => [] end).

(** An access, translated. *)
Definition prepared (a a' : CoalescedAccess) : Prop := ∃ pa, translated_packet pa a = Ok a'.

(** [F] are the accesses finished so far, in that order. *)
Record w_inv (F : list CoalescedAccess) (w : wrun) : Prop :=
  { wi_type : instructionType (w_b w) = instructionType b;
    wi_coalesced : ∀ a, a ∈ coalescedAccesses (w_b w) → a ∈ accs;
    wi_translated : ∀ a', a' ∈ translatedAccesses (w_b w) → ∃ a, a ∈ accs ∧ prepared a a';
    wi_nodup : NoDup (nos (coalescedAccesses (w_b w))) ∧ NoDup (nos (translatedAccesses (w_b w)));
    wi_finished : NoDup F ∧ ∀ a, a ∈ F ↔ (a ∈ accs ∧ (a_no a ∉ nos (coalescedAccesses (w_b w))) ∧ (a_no a ∉ nos (translatedAccesses (w_b w))));
    wi_lanes : ∀ i, lane (w_b w) i = if decide (i ∈ concat (activeLanes <$> F)) then lane b i ≫= lane_after else lane b i;
    wi_mem : ∀ x, w_mem w x = memory_after (acc_write <$> F) m0 x;
    wi_complete : w_complete w = true ↔ (F ≠ [] ∧ coalescedAccesses (w_b w) = [] ∧ translatedAccesses (w_b w) = []) }.

Lemma accs_nodup : NoDup (nos accs).
Proof. unfold nos. rewrite (as_no _ _ _ _ Haccs). apply NoDup_ListNoDup, List.seq_NoDup. Qed.

Lemma accs_inj a a' : a ∈ accs → a' ∈ accs → a_no a = a_no a' → a = a'.
Proof.
  intros [i Hi]%list_elem_of_lookup [j Hj]%list_elem_of_lookup E.
  assert (i = j) as ->; [|congruence].
  eapply NoDup_lookup; [apply accs_nodup|unfold nos; rewrite list_lookup_fmap, Hi; done|unfold nos; rewrite list_lookup_fmap, Hj; cbn; by rewrite E].
Qed.

Lemma acc_spec a : a ∈ accs → acc_ok b a.
Proof. intros Ha. by eapply Forall_forall; [apply Haccs|]. Qed.

Lemma fresh a : a ∈ accs → a_data a = NoPayload.
Proof. intros Ha. pose proof (as_new _ _ _ _ Haccs) as H. rewrite Forall_forall in H. by destruct (H a Ha). Qed.

(** Translating always works, and only fills in the address and the data. *)
Lemma translate_ok a pa : a ∈ accs → ∃ a', translated_packet pa a = Ok a' ∧
  a_no a' = a_no a ∧ a_vaddr a' = a_vaddr a ∧ a_size a' = a_size a ∧ activeLanes a' = activeLanes a ∧ a_cmd a' = a_cmd a ∧
  (instructionType b = STORE_INST → a_data a' = pktData a).
Proof.
  intros Ha. pose proof (ao_kind _ _ (acc_spec a Ha)) as Hk. pose proof (fresh a Ha) as Hf. unfold translated_packet, moveDataToPacket.
  destruct Ht as [E|E]; rewrite E in *.
  - destruct Hk as (Hc & Hp & _). cbn. rewrite Hc, Hf. eexists. split; [reflexivity|]. cbn. split_and!; done || congruence.
  - destruct Hk as (Hc & buf & Hp & _). cbn. rewrite Hc, Hp. eexists. split; [reflexivity|]. cbn. split_and!; done || congruence.
Qed.

Lemma prepared_fields a a' : a ∈ accs → prepared a a' →
  a_no a' = a_no a ∧ a_vaddr a' = a_vaddr a ∧ a_size a' = a_size a ∧ activeLanes a' = activeLanes a ∧ a_cmd a' = a_cmd a ∧
  (instructionType b = STORE_INST → a_data a' = pktData a).
Proof. intros Ha [pa E]. destruct (translate_ok a pa Ha) as (a'' & E' & H). congruence. Qed.

(** ** A finished access *)

Lemma lane_set i p b1 j : is_Some (lane b1 i) → lane (setLane i p b1) j = if decide (i = j) then p else lane b1 j.
Proof.
  intros [q Hq]. unfold lane in *. cbn. destruct (laneRequestPkts b1 !! i) as [o|] eqn:E; [|done].
  apply lookup_lt_Some in E. destruct (decide (i = j)) as [<-|Hij]; [|by rewrite list_lookup_insert_ne by done].
  rewrite list_lookup_insert_eq by done. by destruct p.
Qed.

Lemma mem_bytes_slice m x n off k : 0 ≤ off → 0 ≤ k → off + k ≤ n →
  take (Z.to_nat k) (drop (Z.to_nat off) (mem_bytes m x n)) = mem_bytes m (x + off) k.
Proof.
  intros. apply list_eq. intros i. unfold mem_bytes. destruct (decide (i < Z.to_nat k)%nat).
  - rewrite lookup_take_lt, lookup_drop, !list_lookup_fmap, !lookup_seqZ_lt by lia. cbn. do 2 f_equal. lia.
  - rewrite lookup_take_ge by lia. rewrite list_lookup_fmap, lookup_seqZ_ge by lia. done.
Qed.

Lemma length_mem_bytes m x n : length (mem_bytes m x n) = Z.to_nat n.
Proof. unfold mem_bytes. by rewrite length_fmap, length_seqZ. Qed.

Lemma memcpy_at_start dst src n : 0 ≤ n → n ≤ Z.of_nat (length dst) → n ≤ Z.of_nat (length src) →
  memcpy_at dst 0 src n = Ok (take (Z.to_nat n) src ++ drop (Z.to_nat n) dst).
Proof. intros. unfold memcpy_at. destruct ((0 <=? 0) && _ && _ && _) eqn:E; [done|lia]. Qed.

(** One lane of an access whose response is at hand. *)
Lemma finish_lane_ok a a2 b1 i : acc_ok b a → i ∈ activeLanes a → a_vaddr a2 = a_vaddr a → a_size a2 = a_size a →
  (instructionType b = LOAD_INST → a_data a2 = Payload (mem_bytes m0 (a_vaddr a) (a_size a))) →
  instructionType b1 = instructionType b → lane b1 i = lane b i →
  finish_lane a2 b1 i = Ok (setLane i (lane b i ≫= lane_after) b1).
Proof.
  intros Ha Hi Hv Hsz Hd Ht1 Hl. destruct (ao_in _ _ Ha i Hi) as (Hia & H1 & H2 & _). pose proof (ao_range _ _ Ha).
  destruct (active_lane b Hb i Hia) as (p & Hp & (Hps & Hpa & _ & Hpc & Hpd) & Ela). rewrite Hp in Hl |- *. cbn [mbind option_bind].
  unfold finish_lane, getLane. rewrite Hl, Ht1. cbn [mbind res_bind]. unfold lane_after. destruct Ht as [E|E]; rewrite E in *.
  2: { by rewrite assert_bind by done. }
  rewrite (Hd eq_refl), Hv, Hsz. destruct (l_data p) as [|bs|]; [done| |done]. rewrite Ela in *.
  pose proof (wo_size b Hb) as Hds. assert (0 < ds) by (destruct (sizes b Hb) as (_ & ? & _); done).
  rewrite sub64_small by lia. rewrite assert_bind by (apply Z.ltb_lt; lia). cbn [mbind res_bind].
  rewrite Hps, memcpy_at_start; [|lia|lia|rewrite length_drop, length_mem_bytes; lia]. cbn [mbind res_bind].
  unfold respond. cbn. rewrite Hpc. cbn. rewrite mem_bytes_slice by lia. rewrite (drop_ge bs) by lia. rewrite app_nil_r.
  by replace (a_vaddr a + (l_vaddr p - a_vaddr a)) with (l_vaddr p) by lia.
Qed.

(** All its lanes: only the lanes' packets change. *)
Definition only_lanes (b1 b2 : WIB) : Prop :=
  coalescedAccesses b2 = coalescedAccesses b1 ∧ translatedAccesses b2 = translatedAccesses b1 ∧
  instructionType b2 = instructionType b1.

Lemma finish_lanes_ok a a2 : acc_ok b a → a_vaddr a2 = a_vaddr a → a_size a2 = a_size a →
  (instructionType b = LOAD_INST → a_data a2 = Payload (mem_bytes m0 (a_vaddr a) (a_size a))) →
  ∀ L b1, (∀ i, i ∈ L → i ∈ activeLanes a) → NoDup L → instructionType b1 = instructionType b →
  (∀ i, i ∈ L → lane b1 i = lane b i) →
  ∃ b2, foldM (finish_lane a2) b1 L = Ok b2 ∧ only_lanes b1 b2 ∧
    ∀ i, lane b2 i = if decide (i ∈ L) then lane b i ≫= lane_after else lane b1 i.
Proof.
  intros Ha Hv Hsz Hd. induction L as [|i L IH]; intros b1 HL Hnd Ht1 Hl.
  { exists b1. split; [done|]. split; [done|]. intros i. by rewrite decide_False by apply not_elem_of_nil. }
  apply NoDup_cons in Hnd as [Hi Hnd]. cbn [foldM].
  rewrite (finish_lane_ok a a2 b1 i Ha ltac:(apply HL; by left) Hv Hsz Hd Ht1 (Hl i ltac:(by left))). cbn [mbind res_bind].
  assert (is_Some (lane b1 i)) as Hs.
  { rewrite (Hl i) by by left. apply (active_elem b Hb). apply (ao_in _ _ Ha). apply HL. by left. }
  destruct (IH (setLane i (lane b i ≫= lane_after) b1)) as (b2 & -> & (H1 & H2 & H3) & H4); [set_solver|done|done| |].
  { intros j Hj. rewrite lane_set by done. rewrite decide_False by congruence. apply Hl. by right. }
  exists b2. split; [done|]. split; [by unfold only_lanes; rewrite H1, H2, H3|]. intros j. rewrite H4, lane_set by done.
  destruct (decide (i = j)) as [<-|Hne].
  - rewrite (decide_True (P := i ∈ i :: L)) by by left. by destruct (decide (i ∈ L)).
  - destruct (decide (j ∈ L)) as [Hj|Hj]; [rewrite decide_True by by right|rewrite decide_False by set_solver]; done.
Qed.

Lemma remove_access_spec a l a' : a' ∈ remove_access a l ↔ a' ∈ l ∧ a_no a' ≠ a_no a.
Proof.
  unfold remove_access. rewrite list_elem_of_In, List.filter_In, <-list_elem_of_In, negb_true_iff, Nat.eqb_neq. done.
Qed.

Lemma remove_access_nos a l : nos (remove_access a l) = List.filter (λ n, negb (n =? a_no a)%nat) (nos l).
Proof. unfold remove_access, nos in *. induction l as [|x l IH]; [done|]. cbn. destruct (negb _); cbn; by f_equal. Qed.

Lemma remove_nos a l n : n ∈ nos (remove_access a l) ↔ n ∈ nos l ∧ n ≠ a_no a.
Proof. rewrite remove_access_nos, list_elem_of_In, List.filter_In, <-list_elem_of_In, negb_true_iff, Nat.eqb_neq. done. Qed.

Lemma remove_nodup a l : NoDup (nos l) → NoDup (nos (remove_access a l)).
Proof. rewrite remove_access_nos. intros H. by apply NoDup_ListNoDup, List.NoDup_filter, NoDup_ListNoDup. Qed.

Lemma in_nos a l : a ∈ l → a_no a ∈ nos l.
Proof. apply list_elem_of_fmap_2. Qed.

(** The memory of a load never changes. *)
Lemma load_mem F m : instructionType b = LOAD_INST → (∀ a, a ∈ F → a ∈ accs) →
  (∀ x, m x = memory_after (acc_write <$> F) m0 x) → ∀ a n, mem_bytes m a n = mem_bytes m0 a n.
Proof.
  intros E HF Hm a n. unfold mem_bytes. apply list_fmap_ext. intros _ x _. rewrite Hm, memory_after_last.
  destruct (last _) as [w|] eqn:El; [|done]. apply last_Some_elem_of in El.
  rewrite list_elem_of_In, List.filter_In, <-list_elem_of_In in El. destruct El as [(f & -> & Hf)%list_elem_of_fmap Hc].
  pose proof (ao_kind _ _ (acc_spec f (HF f Hf))) as Hk. rewrite E in Hk. destruct Hk as (_ & Hp & _).
  unfold acc_write in Hc. rewrite Hp in Hc. apply covers_spec in Hc. cbn in Hc. lia.
Qed.

(** ** The steps *)

Lemma nos_snoc T a n : n ∈ nos (T ++ [a]) ↔ n ∈ nos T ∨ n = a_no a.
Proof. unfold nos. rewrite fmap_app, elem_of_app. cbn. by rewrite list_elem_of_singleton. Qed.

Lemma untranslated_snoc C T a i : NoDup (nos C) → C !! i = Some a → a_no a ∉ nos T →
  ∀ a', a_no a' = a_no a → S (length (untranslated C (T ++ [a']))) = length (untranslated C T).
Proof.
  intros Hnd Hi HT a' Ea. unfold untranslated. revert i Hi. induction C as [|c C IH]; intros [|i] Hi; [done..| |].
  - injection Hi as ->. apply NoDup_cons in Hnd as [Hc _]. cbn.
    rewrite (bool_decide_eq_false_2 (a_no a ∉ nos (T ++ [a']))) by (rewrite nos_snoc, Ea; tauto).
    rewrite (bool_decide_eq_true_2 (a_no a ∉ nos T)) by done. cbn. do 2 f_equal.
    apply List.filter_ext_in. intros c Hc'%list_elem_of_In. apply bool_decide_ext. rewrite nos_snoc, Ea.
    assert (a_no c ≠ a_no a) by (intros E; apply Hc; rewrite <-E; by apply in_nos). tauto.
  - apply NoDup_cons in Hnd as [Hc Hnd]. cbn in Hi |- *. specialize (IH Hnd i Hi).
    assert (a_no c ≠ a_no a) by (intros E; apply Hc; rewrite E; by eapply in_nos, list_elem_of_lookup_2).
    assert (bool_decide (a_no c ∉ nos (T ++ [a'])) = bool_decide (a_no c ∉ nos T)) as ->.
    { apply bool_decide_ext. rewrite nos_snoc, Ea. tauto. }
    destruct (bool_decide _); cbn; lia.
Qed.

Lemma remove_length a l : NoDup (nos l) → a_no a ∈ nos l → S (length (remove_access a l)) = length l.
Proof.
  unfold remove_access, nos. induction l as [|x l IH]; cbn; [set_solver|]. intros [Hx Hnd]%NoDup_cons Hin.
  destruct (Nat.eqb_spec (a_no x) (a_no a)) as [E|E]; cbn.
  - do 2 f_equal. rewrite <-E in *. apply List.forallb_filter_id, List.forallb_forall. intros y Hy%list_elem_of_In.
    apply negb_true_iff, Nat.eqb_neq. intros Ey. apply Hx. rewrite <-Ey. by apply list_elem_of_fmap_2.
  - rewrite IH; [done|done|]. apply elem_of_cons in Hin as [E'|]; [congruence|done].
Qed.

Lemma filter_remove (p : CoalescedAccess → bool) a l :
  (length (List.filter p (remove_access a l)) ≤ length (List.filter p l))%nat.
Proof. unfold remove_access. induction l as [|x l IH]; cbn; [lia|]. destruct (negb _), (p x) eqn:E; cbn; rewrite ?E; cbn; lia. Qed.

Definition enabled_work (w w' : wrun) : Prop := (work (w_b w') < work (w_b w))%nat.

Lemma translate_step F w i pa : w_inv F w → w_guard w (Translate i pa) = true →
  ∃ w', w_step w (Translate i pa) = Ok w' ∧ w_inv F w' ∧ enabled_work w w'.
Proof.
  intros [H1 H2 H3 [H4a H4b] [H5a H5b] H6 H7 H8] Hg. cbn in Hg |- *.
  destruct (coalescedAccesses (w_b w) !! i) as [a|] eqn:Ei; [|done]. apply bool_decide_eq_true in Hg.
  assert (HaC : a ∈ coalescedAccesses (w_b w)) by by eapply list_elem_of_lookup_2.
  destruct (translate_ok a pa (H2 a HaC)) as (a' & E & En & _). rewrite E. cbn [mbind res_bind]. eexists. split; [reflexivity|]. split.
  - constructor; cbn; [done|done| | | |done|done|].
    + intros x [Hx| ->%list_elem_of_singleton]%elem_of_app; [by apply H3|]. exists a. split; [by apply H2|by exists pa].
    + split; [done|]. unfold nos in *. rewrite fmap_app. apply NoDup_app. split_and!; [done| |apply NoDup_singleton].
      intros n Hn ->%list_elem_of_singleton. by rewrite En in Hn.
    + split; [done|]. intros x. rewrite H5b, nos_snoc, En. split; [|tauto]. intros (Hx & HxC & HxT). split_and!; [done|done|].
      intros [?|Ex]; [done|]. apply HxC. rewrite Ex. by apply in_nos.
    + rewrite H8. split; intros (_ & HC & _); rewrite HC in HaC; by apply not_elem_of_nil in HaC.
  - unfold enabled_work, work. cbn -[untranslated Nat.mul]. rewrite length_app. cbn [length].
    pose proof (untranslated_snoc _ _ a i H4a Ei Hg a' En). lia.
Qed.

Lemma inject_step F w i : w_inv F w → w_guard w (Inject i) = true →
  ∃ w', w_step w (Inject i) = Ok w' ∧ w_inv F w' ∧ enabled_work w w'.
Proof.
  intros [H1 H2 H3 [H4a H4b] [H5a H5b] H6 H7 H8] Hg. cbn in Hg |- *.
  destruct (translatedAccesses (w_b w) !! i) as [a|] eqn:Ei; [|done]. apply bool_decide_eq_true in Hg.
  assert (HaT : a ∈ translatedAccesses (w_b w)) by by eapply list_elem_of_lookup_2.
  eexists. split; [reflexivity|]. split.
  - constructor; cbn; [done| |done| | |done|done|].
    + intros x [Hx _]%remove_access_spec. by apply H2.
    + split; [by apply remove_nodup|done].
    + split; [done|]. intros x. rewrite H5b, remove_nos. split; [naive_solver|]. intros (Hx & HxC & HxT). split_and!; [done| |done].
      intros HC. apply HxC. split; [done|]. intros E. apply HxT. rewrite E. by apply in_nos.
    + rewrite H8. split; intros (? & HC & HT); [by rewrite HC in Hg; apply not_elem_of_nil in Hg|by rewrite HT in HaT; apply not_elem_of_nil in HaT].
  - unfold enabled_work, work, untranslated. cbn -[Nat.mul nos]. pose proof (remove_length a _ H4a Hg).
    pose proof (filter_remove (λ a, bool_decide (a_no a ∉ nos (translatedAccesses (w_b w)))) a (coalescedAccesses (w_b w))). lia.
Qed.

Lemma lanes_once : (∀ a, a ∈ accs → NoDup (activeLanes a)) ∧
  ∀ a a' i, a ∈ accs → a' ∈ accs → i ∈ activeLanes a → i ∈ activeLanes a' → a = a'.
Proof. apply concat_disjoint. rewrite (as_lanes _ _ _ _ Haccs). apply active_NoDup. Qed.

(** What the memory answers is what the lanes need. *)
Lemma warp_serve_ok F w a a' : w_inv F w → a ∈ accs → prepared a a' → ∃ a2 m,
  serve (w_mem w) a' = (a2, m) ∧ a_no a2 = a_no a ∧ a_vaddr a2 = a_vaddr a ∧ a_size a2 = a_size a ∧ activeLanes a2 = activeLanes a ∧
  (instructionType b = LOAD_INST → a_data a2 = Payload (mem_bytes m0 (a_vaddr a) (a_size a))) ∧
  ∀ x, m x = memory_after (acc_write <$> F ++ [a]) m0 x.
Proof.
  intros [_ _ _ _ [_ HF] _ Hm _] Ha Hp. destruct (prepared_fields a a' Ha Hp) as (En & Ev & Es & El & Ec & Ed).
  pose proof (ao_kind _ _ (acc_spec a Ha)) as Hk. unfold serve. rewrite Ec.
  assert (Hafter : ∀ m x, m x = memory_after (acc_write <$> F) m0 x →
    put_bytes m (acc_write a) x = memory_after (acc_write <$> F ++ [a]) m0 x).
  { intros m x Hx. unfold memory_after. rewrite fmap_app, foldl_app. cbn. unfold put_bytes. cbn. by rewrite Hx. }
  destruct Ht as [E|E]; rewrite E in Hk.
  - destruct Hk as (-> & Hpk & _). eexists _, _. split; [reflexivity|]. cbn. split_and!; try done.
    + intros _. rewrite Ev, Es. f_equal. eapply load_mem; [done| |exact Hm]. intros f Hf. by apply HF.
    + intros x. rewrite <-(Hafter _ x (Hm x)). rewrite put_bytes_out; [done|]. unfold acc_write, covers. cbn. rewrite Hpk. cbn.
      apply andb_false_iff. rewrite Z.leb_gt, Z.ltb_ge. lia.
  - destruct Hk as (-> & buf & Hpk & _). eexists _, _. split; [reflexivity|]. split_and!; [done..|by rewrite E|].
    intros x. rewrite (Ed E), Hpk, Ev. rewrite <-(Hafter _ x (Hm x)). unfold acc_write. by rewrite Hpk.
Qed.

Lemma finish_step F w i : w_inv F w → w_guard w (Finish i) = true →
  ∃ a w', w_step w (Finish i) = Ok w' ∧ w_inv (F ++ [a]) w' ∧ enabled_work w w'.
Proof.
  intros HI Hg. pose proof HI as [H1 H2 H3 [H4a H4b] [H5a H5b] H6 H7 H8]. cbn in Hg |- *.
  destruct (translatedAccesses (w_b w) !! i) as [a'|] eqn:Ei; [|done]. apply bool_decide_eq_true in Hg.
  assert (HaT : a' ∈ translatedAccesses (w_b w)) by by eapply list_elem_of_lookup_2.
  destruct (H3 a' HaT) as (a & Ha & Hp). destruct (prepared_fields a a' Ha Hp) as (En & _ & _ & _ & _ & _).
  destruct (warp_serve_ok F w a a' HI Ha Hp) as (a2 & m & -> & Sn & Sv & Ss & Sl & Sd & Sm).
  assert (HnF : a ∉ F) by (rewrite H5b, <-En; intros (_ & _ & []); by apply in_nos).
  assert (Hnew : ∀ j, j ∈ activeLanes a → j ∉ concat (activeLanes <$> F)).
  { intros j Hj (f & Hf & Hj')%elem_of_concat_fmap. apply HnF. replace a with f; [done|]. eapply lanes_once; [by apply H5b|done|exact Hj'|done]. }
  destruct (finish_lanes_ok a a2 (acc_spec a Ha) Sv Ss Sd (activeLanes a) (w_b w)) as (b2 & Ef & (B1 & B2 & B3) & B4);
    [done|by apply lanes_once|done|intros j Hj; rewrite H6, decide_False; auto|].
  exists a. unfold finishAccess. rewrite bool_decide_eq_false_2 by (rewrite H1; destruct Ht as [-> | ->]; done). rewrite Sl, Ef. cbn [mbind res_bind].
  eexists. split; [reflexivity|]. split.
  - assert (Hnos : ∀ n, n ∈ nos (remove_access a2 (translatedAccesses b2)) ↔ n ∈ nos (translatedAccesses (w_b w)) ∧ n ≠ a_no a).
    { intros n. rewrite remove_nos, B2, Sn. done. }
    constructor; cbn -[nos lane]; rewrite ?B1, ?B3; [done|done| | | | |done|].
    + intros x [Hx _]%remove_access_spec. rewrite B2 in Hx. by apply H3.
    + split; [done|]. apply remove_nodup. by rewrite B2.
    + split; [apply NoDup_app; split_and!; [done|intros x Hx ->%list_elem_of_singleton; done|apply NoDup_singleton]|].
      intros x. rewrite elem_of_app, list_elem_of_singleton, H5b, Hnos. split.
      * intros [(? & ? & ?)| ->]; [tauto|]. split_and!; [done|by rewrite <-En|tauto].
      * intros (Hx & HxC & HxT). destruct (decide (a_no x = a_no a)) as [E|Hne]; [right; by eapply accs_inj|]. left. split_and!; [done|done|].
        intros HT. by apply HxT.
    + intros j. etrans; [exact (B4 j)|]. rewrite H6, fmap_app, concat_app. cbn -[lane]. rewrite app_nil_r.
      destruct (decide (j ∈ activeLanes a)), (decide (j ∈ concat (activeLanes <$> F)));
        [rewrite decide_True by (rewrite elem_of_app; tauto)..|rewrite decide_False by (rewrite elem_of_app; tauto)]; done.
    + rewrite bool_decide_eq_true. split; [|tauto]. intros [? ?]. split_and!; [by destruct F|done|done].
  - unfold enabled_work, work, untranslated. cbn -[Nat.mul nos]. rewrite B1, B2.
    pose proof (remove_length a2 _ H4b ltac:(rewrite Sn, <-En; by apply in_nos)).
    assert (List.filter (λ x, bool_decide (a_no x ∉ nos (remove_access a2 (translatedAccesses (w_b w))))) (coalescedAccesses (w_b w)) =
      List.filter (λ x, bool_decide (a_no x ∉ nos (translatedAccesses (w_b w)))) (coalescedAccesses (w_b w))) as ->; [|lia].
    apply List.filter_ext_in. intros x Hx%list_elem_of_In. apply bool_decide_ext. rewrite remove_nos, Sn.
    assert (a_no x ≠ a_no a) by (intros E; apply Hg; rewrite En, <-E; by apply in_nos). tauto.
Qed.

Lemma w_step_ok F w op : w_inv F w → w_guard w op = true →
  ∃ F' w', w_step w op = Ok w' ∧ w_inv F' w' ∧ enabled_work w w'.
Proof.
  intros HI Hg. destruct op as [i pa|i|i].
  - destruct (translate_step F w i pa HI Hg) as (w' & ? & ? & ?). by exists F, w'.
  - destruct (inject_step F w i HI Hg) as (w' & ? & ? & ?). by exists F, w'.
  - destruct (finish_step F w i HI Hg) as (a & w' & ? & ? & ?). by exists (F ++ [a]), w'.
Qed.

Lemma w_run_ok ops F w : w_inv F w → ∃ F' w', foldM w_gstep w ops = Ok w' ∧ w_inv F' w'.
Proof.
  revert F w. induction ops as [|op ops IH]; intros F w HI; [by exists F, w|]. cbn [foldM].
  change (w_gstep w op) with (if w_guard w op then w_step w op else Ok w).
  destruct (w_guard w op) eqn:Hg; [|by apply (IH F)].
  destruct (w_step_ok F w op HI Hg) as (F' & w' & -> & HI' & _). by apply (IH F').
Qed.

(** Something can always be done until the instruction is complete. *)
Lemma warp_goes_on F w : active b ≠ [] → w_inv F w → w_complete w = false → ∃ op, w_guard w op = true.
Proof.
  intros Hact [_ _ H3 _ [_ HF] _ _ H8] Hc.
  destruct (translatedAccesses (w_b w)) as [|a T] eqn:ET.
  - destruct (coalescedAccesses (w_b w)) as [|a C] eqn:EC.
    + exfalso. assert (w_complete w = true); [|congruence]. apply H8. split_and!; [|done|done]. intros ->. apply Hact.
      destruct accs as [|a l] eqn:E; [symmetry; apply Permutation_nil_l, (as_lanes _ _ _ _ Haccs)|].
      assert (a ∈ []) as []%not_elem_of_nil. apply HF. split_and!; [by left|apply not_elem_of_nil..].
    + exists (Translate 0 0). cbn. rewrite EC, ET. cbn. by apply bool_decide_eq_true, not_elem_of_nil.
  - destruct (decide (a_no a ∈ nos (coalescedAccesses (w_b w)))) as [Hin|Hin].
    + exists (Inject 0). cbn. rewrite ET. cbn. by apply bool_decide_eq_true.
    + exists (Finish 0). cbn. rewrite ET. cbn. by apply bool_decide_eq_true.
Qed.

(** ** The end *)

Lemma all_finished F w : w_inv F w → w_complete w = true → F ≡ₚ accs.
Proof.
  intros [_ _ _ _ [Hnd HF] _ _ H8] (_ & HC & HT)%H8. apply NoDup_Permutation; [done|eapply NoDup_fmap_1, accs_nodup|].
  intros a. rewrite HF, HC, HT. split; [tauto|]. intros ?. split_and!; [done|apply not_elem_of_nil..].
Qed.

Lemma active_in i : i ∈ active b → ∃ a, a ∈ accs ∧ i ∈ activeLanes a.
Proof. intros Hi. rewrite <-(as_lanes _ _ _ _ Haccs) in Hi. by apply elem_of_concat_fmap in Hi. Qed.

(** Lanes that store to a common byte store to the same address. *)
Lemma warp_cover_same x i j : instructionType b = STORE_INST → i ∈ active b → j ∈ active b → covers x (lw b j) = true →
  covers x (lw b i) = (laddr b i =? laddr b j).
Proof.
  intros E Hi Hj Hc. apply (lane_covers b Hb j x E Hj) in Hc. destruct (laddr_ok b Hb i Hi) as [? Mi]. destruct (laddr_ok b Hb j Hj) as [? Mj].
  destruct (sizes b Hb) as (_ & Hp & _). pose proof (Z.div_mod (laddr b i) ds ltac:(lia)). pose proof (Z.div_mod (laddr b j) ds ltac:(lia)).
  apply eq_true_iff_eq. rewrite (lane_covers b Hb i x E Hi), Z.eqb_eq. split; [|intros ->; lia]. intros Hci.
  assert (laddr b i / ds = laddr b j / ds) by nia. nia.
Qed.

Lemma covering L x j : instructionType b = STORE_INST → (∀ i, i ∈ L → i ∈ active b) → j ∈ active b → covers x (lw b j) = true →
  List.filter (covers x) (lw b <$> L) = lw b <$> same_addr b j L.
Proof.
  intros E HL Hj Hc. unfold same_addr. induction L as [|i L IH]; [done|]. cbn.
  rewrite (warp_cover_same x i j E) by (done || apply HL; by left). rewrite <-Z.eqb_sym, (Z.eqb_sym (laddr b j)).
  destruct (laddr b i =? laddr b j); cbn; rewrite <-IH by (intros k Hk; apply HL; by right); done.
Qed.

(** An access covers a byte if one of its lanes does. *)
Lemma acc_covers a x : instructionType b = STORE_INST → a ∈ accs →
  covers x (acc_write a) = true ↔ ∃ i, i ∈ activeLanes a ∧ covers x (lw b i) = true.
Proof.
  intros E Ha. pose proof (acc_spec a Ha) as Hok. pose proof (ao_kind _ _ Hok) as Hk. rewrite E in Hk. destruct Hk as (_ & buf & Hp & Hl & Hcov & _).
  rewrite covers_spec. unfold acc_write. cbn. rewrite Hp. cbn. rewrite Hl. split; [apply Hcov|].
  intros (i & Hi & Hc). destruct (ao_in _ _ Hok i Hi) as (Hia & ? & ? & _). apply (lane_covers b Hb i x E Hia) in Hc. lia.
Qed.

Lemma store_memory F x : instructionType b = STORE_INST → F ≡ₚ accs →
  memory_after (acc_write <$> F) m0 x = memory_after (lw b <$> active b) m0 x.
Proof.
  intros E HP. rewrite memory_after_last. destruct (last (List.filter (covers x) (acc_write <$> F))) as [wr|] eqn:El.
  - apply last_Some_elem_of in El. rewrite list_elem_of_In, List.filter_In, <-list_elem_of_In in El. destruct El as [(a & -> & Ha)%list_elem_of_fmap Hc].
    rewrite HP in Ha. destruct (proj1 (acc_covers a x E Ha) Hc) as (j & Hj & Hcj). pose proof (acc_spec a Ha) as Hok.
    destruct (ao_in _ _ Hok j Hj) as (Hja & _ & _ & Hsame). pose proof (ao_kind _ _ Hok) as Hk. rewrite E in Hk. destruct Hk as (_ & buf & Hp & _ & _ & Hput).
    unfold acc_write. rewrite Hp, Hput. apply memory_after_filter.
    rewrite (covering _ x j), (covering _ x j), Hsame; try done. intros i Hi. by apply (ao_in _ _ Hok).
  - rewrite memory_after_last. destruct (last (List.filter (covers x) (lw b <$> active b))) as [wr|] eqn:El'; [|done]. exfalso.
    apply last_Some_elem_of in El'. rewrite list_elem_of_In, List.filter_In, <-list_elem_of_In in El'. destruct El' as [(i & -> & Hi)%list_elem_of_fmap Hc].
    destruct (active_in i Hi) as (a & Ha & Hia). apply last_None in El.
    assert (acc_write a ∈ List.filter (covers x) (acc_write <$> F)) as Hin; [|rewrite El in Hin; by apply not_elem_of_nil in Hin].
    rewrite list_elem_of_In, List.filter_In, <-list_elem_of_In. split; [apply list_elem_of_fmap_2; by rewrite HP|].
    apply acc_covers; [done|done|by exists i].
Qed.

Lemma run_end F w : w_inv F w → w_complete w = true →
  (instructionType b = LOAD_INST → (∀ i, lane (w_b w) i = lane b i ≫= lane_after) ∧ ∀ x, w_mem w x = m0 x) ∧
  (instructionType b = STORE_INST → ∀ x, w_mem w x = memory_after (lw b <$> active b) m0 x).
Proof.
  intros HI Hc. pose proof (all_finished F w HI Hc) as HP. destruct HI as [_ _ _ _ [_ HF] H6 H7 _]. split; intros E.
  - split.
    + intros i. rewrite H6. destruct (lane b i) as [p|] eqn:Ep; [|by destruct (decide _)].
      rewrite decide_True; [done|]. destruct (active_in i) as (a & Ha & Hi); [by apply (active_elem b Hb); exists p|].
      apply elem_of_concat_fmap. exists a. by rewrite HP.
    + intros x. pose proof (load_mem F (w_mem w) E (λ a Ha, proj1 (proj1 (HF a) Ha)) H7 x 1) as Hx. by injection Hx.
  - intros x. rewrite H7. by apply store_memory.
Qed.
End run.

Lemma w_inv_start b m now accs : coalescedAccesses b = [] → translatedAccesses b = [] →
  accs_ok (b <| firstCycleTick := now |>) (b <| firstCycleTick := now |>) (active b) accs →
  w_inv (b <| firstCycleTick := now |>) m accs [] (mkRun ((with_acc accs (b <| firstCycleTick := now |>)) <| state := COALESCED |>) m false).
Proof.
  intros HC HT Haccs. constructor; cbn -[nos lane]; rewrite ?HC, ?HT; cbn -[nos lane]; [done|done|set_solver| | |done|done|naive_solver].
  - split; [|constructor]. unfold nos. rewrite (as_no _ _ _ _ Haccs). apply NoDup_ListNoDup, List.seq_NoDup.
  - split; [constructor|]. intros a. split; [by intros ?%not_elem_of_nil|]. intros (Ha & Hn & _). destruct Hn. by apply in_nos.
Qed.

Lemma warp_ok_tick b now : warp_ok b → warp_ok (b <| firstCycleTick := now |>).
Proof. by intros []. Qed.

(** C10: coalescing a load or a store of a warp never fails an assertion, and its
    accesses stay within a cache line of 128 bytes.  Then, in whatever order the
    accesses are translated, sent and finished, no step fails, and the instruction
    is reported complete when the last of them is finished: by then every lane of
    a load has been answered with the bytes at its own address and the memory is
    unchanged; a store has left the memory that the stores of the lanes, one after
    the other, would have left.  Until then there is a step to take, and every step
    reduces the work that is left. *)
Theorem warp_access_ok b now m : warp_ok b → instructionType b = LOAD_INST ∨ instructionType b = STORE_INST →
  state b = DISPATCHING → coalescedAccesses b = [] → translatedAccesses b = [] → active b ≠ [] →
  ∃ b1, coalesceMemRequests now b = Ok b1 ∧
    Forall (λ a, a_vaddr a / 128 = (a_vaddr a + a_size a - 1) / 128) (coalescedAccesses b1) ∧
    ∀ ops, ∃ w, foldM w_gstep (mkRun b1 m false) ops = Ok w ∧
      (w_complete w = true →
        (instructionType b = LOAD_INST → (∀ x, w_mem w x = m x) ∧
          ∀ i p, lane b i = Some p → lane (w_b w) i =
            Some ((p <| l_data := Bytes (mem_bytes m (l_vaddr p) (requestDataSize b)) |>) <| l_cmd := ReadResp |>)) ∧
        (instructionType b = STORE_INST → ∀ x, w_mem w x = memory_after (lw b <$> active b) m x)) ∧
      (w_complete w = false → ∃ op, w_guard w op = true) ∧
      ∀ op, w_guard w op = true → ∃ w', w_step w op = Ok w' ∧ (work (w_b w') < work (w_b w))%nat.
Proof.
  intros Hb Ht Hs HC HT Hact. set (b0 := b <| firstCycleTick := now |>). pose proof (warp_ok_tick b now Hb) as Hb0.
  destruct (warp_coalesce_ok b0 Hb0 Ht) as (accs & E & Haccs). exists ((with_acc accs b0) <| state := COALESCED |>). split_and!.
  - unfold coalesceMemRequests. rewrite assert_bind by (by rewrite Hs). fold b0. by rewrite E.
  - cbn. rewrite HC. cbn. eapply Forall_impl; [apply (as_all _ _ _ _ Haccs)|]. apply ao_line.
  - intros ops. destruct (w_run_ok b0 Hb0 Ht m accs Haccs ops [] _ (w_inv_start b m now accs HC HT Haccs)) as (F & w & Ew & HI).
    exists w. split; [exact Ew|]. clear Ew. split_and!.
    + intros Hc. destruct (run_end b0 Hb0 Ht m accs Haccs F w HI Hc) as [HL HS]. split; [|exact HS]. intros El.
      destruct (HL El) as [Hl Hm]. split; [exact Hm|]. intros i p Hp. rewrite Hl. change (lane b0 i) with (lane b i). rewrite Hp. cbn -[mem_bytes].
      unfold lane_after. change (instructionType b0) with (instructionType b). by rewrite El.
    + by apply (warp_goes_on b0 m accs Haccs F).
    + intros op Hg. destruct (w_step_ok b0 Hb0 Ht m accs Haccs F w op HI Hg) as (_ & w' & ? & _ & ?). by exists w'.
Qed.

(** Stores of four lanes: lanes 0 and 2 to the same word, lane 1 to the next one
    and lane 3 elsewhere; the access of lane 3 is finished first. *)
Definition ex_lane (a v : Z) : option lane_pkt :=
  Some (mkLane WriteReq a 4 false 0 0 0 false (Bytes [Some v; Some v; Some v; Some v])).
Definition ex_warp : WIB :=
  mkWIB 0 32 1 DISPATCHING STORE_INST 4 0 0 0 0
    ([ex_lane 100 1; ex_lane 104 2; ex_lane 100 3; ex_lane 200 4] ++ replicate 28 None) 0 false [] [] 0 ∅.
Definition ex_steps : list wop :=
  [Translate 1 200; Translate 0 100; Inject 1; Inject 0; Finish 0; Finish 0].

Lemma ex_warp_ok : warp_ok ex_warp.
Proof.
  constructor; [done|done|done|cbn; set_solver|unfold size_ok; cbn; set_solver|].
  intros i p Hp. do 4 (destruct i as [|i]; [injection Hp as <-; repeat split; done|]). exfalso. unfold lane in Hp. cbn in Hp.
  do 28 (destruct i as [|i]; [done|]). done.
Qed.

Lemma warp_access_ok_witness : ∃ b1, coalesceMemRequests 0 ex_warp = Ok b1 ∧
  ∃ w, foldM w_gstep (mkRun b1 (λ _, None) false) ex_steps = Ok w ∧ w_complete w = true ∧
    w_mem w 101 = Some 3 ∧ w_mem w 107 = Some 2 ∧ w_mem w 200 = Some 4 ∧ w_mem w 204 = None.
Proof.
  destruct (warp_access_ok ex_warp 0 (λ _, None) ex_warp_ok (or_intror eq_refl) eq_refl eq_refl eq_refl ltac:(done)) as (b1 & E & _ & H).
  exists b1. split; [exact E|]. destruct (H ex_steps) as (w & Ew & Hc & _). exists w. split; [exact Ew|].
  assert (w_complete w = true) as Hd.
  { assert ((λ w, w_complete w) <$> (b1 ← coalesceMemRequests 0 ex_warp; foldM w_gstep (mkRun b1 (λ _, None) false) ex_steps) = Ok true) as E'
      by (vm_compute; reflexivity).
    rewrite E in E'. cbn [mbind res_bind] in E'. rewrite Ew in E'. cbn in E'. by injection E'. }
  split; [exact Hd|]. destruct (Hc Hd) as [_ Hm]. rewrite !(Hm eq_refl). done.
Defined.
End WarpRun.
