(* ===== verification/AtomicPackets.v ===== *)
(** * Coalescing the atomics of a warp

    The lanes of a transaction are dealt out over packets, up to three for each
    subblock of 32 bytes; lanes with the same address keep their order. *)

From S2P Require Import Prelude Packet ByteWrites AtomicOps WarpInst CoalesceProofs.
Import MemCmd Packet AtomicOps WarpInst CoalesceProofs.

Module AtomicPackets.

(** ** Dealing lanes out *)

Section deal.
Context {A : Type}.
Implicit Types (subs : list (list A)) (P : A → bool).

(** The packets: every one takes up to three from each subblock. *)
Fixpoint packets (n : nat) subs : list (list A) :=
  match n with
  | O => []
  | S n => concat (take 3 <$> subs) :: packets n (drop 3 <$> subs)
  end.

Definition fits (n : nat) subs : Prop := ∀ s, s ∈ subs → (length s ≤ 3 * n)%nat.

Lemma fits_drop n subs : fits (S n) subs → fits n (drop 3 <$> subs).
Proof. intros H s (s' & -> & Hs)%list_elem_of_fmap. rewrite length_drop. specialize (H s' Hs). lia. Qed.

Lemma concat_split subs : concat subs ≡ₚ concat (take 3 <$> subs) ++ concat (drop 3 <$> subs).
Proof.
  induction subs as [|s subs IH]; [done|]. rewrite !fmap_cons. cbn [concat]. rewrite IH. rewrite <-(take_drop 3 s) at 1.
  solve_Permutation.
Qed.

Lemma fits_nil subs : fits 0 subs → concat subs = [].
Proof.
  intros H. apply elem_of_nil_inv. intros x Hx. induction subs as [|s subs IH]; [by apply not_elem_of_nil in Hx|]. cbn in Hx.
  apply elem_of_app in Hx as [Hx|Hx]; [|apply IH; [intros ? ?; apply H; by right|done]].
  specialize (H s ltac:(by left)). destruct s; [by apply not_elem_of_nil in Hx|cbn in H; lia].
Qed.

Lemma packets_perm n subs : fits n subs → concat (packets n subs) ≡ₚ concat subs.
Proof.
  revert subs. induction n as [|n IH]; intros subs H; cbn; [by rewrite fits_nil|].
  by rewrite (IH _ (fits_drop n subs H)), <-concat_split.
Qed.

(** Elements that are all in one subblock keep their order. *)
Definition only_in P (k : nat) subs : Prop := ∀ k' s, subs !! k' = Some s → k' ≠ k → List.filter P s = [].

Lemma filter_only P k subs : only_in P k subs → List.filter P (concat subs) = List.filter P (default [] (subs !! k)).
Proof.
  revert k. induction subs as [|s subs IH]; intros k H; [done|]. cbn [concat]. rewrite List.filter_app. destruct k as [|k]; cbn.
  - assert (List.filter P (concat subs) = []) as ->; [|by rewrite app_nil_r].
    clear IH. assert (Hall : ∀ s', s' ∈ subs → List.filter P s' = []) by (intros s' [k' Hk]%list_elem_of_lookup; by apply (H (S k'))).
    clear H. induction subs as [|s' subs IH]; [done|]. cbn. rewrite List.filter_app, (Hall s'), IH by set_solver. done.
  - rewrite (H 0%nat s) by done. cbn. apply IH. intros k' s' Hk' Hne. apply (H (S k')); [done|lia].
Qed.

Lemma filter_nil_take P s : List.filter P s = [] → List.filter P (take 3 s) = [] ∧ List.filter P (drop 3 s) = [].
Proof. rewrite <-(take_drop 3 s) at 1. rewrite List.filter_app. apply app_eq_nil. Qed.

Lemma packets_order P k n subs : fits n subs → only_in P k subs →
  List.filter P (concat (packets n subs)) = List.filter P (concat subs).
Proof.
  revert subs. induction n as [|n IH]; intros subs Hf Ho; cbn; [by rewrite fits_nil|].
  assert (Hd : only_in P k (drop 3 <$> subs)).
  { intros k' s Hs Hne. rewrite list_lookup_fmap in Hs. destruct (subs !! k') as [s'|] eqn:E; [|done]. injection Hs as <-. by apply filter_nil_take, (Ho k'). }
  assert (Htk : only_in P k (take 3 <$> subs)).
  { intros k' s Hs Hne. rewrite list_lookup_fmap in Hs. destruct (subs !! k') as [s'|] eqn:E; [|done]. injection Hs as <-. by apply filter_nil_take, (Ho k'). }
  rewrite List.filter_app, (IH _ (fits_drop n subs Hf) Hd), !(filter_only P k) by done. rewrite !list_lookup_fmap.
  destruct (subs !! k) as [s|]; [|done]. cbn. rewrite <-List.filter_app. by rewrite (take_drop 3 s).
Qed.

(** With as few packets as there are, none is empty. *)
Lemma packets_ne n subs : (∃ s, s ∈ subs ∧ (3 * n < length s + 3)%nat) → Forall (λ l, l ≠ []) (packets n subs).
Proof.
  revert subs. induction n as [|n IH]; intros subs (s & Hs & Hl); cbn; constructor.
  - intros E. assert (take 3 s = []) as E'.
    { apply elem_of_nil_inv. intros x Hx. assert (x ∈ concat (take 3 <$> subs)) as Hin; [|rewrite E in Hin; by apply not_elem_of_nil in Hin].
      apply elem_of_concat_fmap. by exists s. }
    destruct s; [cbn in Hl; lia|done].
  - apply IH. exists (drop 3 s). split; [by apply list_elem_of_fmap_2|]. rewrite length_drop. lia.
Qed.

Lemma packets_length n subs : length (packets n subs) = n.
Proof. revert subs. induction n as [|n IH]; intros subs; cbn; [done|by rewrite IH]. Qed.
End deal.

Lemma max_spec (l : list nat) : (∀ n, n ∈ l → (n ≤ foldr Nat.max 0 l)%nat) ∧ (l ≠ [] → foldr Nat.max 0%nat l ∈ l).
Proof.
  induction l as [|x l [IH1 IH2]]; cbn; [split; [set_solver|done]|]. split.
  - intros n [->|Hn]%elem_of_cons; [lia|]. specialize (IH1 n Hn). lia.
  - intros _. destruct l as [|y l]; [rewrite Nat.max_0_r; by left|]. specialize (IH2 ltac:(done)).
    destruct (Nat.max_spec x (foldr Nat.max 0%nat (y :: l))) as [[_ ->]|[_ ->]]; [by right|by left].
Qed.

(** The groups of a list by the value of a function. *)
Lemma groups_perm (f : nat → Z) (ks : list Z) (L : list nat) : NoDup ks → NoDup L → (∀ i, i ∈ L → f i ∈ ks) →
  concat ((λ k, List.filter (λ i, f i =? k) L) <$> ks) ≡ₚ L.
Proof.
  intros Hks HL Hin. apply NoDup_Permutation; [|done|].
  - clear Hin. induction Hks as [|k ks Hk Hks IH]; cbn; [constructor|]. apply NoDup_app. split_and!; [by apply NoDup_ListNoDup, List.NoDup_filter, NoDup_ListNoDup| |done].
    intros i Hi (k' & Hk' & Hi')%elem_of_concat_fmap.
    rewrite list_elem_of_In, List.filter_In, Z.eqb_eq in Hi. rewrite list_elem_of_In, List.filter_In, Z.eqb_eq in Hi'.
    destruct Hi as [_ <-], Hi' as [_ <-]. done.
  - intros i. rewrite elem_of_concat_fmap. split.
    + intros (k & _ & Hi). rewrite list_elem_of_In, List.filter_In, <-list_elem_of_In in Hi. apply Hi.
    + intros Hi. exists (f i). split; [by apply Hin|]. rewrite list_elem_of_In, List.filter_In, <-list_elem_of_In. by rewrite Z.eqb_refl.
Qed.

(** ** The objects of the lanes *)

Definition lptr (b : WIB) (i : nat) : nat :=
  match lane b i with Some p => match l_data p with Atomic q => q | _ => 0%nat end | None => 0%nat end.

Definition no_op : AtomicOpRequest := mkAtomic 0 INVALID_TYPE ATOMIC_INVALID_OP 0 false 0 0.
Definition obj (b : WIB) (i : nat) : AtomicOpRequest := default no_op (ops b !! lptr b i).

(** The object of a lane carries its number and an operation that is implemented. *)
Definition ops_ok (b : WIB) : Prop := ∀ i, i ∈ active b →
  is_Some (ops b !! lptr b i) ∧ uniqueId (obj b i) = i ∧ ∀ w, is_ok (new_word (obj b i) w).

(** An object that was put into a packet at [addr]. *)
Definition placed (b : WIB) (addr : Addr) (last : bool) (i : nat) : AtomicOpRequest :=
  ((obj b i) <| lineOffset := u32 (sub64 (laddr b i) addr) |>) <| lastAccess := last |>.

Section packet.
Context (b : WIB) (Hb : warp_ok b) (Ht : instructionType b = ATOMIC_INST) (Hds : requestDataSize b = 4) (Hops : ops_ok b).
Abbreviation ptr := (lptr b).

Definition bst (accs : list CoalescedAccess) (h : heap) : WIB := (with_acc accs b) <| ops := h |>.

Lemma ptr_inj i j : i ∈ active b → j ∈ active b → ptr i = ptr j → i = j.
Proof.
  intros Hi Hj E. destruct (Hops i Hi) as (_ & Hui & _), (Hops j Hj) as (_ & Huj & _). unfold obj in *. rewrite E in Hui. congruence.
Qed.

Lemma ptr_notin i (C : list nat) : i ∈ active b → (∀ j, j ∈ C → j ∈ active b) → i ∉ C → ptr i ∉ (ptr <$> C).
Proof. intros Hi HC Hn (j & E & Hj)%list_elem_of_fmap. apply Hn. rewrite (ptr_inj i j); auto. Qed.

Lemma lane_atomic i accs h : i ∈ active b →
  getLaneAtomicRequest (bst accs h) i = Ok (ptr i) ∧ getLaneAddr (bst accs h) i = Ok (laddr b i).
Proof.
  intros Hi. destruct (active_lane b Hb i Hi) as (p & Hp & (_ & _ & _ & _ & Hd) & Ea). rewrite Ht in Hd.
  assert (Hlt : (i < laneCount b)%nat).
  { rewrite (wo_lanes b Hb), <-(wo_length b Hb). unfold lane in Hp. destruct (laneRequestPkts b !! i) eqn:E; [by eapply lookup_lt_Some|done]. }
  unfold lptr. rewrite Hp. destruct (l_data p) as [| |q] eqn:Ed; [done|done|].
  unfold getLaneAtomicRequest, getLaneAddr, getLaneData, getLane. change (lane (bst accs h) i) with (lane b i).
  change (instructionType (bst accs h)) with (instructionType b). change (laneCount (bst accs h)) with (laneCount b).
  rewrite Hp, Ht, Ea. split; [|done]. rewrite assert_bind by done. rewrite assert_bind by (by apply bool_decide_eq_true). cbn. by rewrite Ed.
Qed.

Lemma place_ok addr accs (C : list nat) : ∀ h ps, NoDup C → (∀ i, i ∈ C → i ∈ active b ∧ h !! ptr i = Some (obj b i)) →
  ∃ h', foldM (place_op addr) (bst accs h, ps) C = Ok (bst accs h', ps ++ (ptr <$> C)) ∧
    (∀ i, i ∈ C → h' !! ptr i = Some (placed b addr false i)) ∧ ∀ q, q ∉ (ptr <$> C) → h' !! q = h !! q.
Proof.
  induction C as [|i C IH]; intros h ps Hnd HC; [exists h; rewrite app_nil_r; split_and!; [done|set_solver|done]|].
  apply NoDup_cons in Hnd as [Hi Hnd]. destruct (HC i ltac:(by left)) as [Hia Hh]. destruct (Hops i Hia) as (_ & Hu & _).
  destruct (lane_atomic i accs h Hia) as [Gp Ga].
  assert (E1 : place_op addr (bst accs h, ps) i = Ok (bst accs (<[ptr i := placed b addr false i]> h), ps ++ [ptr i])).
  { unfold place_op. rewrite Gp. cbn [mbind res_bind]. unfold load_op. change (ops (bst accs h)) with h. rewrite Hh. cbn [mbind res_bind].
    rewrite assert_bind by (by rewrite Hu, Nat.eqb_refl). rewrite Ga. done. }
  cbn [foldM]. rewrite E1. cbn [mbind res_bind].
  destruct (IH (<[ptr i := placed b addr false i]> h) (ps ++ [ptr i]) Hnd) as (h' & E' & H1 & H2).
  { intros j Hj. destruct (HC j ltac:(by right)) as [Hja Hjh]. split; [done|]. rewrite lookup_insert_ne; [done|]. intros E%ptr_inj; [by subst|done|done]. }
  exists h'. rewrite E', <-app_assoc. split_and!; [done| |].
  - intros j [->|Hj]%elem_of_cons; [|by apply H1]. rewrite H2; [by rewrite lookup_insert_eq|].
    apply ptr_notin; [done| |done]. intros j Hj. by apply HC; right.
  - intros q Hq. rewrite fmap_cons, not_elem_of_cons in Hq. rewrite H2 by tauto. rewrite lookup_insert_ne; [done|]. intros E. by destruct Hq as [[] _].
Qed.

(** What the packet of the lanes [C] looks like. *)
Record packet_ok (addr size : Z) (h : heap) (a : CoalescedAccess) : Prop :=
  { pk_addr : a_vaddr a = addr; pk_size : a_size a = size; pk_cmd : a_cmd a = SwapReq;
    pk_data : pktData a = Ops (ptr <$> activeLanes a) ∧ a_data a = NoPayload;
    pk_ne : activeLanes a ≠ [];
    pk_active : ∀ i, i ∈ activeLanes a → i ∈ active b;
    pk_objs : ∀ i, i ∈ activeLanes a →
      h !! ptr i = Some (placed b addr (bool_decide (last (activeLanes a) = Some i)) i) }.

Lemma last_packet addr (C : list nat) accs h : C ≠ [] → NoDup C → (∀ i, i ∈ C → i ∈ active b ∧ h !! ptr i = Some (placed b addr false i)) →
  ∃ h', mark_last (ptr <$> C) (bst accs h) = Ok (bst accs h') ∧
    (∀ i, i ∈ C → h' !! ptr i = Some (placed b addr (bool_decide (last C = Some i)) i)) ∧ ∀ q, q ∉ (ptr <$> C) → h' !! q = h !! q.
Proof.
  intros Hne Hnd HC. destruct (last C) as [l|] eqn:El; [|by apply last_None in El].
  assert (Hl : l ∈ C) by by apply last_Some_elem_of. destruct (HC l Hl) as [Hla Hlh].
  exists (<[ptr l := placed b addr true l]> h). split_and!.
  - unfold mark_last. rewrite fmap_last, El. cbn. unfold load_op. change (ops (bst accs h)) with h. by rewrite Hlh.
  - intros i Hi. destruct (HC i Hi) as [Hia Hih]. destruct (decide (l = i)) as [->|Hne'].
    + rewrite lookup_insert_eq. by rewrite bool_decide_eq_true_2.
    + rewrite lookup_insert_ne by (intros E%ptr_inj; done). rewrite bool_decide_eq_false_2 by congruence. done.
  - intros q Hq. rewrite lookup_insert_ne; [done|]. intros <-. by apply Hq, list_elem_of_fmap_2.
Qed.

Lemma atomic_packet_ok addr size accs h subs n : let C := concat (take 3 <$> subs) in C ≠ [] → NoDup C →
  (∀ i, i ∈ C → i ∈ active b ∧ h !! ptr i = Some (obj b i)) →
  ∃ a h', atomic_packet addr size (bst accs h, subs) n = Ok (bst (accs ++ [a]) h', drop 3 <$> subs) ∧ activeLanes a = C ∧
    packet_ok addr size h' a ∧ a_no a = accesses_made (bst accs h) ∧ ∀ q, q ∉ (ptr <$> C) → h' !! q = h !! q.
Proof.
  intros C Hne Hnd HC. destruct (place_ok addr accs C h [] Hnd HC) as (h1 & E1 & P1 & Q1).
  destruct (last_packet addr C accs h1 Hne Hnd) as (h2 & E2 & P2 & Q2); [intros i Hi; split; [by apply HC|by apply P1]|].
  destruct (push_access_eq SwapReq addr size true C (Ops (ptr <$> C)) (bst accs h2)) as (a & Ea & A1 & A2 & A3 & A4 & A5 & A6 & A7 & A8).
  exists a, h2. split_and!.
  - unfold atomic_packet, max_atom_per_subblock_per_pkt. fold C. rewrite E1. cbn [mbind res_bind app]. rewrite E2. cbn [mbind res_bind]. rewrite Ea.
    unfold bst. rewrite <-with_acc_app. done.
  - done.
  - constructor; rewrite ?A5, ?A6; try done. intros i Hi. by apply HC.
  - done.
  - intros q Hq. rewrite Q2, Q1; done.
Qed.

(** ** All packets of a transaction *)

(** Accesses made for the lanes [L], in objects and in order. *)
Record atomics_ok (L : list nat) (first : nat) (h : heap) (accs : list CoalescedAccess) : Prop :=
  { ak_packets : Forall (λ a, ∃ addr size, packet_ok addr size h a ∧ 0 ≤ addr ∧ addr + size ≤ 2 ^ 64 ∧ size ≤ 128 ∧
      ∀ i, i ∈ activeLanes a → addr ≤ laddr b i ∧ laddr b i + 4 ≤ addr + size) accs;
    ak_perm : concat (activeLanes <$> accs) ≡ₚ L;
    ak_order : ∀ v, List.filter (λ i, laddr b i =? v) (concat (activeLanes <$> accs)) = List.filter (λ i, laddr b i =? v) L;
    ak_no : a_no <$> accs = seq first (length accs) }.

Lemma packet_frame addr size h h' a : packet_ok addr size h a → (∀ i, i ∈ activeLanes a → h' !! ptr i = h !! ptr i) → packet_ok addr size h' a.
Proof. intros [] H. constructor; try done. intros i Hi. rewrite H by done. auto. Qed.

Lemma packets_run addr size : ∀ l subs accs h, let C := concat (packets (length l) subs) in
  Forall (λ p, p ≠ []) (packets (length l) subs) → NoDup C → (∀ i, i ∈ C → i ∈ active b ∧ h !! ptr i = Some (obj b i)) →
  ∃ accs' h' subs', foldM (atomic_packet addr size) (bst accs h, subs) l = Ok (bst (accs ++ accs') h', subs') ∧
    activeLanes <$> accs' = packets (length l) subs ∧ Forall (packet_ok addr size h') accs' ∧
    a_no <$> accs' = seq (accesses_made b + length accs) (length accs') ∧ ∀ q, q ∉ (ptr <$> C) → h' !! q = h !! q.
Proof.
  induction l as [|n l IH]; intros subs accs h C Hne Hnd HC; [exists [], h, subs; rewrite app_nil_r; by split_and!|].
  subst C. cbn [length packets concat] in *. apply Forall_cons in Hne as [Hne Hnes]. apply NoDup_app in Hnd as (Hnd1 & Hdis & Hnd2).
  destruct (atomic_packet_ok addr size accs h subs n Hne Hnd1) as (a & h1 & E1 & Ea & Hp & Hn & Hfr); [intros i Hi; apply HC, elem_of_app; by left|].
  destruct (IH (drop 3 <$> subs) (accs ++ [a]) h1 Hnes Hnd2) as (accs' & h' & subs' & E' & El & Hps & Hns & Hfr').
  { intros i Hi. destruct (HC i) as [Hia Hih]; [apply elem_of_app; by right|]. split; [done|]. rewrite Hfr; [done|].
    apply ptr_notin; [done| |]; [|intros Hi'; by apply (Hdis i)]. intros j Hj. apply HC, elem_of_app. by left. }
  exists (a :: accs'), h', subs'. cbn [foldM]. rewrite E1. cbn [mbind res_bind]. rewrite E', <-app_assoc. split_and!; [done|by rewrite fmap_cons, El, Ea| | |].
  - constructor; [|done]. eapply packet_frame; [exact Hp|]. intros i Hi. rewrite Ea in Hi. apply Hfr'. apply ptr_notin; [apply HC, elem_of_app; by left| |by apply Hdis].
    intros j Hj. apply HC, elem_of_app. by right.
  - cbn. rewrite Hn, Hns, length_app. cbn. f_equal. f_equal. lia.
  - intros q Hq. rewrite fmap_app, not_elem_of_app in Hq. rewrite Hfr', Hfr; tauto.
Qed.

(** The subblock of a lane in a packet at [addr]. *)
Definition sub_of (addr : Addr) (i : nat) : Z := (laddr b i - addr) / 32.

Lemma subblocks_ok addr accs h L : 0 ≤ addr → (∀ i, i ∈ L → i ∈ active b ∧ addr ≤ laddr b i) →
  ∃ subs, foldM (add_subblock (bst accs h) addr) [] L = Ok subs ∧
    ∀ k, sub_get subs k = List.filter (λ i, sub_of addr i =? k) L.
Proof.
  intros Ha HL.
  assert (∀ L0 L subs, (∀ i, i ∈ L → i ∈ active b ∧ addr ≤ laddr b i) → StronglySorted Z.lt (fst <$> subs) →
    (∀ k, sub_get subs k = List.filter (λ i, sub_of addr i =? k) L0) →
    ∃ subs', foldM (add_subblock (bst accs h) addr) subs L = Ok subs' ∧
      ∀ k, sub_get subs' k = List.filter (λ i, sub_of addr i =? k) (L0 ++ L)) as H; [|by apply (H [] L []); [|constructor|]].
  clear L HL. intros L0 L. revert L0. induction L as [|i L IH]; intros L0 subs HL Hs Hg; [exists subs; by rewrite app_nil_r|].
  destruct (HL i ltac:(by left)) as [Hia Hle]. destruct (lane_atomic i accs h Hia) as [_ Ga]. destruct (laddr_ok b Hb i Hia) as [Hr _].
  cbn [foldM]. assert (add_subblock (bst accs h) addr subs i = Ok (map_upd [] (sub_of addr i) (λ l, l ++ [i]) subs)) as ->.
  { unfold add_subblock. rewrite Ga. cbn [mbind res_bind]. by rewrite sub64_small by lia. }
  cbn [mbind res_bind]. destruct (IH (L0 ++ [i]) (map_upd [] (sub_of addr i) (λ l, l ++ [i]) subs)) as (subs' & -> & H');
    [intros j Hj; apply HL; by right|by apply map_upd_sorted| |].
  - intros k. unfold sub_get in *. rewrite map_get_upd by done. rewrite List.filter_app. cbn. rewrite Z.eqb_sym.
    destruct (Z.eqb_spec (sub_of addr i) k) as [<-|Hne]; cbn; [by rewrite Hg|by rewrite Hg, app_nil_r].
  - exists subs'. split; [done|]. intros k. by rewrite H', <-app_assoc.
Qed.

(** The lanes of [L] by subblock, and the number of packets for them. *)
Definition subblocks (addr size : Z) (L : list nat) : list (list nat) :=
  (λ k, List.filter (λ i, sub_of addr i =? k) L) <$> seqZ 0 (size / 32).
Definition num_packets (sbs : list (list nat)) : nat := ((foldr Nat.max 0 (length <$> sbs) + 2) / 3)%nat.

Lemma num_packets_ok sbs : concat sbs ≠ [] → fits (num_packets sbs) sbs ∧ Forall (λ p, p ≠ []) (packets (num_packets sbs) sbs).
Proof.
  intros Hne. unfold num_packets. set (mx := foldr Nat.max 0%nat (length <$> sbs)).
  pose proof (Nat.div_mod (mx + 2) 3 ltac:(done)) as D1. pose proof (Nat.mod_upper_bound (mx + 2) 3 ltac:(done)) as D2.
  destruct (max_spec (length <$> sbs)) as [H1 H2]. fold mx in H1, H2. split.
  - intros s Hs. specialize (H1 (length s) ltac:(by apply list_elem_of_fmap_2)). lia.
  - apply packets_ne. assert ((length <$> sbs) ≠ []) as Hn by (intros E%fmap_nil_inv; by rewrite E in Hne).
    apply H2 in Hn as (s & Es & Hs)%list_elem_of_fmap. exists s. split; [done|]. lia.
Qed.

Section lanes.
Context (addr size : Z) (L : list nat).
Context (Hsz : size = 32 ∨ size = 64 ∨ size = 128) (HL : ∀ i, i ∈ L → addr ≤ laddr b i ∧ laddr b i + 4 ≤ addr + size).

Lemma sub_in i : i ∈ L → 0 ≤ sub_of addr i < size / 32.
Proof.
  intros Hi. destruct (HL i Hi) as (? & ?). unfold sub_of. split; [apply Z.div_pos; lia|].
  destruct Hsz as [-> | [-> | ->]]; [change (32 / 32) with 1|change (64 / 32) with 2|change (128 / 32) with 4]; apply Z.div_lt_upper_bound; lia.
Qed.

Lemma subblocks_perm : NoDup L → concat (subblocks addr size L) ≡ₚ L.
Proof. intros Hnd. apply groups_perm; [apply NoDup_seqZ|done|]. intros i Hi. apply elem_of_seqZ. pose proof (sub_in i Hi). lia. Qed.

(** Lanes with the same address are in the same subblock. *)
Lemma subblocks_only i : i ∈ L → only_in (λ j, laddr b j =? laddr b i) (Z.to_nat (sub_of addr i)) (subblocks addr size L).
Proof.
  intros Hi k s Hs Hne. unfold subblocks in Hs. rewrite list_lookup_fmap in Hs.
  destruct (seqZ 0 (size / 32) !! k) as [z|] eqn:Ez; [|done]. injection Hs as <-. apply lookup_seqZ in Ez as [-> ?].
  apply elem_of_nil_inv. intros j Hj. rewrite list_elem_of_In, !List.filter_In, Z.eqb_eq, Z.eqb_eq in Hj. destruct Hj as [[_ Hj1] Hj2].
  apply Hne. unfold sub_of in *. rewrite Hj2 in Hj1. lia.
Qed.

Lemma subblocks_order v : NoDup L → L ≠ [] → let sbs := subblocks addr size L in
  List.filter (λ i, laddr b i =? v) (concat (packets (num_packets sbs) sbs)) = List.filter (λ i, laddr b i =? v) L.
Proof.
  intros Hnd Hne sbs. pose proof (subblocks_perm Hnd) as HP. fold sbs in HP.
  destruct (num_packets_ok sbs) as [Hfit _]; [intros E; rewrite E in HP; by apply Permutation_nil_l in HP|].
  pose proof (packets_perm _ _ Hfit) as Hpp. destruct (List.filter (λ i, laddr b i =? v) L) as [|i0 l0] eqn:Ef.
  - apply elem_of_nil_inv. intros i Hi. rewrite list_elem_of_In, List.filter_In, <-list_elem_of_In, Hpp, HP in Hi.
    assert (Hin : In i (List.filter (λ i, laddr b i =? v) L)) by (apply List.filter_In; by rewrite <-list_elem_of_In). by rewrite Ef in Hin.
  - rewrite <-Ef. assert (Hi0 : In i0 (List.filter (λ i, laddr b i =? v) L)) by (rewrite Ef; by left).
    rewrite List.filter_In, <-list_elem_of_In, Z.eqb_eq in Hi0. destruct Hi0 as [Hi0 <-]. pose proof (sub_in i0 Hi0).
    pose proof (subblocks_only i0 Hi0) as Ho. rewrite (packets_order _ _ _ sbs Hfit Ho), (filter_only _ _ sbs Ho).
    unfold sbs, subblocks. rewrite list_lookup_fmap, lookup_seqZ_lt by lia. cbn. rewrite Z2Nat.id, Z.add_0_l by lia.
    clear. induction L as [|j L' IH]; [done|]. cbn.
    destruct (Z.eqb_spec (laddr b j) (laddr b i0)) as [Ej|Ej].
    + assert (sub_of addr j = sub_of addr i0) as -> by (unfold sub_of; by rewrite Ej). rewrite Z.eqb_refl. cbn. by rewrite Ej, Z.eqb_refl, IH.
    + destruct (sub_of addr j =? sub_of addr i0); cbn; apply Z.eqb_neq in Ej; rewrite ?Ej; exact IH.
Qed.
End lanes.

Lemma generate_atomics_ok addr size accs h L : 0 ≤ addr → addr + size ≤ 2 ^ 64 → (size = 32 ∨ size = 64 ∨ size = 128) → L ≠ [] → NoDup L →
  (∀ i, i ∈ L → addr ≤ laddr b i ∧ laddr b i + 4 ≤ addr + size) → (∀ i, i ∈ L → i ∈ active b ∧ h !! ptr i = Some (obj b i)) →
  ∃ accs' h', generateCoalescedAccesses addr size L (bst accs h) = Ok (bst (accs ++ accs') h') ∧
    atomics_ok L (accesses_made b + length accs) h' accs' ∧ ∀ q, q ∉ (ptr <$> L) → h' !! q = h !! q.
Proof.
  intros Ha Hmax Hsz Hne Hnd Hin HL. destruct (subblocks_ok addr accs h L Ha) as (subs & Es & Hg); [intros i Hi; split; [by apply HL|by apply Hin]|].
  set (sbs := subblocks addr size L). pose proof (subblocks_perm addr size L Hsz Hin Hnd) as HP. fold sbs in HP.
  destruct (num_packets_ok sbs) as [Hfit Hpne]; [intros E; rewrite E in HP; by apply Permutation_nil_l in HP|].
  pose proof (packets_perm _ _ Hfit) as Hpp.
  destruct (packets_run addr size (seq 0 (num_packets sbs)) sbs accs h) as (accs' & h' & subs' & Er & El & Hps & Hno & Hfr); rewrite ?length_seq; [done|by rewrite Hpp, HP| |].
  { intros i Hi. rewrite Hpp, HP in Hi. by apply HL. }
  rewrite length_seq in *. exists accs', h'. split_and!.
  - unfold generateCoalescedAccesses. change (instructionType (bst accs h)) with (instructionType b). rewrite Ht.
    change (requestDataSize (bst accs h)) with (requestDataSize b). rewrite assert_bind by (by rewrite Hds).
    rewrite assert_bind by (by rewrite bool_decide_eq_false_2). rewrite Es. cbn [mbind res_bind].
    assert (sub_get subs <$> seqZ 0 (size / 32) = sbs) as -> by (apply list_fmap_ext; intros; apply Hg). fold (num_packets sbs). by rewrite Er.
  - constructor; [|by rewrite El, Hpp|intros v; rewrite El; by apply subblocks_order|done].
    rewrite Forall_forall in Hps |- *. intros a Hain. exists addr, size. split_and!; [by apply Hps|done|done|lia|]. intros i Hi. apply Hin.
    rewrite <-HP, <-Hpp, <-El. apply elem_of_concat_fmap. by exists a.
  - intros q Hq. apply Hfr. by rewrite Hpp, HP.
Qed.

(** ** All transactions *)

Lemma atomics_frame L n h h' accs : atomics_ok L n h accs → (∀ i, i ∈ L → h' !! ptr i = h !! ptr i) → atomics_ok L n h' accs.
Proof.
  intros [H1 H2 H3 H4] Hf. constructor; [|done..]. rewrite Forall_forall in H1 |- *. intros a Ha.
  destruct (H1 a Ha) as (addr & size & Hp & ? & ? & ? & Hin). exists addr, size. split_and!; try done. eapply packet_frame; [exact Hp|].
  intros i Hi. apply Hf. rewrite <-H2. apply elem_of_concat_fmap. by exists a.
Qed.

Lemma atomics_app L L' n h accs accs' : atomics_ok L n h accs → atomics_ok L' (n + length accs) h accs' → atomics_ok (L ++ L') n h (accs ++ accs').
Proof.
  intros [H1 H2 H3 H4] [H1' H2' H3' H4']. constructor.
  - by apply Forall_app.
  - by rewrite fmap_app, concat_app, H2, H2'.
  - intros v. by rewrite fmap_app, concat_app, !List.filter_app, H3, H3'.
  - by rewrite fmap_app, length_app, H4, H4', seq_app.
Qed.

Lemma send_atomics txs : txs_ok b (active b) txs → ∀ l accs h, (∀ kt, kt ∈ l → kt ∈ txs) →
  NoDup (concat (tx_lanes ∘ snd <$> l)) → (∀ i, i ∈ concat (tx_lanes ∘ snd <$> l) → h !! ptr i = Some (obj b i)) →
  ∃ accs' h', foldM (send_transaction (segment_size (requestDataSize b))) (bst accs h) l = Ok (bst (accs ++ accs') h') ∧
    atomics_ok (concat (tx_lanes ∘ snd <$> l)) (accesses_made b + length accs) h' accs' ∧
    ∀ i, i ∈ active b → i ∉ concat (tx_lanes ∘ snd <$> l) → h' !! ptr i = h !! ptr i.
Proof.
  intros Htx. induction l as [|[k t] l IH]; intros accs h Hl Hnd Hh.
  { exists [], h. rewrite app_nil_r. split_and!; [done|by constructor|done]. }
  cbn [fmap list_fmap concat compose snd] in Hnd, Hh. apply NoDup_app in Hnd as (Hnd1 & Hdis & Hnd2).
  assert (Hkt : (k, t) ∈ txs) by (apply Hl; by left).
  destruct (tx_reduced b Hb _ _ _ _ Htx ltac:(done) Hkt) as ([ra rs] & Er & Hs & Hal & Hr0 & Hr1 & Hin). cbn [fst snd] in Hs, Hr0, Hr1, Hin. rewrite Hds in Hin.
  pose proof Htx as [_ H2 _]. destruct (H2 _ _ Hkt) as (Eg & Hne & _).
  assert (Hact : ∀ i, i ∈ tx_lanes t → i ∈ active b) by (intros i Hi; by eapply tx_same_addr).
  destruct (generate_atomics_ok ra rs accs h (tx_lanes t) Hr0 Hr1 Hs Hne Hnd1 Hin) as (a1 & h1 & E1 & A1 & F1).
  { intros i Hi. split; [by apply Hact|]. apply Hh, elem_of_app. by left. }
  assert (Hl2 : ∀ i, i ∈ concat (tx_lanes ∘ snd <$> l) → i ∈ active b).
  { intros i ([k' t'] & Hk' & Hi)%elem_of_concat_fmap. eapply tx_same_addr; [exact Htx| |exact Hi]. apply Hl. by right. }
  destruct (IH (accs ++ a1) h1) as (a2 & h2 & E2 & A2 & F2); [intros kt Hkt'; apply Hl; by right|done| |].
  { intros i Hi. rewrite F1; [apply Hh, elem_of_app; by right|]. apply ptr_notin; [by apply Hl2|done|]. intros Hi'. by apply (Hdis i). }
  exists (a1 ++ a2), h2. split_and!.
  - cbn [foldM]. assert (send_transaction (segment_size (requestDataSize b)) (bst accs h) (k, t) = Ok (bst (accs ++ a1) h1)) as ->.
    { unfold send_transaction. cbn [fst snd]. rewrite Er. cbn [mbind res_bind]. change (instructionType (bst accs h)) with (instructionType b).
      by rewrite Ht. }
    cbn [mbind res_bind]. by rewrite E2, app_assoc.
  - cbn [fmap list_fmap concat compose snd]. apply atomics_app.
    + eapply atomics_frame; [exact A1|]. intros i Hi. apply F2; [by apply Hact|by apply Hdis].
    + by rewrite length_app, Nat.add_assoc in A2.
  - intros i Hi Hn. cbn [fmap list_fmap concat compose snd] in Hn. apply not_elem_of_app in Hn as [Hn1 Hn2].
    rewrite F2 by done. apply F1. by apply ptr_notin.
Qed.

Lemma sorted_NoDup (l : list Z) : StronglySorted Z.lt l → NoDup l.
Proof.
  induction l as [|x l IH]; [constructor|]. intros [H1 H2]%StronglySorted_cons. constructor; [|by apply IH].
  intros Hx. rewrite Forall_forall in H1. specialize (H1 x Hx). lia.
Qed.

(** The transactions keep the order of lanes with the same address. *)
Lemma txs_order txs v : txs_ok b (active b) txs →
  List.filter (λ i, laddr b i =? v) (concat (tx_lanes ∘ snd <$> txs)) = List.filter (λ i, laddr b i =? v) (active b).
Proof.
  intros Htx. pose proof Htx as [Hsort H2 H3]. destruct (List.filter (λ i, laddr b i =? v) (active b)) as [|i0 l0] eqn:Ef.
  - apply elem_of_nil_inv. intros i Hi. rewrite list_elem_of_In, List.filter_In, <-list_elem_of_In, H3 in Hi.
    assert (Hin : In i (List.filter (λ i, laddr b i =? v) (active b))) by (apply List.filter_In; by rewrite <-list_elem_of_In). by rewrite Ef in Hin.
  - rewrite <-Ef. assert (Hi0 : In i0 (List.filter (λ i, laddr b i =? v) (active b))) by (rewrite Ef; by left).
    rewrite List.filter_In, <-list_elem_of_In, Z.eqb_eq in Hi0. destruct Hi0 as [Hi0 <-]. pose proof Hi0 as Hi1. rewrite <-H3 in Hi1.
    apply elem_of_concat_fmap in Hi1 as ([k t] & Hkt & Hit). cbn in Hit. pose proof Hkt as [n Hn]%list_elem_of_lookup.
    rewrite (filter_only _ n).
    + rewrite list_lookup_fmap, Hn. cbn. by eapply tx_same_addr.
    + intros n' s Hs Hne. rewrite list_lookup_fmap in Hs. destruct (txs !! n') as [[k' t']|] eqn:En; [|done]. injection Hs as <-. cbn.
      apply elem_of_nil_inv. intros j Hj. rewrite list_elem_of_In, List.filter_In, <-list_elem_of_In, Z.eqb_eq in Hj. destruct Hj as [Hj Ej].
      destruct (H2 k' t' ltac:(by eapply list_elem_of_lookup_2)) as (El' & _). destruct (H2 k t Hkt) as (El & _).
      rewrite El' in Hj. apply group_elem in Hj as [_ Hk']. rewrite El in Hit. apply group_elem in Hit as [_ Hk].
      apply Hne. rewrite Ej, Hk in Hk'. subst k'.
      eapply (NoDup_lookup (fst <$> txs)); [|rewrite list_lookup_fmap, En; done|rewrite list_lookup_fmap, Hn; done].
      by apply sorted_NoDup.
Qed.

Lemma coalesce_atomics : ∃ accs h, coalesce b = Ok (bst accs h) ∧ atomics_ok (active b) (accesses_made b) h accs.
Proof.
  destruct (threads_ok b Hb) as (txs & Etx & Htx). pose proof Htx as [_ _ H3].
  destruct (send_atomics txs Htx txs [] (ops b)) as (accs & h & E & [A1 A2 A3 A4] & _); [done|rewrite H3; apply active_NoDup| |].
  { intros i Hi. rewrite H3 in Hi. destruct (Hops i Hi) as ([o Ho] & _). unfold obj. by rewrite Ho. }
  exists accs, h. split; [|constructor; [done|by rewrite A2|intros v; by rewrite A3, txs_order|by rewrite A4, Nat.add_0_r]].
  unfold coalesce. rewrite (wo_lanes b Hb), (wo_parts b Hb). rewrite assert_bind by done.
  rewrite assert_bind by (apply bool_decide_eq_true; rewrite Ht; set_solver). cbn [seq foldM].
  unfold coalesce_subwarp. rewrite (wo_lanes b Hb) in Etx. cbn [Nat.mul]. change (32 / 1)%nat with 32%nat. rewrite Etx. cbn [mbind res_bind].
  assert (bst [] (ops b) = b) as Hb' by (unfold bst; rewrite with_acc_nil; by destruct b). rewrite Hb' in E. by rewrite E.
Qed.
End packet.
End AtomicPackets.
