(* ===== verification/WarpAtomics.v ===== *)
(** * The atomics of a warp are atomic

    Every packet of atomics is performed at once on the memory; whatever the order
    of the packets, the lanes see what they would see if their operations were
    performed one after the other. *)

From S2P Require Import Prelude Packet AbstractMem ByteWrites AtomicOps WarpInst CoalesceProofs WarpRun AtomicPackets.
Import MemCmd Packet AbstractMem AtomicOps WarpInst CoalesceProofs WarpRun AtomicPackets.

Module WarpAtomics.

(** ** Words of the memory *)

Definition word_at (m : Mem) (x : Addr) : Z := word_of (read_bytes x 4 m).

Lemma word_of_le v : word_of (le_bytes 4 v) = u32 v.
Proof.
  unfold word_of, le_bytes, u32. change (seqZ 0 (Z.of_nat 4)) with [0; 1; 2; 3].
  cbn [fmap list_fmap take foldr default]. rewrite !Z.shiftr_div_pow2 by lia. change (2 ^ (8 * 0)) with 1. change (2 ^ (8 * 1)) with 256.
  change (2 ^ (8 * 2)) with 65536. change (2 ^ (8 * 3)) with 16777216. change (2 ^ 32) with 4294967296.
  unfold id. rewrite Z.div_1_r. replace (v / 65536) with (v / 256 / 256) by (by rewrite Z.div_div).
  replace (v / 16777216) with (v / 256 / 256 / 256) by (by rewrite !Z.div_div). Z.to_euclidean_division_equations; lia.
Qed.

Definition nw (o : AtomicOpRequest) (w : Z) : Z := match new_word o w with Ok v => v | Fault _ => 0 end.

(** The operations of the lanes one after the other, on a memory of words: the
    memory and, for every lane, the old value it is given. *)
Definition one_step (b : WIB) (r : (Addr → Z) * list (nat * Z)) (i : nat) : (Addr → Z) * list (nat * Z) :=
  let x := laddr b i in
  (λ y, if y =? x then u32 (nw (obj b i) (r.1 x)) else r.1 y, r.2 ++ [(i, r.1 x)]).
Definition one_by_one (b : WIB) (L : list nat) (M : Addr → Z) : (Addr → Z) * list (nat * Z) :=
  foldl (one_step b) (M, []) L.

(** A memory holds these words at the aligned addresses. *)
Definition holds (m : Mem) (M : Addr → Z) : Prop := ∀ y, y mod 4 = 0 → word_at m y = M y.

Section memory.
Context `{R : MemRange}.

(** An access of a warp's atomics from its translation (the addresses of the
    model are those of the memory) to its response; whether it completed the
    instruction. *)
Definition atomic_round (s : WIB * Mem * bool) (a : CoalescedAccess) : res (WIB * Mem * bool) :=
  let '(b, m, _) := s in
  a ← translated_packet (a_vaddr a) a;
  let b := removeCoalesced a (setTranslated a b) in
  ps ← match a_data a with Ops ps => Ok ps | _ => Fault (AssertFail "flags.isSet(STATIC_DATA|DYNAMIC_DATA)") end;
  chm ← atomicMemoryAccess (a_cmd a) (a_paddr a) ps (ops b) m;
  let '(c, h, m) := chm in
  fb ← finishAccess (a <| a_cmd := c |>) (b <| ops := h |>);
  Ok (fb.2, m, fb.1).

Lemma read_word x m : range_start ≤ x → x + 3 ≤ range_end → ∃ p m1,
  access (atomic_pkt ReadReq x (replicate 8 None)) m = Ok (p, m1) ∧ store m1 = store m ∧
  ∃ bs, getPtr p = Ok bs ∧ word_of bs = word_at m x.
Proof.
  intros H1 H2. unfold access, access_body, access_read. cbn -[read_bytes Z.leb].
  destruct (Z.leb_spec range_start x); [|lia]. destruct (Z.leb_spec (x + (4 - 1)) range_end); [|lia]. cbn -[read_bytes].
  eexists _, _. split; [reflexivity|]. split; [reflexivity|]. eexists. split; [reflexivity|]. cbn -[read_bytes].
  unfold word_at, word_of. f_equal.
Qed.

Lemma read_store x n m m' : store m = store m' → read_bytes x n m = read_bytes x n m'.
Proof. unfold read_bytes. by intros ->. Qed.

Lemma write_word x w m : range_start ≤ x → x + 3 ≤ range_end → x mod 4 = 0 → ∃ p m1,
  access (atomic_pkt WriteReq x (le_bytes 4 w ++ replicate 4 None)) m = Ok (p, m1) ∧
  ∀ y, y mod 4 = 0 → word_at m1 y = if y =? x then u32 w else word_at m y.
Proof.
  intros H1 H2 Hx. set (p := atomic_pkt WriteReq x (le_bytes 4 w ++ replicate 4 None)).
  assert (∃ p' m', writeOK p m = (true, p', m') ∧ store m' = store m ∧ addr p' = x ∧ size p' = 4 ∧ masterId p' = 0 ∧ isInstFetch p' = false ∧
    data p' = data p ∧ cmd p' = WriteReq) as (p' & m' & Ew & Es & Ea & Ez & Em & Ei & Ed & Ec).
  { unfold writeOK. destruct (lockedAddrList m) eqn:El; eexists _, _; (split; [reflexivity|]); by split_and!. }
  assert (Hb : access_body p m = Ok (p', (write_bytes x (le_bytes 4 w) m') <| memstats ::= λ st,
      stat_add "bytesWritten" 0 4 (stat_inc_at "numWrites" 0 st) |>)).
  { unfold access_body, access_write. cbn -[writeOK]. rewrite Ew. unfold getPtr. rewrite Ed. cbn -[write_bytes le_bytes]. rewrite Ea, Ez, Ei, Em.
    rewrite take_app_le by done. by rewrite take_ge. }
  assert (Hacc : ∃ p2, access p m = Ok (p2, (write_bytes x (le_bytes 4 w) m') <| memstats ::= λ st,
      stat_add "bytesWritten" 0 4 (stat_inc_at "numWrites" 0 st) |>)).
  { unfold access. cbn [memInhibit cmd p atomic_pkt]. rewrite bool_decide_eq_false_2 by done. cbn [addr size p atomic_pkt].
    rewrite assert_bind by lia. rewrite Hb. cbn [mbind res_bind]. unfold makeResponse. rewrite Ec. cbn. by eexists. }
  destruct Hacc as (p2 & Ep2). eexists p2, _. split; [exact Ep2|]. intros y Hy. unfold word_at. rewrite (read_store y 4 _ (write_bytes x (le_bytes 4 w) m')) by done.
  destruct (Z.eqb_spec y x) as [->|Hne].
  - rewrite <-word_of_le. f_equal. apply (read_write_same x (le_bytes 4 w) m').
  - rewrite read_write_disjoint; [f_equal; by apply read_store|]. change (Z.of_nat (length (le_bytes 4 w))) with 4.
    Z.to_euclidean_division_equations; lia.
Qed.

(** One operation, for the object of lane [i] in a packet at [base]. *)
Lemma perform_ok b base lst i m M : i ∈ active b → ops_ok b → holds m M →
  u64 (base + u32 (sub64 (laddr b i) base)) = laddr b i → laddr b i mod 4 = 0 → range_start ≤ laddr b i → laddr b i + 3 ≤ range_end →
  ∃ m', perform (placed b base lst i) base m = Ok ((placed b base lst i) <| word0 := M (laddr b i) |>, m') ∧
    holds m' (one_step b (M, []) i).1.
Proof.
  intros Hi Hops Hm Hx Hal Hr1 Hr2. destruct (Hops i Hi) as (_ & _ & Hok).
  destruct (read_word (laddr b i) m Hr1 Hr2) as (p & m1 & E1 & Es & bs & Eg & Ew).
  destruct (write_word (laddr b i) (nw (obj b i) (M (laddr b i))) m1 Hr1 Hr2 Hal) as (p2 & m2 & E2 & H2).
  exists m2. unfold perform. change (lineOffset (placed b base lst i)) with (u32 (sub64 (laddr b i) base)). rewrite Hx, E1. cbn [mbind res_bind]. rewrite Eg. cbn [mbind res_bind].
  rewrite Ew, (Hm _ Hal). unfold doAtomicOperation.
  assert (new_word (placed b base lst i) (M (laddr b i)) = Ok (nw (obj b i) (M (laddr b i)))) as ->.
  { change (new_word (placed b base lst i) (M (laddr b i))) with (new_word (obj b i) (M (laddr b i))). unfold nw.
    destruct (Hok (M (laddr b i))) as [v ->]. done. }
  cbn [mbind res_bind]. rewrite E2. split; [done|]. intros y Hy. rewrite H2 by done. cbn.
  destruct (Z.eqb_spec y (laddr b i)); [done|]. unfold word_at. rewrite (read_store y 4 m1 m Es). by apply Hm.
Qed.

(** ** One packet *)

Lemma valid_type o : (∀ w, is_ok (new_word o w)) → dataSizeBytes o = Ok 4.
Proof.
  intros H. destruct (H 0) as [v E]. unfold dataSizeBytes. destruct (dataType o) eqn:Ed; try done.
  unfold new_word in E. rewrite Ed in E. by destruct (atomicOp o).
Qed.

Section packet.
Context (b : WIB) (Hb : warp_ok b) (Ht : instructionType b = ATOMIC_INST) (Hds : requestDataSize b = 4) (Hops : ops_ok b).
Context (Hrange : ∀ i, i ∈ active b → range_start ≤ laddr b i ∧ laddr b i + 3 ≤ range_end).
Abbreviation ptr := (lptr b).

(** The object of a lane whose operation was performed. *)
Definition done_op (base : Addr) (lst : bool) (old : Z) (i : nat) : AtomicOpRequest :=
  (placed b base lst i) <| word0 := old |>.

Lemma one_by_one_app L L' M :
  one_by_one b (L ++ L') M = let r := one_by_one b L M in foldl (one_step b) r L'.
Proof. unfold one_by_one. by rewrite foldl_app. Qed.

(** The results so far are only added to. *)
Lemma one_step_results L M res :
  foldl (one_step b) (M, res) L = ((one_by_one b L M).1, res ++ (one_by_one b L M).2).
Proof.
  unfold one_by_one. revert M res. induction L as [|i L IH]; intros M res; cbn; [by rewrite app_nil_r|].
  unfold one_step at 2 4 6. cbn. rewrite IH, (IH _ [(i, M (laddr b i))]). cbn. by rewrite <-app_assoc.
Qed.

Definition in_packet (base : Addr) (i : nat) : Prop :=
  i ∈ active b ∧ 0 ≤ base ∧ base ≤ laddr b i ∧ laddr b i + 4 ≤ base + 128.

Lemma packet_offset base i : in_packet base i → u64 (base + u32 (sub64 (laddr b i) base)) = laddr b i.
Proof.
  intros (Hi & ? & ? & ?). destruct (laddr_ok b Hb i Hi) as [? _]. rewrite sub64_small by lia. rewrite u32_small by lia.
  replace (base + (laddr b i - base)) with (laddr b i) by lia. apply u64_small. lia.
Qed.

Lemma perform_all_ok base C : ∀ h m M, C ≠ [] → NoDup C → (∀ i, i ∈ C → in_packet base i) → holds m M →
  (∀ i, i ∈ C → h !! ptr i = Some (placed b base (bool_decide (last C = Some i)) i)) →
  ∃ h' m', perform_all base (ptr <$> C) h m = Ok (h', m') ∧ holds m' (one_by_one b C M).1 ∧
    (∀ i, i ∈ C → ∃ old, (i, old) ∈ (one_by_one b C M).2 ∧ h' !! ptr i = Some (done_op base (bool_decide (last C = Some i)) old i)) ∧
    ∀ q, q ∉ (ptr <$> C) → h' !! q = h !! q.
Proof.
  induction C as [|i C IH]; intros h m M Hne Hnd Hin Hm Hh; [done|]. apply NoDup_cons in Hnd as [HiC Hnd].
  pose proof (Hin i ltac:(by left)) as Hpk. pose proof Hpk as (Hia & _). destruct (Hops i Hia) as (_ & _ & Hok). destruct (Hrange i Hia) as [Hr1 Hr2].
  destruct (laddr_ok b Hb i Hia) as [_ Hal]. rewrite Hds in Hal. set (lst := bool_decide (last (i :: C) = Some i)).
  destruct (perform_ok b base lst i m M Hia Hops Hm (packet_offset base i Hpk) Hal Hr1 Hr2) as (m1 & Ep & Hm1).
  assert (Hstep : perform_all base (ptr <$> i :: C) h m =
    if lst then Ok (<[ptr i := done_op base lst (M (laddr b i)) i]> h, m1)
    else perform_all base (ptr <$> C) (<[ptr i := done_op base lst (M (laddr b i)) i]> h) m1).
  { rewrite fmap_cons. cbn [perform_all]. unfold load_op. rewrite (Hh i) by by left. cbn [mbind res_bind]. fold lst.
    rewrite (valid_type (placed b base lst i)) by exact Hok. cbn [mbind res_bind]. rewrite assert_bind by done. rewrite Ep. done. }
  rewrite Hstep. clear Hstep Ep. destruct C as [|j C].
  - assert (lst = true) as -> by (by apply bool_decide_eq_true). eexists _, m1. split; [reflexivity|]. split_and!; [done| |].
    + intros k ->%list_elem_of_singleton. exists (M (laddr b i)). split; [cbn; by left|]. rewrite lookup_insert_eq. by rewrite bool_decide_eq_true_2.
    + intros q Hq. rewrite lookup_insert_ne; [done|]. intros <-. apply Hq. by left.
  - assert (Hlast : last (i :: j :: C) = last (j :: C)) by done.
    assert (lst = false) as ->.
    { apply bool_decide_eq_false. rewrite Hlast. intros E%last_Some_elem_of. done. }
    destruct (IH (<[ptr i := done_op base false (M (laddr b i)) i]> h) m1 (one_step b (M, []) i).1) as (h' & m' & E' & Hm' & Hr & Hf); [done|done| |done| |].
    { intros k Hk. apply Hin. by right. }
    { intros k Hk. rewrite lookup_insert_ne; [apply Hh; by right|]. intros E%(ptr_inj b Hops); [by subst|done|]. by apply Hin; right. }
    exists h', m'. split; [done|]. unfold one_by_one at 1 2. cbn [foldl].
    assert (foldl (one_step b) (one_step b (M, []) i) (j :: C) = ((one_by_one b (j :: C) (one_step b (M, []) i).1).1,
      [(i, M (laddr b i))] ++ (one_by_one b (j :: C) (one_step b (M, []) i).1).2)) as Hone by apply one_step_results.
    cbn [foldl] in Hone. rewrite Hone. cbn [fst snd]. split_and!; [done| |].
    + intros k [->|Hk]%elem_of_cons.
      * exists (M (laddr b i)). split; [by left|]. rewrite Hf; [|by apply (ptr_notin b Hops); [|intros x Hx; apply Hin; by right|]].
        rewrite lookup_insert_eq. rewrite Hlast. rewrite bool_decide_eq_false_2; [done|]. intros E%last_Some_elem_of. done.
      * rewrite Hlast. destruct (Hr k Hk) as (old & Ho & Hho). exists old. split; [apply elem_of_app; by right|done].
    + intros q Hq. rewrite (fmap_cons _ i), not_elem_of_cons in Hq. destruct Hq as [Hq1 Hq2]. rewrite Hf by done. rewrite lookup_insert_ne; [done|]. congruence.
Qed.

(** ** The response *)

Lemma lane_packet i : i ∈ active b → ∃ p, lane b i = Some p ∧ l_cmd p = ReadReq ∧ l_data p = Atomic (ptr i).
Proof.
  intros Hi. destruct (active_lane b Hb i Hi) as (p & Hp & (_ & _ & _ & Hc & Hd) & _). rewrite Ht in Hc, Hd. exists p.
  unfold lptr. rewrite Hp. by destruct (l_data p).
Qed.

(** A lane that was answered. *)
Definition answered (p : lane_pkt) : lane_pkt := p <| l_cmd := ReadResp |>.

Lemma finish_ops_ok C : ∀ b1, C ≠ [] → NoDup C → (∀ i, i ∈ C → i ∈ active b ∧ lane b1 i = lane b i ∧
    ∃ o, ops b1 !! ptr i = Some o ∧ uniqueId o = i ∧ lastAccess o = bool_decide (last C = Some i)) →
  ∃ b2, finish_ops (ptr <$> C) C b1 = Ok ([], b2) ∧ only_lanes b1 b2 ∧
    (∀ i, lane b2 i = if decide (i ∈ C) then answered <$> lane b i else lane b1 i) ∧
    (∀ i, i ∈ C → word0 <$> (ops b2 !! ptr i) = word0 <$> (ops b1 !! ptr i)) ∧ ∀ q, q ∉ (ptr <$> C) → ops b2 !! q = ops b1 !! q.
Proof.
  induction C as [|i C IH]; intros b1 Hne Hnd HC; [done|]. apply NoDup_cons in Hnd as [HiC Hnd].
  destruct (HC i ltac:(by left)) as (Hia & Hl & o & Ho & Hu & Hlst). destruct (lane_packet i Hia) as (p & Hp & Hc & Hd).
  set (b2 := (setLane i (Some (answered p)) b1) <| ops ::= <[ptr i := o <| lastAccess := true |>]> |>).
  assert (Hb2 : ∀ j, lane b2 j = if decide (i = j) then Some (answered p) else lane b1 j).
  { intros j. apply (lane_set i (Some (answered p)) b1 j). rewrite Hl, Hp. by eexists. }
  assert (Hstep : finish_ops (ptr <$> i :: C) (i :: C) b1 = if lastAccess o then Ok (C, b2) else finish_ops (ptr <$> C) C b2).
  { rewrite fmap_cons. cbn [finish_ops]. unfold load_op. rewrite Ho. cbn [mbind res_bind]. rewrite Hu. rewrite assert_bind by (by apply bool_decide_eq_true).
    unfold getLane. rewrite Hl, Hp. cbn [mbind res_bind]. unfold respond. rewrite Hc. rewrite !assert_bind by done. cbn [mbind res_bind].
    rewrite assert_bind by (cbn; by rewrite Hd, Nat.eqb_refl). done. }
  rewrite Hstep. clear Hstep. rewrite Hlst. destruct C as [|j C].
  - rewrite bool_decide_eq_true_2 by done. exists b2. split; [done|]. split; [done|]. split_and!.
    + intros k. rewrite Hb2. destruct (decide (i = k)) as [<-|Hk]; [rewrite decide_True by (by left); by rewrite Hp|].
      by rewrite decide_False by (rewrite list_elem_of_singleton; congruence).
    + intros k ->%list_elem_of_singleton. cbn. by rewrite lookup_insert_eq, Ho.
    + intros q Hq. cbn. rewrite lookup_insert_ne; [done|]. intros <-. apply Hq. by left.
  - assert (Hlast : last (i :: j :: C) = last (j :: C)) by done.
    rewrite bool_decide_eq_false_2 by (rewrite Hlast; intros E%last_Some_elem_of; done).
    destruct (IH b2) as (b3 & E3 & (O1 & O2 & O3) & L3 & W3 & F3); [done|done| |].
    { intros k Hk. destruct (HC k ltac:(by right)) as (Hka & Hkl & ok & Hko & Hku & Hkl'). assert (i ≠ k) by (intros ->; done).
      split_and!; [done|by rewrite Hb2, decide_False|]. exists ok. cbn. rewrite lookup_insert_ne by (intros E%(ptr_inj b Hops); done).
      by rewrite <-Hlast. }
    exists b3. split; [done|]. split; [by unfold only_lanes; rewrite O1, O2, O3|]. split_and!.
    + intros k. rewrite L3, Hb2. destruct (decide (i = k)) as [<-|Hk].
      * rewrite decide_False by done. rewrite decide_True by by left. by rewrite Hp.
      * destruct (decide (k ∈ j :: C)); [rewrite decide_True by by right|rewrite decide_False by (rewrite elem_of_cons; naive_solver)]; done.
    + intros k [->|Hk]%elem_of_cons; [|rewrite W3 by done; cbn; rewrite lookup_insert_ne; [done|]].
      * rewrite F3; [cbn; by rewrite lookup_insert_eq, Ho|]. apply (ptr_notin b Hops); [done| |done]. intros x Hx. by apply HC; right.
      * intros E%(ptr_inj b Hops); [by subst|done|by apply HC; right].
    + intros q Hq. rewrite (fmap_cons _ i), not_elem_of_cons in Hq. destruct Hq as [Hq1 Hq2]. rewrite F3 by done. cbn. by rewrite lookup_insert_ne by congruence.
Qed.

(** ** All packets, in any order *)

Section rounds.
Context (accs : list CoalescedAccess) (h0 : heap) (Haccs : atomics_ok b (active b) (accesses_made b) h0 accs) (M : Addr → Z).

Lemma packets_once : (∀ a, a ∈ accs → NoDup (activeLanes a)) ∧
  ∀ a a' i, a ∈ accs → a' ∈ accs → i ∈ activeLanes a → i ∈ activeLanes a' → a = a'.
Proof. apply concat_disjoint. rewrite (ak_perm _ _ _ _ _ Haccs). apply active_NoDup. Qed.

Lemma packet_facts a : a ∈ accs → packet_ok b (a_vaddr a) (a_size a) h0 a ∧ ∀ i, i ∈ activeLanes a → in_packet (a_vaddr a) i.
Proof.
  intros Ha. pose proof (ak_packets _ _ _ _ _ Haccs) as H. rewrite Forall_forall in H.
  destruct (H a Ha) as (addr & size & Hp & H0 & H1 & H2 & Hin). pose proof (pk_addr _ _ _ _ _ Hp) as E1. pose proof (pk_size _ _ _ _ _ Hp) as E2. rewrite E1, E2.
  split; [done|]. intros i Hi. specialize (Hin i Hi). split_and!; [by apply (pk_active _ _ _ _ _ Hp)|done|lia|lia].
Qed.

(** [D] are the packets performed so far. *)
Record a_inv (D : list CoalescedAccess) (s : WIB * Mem * bool) : Prop :=
  { ai_type : instructionType s.1.1 = ATOMIC_INST;
    ai_coalesced : ∀ a, a ∈ coalescedAccesses s.1.1 ↔ (a ∈ accs ∧ (a_no a ∉ nos D));
    ai_translated : translatedAccesses s.1.1 = [];
    ai_lanes : ∀ i, lane s.1.1 i = if decide (i ∈ concat (activeLanes <$> D)) then answered <$> lane b i else lane b i;
    ai_ops : ∀ i, i ∈ active b → i ∉ concat (activeLanes <$> D) → ops s.1.1 !! ptr i = h0 !! ptr i;
    ai_done : ∀ i, i ∈ concat (activeLanes <$> D) → ∃ old, (i, old) ∈ (one_by_one b (concat (activeLanes <$> D)) M).2 ∧
      word0 <$> (ops s.1.1 !! ptr i) = Some old;
    ai_mem : holds s.1.2 (one_by_one b (concat (activeLanes <$> D)) M).1;
    ai_flag : s.2 = true ↔ (D ≠ [] ∧ coalescedAccesses s.1.1 = []) }.

Lemma round_ok D s a : a_inv D s → (∀ d, d ∈ D → d ∈ accs) → a ∈ accs → a_no a ∉ nos D →
  (∀ i, i ∈ activeLanes a → i ∉ concat (activeLanes <$> D)) →
  ∃ s', atomic_round s a = Ok s' ∧ a_inv (D ++ [a]) s'.
Proof.
  destruct s as [[b1 m1] f1]. intros [H1 H2 H3 H4 H5 H6 H7 H8] HD Ha Hno Hnew. cbn [fst snd] in *.
  destruct (packet_facts a Ha) as [Hp Hin]. pose proof Hp as [_ _ Pc [Pd Pd'] Pne Pa Po].
  set (a' := ((a <| a_paddr := a_vaddr a |>) <| a_data := Ops (ptr <$> activeLanes a) |>) <| pktData := NoPayload |>).
  assert (Etr : translated_packet (a_vaddr a) a = Ok a').
  { unfold translated_packet, moveDataToPacket. cbn. rewrite Pc, Pd. reflexivity. }
  set (b2 := removeCoalesced a' (setTranslated a' b1)).
  assert (Hh : ∀ i, i ∈ activeLanes a → ops b1 !! ptr i = Some (placed b (a_vaddr a) (bool_decide (last (activeLanes a) = Some i)) i)).
  { intros i Hi. rewrite H5; [by apply Po|by apply Pa|by apply Hnew]. }
  destruct (perform_all_ok (a_vaddr a) (activeLanes a) (ops b1) m1 _ Pne (proj1 packets_once a Ha) Hin H7 Hh) as (h' & m' & Ep & Hm' & Hdone & Hfr).
  assert (Eat : atomicMemoryAccess SwapReq (a_vaddr a) (ptr <$> activeLanes a) (ops b1) m1 = Ok (SwapResp, h', m')).
  { unfold atomicMemoryAccess. destruct (activeLanes a) as [|i l] eqn:El; [done|]. rewrite fmap_cons. cbn [head mbind res_bind].
    unfold load_op. rewrite (Hh i) by by left. cbn [mbind res_bind].
    rewrite (valid_type (placed b (a_vaddr a) _ i)) by (destruct (Hops i) as (_ & _ & Hok); [apply Pa; by left|exact Hok]). cbn [mbind res_bind].
    rewrite assert_bind by done. rewrite fmap_cons in Ep. rewrite Ep. done. }
  destruct (finish_ops_ok (activeLanes a) (b2 <| ops := h' |>) Pne (proj1 packets_once a Ha)) as (b3 & Ef & (O1 & O2 & O3) & L3 & W3 & F3).
  { intros i Hi. destruct (Hdone i Hi) as (old & _ & Ho). split_and!; [by apply Pa| |].
    - etrans; [exact (H4 i)|]. by rewrite decide_False by by apply Hnew.
    - eexists. split; [exact Ho|]. split; [|done]. cbn. destruct (Hops i (Pa i Hi)) as (_ & ? & _). done. }
  assert (HT3 : remove_access a' (translatedAccesses b3) = []).
  { rewrite O2. cbn. rewrite H3. cbn. by rewrite Nat.eqb_refl. }
  assert (HC3 : coalescedAccesses b3 = remove_access a' (coalescedAccesses b1)) by (rewrite O1; done).
  eexists. split.
  - unfold atomic_round. rewrite Etr. cbn [mbind res_bind]. fold b2. change (a_data a') with (Ops (ptr <$> activeLanes a)). cbn [mbind res_bind].
    change (a_cmd a') with (a_cmd a). rewrite Pc. change (a_paddr a') with (a_vaddr a). change (ops b2) with (ops b1). rewrite Eat. cbn [mbind res_bind].
    unfold finishAccess. change (instructionType (b2 <| ops := h' |>)) with (instructionType b1). rewrite H1. rewrite bool_decide_eq_true_2 by done.
    change (a_data (a' <| a_cmd := SwapResp |>)) with (Ops (ptr <$> activeLanes a)). cbn [mbind res_bind].
    change (activeLanes (a' <| a_cmd := SwapResp |>)) with (activeLanes a). rewrite Ef. cbn [mbind res_bind]. reflexivity.
  - assert (Hconcat : concat (activeLanes <$> D ++ [a]) = concat (activeLanes <$> D) ++ activeLanes a)
      by (rewrite fmap_app, concat_app; cbn; by rewrite app_nil_r).
    assert (Hone : one_by_one b (concat (activeLanes <$> D ++ [a])) M =
      let r := one_by_one b (concat (activeLanes <$> D)) M in
      ((one_by_one b (activeLanes a) r.1).1, r.2 ++ (one_by_one b (activeLanes a) r.1).2)).
    { rewrite Hconcat, one_by_one_app. cbn. rewrite <-one_step_results. by destruct (one_by_one b (concat (activeLanes <$> D)) M). }
    constructor; cbn [fst snd removeTranslated set_field coalescedAccesses translatedAccesses instructionType laneRequestPkts ops].
    + etrans; [exact O3|]. exact H1.
    + intros x. cbn. rewrite HC3, remove_access_spec, H2, nos_snoc. cbn. tauto.
    + exact HT3.
    + intros i. etrans; [exact (L3 i)|]. rewrite Hconcat. change (lane (b2 <| ops := h' |>) i) with (lane b1 i). rewrite H4.
      destruct (decide (i ∈ activeLanes a)), (decide (i ∈ concat (activeLanes <$> D)));
        [rewrite decide_True by (rewrite elem_of_app; tauto)..|rewrite decide_False by (rewrite elem_of_app; tauto)]; done.
    + intros i Hi Hn. rewrite Hconcat, not_elem_of_app in Hn. destruct Hn as [Hn1 Hn2]. assert (ptr i ∉ (ptr <$> activeLanes a)) as Hq by (by apply (ptr_notin b Hops)).
      cbn. rewrite F3 by done. cbn. rewrite Hfr by done. by apply H5.
    + intros i Hi. rewrite Hone. cbn [fst snd]. rewrite Hconcat in Hi. apply elem_of_app in Hi as [Hi|Hi].
      * destruct (H6 i Hi) as (old & Ho & Hw). exists old. split; [apply elem_of_app; by left|].
        assert (Hin' : i ∉ activeLanes a) by (intros Hi'; by apply (Hnew i)).
        assert (Hia : i ∈ active b).
        { apply elem_of_concat_fmap in Hi as (d & Hd & Hid). destruct (packet_facts d (HD d Hd)) as [_ Hind]. by apply (Hind i). }
        assert (ptr i ∉ (ptr <$> activeLanes a)) as Hq by (by apply (ptr_notin b Hops)).
        cbn. rewrite F3 by done. cbn. rewrite Hfr by done. exact Hw.
      * destruct (Hdone i Hi) as (old & Ho & Hw). exists old. split; [apply elem_of_app; by right|]. cbn. rewrite W3 by done. cbn. by rewrite Hw.
    + by rewrite Hone.
    + rewrite bool_decide_eq_true. split; [intros [HC _]; split; [by destruct D|exact HC]|]. intros [_ HC]. split; [exact HC|exact HT3].
Qed.

Lemma rounds_ok F : ∀ D s, a_inv D s → (∀ d, d ∈ D ++ F → d ∈ accs) → NoDup (nos (D ++ F)) → NoDup (concat (activeLanes <$> D ++ F)) →
  ∃ s', foldM atomic_round s F = Ok s' ∧ a_inv (D ++ F) s'.
Proof.
  induction F as [|a F IH]; intros D s HI Hin Hno Hnd; [exists s; by rewrite app_nil_r|].
  assert (Hno' := Hno). unfold nos in Hno'. rewrite fmap_app in Hno'. apply NoDup_app in Hno' as (_ & Hno1 & _).
  assert (Hnd' := Hnd). rewrite fmap_app, concat_app in Hnd'. apply NoDup_app in Hnd' as (_ & Hnd1 & _).
  destruct (round_ok D s a HI) as (s1 & E1 & HI1).
  - intros d Hd. apply Hin, elem_of_app. by left.
  - apply Hin, elem_of_app. right. by left.
  - intros Hn. apply (Hno1 _ Hn). by left.
  - intros i Hi HiD. apply (Hnd1 _ HiD). cbn. apply elem_of_app. by left.
  - cbn [foldM]. rewrite E1. cbn [mbind res_bind]. destruct (IH (D ++ [a]) s1 HI1) as (s' & E' & HI'); rewrite <-?app_assoc; [done..|].
    exists s'. split; [done|]. by rewrite <-app_assoc in HI'.
Qed.
End rounds.
End packet.
End memory.

(** ** Order *)

(** A memory word and the results of its lanes depend on those lanes only. *)
Lemma one_by_one_filter b v L : ∀ M M', M v = M' v →
  (one_by_one b L M).1 v = (one_by_one b (List.filter (λ i, laddr b i =? v) L) M').1 v ∧
  List.filter (λ r, laddr b r.1 =? v) (one_by_one b L M).2 = (one_by_one b (List.filter (λ i, laddr b i =? v) L) M').2.
Proof.
  induction L as [|i L IH]; intros M M' HM; [done|]. unfold one_by_one in *. cbn [foldl List.filter].
  set (s1 := one_step b (M, []) i). assert (Hs1 : s1 = (s1.1, [(i, M (laddr b i))])) by done. rewrite Hs1, one_step_results. cbn [fst snd].
  rewrite List.filter_app. cbn [List.filter fst]. destruct (Z.eqb_spec (laddr b i) v) as [Ev|Ev].
  - cbn [foldl]. set (s1' := one_step b (M', []) i). assert (Hs1' : s1' = (s1'.1, [(i, M' (laddr b i))])) by done. rewrite Hs1', one_step_results. cbn [fst snd].
    assert (s1.1 v = s1'.1 v) as Hv by (cbn; rewrite Ev, Z.eqb_refl, HM; done). destruct (IH s1.1 s1'.1 Hv) as [IH1 IH2]. split; [exact IH1|].
    unfold one_by_one. rewrite IH2. by rewrite Ev, HM.
  - assert (s1.1 v = M' v) as Hv by (cbn; apply Z.eqb_neq in Ev; rewrite Z.eqb_sym, Ev; done). destruct (IH s1.1 M' Hv) as [IH1 IH2]. by split.
Qed.

(** Lanes in the same order at every address: the same outcome. *)
Lemma one_by_one_order b L L' M : (∀ v, List.filter (λ i, laddr b i =? v) L = List.filter (λ i, laddr b i =? v) L') →
  (∀ y, (one_by_one b L M).1 y = (one_by_one b L' M).1 y) ∧ ∀ i old, (i, old) ∈ (one_by_one b L M).2 → (i, old) ∈ (one_by_one b L' M).2.
Proof.
  intros H. split.
  - intros y. rewrite (proj1 (one_by_one_filter b y L M M eq_refl)), (proj1 (one_by_one_filter b y L' M M eq_refl)). by rewrite H.
  - intros i old Hin. assert (In (i, old) (List.filter (λ r, laddr b r.1 =? laddr b i) (one_by_one b L M).2)) as Hf
      by (apply List.filter_In; rewrite <-list_elem_of_In; cbn; by rewrite Z.eqb_refl).
    rewrite (proj2 (one_by_one_filter b _ L M M eq_refl)), H, <-(proj2 (one_by_one_filter b _ L' M M eq_refl)) in Hf.
    apply List.filter_In in Hf as [Hf _]. by apply list_elem_of_In.
Qed.

Lemma a_inv_start b m accs h : atomics_ok b (active b) (accesses_made b) h accs → instructionType b = ATOMIC_INST →
  coalescedAccesses b = [] → translatedAccesses b = [] →
  a_inv b accs h (word_at m) [] ((bst b accs h) <| state := COALESCED |>, m, false).
Proof.
  intros Ha Ht HC HT. constructor; cbn -[nos lane word_at]; rewrite ?HC, ?HT; cbn -[nos lane word_at]; try done; [|set_solver|set_solver].
  intros a. split; [|by intros [? _]]. intros Hin. split; [done|apply not_elem_of_nil].
Qed.

(** C11: coalescing the atomics of a warp never fails an assertion and puts every
    lane into one packet.  In whatever order the packets reach the memory, every
    step succeeds and the last one completes the instruction; the memory and the
    value each lane gets back are those of the lanes' operations performed one
    after the other, in the order of the packets - and, if the packets are served
    in the order they were made, in the order of the lanes. *)
Theorem warp_atomics_ok `{R : MemRange} b now m : warp_ok b → instructionType b = ATOMIC_INST → requestDataSize b = 4 → ops_ok b →
  (∀ i, i ∈ active b → range_start ≤ laddr b i ∧ laddr b i + 3 ≤ range_end) →
  state b = DISPATCHING → coalescedAccesses b = [] → translatedAccesses b = [] → active b ≠ [] →
  ∃ b1, coalesceMemRequests now b = Ok b1 ∧ concat (activeLanes <$> coalescedAccesses b1) ≡ₚ active b ∧
    ∀ F, F ≡ₚ coalescedAccesses b1 → ∃ b2 m2, foldM atomic_round (b1, m, false) F = Ok (b2, m2, true) ∧
      ∀ order, order = concat (activeLanes <$> F) ∨ (F = coalescedAccesses b1 ∧ order = active b) →
        let r := one_by_one b order (word_at m) in
        (∀ y, y mod 4 = 0 → word_at m2 y = r.1 y) ∧
        ∀ i p, lane b i = Some p → lane b2 i = Some (answered p) ∧
          ∃ old, (i, old) ∈ r.2 ∧ word0 <$> (ops b2 !! lptr b i) = Some old.
Proof.
  intros Hb Ht Hds Hops Hrange Hs HC HT Hact. set (b0 := b <| firstCycleTick := now |>). pose proof (warp_ok_tick b now Hb : warp_ok b0) as Hb0.
  destruct (coalesce_atomics b0 Hb0 Ht Hds Hops) as (accs & h & E & Haccs). exists ((bst b0 accs h) <| state := COALESCED |>).
  assert (EC : coalescedAccesses ((bst b0 accs h) <| state := COALESCED |>) = accs) by (cbn; by rewrite HC). rewrite EC. pose proof Haccs as [_ HP Hord Hnos]. split_and!.
  - unfold coalesceMemRequests. rewrite assert_bind by (by rewrite Hs). fold b0. by rewrite E.
  - exact HP.
  - intros F HF. destruct (rounds_ok b0 Hb0 Ht Hds Hops Hrange accs h Haccs (word_at m) F [] _ (a_inv_start b0 m accs h Haccs Ht HC HT)) as ([[b2 m2] f] & Er & HI).
    { intros d Hd. by rewrite HF in Hd. }
    { unfold nos. cbn [app]. rewrite HF, Hnos. apply NoDup_ListNoDup, List.seq_NoDup. }
    { cbn [app]. rewrite HF, HP. apply active_NoDup. }
    destruct HI as [_ I2 _ I4 _ I6 I7 I8]. cbn [app fst snd] in *. assert (f = true) as ->.
    { apply I8. split; [intros ->; apply Permutation_nil_l in HF; subst accs; apply Permutation_nil_l in HP; by apply Hact|].
      apply elem_of_nil_inv. intros a [Ha Hn]%I2. apply Hn, in_nos. by rewrite HF. }
    exists b2, m2. split; [exact Er|]. clear Er. intros order Horder.
    assert (Hord' : ∀ v, List.filter (λ i, laddr b0 i =? v) (concat (activeLanes <$> F)) = List.filter (λ i, laddr b0 i =? v) order)
      by (destruct Horder as [->|[-> ->]]; [done|exact Hord]).
    destruct (one_by_one_order b0 _ _ (word_at m) Hord') as [O1 O2]. split.
    + intros y Hy. rewrite (I7 y Hy). exact (O1 y).
    + intros i p Hp. assert (Hi : i ∈ concat (activeLanes <$> F)) by (rewrite HF, HP; apply (active_elem b0 Hb0); by exists p).
      destruct (I6 i Hi) as (old & Ho & Hw). split; [rewrite I4, decide_True by done; change (lane b0 i) with (lane b i); by rewrite Hp|].
      exists old. split; [exact (O2 i old Ho)|exact Hw].
Qed.

(** Atomic additions of 5, 6 and 7 by lanes 0 to 2, the first two to the same
    word, which holds 100. *)
Definition ex_lane (a : Addr) (q : nat) : option lane_pkt := Some (mkLane ReadReq a 4 true 0 0 0 false (Atomic q)).
Definition ex_op (i : nat) (v : Z) : AtomicOpRequest := mkAtomic i U32_TYPE ATOMIC_ADD_OP 0 true v 0.
Definition ex_atomics : WIB :=
  mkWIB 0 32 1 DISPATCHING ATOMIC_INST 4 0 0 0 0 ([ex_lane 96 7; ex_lane 96 8; ex_lane 224 9] ++ replicate 29 None) 0 false [] [] 0
    (<[7%nat := ex_op 0 5]> (<[8%nat := ex_op 1 6]> (<[9%nat := ex_op 2 7]> ∅))).
Definition ex_mem : Mem := write_bytes 96 (le_bytes 4 100) new_mem.

Lemma ex_atomics_ok : warp_ok ex_atomics ∧ ops_ok ex_atomics.
Proof.
  split.
  - constructor; [done|done|done|cbn; set_solver|unfold size_ok; cbn; set_solver|].
    intros i p Hp. do 3 (destruct i as [|i]; [injection Hp as <-; repeat split; done|]). exfalso. unfold lane in Hp. cbn in Hp.
    do 29 (destruct i as [|i]; [done|]). done.
  - intros i Hi. assert (active ex_atomics = [0; 1; 2]%nat) as Ea by (vm_compute; reflexivity). rewrite Ea in Hi.
    rewrite !elem_of_cons, elem_of_nil in Hi. destruct Hi as [-> | [-> | [-> | []]]]; (split; [vm_compute; by eexists|]); (split; [vm_compute; reflexivity|]); intros w; by eexists.
Qed.

Lemma warp_atomics_ok_witness : let R := {| range_start := 0; range_end := 1000 |} in
  ∃ b1, coalesceMemRequests 0 ex_atomics = Ok b1 ∧
    ∃ b2 m2, foldM atomic_round (b1, ex_mem, false) (coalescedAccesses b1) = Ok (b2, m2, true) ∧
      word_at m2 96 = 111 ∧ word_at m2 224 = 7 ∧ word0 <$> (ops b2 !! 8%nat) = Some 105.
Proof.
  intros R. destruct ex_atomics_ok as [Hb Hops].
  destruct (warp_atomics_ok ex_atomics 0 ex_mem Hb eq_refl eq_refl Hops) as (b1 & E & _ & H); [|done..|].
  { intros i Hi. assert (active ex_atomics = [0; 1; 2]%nat) as Ea by (vm_compute; reflexivity). rewrite Ea in Hi.
    rewrite !elem_of_cons, elem_of_nil in Hi. cbn. destruct Hi as [-> | [-> | [-> | []]]]; vm_compute; split; discriminate. }
  exists b1. split; [exact E|]. destruct (H (coalescedAccesses b1) (Permutation_refl _)) as (b2 & m2 & Er & Hr). exists b2, m2. split; [exact Er|].
  destruct (Hr (active ex_atomics) ltac:(right; done)) as [Hm Hl]. rewrite !Hm by done.
  split; [vm_compute; reflexivity|]. split; [vm_compute; reflexivity|].
  destruct (Hl 1%nat _ eq_refl) as (_ & old & Ho & Hw). change (lptr ex_atomics 1) with 8%nat in Hw. rewrite Hw. f_equal.
  assert ((one_by_one ex_atomics (active ex_atomics) (word_at ex_mem)).2 = [(0%nat, 100); (1%nat, 105); (2%nat, 0)]) as Ev by (vm_compute; reflexivity).
  rewrite Ev in Ho. rewrite !elem_of_cons, elem_of_nil in Ho. naive_solver.
Defined.
End WarpAtomics.
