(* ===== verification/GpuPageTable.v ===== *)
(** * Memory of the GPU (gem5-gpu/src/gpu/gpgpu-sim/cuda_gpu.hh, cuda_gpu.cc,
      gem5/src/base/chunk_generator.hh)

    A GPU that manages its own memory hands out virtual ranges one after the other
    and maps their pages to its physical range; otherwise the pages of the process
    are registered with their physical addresses. *)

From S2P Require Import Prelude Intmath.
Import Intmath.

Module GpuPageTable.

(** [TheISA::PageBytes] of x86. *)
Definition PageBytes : Z := 4096.

(** ** Chunks *)

Record ChunkGenerator := mkGen { curAddr : Addr; nextAddr : Addr; curSize : Z; sizeLeft : Z; chunkSize : Z }.

(** [roundUp(val, align)] on addresses. *)
Definition roundUp (val align : Z) : Addr := Z.ldiff (u64 (val + (align - 1))) (align - 1).

(** The sizes are [unsigned]: a larger [totalSize] is cut to 32 bits. *)
Definition new_gen (start totalSize chunk : Z) : res ChunkGenerator :=
  assert ((chunk =? 0) || isPowerOf2 chunk) "chunkSize == 0 || isPowerOf2(chunkSize)";;
  let totalSize := u32 totalSize in
  let next :=
    if chunk =? 0 then u64 (start + totalSize)
    else
      let next := roundUp start chunk in
      if start =? next then u64 (next + chunk) else next in
  let left_in_chunk := u32 (sub64 next start) in
  let cur := Z.min totalSize left_in_chunk in
  Ok (mkGen start next cur (totalSize - cur) chunk).

Definition gen_done (g : ChunkGenerator) : bool := curSize g =? 0.
Definition gen_next (g : ChunkGenerator) : ChunkGenerator :=
  if sizeLeft g =? 0 then mkGen (curAddr g) (nextAddr g) 0 (sizeLeft g) (chunkSize g)
  else
    let cur := Z.min (sizeLeft g) (chunkSize g) in
    mkGen (nextAddr g) (u64 (nextAddr g + cur)) cur (sizeLeft g - cur) (chunkSize g).

(** The addresses a loop [for (; !gen.done(); gen.next())] goes through. *)
Fixpoint gen_addrs (fuel : nat) (g : ChunkGenerator) : res (list Addr) :=
  if gen_done g then Ok []
  else match fuel with
       | O => Fault (Panic "out of fuel")
       | S fuel => l ← gen_addrs fuel (gen_next g); Ok (curAddr g :: l)
       end.

(** ** The page table *)

Definition addrToPage (a : Addr) : Addr := a - a mod PageBytes.

Definition insert (vaddr paddr : Addr) (pageMap : gmap Addr Addr) : res (gmap Addr Addr) :=
  match pageMap !! vaddr with
  | None => Ok (<[vaddr := paddr]> pageMap)
  | Some p => assert (paddr =? p) "paddr == pageMap[vaddr]";; Ok pageMap
  end.

Definition lookup (vaddr : Addr) (pageMap : gmap Addr Addr) : option Addr :=
  (λ p, p + (vaddr - addrToPage vaddr)) <$> pageMap !! addrToPage vaddr.

(** ** The GPU's memory *)

Record GPUMem := mkGPUMem { pageMap : gmap Addr Addr; physicalGPUBrkAddr : Addr; virtualGPUBrkAddr : Addr }.
#[export] Instance eta_GPUMem : Eta GPUMem := λ g, mkGPUMem (pageMap g) (physicalGPUBrkAddr g) (virtualGPUBrkAddr g).

Section memory.
Variables (manageGPUMemory accessHostPageTable : bool) (range_start range_size blockSize : Z).

(** The first virtual page is left out, for null pointers. *)
Definition new_gpu_mem : GPUMem := mkGPUMem ∅ range_start PageBytes.

Definition loop_fuel (size : Z) : nat := S (Z.to_nat (u32 size)).

(** The pages of a range of memory of the process, with the translation of the CPU. *)
Definition registerDeviceMemory (translate : Addr → Addr) (vaddr size : Z) (g : GPUMem) : res GPUMem :=
  if manageGPUMemory || accessHostPageTable then Ok g
  else
    gen ← new_gen vaddr size PageBytes;
    addrs ← gen_addrs (loop_fuel size) gen;
    pages ← foldM (λ m a, insert (addrToPage a) (translate (addrToPage a)) m) (pageMap g) addrs;
    Ok (g <| pageMap := pages |>).

Definition map_page (base_vaddr base_paddr : Addr) (m : gmap Addr Addr) (a : Addr) : res (gmap Addr Addr) :=
  let page_vaddr := addrToPage a in
  let page_paddr :=
    if page_vaddr <=? base_vaddr then u64 (base_paddr - (base_vaddr - page_vaddr))
    else u64 (base_paddr + (page_vaddr - base_vaddr)) in
  insert page_vaddr page_paddr m.

Definition allocateGPUMemory (size : Z) (g : GPUMem) : res (Addr * GPUMem) :=
  assert manageGPUMemory "manageGPUMemory";;
  if size =? 0 then Ok (0, g)
  else
    let block_part := size mod blockSize in
    let aligned_size := u64 (size + (if block_part =? 0 then 0 else blockSize - block_part)) in
    let base_vaddr := virtualGPUBrkAddr g in
    let base_paddr := physicalGPUBrkAddr g in
    let g := (g <| virtualGPUBrkAddr := u64 (base_vaddr + aligned_size) |>)
               <| physicalGPUBrkAddr := u64 (base_paddr + aligned_size) |> in
    if range_size <? virtualGPUBrkAddr g then Fault (Panic "Ran out of GPU memory!")
    else
      gen ← new_gen base_vaddr aligned_size PageBytes;
      addrs ← gen_addrs (loop_fuel aligned_size) gen;
      pages ← foldM (map_page base_vaddr base_paddr) (pageMap g) addrs;
      Ok (base_vaddr, g <| pageMap := pages |>).
End memory.

(** ** The loop over the chunks *)

(** The chunk at hand starts at [a], and [n] bytes are left with it. *)
Record gen_ok (g : ChunkGenerator) (a n : Z) : Prop :=
  { go_addr : curAddr g = a ∧ 0 ≤ a ∧ a + n < 2 ^ 64;
    go_chunk : chunkSize g = PageBytes;
    go_size : 0 < curSize g ∧ 0 ≤ sizeLeft g ∧ curSize g + sizeLeft g = n;
    go_page : addrToPage (a + curSize g - 1) = addrToPage a;
    go_next : 0 < sizeLeft g → nextAddr g = a + curSize g ∧ (a + curSize g) mod PageBytes = 0 }.

Lemma page_le a : addrToPage a ≤ a < addrToPage a + PageBytes.
Proof. unfold addrToPage, PageBytes. pose proof (Z.mod_pos_bound a 4096 ltac:(done)). lia. Qed.

Lemma page_eq a : addrToPage a = PageBytes * (a / PageBytes).
Proof. unfold addrToPage. pose proof (Z.div_mod a PageBytes ltac:(done)). lia. Qed.

Lemma page_of_start a x : a mod PageBytes = 0 → a ≤ x < a + PageBytes → addrToPage x = a.
Proof. unfold addrToPage, PageBytes. intros Ha Hx. Z.to_euclidean_division_equations; lia. Qed.

Lemma page_between a x y : addrToPage y = addrToPage a → a ≤ x ≤ y → addrToPage x = addrToPage a.
Proof.
  rewrite !page_eq. intros H Hx. pose proof (Z.div_le_mono a x PageBytes ltac:(done) ltac:(lia)).
  pose proof (Z.div_le_mono x y PageBytes ltac:(done) ltac:(lia)). unfold PageBytes in *. lia.
Qed.

Lemma roundUp_eq a : 0 ≤ a → a + PageBytes ≤ 2 ^ 64 → roundUp a PageBytes = PageBytes * ((a + (PageBytes - 1)) / PageBytes).
Proof.
  intros H1 H2. unfold roundUp, PageBytes in *. rewrite u64_small by lia. change (4096 - 1) with (Z.ones 12).
  rewrite Z.ldiff_ones_r, Z.shiftl_mul_pow2, Z.shiftr_div_pow2 by lia. apply Z.mul_comm.
Qed.

Lemma new_gen_ok a n : 0 ≤ a → 0 < n < 2 ^ 32 → a + n + 2 * PageBytes < 2 ^ 64 → ∃ g, new_gen a n PageBytes = Ok g ∧ gen_ok g a n.
Proof.
  intros Ha Hn Hm. unfold new_gen. rewrite assert_bind by done. rewrite (u32_small n) by lia. rewrite roundUp_eq by (unfold PageBytes in *; lia).
  change (PageBytes =? 0) with false. cbn [mbind res_bind].
  set (nx := if a =? PageBytes * ((a + (PageBytes - 1)) / PageBytes) then u64 (PageBytes * ((a + (PageBytes - 1)) / PageBytes) + PageBytes)
             else PageBytes * ((a + (PageBytes - 1)) / PageBytes)).
  assert (nx = addrToPage a + PageBytes) as ->.
  { unfold nx, addrToPage, PageBytes in *. destruct (Z.eqb_spec a (4096 * ((a + (4096 - 1)) / 4096))) as [E|E].
    - rewrite u64_small by lia. Z.to_euclidean_division_equations; lia.
    - Z.to_euclidean_division_equations; lia. }
  pose proof (page_le a). unfold PageBytes in *. rewrite sub64_small by lia. rewrite u32_small by lia. eexists. split; [reflexivity|].
  constructor; cbn -[addrToPage]; [lia|done|lia| |].
  - apply page_of_start; [unfold addrToPage, PageBytes; Z.to_euclidean_division_equations; lia|unfold PageBytes; lia].
  - intros Hs. split; [lia|]. replace (a + Z.min n (addrToPage a + 4096 - a)) with (addrToPage a + 4096) by lia.
    unfold addrToPage, PageBytes. Z.to_euclidean_division_equations; lia.
Qed.

Lemma gen_next_ok g a n : gen_ok g a n → 0 < sizeLeft g →
  gen_ok (gen_next g) (a + curSize g) (n - curSize g) ∧ sizeLeft (gen_next g) < sizeLeft g ∧ curAddr g = a.
Proof.
  intros [[H1 [H1a H1b]] H2 [H3a [H3b H3c]] H4 H5] Hs. destruct (H5 Hs) as [Hn Ha]. unfold gen_next. destruct (Z.eqb_spec (sizeLeft g) 0); [lia|].
  rewrite H2, Hn. unfold PageBytes in *. rewrite u64_small by lia. split_and!; [|cbn; lia|done]. constructor; cbn -[addrToPage]; [lia|done|lia| |].
  - rewrite (page_of_start (a + curSize g)) by (unfold PageBytes; lia). symmetry. apply page_of_start; [done|unfold PageBytes; lia].
  - unfold PageBytes. intros Hl. split; [done|]. replace (Z.min (sizeLeft g) 4096) with 4096 by lia. by rewrite Z.add_mod, Ha by done.
Qed.

Lemma gen_addrs_ok fuel g a n : gen_ok g a n → (Z.to_nat (sizeLeft g) < fuel)%nat →
  ∃ l, gen_addrs fuel g = Ok l ∧ (∀ x, x ∈ l → a ≤ x < a + n) ∧ ∀ v, a ≤ v < a + n → ∃ x, x ∈ l ∧ addrToPage x = addrToPage v.
Proof.
  revert g a n. induction fuel as [|fuel IH]; intros g a n Hg Hf; [lia|]. pose proof Hg as [[H1 _] H2 [H3a [H3b H3c]] H4 H5].
  cbn [gen_addrs]. unfold gen_done. destruct (Z.eqb_spec (curSize g) 0); [lia|].
  assert (Hcur : ∀ v, a ≤ v < a + curSize g → addrToPage v = addrToPage a) by (intros v Hv; eapply page_between; [exact H4|lia]).
  destruct (decide (0 < sizeLeft g)) as [Hs|Hs].
  - destruct (gen_next_ok g a n Hg Hs) as (Hg' & Hlt & _). destruct (IH (gen_next g) _ _ Hg' ltac:(lia)) as (l & -> & Hin & Hcov).
    exists (a :: l). rewrite H1. split_and!; [done| |].
    + intros x [->|Hx]%elem_of_cons; [lia|]. specialize (Hin x Hx). lia.
    + intros v Hv. destruct (Z.lt_ge_cases v (a + curSize g)); [exists a; split; [by left|symmetry; apply Hcur; lia]|].
      destruct (Hcov v ltac:(lia)) as (x & Hx & ?). exists x. split; [by right|done].
  - assert (gen_next g = mkGen (curAddr g) (nextAddr g) 0 (sizeLeft g) (chunkSize g)) as ->.
    { unfold gen_next. destruct (Z.eqb_spec (sizeLeft g) 0); [done|lia]. }
    exists [a]. destruct fuel; cbn; rewrite H1; (split; [done|]); (split; [intros x ->%list_elem_of_singleton; lia|]);
      intros v Hv; exists a; (split; [by left|symmetry; apply Hcur; lia]).
Qed.

(** ** Allocation *)

Section alloc.
Context (range_start range_size blockSize : Z).
Context (Hstart : 0 ≤ range_start) (Hblock : 0 < blockSize) (Hrange : range_start + range_size < 2 ^ 63).
Abbreviation alloc := (allocateGPUMemory true range_size blockSize).

(** What a size is rounded up to. *)
Definition rounded (size : Z) : Z := size + (if size mod blockSize =? 0 then 0 else blockSize - size mod blockSize).

(** Virtual and physical addresses stay at the same distance. *)
Definition phys (v : Addr) : Addr := v + range_start - PageBytes.

(** Every page that was handed out is mapped, all of them at that distance. *)
Record gpu_mem_ok (g : GPUMem) : Prop :=
  { gm_brk : PageBytes ≤ virtualGPUBrkAddr g ≤ Z.max PageBytes range_size ∧ physicalGPUBrkAddr g = phys (virtualGPUBrkAddr g);
    gm_pages : ∀ p q, pageMap g !! p = Some q → q = phys p;
    gm_mapped : ∀ v, PageBytes ≤ v < virtualGPUBrkAddr g → is_Some (pageMap g !! addrToPage v) }.

Lemma page_insert_ok p (m : gmap Addr Addr) : (∀ p q, m !! p = Some q → q = phys p) →
  ∃ m', insert p (phys p) m = Ok m' ∧ (∀ p q, m' !! p = Some q → q = phys p) ∧ is_Some (m' !! p) ∧ ∀ p', is_Some (m !! p') → is_Some (m' !! p').
Proof.
  intros H. unfold insert. destruct (m !! p) as [q|] eqn:E.
  - rewrite assert_bind by (rewrite (H p q E); apply Z.eqb_refl). exists m. split_and!; [done|done|by eexists|done].
  - eexists. split_and!; [reflexivity| |by rewrite lookup_insert_eq|].
    + intros p' q'. destruct (decide (p = p')) as [<-|]; [rewrite lookup_insert_eq; congruence|rewrite lookup_insert_ne by done; apply H].
    + intros p' Hp'. destruct (decide (p = p')) as [<-|]; [by rewrite lookup_insert_eq|by rewrite lookup_insert_ne].
Qed.

Lemma map_pages_ok base l : PageBytes ≤ base → ∀ m : gmap Addr Addr, (∀ x, x ∈ l → base ≤ x ∧ phys x < 2 ^ 64) → (∀ p q, m !! p = Some q → q = phys p) →
  ∃ m', foldM (map_page base (phys base)) m l = Ok m' ∧ (∀ p q, m' !! p = Some q → q = phys p) ∧
    (∀ x, x ∈ l → is_Some (m' !! addrToPage x)) ∧ ∀ p, is_Some (m !! p) → is_Some (m' !! p).
Proof.
  intros Hbase. induction l as [|x l IH]; intros m Hl Hm; [exists m; split_and!; [done|done|set_solver|done]|].
  destruct (Hl x ltac:(by left)) as [Hx1 Hx2]. destruct (page_insert_ok (addrToPage x) m Hm) as (m1 & E1 & H1 & Hs1 & Hk1).
  assert (map_page base (phys base) m x = Ok m1) as E.
  { unfold map_page. rewrite <-E1. pose proof (page_le x). unfold PageBytes in *.
    assert (4096 ≤ addrToPage x) by (unfold addrToPage, PageBytes; Z.to_euclidean_division_equations; lia).
    f_equal. unfold phys, PageBytes in *. destruct (addrToPage x <=? base); rewrite u64_small by lia; lia. }
  cbn [foldM]. rewrite E. cbn [mbind res_bind]. destruct (IH m1) as (m' & -> & H' & Hs' & Hk'); [intros y Hy; apply Hl; by right|done|].
  exists m'. split_and!; [done|done| |auto]. intros y [->|Hy]%elem_of_cons; [by apply Hk'|by apply Hs'].
Qed.

Lemma gpu_allocate_ok g size : gpu_mem_ok g → 0 < size → rounded size < 2 ^ 32 →
  virtualGPUBrkAddr g + rounded size ≤ range_size →
  ∃ g', alloc size g = Ok (virtualGPUBrkAddr g, g') ∧ gpu_mem_ok g' ∧ virtualGPUBrkAddr g' = virtualGPUBrkAddr g + rounded size.
Proof.
  intros [[Hb1 Hb2] Hp Hm] Hs Hr Hfit. set (v := virtualGPUBrkAddr g) in *. unfold PageBytes in *.
  assert (size ≤ rounded size) as Hle.
  { unfold rounded. pose proof (Z.mod_pos_bound size blockSize Hblock). destruct (_ =? 0); lia. }
  unfold allocateGPUMemory. cbn [mbind res_bind assert]. destruct (Z.eqb_spec size 0); [lia|]. fold (rounded size).
  rewrite (u64_small (rounded size)) by lia. cbn -[gen_addrs new_gen loop_fuel rounded foldM]. fold v. rewrite (u64_small (v + rounded size)) by lia. destruct (Z.ltb_spec range_size (v + rounded size)); [lia|].
  destruct (new_gen_ok v (rounded size)) as (gen & -> & Hg); [lia|lia|unfold PageBytes; lia|]. cbn [mbind res_bind].
  destruct (gen_addrs_ok (loop_fuel (rounded size)) gen v (rounded size) Hg) as (l & -> & Hin & Hcov).
  { unfold loop_fuel. rewrite u32_small by lia. pose proof (go_size _ _ _ Hg). lia. }
  cbn [mbind res_bind]. rewrite Hb2. destruct (map_pages_ok v l ltac:(unfold PageBytes; lia) (pageMap g)) as (m' & -> & P1 & P2 & P3); [|done|].
  { intros x Hx. specialize (Hin x Hx). unfold phys, PageBytes. lia. }
  eexists. split; [reflexivity|]. split; [|done]. constructor; cbn.
  - split; [unfold PageBytes; lia|]. unfold phys, PageBytes. rewrite u64_small; lia.
  - exact P1.
  - unfold PageBytes. intros x Hx. destruct (Z.lt_ge_cases x v); [apply P3, Hm; lia|]. destruct (Hcov x ltac:(lia)) as (y & Hy & <-). by apply P2.
Qed.

(** Allocations one after the other, with what they return. *)
Definition alloc_step (s : GPUMem * list (Addr * Z)) (size : Z) : res (GPUMem * list (Addr * Z)) :=
  ag ← alloc size s.1; Ok (ag.2, s.2 ++ [(ag.1, size)]).

Definition total (sizes : list Z) : Z := foldr (λ s t, rounded s + t) 0 sizes.

Lemma allocs_ok sizes : ∀ g done, gpu_mem_ok g → Forall (λ s, 0 < s ∧ rounded s < 2 ^ 32) sizes →
  virtualGPUBrkAddr g + total sizes ≤ range_size →
  StronglySorted (λ x y : Addr * Z, x.1 + x.2 ≤ y.1) done → Forall (λ x : Addr * Z, PageBytes ≤ x.1 ∧ 0 < x.2 ∧ x.1 + x.2 ≤ virtualGPUBrkAddr g) done →
  ∃ g' new, foldM alloc_step (g, done) sizes = Ok (g', done ++ new) ∧ snd <$> new = sizes ∧ gpu_mem_ok g' ∧ virtualGPUBrkAddr g' ≤ Z.max range_size PageBytes ∧
    StronglySorted (λ x y : Addr * Z, x.1 + x.2 ≤ y.1) (done ++ new) ∧
    Forall (λ x : Addr * Z, PageBytes ≤ x.1 ∧ 0 < x.2 ∧ x.1 + x.2 ≤ virtualGPUBrkAddr g') (done ++ new).
Proof.
  induction sizes as [|s sizes IH]; intros g done Hg Hs Hfit Hsort Hin.
  { exists g, []. rewrite app_nil_r. split_and!; try done. pose proof (gm_brk g Hg). lia. }
  apply Forall_cons in Hs as [[Hs1 Hs2] Hs]. cbn [total foldr] in Hfit. fold (total sizes) in Hfit.
  assert (Ht : ∀ l, Forall (λ s, 0 < s ∧ rounded s < 2 ^ 32) l → 0 ≤ total l).
  { clear -Hblock. intros l H. induction H as [|s l [? ?] H IH]; cbn; [lia|]. fold (total l). unfold rounded.
    pose proof (Z.mod_pos_bound s blockSize Hblock). destruct (_ =? 0); lia. }
  pose proof (Ht sizes Hs) as Ht0. destruct (gpu_allocate_ok g s Hg Hs1 Hs2 ltac:(lia)) as (g1 & E1 & Hg1 & Hv1).
  assert (Hle : s ≤ rounded s) by (unfold rounded; pose proof (Z.mod_pos_bound s blockSize Hblock); destruct (_ =? 0); lia).
  destruct (IH g1 (done ++ [(virtualGPUBrkAddr g, s)]) Hg1 Hs ltac:(lia)) as (g' & new & E' & Hn & Hg' & Hv' & Hs' & Hi').
  - apply StronglySorted_app. split_and!; [|done|repeat constructor]. intros x y Hx ->%list_elem_of_singleton. cbn.
    rewrite Forall_forall in Hin. by destruct (Hin x Hx) as (_ & _ & ?).
  - apply Forall_app. split; [eapply Forall_impl; [exact Hin|]; cbn; intros x ?; lia|]. constructor; [|done]. cbn. pose proof (gm_brk g Hg). lia.
  - exists g', ((virtualGPUBrkAddr g, s) :: new). cbn [foldM].
    assert (alloc_step (g, done) s = Ok (g1, done ++ [(virtualGPUBrkAddr g, s)])) as -> by (unfold alloc_step; cbn [fst]; by rewrite E1).
    cbn [mbind res_bind].
    rewrite <-app_assoc in E', Hs', Hi'. split_and!; try done. cbn. by rewrite <-Hn.
Qed.
End alloc.

(** C28: as long as the memory of the GPU is large enough, every allocation
    succeeds; the ranges handed out do not overlap and leave out the null page, and
    the page table translates each of their bytes to the byte at the same distance
    from the start of the GPU's physical memory, inside it.  An allocation that
    does not fit stops the simulation. *)
Theorem gpu_memory_ok range_start range_size blockSize sizes :
  0 ≤ range_start → 0 < blockSize → range_start + range_size < 2 ^ 63 →
  Forall (λ s, 0 < s ∧ rounded blockSize s < 2 ^ 32) sizes → PageBytes + total blockSize sizes ≤ range_size →
  ∃ g allocs, foldM (alloc_step range_size blockSize) (new_gpu_mem range_start, []) sizes = Ok (g, allocs) ∧
    snd <$> allocs = sizes ∧ StronglySorted (λ x y : Addr * Z, x.1 + x.2 ≤ y.1) allocs ∧
    (∀ x v, x ∈ allocs → x.1 ≤ v < x.1 + x.2 → PageBytes ≤ v ∧
      lookup v (pageMap g) = Some (range_start + (v - PageBytes)) ∧ v - PageBytes < range_size) ∧
    ∀ size, 0 < size → rounded blockSize size < 2 ^ 32 → range_size < virtualGPUBrkAddr g + rounded blockSize size →
      allocateGPUMemory true range_size blockSize size g = Fault (Panic "Ran out of GPU memory!").
Proof.
  intros H0 Hb Hr Hs Hfit.
  destruct (allocs_ok range_start range_size blockSize H0 Hb Hr sizes (new_gpu_mem range_start) []) as (g & new & E & Hn & Hg & Hv & Hsort & Hin).
  { constructor; cbn; [unfold phys; lia|intros p q; by rewrite lookup_empty|intros v; lia]. }
  { done. } { done. } { constructor. } { constructor. }
  exists g, new. cbn [app] in *. pose proof Hg as [[Hb1 Hb2] Hp Hm]. split_and!; [done|done|done| |].
  - intros x v Hx Hvx. rewrite Forall_forall in Hin. destruct (Hin x Hx) as (? & ? & ?). split_and!; [lia| |unfold PageBytes in *; lia].
    destruct (Hm v ltac:(lia)) as [q Hq]. unfold lookup. rewrite Hq. cbn. f_equal. rewrite (Hp _ _ Hq). unfold phys. lia.
  - intros size Hsz Hr32 Hbig. unfold allocateGPUMemory. cbn [mbind res_bind assert]. destruct (Z.eqb_spec size 0); [lia|]. fold (rounded blockSize size).
    assert (0 ≤ rounded blockSize size) by (unfold rounded; pose proof (Z.mod_pos_bound size blockSize Hb); destruct (_ =? 0); lia).
    unfold PageBytes in *. rewrite (u64_small (rounded blockSize size)) by lia. cbn -[gen_addrs new_gen loop_fuel rounded foldM].
    rewrite u64_small by lia. destruct (Z.ltb_spec range_size (virtualGPUBrkAddr g + rounded blockSize size)); [done|lia].
Qed.

(** Three allocations in lines of 128 bytes, in 64 KB of GPU memory at 1 GB. *)
Lemma gpu_memory_ok_witness :
  ∃ g allocs, foldM (alloc_step 65536 128) (new_gpu_mem (2 ^ 30), []) [100; 9000; 4096] = Ok (g, allocs) ∧
    allocs = [(4096, 100); (4224, 9000); (13312, 4096)] ∧ lookup 13000 (pageMap g) = Some (2 ^ 30 + 8904).
Proof.
  destruct (gpu_memory_ok (2 ^ 30) 65536 128 [100; 9000; 4096]) as (g & allocs & E & _ & _ & H & _); [lia|lia|unfold PageBytes; lia|by repeat constructor|by vm_compute|].
  exists g, allocs. split; [exact E|].
  assert (allocs = [(4096, 100); (4224, 9000); (13312, 4096)]) as ->.
  { assert (snd <$> foldM (alloc_step 65536 128) (new_gpu_mem (2 ^ 30), []) [100; 9000; 4096] = Ok [(4096, 100); (4224, 9000); (13312, 4096)]) as E'
      by (vm_compute; reflexivity). rewrite E in E'. cbn in E'. by injection E'. }
  split; [done|]. destruct (H (4224, 9000) 13000) as (_ & -> & _); [right; by left|cbn; lia|done].
Defined.
End GpuPageTable.
