(* ===== verification/ShaderTLB.v ===== *)
(** * TLBs of the GPU (gem5-gpu/src/gpu/shader_tlb.hh, shader_tlb.cc)

    A TLB memory is set-associative with a least-recently-used replacement, or
    unbounded.  In the code [sets] is the number of entries of a set and [ways] the
    number of sets.  Time is an argument of the operations that read it. *)

From S2P Require Import Prelude GpuPageTable.
Import GpuPageTable.

Module ShaderTLB.

Record GPUTlbEntry := mkEntry { vpBase : Addr; ppBase : Addr; free : bool; mruTick : Tick; e_hits : Z }.
#[export] Instance eta_GPUTlbEntry : Eta GPUTlbEntry := λ e, mkEntry (vpBase e) (ppBase e) (free e) (mruTick e) (e_hits e).

Definition new_entry : GPUTlbEntry := mkEntry 0 0 true 0 0.
Definition setMRU (now : Tick) (e : GPUTlbEntry) : GPUTlbEntry := e <| mruTick := now |>.

Record TLBMemory := mkTLB { sets : Z; ways : Z; entries : list (list GPUTlbEntry) }.
#[export] Instance eta_TLBMemory : Eta TLBMemory := λ t, mkTLB (sets t) (ways t) (entries t).

Definition new_tlb (numEntries associativity : Z) : res TLBMemory :=
  let sets := if associativity =? 0 then numEntries else associativity in
  assert (numEntries mod sets =? 0) "numEntries % sets == 0";;
  let ways := numEntries / sets in
  Ok (mkTLB sets ways (replicate (Z.to_nat ways) (replicate (Z.to_nat sets) new_entry))).

Definition way_of (t : TLBMemory) (vp_base : Addr) : nat := Z.to_nat (vp_base / PageBytes mod ways t).
Definition set_of (t : TLBMemory) (vp_base : Addr) : list GPUTlbEntry := default [] (entries t !! way_of t vp_base).
Definition upd_set (vp_base : Addr) (f : list GPUTlbEntry → list GPUTlbEntry) (t : TLBMemory) : TLBMemory :=
  t <| entries ::= alter f (way_of t vp_base) |>.

Definition matches (vp_base : Addr) (e : GPUTlbEntry) : bool := (vpBase e =? vp_base) && negb (free e).

(** [TLBMemory::lookup]. *)
Definition lookup (now : Tick) (vp_base : Addr) (set_mru : bool) (t : TLBMemory) : res (option Addr * TLBMemory) :=
  let s := set_of t vp_base in
  match first_index (matches vp_base) s with
  | None => Ok (None, t)
  | Some i =>
      let e := default new_entry (s !! i) in
      assert (0 <? mruTick e) "entries[way][i].mruTick > 0";;
      let hit (e : GPUTlbEntry) :=
        (if set_mru then setMRU now e else e) <| e_hits ::= λ h, u32 (h + 1) |> in
      Ok (Some (ppBase e), upd_set vp_base (alter hit i) t)
  end.

(** The entry to use: the first free one, else one with the oldest [mruTick]. *)
Fixpoint victim (i : nat) (s : list GPUTlbEntry) (minTick : Tick) (entry : option nat) : option nat :=
  match s with
  | [] => entry
  | e :: s =>
      if free e then Some i
      else if mruTick e <=? minTick then victim (S i) s (mruTick e) (Some i)
      else victim (S i) s minTick entry
  end.

(** [TLBMemory::insert]. *)
Definition insert (now : Tick) (vp_base pp_base : Addr) (t : TLBMemory) : res TLBMemory :=
  lt ← lookup now vp_base true t;
  let '(hit, t) := lt in
  if isSome hit then Ok t
  else
    match victim 0 (set_of t vp_base) now None with
    | None => Fault (AssertFail "entry")
    | Some i =>
        let fill (e : GPUTlbEntry) :=
          setMRU now (((e <| vpBase := vp_base |>) <| ppBase := pp_base |>) <| free := false |>) in
        Ok (upd_set vp_base (alter fill i) t)
    end.

(** ** Either kind of TLB memory *)

Inductive BaseTLBMemory : Type := Finite (t : TLBMemory) | Infinite (m : gmap Addr Addr).

Definition tlb_lookup (now : Tick) (vp_base : Addr) (set_mru : bool) (t : BaseTLBMemory) : res (option Addr * BaseTLBMemory) :=
  match t with
  | Finite t => r ← lookup now vp_base set_mru t; Ok (r.1, Finite r.2)
  | Infinite m => Ok (m !! vp_base, t)
  end.
Definition tlb_insert (now : Tick) (vp_base pp_base : Addr) (t : BaseTLBMemory) : res BaseTLBMemory :=
  match t with
  | Finite t => t ← insert now vp_base pp_base t; Ok (Finite t)
  | Infinite m => Ok (Infinite (<[vp_base := pp_base]> m))
  end.

(** The TLB memory of a [ShaderTLB] with these parameters. *)
Definition new_tlb_memory (numEntries associativity : Z) : res BaseTLBMemory :=
  if 0 <? numEntries then t ← new_tlb numEntries associativity; Ok (Finite t) else Ok (Infinite ∅).

(** ** A well-formed TLB

    The contents as a map: at most one entry of a page, in the set of its number,
    used in the past. *)

Definition holds_page (t : TLBMemory) (vp pp : Addr) : Prop :=
  ∃ e, e ∈ set_of t vp ∧ free e = false ∧ vpBase e = vp ∧ ppBase e = pp.

Definition taken (s : list GPUTlbEntry) : list Addr := vpBase <$> List.filter (λ e, negb (free e)) s.

Record tlb_ok (now : Tick) (t : TLBMemory) : Prop :=
  { to_shape : 0 < sets t ∧ 0 < ways t ∧ length (entries t) = Z.to_nat (ways t) ∧
      Forall (λ s, length s = Z.to_nat (sets t)) (entries t);
    to_entry : ∀ w s e, entries t !! w = Some s → e ∈ s → free e = false → way_of t (vpBase e) = w ∧ 0 < mruTick e ≤ now;
    to_once : Forall (λ s, NoDup (taken s)) (entries t) }.

Lemma new_tlb_ok now n a : 0 < n → 0 ≤ a → (a = 0 ∨ n mod a = 0) → ∃ t, new_tlb n a = Ok t ∧ tlb_ok now t.
Proof.
  intros Hn Ha Hm. unfold new_tlb. set (s := if a =? 0 then n else a).
  assert (Hs : 0 < s ∧ n mod s = 0).
  { unfold s. destruct (Z.eqb_spec a 0); [rewrite Z.mod_same by lia; lia|]. destruct Hm; lia. }
  destruct Hs as [Hs Hmod]. rewrite assert_bind by lia. eexists. split; [done|].
  assert (0 < n / s) by (pose proof (Z.div_mod n s ltac:(lia)); nia).
  constructor; cbn.
  - split_and!; [done|done|by rewrite length_replicate|]. apply Forall_replicate. by rewrite length_replicate.
  - intros w l e [-> _]%lookup_replicate He. apply elem_of_replicate in He as [-> _]. done.
  - apply Forall_replicate. unfold taken. induction (Z.to_nat s); cbn; [constructor|done].
Qed.

(** ** Updates of one set *)

Lemma way_lt now t vp : tlb_ok now t → (way_of t vp < length (entries t))%nat.
Proof.
  intros [(_ & Hw & Hl & _) _ _]. rewrite Hl. unfold way_of. pose proof (Z.mod_pos_bound (vp / PageBytes) (ways t) Hw). lia.
Qed.

Lemma set_lookup now t vp : tlb_ok now t → entries t !! way_of t vp = Some (set_of t vp).
Proof.
  intros H. destruct (lookup_lt_is_Some_2 (entries t) (way_of t vp) (way_lt now t vp H)) as [s Hs]. unfold set_of. by rewrite Hs.
Qed.

Lemma set_upd now t vp vp' f : tlb_ok now t →
  set_of (upd_set vp f t) vp' = if decide (way_of t vp' = way_of t vp) then f (set_of t vp) else set_of t vp'.
Proof.
  intros H. unfold set_of, upd_set. change (way_of (t <| entries ::= alter f (way_of t vp) |>) vp') with (way_of t vp').
  change (entries (t <| entries ::= alter f (way_of t vp) |>)) with (alter f (way_of t vp) (entries t)).
  case_decide as E; [rewrite E, list_lookup_alter_eq|by rewrite list_lookup_alter_ne by done].
  pose proof (set_lookup now t vp H) as Hs. destruct (entries t !! way_of t vp); done.
Qed.

(** Changing one set keeps the TLB well-formed if the set stays so. *)
Lemma upd_set_ok now now' t vp f : tlb_ok now t → now ≤ now' → length (f (set_of t vp)) = length (set_of t vp) → NoDup (taken (f (set_of t vp))) →
  (∀ e, e ∈ f (set_of t vp) → free e = false → way_of t (vpBase e) = way_of t vp ∧ 0 < mruTick e ≤ now') → tlb_ok now' (upd_set vp f t).
Proof.
  intros Hok Hle Hlen Hnd He. pose proof (set_lookup now t vp Hok) as Hs. destruct Hok as [(H1 & H2 & H3 & H4) H5 H6].
  assert (Hl : ∀ w s, alter f (way_of t vp) (entries t) !! w = Some s →
    (w = way_of t vp ∧ s = f (set_of t vp)) ∨ (w ≠ way_of t vp ∧ entries t !! w = Some s)).
  { intros w s Hw. destruct (decide (w = way_of t vp)) as [->|Hne].
    - left. rewrite list_lookup_alter_eq, Hs in Hw. by injection Hw as <-.
    - right. by rewrite list_lookup_alter_ne in Hw. }
  constructor; cbn.
  - split_and!; [done|done|by rewrite length_alter|]. apply Forall_lookup. intros w s [[-> ->]|[_ Hw]]%Hl; [|by eapply (Forall_lookup_1 _ _ _ _ H4)].
    rewrite Hlen. by eapply (Forall_lookup_1 _ _ _ _ H4).
  - intros w s e [[-> ->]|[_ Hw]]%Hl Hin Hf; [by apply He|]. destruct (H5 w s e Hw Hin Hf). split; [done|lia].
  - apply Forall_lookup. intros w s [[-> ->]|[_ Hw]]%Hl; [done|by eapply (Forall_lookup_1 _ _ _ _ H6)].
Qed.

Lemma tlb_ok_later now now' t : tlb_ok now t → now ≤ now' → tlb_ok now' t.
Proof. intros [H1 H2 H3] Hle. constructor; [done| |done]. intros w s e Hw He Hf. destruct (H2 w s e Hw He Hf). split; [done|lia]. Qed.

Lemma elem_alter {A} (f : A → A) i (l : list A) x : x ∈ alter f i l → x ∈ l ∨ ∃ y, l !! i = Some y ∧ x = f y.
Proof.
  intros [j Hj]%list_elem_of_lookup. destruct (decide (i = j)) as [<-|Hne].
  - rewrite list_lookup_alter_eq in Hj. destruct (l !! i) as [y|] eqn:E; [|done]. injection Hj as <-. right. by exists y.
  - rewrite list_lookup_alter_ne in Hj by done. left. by eapply list_elem_of_lookup_2.
Qed.

Lemma alter_split {A} (f : A → A) i (l : list A) x : l !! i = Some x → l = take i l ++ x :: drop (S i) l ∧ alter f i l = take i l ++ f x :: drop (S i) l.
Proof.
  intros H. split; [by symmetry; apply take_drop_middle|]. rewrite <-(take_drop_middle l i x H) at 1.
  pose proof (lookup_lt_Some _ _ _ H). rewrite alter_app_r_alt by (rewrite length_take; lia). rewrite length_take, Nat.min_l by lia. by rewrite Nat.sub_diag.
Qed.

(** ** Lookups *)

Definition view (e : GPUTlbEntry) : bool * Addr * Addr := (free e, vpBase e, ppBase e).

Lemma holds_view t vp pp : holds_page t vp pp ↔ (false, vp, pp) ∈ (view <$> set_of t vp).
Proof.
  unfold holds_page. rewrite list_elem_of_fmap. split.
  - intros (e & He & <- & <- & <-). by exists e.
  - intros (e & [= Hf Hv Hp] & He). exists e. by split_and!.
Qed.

Lemma taken_view s s' : view <$> s = view <$> s' → taken s = taken s'.
Proof.
  revert s'. induction s as [|e s IH]; intros [|e' s'] H; try done. injection H as Hf Hv _ H. unfold taken in *. cbn.
  rewrite Hf. destruct (free e'); cbn; [by apply IH|]. by rewrite Hv, (IH s').
Qed.

Lemma NoDup_taken_inj s x y : NoDup (taken s) → x ∈ s → y ∈ s → free x = false → free y = false → vpBase x = vpBase y → x = y.
Proof.
  unfold taken. induction s as [|e s IH]; [intros _ []%not_elem_of_nil|]. cbn. destruct (free e) eqn:Ef; cbn.
  - intros Hnd [->|Hx]%elem_of_cons [->|Hy]%elem_of_cons Hfx Hfy; try congruence. by apply IH.
  - intros [Hn Hnd]%NoDup_cons [->|Hx]%elem_of_cons [->|Hy]%elem_of_cons Hfx Hfy E; [done| | |by apply IH]; exfalso; apply Hn; [rewrite E|rewrite <-E];
      apply list_elem_of_fmap_2, list_elem_of_In, List.filter_In; rewrite <-list_elem_of_In; by rewrite ?Hfx, ?Hfy.
Qed.

Lemma view_alter f (i : nat) (s : list GPUTlbEntry) : (∀ e, view (f e) = view e) → view <$> alter f i s = view <$> s.
Proof.
  intros H. apply list_eq. intros j. rewrite !list_lookup_fmap. destruct (decide (i = j)) as [<-|]; [|by rewrite list_lookup_alter_ne].
  rewrite list_lookup_alter_eq. destruct (s !! i); cbn; [by rewrite H|done].
Qed.

Lemma tlb_lookup_ok now t vp mru : tlb_ok now t → 0 < now → ∃ r t', lookup now vp mru t = Ok (r, t') ∧ tlb_ok now t' ∧
  (∀ pp, r = Some pp ↔ holds_page t vp pp) ∧ (∀ vp', view <$> set_of t' vp' = view <$> set_of t vp') ∧ ∀ vp', way_of t' vp' = way_of t vp'.
Proof.
  intros Hok Hnow. pose proof (set_lookup now t vp Hok) as Hs. pose proof Hok as [(_ & _ & _ & Hlen) He Hnd].
  unfold lookup. destruct (first_index (matches vp) (set_of t vp)) as [i|] eqn:Ei.
  - apply first_index_Some in Ei as (e & Hi & Hm & _). rewrite Hi. cbn [default]. apply andb_true_iff in Hm as [Hv%Z.eqb_eq Hf%negb_true_iff].
    assert (Hin : e ∈ set_of t vp) by by eapply list_elem_of_lookup_2. destruct (He _ _ _ Hs Hin Hf) as [_ Ht].
    rewrite assert_bind by (apply Z.ltb_lt; cbn; lia). cbn [id from_option].
    set (hit := λ e, (if mru then setMRU now e else e) <| e_hits ::= λ h, u32 (h + 1) |>).
    assert (Hview : ∀ x, view (hit x) = view x) by (intros x; unfold hit; by destruct mru).
    eexists _, _. split; [reflexivity|]. split_and!.
    + apply (upd_set_ok now now); [done|lia|by rewrite length_alter| |].
      * rewrite (taken_view _ (set_of t vp)) by by apply view_alter. by eapply (Forall_lookup_1 _ _ _ _ Hnd).
      * intros x [Hx|(y & Hy & ->)]%elem_alter Hxf; [by apply (He _ (set_of t vp))|].
        destruct (He _ (set_of t vp) y Hs) as [Hw Hy']; [by eapply list_elem_of_lookup_2|unfold hit in Hxf; by destruct mru|].
        unfold hit. destruct mru; cbn; split; done || lia.
    + intros pp. split.
      * intros [= <-]. by exists e.
      * intros (x & Hx & Hxf & Hxv & <-). f_equal. assert (x = e) as ->; [|done].
        eapply (NoDup_taken_inj (set_of t vp)); try done; [by eapply (Forall_lookup_1 _ _ _ _ Hnd)|congruence].
    + intros vp'. rewrite (set_upd now) by done. case_decide as E; [|done]. rewrite view_alter by done.
      f_equal. unfold set_of. by rewrite E.
    + done.
  - rewrite first_index_None in Ei. exists None, t. split_and!; [done|done| |done|done]. intros pp. split; [done|].
    intros (e & Hin & Hf & Hv & _). specialize (Ei e Hin). unfold matches in Ei. rewrite Hf, Hv, Z.eqb_refl in Ei. done.
Qed.

(** ** Insertions *)

Lemma victim_spec s : ∀ k minTick best, let r := victim k s minTick best in
  (∃ j e, s !! j = Some e ∧ free e = true ∧ r = Some (k + j)%nat) ∨
  ((∀ e, e ∈ s → free e = false) ∧
   ((∃ j e, s !! j = Some e ∧ r = Some (k + j)%nat ∧ mruTick e ≤ minTick ∧ ∀ e', e' ∈ s → mruTick e ≤ mruTick e') ∨
    (r = best ∧ ∀ e', e' ∈ s → minTick < mruTick e'))).
Proof.
  induction s as [|e s IH]; intros k m best; cbn.
  { right. split; [set_solver|]. right. split; [done|set_solver]. }
  destruct (free e) eqn:Ef; [left; exists 0%nat, e; by rewrite Nat.add_0_r|].
  assert (Hshift : ∀ j, Some (S k + j)%nat = Some (k + S j)%nat) by (intros; f_equal; lia).
  destruct (Z.leb_spec (mruTick e) m) as [Hle|Hlt].
  - destruct (IH (S k) (mruTick e) (Some k)) as [(j & x & Hj & Hf & ->)|(Hf & [(j & x & Hj & -> & Hx & Hmin)|(-> & Hmin)])].
    + left. exists (S j), x. by rewrite Hshift.
    + right. split; [intros y [->|Hy]%elem_of_cons; auto|]. left. exists (S j), x. rewrite Hshift. split_and!; [done|done|lia|].
      intros y [->|Hy]%elem_of_cons; auto.
    + right. split; [intros y [->|Hy]%elem_of_cons; auto|]. left. exists 0%nat, e. rewrite Nat.add_0_r. split_and!; [done|done|done|].
      intros y [->|Hy]%elem_of_cons; [lia|]. specialize (Hmin y Hy). lia.
  - destruct (IH (S k) m best) as [(j & x & Hj & Hf & ->)|(Hf & [(j & x & Hj & -> & Hx & Hmin)|(-> & Hmin)])].
    + left. exists (S j), x. by rewrite Hshift.
    + right. split; [intros y [->|Hy]%elem_of_cons; auto|]. left. exists (S j), x. rewrite Hshift. split_and!; [done|done|lia|].
      intros y [->|Hy]%elem_of_cons; [lia|auto].
    + right. split; [intros y [->|Hy]%elem_of_cons; auto|]. right. split; [done|]. intros y [->|Hy]%elem_of_cons; auto.
Qed.

(** The entry that an insertion replaces: a free one, or one that no other entry
    of the set is older than. *)
Lemma victim_ok now s : s ≠ [] → (∀ e, e ∈ s → free e = false → mruTick e ≤ now) → ∃ i e,
  victim 0 s now None = Some i ∧ s !! i = Some e ∧
  (free e = false → (∀ e', e' ∈ s → free e' = false) ∧ ∀ e', e' ∈ s → mruTick e ≤ mruTick e').
Proof.
  intros Hne Hle. destruct (victim_spec s 0 now None) as [(j & e & Hj & Hf & ->)|(Hf & [(j & e & Hj & -> & _ & Hmin)|(_ & Hmin)])].
  - exists j, e. split_and!; [done|done|congruence].
  - exists j, e. by split_and!.
  - exfalso. destruct s as [|e s]; [done|]. specialize (Hmin e ltac:(by left)). specialize (Hle e ltac:(by left) (Hf e ltac:(by left))). lia.
Qed.

Lemma NoDup_replace {A} (l1 m l2 : list A) x : NoDup (l1 ++ m ++ l2) → x ∉ l1 ++ l2 → NoDup (l1 ++ x :: l2).
Proof.
  intros H Hx. rewrite <-Permutation_middle. constructor; [done|]. rewrite (Permutation_app_swap_app l1 m l2) in H. by apply NoDup_app in H as (_ & _ & H).
Qed.

Lemma taken_app s s' : taken (s ++ s') = taken s ++ taken s'.
Proof. unfold taken. by rewrite List.filter_app, fmap_app. Qed.

(** An insertion makes a page available, invents nothing, and gives up at most the
    page that was used least recently in a full set. *)
Lemma tlb_insert_ok now t vp pp : tlb_ok now t → 0 < now → ∃ t', insert now vp pp t = Ok t' ∧ tlb_ok now t' ∧
  (∃ pp', holds_page t' vp pp' ∧ (pp' = pp ∨ holds_page t vp pp')) ∧
  (∀ vp' pp', holds_page t' vp' pp' → holds_page t vp' pp' ∨ (vp' = vp ∧ pp' = pp)) ∧
  ∀ vp' pp', holds_page t vp' pp' → holds_page t' vp' pp' ∨
    (way_of t vp' = way_of t vp ∧ (∀ pp', ¬ holds_page t vp pp') ∧ (∀ e, e ∈ set_of t vp → free e = false) ∧
     ∃ e, e ∈ set_of t vp ∧ vpBase e = vp' ∧ ∀ e', e' ∈ set_of t vp → mruTick e ≤ mruTick e').
Proof.
  intros Hok Hnow. destruct (tlb_lookup_ok now t vp true Hok Hnow) as (r & t1 & E & Hok1 & Hr & Hview & Hway). unfold insert. rewrite E. cbn [mbind res_bind].
  assert (Hsame : ∀ vp' pp', holds_page t1 vp' pp' ↔ holds_page t vp' pp') by (intros; by rewrite !holds_view, Hview).
  destruct r as [p|]; cbn [isSome].
  { exists t1. split_and!; [done|done| |intros; left; by apply Hsame|intros; left; by apply Hsame]. exists p. split; [apply Hsame|right]; by apply Hr. }
  assert (t1 = t) as ->.
  { unfold lookup in E. destruct (first_index _ _); [|congruence]. apply bind_ok in E as (? & _ & E). congruence. }
  assert (Hmiss : ∀ pp', ¬ holds_page t vp pp') by (intros pp' ?%Hr; done).
  pose proof (set_lookup now t vp Hok) as Hs. pose proof Hok as [(Hsets & _ & _ & Hlen) He Hnd].
  destruct (victim_ok now (set_of t vp)) as (i & e & -> & Hi & Hlru).
  { intros Es. pose proof (Forall_lookup_1 _ _ _ _ Hlen Hs) as Hl. cbn in Hl. rewrite Es in Hl. cbn in Hl. lia. }
  { intros x Hx Hf. by destruct (He _ _ _ Hs Hx Hf) as [_ ?]; lia. }
  set (fill := λ e, setMRU now (((e <| vpBase := vp |>) <| ppBase := pp |>) <| free := false |>)).
  destruct (alter_split fill i _ _ Hi) as [Esplit Efill]. set (s1 := take i (set_of t vp)) in *. set (s2 := drop (S i) (set_of t vp)) in *.
  assert (Hvp : vp ∉ taken (set_of t vp)).
  { unfold taken. intros (x & Ex & Hx)%list_elem_of_fmap. rewrite list_elem_of_In, List.filter_In, <-list_elem_of_In, negb_true_iff in Hx.
    apply (Hmiss (ppBase x)). exists x. by destruct Hx. }
  assert (Hsub : ∀ x, x ∈ s1 ++ s2 → x ∈ set_of t vp) by (intros x Hx; rewrite Esplit; set_solver).
  exists (upd_set vp (alter fill i) t). split; [done|]. split_and!.
  - apply (upd_set_ok now now); [done|lia|by rewrite length_alter| |].
    + pose proof (Forall_lookup_1 _ _ _ _ Hnd Hs) as Hn. cbn in Hn. rewrite Esplit in Hn, Hvp. rewrite Efill.
      change (e :: s2) with ([e] ++ s2) in Hn, Hvp. rewrite taken_app in Hn, Hvp |- *. rewrite (taken_app [e]) in Hn, Hvp.
      apply (NoDup_replace _ (taken [e]) (taken s2)); [exact Hn|].
      intros Hin. apply Hvp. rewrite elem_of_app in Hin. apply elem_of_app. rewrite elem_of_app. tauto.
    + intros x [Hx|(y & Hy & ->)]%elem_alter Hf; [by apply (He _ (set_of t vp))|]. cbn. split; [done|lia].
  - exists pp. split; [|by left]. exists (fill e). rewrite (set_upd now), decide_True by done. rewrite Efill. split_and!; [set_solver|done..].
  - intros vp' pp' (x & Hx & Hf & Hv & Hp). rewrite (set_upd now) in Hx by done. case_decide as Ew; [|left; by exists x].
    rewrite Efill in Hx. apply elem_of_app in Hx as [Hx|[->|Hx]%elem_of_cons]; [left|by right|left];
      exists x; (split; [unfold set_of; rewrite Ew; apply Hsub, elem_of_app; tauto|done]).
  - intros vp' pp' (x & Hx & Hf & Hv & Hp). destruct (decide (way_of t vp' = way_of t vp)) as [Ew|Ew].
    + assert (Hx' : x ∈ set_of t vp) by (unfold set_of in *; by rewrite <-Ew). rewrite Esplit in Hx'.
      apply elem_of_app in Hx' as [Hx'|[->|Hx']%elem_of_cons]; [left| |left].
      * exists x. rewrite (set_upd now), decide_True by done. rewrite Efill. split_and!; [set_solver|done..].
      * right. destruct (Hlru Hf) as [H1 H2]. split_and!; [done|done|done|]. exists e. split_and!; [by eapply list_elem_of_lookup_2|done|done].
      * exists x. rewrite (set_upd now), decide_True by done. rewrite Efill. split_and!; [set_solver|done..].
    + left. exists x. rewrite (set_upd now), decide_False by done. by split_and!.
Qed.

(** ** Least recently used *)

(** Every entry is as it was, or is the one of the page that was used now. *)
Definition used_now (now : Tick) (vp : Addr) (t t' : TLBMemory) : Prop :=
  ∀ vp' e, e ∈ set_of t' vp' → free e = false →
    (∃ e0, e0 ∈ set_of t vp' ∧ view e = view e0 ∧ mruTick e = mruTick e0) ∨ (vpBase e = vp ∧ mruTick e = now).

Lemma upd_used now t vp f (i : nat) : tlb_ok now t →
  (∀ e, set_of t vp !! i = Some e → free (f e) = false → (view (f e) = view e ∧ mruTick (f e) = mruTick e) ∨ (vpBase (f e) = vp ∧ mruTick (f e) = now)) →
  used_now now vp t (upd_set vp (alter f i) t).
Proof.
  intros Hok Hf vp' e He Hfree. rewrite (set_upd now) in He by done. case_decide as Ew; [|left; by exists e].
  assert (Es : set_of t vp' = set_of t vp) by (unfold set_of; by rewrite Ew). rewrite Es.
  apply elem_alter in He as [He|(y & Hy & ->)]; [left; by exists e|]. destruct (Hf y Hy Hfree) as [[? ?]|?]; [|by right].
  left. exists y. split; [by eapply list_elem_of_lookup_2|done].
Qed.

Lemma lookup_used now t vp r t' : tlb_ok now t → lookup now vp true t = Ok (r, t') → used_now now vp t t'.
Proof.
  intros Hok E. unfold lookup in E. destruct (first_index (matches vp) (set_of t vp)) as [i|] eqn:Ei.
  - apply first_index_Some in Ei as (e & Hi & Hm & _). apply bind_ok in E as (? & _ & E). injection E as _ <-.
    apply upd_used; [done|]. intros y Hy _. right. rewrite Hi in Hy. injection Hy as <-.
    apply andb_true_iff in Hm as [Hv%Z.eqb_eq _]. done.
  - injection E as _ <-. intros vp' e He _. left. by exists e.
Qed.

Lemma insert_used now t vp pp t' : tlb_ok now t → insert now vp pp t = Ok t' → used_now now vp t t'.
Proof.
  intros Hok E. unfold insert in E. apply bind_ok in E as ([r t1] & E1 & E). destruct r as [p|]; cbn [isSome] in E.
  { injection E as <-. by eapply lookup_used. }
  assert (t1 = t) as ->.
  { unfold lookup in E1. destruct (first_index _ _); [|congruence]. apply bind_ok in E1 as (? & _ & E1). congruence. }
  destruct (victim 0 (set_of t vp) now None) as [i|]; [|done]. injection E as <-.
  apply upd_used; [done|]. by right.
Qed.

Inductive tlb_op : Type := Lookup (vp : Addr) | Insert (vp pp : Addr).
Definition page_of (op : tlb_op) : Addr := match op with Lookup vp | Insert vp _ => vp end.
Definition tlb_step (t : TLBMemory) (o : Tick * tlb_op) : res TLBMemory :=
  match o.2 with
  | Lookup vp => r ← lookup o.1 vp true t; Ok r.2
  | Insert vp pp => insert o.1 vp pp t
  end.

Fixpoint increasing (now : Tick) (ops : list (Tick * tlb_op)) : Prop :=
  match ops with [] => True | o :: ops => now < o.1 ∧ increasing o.1 ops end.

Lemma lookup_shape now vp mru t r t' : lookup now vp mru t = Ok (r, t') → sets t' = sets t ∧ ways t' = ways t.
Proof.
  unfold lookup. destruct (first_index _ _); [|intros [= _ <-]; done]. intros (? & _ & E)%bind_ok. by injection E as _ <-.
Qed.
Lemma tlb_step_shape t o t' : tlb_step t o = Ok t' → sets t' = sets t ∧ ways t' = ways t.
Proof.
  unfold tlb_step. destruct o as [now [vp|vp pp]]; cbn.
  - intros ([r t1] & E & [= <-])%bind_ok. by eapply lookup_shape.
  - unfold insert. intros ([r t1] & E & E2)%bind_ok. apply lookup_shape in E as [<- <-].
    destruct (isSome r); [by injection E2 as <-|]. destruct (victim _ _ _ _); [|done]. by injection E2 as <-.
Qed.

Definition end_time (now : Tick) (ops : list (Tick * tlb_op)) : Tick := foldl (λ _ o, o.1) now ops.

(** What is known of page [vp] since it was used at [tau], when the pages [U] of
    its set have been used after it. *)
Record fresh_page (now tau : Tick) (vp : Addr) (U : gset Addr) (t : TLBMemory) : Prop :=
  { fp_ok : tlb_ok now t;
    fp_in : ∃ e, e ∈ set_of t vp ∧ free e = false ∧ vpBase e = vp ∧ tau ≤ mruTick e;
    fp_later : ∀ e, e ∈ set_of t vp → free e = false → tau ≤ mruTick e → vpBase e = vp ∨ vpBase e ∈ U }.


(** The pages of the set of [vp], other than it, that the operations use. *)
Definition rivals (t : TLBMemory) (vp : Addr) (ops : list (Tick * tlb_op)) : gset Addr :=
  list_to_set (filter (λ q, q ≠ vp ∧ way_of t q = way_of t vp) ((λ o, page_of o.2) <$> ops)).

Lemma rivals_snoc t vp ops o : rivals t vp (ops ++ [o]) =
  rivals t vp ops ∪ (if decide (page_of o.2 ≠ vp ∧ way_of t (page_of o.2) = way_of t vp) then {[page_of o.2]} else ∅).
Proof.
  unfold rivals. rewrite fmap_app, filter_app, list_to_set_app_L. f_equal.
  change ((λ o, page_of o.2) <$> [o]) with [page_of o.2]. rewrite filter_cons, filter_nil. case_decide; cbn; [by rewrite union_empty_r_L|done].
Qed.

Lemma rivals_ways t t' vp ops : ways t' = ways t → rivals t' vp ops = rivals t vp ops.
Proof. intros E. unfold rivals, way_of. by rewrite E. Qed.

Lemma taken_full s : (∀ e, e ∈ s → free e = false) → taken s = vpBase <$> s.
Proof.
  unfold taken. induction s as [|e s IH]; intros H; [done|]. cbn. rewrite (H e) by by left. cbn. f_equal. apply IH. intros x Hx. apply H. by right.
Qed.

(** A set whose pages are [vp] and the ones of [U] does not lose [vp] to another. *)
Lemma not_evicted now tau vp vp2 U t : fresh_page now tau vp U t → vp2 ∈ U → Z.of_nat (size U) < sets t →
  (∀ e, e ∈ set_of t vp → free e = false) → (∀ e, e ∈ set_of t vp → vpBase e ≠ vp2) → (∀ e, e ∈ set_of t vp → tau ≤ mruTick e) → vp ≠ vp2 → False.
Proof.
  intros [Hok _ Hlater] HU Hsize Hfull Hnot Hall Hne. pose proof Hok as [(Hs & _ & _ & Hlen) _ Hnd]. pose proof (set_lookup now t vp Hok) as Hset.
  pose proof (Forall_lookup_1 _ _ _ _ Hlen Hset) as Hl. pose proof (Forall_lookup_1 _ _ _ _ Hnd Hset) as Hn. cbn in Hl, Hn. rewrite taken_full in Hn by done.
  assert (Hsub : vp2 :: (vpBase <$> set_of t vp) ⊆ vp :: elements U).
  { intros x [->|Hx]%elem_of_cons; [right; by apply elem_of_elements|]. apply list_elem_of_fmap in Hx as (e & -> & He).
    destruct (Hlater e He (Hfull e He) (Hall e He)) as [->|]; [left|right; by apply elem_of_elements]. }
  assert (Hnd2 : NoDup (vp2 :: (vpBase <$> set_of t vp))).
  { constructor; [|done]. intros (e & E & He)%list_elem_of_fmap. by apply (Hnot e He). }
  pose proof (submseteq_length _ _ (NoDup_submseteq _ _ Hnd2 Hsub)) as Hle. cbn in Hle. rewrite length_fmap, Hl in Hle.
  change (length (elements U)) with (size U) in Hle. lia.
Qed.

Lemma used_fresh now now' tau vp vp2 U t t' : fresh_page now tau vp U t → 0 < tau ≤ now → now < now' → tlb_ok now' t' → used_now now' vp2 t t' →
  (∃ pp, holds_page t' vp pp) → (vp2 ≠ vp → way_of t vp2 = way_of t vp → vp2 ∈ U) → ways t' = ways t → fresh_page now' tau vp U t'.
Proof.
  intros [Hok Hin Hlater] Htau Hlt Hok' Hused (pp & e & He & Hf & Hv & _) HU Hw. constructor; [done| |].
  - exists e. split_and!; try done. destruct (Hused vp e He Hf) as [(e0 & He0 & Ev & ->)|[_ ->]]; [|lia].
    injection Ev as Ef Evp _. destruct Hin as (e1 & He1 & Hf1 & Hv1 & Hm). assert (e0 = e1) as ->; [|done].
    pose proof Hok as [_ _ Hnd]. pose proof (Forall_lookup_1 _ _ _ _ Hnd (set_lookup now t vp Hok)) as Hn.
    eapply (NoDup_taken_inj _ _ _ Hn); congruence || done.
  - intros x Hx Hxf Hm. destruct (Hused vp x Hx Hxf) as [(e0 & He0 & Ev & Em)|[Ex _]].
    + injection Ev as Ef Evp _. rewrite Evp. apply Hlater; congruence || done.
    + rewrite Ex. destruct (decide (vp2 = vp)) as [|Hne]; [by left|right]. apply HU; [done|].
      rewrite <-Ex. pose proof (set_lookup now' t' vp Hok') as Hs. destruct Hok' as [_ He' _].
      destruct (He' _ _ x Hs Hx Hxf) as [Ew _]. unfold way_of in *. by rewrite Hw in Ew.
Qed.

Lemma fresh_step now tau vp U t o : fresh_page now tau vp U t → 0 < tau ≤ now → now < o.1 →
  (page_of o.2 ≠ vp → way_of t (page_of o.2) = way_of t vp → page_of o.2 ∈ U) → Z.of_nat (size U) < sets t →
  ∃ t', tlb_step t o = Ok t' ∧ fresh_page o.1 tau vp U t'.
Proof.
  intros Hfp Htau Hlt HU Hsize. pose proof Hfp as [Hok (e & He & Hf & Hv & Hm) Hlater].
  assert (Hok1 : tlb_ok o.1 t) by (eapply tlb_ok_later; [done|lia]). destruct o as [now' op]. cbn [fst snd] in *.
  assert (Hhold : holds_page t vp (ppBase e)) by by exists e.
  destruct op as [q|q pp]; cbn [page_of] in *.
  - destruct (tlb_lookup_ok now' t q true Hok1 ltac:(lia)) as (r & t' & E & Hok' & _ & Hview & _). exists t'. unfold tlb_step; cbn [fst snd].
    split; [by rewrite E|]. pose proof (lookup_shape _ _ _ _ _ _ E) as [_ Hw].
    eapply (used_fresh now now' tau vp q); try done; [by eapply lookup_used|]. exists (ppBase e). rewrite holds_view, Hview. by apply holds_view.
  - destruct (tlb_insert_ok now' t q pp Hok1 ltac:(lia)) as (t' & E & Hok' & (pp' & Hq & _) & _ & Hkeep). exists t'. unfold tlb_step; cbn [fst snd].
    split; [done|]. pose proof (tlb_step_shape t (now', Insert q pp) t' E) as [_ Hw].
    eapply (used_fresh now now' tau vp q); try done; [by eapply insert_used|]. destruct (decide (q = vp)) as [->|Hne]; [by exists pp'|].
    exists (ppBase e). destruct (Hkeep vp (ppBase e) Hhold) as [|(Ew & Hmiss & Hfull & x & Hx & Hxv & Hmin)]; [done|exfalso].
    assert (Es : set_of t q = set_of t vp) by (unfold set_of; by rewrite Ew). rewrite Es in *.
    assert (x = e) as ->.
    { pose proof Hok as [_ _ Hnd]. pose proof (Forall_lookup_1 _ _ _ _ Hnd (set_lookup now t vp Hok)) as Hn.
      eapply (NoDup_taken_inj _ _ _ Hn); try done; [by apply Hfull|congruence]. }
    eapply (not_evicted now tau vp q U t); try done; [by apply HU| |intros y Hy; specialize (Hmin y Hy); lia].
    intros y Hy Ey. apply (Hmiss (ppBase y)). exists y. rewrite Es. split_and!; [done|by apply Hfull|done|done].
Qed.

Lemma fresh_run tau vp t0 : ∀ ops done now t, fresh_page now tau vp (rivals t0 vp done) t → 0 < tau ≤ now → increasing now ops →
  sets t = sets t0 → ways t = ways t0 → Z.of_nat (size (rivals t0 vp (done ++ ops))) < sets t0 →
  ∃ t' pp, foldM tlb_step t ops = Ok t' ∧ holds_page t' vp pp.
Proof.
  induction ops as [|o ops IH]; intros l now t Hfp Htau Hinc Hs Hw Hsize; cbn [foldM].
  { destruct Hfp as [_ (e & He & Hf & Hv & _) _]. exists t, (ppBase e). split; [done|]. by exists e. }
  destruct Hinc as [Hlt Hinc].
  assert (Hsub : rivals t0 vp (l ++ [o]) ⊆ rivals t0 vp (l ++ o :: ops)).
  { change (o :: ops) with ([o] ++ ops). rewrite app_assoc. unfold rivals. rewrite (fmap_app _ (l ++ [o])), filter_app, list_to_set_app. set_solver. }
  apply subseteq_size in Hsub.
  assert (Hfp1 : fresh_page now tau vp (rivals t0 vp (l ++ [o])) t).
  { destruct Hfp as [H1 H2 H3]. constructor; [done|done|]. intros e He Hf Hm. destruct (H3 e He Hf Hm); [by left|right]. rewrite rivals_snoc. set_solver. }
  destruct (fresh_step now tau vp _ t o Hfp1 Htau Hlt) as (t1 & E & Hfp2); [|lia|].
  { intros Hne Ew. rewrite rivals_snoc. unfold way_of in *. rewrite <-Hw, decide_True by done. set_solver. }
  rewrite E. cbn [mbind res_bind]. pose proof (tlb_step_shape _ _ _ E) as [Hs1 Hw1].
  eapply (IH (l ++ [o])); [exact Hfp2|lia|done|congruence|congruence|]. by rewrite <-app_assoc.
Qed.

Lemma steps_ok now t ops : tlb_ok now t → 0 ≤ now → increasing now ops →
  ∃ t', foldM tlb_step t ops = Ok t' ∧ tlb_ok (end_time now ops) t' ∧ sets t' = sets t ∧ ways t' = ways t.
Proof.
  revert now t. induction ops as [|[now' op] ops IH]; intros now t Hok Hnow Hinc; cbn [foldM]; [by exists t|].
  destruct Hinc as [Hlt Hinc]. cbn [fst] in *. apply (tlb_ok_later now now') in Hok; [|lia].
  assert (∃ t1, tlb_step t (now', op) = Ok t1 ∧ tlb_ok now' t1) as (t1 & E & Hok1).
  { unfold tlb_step. destruct op as [q|q pp]; cbn [fst snd].
    - destruct (tlb_lookup_ok now' t q true Hok ltac:(lia)) as (r & t1 & -> & ? & _). by exists t1.
    - destruct (tlb_insert_ok now' t q pp Hok ltac:(lia)) as (t1 & -> & ? & _). by exists t1. }
  rewrite E. cbn [mbind res_bind]. pose proof (tlb_step_shape _ _ _ E) as [Hs1 Hw1].
  destruct (IH now' t1 Hok1 ltac:(lia) Hinc) as (t' & Ef & Hok' & Hs & Hw). exists t'. split_and!; [done|done|congruence|congruence].
Qed.

Lemma insert_in now t vp pp t' : tlb_ok now t → insert now vp pp t = Ok t' →
  ∃ e, e ∈ set_of t' vp ∧ free e = false ∧ vpBase e = vp ∧ mruTick e = now.
Proof.
  intros Hok E. assert (Hput : ∀ f i e, set_of t vp !! i = Some e → f e ∈ set_of (upd_set vp (alter f i) t) vp).
  { intros f i e Hi. rewrite (set_upd now), decide_True by done. apply (list_elem_of_lookup_2 _ i). rewrite list_lookup_alter_eq. by rewrite Hi. }
  pose proof (set_lookup now t vp Hok) as Hs. pose proof Hok as [(Hsets & _ & _ & Hlen) He _].
  unfold insert, lookup in E. destruct (first_index (matches vp) (set_of t vp)) as [i|] eqn:Ei.
  - apply first_index_Some in Ei as (e & Hi & Hm & _). apply andb_true_iff in Hm as [Hv%Z.eqb_eq Hf%negb_true_iff].
    apply bind_ok in E as ([r t1] & E1 & E). apply bind_ok in E1 as (? & _ & E1). injection E1 as <- <-. injection E as <-.
    eexists. split; [by apply Hput|]. done.
  - cbn [mbind res_bind isSome] in E. destruct (victim_ok now (set_of t vp)) as (i & e & Ev & Hi & _).
    { intros Es. pose proof (Forall_lookup_1 _ _ _ _ Hlen Hs) as Hl. cbn in Hl. rewrite Es in Hl. cbn in Hl. lia. }
    { intros y Hy Hf. by destruct (He _ _ _ Hs Hy Hf) as [_ ?]; lia. }
    rewrite Ev in E. injection E as <-. eexists. split; [by apply Hput|]. done.
Qed.

Lemma fresh_insert now t vp pp : tlb_ok now t → 0 < now → (∀ e, e ∈ set_of t vp → free e = false → mruTick e < now) →
  ∃ t', insert now vp pp t = Ok t' ∧ fresh_page now now vp ∅ t'.
Proof.
  intros Hok Hnow Hold. destruct (tlb_insert_ok now t vp pp Hok Hnow) as (t' & E & Hok' & _).
  destruct (insert_in _ _ _ _ _ Hok E) as (e & He & Hf & Hv & Hm). pose proof (insert_used _ _ _ _ _ Hok E) as Hused. exists t'. split; [done|].
  assert (Hlater : ∀ x, x ∈ set_of t' vp → free x = false → now ≤ mruTick x → vpBase x = vp).
  { intros x Hx Hxf Hxm. destruct (Hused vp x Hx Hxf) as [(e0 & He0 & Ev & Em)|[Ex _]]; [|done].
    injection Ev as Ef _ _. specialize (Hold e0 He0). rewrite <-Em, <-Ef in Hold. specialize (Hold Hxf). lia. }
  constructor; [done| |intros; left; by apply Hlater].
  exists e. split_and!; try done. lia.
Qed.

Lemma increasing_app now ops ops' : increasing now (ops ++ ops') ↔ increasing now ops ∧ increasing (end_time now ops) ops'.
Proof. revert now. induction ops as [|o ops IH]; intros now; cbn; [tauto|]. rewrite IH. unfold end_time; cbn. tauto. Qed.

Lemma end_time_le now ops : increasing now ops → now ≤ end_time now ops.
Proof. revert now. induction ops as [|o ops IH]; intros now; cbn; [lia|]. intros [? H%IH]. unfold end_time in *; cbn. lia. Qed.

Lemma foldM_app {A B} (f : B → A → res B) l l' b : foldM f b (l ++ l') = b' ← foldM f b l; foldM f b' l'.
Proof. revert b. induction l as [|x l IH]; intros b; cbn; [done|]. destruct (f b x); cbn; [apply IH|done]. Qed.

(** C27: a set-associative TLB whose number of entries is a multiple of its
    associativity ([0] is fully associative) serves every sequence of lookups and
    insertions at increasing ticks without a failing assertion, keeps at most one
    entry of a page, each in the set of its page number, and replaces the least
    recently used: a page that was inserted is still there as long as fewer other
    pages of its set than the set has entries were looked up or inserted since. *)
Theorem tlb_lru_ok n a before tau vp pp after :
  0 < n → 0 ≤ a → (a = 0 ∨ n mod a = 0) → increasing 0 (before ++ (tau, Insert vp pp) :: after) →
  ∃ t0 t, new_tlb n a = Ok t0 ∧ foldM tlb_step t0 (before ++ (tau, Insert vp pp) :: after) = Ok t ∧
    tlb_ok (end_time 0 (before ++ (tau, Insert vp pp) :: after)) t ∧ sets t = (if a =? 0 then n else a) ∧
    (Z.of_nat (size (rivals t vp after)) < sets t → ∃ pp', holds_page t vp pp').
Proof.
  intros Hn Ha Hm Hinc. destruct (new_tlb_ok 0 n a Hn Ha Hm) as (t0 & E0 & Hok0). exists t0.
  destruct (steps_ok 0 t0 _ Hok0 ltac:(lia) Hinc) as (t & E & Hok & Hs & Hw). exists t.
  assert (Hsets : sets t0 = if a =? 0 then n else a) by (unfold new_tlb in E0; by apply bind_ok in E0 as (? & _ & [= <-])).
  split_and!; [done|done|done|congruence|]. intros Hsize.
  apply increasing_app in Hinc as [Hb [Hlt Hafter]]. cbn [fst] in *. pose proof (end_time_le _ _ Hb) as Hle.
  destruct (steps_ok 0 t0 before Hok0 ltac:(lia) Hb) as (t1 & E1 & Hok1 & Hs1 & Hw1).
  destruct (fresh_insert tau t1 vp pp) as (t2 & E2 & Hfp).
  { eapply tlb_ok_later; [done|lia]. }
  { lia. }
  { intros e He Hf. pose proof (set_lookup _ t1 vp Hok1) as Hset. destruct Hok1 as [_ Hent _]. destruct (Hent _ _ e Hset He Hf). lia. }
  pose proof (tlb_step_shape t1 (tau, Insert vp pp) t2 E2) as [Hs2 Hw2].
  destruct (fresh_run tau vp t0 after [] tau t2) as (t' & pp' & E3 & Hh); [done|lia|done|congruence|congruence| |].
  { cbn [app]. rewrite <-(rivals_ways t0 t vp after Hw), <-Hs. done. }
  rewrite foldM_app, E1 in E. cbn [mbind res_bind foldM] in E. rewrite (ok_bind _ _ t2 E2), E3 in E. injection E as ->. by exists pp'.
Qed.

(** A two-way TLB of four entries: page 0 stays although two pages of the other
    set and one of its own are inserted after it. *)
Definition ex_ops : list (Tick * tlb_op) :=
  [(5, Insert 0x1000 0x7000); (7, Lookup 0x3000); (8, Insert 0 0x9000); (9, Insert 0x1000 0x7000); (12, Insert 0x3000 0x8000); (20, Insert 0x2000 0x4000)].

Lemma tlb_lru_ok_witness :
  ∃ t0 t, new_tlb 4 2 = Ok t0 ∧ foldM tlb_step t0 ex_ops = Ok t ∧ ∃ pp, holds_page t 0 pp.
Proof.
  destruct (tlb_lru_ok 4 2 (take 2 ex_ops) 8 0 0x9000 (drop 3 ex_ops)) as (t0 & t & E0 & E & _ & Hs & H);
    [lia|lia|by right|cbn; lia|]. exists t0, t. split; [exact E0|]. split; [exact E|].
  apply H. rewrite Hs. injection E0 as <-. vm_compute in E. injection E as <-. vm_compute. reflexivity.
Defined.
End ShaderTLB.
