(* ===== verification/ShaderMMU.v ===== *)
(** * The MMU of the GPU (gem5-gpu/src/gpu/shader_mmu.hh, shader_mmu.cc,
      shader_tlb.cc, gem5/src/arch/x86/faults.hh)

    A TLB of a core that misses hands the translation to the MMU, which looks in its
    own TLB, starts a page walk if no walk of the page is under way, raises page
    faults to the CPU one at a time and walks again when the kernel has handled them.
    A [TranslationRequest] lives in a store and is named by its place in it, as the
    same object is in several queues; the walkers, and the owners of the translations,
    are outside: a started walk is noted in [walking] and a finished translation in
    [finished].  There is one thread context, the one of the GPU. *)

From S2P Require Import Prelude Intmath DramTypes Clock GpuPageTable ShaderTLB.
Import Intmath Clock GpuPageTable ShaderTLB.

Module ShaderMMU.

(** [BaseTLB::Mode]. *)
Inductive Mode : Set := Read | Write | Execute.
#[export] Instance Mode_eq_dec : EqDecision Mode.
Proof. solve_decision. Defined.

(** [None] of the code is [NoneOutstanding]. *)
Inductive FaultStatus : Set := NoneOutstanding | InKernel | Retrying.
#[export] Instance FaultStatus_eq_dec : EqDecision FaultStatus.
Proof. solve_decision. Defined.

(** A wrapped translation; [wrapped] names the translation of the core. *)
Record TranslationRequest := mkTR
  { origTLB : option nat;
    pageWalker : option nat;
    wrapped : option nat;
    vaddr : Addr;                          (** of [req] *)
    paddr : Addr;
    mode : Mode;
    vpBase : Addr;
    beginFault : Z;
    beginWalk : Z;
    startTick : Tick;
    prefetch : bool }.
#[export] Instance eta_TranslationRequest : Eta TranslationRequest := λ t,
  mkTR (origTLB t) (pageWalker t) (wrapped t) (vaddr t) (paddr t) (mode t) (vpBase t) (beginFault t) (beginWalk t) (startTick t) (prefetch t).

Definition new_translation (tlb wrapped : option nat) (va : Addr) (md : Mode) (start_tick : Tick) (pf : bool) : TranslationRequest :=
  mkTR tlb None wrapped va 0 md (va - va mod PageBytes) 0 0 start_tick pf.

(** A [StartPagewalkEvent]: the translation it will start, and when it is due. *)
Record StartPagewalkEvent := mkSPE { spe_translation : option nat; spe_when : event }.

(** The registers of the thread context through which faults are handed over. *)
Record Regs := mkRegs { inFault : Z; faultAddr : Addr; faultCode : Z; faultRSP : Addr; cr2 : Addr; rsp : Addr; m5reg : Z }.
#[export] Instance eta_Regs : Eta Regs := λ r,
  mkRegs (inFault r) (faultAddr r) (faultCode r) (faultRSP r) (cr2 r) (rsp r) (m5reg r).

Record MMU := mkMMU
  { clk : Clock;
    activeWalkers : list bool;
    startMissEvent : event;
    startMisses : list nat;
    pagewalkEvents : list StartPagewalkEvent;
    faultTimeoutEvent : event;
    tlb : option TLBMemory;
    pendingWalks : list nat;
    outstandingWalks : gmap Addr (list nat);
    pendingFaults : list nat;
    outstandingFaultStatus : FaultStatus;
    outstandingFaultInfo : option nat;
    curOutstandingWalks : Z;
    prefetchBuffer : gmap Addr GPUTlbEntry;
    requests : gmap nat TranslationRequest;   (** the live [TranslationRequest]s *)
    next_request : nat;
    l1 : list BaseTLBMemory;                  (** the TLBs of the cores *)
    regs : Regs;
    walking : list (option nat);              (** what each page walker works on *)
    finished : list (nat * Addr);             (** calls of [finish] on wrapped translations *)
    mstats : stats }.
#[export] Instance eta_MMU : Eta MMU := λ m,
  mkMMU (clk m) (activeWalkers m) (startMissEvent m) (startMisses m) (pagewalkEvents m) (faultTimeoutEvent m) (tlb m)
    (pendingWalks m) (outstandingWalks m) (pendingFaults m) (outstandingFaultStatus m) (outstandingFaultInfo m)
    (curOutstandingWalks m) (prefetchBuffer m) (requests m) (next_request m) (l1 m) (regs m) (walking m) (finished m) (mstats m).

(** ** Pointers *)

Definition deref {A} (o : option A) : res A := match o with Some a => Ok a | None => Fault (Panic "null pointer") end.
Definition get (t : nat) (m : MMU) : res TranslationRequest :=
  match requests m !! t with Some r => Ok r | None => Fault (Panic "use after free") end.
Definition upd (t : nat) (f : TranslationRequest → TranslationRequest) (m : MMU) : MMU := m <| requests ::= alter f t |>.
(** [delete translation]. *)
Definition free_request (t : nat) (m : MMU) : MMU := m <| requests ::= delete t |>.
Definition alloc (r : TranslationRequest) (m : MMU) : nat * MMU :=
  (next_request m, (m <| requests ::= <[next_request m := r]> |>) <| next_request ::= S |>).

(** [ShaderTLB::insert] on the TLB of a core. *)
Definition l1_insert (now : Tick) (c : option nat) (vp_base pp_base : Addr) (m : MMU) : res MMU :=
  i ← deref c;
  t ← deref (l1 m !! i);
  t ← tlb_insert now vp_base pp_base t;
  Ok (m <| l1 ::= <[i := t]> |>).
(** [tlb->insert] if there is a second-level TLB. *)
Definition l2_insert (now : Tick) (vp_base pp_base : Addr) (m : MMU) : res MMU :=
  match tlb m with
  | None => Ok m
  | Some t => t ← ShaderTLB.insert now vp_base pp_base t; Ok (m <| tlb := Some t |>)
  end.
(** [tlb && tlb->lookup(...)]. *)
Definition l2_lookup (now : Tick) (vp_base : Addr) (set_mru : bool) (m : MMU) : res (option Addr * MMU) :=
  match tlb m with
  | None => Ok (None, m)
  | Some t => r ← ShaderTLB.lookup now vp_base set_mru t; Ok (r.1, m <| tlb := Some r.2 |>)
  end.
(** [wrappedTranslation->finish(NoFault, req, tc, mode)]. *)
Definition finish_wrapped (w : option nat) (pa : Addr) (m : MMU) : res MMU :=
  i ← deref w; Ok (m <| finished ::= λ l, l ++ [(i, pa)] |>).

Definition walks_of (vp : Addr) (m : MMU) : list nat := default [] (outstandingWalks m !! vp).

Section mmu.
Variables (clockPeriod : Tick) (latency faultTimeoutCycles prefetchBufferSize : Z) (FullSystem : bool).

(** [curCycle()], [clockEdge(c)]. *)
Definition cur_cycle (now : Tick) (m : MMU) : Z * MMU :=
  let r := curCycle clockPeriod now (clk m) in (r.1, m <| clk := r.2 |>).
Definition clock_edge (now : Tick) (c : Z) (m : MMU) : Tick * MMU :=
  let r := clockEdge clockPeriod now c (clk m) in (r.1, m <| clk := r.2 |>).

(** ** Page walkers *)

(** The numbers of the walkers stand for the pointers to them. *)
Definition setWalkerFree (walker : option nat) (m : MMU) : res MMU :=
  pw_id ← match walker with Some w => Ok w | None => Fault (AssertFail "pagewalkers[pw_id] == walker") end;
  assert (bool_decide (activeWalkers m !! pw_id = Some true)) "activeWalkers[pw_id] == true";;
  Ok ((m <| activeWalkers ::= <[pw_id := false]> |>) <| curOutstandingWalks ::= λ n, u32 (n - 1) |>).

Definition getFreeWalker (m : MMU) : option nat * MMU :=
  match first_index negb (activeWalkers m) with
  | None => (None, m)
  | Some i =>
      (Some i, ((m <| activeWalkers ::= <[i := true]> |>) <| mstats ::= stat_inc_at "concurrentWalks" (curOutstandingWalks m) |>)
                 <| curOutstandingWalks ::= λ n, u32 (n + 1) |>)
  end.

Definition schedulePagewalk (now : Tick) (walker t : nat) (m : MMU) : res MMU :=
  assert (bool_decide (activeWalkers m !! walker = Some true)) "activeWalkers[pw_id]";;
  spe ← deref (pagewalkEvents m !! walker);
  assert (negb (isSome (spe_translation spe))) "!translation";;
  let '(when, m) := clock_edge now 1 m in
  ev ← schedule now when (spe_when spe);
  Ok (m <| pagewalkEvents ::= <[walker := mkSPE (Some t) ev]> |>).

(** [ShaderMMU::walk]; the call of [translateTiming] hands the translation to the walker. *)
Definition walk (now : Tick) (walker t : nat) (m : MMU) : res MMU :=
  r ← get t m;
  assert (negb (isSome (pageWalker r))) "translation->pageWalker == NULL";;
  let '(cyc, m) := cur_cycle now m in
  let m := upd t (λ r, (r <| beginWalk := cyc |>) <| pageWalker := Some walker |>) m in
  Ok ((m <| mstats ::= stat_inc "numPagewalks" |>) <| walking ::= <[walker := Some t]> |>).

(** [StartPagewalkEvent::process]. *)
Definition process_walk (now : Tick) (walker : nat) (m : MMU) : res MMU :=
  spe ← deref (pagewalkEvents m !! walker);
  match spe_translation spe with
  | None => Fault (AssertFail "translation")
  | Some t => walk now walker t (m <| pagewalkEvents ::= <[walker := mkSPE None None]> |>)
  end.

(** ** Prefetching *)

(** The start tick of the request is [true] and its [prefetch] the default. *)
Definition tryPrefetch (now : Tick) (vp_base : Addr) (m : MMU) : res MMU :=
  if prefetchBufferSize =? 0 then Ok m
  else if isSome (prefetchBuffer m !! vp_base) then Ok m
  else if Z.of_nat (length (activeWalkers m)) <=? curOutstandingWalks m then Ok m
  else
    let next_vp_base := u64 (vp_base + PageBytes) in
    h ← l2_lookup now next_vp_base false m;
    let '(hit, m) := h in
    if isSome hit then Ok m
    else if isSome (outstandingWalks m !! next_vp_base) then Ok m
    else
      let m := m <| mstats ::= stat_inc "numPrefetches" |> in
      let '(t, m) := alloc (new_translation None None next_vp_base Read 1 false) m in
      let m := m <| outstandingWalks ::= <[next_vp_base := walks_of next_vp_base m ++ [t]]> |> in
      let '(walker, m) := getFreeWalker m in
      match walker with
      | None => Fault (AssertFail "walker != NULL")
      | Some w => schedulePagewalk now w t m
      end.

(** The entry to evict: the first of the oldest in the order of the keys, if one is
    older than [now]. *)
Definition oldest (now : Tick) (b : gmap Addr GPUTlbEntry) : Tick * option Addr :=
  let keys := merge_sort Z.le (map_to_list b).*1 in
  foldl (λ '(minTick, min) k,
           match b !! k with
           | Some e => if mruTick e <? minTick then (mruTick e, Some k) else (minTick, min)
           | None => (minTick, min)
           end) (now, head keys) keys.

Definition insertPrefetch (now : Tick) (vp_base pp_base : Addr) (m : MMU) : res MMU :=
  assert (vp_base mod PageBytes =? 0) "vp_base % TheISA::PageBytes == 0";;
  m ← (if prefetchBufferSize <=? Z.of_nat (size (prefetchBuffer m)) then
         let '(minTick, min) := oldest now (prefetchBuffer m) in
         assert (negb (minTick =? now) && isSome min) "minTick != curTick() && min != prefetchBuffer.end()";;
         Ok (m <| prefetchBuffer ::= delete (default 0 min) |>)
       else Ok m);
  let e := default new_entry (prefetchBuffer m !! vp_base) in
  let e := setMRU now ((e <| ShaderTLB.vpBase := vp_base |>) <| ppBase := pp_base |>) in
  let m := m <| prefetchBuffer ::= <[vp_base := e]> |> in
  assert (Z.of_nat (size (prefetchBuffer m)) <=? prefetchBufferSize) "prefetchBuffer.size() <= prefetchBufferSize";;
  Ok m.

(** ** Misses of the TLBs *)

Definition beginTLBMiss (now : Tick) (req_tlb translation : nat) (va : Addr) (md : Mode) (m : MMU) : res MMU :=
  let '(start, m) := clock_edge now latency m in
  let '(t, m) := alloc (new_translation (Some req_tlb) (Some translation) va md start false) m in
  let m := m <| startMisses ::= λ l, l ++ [t] |> in
  if scheduled (startMissEvent m) then Ok m
  else
    front ← deref (head (startMisses m));
    r ← get front m;
    ev ← schedule now (startTick r) (startMissEvent m);
    Ok (m <| startMissEvent := ev |>).

(** The translation is known: tell the TLB of the core and the owner. *)
Definition answer (now : Tick) (vp_base pp_base : Addr) (r : TranslationRequest) (m : MMU) : res MMU :=
  m ← l1_insert now (origTLB r) vp_base pp_base m;
  finish_wrapped (wrapped r) (pp_base + vaddr r mod PageBytes) m.

(** The rest of [handleTLBMiss] when neither TLB nor buffer knows the page. *)
Definition start_walk (now : Tick) (vp_base : Addr) (t : nat) (m : MMU) : res MMU :=
  let m := (m <| outstandingWalks ::= <[vp_base := walks_of vp_base m ++ [t]]> |>) <| mstats ::= stat_inc "totalRequests" |> in
  if (length (walks_of vp_base m) =? 1)%nat then
    let '(walker, m) := getFreeWalker m in
    match walker with
    | None => Ok (m <| pendingWalks ::= λ l, l ++ [t] |>)
    | Some w => m ← schedulePagewalk now w t m; tryPrefetch now vp_base m
    end
  else Ok m.

(** [TLBMissEvent::process]. *)
Definition handleTLBMiss (now : Tick) (m : MMU) : res MMU :=
  t ← deref (head (startMisses m));
  let m := (m <| startMisses ::= tail |>) <| startMissEvent := None |> in
  m ← match startMisses m with
      | [] => Ok m
      | front :: _ =>
          r ← get front m;
          ev ← schedule now (startTick r) (startMissEvent m);
          Ok (m <| startMissEvent := ev |>)
      end;
  r ← get t m;
  let vp_base := vaddr r - vaddr r mod PageBytes in
  h ← l2_lookup now vp_base (isSome (origTLB r)) m;
  let '(hit, m) := h in
  match hit with
  | Some pp_base =>
      m ← answer now vp_base pp_base r (m <| mstats ::= stat_inc "l2hits" |>);
      Ok (free_request t m)
  | None =>
      match prefetchBuffer m !! vp_base with
      | Some e =>
          m ← l2_insert now vp_base (ppBase e) (m <| mstats ::= stat_inc "prefetchHits" |>);
          m ← answer now vp_base (ppBase e) r m;
          m ← tryPrefetch now vp_base (m <| prefetchBuffer ::= delete vp_base |>);
          Ok (free_request t m)
      | None => start_walk now vp_base t m
      end
  end.

(** ** Page faults *)

Definition raisePageFaultInterrupt (now : Tick) (m : MMU) : res MMU :=
  t ← match outstandingFaultInfo m with Some t => Ok t | None => Fault (AssertFail "outstandingFaultInfo") end;
  assert (bool_decide (outstandingFaultStatus m = InKernel)) "outstandingFaultStatus == InKernel";;
  r ← get t m;
  assert (inFault (regs m) =? 0) "fault_reg.inFault == 0";;
  let code := (if decide (mode r = Write) then 2 else 0) + 4 in
  let m := m <| regs ::= λ g, (((g <| inFault := 1 |>) <| faultAddr := vaddr r |>) <| faultCode := code |>) <| faultRSP := 0 |> |> in
  assert (negb (scheduled (faultTimeoutEvent m))) "!faultTimeoutEvent.scheduled()";;
  let '(when, m) := clock_edge now faultTimeoutCycles m in
  ev ← schedule now when (faultTimeoutEvent m);
  Ok (m <| faultTimeoutEvent := ev |>).

(** [FaultTimeoutEvent::process]. *)
Definition faultTimeout (m : MMU) : res MMU := Fault (Panic "Fault outstanding for too many cycles").

(** Raise the fault of a translation, or queue it behind the outstanding one. *)
Definition raise_fault (now : Tick) (t : nat) (m : MMU) : res MMU :=
  if decide (outstandingFaultStatus m ≠ NoneOutstanding) then Ok (m <| pendingFaults ::= λ l, l ++ [t] |>)
  else
    let m := m <| mstats ::= stat_inc "numPagefaults" |> in
    let m := (m <| outstandingFaultStatus := InKernel |>) <| outstandingFaultInfo := Some t |> in
    let '(cyc, m) := cur_cycle now m in
    raisePageFaultInterrupt now (upd t (λ r, r <| beginFault := cyc |>) m).

Definition handlePageFault (now : Tick) (t : nat) (m : MMU) : res MMU :=
  r ← get t m;
  if negb FullSystem then Fault (Panic "Page fault handling not available in SE mode")
  else if prefetch r then
    let m := m <| mstats ::= stat_inc "prefetchFaults" |> in
    let walks := walks_of (vpBase r) m in
    if negb (length walks =? 1)%nat then
      let walks := filter (λ x, x ≠ t) walks in
      let m := free_request t (m <| outstandingWalks ::= <[vpBase r := walks]> |>) in
      match walks with
      | [] => Fault (Panic "front of an empty list")
      | t' :: _ => _ ← get t' m; raise_fault now t' m
      end
    else Ok (free_request t (m <| outstandingWalks ::= delete (vpBase r) |>))
  else raise_fault now t m.

(** ** The end of a walk *)

(** A translation that waited for the walk of another one. *)
Definition finish_waiting (now : Tick) (translation : nat) (vp_base pp_base : Addr) (m : MMU) (t : nat) : res MMU :=
  r ← get t m;
  assert (negb (prefetch r)) "!t->prefetch";;
  assert (negb (t =? translation)%nat) "t != translation";;
  m ← answer now vp_base pp_base r m;
  Ok (free_request t m).

Definition finalizeTranslation (now : Tick) (t : nat) (m : MMU) : res MMU :=
  r ← get t m;
  let vp_base := vpBase r in
  let pp_base := paddr r - paddr r mod PageBytes in
  match walks_of vp_base m with
  | [] => Fault (Panic "front of an empty list")
  | front :: walks =>
      assert (front =? t)%nat "walks.front() == translation";;
      m ← (if prefetch r then if (length walks =? 0)%nat then insertPrefetch now vp_base pp_base m else Ok m
           else
             m ← l2_insert now vp_base pp_base m;
             m ← l1_insert now (origTLB r) vp_base pp_base m;
             finish_wrapped (wrapped r) (paddr r) m);
      m ← foldM (finish_waiting now t vp_base pp_base) m walks;
      Ok ((free_request t m) <| outstandingWalks ::= delete vp_base |>)
  end.

(** Start a walk that had to wait for a walker. *)
Definition next_walk (now : Tick) (m : MMU) : res MMU :=
  match pendingWalks m with
  | [] => Ok m
  | t :: rest =>
      let '(walker, m) := getFreeWalker m in
      w ← deref walker;
      m ← schedulePagewalk now w t m;
      Ok (m <| pendingWalks ::= tail |>)
  end.

(** The retry after a page fault has succeeded. *)
Definition fault_handled (now : Tick) (m : MMU) : res MMU :=
  let m := m <| outstandingFaultStatus := NoneOutstanding |> in
  let m := m <| regs ::= λ g, g <| inFault := 0 |> |> in
  match pendingFaults m with
  | [] => Ok m
  | pending :: _ => m ← handlePageFault now pending m; Ok (m <| pendingFaults ::= tail |>)
  end.

(** The walk of the fault that is being retried? *)
Definition is_retry (va : Addr) (m : MMU) : res bool :=
  if decide (outstandingFaultStatus m = Retrying) then
    i ← deref (outstandingFaultInfo m); info ← get i m; Ok (va =? vaddr info)
  else Ok false.

(** [answered]: the walk ended without a fault. *)
Definition finishWalk (now : Tick) (t : nat) (answered : bool) (m : MMU) : res MMU :=
  r ← get t m;
  let '(cyc, m) := cur_cycle now m in
  let m := m <| mstats ::= stat_inc_at "pagewalkLatency" (cyc - beginWalk r) |> in
  m ← setWalkerFree (pageWalker r) m;
  let m := upd t (λ r, r <| pageWalker := None |>) m in
  m ← next_walk now m;
  retry ← is_retry (vaddr r) m;
  m ← (if (retry : bool) then
         if negb answered then Fault (Panic "GPU encountered another fault for faulted address.")
         else fault_handled now m
       else Ok m);
  if answered then finalizeTranslation now t m else handlePageFault now t m.

(** A walker answers: [req->setPaddr] and [TranslationRequest::finish], to which it
    hands back the request, mode and context it was given. *)
Definition walker_answers (now : Tick) (walker : nat) (pa : option Addr) (m : MMU) : res MMU :=
  o ← deref (walking m !! walker);
  t ← deref o;
  let m := m <| walking ::= <[walker := None]> |> in
  match pa with
  | Some pa => finishWalk now t true (upd t (λ r, r <| paddr := pa |>) m)
  | None => finishWalk now t false m
  end.

(** ** The CPU's side of a fault *)

(** [GPUPageFault::invoke] with [PageFault::invoke] in a full system: the handler
    of the kernel starts; [sp] is the stack pointer it runs with. *)
Definition gpu_fault_invoke (sp : Addr) (m : MMU) : res MMU :=
  assert (inFault (regs m) =? 1) "fault_reg.inFault == 1";;
  assert (faultRSP (regs m) =? 0) "fault_rsp == 0";;
  let long := negb (Z.testbit (m5reg (regs m)) 0) in
  let addr := faultAddr (regs m) in
  Ok (m <| regs ::= λ g, (((g <| cr2 := if long then addr else u32 addr |>) <| rsp := sp |>) <| inFault := 2 |>) <| faultRSP := sp |> |>).

Definition handleFinishPageFault (now : Tick) (m : MMU) : res MMU :=
  if negb (scheduled (faultTimeoutEvent m)) then Fault (Panic "faultTimeoutEvent not scheduled!")
  else
    ev ← deschedule (faultTimeoutEvent m);
    let m := m <| faultTimeoutEvent := ev |> in
    assert (bool_decide (outstandingFaultStatus m ≠ NoneOutstanding)) "outstandingFaultStatus != None";;
    if negb (inFault (regs m) =? 2) then Fault (Panic "GPU page fault register status incorrect")
    else
      i ← deref (outstandingFaultInfo m);
      info ← get i m;
      if negb (cr2 (regs m) =? vaddr info) then Ok m
      else if decide (outstandingFaultStatus m = Retrying) then Ok m
      else
        let m := m <| outstandingFaultStatus := Retrying |> in
        let '(cyc, m) := cur_cycle now m in
        let m := m <| mstats ::= stat_inc_at "pagefaultLatency" (cyc - beginFault info) |> in
        let '(walker, m) := getFreeWalker m in
        match walker with
        | None => Ok (m <| pendingWalks ::= λ l, l ++ [i] |>)
        | Some w => schedulePagewalk now w i m
        end.

Definition isFaultInFlight (m : MMU) : bool :=
  negb (inFault (regs m) =? 0) && bool_decide (outstandingFaultStatus m = InKernel).

(** ** The TLBs of the cores *)

Definition SEGMENT_REG_MS : Z := 10.
(** The checks of an x86 system: a memory segment, and 64-bit mode with paging. *)
Definition sane (flags : Z) (g : Regs) : res unit :=
  if Z.land flags 15 =? SEGMENT_REG_MS then Fault (Panic "GPU TLB cannot deal with non-memory addresses")
  else
    assert (Z.testbit (m5reg g) 7) "prot";;
    assert (negb (Z.testbit (m5reg g) 0)) "mode == LongMode";;
    assert (Z.land (Z.shiftr (m5reg g) 1) 7 =? 0) "submode == SixtyFourBitMode";;
    assert (Z.testbit (m5reg g) 6) "paging".

(** [ShaderTLB::translateTiming] of the TLB of core [c]; [i] names the translation. *)
Definition translateTiming (now : Tick) (c i : nat) (flags : Z) (va : Addr) (md : Mode) (m : MMU) : res MMU :=
  sane flags (regs m);;
  t ← deref (l1 m !! c);
  let offset := va mod PageBytes in
  let vp_base := va - offset in
  h ← tlb_lookup now vp_base true t;
  let '(hit, t) := h in
  let m := m <| l1 ::= <[c := t]> |> in
  match hit with
  | Some pp_base => Ok ((m <| mstats ::= stat_inc_at "hits" (Z.of_nat c) |>) <| finished ::= λ l, l ++ [(i, pp_base + offset)] |>)
  | None => beginTLBMiss now c i va md (m <| mstats ::= stat_inc_at "misses" (Z.of_nat c) |>)
  end.

(** [ShaderTLB::beginTranslateTiming]: with its own page table the GPU translates at
    once, with a TLB that must be unbounded. *)
Definition beginTranslateTiming (accessHostPageTable : bool) (numEntries : Z) (pages : gmap Addr Addr)
    (now : Tick) (c i : nat) (flags : Z) (va : Addr) (md : Mode) (m : MMU) : res MMU :=
  if accessHostPageTable then translateTiming now c i flags va md m
  else
    assert (numEntries =? 0) "numEntries == 0";;
    let page_vaddr := addrToPage va in
    match GpuPageTable.lookup page_vaddr pages with
    | Some page_paddr => Ok (m <| finished ::= λ l, l ++ [(i, page_paddr + (va - page_vaddr))] |>)
    | None => Fault (Panic "ShaderTLB missing translation")
    end.
End mmu.

Definition new_regs : Regs := mkRegs 0 0 0 0 0 0 0xc0.

(** A system: the page walkers of the MMU, its TLB, and the TLBs of the cores. *)
Definition new_mmu (walkers cores : nat) (l2_entries l2_assoc l1_entries l1_assoc : Z) : res MMU :=
  l2 ← (if 0 <? l2_entries then t ← new_tlb l2_entries l2_assoc; Ok (Some t) else Ok None);
  t ← new_tlb_memory l1_entries l1_assoc;
  Ok (mkMMU new_clock (replicate walkers false) None [] (replicate walkers (mkSPE None None)) None l2 [] ∅ [] NoneOutstanding None 0 ∅
        ∅ 0 (replicate cores t) new_regs (replicate walkers None) [] ∅).
End ShaderMMU.
