(* ===== verification/MMUProofs.v ===== *)
(** * Translations of the GPU are right and end

    Runs of the TLBs and the MMU: the cores start translations at any time, the
    walkers take as long as they like and find what the page table holds when they
    answer, the kernel handles one fault after the other, and pages are mapped at
    any time but never unmapped. *)

From S2P Require Import Prelude Intmath DramTypes Clock GpuPageTable ShaderTLB ShaderMMU.
Import Intmath Clock GpuPageTable ShaderTLB ShaderMMU.

Module MMUProofs.

(** ** Lists of walkers *)

Lemma omap_insert_new {A B} (f : A → option B) (l : list A) (i : nat) x y b :
  l !! i = Some x → f x = None → f y = Some b → omap f (<[i := y]> l) ≡ₚ b :: omap f l.
Proof.
  intros H Hx Hy. rewrite (insert_take_drop l i y) by by eapply lookup_lt_Some. rewrite <-(take_drop_middle l i x H) at 3.
  rewrite !omap_app. cbn. rewrite Hx, Hy. by rewrite Permutation_middle.
Qed.

Lemma omap_insert_old {A B} (f : A → option B) (l : list A) (i : nat) x y b :
  l !! i = Some x → f x = Some b → f y = None → omap f l ≡ₚ b :: omap f (<[i := y]> l).
Proof.
  intros H Hx Hy. rewrite (insert_take_drop l i y) by by eapply lookup_lt_Some. rewrite <-(take_drop_middle l i x H) at 1.
  rewrite !omap_app. cbn. rewrite Hx, Hy. by rewrite Permutation_middle.
Qed.

(** A walker is free, has a walk to start, or walks. *)
Definition walker_ok (now : Tick) (a : bool) (e : StartPagewalkEvent) (w : option nat) : Prop :=
  (a = false ∧ e = mkSPE None None ∧ w = None) ∨
  (a = true ∧ (∃ t when, e = mkSPE (Some t) (Some when) ∧ now ≤ when) ∧ w = None) ∨
  (a = true ∧ e = mkSPE None None ∧ isSome w = true).

Record walkers_ok (now : Tick) (A : list bool) (E : list StartPagewalkEvent) (W : list (option nat)) : Prop :=
  { wo_len : length E = length A ∧ length W = length A;
    wo_each : ∀ i a e w, A !! i = Some a → E !! i = Some e → W !! i = Some w → walker_ok now a e w }.

Lemma walkers_ins now A E W i a e w : walkers_ok now A E W → walker_ok now a e w → walkers_ok now (<[i := a]> A) (<[i := e]> E) (<[i := w]> W).
Proof.
  intros [[H1 H2] H] Ho. constructor; [by rewrite !length_insert|]. intros j a' e' w' Ha He Hw.
  destruct (decide (i = j)) as [<-|Hne].
  - pose proof (lookup_lt_Some _ _ _ Ha) as Hl. rewrite length_insert in Hl. rewrite list_lookup_insert_eq in Ha by lia. rewrite list_lookup_insert_eq in He by lia. rewrite list_lookup_insert_eq in Hw by lia. by simplify_eq.
  - rewrite list_lookup_insert_ne in Ha by done. rewrite list_lookup_insert_ne in He by done. rewrite list_lookup_insert_ne in Hw by done. by eapply H.
Qed.

Lemma walkers_get now A E W i a : walkers_ok now A E W → A !! i = Some a → ∃ e w, E !! i = Some e ∧ W !! i = Some w ∧ walker_ok now a e w.
Proof.
  intros [[H1 H2] H] Ha. pose proof (lookup_lt_Some _ _ _ Ha) as Hl.
  destruct (lookup_lt_is_Some_2 E i ltac:(lia)) as [e He]. destruct (lookup_lt_is_Some_2 W i ltac:(lia)) as [w Hw]. exists e, w. by split_and!; [..|eapply H].
Qed.

(** ** Requests without what a walk changes *)

Definition norm (r : TranslationRequest) : TranslationRequest :=
  (((r <| pageWalker := None |>) <| paddr := 0 |>) <| beginFault := 0 |>) <| beginWalk := 0 |>.
Definition st (m : MMU) : gmap nat TranslationRequest := norm <$> requests m.

Lemma st_get t r m : st m !! t = Some r ↔ ∃ r0, requests m !! t = Some r0 ∧ r = norm r0.
Proof. unfold st. rewrite lookup_fmap, fmap_Some. done. Qed.

Lemma norm_alter f t (h : gmap nat TranslationRequest) : (∀ r, norm (f r) = norm r) → norm <$> alter f t h = norm <$> h.
Proof.
  intros H. apply map_eq. intros i. rewrite !lookup_fmap. destruct (decide (t = i)) as [<-|Hne]; [|by rewrite lookup_alter_ne].
  rewrite lookup_alter_eq. destruct (h !! t) as [r|]; [|done]. change (Some (norm (f r)) = Some (norm r)). by rewrite H.
Qed.

(** ** The invariant *)

Definition page (va : Addr) : Addr := va - va mod PageBytes.

Definition kernel (s : FaultStatus) (o : option nat) : list nat := if decide (s = InKernel) then option_list o else [].
(** The requests whose walk is waiting for a walker, due or under way. *)
Definition queued (m : MMU) : list nat := pendingWalks m ++ omap spe_translation (pagewalkEvents m) ++ omap id (walking m).
(** All requests that stand for a page: those, and the ones with a fault. *)
Definition places (m : MMU) : list nat := queued m ++ pendingFaults m ++ kernel (outstandingFaultStatus m) (outstandingFaultInfo m).

Definition request_ok (cores : nat) (r : TranslationRequest) : Prop :=
  (∃ c, origTLB r = Some c ∧ (c < cores)%nat) ∧ isSome (wrapped r) = true ∧ vpBase r = page (vaddr r) ∧ prefetch r = false.

(** A request knows the walker that walks for it. *)
Definition walker_of (h : gmap nat TranslationRequest) (W : list (option nat)) : Prop :=
  (∀ t r w, h !! t = Some r → pageWalker r = Some w → W !! w = Some (Some t)) ∧
  (∀ t w, W !! w = Some (Some t) → ∃ r, h !! t = Some r ∧ pageWalker r = Some w).

(** The requests that wait for each page; the first one stands for the page. *)
Record waiting_ok (h : gmap nat TranslationRequest) (miss : list nat) (ow : gmap Addr (list nat)) (pl : list nat) : Prop :=
  { wa_all : ∀ t, is_Some (h !! t) ↔ t ∈ miss ∨ ∃ vp l, ow !! vp = Some l ∧ t ∈ l;
    wa_miss : NoDup miss ∧ ∀ t vp l, ow !! vp = Some l → t ∈ l → t ∉ miss;
    wa_page : ∀ vp l t r, ow !! vp = Some l → t ∈ l → h !! t = Some r → vpBase r = vp;
    wa_list : ∀ vp l, ow !! vp = Some l → NoDup l ∧ l ≠ [];
    wa_places : NoDup pl;
    wa_first : ∀ t, t ∈ pl ↔ ∃ vp l, ow !! vp = Some (t :: l) }.

(** ** Moves between the queues *)

Lemma wait_perm h miss ow pl pl' : pl ≡ₚ pl' → waiting_ok h miss ow pl → waiting_ok h miss ow pl'.
Proof. intros E [H1 H2 H3 H4 H5 H6]. constructor; try done; [by rewrite <-E|]. intros t. by rewrite <-E. Qed.

Lemma wait_new h miss ow pl t r : h !! t = None → waiting_ok h miss ow pl → waiting_ok (<[t := r]> h) (miss ++ [t]) ow pl.
Proof.
  intros Hn [H1 [H2 H2'] H3 H4 H5 H6].
  assert (Hno : (t ∉ miss) ∧ ∀ vp l, ow !! vp = Some l → t ∉ l).
  { split; [intros Hin|intros vp l Hl Hin]; (assert (is_Some (h !! t)) as [? E]; [apply H1|congruence]); [by left|right; by exists vp, l]. }
  destruct Hno as [Hno1 Hno2]. constructor; try done.
  - intros x. destruct (decide (x = t)) as [->|Hne].
    + rewrite lookup_insert_eq. split; [intros _; left; apply elem_of_app; right; by left|by eexists].
    + rewrite lookup_insert_ne by done. rewrite H1, elem_of_app, list_elem_of_singleton. tauto.
  - split; [apply NoDup_app; split_and!; [done| |apply NoDup_singleton]|].
    + intros x Hx ->%list_elem_of_singleton. done.
    + intros x vp l Hl Hx [Hm| ->%list_elem_of_singleton]%elem_of_app; [by eapply H2'|by eapply Hno2].
  - intros vp l x r' Hl Hx. destruct (decide (x = t)) as [->|Hne]; [by destruct (Hno2 vp l Hl)|]. rewrite lookup_insert_ne by done. by eapply H3.
Qed.

Lemma wait_drop_miss h miss ow pl t : waiting_ok h (t :: miss) ow pl → waiting_ok (delete t h) miss ow pl.
Proof.
  intros [H1 [H2 H2'] H3 H4 H5 H6]. apply NoDup_cons in H2 as [Hn H2]. constructor; try done.
  - intros x. destruct (decide (x = t)) as [->|Hne].
    + rewrite lookup_delete_eq. split; [by intros []|]. intros [Hx|(vp & l & Hl & Hx)]; [done|]. destruct (H2' t vp l Hl Hx). by left.
    + rewrite lookup_delete_ne by done. rewrite H1, elem_of_cons. tauto.
  - split; [done|]. intros x vp l Hl Hx Hm. apply (H2' x vp l Hl Hx). by right.
  - intros vp l x r Hl Hx [_ Hr]%lookup_delete_Some. by eapply H3.
Qed.

Lemma wait_join h miss ow pl t r l : h !! t = Some r → ow !! vpBase r = Some l → waiting_ok h (t :: miss) ow pl →
  waiting_ok h miss (<[vpBase r := l ++ [t]]> ow) pl.
Proof.
  intros Hr Hl [H1 [H2 H2'] H3 H4 H5 H6]. apply NoDup_cons in H2 as [Hn H2]. destruct (H4 _ _ Hl) as [Hnd Hne].
  assert (Hin : ∀ vp l', <[vpBase r := l ++ [t]]> ow !! vp = Some l' → (vp = vpBase r ∧ l' = l ++ [t]) ∨ (vp ≠ vpBase r ∧ ow !! vp = Some l')).
  { intros vp l' [[<- <-]|[? ?]]%lookup_insert_Some; [by left|right; by split]. }
  constructor; try done.
  - intros x. rewrite H1, elem_of_cons. split.
    + intros [[->|Hx]|(vp & l' & Hl' & Hx)]; [right|by left|right].
      * exists (vpBase r), (l ++ [t]). rewrite lookup_insert_eq. split; [done|]. apply elem_of_app. right. by left.
      * destruct (decide (vp = vpBase r)) as [->|]; [exists (vpBase r), (l ++ [t])|exists vp, l'; by rewrite lookup_insert_ne].
        rewrite lookup_insert_eq. split; [done|]. apply elem_of_app. left. by simplify_eq.
    + intros [Hx|(vp & l' & [[-> ->]|[Hne' Hl']]%Hin & Hx)]; [tauto| |right; by exists vp, l'].
      apply elem_of_app in Hx as [Hx| ->%list_elem_of_singleton]; [right; by exists (vpBase r), l|by do 2 left].
  - split; [done|]. intros x vp l' [[-> ->]|[Hne' Hl']]%Hin Hx Hm.
    + apply elem_of_app in Hx as [Hx| ->%list_elem_of_singleton]; [|done]. apply (H2' x _ _ Hl Hx). by right.
    + apply (H2' x _ _ Hl' Hx). by right.
  - intros vp l' x r' [[-> ->]|[Hne' Hl']]%Hin Hx Hr'; [|by eapply H3].
    apply elem_of_app in Hx as [Hx| ->%list_elem_of_singleton]; [by eapply H3|congruence].
  - intros vp l' [[-> ->]|[Hne' Hl']]%Hin; [|by eapply H4]. split; [|by destruct l].
    apply NoDup_app. split_and!; [done| |apply NoDup_singleton]. intros x Hx ->%list_elem_of_singleton. apply (H2' t _ _ Hl Hx). by left.
  - intros x. rewrite H6. split.
    + intros (vp & l' & Hl'). destruct (decide (vp = vpBase r)) as [->|]; [|exists vp, l'; by rewrite lookup_insert_ne].
      rewrite Hl in Hl'. injection Hl' as ->. exists (vpBase r), (l' ++ [t]). by rewrite lookup_insert_eq.
    + intros (vp & l' & [[-> E]|[Hne' Hl']]%Hin); [|by exists vp, l']. destruct l as [|y l]; [done|]. injection E as <- _. by exists (vpBase r), l.
Qed.

Lemma wait_first h miss ow pl t r : h !! t = Some r → ow !! vpBase r = None → waiting_ok h (t :: miss) ow pl →
  waiting_ok h miss (<[vpBase r := [t]]> ow) (t :: pl).
Proof.
  intros Hr Hl [H1 [H2 H2'] H3 H4 H5 H6]. apply NoDup_cons in H2 as [Hn H2].
  assert (Hin : ∀ vp l', <[vpBase r := [t]]> ow !! vp = Some l' → (vp = vpBase r ∧ l' = [t]) ∨ (vp ≠ vpBase r ∧ ow !! vp = Some l')).
  { intros vp l' [[<- <-]|[? ?]]%lookup_insert_Some; [by left|right; by split]. }
  assert (Hold : ∀ vp l', ow !! vp = Some l' → <[vpBase r := [t]]> ow !! vp = Some l') by (intros vp l' E; rewrite lookup_insert_ne; congruence).
  constructor.
  - intros x. rewrite H1, elem_of_cons. split.
    + intros [[->|Hx]|(vp & l' & Hl' & Hx)]; [right|by left|right; exists vp, l'; by eauto].
      exists (vpBase r), [t]. rewrite lookup_insert_eq. split; [done|by left].
    + intros [Hx|(vp & l' & [[-> ->]|[_ Hl']]%Hin & Hx)]; [tauto| |right; by exists vp, l']. apply list_elem_of_singleton in Hx. tauto.
  - split; [done|]. intros x vp l' [[-> ->]|[_ Hl']]%Hin Hx Hm; [by apply list_elem_of_singleton in Hx as ->|]. apply (H2' x _ _ Hl' Hx). by right.
  - intros vp l' x r' [[-> ->]|[_ Hl']]%Hin Hx Hr'; [|by eapply H3]. apply list_elem_of_singleton in Hx as ->. congruence.
  - intros vp l' [[-> ->]|[_ Hl']]%Hin; [split; [apply NoDup_singleton|done]|by eapply H4].
  - constructor; [|done]. intros (vp & l & Hl')%H6. apply (H2' t _ _ Hl'); by left.
  - intros x. rewrite elem_of_cons, H6. split.
    + intros [->|(vp & l' & Hl')]; [exists (vpBase r), []; by rewrite lookup_insert_eq|exists vp, l'; by apply Hold].
    + intros (vp & l' & [[-> E]|[_ Hl']]%Hin); [left; congruence|right; by exists vp, l'].
Qed.

(** The requests of a page, all answered. *)
Lemma wait_done h h' miss ow pl vp t l : ow !! vp = Some (t :: l) → (∀ x, h' !! x = if decide (x ∈ t :: l) then None else h !! x) →
  waiting_ok h miss ow (t :: pl) → waiting_ok h' miss (delete vp ow) pl.
Proof.
  intros Hl Hh [H1 [H2 H2'] H3 H4 H5 H6]. apply NoDup_cons in H5 as [Hn H5].
  assert (Hother : ∀ vp' l' x, vp' ≠ vp → ow !! vp' = Some l' → x ∈ l' → x ∉ t :: l).
  { intros vp' l' x Hne Hl' Hx Hx'. assert (is_Some (h !! x)) as [r Hr] by (apply H1; right; by exists vp, (t :: l)).
    apply Hne. by rewrite <-(H3 vp' l' x r), <-(H3 vp (t :: l) x r). }
  constructor; try done.
  - intros x. rewrite Hh. case_decide as Hx.
    + split; [by intros []|]. intros [Hm|(vp' & l' & [Hne Hl']%lookup_delete_Some & Hx')]; [by destruct (H2' x _ _ Hl Hx)|].
      by destruct (Hother vp' l' x).
    + rewrite H1. split; (intros [|(vp' & l' & Hl' & Hx')]; [by left|right]).
      * exists vp', l'. rewrite lookup_delete_ne; [done|]. intros <-. by simplify_eq.
      * apply lookup_delete_Some in Hl' as [_ Hl']. by exists vp', l'.
  - split; [done|]. intros x vp' l' [_ Hl']%lookup_delete_Some. by apply (H2' x vp').
  - intros vp' l' x r [_ Hl']%lookup_delete_Some Hx. rewrite Hh. case_decide; [done|]. by apply (H3 vp' l').
  - intros vp' l' [_ Hl']%lookup_delete_Some. by eapply H4.
  - intros x. split.
    + intros Hx. assert (x ∈ t :: pl) as (vp' & l' & Hl')%H6 by by right. exists vp', l'. rewrite lookup_delete_ne; [done|]. intros <-. by simplify_eq.
    + intros (vp' & l' & [Hne Hl']%lookup_delete_Some). assert (x ∈ t :: pl) as [->|]%elem_of_cons by (apply H6; by exists vp', l'); [|done].
      destruct (Hother vp' (t :: l') t); [done|done|by left|by left].
Qed.

Section run.
Variables (clockPeriod : Tick) (latency faultTimeoutCycles : Z).

(** The misses on their way to the MMU: due in order. *)
Definition misses_ok (now : Tick) (h : gmap nat TranslationRequest) (miss : list nat) (ev : event) : Prop :=
  ∃ ticks, Forall2 (λ t k, ∃ r, h !! t = Some r ∧ startTick r = k) miss ticks ∧
    StronglySorted Z.le ticks ∧ ev = head ticks ∧ Forall (λ k, now ≤ k ≤ (divCeil now clockPeriod + latency) * clockPeriod) ticks.

Definition tlb_right (now : Tick) (pt : gmap Addr Addr) (t : TLBMemory) : Prop :=
  tlb_ok now t ∧ ∀ vp pp, holds_page t vp pp → pt !! vp = Some pp.
Definition memory_right (now : Tick) (pt : gmap Addr Addr) (t : BaseTLBMemory) : Prop :=
  match t with Finite t => tlb_right now pt t | Infinite m => m ⊆ pt end.

Definition fault_ok (pt : gmap Addr Addr) (h : gmap nat TranslationRequest) (s : FaultStatus) (info : option nat)
    (pf : list nat) (g : Regs) (timeout : event) (q : list nat) : Prop :=
  match s with
  | NoneOutstanding => pf = [] ∧ inFault g = 0 ∧ timeout = None
  | InKernel => ∃ t r, info = Some t ∧ h !! t = Some r ∧ isSome timeout = true ∧
      ((inFault g = 1 ∧ faultRSP g = 0 ∧ faultAddr g = vaddr r) ∨ (inFault g = 2 ∧ cr2 g = vaddr r))
  | Retrying => ∃ t r, info = Some t ∧ h !! t = Some r ∧ timeout = None ∧ t ∈ q ∧ is_Some (pt !! vpBase r) ∧ inFault g = 2
  end.

Definition answer_of (pt : gmap Addr Addr) (x : nat * Addr) : nat * Addr :=
  (x.1, default 0 (pt !! page x.2) + x.2 mod PageBytes).
Definition out (h : gmap nat TranslationRequest) : list (nat * Addr) :=
  (λ x, (default 0%nat (wrapped x.2), vaddr x.2)) <$> map_to_list h.
Definition log_ok (pt : gmap Addr Addr) (h : gmap nat TranslationRequest) (fin req : list (nat * Addr)) : Prop :=
  ∃ l, fin = answer_of pt <$> l ∧ Forall (λ x : nat * Addr, is_Some (pt !! page x.2)) l ∧ req ≡ₚ l ++ out h.

(** The tick, the MMU, the page table, and the translations that were asked for. *)
Record conf := mkConf { now : Tick; mm : MMU; pt : gmap Addr Addr; requested : list (nat * Addr) }.
#[export] Instance eta_conf : Eta conf := λ c, mkConf (now c) (mm c) (pt c) (requested c).

(** [x]: the request that a handler is about to answer or to queue. *)
Record mmu_ok (x : list nat) (c : conf) : Prop :=
  { mo_now : 0 < now c;
    mo_clk : clock_ok clockPeriod (now c) (clk (mm c));
    mo_requests : ∀ t r, st (mm c) !! t = Some r → (t < next_request (mm c))%nat ∧ request_ok (length (l1 (mm c))) r;
    mo_walker : walker_of (requests (mm c)) (walking (mm c));
    mo_l1 : Forall (memory_right (now c) (pt c)) (l1 (mm c));
    mo_l2 : ∀ t, tlb (mm c) = Some t → tlb_right (now c) (pt c) t;
    mo_pt : ∀ vp pp, pt c !! vp = Some pp → pp mod PageBytes = 0;
    mo_misses : misses_ok (now c) (st (mm c)) (startMisses (mm c)) (startMissEvent (mm c));
    mo_waiting : waiting_ok (st (mm c)) (startMisses (mm c)) (outstandingWalks (mm c)) (x ++ places (mm c));
    mo_walkers : walkers_ok (now c) (activeWalkers (mm c)) (pagewalkEvents (mm c)) (walking (mm c));
    mo_some : activeWalkers (mm c) ≠ [];
    mo_pending : pendingWalks (mm c) ≠ [] → Forall (λ a, a = true) (activeWalkers (mm c));
    mo_fault : fault_ok (pt c) (st (mm c)) (outstandingFaultStatus (mm c)) (outstandingFaultInfo (mm c)) (pendingFaults (mm c))
      (regs (mm c)) (faultTimeoutEvent (mm c)) (x ++ queued (mm c));
    mo_time : ∀ k, faultTimeoutEvent (mm c) = Some k → now c ≤ k;
    mo_mode : m5reg (regs (mm c)) = 0xc0;
    mo_prefetch : prefetchBuffer (mm c) = ∅;
    mo_log : log_ok (pt c) (st (mm c)) (finished (mm c)) (requested c) }.

Inductive op : Type :=
| Translate (c i : nat) (flags : Z) (va : Addr) (md : Mode)
| Miss
| StartWalk (w : nat)
| EndWalk (w : nat)
| Invoke (sp : Addr)
| KernelDone (pp : Addr)
| MapPage (vp pp : Addr).

(** When events are due. *)
Definition due (m : MMU) : list Tick :=
  option_list (startMissEvent m) ++ omap spe_when (pagewalkEvents m) ++ option_list (faultTimeoutEvent m).

(** A step at a tick: no event is passed over, those of the MMU come when they are
    due, a walker answers if it walks, and the kernel handles a fault in time. *)
Definition guard (c : conf) (o : Tick * op) : bool :=
  let m := mm c in
  (now c <=? o.1) && forallb (λ k, o.1 <=? k) (due m) &&
  match o.2 with
  | Translate k _ flags _ _ => (k <? length (l1 m))%nat && negb (Z.land flags 15 =? SEGMENT_REG_MS)
  | Miss => bool_decide (startMissEvent m = Some o.1)
  | StartWalk w => bool_decide (pagewalkEvents m !! w ≫= spe_when = Some o.1)
  | EndWalk w => isSome (walking m !! w ≫= id)
  | Invoke _ => inFault (regs m) =? 1
  | KernelDone pp => (inFault (regs m) =? 2) && isFaultInFlight m && (pp mod PageBytes =? 0)
  | MapPage vp pp => negb (isSome (pt c !! vp)) && (pp mod PageBytes =? 0)
  end.

(** What a walk finds in the page table. *)
Definition found (va : Addr) (c : conf) : option Addr := (λ pp, pp + va mod PageBytes) <$> pt c !! page va.

Definition step (c : conf) (o : Tick * op) : res conf :=
  let t := o.1 in
  let m := mm c in
  let upd m := Ok ((c <| now := t |>) <| mm := m |>) in
  match o.2 with
  | Translate k i flags va md =>
      m ← translateTiming clockPeriod latency t k i flags va md m;
      Ok (((c <| now := t |>) <| mm := m |>) <| requested ::= λ l, l ++ [(i, va)] |>)
  | Miss => handleTLBMiss clockPeriod 0 t m ≫= upd
  | StartWalk w => process_walk clockPeriod t w m ≫= upd
  | EndWalk w =>
      i ← deref (walking m !! w ≫= id); r ← get i m;
      walker_answers clockPeriod faultTimeoutCycles 0 true t w (found (vaddr r) c) m ≫= upd
  | Invoke sp => gpu_fault_invoke sp m ≫= upd
  | KernelDone pp =>
      m ← handleFinishPageFault clockPeriod t m;
      let vp := page (cr2 (regs m)) in
      Ok (((c <| now := t |>) <| mm := m |>) <| pt ::= λ p, if isSome (p !! vp) then p else <[vp := pp]> p |>)
  | MapPage vp pp => Ok ((c <| now := t |>) <| pt ::= <[vp := pp]> |>)
  end.
Definition gstep (c : conf) (o : Tick * op) : res conf := if guard c o then step c o else Ok c.

Hypothesis period_pos : 0 < clockPeriod.
Hypothesis latency_pos : 0 ≤ latency.
Hypothesis timeout_pos : 0 ≤ faultTimeoutCycles.

(** ** Time passes *)

Lemma due_spec t m : forallb (λ k, t <=? k) (due m) = true → 
  (∀ k, startMissEvent m = Some k → t ≤ k) ∧ (∀ w e k, pagewalkEvents m !! w = Some e → spe_when e = Some k → t ≤ k) ∧
  ∀ k, faultTimeoutEvent m = Some k → t ≤ k.
Proof.
  intros H. rewrite forallb_forall in H. assert (Hd : ∀ k, k ∈ due m → t ≤ k) by (intros k Hk%list_elem_of_In; specialize (H k Hk); lia).
  unfold due in Hd. split_and!.
  - intros k E. apply Hd. rewrite E. by left.
  - intros w e k Hw E. apply Hd. rewrite !elem_of_app, list_elem_of_omap. right; left. exists e. split; [by eapply list_elem_of_lookup_2|done].
  - intros k E. apply Hd. rewrite !elem_of_app, E. right; right. by left.
Qed.

Lemma edge_mono a b : a ≤ b → divCeil a clockPeriod * clockPeriod ≤ divCeil b clockPeriod * clockPeriod.
Proof. intros H. pose proof (divCeil_spec a clockPeriod period_pos). pose proof (divCeil_spec b clockPeriod period_pos).
  destruct (Z.le_gt_cases (divCeil a clockPeriod) (divCeil b clockPeriod)); nia.
Qed.

Lemma later_ok x c t : mmu_ok x c → now c ≤ t → forallb (λ k, t <=? k) (due (mm c)) = true → mmu_ok x (c <| now := t |>).
Proof.
  intros [H1 H2 H3 H4 H6 H7 H8 H9 H10 H11 H12 H13 H14 H15 H16 H17 H18] Hle (D1 & D2 & D3)%due_spec.
  assert (Hright : ∀ m, tlb_right (now c) (pt c) m → tlb_right t (pt c) m) by (intros m [? ?]; split; [by eapply tlb_ok_later|done]).
  constructor; cbn; try done; [lia|by eapply clock_later| | | |].
  - eapply Forall_impl; [exact H6|]. intros [m|m]; cbn; [by apply Hright|done].
  - intros m Hm. by apply Hright, H7.
  - destruct H9 as (ticks & F & S & E & B). exists ticks. split_and!; [done|done|done|]. pose proof (edge_mono _ _ Hle) as Hmono.
    destruct ticks as [|k ticks]; [constructor|]. specialize (D1 k E). apply StronglySorted_inv in S as [_ S].
    inversion B as [|? ? Bk B']; subst. constructor; [lia|]. apply Forall_forall. intros y Hy.
    rewrite Forall_forall in S, B'. specialize (S y Hy). specialize (B' y Hy). lia.
  - destruct H11 as [L H11]. constructor; [done|]. intros i a e w Ha He Hw.
    destruct (H11 i a e w Ha He Hw) as [|[(-> & (t' & k & -> & Hk) & ->)|]]; [by left|right; left|by do 2 right].
    split_and!; [done| |done]. exists t', k. split; [done|]. by apply (D2 i (mkSPE (Some t') (Some k)) k).
Qed.

(** ** The log *)

Lemma out_delete h t r : h !! t = Some r → out h ≡ₚ (default 0%nat (wrapped r), vaddr r) :: out (delete t h).
Proof. intros H. unfold out. by rewrite <-(map_to_list_delete h t r H). Qed.

Lemma log_answer p h fin req t r i pp : log_ok p h fin req → h !! t = Some r → wrapped r = Some i → p !! page (vaddr r) = Some pp →
  log_ok p (delete t h) (fin ++ [(i, pp + vaddr r mod PageBytes)]) req.
Proof.
  intros (l & -> & Hl & Hp) Ht Hw Hpp. exists (l ++ [(i, vaddr r)]). split_and!.
  - rewrite fmap_app. cbn. unfold answer_of. cbn. by rewrite Hpp.
  - apply Forall_app. split; [done|]. apply Forall_singleton. cbn. by rewrite Hpp.
  - rewrite Hp, (out_delete h t r Ht), Hw. cbn. by rewrite <-app_assoc.
Qed.

Lemma log_hit p h fin req i va pp : log_ok p h fin req → p !! page va = Some pp → log_ok p h (fin ++ [(i, pp + va mod PageBytes)]) (req ++ [(i, va)]).
Proof.
  intros (l & -> & Hl & Hp) Hpp. exists (l ++ [(i, va)]). split_and!.
  - rewrite fmap_app. cbn. unfold answer_of. cbn. by rewrite Hpp.
  - apply Forall_app. split; [done|]. apply Forall_singleton. cbn. by rewrite Hpp.
  - rewrite Hp. solve_Permutation.
Qed.

Lemma log_new p h fin req t r i va : log_ok p h fin req → h !! t = None → wrapped r = Some i → vaddr r = va →
  log_ok p (<[t := r]> h) fin (req ++ [(i, va)]).
Proof.
  intros (l & -> & Hl & Hp) Ht Hw <-. exists l. split_and!; [done|done|]. rewrite Hp. unfold out. rewrite (map_to_list_insert h t r Ht).
  cbn. rewrite Hw. cbn. solve_Permutation.
Qed.

Lemma log_pt p p' h fin req : p ⊆ p' → log_ok p h fin req → log_ok p' h fin req.
Proof.
  intros Hsub (l & -> & Hl & Hp). exists l. split_and!; [| |done].
  - apply list_fmap_ext. intros i x Hx. destruct (Forall_lookup_1 _ _ _ _ Hl Hx) as [pp Hpp]. unfold answer_of.
    by rewrite Hpp, (lookup_weaken _ _ _ _ Hpp Hsub).
  - eapply Forall_impl; [exact Hl|]. intros x [pp Hpp]. exists pp. by eapply lookup_weaken.
Qed.

(** ** TLBs with the translations of the page table *)

Lemma right_insert t p vp pp m : tlb_right t p m → 0 < t → p !! vp = Some pp → ∃ m', ShaderTLB.insert t vp pp m = Ok m' ∧ tlb_right t p m'.
Proof.
  intros [Hok Hr] Ht Hpp. destruct (tlb_insert_ok t m vp pp Hok Ht) as (m' & E & Hok' & _ & Hnew & _). exists m'. split; [done|]. split; [done|].
  intros vp' pp' [H|[-> ->]]%Hnew; [by apply Hr|done].
Qed.

Lemma right_lookup t p vp b m : tlb_right t p m → 0 < t →
  ∃ o m', ShaderTLB.lookup t vp b m = Ok (o, m') ∧ tlb_right t p m' ∧ ∀ pp, o = Some pp → p !! vp = Some pp.
Proof.
  intros [Hok Hr] Ht. destruct (tlb_lookup_ok t m vp b Hok Ht) as (o & m' & E & Hok' & Ho & Hv & _). exists o, m'. split_and!; [done| |].
  - split; [done|]. intros vp' pp'. rewrite holds_view, Hv, <-holds_view. apply Hr.
  - intros pp ?%Ho. by apply Hr.
Qed.

Lemma memory_insert t p vp pp m : memory_right t p m → 0 < t → p !! vp = Some pp → ∃ m', tlb_insert t vp pp m = Ok m' ∧ memory_right t p m'.
Proof.
  destruct m as [m|m]; cbn; intros Hr Ht Hpp.
  - destruct (right_insert t p vp pp m Hr Ht Hpp) as (m' & -> & ?). by exists (Finite m').
  - exists (Infinite (<[vp := pp]> m)). split; [done|]. cbn. by apply insert_subseteq_l.
Qed.

Lemma memory_lookup t p vp m : memory_right t p m → 0 < t →
  ∃ o m', tlb_lookup t vp true m = Ok (o, m') ∧ memory_right t p m' ∧ ∀ pp, o = Some pp → p !! vp = Some pp.
Proof.
  destruct m as [m|m]; cbn; intros Hr Ht.
  - destruct (right_lookup t p vp true m Hr Ht) as (o & m' & -> & ? & ?). by exists o, (Finite m').
  - exists (m !! vp), (Infinite m). split_and!; [done|done|]. intros pp E. by eapply lookup_weaken.
Qed.

Lemma l1_insert_ok t p k vp pp m : Forall (memory_right t p) (l1 m) → 0 < t → p !! vp = Some pp → (k < length (l1 m))%nat →
  ∃ l, l1_insert t (Some k) vp pp m = Ok (m <| l1 := l |>) ∧ Forall (memory_right t p) l ∧ length l = length (l1 m).
Proof.
  intros Hr Ht Hpp Hk. destruct (lookup_lt_is_Some_2 _ _ Hk) as [x Hx]. unfold l1_insert. cbn [deref mbind res_bind]. rewrite Hx. cbn [deref mbind res_bind].
  destruct (memory_insert t p vp pp x) as (x' & -> & Hx'); [by eapply (Forall_lookup_1 _ _ _ _ Hr)|done|done|].
  exists (<[k := x']> (l1 m)). split_and!; [done| |by rewrite length_insert]. by apply Forall_insert.
Qed.

Lemma l2_insert_ok t p vp pp m : (∀ x, tlb m = Some x → tlb_right t p x) → 0 < t → p !! vp = Some pp →
  ∃ o, l2_insert t vp pp m = Ok (m <| tlb := o |>) ∧ ∀ x, o = Some x → tlb_right t p x.
Proof.
  intros Hr Ht Hpp. unfold l2_insert. destruct (tlb m) as [x|] eqn:Ex.
  - destruct (right_insert t p vp pp x (Hr x eq_refl) Ht Hpp) as (x' & -> & Hx'). exists (Some x'). split; [done|]. by intros ? [= <-].
  - exists None. split; [|done]. destruct m; cbn in *. by subst.
Qed.

Lemma l2_lookup_ok t p vp b m : (∀ x, tlb m = Some x → tlb_right t p x) → 0 < t →
  ∃ h o, l2_lookup t vp b m = Ok (h, m <| tlb := o |>) ∧ (∀ x, o = Some x → tlb_right t p x) ∧ ∀ pp, h = Some pp → p !! vp = Some pp.
Proof.
  intros Hr Ht. unfold l2_lookup. destruct (tlb m) as [x|] eqn:Ex.
  - destruct (right_lookup t p vp b x (Hr x eq_refl) Ht) as (h & x' & -> & Hx' & Hh). exists h, (Some x'). split_and!; [done| |done]. by intros ? [= <-].
  - exists None, None. split_and!; [|done|done]. destruct m; cbn in *. by subst.
Qed.

(** ** A walk is queued *)

(** All but what concerns the walkers, the clock and statistics. *)
Definition rest (m : MMU) :=
  (startMissEvent m, startMisses m, faultTimeoutEvent m, tlb m, outstandingWalks m, pendingFaults m,
   outstandingFaultStatus m, outstandingFaultInfo m, prefetchBuffer m, next_request m, l1 m, regs m, finished m).

Record walks_ok (t : Tick) (m : MMU) : Prop :=
  { ws_clk : clock_ok clockPeriod t (clk m);
    ws_each : walkers_ok t (activeWalkers m) (pagewalkEvents m) (walking m);
    ws_pending : pendingWalks m ≠ [] → Forall (λ a, a = true) (activeWalkers m) }.

Lemma free_walker_spec m :
  (getFreeWalker m = (None, m) ∧ Forall (λ a, a = true) (activeWalkers m)) ∨
  ∃ w st' n, activeWalkers m !! w = Some false ∧
    getFreeWalker m = (Some w, ((m <| activeWalkers ::= <[w := true]> |>) <| mstats := st' |>) <| curOutstandingWalks := n |>).
Proof.
  unfold getFreeWalker. destruct (first_index negb (activeWalkers m)) as [w|] eqn:E.
  - right. apply first_index_Some in E as (a & Ha & Hn & _). destruct a; [done|]. by eexists w, _, _.
  - left. split; [done|]. apply Forall_forall. intros a Ha. rewrite first_index_None in E. specialize (E a Ha). by destruct a.
Qed.

(** A free walker takes a walk. *)
Lemma claim_ok t i m w st' n : clock_ok clockPeriod t (clk m) → walkers_ok t (activeWalkers m) (pagewalkEvents m) (walking m) →
  activeWalkers m !! w = Some false →
  let m1 := ((m <| activeWalkers ::= <[w := true]> |>) <| mstats := st' |>) <| curOutstandingWalks := n |> in
  ∃ m2 when, schedulePagewalk clockPeriod t w i m1 = Ok m2 ∧ rest m2 = rest m ∧ requests m2 = requests m ∧ walking m2 = walking m ∧
    pendingWalks m2 = pendingWalks m ∧ activeWalkers m2 = <[w := true]> (activeWalkers m) ∧
    pagewalkEvents m !! w = Some (mkSPE None None) ∧ pagewalkEvents m2 = <[w := mkSPE (Some i) (Some when)]> (pagewalkEvents m) ∧ 
    clock_ok clockPeriod t (clk m2) ∧ walkers_ok t (activeWalkers m2) (pagewalkEvents m2) (walking m2).
Proof.
  intros Hclk Hw Ha m1. destruct (walkers_get _ _ _ _ _ _ Hw Ha) as (e & o & He & Ho & Hok).
  destruct Hok as [(_ & -> & ->)|[(? & _)|(? & _)]]; [|done|done].
  unfold schedulePagewalk. rewrite assert_bind by (apply bool_decide_eq_true; cbn; by rewrite list_lookup_insert_eq by by eapply lookup_lt_Some).
  change (pagewalkEvents m1) with (pagewalkEvents m). rewrite He. cbn [deref mbind res_bind isSome spe_translation].
  destruct (clockEdge_ok clockPeriod period_pos t 1 (clk m) Hclk) as (ck & Ec & Hck). unfold clock_edge. change (clk m1) with (clk m). rewrite Ec.
  cbn [fst snd assert mbind res_bind negb spe_when]. pose proof (edge_late clockPeriod period_pos t 1) as Hl.
  unfold schedule. rewrite assert_bind by lia. rewrite assert_bind by done. cbn [mbind res_bind].
  eexists _, _. split; [done|]. split_and!; try done. cbn.
  rewrite <-(list_insert_id (walking m) w None Ho) at 1. apply walkers_ins; [done|]. right; left. split_and!; [done| |done]. eexists _, _. split; [done|]. lia.
Qed.

(** Only the walks, and what a walk changes of a request, are new. *)
Lemma rebuild x x' c m' : mmu_ok x c → rest m' = rest (mm c) → st m' = st (mm c) → walks_ok (now c) m' → activeWalkers m' ≠ [] →
  walker_of (requests m') (walking m') → x' ++ queued m' ≡ₚ x ++ queued (mm c) → mmu_ok x' (c <| mm := m' |>).
Proof.
  intros [H1 H2 H3 H4 H6 H7 H8 H9 H10 H11 H12 H13 H14 H15 H16 H17 H18] Hr Hs [W1 W2 W3] Hne Hpw Hq.
  unfold rest in Hr. injection Hr as R1 R2 R3 R4 R5 R6 R7 R8 R9 R10 R11 R12 R13.
  constructor; change (mm (c <| mm := m' |>)) with m'; change (now (c <| mm := m' |>)) with (now c);
    change (pt (c <| mm := m' |>)) with (pt c); change (requested (c <| mm := m' |>)) with (requested c);
    rewrite ?Hs, ?R1, ?R2, ?R3, ?R4, ?R5, ?R6, ?R7, ?R8, ?R9, ?R10, ?R11, ?R12, ?R13; try done.
  - eapply wait_perm; [|exact H10]. unfold places. by rewrite R6, R7, R8, !app_assoc, Hq.
  - unfold fault_ok in *. destruct (outstandingFaultStatus (mm c)); [done|done|].
    destruct H14 as (t & r & Ei & Er & Et & Hin & Hp & Hf2). exists t, r. split_and!; try done. by rewrite Hq.
Qed.

(** A request that stands for a page is queued for a walk. *)
Definition enqueue (t : Tick) (i : nat) (m : MMU) : res MMU :=
  let '(walker, m) := getFreeWalker m in
  match walker with
  | None => Ok (m <| pendingWalks ::= λ l, l ++ [i] |>)
  | Some w => schedulePagewalk clockPeriod t w i m
  end.

Lemma queued_event m m2 w i when : pagewalkEvents m !! w = Some (mkSPE None None) → pagewalkEvents m2 = <[w := mkSPE (Some i) (Some when)]> (pagewalkEvents m) →
  pendingWalks m2 = pendingWalks m → walking m2 = walking m → queued m2 ≡ₚ i :: queued m.
Proof.
  intros He E1 E2 E3. unfold queued. rewrite E1, E2, E3, (omap_insert_new _ _ w _ _ i He) by done. cbn. solve_Permutation.
Qed.

Lemma enqueue_ok t i m : walks_ok t m → ∃ m', enqueue t i m = Ok m' ∧ walks_ok t m' ∧ rest m' = rest m ∧ requests m' = requests m ∧ walking m' = walking m ∧
  length (activeWalkers m') = length (activeWalkers m) ∧ queued m' ≡ₚ i :: queued m.
Proof.
  intros [W1 W2 W3]. unfold enqueue. destruct (free_walker_spec m) as [[-> Hall]|(w & s' & n & Hw & ->)].
  - eexists. split; [done|]. split_and!; try done. unfold queued. cbn. solve_Permutation.
  - destruct (claim_ok t i m w s' n W1 W2 Hw) as (m2 & when & -> & Hr & Hreq & Hwk & Hp & Ha & He & Ee & Hc & Hws).
    exists m2. split; [done|]. split_and!; try done; [|by rewrite Ha, length_insert|by eapply queued_event].
    constructor; try done. rewrite Hp, Ha. intros Hne. apply Forall_insert; [|done]. by apply W3.
Qed.

(** ** A walker is done *)

Lemma next_walk_ok t w m : clock_ok clockPeriod t (clk m) → walkers_ok t (activeWalkers m) (pagewalkEvents m) (walking m) →
  (∃ A, activeWalkers m = <[w := false]> A ∧ (w < length A)%nat ∧ (pendingWalks m ≠ [] → Forall (λ a, a = true) A)) →
  ∃ m', next_walk clockPeriod t m = Ok m' ∧ walks_ok t m' ∧ rest m' = rest m ∧ requests m' = requests m ∧ walking m' = walking m ∧
    length (activeWalkers m') = length (activeWalkers m) ∧ queued m' ≡ₚ queued m.
Proof.
  intros Hc Hw (A & HA & Hlt & Hall). unfold next_walk. destruct (pendingWalks m) as [|j js] eqn:Ep.
  { exists m. split; [done|]. by split_and!. }
  specialize (Hall ltac:(done)). destruct (free_walker_spec m) as [[_ Hf]|(w' & s' & n & Hw' & ->)].
  { exfalso. rewrite HA in Hf. pose proof (Forall_lookup_1 _ _ w false Hf) as X. rewrite list_lookup_insert_eq in X by done. by specialize (X eq_refl). }
  assert (w' = w) as ->.
  { destruct (decide (w' = w)) as [|Hne]; [done|]. rewrite HA, list_lookup_insert_ne in Hw' by done. by apply (Forall_lookup_1 _ _ _ _ Hall) in Hw'. }
  cbn [deref mbind res_bind].
  destruct (claim_ok t j m w s' n Hc Hw Hw') as (m2 & when & -> & Hr & Hreq & Hwk & Hp & Ha & He & Ee & Hc2 & Hws).
  cbn [mbind res_bind]. eexists. split; [done|]. split_and!; try done.
  - constructor; cbn; try done. rewrite Hp, Ep, Ha, HA, list_insert_insert_eq. intros _. by apply Forall_insert.
  - cbn. by rewrite Ha, length_insert.
  - pose proof (queued_event m m2 w j when He Ee Hp Hwk) as Hq. unfold queued in *. cbn. rewrite Hp, Ep in *. cbn in *. by apply Permutation_cons_inv in Hq.
Qed.

(** [finishWalk] once the walker is free and has, maybe, a new walk. *)
Definition after_walk (b : bool) (t : Tick) (i : nat) (va : Addr) (m3 : MMU) : res MMU :=
  retry ← is_retry va m3;
  m ← (if (retry : bool) then
         if negb b then Fault (Panic "GPU encountered another fault for faulted address.")
         else fault_handled clockPeriod faultTimeoutCycles true t m3
       else Ok m3);
  if b then finalizeTranslation 0 t i m else handlePageFault clockPeriod faultTimeoutCycles true t i m.

Lemma finish_eq b t i r m w : requests m !! i = Some r → pageWalker r = Some w → activeWalkers m !! w = Some true →
  ∃ s' n, finishWalk clockPeriod faultTimeoutCycles 0 true t i b m =
    (m3 ← next_walk clockPeriod t (upd i (λ r, r <| pageWalker := None |>)
             ((((m <| clk := (curCycle clockPeriod t (clk m)).2 |>) <| mstats ::= s' |>) <| activeWalkers ::= <[w := false]> |>) <| curOutstandingWalks ::= n |>));
     after_walk b t i (vaddr r) m3).
Proof.
  intros Hr Hpw Ha. eexists _, _. unfold finishWalk, get. rewrite Hr. cbn [mbind res_bind]. unfold cur_cycle. cbn [fst snd].
  rewrite Hpw. unfold setWalkerFree at 1. cbn [mbind res_bind]. match goal with |- context [activeWalkers ?mm !! w] => change (activeWalkers mm) with (activeWalkers m) end.
  rewrite Ha. cbn [mbind res_bind]. rewrite assert_bind by by apply bool_decide_eq_true. cbn [mbind res_bind]. reflexivity.
Qed.

Lemma finish_prefix b t w i r m : walks_ok t m → walking m !! w = Some (Some i) → requests m !! i = Some r → pageWalker r = Some w →
  ∃ m3, finishWalk clockPeriod faultTimeoutCycles 0 true t i b (m <| walking ::= <[w := None]> |>) = after_walk b t i (vaddr r) m3 ∧
    walks_ok t m3 ∧ rest m3 = rest m ∧ walking m3 = <[w := None]> (walking m) ∧ queued m ≡ₚ i :: queued m3 ∧
    requests m3 = <[i := r <| pageWalker := None |>]> (requests m) ∧ length (activeWalkers m3) = length (activeWalkers m).
Proof.
  intros [W1 W2 W3] Hi Hr Hpw.
  assert (∃ a, activeWalkers m !! w = Some a) as [a Ha].
  { apply lookup_lt_is_Some_2. destruct W2 as [[_ <-] _]. by eapply lookup_lt_Some. }
  destruct (walkers_get _ _ _ _ _ _ W2 Ha) as (e & o & He & Ho & Hok). rewrite Hi in Ho. injection Ho as <-.
  destruct Hok as [(_ & _ & ?)|[(_ & _ & ?)|(-> & -> & _)]]; [done|done|].
  destruct (finish_eq b t i r (m <| walking ::= <[w := None]> |>) w) as (s' & n & ->); [done|done|done|].
  destruct (clockEdge_ok clockPeriod period_pos t 0 (clk m) W1) as (ck & Ec & Hck). unfold clockEdge in Ec. injection Ec as _ Eck.
  match goal with |- context [next_walk _ _ ?mm] => set (m2 := mm) end.
  assert (R2 : rest m2 = rest m) by reflexivity. assert (K2 : walking m2 = <[w := None]> (walking m)) by reflexivity.
  assert (Q2 : requests m2 = alter (λ r, r <| pageWalker := None |>) i (requests m)) by reflexivity.
  assert (P2 : pendingWalks m2 = pendingWalks m) by reflexivity. assert (E2 : pagewalkEvents m2 = pagewalkEvents m) by reflexivity.
  assert (A2 : activeWalkers m2 = <[w := false]> (activeWalkers m)) by reflexivity.
  destruct (next_walk_ok t w m2) as (m3 & -> & Hws & Hrest & Hreq & Hwk & Hlen & Hq).
  - change (clk m2) with (update clockPeriod t (clk m)). by rewrite Eck.
  - rewrite A2, E2, K2. rewrite <-(list_insert_id _ _ _ He). apply walkers_ins; [done|]. by left.
  - exists (activeWalkers m). rewrite P2. split_and!; [done|by eapply lookup_lt_Some|exact W3].
  - clearbody m2. exists m3. split; [done|]. split_and!; [done|congruence|congruence| | |].
    + rewrite Hq. unfold queued. rewrite K2, P2, E2. rewrite (omap_insert_old id (walking m) w _ None i Hi) by done. solve_Permutation.
    + rewrite Hreq, Q2. apply map_eq. intros j. destruct (decide (j = i)) as [->|]; [|by rewrite lookup_alter_ne, lookup_insert_ne].
      by rewrite lookup_insert_eq, lookup_alter_eq, Hr.
    + by rewrite Hlen, A2, length_insert.
Qed.

Lemma held_ok c w i r r' m3 : mmu_ok [] c → walking (mm c) !! w = Some (Some i) → requests (mm c) !! i = Some r →
  norm r' = norm r → pageWalker r' = None → walks_ok (now c) m3 → rest m3 = rest (mm c) → walking m3 = <[w := None]> (walking (mm c)) →
  queued (mm c) ≡ₚ i :: queued m3 → requests m3 = <[i := r']> (requests (mm c)) → length (activeWalkers m3) = length (activeWalkers (mm c)) →
  mmu_ok [i] (c <| mm := m3 |>).
Proof.
  intros H Hw Hi Hn Hp Hws Hrest Hwk Hq Hreq Hlen. apply (rebuild [] [i] c m3); try done.
  - unfold st. rewrite Hreq, fmap_insert, Hn, insert_id; [done|]. by rewrite lookup_fmap, Hi.
  - pose proof (mo_some _ _ H). intros E. rewrite E in Hlen. by destruct (activeWalkers (mm c)).
  - destruct (mo_walker _ _ H) as [P1 P2]. rewrite Hreq, Hwk. split.
    + intros t r0 w0 [[<- <-]|[Hne Ht]]%lookup_insert_Some Hpw; [congruence|]. pose proof (P1 t r0 w0 Ht Hpw) as E.
      rewrite list_lookup_insert_ne; [done|]. intros ->. rewrite Hw in E. congruence.
    + intros t w0 E. apply list_lookup_insert_Some in E as [(_ & ? & _)|[Hne E]]; [done|].
      destruct (P2 t w0 E) as (r0 & Ht & Hpw). exists r0. split; [|done]. rewrite lookup_insert_ne; [done|]. intros E0.
      destruct (P2 i w Hw) as (r1 & Hr1 & Hpw1). congruence.
Qed.

(** ** A fault *)

Lemma place_request x c i : mmu_ok x c → i ∈ x ++ places (mm c) → ∃ r vp l, requests (mm c) !! i = Some r ∧ request_ok (length (l1 (mm c))) r ∧
  outstandingWalks (mm c) !! vp = Some (i :: l) ∧ vpBase r = vp.
Proof.
  intros H. destruct (mo_waiting _ _ H) as [W1 W2 W3 W4 W5 W6]. intros (vp & l & Hl)%W6.
  assert (is_Some (st (mm c) !! i)) as [r0 Hr0] by (apply W1; right; exists vp, (i :: l); split; [done|by left]).
  pose proof Hr0 as (r & Hr & ->)%st_get. exists r, vp, l. split; [done|]. split; [apply (mo_requests _ _ H i (norm r) Hr0)|].
  split; [done|]. apply (W3 vp (i :: l) i (norm r) Hl); [by left|done].
Qed.

Lemma held_request i c : mmu_ok [i] c → ∃ r vp l, requests (mm c) !! i = Some r ∧ request_ok (length (l1 (mm c))) r ∧
  outstandingWalks (mm c) !! vp = Some (i :: l) ∧ vpBase r = vp.
Proof. intros H. apply (place_request [i] c i H). by left. Qed.

Lemma interrupt_ok t i r m : outstandingFaultInfo m = Some i → outstandingFaultStatus m = InKernel → requests m !! i = Some r →
  inFault (regs m) = 0 → faultTimeoutEvent m = None → clock_ok clockPeriod t (clk m) →
  ∃ code ck k, raisePageFaultInterrupt clockPeriod faultTimeoutCycles t m =
    Ok (((m <| regs ::= λ g, (((g <| inFault := 1 |>) <| faultAddr := vaddr r |>) <| faultCode := code |>) <| faultRSP := 0 |> |>) <| clk := ck |>)
          <| faultTimeoutEvent := Some k |>) ∧ clock_ok clockPeriod t ck ∧ t ≤ k.
Proof.
  intros Ei Es Er E0 Et Hc. unfold raisePageFaultInterrupt, get. rewrite Ei. cbn [mbind res_bind]. rewrite Es, Er. cbn [mbind res_bind].
  rewrite E0. cbn [mbind res_bind]. destruct (clockEdge_ok clockPeriod period_pos t faultTimeoutCycles (clk m) Hc) as (ck & Ec & Hck).
  rewrite !assert_bind by done. match goal with |- context [clock_edge _ _ _ ?mm] => set (m1 := mm) end.
  change (faultTimeoutEvent m1) with (faultTimeoutEvent m). rewrite Et. cbn [scheduled isSome negb assert mbind res_bind].
  unfold clock_edge. change (clk m1) with (clk m). rewrite Ec. cbn [fst snd]. 
  match goal with |- context [schedule _ _ (faultTimeoutEvent ?mm)] => change (faultTimeoutEvent mm) with (faultTimeoutEvent m) end. rewrite Et.
  pose proof (edge_late clockPeriod period_pos t faultTimeoutCycles) as Hl. unfold schedule. rewrite assert_bind by nia. rewrite assert_bind by done. cbn [mbind res_bind].
  eexists _, ck, _. split; [reflexivity|]. split; [done|nia].
Qed.

(** Queue the fault behind the outstanding one, or raise it. *)
Lemma raise_queue i c : mmu_ok [i] c → outstandingFaultStatus (mm c) ≠ NoneOutstanding →
  (outstandingFaultStatus (mm c) = Retrying → outstandingFaultInfo (mm c) ≠ Some i) →
  mmu_ok [] (c <| mm := (mm c) <| pendingFaults ::= λ l, l ++ [i] |> |>).
Proof.
  intros [H1 H2 H3 H4 H6 H7 H8 H9 H10 H11 H12 H13 H14 H15 H16 H17 H18] Hs Hi. constructor; try done.
  - eapply wait_perm; [|exact H10]. unfold places, queued. cbn. solve_Permutation.
  - unfold fault_ok in *. cbn. destruct (outstandingFaultStatus (mm c)); [done|done|].
    destruct H14 as (t & r & Ei & Er & Et & Hin & Hp & Hf2). exists t, r. split_and!; try done.
    apply elem_of_cons in Hin as [->|Hin]; [by destruct (Hi eq_refl)|done].
Qed.

(** A fault is handed to the kernel; [pf] is what is left to raise. *)
Lemma to_kernel x x' pf j c r ck code k (n : Z) : mmu_ok x c → outstandingFaultStatus (mm c) ≠ InKernel → requests (mm c) !! j = Some r →
  x ++ pendingFaults (mm c) ≡ₚ x' ++ pf ++ [j] → clock_ok clockPeriod (now c) ck → now c ≤ k → ∀ m',
  rest m' = rest ((((((mm c) <| outstandingFaultStatus := InKernel |>) <| outstandingFaultInfo := Some j |>) <| faultTimeoutEvent := Some k |>)
    <| regs ::= λ g, (((g <| inFault := 1 |>) <| faultAddr := vaddr r |>) <| faultCode := code |>) <| faultRSP := 0 |> |>) <| pendingFaults := pf |>) →
  requests m' = alter (λ r, r <| beginFault := n |>) j (requests (mm c)) → clk m' = ck → walking m' = walking (mm c) →
  activeWalkers m' = activeWalkers (mm c) → pagewalkEvents m' = pagewalkEvents (mm c) → pendingWalks m' = pendingWalks (mm c) →
  mmu_ok x' (c <| mm := m' |>).
Proof.
  intros [H1 H2 H3 H4 H6 H7 H8 H9 H10 H11 H12 H13 H14 H15 H16 H17 H18] Hs Hr Hx Hck Hk m' Hrest Hreq Hclk Hwk Ha He Hp.
  assert (Hst : st m' = st (mm c)) by (unfold st; rewrite Hreq; by apply norm_alter).
  assert (Hq : queued m' = queued (mm c)) by (unfold queued; by rewrite Hwk, He, Hp).
  unfold rest in Hrest. injection Hrest as R1 R2 R3 R4 R5 R6 R7 R8 R9 R10 R11 R12 R13.
  constructor; change (mm (c <| mm := m' |>)) with m'; change (now (c <| mm := m' |>)) with (now c);
    change (pt (c <| mm := m' |>)) with (pt c); change (requested (c <| mm := m' |>)) with (requested c);
    rewrite ?Hst, ?R1, ?R2, ?R3, ?R4, ?R5, ?R6, ?R7, ?R8, ?R9, ?R10, ?R11, ?R12, ?R13, ?Ha, ?He, ?Hwk, ?Hclk, ?Hp; try done.
  - destruct H4 as [P1 P2]. rewrite Hreq. split.
    + intros t r0 w Ht Hw. apply lookup_alter_Some in Ht as [(<- & r1 & Ht & ->)|[_ Ht]]; by eapply P1.
    + intros t w Hw. destruct (P2 t w Hw) as (r0 & Ht & Hpw). destruct (decide (j = t)) as [<-|Hne]; [|exists r0; by rewrite lookup_alter_ne].
      eexists. rewrite lookup_alter_eq, Ht. by split.
  - eapply wait_perm; [|exact H10]. unfold places, kernel. rewrite R6, R7, R8, Hq, decide_False, decide_True by done. cbn [option_list pendingFaults set_field].
    rewrite app_nil_r, (Permutation_app_comm (queued (mm c))), app_assoc, Hx. rewrite <-app_assoc. apply Permutation_app_head, Permutation_app_comm.
  - exists j, (norm r). rewrite st_get. split_and!; [done|by exists r|done|]. by left.
  - intros ? [= <-]. done.
Qed.

Lemma raise_ok i c : mmu_ok [i] c → (outstandingFaultStatus (mm c) = Retrying → outstandingFaultInfo (mm c) ≠ Some i) →
  ∃ m', handlePageFault clockPeriod faultTimeoutCycles true (now c) i (mm c) = Ok m' ∧ mmu_ok [] (c <| mm := m' |>) ∧
    (outstandingFaultStatus (mm c) = NoneOutstanding ∧ outstandingFaultStatus m' = InKernel ∧ inFault (regs m') = 1 ∧ pendingFaults m' = pendingFaults (mm c) ∨
     outstandingFaultStatus (mm c) ≠ NoneOutstanding ∧ outstandingFaultStatus m' = outstandingFaultStatus (mm c) ∧ regs m' = regs (mm c) ∧
       pendingFaults m' = pendingFaults (mm c) ++ [i]) ∧ 
    queued m' = queued (mm c) ∧ walking m' = walking (mm c) ∧ startMisses m' = startMisses (mm c).
Proof.
  intros H Hi. destruct (held_request i c H) as (r & _ & _ & Hr & (_ & _ & _ & Hpre) & _). unfold handlePageFault, get. rewrite Hr. cbn [mbind res_bind negb].
  rewrite Hpre. unfold raise_fault. case_decide as Hs.
  { eexists. split; [reflexivity|]. split; [by apply raise_queue|]. split; [|done]. right. by split_and!. }
  unfold cur_cycle. cbn [fst snd].
  pose proof (mo_fault _ _ H) as Hf. unfold fault_ok in Hf. rewrite Hs in Hf. destruct Hf as (Hpf & Hin & Hto).
  destruct (clockEdge_ok clockPeriod period_pos (now c) 0 (clk (mm c)) (mo_clk _ _ H)) as (ck & Ec & Hck). unfold clockEdge in Ec. injection Ec as _ Eck.
  match goal with |- context [raisePageFaultInterrupt _ _ _ ?mm] => set (m1 := mm) end.
  set (n := (curCycle _ _ _).1) in m1. set (r1 := r <| beginFault := n |>).
  assert (Hr1 : requests m1 !! i = Some r1) by (change (requests m1) with (alter (λ r, r <| beginFault := n |>) i (requests (mm c))); by rewrite lookup_alter_eq, Hr).
  assert (Hck1 : clock_ok clockPeriod (now c) (clk m1)) by (change (clk m1) with (update clockPeriod (now c) (clk (mm c))); by rewrite Eck).
  destruct (interrupt_ok (now c) i r1 m1) as (code & ck' & k & -> & Hck' & Hk); try done.
  eexists. split; [reflexivity|]. split; [|split; [left; by split_and!|done]].
  eapply (to_kernel [i] [] [] i c r ck' code k n); try done; [by rewrite Hs|by rewrite Hpf|].
  unfold rest. by rewrite <-Hpf.
Qed.

(** The walk of the fault that was being retried has found its page. *)
Lemma handled_none i c : mmu_ok [i] c → outstandingFaultStatus (mm c) = Retrying → pendingFaults (mm c) = [] →
  mmu_ok [i] (c <| mm := ((mm c) <| outstandingFaultStatus := NoneOutstanding |>) <| regs ::= λ g, g <| inFault := 0 |> |> |>).
Proof.
  intros [H1 H2 H3 H4 H6 H7 H8 H9 H10 H11 H12 H13 H14 H15 H16 H17 H18] Hs Hp. constructor; try done.
  - unfold places in *. cbn. rewrite Hs in H10. done.
  - unfold fault_ok in *. cbn. rewrite Hs in H14. destruct H14 as (? & ? & _ & _ & ? & _). done.
Qed.

Lemma handled_ok i c : mmu_ok [i] c → outstandingFaultStatus (mm c) = Retrying →
  ∃ m', fault_handled clockPeriod faultTimeoutCycles true (now c) (mm c) = Ok m' ∧ mmu_ok [i] (c <| mm := m' |>) ∧
    requests m' !! i = requests (mm c) !! i ∧ queued m' = queued (mm c) ∧ walking m' = walking (mm c) ∧ startMisses m' = startMisses (mm c) ∧
    (outstandingFaultStatus m' = NoneOutstanding ∧ pendingFaults m' = [] ∧ pendingFaults (mm c) = [] ∨
     outstandingFaultStatus m' = InKernel ∧ inFault (regs m') = 1 ∧ length (pendingFaults (mm c)) = S (length (pendingFaults m'))).
Proof.
  intros H Hs. unfold fault_handled. set (m1 := ((mm c) <| outstandingFaultStatus := _ |>) <| regs ::= _ |>).
  change (pendingFaults m1) with (pendingFaults (mm c)). destruct (pendingFaults (mm c)) as [|j js] eqn:Ep.
  { exists m1. split; [done|]. split; [by apply handled_none|]. split_and!; [done|done|done|done|]. by left. }
  destruct (place_request [i] c j H) as (r & vp & l & Hr & (_ & _ & _ & Hpre) & _).
  { unfold places. rewrite Ep. right. rewrite !elem_of_app. right; left; by left. }
  assert (Hne : j ≠ i).
  { intros ->. pose proof (wa_places _ _ _ _ (mo_waiting _ _ H)) as Hn. apply NoDup_cons in Hn as [Hn _]. apply Hn.
    unfold places. rewrite Ep, !elem_of_app. right; left; by left. }
  unfold handlePageFault, get. change (requests m1) with (requests (mm c)). rewrite Hr. cbn [mbind res_bind negb]. rewrite Hpre.
  unfold raise_fault. rewrite decide_False by (intros X; by apply X). unfold cur_cycle. cbn [fst snd].
  pose proof (mo_fault _ _ H) as Hf. unfold fault_ok in Hf. rewrite Hs in Hf. destruct Hf as (_ & _ & _ & _ & Hto & _).
  destruct (clockEdge_ok clockPeriod period_pos (now c) 0 (clk (mm c)) (mo_clk _ _ H)) as (ck & Ec & Hck). unfold clockEdge in Ec. injection Ec as _ Eck.
  match goal with |- context [raisePageFaultInterrupt _ _ _ ?mm] => set (m2 := mm) end.
  set (n := (curCycle _ _ _).1) in m2. set (r1 := r <| beginFault := n |>).
  assert (Hr1 : requests m2 !! j = Some r1) by (change (requests m2) with (alter (λ r, r <| beginFault := n |>) j (requests (mm c))); by rewrite lookup_alter_eq, Hr).
  assert (Hck1 : clock_ok clockPeriod (now c) (clk m2)) by (change (clk m2) with (update clockPeriod (now c) (clk (mm c))); by rewrite Eck).
  destruct (interrupt_ok (now c) j r1 m2) as (code & ck' & k & -> & Hck' & Hk); try done. cbn [mbind res_bind].
  eexists. split; [reflexivity|]. split; [|split; [cbn; by rewrite lookup_alter_ne|split; [done|split; [done|split; [done|right; split; [done|split; [done|]]]]]]].
  - eapply (to_kernel [i] [i] js j c r ck' code k n); try done; [by rewrite Hs|rewrite Ep; cbn; by rewrite (Permutation_app_comm js)|].
    unfold rest. cbn. by rewrite Ep.
  - cbn. by rewrite Ep.
Qed.

(** ** The answer of a walk goes to all who wait for the page *)

(** All but the TLBs of the cores, the requests and the log. *)
Definition others (m : MMU) :=
  (clk m, activeWalkers m, startMissEvent m, startMisses m, pagewalkEvents m, faultTimeoutEvent m, tlb m, pendingWalks m,
   outstandingWalks m, pendingFaults m, outstandingFaultStatus m, outstandingFaultInfo m, prefetchBuffer m, next_request m, regs m, walking m).

Lemma page_of_answer pp va : pp mod PageBytes = 0 → (pp + va mod PageBytes) - (pp + va mod PageBytes) mod PageBytes = pp.
Proof.
  intros H. pose proof (Z.mod_pos_bound va PageBytes ltac:(done)). rewrite Z.add_mod by done. rewrite H, Z.mod_mod by done.
  rewrite Z.add_0_l, Z.mod_mod by done. lia.
Qed.

Lemma answer_ok t p vp pp r i req h m : Forall (memory_right t p) (l1 m) → 0 < t → p !! vp = Some pp → request_ok (length (l1 m)) r → vpBase r = vp →
  h !! i = Some (norm r) → log_ok p h (finished m) req →
  ∃ m', answer t vp pp r m = Ok m' ∧ others m' = others m ∧ requests m' = requests m ∧ Forall (memory_right t p) (l1 m') ∧ length (l1 m') = length (l1 m) ∧
    log_ok p (delete i h) (finished m') req.
Proof.
  intros Hl1 Ht Hpp ((k & Ek & Hk) & Hw & Hvp & _) <- Hr Hlog. unfold answer. rewrite Ek.
  destruct (l1_insert_ok t p k (vpBase r) pp m Hl1 Ht Hpp Hk) as (l & -> & Hl & Hlen). cbn [mbind res_bind]. unfold finish_wrapped.
  destruct (wrapped r) as [o|] eqn:Ew; [|done]. cbn [deref mbind res_bind]. eexists. split; [reflexivity|]. split_and!; try done.
  apply (log_answer p h (finished m) req i (norm r) o pp); [done|done|done|].
  change (vaddr (norm r)) with (vaddr r). by rewrite <-Hvp.
Qed.

Lemma waiting_loop t i vp pp p req : 0 < t → p !! vp = Some pp → ∀ ws m, NoDup ws → i ∉ ws →
  (∀ x, x ∈ ws → ∃ r, requests m !! x = Some r ∧ request_ok (length (l1 m)) r ∧ vpBase r = vp) →
  Forall (memory_right t p) (l1 m) → log_ok p (delete i (st m)) (finished m) req →
  ∃ m', foldM (finish_waiting t i vp pp) m ws = Ok m' ∧ Forall (memory_right t p) (l1 m') ∧ length (l1 m') = length (l1 m) ∧
    log_ok p (delete i (st m')) (finished m') req ∧ (∀ x, requests m' !! x = if decide (x ∈ ws) then None else requests m !! x) ∧ others m' = others m.
Proof.
  intros Ht Hpp. induction ws as [|x ws IH]; intros m Hnd Hi Hws Hl1 Hlog; cbn [foldM].
  { exists m. by split_and!. }
  apply NoDup_cons in Hnd as [Hx Hnd]. apply not_elem_of_cons in Hi as [Hix Hi].
  destruct (Hws x ltac:(by left)) as (r & Hr & Hrok & Hvp). pose proof Hrok as (_ & _ & _ & Hpre).
  destruct (answer_ok t p vp pp r x req (delete i (st m)) m) as (m1 & E1 & Ho & Hreq & Hl1' & Hlen & Hlog'); try done.
  { rewrite lookup_delete_ne by done. apply st_get. by exists r. }
  assert (finish_waiting t i vp pp m x = Ok (free_request x m1)) as ->.
  { unfold finish_waiting, get. rewrite Hr. cbn [mbind res_bind]. rewrite Hpre. rewrite assert_bind by done.
    rewrite assert_bind by (apply negb_true_iff, Nat.eqb_neq; done). by rewrite E1. }
  cbn [mbind res_bind].
  destruct (IH (free_request x m1)) as (m' & E & H1 & H2 & H3 & H4 & H5); try done.
  - intros y Hy. destruct (Hws y ltac:(by right)) as (r' & Hr' & Hrok' & Hvp'). exists r'. cbn. rewrite Hlen, Hreq, lookup_delete_ne; [done|]. by intros <-.
  - unfold st. cbn. rewrite fmap_delete, Hreq, delete_delete. exact Hlog'.
  - exists m'. split; [done|]. split_and!; [done|by rewrite H2|done| |by rewrite H5].
    intros y. rewrite H4. cbn. rewrite Hreq. destruct (decide (y = x)) as [->|Hne].
    + rewrite decide_False by done. rewrite lookup_delete_eq, decide_True by by left. done.
    + rewrite lookup_delete_ne by done. apply decide_ext. rewrite elem_of_cons. naive_solver.
Qed.

Lemma Forall2_impl_in {A B} (P Q : A → B → Prop) l k : Forall2 P l k → (∀ x y, x ∈ l → P x y → Q x y) → Forall2 Q l k.
Proof. induction 1; intros HPQ; constructor; [apply HPQ; [by left|done]|]. apply IHForall2. intros. apply HPQ; [by right|done]. Qed.

(** The requests of the page are gone, and the held one with them. *)
Lemma page_done c i vp ws m' o : mmu_ok [i] c → outstandingWalks (mm c) !! vp = Some (i :: ws) →
  (outstandingFaultStatus (mm c) = Retrying → outstandingFaultInfo (mm c) ≠ Some i) →
  others m' = others (((mm c) <| tlb := o |>) <| outstandingWalks ::= delete vp |>) →
  (∀ x, requests m' !! x = if decide (x ∈ i :: ws) then None else requests (mm c) !! x) →
  (∀ x, o = Some x → tlb_right (now c) (pt c) x) → Forall (memory_right (now c) (pt c)) (l1 m') → length (l1 m') = length (l1 (mm c)) →
  log_ok (pt c) (st m') (finished m') (requested c) → mmu_ok [] (c <| mm := m' |>) ∧ queued m' = queued (mm c) ∧ walking m' = walking (mm c).
Proof.
  intros H How Hinfo Ho Hreq Ho2 Hl1 Hlen Hlog. pose proof H as [H1 H2 H3 H4 H6 H7 H8 H9 H10 H11 H12 H13 H14 H15 H16 H17 H18].
  unfold others in Ho. injection Ho as O1 O2 O3 O4 O5 O6 O7 O8 O9 O10 O11 O12 O13 O14 O15 O16.
  assert (Hq : queued m' = queued (mm c)) by (unfold queued; by rewrite O5, O8, O16). split; [|by split].
  assert (Hst : ∀ x, st m' !! x = if decide (x ∈ i :: ws) then None else st (mm c) !! x).
  { intros x. unfold st. rewrite !lookup_fmap, Hreq. by case_decide. }
  destruct H10 as [W1 W2 W3 W4 W5 W6].
  assert (Hlead : ∀ t, t ∈ places (mm c) → t ∉ i :: ws).
  { intros t Hp Hin. assert (t ∈ [i] ++ places (mm c)) as (vp' & l & Hl)%W6 by by right.
    assert (is_Some (st (mm c) !! t)) as [r Hr] by (apply W1; right; exists vp, (i :: ws); by split).
    assert (vp' = vp) as -> by (rewrite <-(W3 vp' (t :: l) t r), <-(W3 vp (i :: ws) t r); try done; by left).
    rewrite How in Hl. injection Hl as -> _. apply NoDup_cons in W5 as [W5 _]. done. }
  assert (Hpq : ∀ t, t ∈ queued (mm c) → t ∈ places (mm c)) by (intros t Ht; unfold places; rewrite elem_of_app; by left).
  constructor; change (mm (c <| mm := m' |>)) with m'; change (now (c <| mm := m' |>)) with (now c);
    change (pt (c <| mm := m' |>)) with (pt c); change (requested (c <| mm := m' |>)) with (requested c);
    rewrite ?O1, ?O2, ?O3, ?O4, ?O5, ?O6, ?O7, ?O8, ?O10, ?O11, ?O12, ?O13, ?O14, ?O15, ?O16, ?Hlen; try done.
  - intros t r. rewrite Hst. case_decide; [done|]. apply H3.
  - destruct H4 as [P1 P2]. split.
    + intros t r w. rewrite Hreq. case_decide; [done|]. apply P1.
    + intros t w Hw. destruct (P2 t w Hw) as (r & Hr & Hpw). exists r. split; [|done]. rewrite Hreq, decide_False; [done|].
      apply Hlead, Hpq. unfold queued. rewrite !elem_of_app, !list_elem_of_omap. right; right. exists (Some t). split; [by eapply list_elem_of_lookup_2|done].
  - destruct H9 as (ticks & F & S & E & B). exists ticks. split_and!; try done. eapply Forall2_impl_in; [exact F|].
    intros t k Hin (r & Hr & Hk). exists r. split; [|done]. rewrite Hst, decide_False; [done|]. intros Hx. by apply (proj2 W2 t vp (i :: ws)).
  - rewrite O9. apply (wait_done (st (mm c)) (st m') (startMisses (mm c)) (outstandingWalks (mm c)) (places m') vp i ws How Hst).
    eapply wait_perm; [|constructor; [exact W1|exact W2|exact W3|exact W4|exact W5|exact W6]]. unfold places. by rewrite Hq, O10, O11, O12.
  - change (outstandingFaultStatus (((mm c) <| tlb := o |>) <| outstandingWalks ::= delete vp |>)) with (outstandingFaultStatus (mm c)).
    unfold fault_ok in *. rewrite Hq. cbn. destruct (outstandingFaultStatus (mm c)) eqn:Es; [done| |].
    + destruct H14 as (t & r & Ei & Er & Et & Hin). exists t, r. split_and!; try done. rewrite Hst, decide_False; [done|]. apply Hlead.
      unfold places, kernel. rewrite Es, Ei, decide_True by done. rewrite !elem_of_app. do 2 right. by left.
    + destruct H14 as (t & r & Ei & Er & Et & Hin & Hp & Hf2). apply elem_of_cons in Hin as [->|Hin]; [by destruct (Hinfo eq_refl)|].
      exists t, r. split_and!; try done. rewrite Hst, decide_False; [done|]. by apply Hlead, Hpq.
Qed.

Lemma finalize_ok i r pp c : mmu_ok [i] c → requests (mm c) !! i = Some r → pt c !! page (vaddr r) = Some pp → paddr r = pp + vaddr r mod PageBytes →
  (outstandingFaultStatus (mm c) = Retrying → outstandingFaultInfo (mm c) ≠ Some i) →
  ∃ m', finalizeTranslation 0 (now c) i (mm c) = Ok m' ∧ mmu_ok [] (c <| mm := m' |>) ∧ queued m' = queued (mm c) ∧ walking m' = walking (mm c) ∧ startMisses m' = startMisses (mm c) ∧
    pendingFaults m' = pendingFaults (mm c) ∧ outstandingFaultStatus m' = outstandingFaultStatus (mm c) ∧ regs m' = regs (mm c).
Proof.
  intros H Hr Hpp Hpa Hinfo. destruct (held_request i c H) as (r0 & vp & ws & Hr0 & Hrok & How & Hvp). rewrite Hr in Hr0. injection Hr0 as <-.
  destruct (mo_waiting _ _ H) as [W1 W2 W3 W4 W5 W6]. destruct (W4 _ _ How) as [[Hiws Hnd]%NoDup_cons _].
  pose proof Hrok as (_ & _ & Evp & Hpre). rewrite Evp in Hvp.
  unfold finalizeTranslation, get. rewrite Hr. cbn [mbind res_bind]. unfold walks_of. rewrite Evp, Hvp, How. cbn [default from_option id].
  rewrite assert_bind by apply Nat.eqb_refl. rewrite Hpre, Hpa, page_of_answer by (by eapply (mo_pt _ _ H)). rewrite Hvp in Hpp.
  destruct (l2_insert_ok (now c) (pt c) vp pp (mm c) (mo_l2 _ _ H) (mo_now _ _ H) Hpp) as (o & -> & Ho). cbn [mbind res_bind].
  set (m1 := (mm c) <| tlb := o |>).
  change (m ← l1_insert (now c) (origTLB r) vp pp m1; finish_wrapped (wrapped r) (pp + vaddr r mod PageBytes) m) with (answer (now c) vp pp r m1).
  destruct (answer_ok (now c) (pt c) vp pp r i (requested c) (st m1) m1) as (m2 & -> & O2 & R2 & L2 & N2 & G2); try done.
  { apply (mo_l1 _ _ H). } { apply (mo_now _ _ H). } { by rewrite Evp. } { apply st_get. by exists r. } { apply (mo_log _ _ H). }
  cbn [mbind res_bind]. destruct (waiting_loop (now c) i vp pp (pt c) (requested c) (mo_now _ _ H) Hpp ws m2) as (m3 & -> & L3 & N3 & G3 & R3 & O3); try done.
  { intros x Hx. rewrite R2, N2. assert (is_Some (st (mm c) !! x)) as [rx Hrx] by (apply W1; right; exists vp, (i :: ws); split; [done|by right]).
    pose proof Hrx as (r' & Hr' & ->)%st_get. exists r'. split_and!; [done|apply (mo_requests _ _ H x (norm r') Hrx)|].
    apply (W3 vp (i :: ws) x (norm r')); [done|by right|done]. }
  { unfold st in *. by rewrite R2. }
  cbn [mbind res_bind]. eexists. split; [reflexivity|]. rewrite O2 in O3.
  assert (R4 : ∀ x, delete i (requests m3) !! x = if decide (x ∈ i :: ws) then None else requests (mm c) !! x).
  { intros x. destruct (decide (x = i)) as [->|Hne]; [rewrite lookup_delete_eq, decide_True by (by left); done|].
    rewrite lookup_delete_ne, R3, R2 by done. apply decide_ext. rewrite elem_of_cons. naive_solver. }
  clear R3. unfold others in O3. injection O3 as O1' O2' O3' O4' O5' O6' O7' O8' O9' O10' O11' O12' O13' O14' O15' O16'.
  destruct (page_done c i vp ws ((free_request i m3) <| outstandingWalks ::= delete vp |>) o) as (Hok & Hq & Hwk); try done.
  { unfold others. cbn. by rewrite O1', O2', O3', O4', O5', O6', O7', O8', O9', O10', O11', O12', O13', O14', O15', O16'. }
  { change (length (l1 m3) = length (l1 (mm c))). by rewrite N3, N2. }
  { unfold st in *. cbn. by rewrite fmap_delete. }
Qed.

(** ** Work *)

Definition fault_work (m : MMU) : Z :=
  match outstandingFaultStatus m with NoneOutstanding => 0 | InKernel => if inFault (regs m) =? 1 then 5 else 4 | Retrying => -5 end.
Definition walks (m : MMU) : Z := Z.of_nat (length (omap id (walking m))).
(** What is left to do for the translations under way. *)
Definition base_work (m : MMU) : Z :=
  10 * Z.of_nat (length (startMisses m)) + 8 * Z.of_nat (length (queued m)) - walks m + 6 * Z.of_nat (length (pendingFaults m)).
Definition work (m : MMU) : Z := base_work m + fault_work m.

Lemma retry_spec i r c : mmu_ok [i] c → requests (mm c) !! i = Some r →
  ∃ b, is_retry (vaddr r) (mm c) = Ok b ∧ (b = true ↔ outstandingFaultStatus (mm c) = Retrying ∧ outstandingFaultInfo (mm c) = Some i).
Proof.
  intros H Hr. unfold is_retry. case_decide as Hs; [|exists false; split; [done|split; [done|by intros [? _]]]].
  pose proof (mo_fault _ _ H) as Hf. unfold fault_ok in Hf. rewrite Hs in Hf. destruct Hf as (t & r0 & Ei & Er & _ & Hin & _). rewrite Ei. cbn [deref mbind res_bind].
  destruct (place_request [i] c t H) as (rt & vp & l & Hrt & (_ & _ & E1 & _) & Hl & Evp).
  { unfold places. rewrite app_assoc, elem_of_app. by left. }
  unfold get. rewrite Hrt. cbn [mbind res_bind]. eexists. split; [done|]. rewrite Z.eqb_eq. split.
  - intros E. split; [done|]. destruct (held_request i c H) as (r1 & vp1 & l1 & Hr1 & (_ & _ & E2 & _) & Hl1 & Evp1).
    rewrite Hr in Hr1. injection Hr1 as <-. assert (vp1 = vp) as -> by congruence. congruence.
  - intros [_ [= <-]]. congruence.
Qed.

Lemma work_after_prefix m m3 (w i : nat) : rest m3 = rest m → walking m !! w = Some (Some i) → walking m3 = <[w := None]> (walking m) → queued m ≡ₚ i :: queued m3 →
  work m3 = work m - 7.
Proof.
  intros Hr Hi Hwk Hq. unfold work, base_work, walks, fault_work. unfold rest in Hr. injection Hr as R1 R2 R3 R4 R5 R6 R7 R8 R9 R10 R11 R12 R13.
  rewrite R2, R6, R7, R12, Hwk. apply Permutation_length in Hq. cbn in Hq. rewrite Hq.
  pose proof (Permutation_length (omap_insert_old id (walking m) w (Some i) None i Hi eq_refl eq_refl)) as Hl. cbn [length] in Hl. lia.
Qed.

(** A walk that ended is carried on to the end of [finishWalk]. *)
Lemma after_found i r pp c : mmu_ok [i] c → requests (mm c) !! i = Some r → pt c !! page (vaddr r) = Some pp → paddr r = pp + vaddr r mod PageBytes →
  ∃ m', after_walk true (now c) i (vaddr r) (mm c) = Ok m' ∧ mmu_ok [] (c <| mm := m' |>) ∧ work m' ≤ work (mm c) + 5.
Proof.
  intros H Hr Hpp Hpa. unfold after_walk. destruct (retry_spec i r c H Hr) as (b & -> & Hb). cbn [mbind res_bind].
  destruct b; cbn [negb mbind res_bind].
  - destruct Hb as [[Hs Hi] _]; [done|]. destruct (handled_ok i c H Hs) as (m1 & -> & H1 & R1 & Q1 & K1 & S1 & F1). cbn [mbind res_bind].
    destruct (finalize_ok i r pp (c <| mm := m1 |>)) as (m' & E & Hok & Hq & Hwk & Hm & Hpf & Hst & Hrg); try done.
    { cbn. congruence. } { cbn. intros Es. by destruct F1 as [(E1 & _)|(E1 & _)]; rewrite E1 in Es. }
    exists m'. split; [exact E|]. split; [done|]. cbn in Hq, Hwk, Hm, Hpf, Hst, Hrg. unfold work, base_work, walks, fault_work. rewrite Hq, Hwk, Hm, Hpf, Hst, Hrg, Q1, K1, S1, Hs.
    destruct F1 as [(-> & -> & ->)|(-> & -> & ->)]; cbn; lia.
  - destruct (finalize_ok i r pp c) as (m' & E & Hok & Hq & Hwk & Hm & Hpf & Hst & Hrg); try done.
    { intros Hs Hi. by destruct Hb as [_ Hb]; specialize (Hb (conj Hs Hi)). }
    exists m'. split; [done|]. split; [done|]. unfold work, base_work, walks, fault_work. rewrite Hq, Hwk, Hm, Hpf, Hst, Hrg. lia.
Qed.

Lemma after_fault i r c : mmu_ok [i] c → requests (mm c) !! i = Some r → pt c !! page (vaddr r) = None →
  ∃ m', after_walk false (now c) i (vaddr r) (mm c) = Ok m' ∧ mmu_ok [] (c <| mm := m' |>) ∧ work m' ≤ work (mm c) + 6.
Proof.
  intros H Hr Hpp. unfold after_walk. destruct (retry_spec i r c H Hr) as (b & -> & Hb). cbn [mbind res_bind]. destruct b.
  { exfalso. destruct Hb as [[Hs Hi] _]; [done|]. pose proof (mo_fault _ _ H) as Hf. unfold fault_ok in Hf. rewrite Hs in Hf.
    destruct Hf as (t & r0 & Ei & (r1 & Hr1 & ->)%st_get & _ & _ & [pp E] & _). assert (t = i) as -> by congruence. rewrite Hr in Hr1. injection Hr1 as <-.
    destruct (held_request i c H) as (r2 & _ & _ & Hr2 & (_ & _ & Evp & _) & _). rewrite Hr in Hr2. injection Hr2 as <-.
    cbn in E. congruence. }
  cbn [mbind res_bind]. destruct (raise_ok i c H) as (m' & E & Hok & HF & Hq & Hwk & Hm).
  { intros Hs Hi. by destruct Hb as [_ Hb]; specialize (Hb (conj Hs Hi)). }
  exists m'. split; [done|]. split; [done|]. unfold work, base_work, walks, fault_work. rewrite Hq, Hwk, Hm.
  destruct HF as [(Es & -> & -> & ->)|(Es & -> & -> & ->)]; [rewrite Es; cbn; lia|]. rewrite length_app. cbn [length]. lia.
Qed.

(** ** The steps of the MMU, at the present tick *)

Lemma end_ok c w : mmu_ok [] c → isSome (walking (mm c) !! w ≫= id) = true →
  ∃ m', (i ← deref (walking (mm c) !! w ≫= id); r ← get i (mm c);
         walker_answers clockPeriod faultTimeoutCycles 0 true (now c) w (found (vaddr r) c) (mm c)) = Ok m' ∧
    mmu_ok [] (c <| mm := m' |>) ∧ work m' < work (mm c).
Proof.
  intros H Hg. destruct (walking (mm c) !! w) as [[i|]|] eqn:Ew; [|done|done]. cbn [mbind option_bind id deref res_bind].
  pose proof (mo_walker _ _ H) as [_ P2]. destruct (P2 i w Ew) as (r & Hr & Hpw). unfold get. rewrite Hr. cbn [mbind res_bind].
  unfold walker_answers. rewrite Ew. cbn [deref mbind res_bind].
  assert (Hws : walks_ok (now c) (mm c)) by (constructor; apply H). unfold found. destruct (pt c !! page (vaddr r)) as [pp|] eqn:Epp; cbn [fmap option_fmap option_map].
  - set (r' := r <| paddr := pp + vaddr r mod PageBytes |>). set (f := λ r, r <| paddr := pp + vaddr r' mod PageBytes |>).
    destruct (finish_prefix true (now c) w i r' (upd i f (mm c))) as (m3 & E & W3 & R3 & K3 & Q3 & S3 & A3).
    { by destruct Hws; constructor. } { done. } { cbn. by rewrite lookup_alter_eq, Hr. } { done. }
    change (upd i _ ((mm c) <| walking ::= _ |>)) with ((upd i f (mm c)) <| walking ::= <[w := None]> |>). rewrite E.
    assert (S3' : requests m3 = <[i := r' <| pageWalker := None |>]> (requests (mm c))).
    { rewrite S3. change (requests (upd i f (mm c))) with (alter f i (requests (mm c))). apply map_eq. intros j. destruct (decide (j = i)) as [->|]; [by rewrite !lookup_insert_eq|]. by rewrite !lookup_insert_ne, lookup_alter_ne. }
    assert (H3 : mmu_ok [i] (c <| mm := m3 |>)) by (by eapply (held_ok c w i r (r' <| pageWalker := None |>))).
    destruct (after_found i (r' <| pageWalker := None |>) pp (c <| mm := m3 |>)) as (m' & E' & Hok & Hwk); try done.
    { cbn. by rewrite S3', lookup_insert_eq. }
    exists m'. split; [exact E'|]. split; [done|]. cbn in Hwk. rewrite (work_after_prefix (mm c) m3 w i) in Hwk; try done. lia.
  - destruct (finish_prefix false (now c) w i r (mm c)) as (m3 & -> & W3 & R3 & K3 & Q3 & S3 & A3); try done.
    assert (H3 : mmu_ok [i] (c <| mm := m3 |>)) by (by eapply (held_ok c w i r (r <| pageWalker := None |>))).
    destruct (after_fault i (r <| pageWalker := None |>) (c <| mm := m3 |>)) as (m' & E' & Hok & Hwk); try done.
    { cbn. by rewrite S3, lookup_insert_eq. }
    exists m'. split; [exact E'|]. split; [done|]. cbn in Hwk. rewrite (work_after_prefix (mm c) m3 w i) in Hwk; try done. lia.
Qed.

Lemma start_walk_ok c w : mmu_ok [] c → pagewalkEvents (mm c) !! w ≫= spe_when = Some (now c) →
  ∃ m', process_walk clockPeriod (now c) w (mm c) = Ok m' ∧ mmu_ok [] (c <| mm := m' |>) ∧ work m' < work (mm c).
Proof.
  intros H Hg. destruct (pagewalkEvents (mm c) !! w) as [e|] eqn:Ee; [|done]. cbn in Hg. pose proof (mo_walkers _ _ H) as Hws.
  assert (∃ a, activeWalkers (mm c) !! w = Some a) as [a Ha].
  { apply lookup_lt_is_Some_2. destruct Hws as [[<- _] _]. by eapply lookup_lt_Some. }
  destruct (walkers_get _ _ _ _ _ _ Hws Ha) as (e' & o & He & Ho & Hok). rewrite Ee in He. injection He as <-.
  destruct Hok as [(_ & -> & _)|[(-> & (i & k & -> & _) & ->)|(_ & -> & _)]]; [done| |done].
  assert (Hin : i ∈ omap spe_translation (pagewalkEvents (mm c))).
  { apply list_elem_of_omap. eexists. split; [by eapply list_elem_of_lookup_2|done]. }
  destruct (place_request [] c i H) as (r & vp & l & Hr & _).
  { unfold places, queued. rewrite !elem_of_app. tauto. }
  assert (Hpw : pageWalker r = None).
  { destruct (pageWalker r) as [w'|] eqn:Epw; [|done]. exfalso. pose proof (mo_walker _ _ H) as [P1 _]. pose proof (P1 _ _ _ Hr Epw) as Hw'.
    pose proof (wa_places _ _ _ _ (mo_waiting _ _ H)) as Hnd. cbn [app] in Hnd. unfold places, queued in Hnd. apply NoDup_app in Hnd as (Hnd & _).
    apply NoDup_app in Hnd as (_ & _ & Hnd). apply NoDup_app in Hnd as (_ & Hnd & _). apply (Hnd i Hin), list_elem_of_omap. exists (Some i).
    split; [by eapply list_elem_of_lookup_2|done]. }
  unfold process_walk. rewrite Ee. cbn [deref mbind res_bind spe_translation]. unfold walk, get.
  set (m1 := (mm c) <| pagewalkEvents ::= <[w := mkSPE None None]> |>). change (requests m1) with (requests (mm c)). rewrite Hr. cbn [mbind res_bind].
  rewrite Hpw. rewrite assert_bind by done. unfold cur_cycle. cbn [fst snd].
  destruct (clockEdge_ok clockPeriod period_pos (now c) 0 (clk (mm c)) (mo_clk _ _ H)) as (ck & Ec & Hck). unfold clockEdge in Ec. injection Ec as _ Eck.
  match goal with |- ∃ m', Ok ?mm = Ok m' ∧ _ => set (m2 := mm) end.
  set (f := λ r, (r <| beginWalk := (curCycle clockPeriod (now c) (clk m1)).1 |>) <| pageWalker := Some w |>).
  assert (R2 : requests m2 = alter f i (requests (mm c))) by reflexivity.
  assert (K2 : walking m2 = <[w := Some i]> (walking (mm c))) by reflexivity.
  assert (E2 : pagewalkEvents m2 = <[w := mkSPE None None]> (pagewalkEvents (mm c))) by reflexivity.
  assert (C2 : clk m2 = ck) by exact Eck. assert (A2 : activeWalkers m2 = activeWalkers (mm c)) by reflexivity.
  assert (P2 : pendingWalks m2 = pendingWalks (mm c)) by reflexivity. assert (Hrest : rest m2 = rest (mm c)) by reflexivity.
  assert (L1 : omap id (<[w := Some i]> (walking (mm c))) ≡ₚ i :: omap id (walking (mm c))) by by eapply omap_insert_new.
  assert (L2 : omap spe_translation (pagewalkEvents (mm c)) ≡ₚ i :: omap spe_translation (<[w := mkSPE None None]> (pagewalkEvents (mm c)))) by by eapply omap_insert_old.
  assert (Hq : queued m2 ≡ₚ queued (mm c)) by (unfold queued; rewrite P2, E2, K2, L1, L2; solve_Permutation).
  assert (Hm : startMisses m2 = startMisses (mm c) ∧ pendingFaults m2 = pendingFaults (mm c) ∧ fault_work m2 = fault_work (mm c)) by done.
  clearbody m2. exists m2. split; [done|]. split.
  - apply (rebuild [] [] c m2 H Hrest).
    + unfold st. rewrite R2. by apply norm_alter.
    + constructor; [by rewrite C2| |rewrite P2, A2; apply (mo_pending _ _ H)]. rewrite A2, E2, K2. rewrite <-(list_insert_id _ _ _ Ha). apply walkers_ins; [done|]. by do 2 right.
    + rewrite A2. apply (mo_some _ _ H).
    + rewrite R2, K2. pose proof (mo_walker _ _ H) as [P1 P3]. split.
      * intros t r0 w0 [(<- & r1 & Ht & ->)|[Hne Ht]]%lookup_alter_Some Hw.
        -- injection Hw as <-. apply list_lookup_insert_eq. by eapply lookup_lt_Some.
        -- pose proof (P1 _ _ _ Ht Hw) as Hx. rewrite list_lookup_insert_ne; [done|]. intros ->. congruence.
      * intros t w0 [(-> & [= <-] & _)|[Hne Hx]]%list_lookup_insert_Some.
        -- eexists. rewrite lookup_alter_eq, Hr. done.
        -- destruct (P3 t w0 Hx) as (r0 & Ht & Hw). exists r0. rewrite lookup_alter_ne; [done|]. intros <-. congruence.
    + done.
  - destruct Hm as (M1 & M2 & M3). unfold work, base_work, walks. rewrite M1, M2, M3, K2, L1, Hq. cbn [length]. lia.
Qed.

Lemma pt_grow x c p : mmu_ok x c → pt c ⊆ p → (∀ vp pp, p !! vp = Some pp → pp mod PageBytes = 0) → mmu_ok x (c <| pt := p |>).
Proof.
  intros [H1 H2 H3 H4 H6 H7 H8 H9 H10 H11 H12 H13 H14 H15 H16 H17 H18] Hsub Hal.
  assert (Hright : ∀ m, tlb_right (now c) (pt c) m → tlb_right (now c) p m).
  { intros m [? Hm]. split; [done|]. intros vp pp ?%Hm. by eapply lookup_weaken. }
  constructor; cbn; try done.
  - eapply Forall_impl; [exact H6|]. intros [m|m]; cbn; [by apply Hright|]. intros Hm. by etrans.
  - intros m Hm. by apply Hright, H7.
  - unfold fault_ok in *. destruct (outstandingFaultStatus (mm c)); [done|done|].
    destruct H14 as (t & r & Ei & Er & Et & Hin & [pp Hp] & Hf2). exists t, r. split_and!; try done. exists pp. by eapply lookup_weaken.
  - by eapply log_pt.
Qed.

Lemma invoke_ok c sp : mmu_ok [] c → inFault (regs (mm c)) = 1 →
  ∃ m', gpu_fault_invoke sp (mm c) = Ok m' ∧ mmu_ok [] (c <| mm := m' |>) ∧ work m' < work (mm c).
Proof.
  intros H Hg. pose proof (mo_fault _ _ H) as Hf. unfold fault_ok in Hf.
  destruct (outstandingFaultStatus (mm c)) eqn:Es; [destruct Hf as (_ & ? & _); congruence| |destruct Hf as (? & ? & _ & _ & _ & _ & _ & ?); congruence].
  destruct Hf as (i & r & Ei & Er & Et & [(_ & Hrsp & Ha)|[? _]]); [|congruence].
  unfold gpu_fault_invoke. rewrite Hg, Hrsp. rewrite !assert_bind by done.
  pose proof (mo_mode _ _ H) as Hm. rewrite Hm. cbn [negb Z.testbit Pos.testbit Z.odd Pos.eqb].
  eexists. split; [reflexivity|]. destruct H as [H1 H2 H3 H4 H6 H7 H8 H9 H10 H11 H12 H13 H14 H15 H16 H17 H18]. split.
  - constructor; try done. cbn. rewrite Es. exists i, r. split_and!; try done. right. by split.
  - match goal with |- work ?m' < _ => set (m2 := m'); assert (F : base_work m2 = base_work (mm c)) by reflexivity end.
    assert (F2 : fault_work m2 = 4) by (change (fault_work m2) with (match outstandingFaultStatus (mm c) with NoneOutstanding => 0 | InKernel => 4 | Retrying => -5 end); by rewrite Es).
    assert (F3 : fault_work (mm c) = 5) by (unfold fault_work; by rewrite Es, Hg). unfold work. lia.
Qed.

Lemma work_enqueued m m' i : rest m' = rest m → walking m' = walking m → queued m' ≡ₚ i :: queued m → work m' = work m + 8.
Proof.
  intros R K P. unfold rest in R. injection R as R1 R2 R3 R4 R5 R6 R7 R8 R9 R10 R11 R12 R13.
  unfold work, base_work, walks, fault_work. rewrite R2, R6, R7, R12, K, P. cbn [length]. lia.
Qed.

Lemma kernel_ok c pp : mmu_ok [] c → inFault (regs (mm c)) = 2 → isFaultInFlight (mm c) = true → pp mod PageBytes = 0 →
  ∃ m', handleFinishPageFault clockPeriod (now c) (mm c) = Ok m' ∧
    mmu_ok [] ((c <| mm := m' |>) <| pt ::= λ p, if isSome (p !! page (cr2 (regs m'))) then p else <[page (cr2 (regs m')) := pp]> p |>) ∧
    work m' < work (mm c).
Proof.
  intros H Hg Hs Hpp. apply andb_true_iff in Hs as [_ Hs%bool_decide_eq_true]. pose proof (mo_fault _ _ H) as Hf. unfold fault_ok in Hf. rewrite Hs in Hf.
  destruct Hf as (i & r0 & Ei & Er & Et & Hr2). destruct (faultTimeoutEvent (mm c)) as [k|] eqn:Ek; [|done].
  destruct Hr2 as [(? & _)|[_ Hcr]]; [congruence|]. pose proof Er as (r & Hr & ->)%st_get.
  unfold handleFinishPageFault. rewrite Ek. cbn [scheduled isSome negb]. unfold deschedule. rewrite assert_bind by done. cbn [mbind res_bind].
  set (m0 := (mm c) <| faultTimeoutEvent := None |>). change (outstandingFaultStatus m0) with (outstandingFaultStatus (mm c)). rewrite Hs.
  rewrite assert_bind by done. change (regs m0) with (regs (mm c)). rewrite Hg, Hcr. cbn [negb Z.eqb Pos.eqb]. change (outstandingFaultInfo m0) with (outstandingFaultInfo (mm c)).
  rewrite Ei. cbn [deref mbind res_bind]. unfold get. change (requests m0) with (requests (mm c)). rewrite Hr. cbn [mbind res_bind]. change (vaddr (norm r)) with (vaddr r).
  rewrite Z.eqb_refl. cbn [negb]. rewrite decide_False by done. unfold cur_cycle. cbn [fst snd].
  destruct (clockEdge_ok clockPeriod period_pos (now c) 0 (clk (mm c)) (mo_clk _ _ H)) as (ck & Ec & Hck). unfold clockEdge in Ec. injection Ec as _ Eck.
  match goal with |- context [getFreeWalker ?mm] => set (m1 := mm) end.
  change (let '(walker, m) := getFreeWalker m1 in match walker with Some w => schedulePagewalk clockPeriod (now c) w i m
    | None => Ok (m <| pendingWalks ::= λ l, l ++ [i] |>) end) with (enqueue (now c) i m1).

  assert (St1 : st m1 = st (mm c)) by reflexivity. set (p := if isSome (pt c !! page (vaddr r)) then pt c else <[page (vaddr r) := pp]> (pt c)).
  assert (Hp : pt c ⊆ p ∧ is_Some (p !! page (vaddr r)) ∧ ∀ vp q, p !! vp = Some q → q mod PageBytes = 0).
  { unfold p. destruct (pt c !! page (vaddr r)) as [q|] eqn:Eq; cbn [isSome].
    - split_and!; [done|by exists q|apply (mo_pt _ _ H)].
    - split_and!; [by apply insert_subseteq|by rewrite lookup_insert_eq|]. intros vp q [[<- <-]|[_ Hq]]%lookup_insert_Some; [done|by eapply (mo_pt _ _ H)]. }
  destruct Hp as (Hp1 & Hp2 & Hp3). pose proof (pt_grow [] c p H Hp1 Hp3) as Hg1.
  destruct (mo_requests _ _ H i (norm r) Er) as [_ (_ & _ & Evp & _)].
  assert (Hm1 : mmu_ok [i] ((c <| pt := p |>) <| mm := m1 |>)).
  { destruct Hg1 as [H1 H2 H3 H4 H6 H7 H8 H9 H10 H11 H12 H13 H14 H15 H16 H17 H18]. constructor; try done.
    - cbn. by rewrite Eck.
    - eapply wait_perm; [|exact H10]. unfold places, kernel. change (queued (mm ((c <| pt := p |>) <| mm := m1 |>))) with (queued (mm c)).
      cbn -[queued]. rewrite Hs, Ei, decide_True by done. rewrite decide_False by done. cbn [option_list]. solve_Permutation.
    - cbn. exists i, (norm r). split_and!; try done; [by left|]. rewrite Evp. exact Hp2. }
  destruct (enqueue_ok (now c) i m1) as (m' & -> & W' & R' & Q' & K' & L' & P').
  { constructor; apply Hm1. }
  exists m'. split; [done|].
  assert (Hrg : regs m' = regs (mm c)) by (unfold rest in R'; by injection R').
  split.
  - rewrite Hrg, Hcr. change (vaddr (norm r)) with (vaddr r).
    change (mmu_ok [] (((c <| pt := p |>) <| mm := m1 |>) <| mm := m' |>)).
    apply (rebuild [i] [] ((c <| pt := p |>) <| mm := m1 |>) m'); try done.
    + unfold st. by rewrite Q'.
    + pose proof (mo_some _ _ H). intros E0. rewrite E0 in L'. cbn in L'. by destruct (activeWalkers (mm c)).
    + rewrite Q', K'. apply (mo_walker _ _ Hm1).
  - rewrite (work_enqueued m1 m' i R' K' P'). unfold work. change (base_work m1) with (base_work (mm c)). change (fault_work m1) with (-5).
    unfold fault_work. rewrite Hs, Hg. cbn [Z.eqb Pos.eqb]. lia.
Qed.

(** ** A miss reaches the MMU *)

Definition outer (m : MMU) :=
  (clk m, activeWalkers m, pagewalkEvents m, faultTimeoutEvent m, pendingWalks m, pendingFaults m, outstandingFaultStatus m,
   outstandingFaultInfo m, prefetchBuffer m, next_request m, regs m, walking m).

Lemma popped x c i miss m' : mmu_ok [] c → startMisses (mm c) = i :: miss → outer m' = outer (mm c) → startMisses m' = miss →
  (∀ y, y ≠ i → requests m' !! y = requests (mm c) !! y) → (requests m' !! i = requests (mm c) !! i ∨ requests m' !! i = None) →
  (∃ ks, Forall2 (λ t k, ∃ r, st (mm c) !! t = Some r ∧ startTick r = k) miss ks ∧ StronglySorted Z.le ks ∧ startMissEvent m' = head ks ∧
     Forall (λ k, now c ≤ k ≤ (divCeil (now c) clockPeriod + latency) * clockPeriod) ks) →
  (∀ t, tlb m' = Some t → tlb_right (now c) (pt c) t) → Forall (memory_right (now c) (pt c)) (l1 m') → length (l1 m') = length (l1 (mm c)) →
  waiting_ok (st m') miss (outstandingWalks m') (x ++ places (mm c)) → log_ok (pt c) (st m') (finished m') (requested c) →
  mmu_ok x (c <| mm := m' |>) ∧ places m' = places (mm c) ∧ queued m' = queued (mm c).
Proof.
  intros H Em Ho Hm Hreq Hri (ks & F & S & E & B) Ht Hl1 Hlen Hwait Hlog. pose proof H as [H1 H2 H3 H4 H6 H7 H8 H9 H10 H11 H12 H13 H14 H15 H16 H17 H18].
  unfold outer in Ho. injection Ho as O1 O2 O3 O4 O5 O6 O7 O8 O9 O10 O11 O12.
  assert (Hq : queued m' = queued (mm c)) by (unfold queued; by rewrite O3, O5, O12).
  assert (Hpl : places m' = places (mm c)) by (unfold places; by rewrite Hq, O6, O7, O8).
  split; [|by split]. destruct H10 as [W1 W2 W3 W4 W5 W6].
  assert (Hst : ∀ y, y ≠ i → st m' !! y = st (mm c) !! y) by (intros y Hy; unfold st; by rewrite !lookup_fmap, Hreq).
  assert (Hlead : ∀ t, t ∈ places (mm c) → t ≠ i).
  { intros t (vp & l & Hl)%W6 ->. apply (proj2 W2 i vp (i :: l)); [done|by left|rewrite Em; by left]. }
  assert (Hold : ∀ t r, st m' !! t = Some r → st (mm c) !! t = Some r).
  { intros t r. destruct (decide (t = i)) as [->|Hne]; [|by rewrite Hst]. unfold st. rewrite !lookup_fmap. by destruct Hri as [->| ->]. }
  assert (Hpq : ∀ t, t ∈ queued (mm c) → t ∈ places (mm c)) by (intros t Hin; unfold places; rewrite elem_of_app; by left).
  constructor; change (mm (c <| mm := m' |>)) with m'; change (now (c <| mm := m' |>)) with (now c);
    change (pt (c <| mm := m' |>)) with (pt c); change (requested (c <| mm := m' |>)) with (requested c);
    rewrite ?O1, ?O2, ?O3, ?O4, ?O5, ?O7, ?O8, ?O9, ?O10, ?O11, ?O12, ?Hlen, ?Hm, ?Hpl, ?Hq; try done.
  - intros t r Hr. by apply H3, Hold.
  - destruct H4 as [P1 P2]. split.
    + intros t r w Hr. apply P1. destruct (decide (t = i)) as [->|Hne]; [|by rewrite <-Hreq]. destruct Hri; congruence.
    + intros t w Hw. destruct (P2 t w Hw) as (r & Hr & Hpw). exists r. split; [|done]. rewrite Hreq; [done|].
      apply Hlead, Hpq. unfold queued. rewrite !elem_of_app, !list_elem_of_omap. right; right. exists (Some t). split; [by eapply list_elem_of_lookup_2|done].
  - exists ks. split_and!; try done. eapply Forall2_impl_in; [exact F|]. intros t k Hin (r & Hr & Hk). exists r. split; [|done].
    rewrite Hst; [done|]. intros ->. rewrite Em in W2. destruct W2 as [[W2 _]%NoDup_cons _]. done.
  - rewrite O6. unfold fault_ok in *. destruct (outstandingFaultStatus (mm c)) eqn:Es; [done| |].
    + destruct H14 as (t & r & Ei & Er & Et & Hin). exists t, r. split_and!; try done. rewrite Hst; [done|]. apply Hlead.
      unfold places, kernel. rewrite Es, Ei, decide_True by done. rewrite !elem_of_app. do 2 right. by left.
    + destruct H14 as (t & r & Ei & Er & Et & Hin & Hp & Hf2). exists t, r. split_and!; try done; [by rewrite Hst by by apply Hlead, Hpq|].
      rewrite elem_of_app. by right.
Qed.

Definition with_walk (vp : Addr) (i : nat) (m : MMU) : MMU :=
  (m <| outstandingWalks ::= <[vp := walks_of vp m ++ [i]]> |>) <| mstats ::= stat_inc "totalRequests" |>.

Lemma start_walk_eq t vp i m : start_walk clockPeriod 0 t vp i m =
  if decide (walks_of vp m = []) then enqueue t i (with_walk vp i m) else Ok (with_walk vp i m).
Proof.
  unfold start_walk. change ((m <| outstandingWalks ::= _ |>) <| mstats ::= _ |>) with (with_walk vp i m).
  assert (walks_of vp (with_walk vp i m) = walks_of vp m ++ [i]) as ->.
  { unfold walks_of at 1. change (outstandingWalks (with_walk vp i m)) with (<[vp := walks_of vp m ++ [i]]> (outstandingWalks m)). by rewrite lookup_insert_eq. }
  rewrite length_app. cbn [length]. case_decide as E.
  - rewrite E. cbn [length Nat.add Nat.eqb]. unfold enqueue. destruct (getFreeWalker (with_walk vp i m)) as [[w|] m1]; [|done].
    destruct (schedulePagewalk clockPeriod t w i m1); done.
  - destruct (walks_of vp m) as [|y l]; [done|]. cbn [length]. rewrite Nat.add_1_r. done.
Qed.

(** The queue of misses without its first one. *)
Definition next_miss (ev : event) (m : MMU) : MMU := (m <| startMisses ::= tail |>) <| startMissEvent := ev |>.

Lemma miss_start c i miss : mmu_ok [] c → startMissEvent (mm c) = Some (now c) → startMisses (mm c) = i :: miss →
  ∃ ks, (Forall2 (λ t k, ∃ r, st (mm c) !! t = Some r ∧ startTick r = k) miss ks ∧ StronglySorted Z.le ks ∧
     Forall (λ k, now c ≤ k ≤ (divCeil (now c) clockPeriod + latency) * clockPeriod) ks) ∧
    match startMisses (next_miss None (mm c)) with
    | [] => Ok (next_miss None (mm c))
    | front :: _ =>
        r ← get front (next_miss None (mm c));
        ev ← schedule (now c) (startTick r) (startMissEvent (next_miss None (mm c)));
        Ok ((next_miss None (mm c)) <| startMissEvent := ev |>)
    end = Ok (next_miss (head ks) (mm c)).
Proof.
  intros H Hg Em. destruct (mo_misses _ _ H) as (ticks & F & S & E & B). rewrite Em in F. inversion F as [|? k ? ks Fi F' E1 E2]; subst.
  apply StronglySorted_inv in S as [S _]. apply Forall_cons in B as [_ B]. exists ks. split; [done|].
  change (startMisses (next_miss None (mm c))) with (tail (startMisses (mm c))). rewrite Em. cbn [tail].
  destruct F' as [|j k' miss' ks' (r & (r0 & Hr & ->)%st_get & Hk) F'']; [done|].
  unfold get. change (requests (next_miss None (mm c))) with (requests (mm c)). rewrite Hr. cbn [mbind res_bind].
  change (startMissEvent (next_miss None (mm c))) with (@None Z). change (startTick (norm r0)) with (startTick r0) in Hk. rewrite Hk.
  apply Forall_cons in B as [B _]. unfold schedule. rewrite assert_bind by lia. rewrite assert_bind by done. done.
Qed.

Lemma miss_request c i miss : mmu_ok [] c → startMisses (mm c) = i :: miss →
  ∃ r, requests (mm c) !! i = Some r ∧ request_ok (length (l1 (mm c))) r.
Proof.
  intros H Em. destruct (mo_waiting _ _ H) as [W1 _ _ _ _ _]. assert (is_Some (st (mm c) !! i)) as [r0 Hr0] by (apply W1; left; rewrite Em; by left).
  pose proof Hr0 as (r & Hr & ->)%st_get. exists r. split; [done|]. apply (mo_requests _ _ H i (norm r) Hr0).
Qed.

(** It is found in the TLB of the MMU. *)
Lemma miss_hit c i miss r o pp m1 : mmu_ok [] c → startMisses (mm c) = i :: miss → requests (mm c) !! i = Some r → request_ok (length (l1 (mm c))) r →
  (∃ ks, (Forall2 (λ t k, ∃ r, st (mm c) !! t = Some r ∧ startTick r = k) miss ks ∧ StronglySorted Z.le ks ∧
     Forall (λ k, now c ≤ k ≤ (divCeil (now c) clockPeriod + latency) * clockPeriod) ks) ∧
   others m1 = others ((next_miss (head ks) (mm c)) <| tlb := o |>)) →
  l1 m1 = l1 (mm c) → finished m1 = finished (mm c) → requests m1 = requests (mm c) →
  (∀ x, o = Some x → tlb_right (now c) (pt c) x) → pt c !! page (vaddr r) = Some pp →
  ∃ m', answer (now c) (page (vaddr r)) pp r m1 = Ok m' ∧ mmu_ok [] (c <| mm := free_request i m' |>) ∧ work (free_request i m') < work (mm c).
Proof.
  intros H Em Hr Hrok (ks & HF & Ho) EL EF ER Hright Hpp. pose proof Hrok as (_ & _ & Evp & _).
  destruct (answer_ok (now c) (pt c) (page (vaddr r)) pp r i (requested c) (st m1) m1) as (m2 & -> & O2 & R2 & L2 & N2 & G2); try done.
  { rewrite EL. apply (mo_l1 _ _ H). } { apply (mo_now _ _ H). } { by rewrite EL. } { apply st_get. exists r. by rewrite ER. }
  { unfold st. rewrite ER, EF. apply (mo_log _ _ H). }
  exists m2. split; [done|]. rewrite Ho in O2. unfold others in O2. injection O2 as O1 O2 O3 O4 O5 O6 O7 O8 O9 O10 O11 O12 O13 O14 O15 O16.
  cbn in O4. rewrite Em in O4. cbn in O4.
  assert (Est : st (free_request i m2) = delete i (st (mm c))) by (unfold st; cbn; by rewrite fmap_delete, R2, ER).
  destruct (popped [] c i miss (free_request i m2)) as (Hok & Hpl & Hq); try done.
  { unfold outer. cbn. by rewrite O1, O2, O5, O6, O8, O10, O11, O12, O13, O14, O15, O16. }
  { intros y Hy. cbn. by rewrite lookup_delete_ne, R2, ER. }
  { right. cbn. apply lookup_delete_eq. }
  { exists ks. destruct HF as (F1 & F2 & F3). by split_and!. }
  { cbn. rewrite O7. done. } { cbn. by rewrite N2, EL. }
  { cbn [app]. rewrite Est. cbn. rewrite O9. apply wait_drop_miss. rewrite <-Em. apply (mo_waiting _ _ H). }
  { rewrite Est. unfold st in G2. rewrite ER in G2. exact G2. }
  split; [done|]. unfold work, base_work, walks, fault_work. rewrite Hq. cbn [free_request]. cbn. rewrite O4, O10, O11, O15, O16, Em. cbn [length]. cbn. lia.
Qed.

Lemma handle_miss_ok c : mmu_ok [] c → startMissEvent (mm c) = Some (now c) →
  ∃ m', handleTLBMiss clockPeriod 0 (now c) (mm c) = Ok m' ∧ mmu_ok [] (c <| mm := m' |>) ∧ work m' < work (mm c).
Proof.
  intros H Hg. assert (∃ i miss, startMisses (mm c) = i :: miss) as (i & miss & Em).
  { destruct (mo_misses _ _ H) as (ticks & F & S & E & B). rewrite Hg in E. destruct F as [|i k miss ks]; [done|]. by exists i, miss. }
  destruct (miss_start c i miss H Hg Em) as (ks & HF & E). destruct (miss_request c i miss H Em) as (r & Hr & Hrok).
  unfold handleTLBMiss. assert (head (startMisses (mm c)) = Some i) as -> by by rewrite Em. cbn [deref mbind res_bind].
  change (((mm c) <| startMisses ::= tail |>) <| startMissEvent := None |>) with (next_miss None (mm c)). rewrite E. cbn [mbind res_bind]. clear E.
  set (m1 := next_miss (head ks) (mm c)). unfold get. change (requests m1) with (requests (mm c)). rewrite Hr. cbn [mbind res_bind].
  pose proof Hrok as ((k & Ek & Hk) & _ & Evp & _). rewrite Ek. cbn [isSome]. change (vaddr r - vaddr r mod PageBytes) with (page (vaddr r)).
  destruct (l2_lookup_ok (now c) (pt c) (page (vaddr r)) true m1 (mo_l2 _ _ H) (mo_now _ _ H)) as (h & o & -> & Ho & Hh). cbn [mbind res_bind].
  destruct h as [pp|].
  - destruct (miss_hit c i miss r o pp ((m1 <| tlb := o |>) <| mstats ::= stat_inc "l2hits" |>)) as (m' & -> & Hok & Hw); try done; [by exists ks|by apply Hh|].
    cbn [mbind res_bind]. by exists (free_request i m').
  - change (prefetchBuffer (m1 <| tlb := o |>)) with (prefetchBuffer (mm c)). rewrite (mo_prefetch _ _ H), lookup_empty.
    rewrite start_walk_eq. set (m2 := m1 <| tlb := o |>). change (walks_of (page (vaddr r)) m2) with (walks_of (page (vaddr r)) (mm c)).
    assert (Hwait : waiting_ok (st (mm c)) (i :: miss) (outstandingWalks (mm c)) (places (mm c))) by (rewrite <-Em; apply (mo_waiting _ _ H)).
    assert (Hsr : st (mm c) !! i = Some (norm r)) by (apply st_get; by exists r).
    assert (Hpop : ∀ x, waiting_ok (st (mm c)) miss (outstandingWalks (with_walk (page (vaddr r)) i m2)) (x ++ places (mm c)) →
      mmu_ok x (c <| mm := with_walk (page (vaddr r)) i m2 |>) ∧ places (with_walk (page (vaddr r)) i m2) = places (mm c) ∧ queued (with_walk (page (vaddr r)) i m2) = queued (mm c)).
    { intros x Hx. apply (popped x c i miss); try done; [change (tail (startMisses (mm c)) = miss); by rewrite Em|by left| |apply (mo_l1 _ _ H)|apply (mo_log _ _ H)].
      exists ks. destruct HF as (F1 & F2 & F3). by split_and!. }
    assert (Hwork : work (with_walk (page (vaddr r)) i m2) = work (mm c) - 10).
    { assert (Hb : base_work (with_walk (page (vaddr r)) i m2) = base_work (mm c) - 10); [|unfold work; change (fault_work (with_walk _ _ _)) with (fault_work (mm c)); lia].
      unfold base_work. change (startMisses (with_walk _ _ _)) with (tail (startMisses (mm c))). change (queued (with_walk _ _ _)) with (queued (mm c)).
      change (walks (with_walk _ _ _)) with (walks (mm c)). change (pendingFaults (with_walk _ _ _)) with (pendingFaults (mm c)). rewrite Em. cbn [tail length]. lia. }
    change (outstandingWalks (with_walk (page (vaddr r)) i m2)) with (<[page (vaddr r) := walks_of (page (vaddr r)) (mm c) ++ [i]]> (outstandingWalks (mm c))) in Hpop.
    set (m3 := with_walk (page (vaddr r)) i m2) in *. unfold walks_of in Hpop |- *.
    destruct (outstandingWalks (mm c) !! page (vaddr r)) as [l|] eqn:El; cbn [default from_option id] in Hpop |- *.
    + destruct (wa_list _ _ _ _ Hwait _ _ El) as [_ Hne]. rewrite decide_False by done. exists m3. split; [done|].
      destruct (Hpop []) as (Hok & _); [|split; [done|lia]]. cbn [app]. rewrite <-Evp in El |- *. by apply (wait_join _ _ _ _ i (norm r) l).
    + rewrite decide_True by done. destruct (Hpop [i]) as (Hok & _ & Hq).
      { cbn [app]. rewrite <-Evp in El |- *. by apply (wait_first _ _ _ _ i (norm r)). }
      destruct (enqueue_ok (now c) i m3) as (m' & -> & W' & R' & Q' & K' & L' & P'); [constructor; apply Hok|].
      exists m'. split; [done|]. split.
      * change (mmu_ok [] ((c <| mm := m3 |>) <| mm := m' |>)). apply (rebuild [i] [] (c <| mm := m3 |>) m'); try done; [unfold st; by rewrite Q'| |rewrite Q', K'; apply (mo_walker _ _ Hok)].
        intros E0. rewrite E0 in L'. by apply (mo_some _ _ Hok), nil_length_inv.
      * rewrite (work_enqueued m3 m' i R' K' P'). lia.
Qed.

(** ** A new translation *)

Lemma sane_ok flags c : mmu_ok [] c → negb (Z.land flags 15 =? SEGMENT_REG_MS) = true → sane flags (regs (mm c)) = Ok tt.
Proof. intros H Hf%negb_true_iff. unfold sane. rewrite Hf, (mo_mode _ _ H). done. Qed.

Lemma hit_ok c l i va pp s : mmu_ok [] c → Forall (memory_right (now c) (pt c)) l → length l = length (l1 (mm c)) → pt c !! page va = Some pp →
  mmu_ok [] ((c <| mm := (((mm c) <| l1 := l |>) <| mstats := s |>) <| finished ::= λ f, f ++ [(i, pp + va mod PageBytes)] |> |>) <| requested ::= λ q, q ++ [(i, va)] |>).
Proof.
  intros [H1 H2 H3 H4 H6 H7 H8 H9 H10 H11 H12 H13 H14 H15 H16 H17 H18] Hl Hlen Hpp. constructor; try done.
  - cbn. rewrite Hlen. exact H3.
  - cbn. by apply log_hit.
Qed.

(** A miss is on its way; [ev] is when the first one is due. *)
Lemma begin_state_ok c l k i va md m' : let edge := (divCeil (now c) clockPeriod + latency) * clockPeriod in
  let r := new_translation (Some k) (Some i) va md edge false in
  mmu_ok [] c → Forall (memory_right (now c) (pt c)) l → length l = length (l1 (mm c)) → (k < length l)%nat →
  outer m' = outer (((mm c) <| clk := clk m' |>) <| next_request ::= S |>) → clock_ok clockPeriod (now c) (clk m') → tlb m' = tlb (mm c) →
  outstandingWalks m' = outstandingWalks (mm c) → finished m' = finished (mm c) → l1 m' = l → requests m' = <[next_request (mm c) := r]> (requests (mm c)) →
  startMisses m' = startMisses (mm c) ++ [next_request (mm c)] → startMissEvent m' = Some (default edge (startMissEvent (mm c))) →
  mmu_ok [] ((c <| mm := m' |>) <| requested ::= λ q, q ++ [(i, va)] |>).
Proof.
  intros edge r [H1 H2 H3 H4 H6 H7 H8 H9 H10 H11 H12 H13 H14 H15 H16 H17 H18] Hl Hlen Hk Ho Hclk Htlb How Hfin Hl1 Hreq Hm Hev.
  unfold outer in Ho. injection Ho as O2 O3 O4 O5 O6 O7 O8 O9 O10 O11 O12. cbn in O10.
  set (n := next_request (mm c)) in *.
  assert (Hfresh : st (mm c) !! n = None).
  { destruct (st (mm c) !! n) as [r0|] eqn:E; [|done]. destruct (H3 n r0 E). unfold n in *. lia. }
  assert (Hst : st m' = <[n := r]> (st (mm c))) by (unfold st; by rewrite Hreq, fmap_insert).
  assert (Hq : queued m' = queued (mm c)) by (unfold queued; by rewrite O3, O5, O12).
  assert (Hpl : places m' = places (mm c)) by (unfold places; by rewrite Hq, O6, O7, O8).
  assert (Hgrow : ∀ t r0, st (mm c) !! t = Some r0 → <[n := r]> (st (mm c)) !! t = Some r0) by (intros t r0 Ht; rewrite lookup_insert_ne; congruence).
  set (c' := (c <| mm := m' |>) <| requested ::= λ q, q ++ [(i, va)] |>).
  constructor; change (mm c') with m'; change (now c') with (now c); change (pt c') with (pt c); change (requested c') with (requested c ++ [(i, va)]);
    rewrite ?Hst, ?Hfin, ?Htlb, ?How, ?Hl1, ?Hm, ?O2, ?O3, ?O4, ?O5, ?O7, ?O8, ?O9, ?O10, ?O11, ?O12, ?Hpl, ?Hq; try done.
  - intros t r0 [[<- <-]|[Hne Ht]]%lookup_insert_Some.
    + split; [lia|]. split_and!; try done. by exists k.
    + destruct (H3 t r0 Ht) as [? ?]. rewrite Hlen. split; [lia|done].
  - destruct H4 as [P1 P2]. rewrite Hreq. split.
    + intros t r0 w [[<- <-]|[Hne Ht]]%lookup_insert_Some Hw; [done|by eapply P1].
    + intros t w Hw. destruct (P2 t w Hw) as (r0 & Ht & Hpw). exists r0. split; [|done]. rewrite lookup_insert_ne; [done|]. intros ->.
      unfold st in Hfresh. rewrite lookup_fmap, Ht in Hfresh. done.
  - destruct H9 as (ticks & F & S & E & B). pose proof (edge_late clockPeriod period_pos (now c) latency) as Hel. exists (ticks ++ [edge]). split_and!.
    + apply Forall2_app; [eapply Forall2_impl; [exact F|]; intros t q (r0 & Hr0 & Eq); exists r0; by eauto|].
      constructor; [|constructor]. exists r. by rewrite lookup_insert_eq.
    + apply StronglySorted_app. split_and!; [|done|by repeat constructor]. intros x y Hx ->%list_elem_of_singleton. rewrite Forall_forall in B. specialize (B x Hx). unfold edge. lia.
    + rewrite Hev, E. by destruct ticks.
    + apply Forall_app. split; [done|]. apply Forall_singleton. unfold edge. nia.
  - by apply wait_new.
  - unfold fault_ok in *. rewrite O6. cbn [app] in *. change (pendingFaults (((mm c) <| clk := clk m' |>) <| next_request ::= S |>)) with (pendingFaults (mm c)).
    cbn. destruct (outstandingFaultStatus (mm c)); [done| |].
    + destruct H14 as (t & r0 & Ei & Er & Et & Hin). exists t, r0. split_and!; try done. by apply Hgrow.
    + destruct H14 as (t & r0 & Ei & Er & Et & Hin & Hp & Hf2). exists t, r0. split_and!; try done. by apply Hgrow.
  - apply log_new; done.
Qed.

Lemma begin_miss_ok c l k i va md s : mmu_ok [] c → Forall (memory_right (now c) (pt c)) l → length l = length (l1 (mm c)) → (k < length l)%nat →
  ∃ m', beginTLBMiss clockPeriod latency (now c) k i va md (((mm c) <| l1 := l |>) <| mstats := s |>) = Ok m' ∧
    mmu_ok [] ((c <| mm := m' |>) <| requested ::= λ q, q ++ [(i, va)] |>).
Proof.
  intros H Hl Hlen Hk. pose proof (begin_state_ok c l k i va md) as HB. cbv zeta in HB. unfold beginTLBMiss, clock_edge.
  destruct (clockEdge_ok clockPeriod period_pos (now c) latency (clk (mm c)) (mo_clk _ _ H)) as (ck & Ec & Hck).
  change (clk (((mm c) <| l1 := l |>) <| mstats := s |>)) with (clk (mm c)). rewrite Ec. cbn [fst snd]. unfold alloc. cbn [fst snd].
  pose proof (edge_late clockPeriod period_pos (now c) latency) as Hel. set (edge := (divCeil (now c) clockPeriod + latency) * clockPeriod) in *.
  match goal with |- context [scheduled (startMissEvent ?mm)] => set (m1 := mm) end.
  assert (Em : startMisses m1 = startMisses (mm c) ++ [next_request (mm c)]) by reflexivity.
  assert (Er : requests m1 = <[next_request (mm c) := new_translation (Some k) (Some i) va md edge false]> (requests (mm c))) by reflexivity.
  change (startMissEvent m1) with (startMissEvent (mm c)).
  destruct (startMissEvent (mm c)) as [ev|] eqn:Eev; cbn [scheduled isSome].
  - exists m1. split; [done|]. by apply (HB m1).
  - assert (startMisses (mm c) = []) as E0.
    { destruct (mo_misses _ _ H) as (ticks & F & _ & E & _). rewrite Eev in E. by destruct F. }
    rewrite Em, E0. cbn [app head deref mbind res_bind]. unfold get. rewrite Er, lookup_insert_eq. cbn [mbind res_bind].
    cbn [startTick new_translation]. unfold schedule. rewrite assert_bind by nia. rewrite assert_bind by done. cbn [mbind res_bind].
    eexists. split; [reflexivity|]. apply HB; try done.
Qed.

Lemma mmu_translate_ok c k i flags va md : mmu_ok [] c → (k < length (l1 (mm c)))%nat → negb (Z.land flags 15 =? SEGMENT_REG_MS) = true →
  ∃ m', translateTiming clockPeriod latency (now c) k i flags va md (mm c) = Ok m' ∧ mmu_ok [] ((c <| mm := m' |>) <| requested ::= λ q, q ++ [(i, va)] |>).
Proof.
  intros H Hk Hf. unfold translateTiming. rewrite (sane_ok flags c H Hf). cbn [mbind res_bind].
  destruct (lookup_lt_is_Some_2 _ _ Hk) as [x Hx]. rewrite Hx. cbn [deref mbind res_bind].
  destruct (memory_lookup (now c) (pt c) (page va) x) as (h & x' & E & Hx' & Hh).
  { by eapply (Forall_lookup_1 _ _ _ _ (mo_l1 _ _ H)). } { apply (mo_now _ _ H). }
  change (va - va mod PageBytes) with (page va). rewrite E. cbn [mbind res_bind].
  assert (Hl : Forall (memory_right (now c) (pt c)) (<[k := x']> (l1 (mm c)))) by (apply Forall_insert; [apply (mo_l1 _ _ H)|done]).
  destruct h as [pp|].
  - eexists. split; [reflexivity|]. exact (hit_ok c _ i va pp _ H Hl (length_insert _ _ _) (Hh pp eq_refl)).
  - apply (begin_miss_ok c (<[k := x']> (l1 (mm c))) k i va md); try done; by rewrite length_insert.
Qed.

(** ** Runs *)

Definition progress (o : op) : bool := match o with Translate _ _ _ _ _ | MapPage _ _ => false | _ => true end.

Lemma mmu_step_ok c o : mmu_ok [] c → guard c o = true → ∃ c', step c o = Ok c' ∧ mmu_ok [] c' ∧ (progress o.2 = true → work (mm c') < work (mm c)).
Proof.
  intros H Hg. destruct o as [t o]. unfold guard in Hg. cbn [fst snd] in Hg. apply andb_true_iff in Hg as [[Hle Hd]%andb_true_iff Hg].
  apply (later_ok [] c t) in H; [|lia|done]. set (c1 := c <| now := t |>) in *. unfold step. cbn [fst snd].
  destruct o as [k i flags va md| |w|w|sp|pp|vp pp]; cbn [progress].
  - apply andb_true_iff in Hg as [Hk%Nat.ltb_lt Hf]. destruct (mmu_translate_ok c1 k i flags va md H Hk Hf) as (m' & E & Hok).
    change (mm c1) with (mm c) in E. change (now c1) with t in E. rewrite E. cbn [mbind res_bind]. eexists. split; [reflexivity|]. by split.
  - apply bool_decide_eq_true in Hg. destruct (handle_miss_ok c1 H Hg) as (m' & E & Hok & Hw). change (mm c1) with (mm c) in E. change (now c1) with t in E.
    rewrite E. cbn [mbind res_bind]. eexists. split; [reflexivity|]. by split.
  - apply bool_decide_eq_true in Hg. destruct (start_walk_ok c1 w H Hg) as (m' & E & Hok & Hw). change (mm c1) with (mm c) in E. change (now c1) with t in E.
    rewrite E. cbn [mbind res_bind]. eexists. split; [reflexivity|]. by split.
  - destruct (end_ok c1 w H Hg) as (m' & E & Hok & Hw). apply bind_ok in E as (i & E1 & E). apply bind_ok in E as (r & E2 & E).
    change (mm c1) with (mm c) in E, E1, E2. change (now c1) with t in E. rewrite E1. cbn [mbind res_bind]. rewrite E2. cbn [mbind res_bind].
    change (found (vaddr r) c1) with (found (vaddr r) c) in E. rewrite E. cbn [mbind res_bind]. eexists. split; [reflexivity|]. by split.
  - apply Z.eqb_eq in Hg. destruct (invoke_ok c1 sp H Hg) as (m' & E & Hok & Hw). change (mm c1) with (mm c) in E.
    rewrite E. cbn [mbind res_bind]. eexists. split; [reflexivity|]. by split.
  - apply andb_true_iff in Hg as [[Hg1%Z.eqb_eq Hg2]%andb_true_iff Hg3%Z.eqb_eq]. destruct (kernel_ok c1 pp H Hg1 Hg2 Hg3) as (m' & E & Hok & Hw).
    change (mm c1) with (mm c) in E. change (now c1) with t in E. rewrite E. cbn [mbind res_bind]. eexists. split; [reflexivity|]. by split.
  - apply andb_true_iff in Hg as [Hg1 Hg2%Z.eqb_eq]. eexists. split; [reflexivity|]. split; [|done].
    apply (pt_grow [] c1 (<[vp := pp]> (pt c)) H).
    + apply insert_subseteq. by destruct (pt c !! vp).
    + intros vp' q [[<- <-]|[_ Hq]]%lookup_insert_Some; [done|by eapply (mo_pt _ _ H)].
Qed.

Lemma mmu_run_ok ops : ∀ c, mmu_ok [] c → ∃ c', foldM gstep c ops = Ok c' ∧ mmu_ok [] c'.
Proof.
  induction ops as [|o ops IH]; intros c H; cbn [foldM]; [by exists c|].
  assert (∃ c1, gstep c o = Ok c1 ∧ mmu_ok [] c1) as (c1 & -> & H1); [|by apply IH].
  unfold gstep. destruct (guard c o) eqn:Eg; [|by exists c]. destruct (mmu_step_ok c o H Eg) as (c1 & -> & H1 & _). by exists c1.
Qed.

(** ** There is always a step *)

Lemma due_now c : mmu_ok [] c → forallb (λ k, now c <=? k) (due (mm c)) = true.
Proof.
  intros H. apply forallb_forall. intros k Hk%list_elem_of_In. apply Z.leb_le. unfold due in Hk. rewrite !elem_of_app in Hk. destruct Hk as [Hk|[Hk|Hk]].
  - destruct (mo_misses _ _ H) as (ticks & _ & _ & E & B). rewrite E in Hk. destruct ticks as [|k' ticks]; [by apply not_elem_of_nil in Hk|].
    apply list_elem_of_singleton in Hk as ->. apply Forall_cons in B as [B _]. lia.
  - apply list_elem_of_omap in Hk as (e & [w He]%list_elem_of_lookup & Ew). destruct (mo_walkers _ _ H) as [[L1 L2] Hws].
    pose proof (lookup_lt_Some _ _ _ He) as Hlt. destruct (lookup_lt_is_Some_2 (activeWalkers (mm c)) w ltac:(lia)) as [a Ha].
    destruct (lookup_lt_is_Some_2 (walking (mm c)) w ltac:(lia)) as [o Ho].
    destruct (Hws w a e o Ha He Ho) as [(_ & -> & _)|[(_ & (t & k' & -> & Hk') & _)|(_ & -> & _)]]; cbn in Ew; [done|congruence|done].
  - destruct (faultTimeoutEvent (mm c)) as [k'|] eqn:E; [|by apply not_elem_of_nil in Hk]. apply list_elem_of_singleton in Hk as ->. by apply (mo_time _ _ H).
Qed.

Lemma least (l : list Z) : l ≠ [] → ∃ k, k ∈ l ∧ ∀ k', k' ∈ l → k ≤ k'.
Proof.
  induction l as [|x l IH]; [done|]. intros _. destruct l as [|y l].
  - exists x. split; [by left|]. intros k' ->%list_elem_of_singleton. lia.
  - destruct IH as (k & Hk & Hmin); [done|]. destruct (Z.le_ge_cases x k).
    + exists x. split; [by left|]. intros k' [->|Hk']%elem_of_cons; [lia|]. specialize (Hmin k' Hk'). lia.
    + exists k. split; [by right|]. intros k' [->|Hk']%elem_of_cons; [lia|by apply Hmin].
Qed.

Lemma idle_walkers c : mmu_ok [] c → omap spe_when (pagewalkEvents (mm c)) = [] → omap id (walking (mm c)) = [] →
  omap spe_translation (pagewalkEvents (mm c)) = [] ∧ pendingWalks (mm c) = [].
Proof.
  intros H He Hw. destruct (mo_walkers _ _ H) as [[L1 L2] Hws].
  assert (Hfree : ∀ w a, activeWalkers (mm c) !! w = Some a → a = false ∧ pagewalkEvents (mm c) !! w = Some (mkSPE None None)).
  { intros w a Ha. destruct (walkers_get _ _ _ _ _ _ (mo_walkers _ _ H) Ha) as (e & o & Ee & Eo & Hok).
    destruct Hok as [(-> & -> & _)|[(_ & (t & k & -> & _) & _)|(_ & _ & Hs)]]; [done| |]; exfalso.
    - assert (k ∈ omap spe_when (pagewalkEvents (mm c))) as Hk by (apply list_elem_of_omap; eexists; split; [by eapply list_elem_of_lookup_2|done]).
      rewrite He in Hk. by apply not_elem_of_nil in Hk.
    - destruct o as [t|]; [|done]. assert (t ∈ omap id (walking (mm c))) as Hk by (apply list_elem_of_omap; eexists; split; [by eapply list_elem_of_lookup_2|done]).
      rewrite Hw in Hk. by apply not_elem_of_nil in Hk. }
  split.
  - destruct (omap spe_translation (pagewalkEvents (mm c))) as [|t l] eqn:E; [done|exfalso].
    assert (t ∈ omap spe_translation (pagewalkEvents (mm c))) as Hin by (rewrite E; by left).
    apply list_elem_of_omap in Hin as (e & [w Hw']%list_elem_of_lookup & Ee). pose proof (lookup_lt_Some _ _ _ Hw') as Hlt.
    destruct (lookup_lt_is_Some_2 (activeWalkers (mm c)) w ltac:(lia)) as [a Ha]. destruct (Hfree w a Ha) as [_ E']. rewrite Hw' in E'. injection E' as ->. done.
  - destruct (pendingWalks (mm c)) as [|t l] eqn:E; [done|exfalso]. pose proof (mo_some _ _ H) as Hs. pose proof (mo_pending _ _ H) as Hp. rewrite E in Hp. specialize (Hp ltac:(done)).
    destruct (activeWalkers (mm c)) as [|a A] eqn:EA; [done|]. destruct (Hfree 0%nat a eq_refl) as [-> _]. by apply Forall_cons in Hp as [? _].
Qed.

(** The event that is due first. *)
Lemma fire_first c : mmu_ok [] c → faultTimeoutEvent (mm c) = None → due (mm c) ≠ [] → ∃ o, progress o.2 = true ∧ guard c o = true.
Proof.
  intros H Hto Hne. destruct (least _ Hne) as (k & Hk & Hmin). pose proof (due_now c H) as Hdue. rewrite forallb_forall in Hdue.
  assert (Hnow : (now c <=? k) && forallb (λ k', k <=? k') (due (mm c)) = true).
  { apply andb_true_iff. split; [by apply Hdue, list_elem_of_In|]. apply forallb_forall. intros k' Hk'%list_elem_of_In. apply Z.leb_le. by apply Hmin. }
  unfold due in Hk. rewrite Hto, !elem_of_app in Hk. destruct Hk as [Hk|[Hk|Hk]]; [| |by apply not_elem_of_nil in Hk].
  - exists (k, Miss). split; [done|]. unfold guard; cbn [fst snd]. rewrite Hnow. destruct (startMissEvent (mm c)) as [k'|]; [|by apply not_elem_of_nil in Hk].
    apply list_elem_of_singleton in Hk as ->. by apply bool_decide_eq_true.
  - apply list_elem_of_omap in Hk as (e & [w He]%list_elem_of_lookup & Ew). exists (k, StartWalk w). split; [done|]. unfold guard; cbn [fst snd]. rewrite Hnow.
    apply bool_decide_eq_true. by rewrite He.
Qed.

Lemma nothing_left c : mmu_ok [] c → outstandingFaultStatus (mm c) ≠ InKernel → due (mm c) = [] → omap id (walking (mm c)) = [] → requests (mm c) = ∅.
Proof.
  intros H Hs Hd Hw. unfold due in Hd. apply app_nil in Hd as [Hm [He _]%app_nil].
  destruct (idle_walkers c H He Hw) as [Ht Hp]. assert (Hq : queued (mm c) = []) by (unfold queued; by rewrite Hp, Ht, Hw).
  pose proof (mo_fault _ _ H) as Hf. unfold fault_ok in Hf.
  assert (Hpl : places (mm c) = []).
  { unfold places, kernel. rewrite Hq. destruct (outstandingFaultStatus (mm c)); [|done|].
    - destruct Hf as (-> & _). done.
    - destruct Hf as (? & ? & _ & _ & _ & Hin & _). rewrite Hq in Hin. by apply not_elem_of_nil in Hin. }
  assert (Hmiss : startMisses (mm c) = []).
  { destruct (mo_misses _ _ H) as (ticks & F & _ & E & _). destruct F; [done|]. by rewrite E in Hm. }
  destruct (mo_waiting _ _ H) as [W1 W2 W3 W4 W5 W6]. apply map_eq. intros t. rewrite lookup_empty. destruct (requests (mm c) !! t) as [r|] eqn:Er; [exfalso|done].
  assert (is_Some (st (mm c) !! t)) as [Hin|(vp & l & Hl & _)]%W1 by (unfold st; rewrite lookup_fmap, Er; by eexists).
  - rewrite Hmiss in Hin. by apply not_elem_of_nil in Hin.
  - destruct (W4 vp l Hl) as [_ Hne]. destruct l as [|x l]; [done|]. assert (x ∈ [] ++ places (mm c)) as Hx by (apply W6; by exists vp, l).
    rewrite Hpl in Hx. by apply not_elem_of_nil in Hx.
Qed.

Lemma mmu_goes_on c : mmu_ok [] c → (length (finished (mm c)) < length (requested c))%nat → ∃ o, progress o.2 = true ∧ guard c o = true.
Proof.
  intros H Hlt. assert (Hnow : (now c <=? now c) && forallb (λ k, now c <=? k) (due (mm c)) = true) by (by rewrite Z.leb_refl, (due_now c H)).
  pose proof (mo_fault _ _ H) as Hf. unfold fault_ok in Hf. destruct (decide (outstandingFaultStatus (mm c) = InKernel)) as [Es|Es].
  { rewrite Es in Hf. destruct Hf as (t & r & _ & _ & _ & [(E1 & _)|(E2 & _)]).
    - exists (now c, Invoke 0). split; [done|]. unfold guard; cbn [fst snd]. by rewrite Hnow, E1.
    - exists (now c, KernelDone 0). split; [done|]. unfold guard, isFaultInFlight; cbn [fst snd]. by rewrite Hnow, E2, Es. }
  destruct (omap id (walking (mm c))) as [|t W] eqn:EW.
  2: { assert (t ∈ omap id (walking (mm c))) as Hin by (rewrite EW; by left). apply list_elem_of_omap in Hin as (o & [w Hw]%list_elem_of_lookup & Eo).
       exists (now c, EndWalk w). split; [done|]. unfold guard; cbn [fst snd]. rewrite Hnow, Hw. cbn in Eo |- *. by rewrite Eo. }
  assert (Hto : faultTimeoutEvent (mm c) = None).
  { destruct (outstandingFaultStatus (mm c)); [by destruct Hf as (_ & _ & ?)|done|by destruct Hf as (? & ? & _ & _ & ? & _)]. }
  destruct (decide (due (mm c) = [])) as [E0|Hne]; [exfalso|by apply fire_first].
  pose proof (nothing_left c H Es E0 EW) as Hr. destruct (mo_log _ _ H) as (l & Hl & _ & Hp).
  rewrite Hl, length_fmap, Hp, length_app in Hlt. unfold out, st in Hlt. rewrite Hr, fmap_empty, map_to_list_empty in Hlt. cbn in Hlt. lia.
Qed.

Lemma work_nonneg c : mmu_ok [] c → 0 ≤ work (mm c).
Proof.
  intros H. assert (Hw : walks (mm c) ≤ Z.of_nat (length (queued (mm c)))) by (unfold walks, queued; rewrite !length_app; lia).
  pose proof (mo_fault _ _ H) as Hf. unfold work, base_work, fault_work. unfold fault_ok in Hf. destruct (outstandingFaultStatus (mm c)); [lia|destruct (_ =? _); lia|].
  destruct Hf as (t & _ & _ & _ & _ & Hin & _). cbn [app] in Hin. destruct (queued (mm c)) as [|x q]; [by apply not_elem_of_nil in Hin|]. cbn [length] in *. lia.
Qed.

(** ** A new system *)

Lemma new_tlb_right t p n a : 0 < n → 0 ≤ a → (a = 0 ∨ n mod a = 0) → ∃ m, new_tlb n a = Ok m ∧ tlb_right t p m.
Proof.
  intros Hn Ha Hm. destruct (new_tlb_ok t n a Hn Ha Hm) as (m & E & Hok). exists m. split; [done|]. split; [done|].
  intros vp pp (e & He & Hf & _). exfalso. unfold new_tlb in E. apply bind_ok in E as (? & _ & [= <-]). unfold set_of in He. cbn in He.
  destruct (replicate _ (replicate _ new_entry) !! _) as [s|] eqn:Es; [|by apply not_elem_of_nil in He].
  apply lookup_replicate in Es as [-> _]. apply elem_of_replicate in He as [-> _]. done.
Qed.

Definition tlb_fits (n a : Z) : Prop := n ≤ 0 ∨ 0 ≤ a ∧ (a = 0 ∨ n mod a = 0).

Lemma new_mmu_ok t p walkers cores n2 a2 n1 a1 : (0 < walkers)%nat → tlb_fits n2 a2 → tlb_fits n1 a1 → 0 < t →
  (∀ vp pp, p !! vp = Some pp → pp mod PageBytes = 0) → ∃ m, new_mmu walkers cores n2 a2 n1 a1 = Ok m ∧ mmu_ok [] (mkConf t m p []).
Proof.
  intros Hw H2 H1 Ht Hp. unfold new_mmu.
  assert (∃ o, (if 0 <? n2 then t ← new_tlb n2 a2; Ok (Some t) else Ok None) = Ok o ∧ ∀ x, o = Some x → tlb_right t p x) as (o & -> & Ho).
  { destruct (Z.ltb_spec 0 n2); [|by exists None]. destruct H2 as [|[? ?]]; [lia|]. destruct (new_tlb_right t p n2 a2) as (m & -> & Hm); [done..|].
    exists (Some m). split; [done|]. by intros ? [= <-]. }
  cbn [mbind res_bind]. unfold new_tlb_memory.
  assert (∃ x, (if 0 <? n1 then t ← new_tlb n1 a1; Ok (Finite t) else Ok (Infinite ∅)) = Ok x ∧ memory_right t p x) as (x & -> & Hx).
  { destruct (Z.ltb_spec 0 n1); [|exists (Infinite ∅); split; [done|apply map_empty_subseteq]]. destruct H1 as [|[? ?]]; [lia|].
    destruct (new_tlb_right t p n1 a1) as (m & -> & Hm); [done..|]. by exists (Finite m). }
  cbn [mbind res_bind]. eexists. split; [reflexivity|]. constructor; cbn; try done.
  - apply new_clock_ok; lia.
  - split; [intros ? ? ?; by rewrite lookup_empty|]. intros i w E. by apply lookup_replicate in E as [? _].
  - by apply Forall_replicate.
  - exists []. split_and!; try done; constructor.
  - assert (Hpl : omap spe_translation (replicate walkers (mkSPE None None)) = [] ∧ omap id (replicate walkers (@None nat)) = []) by (clear; induction walkers; done).
    destruct Hpl as [P1 P2]. unfold places, queued. cbn. rewrite P1, P2. cbn [app option_list]. split.
    + intros i. unfold st. cbn. rewrite fmap_empty, lookup_empty. split; [by intros []|]. intros [?|(vp & l & Hl & _)]; [by apply not_elem_of_nil in H|by rewrite lookup_empty in Hl].
    + split; [constructor|]. intros i vp l Hl. by rewrite lookup_empty in Hl.
    + intros vp l i r Hl. by rewrite lookup_empty in Hl.
    + intros vp l Hl. by rewrite lookup_empty in Hl.
    + constructor.
    + intros i. split; [by intros ?%not_elem_of_nil|]. intros (vp & l & Hl). by rewrite lookup_empty in Hl.
  - constructor; [by rewrite !length_replicate|]. intros i a e w [-> _]%lookup_replicate [-> _]%lookup_replicate [-> _]%lookup_replicate. by left.
  - destruct walkers; [lia|done].
  - by exists [].
Qed.

(** C8: a GPU whose cores have TLBs of any size and an MMU with at least one page
    walker, with or without a TLB of its own and with prefetching off, handles every
    sequence of translations, misses, walks and page faults without a failing
    assertion, a use of a freed request or a panic, if the kernel maps a page before
    it ends a fault and does so before the time-out.  Each finished translation has
    the physical address of its page in the page table, no translation is finished
    more often than it was asked for, and while one is not finished the system has a
    step other than a new request; every such step reduces the work left, so that all
    translations finish. *)
Theorem translations_ok walkers cores n2 a2 n1 a1 t p ops :
  (0 < walkers)%nat → tlb_fits n2 a2 → tlb_fits n1 a1 → 0 < t → (∀ vp pp, p !! vp = Some pp → pp mod PageBytes = 0) →
  ∃ m c, new_mmu walkers cores n2 a2 n1 a1 = Ok m ∧ foldM gstep (mkConf t m p []) ops = Ok c ∧
    (∃ l l', finished (mm c) = answer_of (pt c) <$> l ∧ Forall (λ x : nat * Addr, is_Some (pt c !! page x.2)) l ∧ requested c ≡ₚ l ++ l') ∧
    ((length (finished (mm c)) < length (requested c))%nat → ∃ o, progress o.2 = true ∧ guard c o = true) ∧
    (∀ o, guard c o = true → ∃ c', step c o = Ok c' ∧ (progress o.2 = true → work (mm c') < work (mm c))) ∧ 0 ≤ work (mm c).
Proof.
  intros Hw H2 H1 Ht Hp. destruct (new_mmu_ok t p walkers cores n2 a2 n1 a1 Hw H2 H1 Ht Hp) as (m & E & H).
  destruct (mmu_run_ok ops _ H) as (c & Ec & Hc). exists m, c. split; [done|]. split; [done|]. split_and!.
  - destruct (mo_log _ _ Hc) as (l & E1 & E2 & E3). by exists l, (out (st (mm c))).
  - by apply mmu_goes_on.
  - intros o Hg. destruct (mmu_step_ok c o Hc Hg) as (c' & ? & _ & ?). by exists c'.
  - by apply work_nonneg.
Qed.
End run.

(** One walker and two cores: two translations of one page share a walk that
    faults, the kernel maps the page, and a third one hits in the TLB. *)
Definition ex_ops : list (Tick * op) :=
  [(1, Translate 0 0 0 0x5008 Write); (1, Translate 1 1 0 0x5010 Read); (20, Miss); (20, Miss); (30, StartWalk 0); (31, EndWalk 0);
   (40, Invoke 77); (50, KernelDone 0x9000); (60, StartWalk 0); (65, EndWalk 0); (70, Translate 0 2 0 0x5ffc Read)].

Lemma translations_ok_witness :
  ∃ m c, new_mmu 1 2 4 2 2 0 = Ok m ∧ foldM (gstep 10 1 1000) (mkConf 1 m ∅ []) ex_ops = Ok c ∧
    finished (mm c) = [(0%nat, 0x9008); (1%nat, 0x9010); (2%nat, 0x9ffc)] ∧
    ∃ l l', finished (mm c) = answer_of (pt c) <$> l ∧ Forall (λ x : nat * Addr, is_Some (pt c !! page x.2)) l ∧ requested c ≡ₚ l ++ l'.
Proof.
  destruct (translations_ok 10 1 1000 ltac:(lia) ltac:(lia) ltac:(lia) 1 2 4 2 2 0 1 ∅ ex_ops) as (m & c & E & Ec & Hl & _);
    [lia|right; split; [lia|by right]|right; split; [lia|by left]|lia|intros vp pp; by rewrite lookup_empty|].
  exists m, c. split; [exact E|]. split; [exact Ec|]. split; [|exact Hl].
  assert ((λ c, finished (mm c)) <$> (m ← new_mmu 1 2 4 2 2 0; foldM (gstep 10 1 1000) (mkConf 1 m ∅ []) ex_ops) =
    Ok [(0%nat, 0x9008); (1%nat, 0x9010); (2%nat, 0x9ffc)]) as E' by (vm_compute; reflexivity).
  rewrite E in E'. cbn [mbind res_bind] in E'. rewrite Ec in E'. cbn in E'. injection E' as E'. exact E'.
Defined.

(** ** Prefetching and late ends of faults *)

Lemma schedule_keeps P t w i m m' : schedulePagewalk P t w i m = Ok m' → requests m' = requests m ∧ next_request m' = next_request m.
Proof.
  unfold schedulePagewalk. intros (? & _ & (spe & _ & (? & _ & E)%bind_ok)%bind_ok)%bind_ok. unfold clock_edge in E.
  apply bind_ok in E as (ev & _ & E). injection E as <-. done.
Qed.

(** C39: a prefetch is not marked as one and has no TLB to return to, so that a
    prefetched walk that finds its page always stops the simulator in
    [finalizeTranslation], whatever happened in between. *)
Theorem prefetch_crashes P size t vp m m' : tryPrefetch P size t vp m = Ok m' → next_request m' ≠ next_request m →
  ∃ r, requests m' !! next_request m = Some r ∧ vaddr r = u64 (vp + PageBytes) ∧
    ∀ t2 m2 r2, requests m2 !! next_request m = Some r2 → origTLB r2 = origTLB r → prefetch r2 = prefetch r →
      ∀ m3, finalizeTranslation size t2 (next_request m) m2 ≠ Ok m3.
Proof.
  unfold tryPrefetch. intros E Hn. repeat (destruct (_ : bool) in E; [injection E as <-; done|]).
  apply bind_ok in E as ([hit m1] & E1 & E).
  assert (Hm1 : requests m1 = requests m ∧ next_request m1 = next_request m).
  { unfold l2_lookup in E1. destruct (tlb m); [|by injection E1 as _ <-]. apply bind_ok in E1 as (? & _ & E1). by injection E1 as _ <-. }
  destruct Hm1 as [Hr1 Hn1]. repeat (destruct (isSome _) in E; [injection E as <-; done|]). cbn [alloc] in E.
  unfold alloc in E. cbn [fst snd] in E. match type of E with context [getFreeWalker ?mm] => set (m2 := mm) in E end.
  assert (Hm2 : requests m2 = <[next_request m := new_translation None None (u64 (vp + PageBytes)) Read 1 false]> (requests m))
    by (change (<[next_request m1 := new_translation None None (u64 (vp + PageBytes)) Read 1 false]> (requests m1) = <[next_request m := new_translation None None (u64 (vp + PageBytes)) Read 1 false]> (requests m)); by rewrite Hn1, Hr1).
  assert (Hg : requests (getFreeWalker m2).2 = requests m2) by (unfold getFreeWalker; by destruct (first_index _ _)).
  destruct (getFreeWalker m2) as [[w|] m4]; [|done]. cbn [snd] in Hg. apply schedule_keeps in E as [Er _].
  eexists. split; [by rewrite Er, Hg, Hm2, lookup_insert_eq|]. split; [done|]. intros t2 m5 r2 H5 Ho Hp m6 E6.
  unfold finalizeTranslation, get in E6. rewrite H5 in E6. cbn [mbind res_bind] in E6. rewrite Hp, Ho in E6.
  destruct (walks_of (vpBase r2) m5) as [|front ws]; [done|]. apply bind_ok in E6 as (? & _ & E6). apply bind_ok in E6 as (m7 & E7 & _).
  cbn [prefetch new_translation] in E7. by apply bind_ok in E7 as (? & _ & E7).
Qed.

(** With two walkers, the miss of page 5 starts a prefetch of page 6 that is found. *)
Definition ex_prefetch (m : MMU) : res MMU :=
  m ← translateTiming 10 1 1 0 0 0 0x5008 Read m;
  m ← handleTLBMiss 10 1 20 m;
  m ← process_walk 10 30 0 m;
  m ← process_walk 10 30 1 m;
  walker_answers 10 1000 1 true 40 1 (Some 0x7000) m.

Lemma prefetch_crashes_witness :
  (m ← new_mmu 2 1 0 0 0 0; ex_prefetch m) = Fault (Panic "null pointer") ∧
  ∃ m m', tryPrefetch 10 1 20 0x5000 m = Ok m' ∧ ∃ r, requests m' !! 0%nat = Some r ∧ vaddr r = 0x6000 ∧
    ∀ t2 m2 r2, requests m2 !! 0%nat = Some r2 → origTLB r2 = origTLB r → prefetch r2 = prefetch r → ∀ m3, finalizeTranslation 1 t2 0 m2 ≠ Ok m3.
Proof.
  split; [vm_compute; reflexivity|].
  destruct (new_mmu 2 1 0 0 0 0) as [m|] eqn:E; [|discriminate E].
  assert ((λ m', (next_request m, next_request m')) <$> tryPrefetch 10 1 20 0x5000 m = Ok (0%nat, 1%nat)) as H by (injection E as <-; vm_compute; reflexivity).
  destruct (tryPrefetch 10 1 20 0x5000 m) as [m'|] eqn:E'; [|discriminate H]. cbn in H. injection H as H0 H1.
  exists m, m'. split; [exact E'|]. rewrite <-H0. apply (prefetch_crashes 10 1 20 0x5000 m m' E'). rewrite H0, H1. discriminate.
Defined.

(** C40: the end of a page fault takes the time-out away before it looks at the
    faulting address, whether the end is for another address, and ignored with the
    fault still in the kernel, or starts the retry.  In every later state [m2] in which
    the time-out event is as it was left, that is, if no new fault has been raised in
    between, the next end of a fault panics. *)
Theorem second_finish_panics P t m m' : handleFinishPageFault P t m = Ok m' →
  ∀ t2 m2, faultTimeoutEvent m2 = faultTimeoutEvent m' → handleFinishPageFault P t2 m2 = Fault (Panic "faultTimeoutEvent not scheduled!").
Proof.
  intros E t2 m2 E2. assert (Hn : faultTimeoutEvent m' = None); [|unfold handleFinishPageFault; by rewrite E2, Hn].
  unfold handleFinishPageFault in E. destruct (negb _); [done|]. apply bind_ok in E as (ev & Ev & E).
  assert (ev = None) as -> by (unfold deschedule in Ev; by apply bind_ok in Ev as (? & _ & [= <-])).
  apply bind_ok in E as (? & _ & E). destruct (negb _) in E; [done|]. apply bind_ok in E as (i & _ & E). apply bind_ok in E as (info & _ & E).
  destruct (negb _) in E; [by injection E as <-|]. case_decide; [by injection E as <-|]. unfold cur_cycle in E. cbn [fst snd] in E.
  match type of E with context [getFreeWalker ?mm] => set (m3 := mm) in E end.
  assert (Hg : faultTimeoutEvent (getFreeWalker m3).2 = None) by (unfold getFreeWalker; by destruct (first_index _ _)).
  destruct (getFreeWalker m3) as [[w|] m4]; cbn [snd] in Hg; [|by injection E as <-].
  unfold schedulePagewalk in E. apply bind_ok in E as (? & _ & E). apply bind_ok in E as (spe & _ & E). apply bind_ok in E as (? & _ & E).
  unfold clock_edge in E. apply bind_ok in E as (ev & _ & E). injection E as <-. exact Hg.
Qed.

(** The fault of page 5 ends while the fault address register names page 6. *)
Definition ex_fault : res MMU :=
  m ← new_mmu 1 1 0 0 0 0;
  m ← translateTiming 10 1 1 0 0 0 0x5008 Read m;
  m ← handleTLBMiss 10 0 20 m;
  m ← process_walk 10 30 0 m;
  m ← walker_answers 10 1000 0 true 40 0 None m;
  m ← gpu_fault_invoke 7 m;
  Ok (m <| regs ::= λ g, g <| cr2 := 0x6000 |> |>).

Lemma second_finish_panics_witness :
  ∃ m m', ex_fault = Ok m ∧ handleFinishPageFault 10 50 m = Ok m' ∧ outstandingFaultStatus m' = InKernel ∧
    handleFinishPageFault 10 60 (m' <| regs ::= λ g, g <| cr2 := 0x5008 |> |>) = Fault (Panic "faultTimeoutEvent not scheduled!").
Proof.
  assert (∃ m m', ex_fault = Ok m ∧ handleFinishPageFault 10 50 m = Ok m' ∧ outstandingFaultStatus m' = InKernel) as (m & m' & E & E' & Es).
  { destruct ex_fault as [m|] eqn:E; [|vm_compute in E; discriminate E]. exists m.
    assert (((λ m, outstandingFaultStatus m) <$> (m ← ex_fault; handleFinishPageFault 10 50 m)) = Ok InKernel) as H by (vm_compute; reflexivity).
    rewrite E in H. cbn [mbind res_bind] in H. destruct (handleFinishPageFault 10 50 m) as [m'|]; [|discriminate H]. exists m'.
    split; [reflexivity|]. split; [reflexivity|]. cbn in H. injection H as H. exact H. }
  exists m, m'. split; [exact E|]. split; [exact E'|]. split; [exact Es|].
  apply (second_finish_panics 10 50 m m' E' 60). reflexivity.
Defined.
End MMUProofs.
